(* ===== verification/_CoqProject ===== *)
-Q . S2P
Prelude.v
ProtoKey.v
ProtoFrame.v
StreamDecoder.v
Reader.v
DerpFrame.v
DerpFrames.v
DerpRelay.v
DerpLogin.v
DerpClient.v
Net.v
Stun.v
TransportRecord.v
TransportStream.v
Noise.v
Sessions.v
Events.v
IpAlloc.v
Pending.v
Text.v
WebSocket.v
IpText.v
Proxy.v
RateLimit.v
Upgrade.v
TransportAwait.v
PolicyModel.v
Hujson.v
HujsonLang.v
HujsonSound.v
HujsonAccept.v
PolicyTags.v
PolicyRoutes.v
PolicyCompile.v
PolicyResolve.v
PolicyVisibility.v
Validate.v
PolicyLoad.v
NetMap.v
PreAuth.v
Store.v
Backup.v
StoreRows.v
StoreBackup.v
Migrate.v
Dns.v
SshPolicy.v
Delta.v
Control.v
Registration.v
MapRequest.v
Demo.v
Url.v
SshCheck.v
Cli.v
Http.v
Oidc.v
Router.v
PlaneInv.v
Admission.v
Security.v
Server.v
Peer.v
MapSessions.v
Flows.v
Corners.v
Metrics.v
DerpUpgrade.v
Config.v
Listen.v
Startup.v
