(* ===== verification/Prelude.v ===== *)
(** * Crabscale: a verification library of the Crabscale control server

    Crabscale is a control server for Tailscale-compatible clients.  A client
    opens a Noise-protected connection ([crabscale-transport]), registers its
    node and keeps a long poll open on which the server streams network maps
    ([crabscale-control]): which peers there are, under which addresses, and
    which packets the policy lets through ([crabscale-policy]).  Clients that
    cannot reach each other directly exchange packets through a DERP relay and
    find their public address by STUN ([crabscale-derp]).  The wire vocabulary
    is in [crabscale-proto]; [crabscale-server] is the HTTP front: it upgrades
    connections, authenticates them by their Noise handshake, and routes the
    requests of browsers and of machines to the control plane.

    The library is a shallow embedding of that code.  A Rust function is a
    function, a method on [&mut self] takes and returns the state, a [Result]
    is [result] (in this file), a struct is a record and an enum an inductive
    type, both under the source's names up to a prefix where two sources use
    the same one.  Machine integers are integers with their wrap-around
    written out where the code relies on it; byte buffers are lists of
    integers; strings are lists of code points ([Text]).  A [HashMap] or
    [BTreeMap] is a finite map; where the code iterates one, the order is
    ascending for a [BTreeMap] and a parameter for a [HashMap].

    ** Files

    - [Prelude]: results and guards, slices and fixed-width integers, and the
      tactics and lemmas all files share.
    - [ProtoKey] ([crabscale-proto/src/key.rs]): the text forms of keys.
    - [ProtoFrame] ([frame.rs], [capver.rs]): frames of the map stream and the
      capability gates.
    - [StreamDecoder], [Reader]: the two ways the code reads frames, a buffer
      that is fed chunks and an asynchronous reader, as interfaces with their
      laws; the decoders of [DerpFrame] and [TransportRecord] are instances.
    - [DerpFrame] ([crabscale-derp/src/frame.rs], [codec.rs]), [DerpFrames]
      ([frames.rs]): the frames of the relay protocol and all their bodies.
    - [DerpRelay] ([server.rs]): the relay's registry and queues.  Its tasks
      interleave, so the relay is a transition system ([relay_step]) whose
      events are the calls the tasks make.
    - [DerpLogin] ([handshake.rs], [server.rs]): the login over an abstract
      [CryptoBox] and an abstract JSON codec, whose laws are the documented ones
      (what was sealed opens, what was written parses).  [DerpClient]
      ([client.rs]): the other end, over a byte stream.
    - [Net], [Stun] ([stun.rs]): addresses, prefixes, binding messages.
    - [TransportRecord] ([crabscale-transport/src/messages.rs], [record.rs],
      [error.rs]): handshake message layouts and the record layer over an
      abstract [Aead]; [TransportStream] ([stream.rs]): the poll functions of
      the Noise stream over an inner stream that answers anything; [Noise]
      ([noise.rs]): both ends of the handshake over abstract primitives whose
      laws are the documented ones; [Upgrade] ([upgrade.rs], [early.rs],
      [http2.rs]): what comes before HTTP/2; [TransportAwait] ([stream.rs],
      [http2.rs]): the awaited calls of the stream, and the server's use of it.
    - [WebSocket] ([crabscale-derp/src/websocket.rs]): the frame codec and the
      byte stream over it, one more instance of [StreamDecoder].  [DerpUpgrade]
      ([upgrade.rs]): which transport a DERP connection speaks.
    - [Sessions] ([crabscale-control/src/session.rs]), [Events]
      ([events.rs]), [IpAlloc] ([ip_allocator.rs]), [Pending] ([pending.rs]):
      presence of nodes, coalescing of changes, address allocation with the
      random draws as a parameter, and the cache of pending registrations.
    - [Text], [IpText]: strings, and the parsing and printing of addresses as
      the standard library does them, with networks and masks
      ([crabscale-policy/src/routes.rs], [compile.rs]).
    - [PolicyModel] ([model.rs]), [PolicyTags] ([tags.rs]), [PolicyRoutes]
      ([routes.rs]), [PolicyCompile] ([compile.rs]): the policy engine;
      [PolicyResolve] and [PolicyVisibility] hold the theorems about the
      compiler.
    - [Hujson] ([hujson.rs]): the parser of policy documents, in a state monad
      with errors and fuel; [HujsonLang] defines the language as relations
      between texts and values, [HujsonSound] and [HujsonAccept] show that the
      parser decides it.  [Validate] ([validate.rs], [error.rs]): the checks of
      a document and the lines they report; [PolicyLoad] ([lib.rs]): the whole
      of [parse_policy], and what the checks promise the compiler.
    - [NetMap] ([crabscale-control/src/model.rs], [crabscale-proto/src/netmap.rs],
      [hostinfo.rs]), [Delta] ([crabscale-control/src/delta.rs] and the helpers
      of [lib.rs] it calls): the peers of a session and the deltas it is sent.
      [Delta] is where the parts meet: presence from [Sessions], visibility and
      routes from the policy files.
    - [PreAuth] ([preauth.rs], [time.rs]): pre-auth keys over an abstract hash
      ([KeyCrypto]) and an abstract date parser ([Rfc3339]).
    - [Store] ([store.rs]): the tables as finite maps, one definition per SQL
      statement, over an abstract choice of row ids ([Sqlite], with SQLite's
      documented laws).  [StoreRows]: the parameters of its [INSERT]s and the
      columns of its [SELECT]s, and how they are read back.  [Backup]
      ([backup.rs]): archives of the store, over the rows SQLite holds and the
      schema of [store.rs]; [StoreBackup]: the records through an archive.
      [Migrate] ([run_migrations] of [store.rs]): the migrations, statement by
      statement.
    - [Dns] ([dns.rs], [derp.rs] of [crabscale-control] and [crabscale-proto]):
      the DNS configuration and its reload, the DERP map.  [SshPolicy]
      ([crabscale-policy/src/ssh.rs], [crabscale-proto/src/ssh.rs]): the SSH
      rules of a node, on the server and on the wire.
    - [Control] ([lib.rs]): the state of the control plane, its errors, and the
      monad its methods run in, with two proof calculi: [post] (what a handler
      establishes) and [keeps] (a relation every step keeps).
    - [Registration] ([lib.rs], [crabscale-proto/src/register.rs]): how a node
      joins, returns and leaves; the methods compose as in the source.
    - [MapRequest] ([lib.rs], [delta.rs], [crabscale-proto/src/netmap.rs],
      [ping.rs]): map requests, the first map, the deltas, their frames.
    - [SshCheck] ([ssh.rs]): the check mode of SSH; [Url]
      ([crabscale-server/src/router.rs]): the URLs it hands out and how the
      router reads them.
    - [Cli] ([crabscale-cli/src/main.rs]): the command-line client, a control
      plane of its own over the same store.
    - [Demo]: concrete instances of the abstract classes, a configuration and
      requests, on which the examples evaluate the handlers.
    - [PlaneInv], [Admission]: what the handlers keep and how each of them
      moves the node table; [plane_step] is one call on the plane, one run of the
      client beside it, or a restart, and [reachable] its closure.  [Security], [MapSessions], [Flows], [Corners]:
      the theorems about reachable states, about a client and its map session,
      about whole flows, and about corner cases.
    - [Proxy], [RateLimit], [Oidc] ([crabscale-server/src/proxy.rs],
      [rate_limit.rs], [oidc.rs]): the client's address behind proxies, the
      token buckets with their doubles, the relying party and its flows.
      [Http] ([http.rs], [router.rs], [bootstrap_dns.rs]): requests, answers
      and the helpers on them.
    - [Router] ([router.rs]): every handler, outer and inner, over the control
      plane, the flows and the limiters, and the loop that streams a session.
      [Server] ([http.rs], [key.rs]): the dispatch of outer requests and the
      upgrade; [serves] closes requests, pushes and background tasks into
      histories, nested where a request waits for others.
    - [Peer] ([crabscale-harness/src/client.rs]): the client of the harness, from
      the key of the server to its logout, over sockets that are scripts.
    - [Config] ([config.rs], [tls.rs], [main.rs]): the layers of the
      configuration; [Listen] ([http.rs], [tls.rs], [stun.rs]): the TLS acceptor
      and the loops that accept; [Startup] ([main.rs]): from the configuration to
      a server that runs.
    - [Metrics] ([crabscale-metrics/src/lib.rs]): the page and its cells, a gauge
      being a transition system of the tasks that change it.

    ** Theorems

    - Codecs: every encoder is inverted by its decoder whatever follows and
      however the stream is cut, decoders accept nothing else and refuse early
      ([derp_frame_exact], [frame_decoder_roundtrip],
      [frame_decoder_rejects_early], [read_frame_refines],
      [messages_over_wire], [map_frame_decode_exact], [from_str_spec],
      [stun_response_roundtrip], [record_stream_roundtrip],
      [canonical_route_normal_form]).  Frames of the relay cross a WebSocket
      however it fragments them ([ws_messages_reassembled],
      [derp_over_websocket]).
    - Entering: the handshake gives both ends one channel, a first message that
      is accepted is the one the holder of the machine's secret writes and
      cannot be altered ([handshake_channel], [accepted_init_is_genuine],
      [accepted_init_not_malleable]).  The client of the harness learns the key,
      gets in, has a stream that agrees with the server's and reads its challenge,
      over a socket that cuts the bytes anywhere; its session is a registration, a
      map and a logout of the plane ([server_key_fetched], [peer_enters],
      [write_all_read_exact], [peer_session_served]).
    - Listening: a TLS acceptor is built exactly from complete settings, connections
      are served in order, a STUN client reads its own address
      ([load_tls_exact], [started_tls_usable], [listener_serves],
      [stun_client_answered]).
    - The server as a whole: any history of requests is a run of operations of
      the control plane, registrations only by machines whose handshake was
      accepted, so a node is authorized only behind the secret of its machine
      and a credential ([server_refines_plane], [admission_end_to_end]), from
      the start of the process, under any configuration, beside the client and
      across restarts ([started_server_safe]).  The client does to the store what
      the server would ([cli_as_server]); the layers of the configuration have
      the order that is documented ([config_precedence]).  A
      callback approves only a flow of this server whose token is accepted
      ([oidc_callback_sound], [id_token_accepted]); the client's address cannot
      be chosen by an untrusted peer ([client_ip_unspoofable]); limiters admit
      the burst and keep their table small ([burst_then_refused],
      [limiter_table_bounded]).
    - The relay: the registry invariant under every interleaving, exact routing,
      announcements, and authenticity of every queued packet
      ([relay_registry_consistent], [route_send_packet_exact],
      [deregister_announces_last], [relay_packets_authentic]); admission
      ([login_sound], [login_complete]).  The client's login agrees with the
      relay's, a packet one client sends is what the other receives, over byte
      streams cut anywhere, and the client's loops return
      ([derp_login_agrees], [derp_packet_arrives], [client_calls_return]).
    - The record layer: nonces are never reused, a write goes out exactly once,
      reads lose nothing ([record_nonces_unique], [poll_write_exactly_once],
      [poll_read_conserves]).
    - Control-plane state: presence refines a two-state automaton, the bus
      delivers the net effect, allocation is fresh and in range, the cache is
      a bounded LRU list ([session_presence_refines], [reconnect_grace],
      [bus_delivers_net_effect], [allocate_fresh_in_prefix],
      [pending_cache_refines_lru]).
    - Policy: target resolution is the closure of group membership, visibility
      and filters are exactly what the rules say, what is allowed is admitted,
      tag ownership and route approval are exact ([resolve_is_closure],
      [compile_visibility_exact], [compile_filters_exact],
      [allowed_is_admitted], [user_can_use_tag_decides],
      [tag_owned_by_tags_exact], [auto_approved_routes_exact]).  The parser
      returns, accepts exactly the language and locates its errors; a document
      is loaded exactly when it is typed and passes the checks, and a
      destination that passes compiles to its ports ([parse_returns],
      [parse_iff], [parse_policy_exact], [parse_policy_errors_located],
      [checked_destination_is_compiled]).
    - Maps: a session shows exactly the authorized, visible peers; a client that
      applies a delta holds exactly the current peers; nothing is sent twice
      ([current_peers_exact], [delta_converges], [delta_quiescent]).  The same
      from the request to the client: the first map is exact, the client never
      drifts from what the server recorded as sent, a request writes to its own
      node only ([first_map_exact], [session_in_sync],
      [map_request_writes_own]).
    - DNS: the derived resolver lies in the prefix ([magic_dns_in_prefix]).
    - SSH: the compiled rules select the first matching rule of the policy and
      agree with the wire rules, periods parse exactly, a connection is accepted
      only on a rule or an approval of it, an approval in time admits, the
      records are bounded, the URL of a held request parses back
      ([ssh_first_match_exact], [wire_ssh_agrees], [parse_ssh_duration_exact],
      [ssh_accept_sound], [ssh_approval_admits], [held_records_bounded],
      [ssh_action_url_parses]).
    - Registration: only a valid pre-auth key or an approved followup of the
      same machine authorizes a node, addresses stay unique and the tables
      sound, a spent key admits no one, a fresh key and an approved request
      admit whom they should, tag requests are exact
      ([authorization_needs_credential], [reachable_addresses_unique],
      [store_integrity], [single_use_key_spent], [created_key_admits],
      [interactive_flow_admits], [request_tags_exact]).
    - Metrics: the gauge of sessions is exact under every interleaving
      ([sessions_gauge_exact]), and a sample is read back from the page
      ([page_samples_read]).
    - The database on disk: the records of a store written to rows, backed up,
      restored over any database and read back are the records that were there
      ([store_backup_restores]); the migrations give a new file the schema the
      statements are written for, and an old one keeps every row
      ([fresh_database_migrated], [old_database_upgraded]).
    - Behaviour that departs from what the code means to do, proved as such:
      [upsert_on_conflict_loses_stable_id], [tagged_reauth_keeps_owner],
      [single_use_key_race], [reused_row_id_reaped],
      [followup_takes_over_node_key], [tagged_node_cannot_update],
      [oidc_subject_not_stable], [check_period_cut_short],
      [ssh_policy_not_withdrawn], [wire_rule_without_users],
      [dns_names_every_node], [resolver_allocatable],
      [partial_record_reads_as_eof], [flush_duplicates_pending_write],
      [new_peer_expiry_never_sent], [supernet_auto_approved],
      [group_cycle_diverges], [group_drops_autogroup],
      [DerpCodec_default_refuses], [exhausted_with_free_address],
      [buffered_message_not_told], [ws_pending_write_repeats], [ws_pong_lost],
      [unreadable_hop_trusts_the_rest], [bracketed_ipv6_refused],
      [idle_bucket_kept], [query_param_hidden], [bootstrap_keeps_duplicates],
      [clock_back_keeps_keys], [rotated_key_refused], [flags_hide_layers],
      [short_ping_panics], [interrupted_migration_stuck], [split_record_ends_peer],
      [accept_failure_ends_listener], [redirect_needs_flag],
      [started_server_isolates], [stun_port_cut], [cli_never_approves_tags].

    ** Fuel

    Recursion that is not structural carries fuel with a bound that is proved
    enough: the length of the input for the splitting loops ([chunks],
    [attributes]), the number of tag owners for [walk], the number of groups
    for [resolve_single], twice the length of the document and two for the
    parser ([parse]; [parse_returns] shows it is never used up).  The one
    recursion of the code that may not end,
    [principal_matches_user], returns [None] when its fuel, the stack, is used
    up; on acyclic groups ([ranked]) it returns, and the theorems that depend
    on it say so.

    ** Not modelled

    The width of the batch window
    ([change_batch_window]) only sets a timer, and the channel [ssh_waiters]
    only wakes a task that reads the store again; both are left out, as are the
    counters of the metrics.  The batches of all migrations are modelled; the
    theorems about an old database start from version 3 or later, since the
    statements that made the first two versions are no longer in the code.  What the
    server reads at a request (clocks, random bytes, the order of a hash table)
    is an argument, and so is what others do while it waits; the texts of JSON
    are parameters.  Sockets, rustls and ACME, the HTTP libraries, clap and TOML, the
    driver of the harness and the fuzz targets are I/O around libraries.  A command of the client
    is one step, as every handler is.  Failures of the
    database and of the process (disk errors, out of memory, aborted tasks) are
    outside the model; a failing constraint is not. *)

From Stdlib Require Export ZArith Lia ZifyBool.
From stdpp Require Export base list gmap strings sorting numbers.

#[global] Set Default Goal Selector "!".
#[global] Open Scope Z_scope.
#[global] Set Warnings "-clear-no-such-hyp,-level-tolerance,-register-all".

(** ** Notations *)

Declare Scope crab_scope.
Delimit Scope crab_scope with crab.

(** Rust's [Result<A, E>]. *)
Inductive result (A E : Type) : Type :=
| Ok (a : A)
| Err (e : E).
Arguments Ok {A E} a.
Arguments Err {A E} e.

#[global] Instance result_eq_dec {A E} `{EqDecision A, EqDecision E} : EqDecision (result A E).
Proof. solve_decision. Defined.

Definition rbind {A B E} (r : result A E) (k : A → result B E) : result B E :=
  match r with Ok a => k a | Err e => Err e end.

Definition rmap {A B E} (f : A → B) (r : result A E) : result B E :=
  match r with Ok a => Ok (f a) | Err e => Err e end.

(** [Option::ok_or] and [Result::ok]. *)
Definition ok_or {A E} (o : option A) (e : E) : result A E :=
  match o with Some a => Ok a | None => Err e end.

Definition rok {A E} (r : result A E) : option A :=
  match r with Ok a => Some a | Err _ => None end.

Definition map_err {A E F} (f : E → F) (r : result A E) : result A F :=
  match r with Ok a => Ok a | Err e => Err (f e) end.

Notation "'let?' x ':=' r 'in' k" := (rbind r (λ x, k))
  (at level 10, x pattern, r at level 100, k at level 200) : crab_scope.

(** The guard [if c { return Err(e) }] of the sources. *)
Notation "'fail_if' c 'with' e ';;' k" := (if c then Err e else k)
  (at level 10, c at level 99, e at level 99, k at level 200) : crab_scope.

#[global] Open Scope crab_scope.

(** ** Tactics *)

Create HintDb crab discriminated.

(** Splits the innermost [if]/[match] of the goal or of a hypothesis, turning
    the boolean tests of the code into propositions. *)
Ltac breflect :=
  repeat match goal with
  | H : (_ && _)%bool = true |- _ => apply andb_true_iff in H as [? ?]
  | H : (_ || _)%bool = false |- _ => apply orb_false_iff in H as [? ?]
  | H : negb _ = true |- _ => apply negb_true_iff in H
  | H : negb _ = false |- _ => apply negb_false_iff in H
  | H : (_ <? _) = true |- _ => apply Z.ltb_lt in H
  | H : (_ <? _) = false |- _ => apply Z.ltb_ge in H
  | H : (_ <=? _) = true |- _ => apply Z.leb_le in H
  | H : (_ <=? _) = false |- _ => apply Z.leb_gt in H
  | H : (_ =? _) = true |- _ => apply Z.eqb_eq in H
  | H : (_ =? _) = false |- _ => apply Z.eqb_neq in H
  | H : bool_decide _ = true |- _ => apply bool_decide_eq_true in H
  | H : bool_decide _ = false |- _ => apply bool_decide_eq_false in H
  end.

(** Case analysis on the tests of the code, in the goal or in a hypothesis. *)
Ltac crush := repeat (case_match; breflect; simplify_eq); try done.

(** Passes the next bounds guard of the goal, which arithmetic shows not to
    fire. *)
Ltac pass_guard :=
  match goal with
  | |- context [if ?a <? ?b then _ else _] => destruct (Z.ltb_spec a b); [exfalso; lia|]
  end.

(** ** Bytes and slices

    A byte buffer ([Vec<u8>], [&[u8]], [[u8; N]]) is a list of integers in
    [0, 256); lengths and indices ([usize]) are integers. *)

Abbreviation bytes := (list Z).

Definition is_byte (b : Z) : bool := (0 <=? b) && (b <? 256).
Definition wf_bytes (l : bytes) : Prop := Forall (λ b, 0 ≤ b < 256) l.

#[global] Instance wf_bytes_dec l : Decision (wf_bytes l).
Proof. unfold wf_bytes. apply _. Defined.

(** [l.len()] *)
Definition zlen {A} (l : list A) : Z := Z.of_nat (length l).
(** [&l[..n]], [&l[n..]] and [&l[a..b]]; the callers check the bounds. *)
Definition ztake {A} (n : Z) (l : list A) : list A := take (Z.to_nat n) l.
Definition zdrop {A} (n : Z) (l : list A) : list A := drop (Z.to_nat n) l.
Definition slice {A} (a b : Z) (l : list A) : list A := ztake (b - a) (zdrop a l).
(** [l[i]]; the callers check the bound. *)
Definition byte_at (l : bytes) (i : Z) : Z := nth (Z.to_nat i) l 0.
(** [[0u8; n]] *)
Definition zeros (n : Z) : bytes := replicate (Z.to_nat n) 0.

(** [u*::to_le_bytes], [u*::from_le_bytes] and the big-endian pair; a list
    element is read as a [u8]. *)
Fixpoint to_le (n : nat) (v : Z) : bytes :=
  match n with
  | O => []
  | S m => v mod 256 :: to_le m (v / 256)
  end.

Fixpoint from_le (l : bytes) : Z :=
  match l with
  | [] => 0
  | b :: t => b mod 256 + 256 * from_le t
  end.

Definition to_be (n : nat) (v : Z) : bytes := rev (to_le n v).
Definition from_be (l : bytes) : Z := from_le (rev l).

(** A Rust string literal of ASCII characters: the same list whether a string
    is read as its UTF-8 bytes or as its code points. *)
Fixpoint str (s : string) : list Z :=
  match s with
  | EmptyString => []
  | String c s' => Z.of_nat (Ascii.nat_of_ascii c) :: str s'
  end.

(** [s.strip_prefix(p)] *)
Fixpoint strip_prefix (p s : list Z) : option (list Z) :=
  match p, s with
  | [], _ => Some s
  | a :: p', b :: s' => if a =? b then strip_prefix p' s' else None
  | _ :: _, [] => None
  end.

(** [s.contains(c)] for a character [c] *)
Definition contains_char (c : Z) (s : list Z) : bool := existsb (Z.eqb c) s.

(** Machine integer truncation: [x as u16] and the like. *)
Definition wrap (bits : Z) (x : Z) : Z := x mod 2 ^ bits.

Lemma strip_prefix_app p s : strip_prefix p (p ++ s) = Some s.
Proof. induction p as [|a p IH]; [done|]. simpl. by rewrite Z.eqb_refl. Qed.

Lemma strip_prefix_Some p s r : strip_prefix p s = Some r ↔ s = p ++ r.
Proof.
  split; [|intros ->; apply strip_prefix_app].
  revert s. induction p as [|a p IH]; intros s; [by intros [= ->]|].
  destruct s as [|b s]; [done|]. cbn. destruct (Z.eqb_spec a b) as [->|]; [|done].
  intros ->%IH. done.
Qed.

Lemma contains_char_spec c s : contains_char c s = true ↔ c ∈ s.
Proof.
  unfold contains_char. rewrite existsb_exists. split.
  - intros (x & Hx & <-%Z.eqb_eq). by apply list_elem_of_In.
  - intros Hc. exists c. by rewrite Z.eqb_refl, <- list_elem_of_In.
Qed.

(** Case analysis on a bounded integer, by evaluation. *)
Lemma range_cases (n : Z) (P : Z → bool) :
  forallb P (seqZ 0 n) = true → ∀ b, 0 ≤ b < n → P b = true.
Proof.
  rewrite forallb_forall. intros H b Hb. apply H, list_elem_of_In, elem_of_seqZ. lia.
Qed.

Ltac by_range x Hx n :=
  refine (proj1 (bool_decide_eq_true _) _); revert x Hx; apply (range_cases n); by vm_compute.

Lemma lxor_twice (a m : Z) : Z.lxor (Z.lxor a m) m = a.
Proof. by rewrite Z.lxor_assoc, Z.lxor_nilpotent, Z.lxor_0_r. Qed.

(** ** Lemmas on slices *)

Lemma zlen_nonneg {A} (l : list A) : 0 ≤ zlen l.
Proof. unfold zlen. lia. Qed.

Lemma zlen_nil {A} : zlen (@nil A) = 0.
Proof. done. Qed.

Lemma zlen_cons {A} (x : A) l : zlen (x :: l) = 1 + zlen l.
Proof. unfold zlen. cbn [length]. lia. Qed.

Lemma zlen_app {A} (l k : list A) : zlen (l ++ k) = zlen l + zlen k.
Proof. unfold zlen. rewrite length_app. lia. Qed.

Lemma zlen_take {A} n (l : list A) : 0 ≤ n ≤ zlen l → zlen (ztake n l) = n.
Proof. unfold zlen, ztake. rewrite length_take. lia. Qed.

Lemma zlen_take_le {A} n (l : list A) : zlen (ztake n l) ≤ zlen l.
Proof. unfold zlen, ztake. rewrite length_take. lia. Qed.

Lemma zlen_drop {A} n (l : list A) : 0 ≤ n ≤ zlen l → zlen (zdrop n l) = zlen l - n.
Proof. unfold zlen, zdrop. rewrite length_drop. lia. Qed.

Lemma zlen_slice {A} a b (l : list A) : 0 ≤ a ≤ b → b ≤ zlen l → zlen (slice a b l) = b - a.
Proof.
  intros. unfold slice. rewrite zlen_take; [lia|]. rewrite zlen_drop; lia.
Qed.

Lemma zlen_zeros n : 0 ≤ n → zlen (zeros n) = n.
Proof. unfold zlen, zeros. rewrite length_replicate. lia. Qed.

Lemma ztake_app {A} n (l k : list A) : zlen l = n → ztake n (l ++ k) = l.
Proof. unfold zlen, ztake. intros <-. rewrite Nat2Z.id. apply take_app_length. Qed.

Lemma zdrop_app {A} n (l k : list A) : zlen l = n → zdrop n (l ++ k) = k.
Proof. unfold zlen, zdrop. intros <-. rewrite Nat2Z.id. apply drop_app_length. Qed.

Lemma ztake_all {A} n (l : list A) : zlen l = n → ztake n l = l.
Proof. unfold zlen, ztake. intros <-. rewrite Nat2Z.id. apply firstn_all. Qed.

Lemma zdrop_all {A} n (l : list A) : zlen l = n → zdrop n l = [].
Proof. unfold zlen, zdrop. intros <-. rewrite Nat2Z.id. apply drop_all. Qed.

Lemma zdrop_0 {A} (l : list A) : zdrop 0 l = l.
Proof. done. Qed.

Lemma ztake_zdrop {A} n (l : list A) : ztake n l ++ zdrop n l = l.
Proof. apply take_drop. Qed.

Lemma slice_0 {A} b (l : list A) : slice 0 b l = ztake b l.
Proof. unfold slice. by rewrite zdrop_0, Z.sub_0_r. Qed.

(** A slice that lies past a prefix [p] of known length. *)
Lemma slice_app_r {A} a b (p l : list A) :
  zlen p ≤ a → slice a b (p ++ l) = slice (a - zlen p) (b - zlen p) l.
Proof.
  intros Ha. unfold slice, ztake, zdrop, zlen in *. rewrite drop_app_ge by lia.
  f_equal; [lia|]. f_equal. lia.
Qed.

Lemma slice_cons {A} a b (x : A) l : 1 ≤ a → slice a b (x :: l) = slice (a - 1) (b - 1) l.
Proof. intros. by rewrite <- (slice_app_r a b [x]). Qed.

(** A slice inside the first of two lists. *)
Lemma slice_app_in {A} a b (l k : list A) :
  0 ≤ a ≤ b → b ≤ zlen l → slice a b (l ++ k) = slice a b l.
Proof.
  intros. unfold slice, ztake, zdrop, zlen in *.
  rewrite drop_app_le, take_app_le by (rewrite ?length_drop; lia). done.
Qed.

(** A slice that is exactly the prefix [p]. *)
Lemma slice_app_l {A} b (p l : list A) : zlen p = b → slice 0 b (p ++ l) = p.
Proof. intros. rewrite slice_0. by apply ztake_app. Qed.

Lemma slice_zdrop {A} a b (l : list A) : zlen l ≤ b → slice a b l = zdrop a l.
Proof.
  intros. unfold slice, ztake, zdrop, zlen in *. apply take_ge. rewrite length_drop. lia.
Qed.

Lemma slice_app_mid {A} a b (p m l : list A) :
  zlen p = a → zlen m = b - a → slice a b (p ++ m ++ l) = m.
Proof.
  intros Hp Hm. rewrite slice_app_r by lia. rewrite Hp, Z.sub_diag.
  apply slice_app_l. lia.
Qed.

Lemma ztake_slices {A} a b (l : list A) :
  0 ≤ a ≤ b → ztake b l = ztake a l ++ slice a b l.
Proof.
  intros. unfold slice, ztake, zdrop.
  replace (Z.to_nat b) with (Z.to_nat a + Z.to_nat (b - a))%nat by lia.
  by rewrite take_take_drop.
Qed.

Lemma byte_at_range l i : wf_bytes l → 0 ≤ byte_at l i < 256.
Proof.
  intros Hl. unfold byte_at. destruct (le_lt_dec (length l) (Z.to_nat i)).
  - rewrite nth_overflow by lia. lia.
  - unfold wf_bytes in Hl. rewrite List.Forall_forall in Hl.
    apply Hl. by apply nth_In.
Qed.

Lemma byte_at_app l k i : 0 ≤ i < zlen l → byte_at (l ++ k) i = byte_at l i.
Proof. intros. unfold byte_at, zlen in *. rewrite app_nth1; [done|lia]. Qed.

Lemma wf_bytes_nil : wf_bytes [].
Proof. constructor. Qed.

Lemma wf_bytes_cons b l : 0 ≤ b < 256 → wf_bytes l → wf_bytes (b :: l).
Proof. by constructor. Qed.

Lemma wf_bytes_app l k : wf_bytes l → wf_bytes k → wf_bytes (l ++ k).
Proof. unfold wf_bytes. rewrite Forall_app. done. Qed.

Lemma wf_bytes_app_inv l k : wf_bytes (l ++ k) → wf_bytes l ∧ wf_bytes k.
Proof. unfold wf_bytes. by rewrite Forall_app. Qed.

Lemma wf_bytes_take n l : wf_bytes l → wf_bytes (ztake n l).
Proof. apply Forall_take. Qed.

Lemma wf_bytes_drop n l : wf_bytes l → wf_bytes (zdrop n l).
Proof. apply Forall_drop. Qed.

Lemma wf_bytes_slice a b l : wf_bytes l → wf_bytes (slice a b l).
Proof. intros. by apply wf_bytes_take, wf_bytes_drop. Qed.

Lemma wf_bytes_zeros n : wf_bytes (zeros n).
Proof. apply Forall_replicate. lia. Qed.

#[export] Hint Resolve wf_bytes_nil wf_bytes_cons wf_bytes_app wf_bytes_take
  wf_bytes_drop wf_bytes_slice wf_bytes_zeros zlen_nonneg : crab.

Lemma filter_all {A} (P : A → Prop) `{∀ x, Decision (P x)} (l : list A) :
  (∀ x, x ∈ l → P x) → filter P l = l.
Proof.
  induction l as [|x l IH]; intros Hl; [done|].
  rewrite filter_cons, decide_True by (apply Hl; by left). f_equal. apply IH.
  intros. apply Hl. by right.
Qed.

(** A loop that can only add to what holds. *)
Lemma fold_left_or {A B} (f : B → A → B) (P : B → Prop) (R : A → Prop) l b :
  (∀ b x, P (f b x) ↔ P b ∨ R x) → P (fold_left f l b) ↔ P b ∨ ∃ x, x ∈ l ∧ R x.
Proof.
  intros Hf. revert b. induction l as [|x l IH]; intros b; cbn [fold_left].
  { split; [by left|]. intros [|(x & Hx & _)]; [done|]. by apply elem_of_nil in Hx. }
  rewrite IH, Hf. setoid_rewrite elem_of_cons. naive_solver.
Qed.

(** Iteration of a [BTreeMap]: by ascending key. *)
Definition sorted_keys {A} (m : gmap Z A) : list Z := merge_sort Z.le (elements (dom m)).

Lemma elem_of_sorted_keys {A} (m : gmap Z A) k : k ∈ sorted_keys m ↔ is_Some (m !! k).
Proof.
  unfold sorted_keys. rewrite (merge_sort_Permutation Z.le _), elem_of_elements. apply elem_of_dom.
Qed.

Lemma NoDup_sorted_keys {A} (m : gmap Z A) : NoDup (sorted_keys m).
Proof. unfold sorted_keys. rewrite (merge_sort_Permutation Z.le _). apply NoDup_elements. Qed.

(** ** Fixed-width integer encodings *)

Lemma length_to_le n v : length (to_le n v) = n.
Proof. revert v. induction n; intros; simpl; auto. Qed.

Lemma wf_to_le n v : wf_bytes (to_le n v).
Proof.
  revert v. induction n; intros; simpl; [constructor|].
  constructor; [|apply IHn]. apply Z.mod_pos_bound. lia.
Qed.

Lemma pow256_S n : 256 ^ Z.of_nat (S n) = 256 * 256 ^ Z.of_nat n.
Proof. rewrite Nat2Z.inj_succ, Z.pow_succ_r; lia. Qed.

Lemma from_to_le n v : from_le (to_le n v) = v mod 256 ^ Z.of_nat n.
Proof.
  revert v. induction n as [|n IH]; intros v.
  - simpl. by rewrite Z.mod_1_r.
  - cbn [to_le from_le]. rewrite IH, pow256_S, Z.mod_mod by lia.
    rewrite Z.rem_mul_r by lia. lia.
Qed.

Lemma to_from_le l : wf_bytes l → to_le (length l) (from_le l) = l.
Proof.
  induction 1 as [|b l Hb Hl IH]; [done|]. cbn in Hb.
  cbn [to_le from_le length]. rewrite (Z.mod_small b) by done.
  rewrite (Z.mul_comm 256), Z_mod_plus_full, Z.mod_small by lia.
  rewrite Z.div_add, Z.div_small, Z.add_0_l by lia. by f_equal.
Qed.

Lemma from_le_range l : 0 ≤ from_le l < 256 ^ zlen l.
Proof.
  induction l as [|b l IH]; [by vm_compute|]. pose proof (Z.mod_pos_bound b 256 ltac:(lia)).
  unfold zlen in *. cbn [from_le length]. rewrite pow256_S.
  lia.
Qed.

Lemma from_le_zeros l n : from_le (l ++ zeros n) = from_le l.
Proof.
  induction l as [|b l IH]; cbn; [|by rewrite IH].
  unfold zeros. induction (Z.to_nat n) as [|m IHm]; [done|]. cbn. by rewrite IHm.
Qed.

Lemma zlen_to_le n v : zlen (to_le n v) = Z.of_nat n.
Proof. unfold zlen. by rewrite length_to_le. Qed.

Lemma zlen_to_be n v : zlen (to_be n v) = Z.of_nat n.
Proof. unfold zlen, to_be. by rewrite length_rev, length_to_le. Qed.

Lemma wf_bytes_rev l : wf_bytes l → wf_bytes (rev l).
Proof. apply Forall_rev. Qed.

Lemma wf_to_be n v : wf_bytes (to_be n v).
Proof. apply wf_bytes_rev, wf_to_le. Qed.

Lemma from_to_be n v : from_be (to_be n v) = v mod 256 ^ Z.of_nat n.
Proof. unfold from_be, to_be. by rewrite rev_involutive, from_to_le. Qed.

Lemma from_to_be_small n v : 0 ≤ v < 256 ^ Z.of_nat n → from_be (to_be n v) = v.
Proof. intros. rewrite from_to_be. by apply Z.mod_small. Qed.

Lemma from_to_le_small n v : 0 ≤ v < 256 ^ Z.of_nat n → from_le (to_le n v) = v.
Proof. intros. rewrite from_to_le. by apply Z.mod_small. Qed.

Lemma to_from_be l : wf_bytes l → to_be (length l) (from_be l) = l.
Proof.
  intros. unfold to_be, from_be. rewrite <- (length_rev l).
  rewrite to_from_le by (by apply wf_bytes_rev). apply rev_involutive.
Qed.

Lemma from_be_range l : 0 ≤ from_be l < 256 ^ zlen l.
Proof.
  unfold from_be. pose proof (from_le_range (rev l)).
  unfold zlen in *. by rewrite length_rev in *.
Qed.

#[export] Hint Resolve wf_to_le wf_to_be : crab.
