(* ===== verification/ProtoKey.v ===== *)
(** * Typed public keys of the control wire ([crabscale-proto/src/key.rs])

    Strings are their UTF-8 bytes: [str::len] counts bytes, and the prefix,
    colon and hex tests of the source only compare ASCII characters.  The
    [key_type!] macro is [KeyType] with the four instances it is expanded at. *)

From S2P Require Import Prelude.

Inductive KeyParseError : Type :=
| InvalidFormat
| InvalidLength
| InvalidPrefix
| InvalidHex.

#[global] Instance KeyParseError_eq_dec : EqDecision KeyParseError.
Proof. solve_decision. Defined.

Definition KEY_BYTES : Z := 32.
Definition KEY_HEX_CHARS : Z := KEY_BYTES * 2.

(** [HEX[i]] of [encode_hex] *)
Definition hex_digit (i : Z) : Z := byte_at (str "0123456789abcdef") i.

Fixpoint encode_hex (k : bytes) : bytes :=
  match k with
  | [] => []
  | b :: t => hex_digit (Z.shiftr b 4) :: hex_digit (Z.land b 15) :: encode_hex t
  end.

Definition hex_nibble (b : Z) : option Z :=
  if (48 <=? b) && (b <=? 57) then Some (b - 48)
  else if (97 <=? b) && (b <=? 102) then Some (b - 97 + 10)
  else if (65 <=? b) && (b <=? 70) then Some (b - 65 + 10)
  else None.

(** The loop of [decode_hex] over [bytes[2i], bytes[2i+1]]. *)
Fixpoint decode_pairs (l : bytes) : option bytes :=
  match l with
  | a :: b :: t =>
      hi ← hex_nibble a; lo ← hex_nibble b; rest ← decode_pairs t;
      Some (Z.lor (Z.shiftl hi 4) lo :: rest)
  | _ => Some []
  end.

Definition decode_hex (hex : bytes) : option bytes :=
  if negb (zlen hex =? KEY_HEX_CHARS) then None else decode_pairs hex.

Definition colon : Z := 58.

Definition parse_key (prefix s : bytes) : result bytes KeyParseError :=
  match strip_prefix prefix s with
  | None => Err InvalidPrefix
  | Some hex =>
      match strip_prefix [colon] hex with
      | None => Err InvalidFormat
      | Some hex =>
          fail_if contains_char colon hex with InvalidFormat ;;
          fail_if negb (zlen hex =? KEY_HEX_CHARS) with InvalidLength ;;
          ok_or (decode_hex hex) InvalidHex
      end
  end.

(** The instances of [key_type!]. *)
Inductive KeyType : Type := MachineKey | NodeKey | DiscoKey | ChallengeKey.

#[global] Instance KeyType_eq_dec : EqDecision KeyType.
Proof. solve_decision. Defined.

Definition PREFIX (t : KeyType) : bytes :=
  match t with
  | MachineKey => str "mkey"
  | NodeKey => str "nodekey"
  | DiscoKey => str "discokey"
  | ChallengeKey => str "chalpub"
  end.

Definition from_str (t : KeyType) (s : bytes) : result bytes KeyParseError :=
  parse_key (PREFIX t) s.

Definition to_key_string (t : KeyType) (k : bytes) : bytes :=
  PREFIX t ++ [colon] ++ encode_hex k.

(** A raw key: the type [[u8; 32]]. *)
Definition key_wf (k : bytes) : Prop := wf_bytes k ∧ zlen k = KEY_BYTES.

Definition KeyParseError_display (e : KeyParseError) : bytes :=
  match e with
  | InvalidFormat => str "key string is not of the form <type>:<hex>"
  | InvalidLength => str "key string has the wrong length"
  | InvalidPrefix => str "key string has the wrong type prefix"
  | InvalidHex => str "key string contains a non-hex character"
  end.

(** ** Hex digits *)

(** ASCII lower-casing of one byte, [u8::to_ascii_lowercase]. *)
Definition ascii_lower (b : Z) : Z :=
  if (65 <=? b) && (b <=? 90) then b + 32 else b.

Lemma hex_nibble_digit n : 0 ≤ n < 16 → hex_nibble (hex_digit n) = Some n.
Proof.
  intros Hn. by_range n Hn 16.
Qed.

Lemma hex_digit_not_colon n : 0 ≤ n < 16 → hex_digit n ≠ colon.
Proof.
  intros Hn. by_range n Hn 16.
Qed.

Lemma hex_nibble_inv b n :
  hex_nibble b = Some n → 0 ≤ n < 16 ∧ b ≠ colon ∧ ascii_lower b = hex_digit n.
Proof.
  intros Hn. assert (Hb : 0 ≤ b < 103).
  { unfold hex_nibble in Hn. crush; lia. }
  cut (match hex_nibble b with
       | Some n => bool_decide (0 ≤ n < 16 ∧ b ≠ colon ∧ ascii_lower b = hex_digit n)
       | None => true end = true).
  { rewrite Hn. by intros ?%bool_decide_eq_true. }
  clear Hn. revert b Hb. apply (range_cases 103). by vm_compute.
Qed.

(** A byte is its two nibbles, both ways. *)
Lemma nibbles_join b :
  0 ≤ b < 256 →
  Z.lor (Z.shiftl (Z.shiftr b 4) 4) (Z.land b 15) = b
  ∧ 0 ≤ Z.shiftr b 4 < 16 ∧ 0 ≤ Z.land b 15 < 16.
Proof.
  intros Hb. by_range b Hb 256.
Qed.

Lemma nibbles_split h l :
  0 ≤ h < 16 → 0 ≤ l < 16 →
  let b := Z.lor (Z.shiftl h 4) l in
  0 ≤ b < 256 ∧ Z.shiftr b 4 = h ∧ Z.land b 15 = l.
Proof.
  intros Hh Hl. cbv zeta. refine (proj1 (bool_decide_eq_true _) _). revert l Hl.
  apply (range_cases 16). revert h Hh. apply (range_cases 16). by vm_compute.
Qed.

Lemma zlen_encode_hex k : zlen (encode_hex k) = 2 * zlen k.
Proof. induction k; [done|]. cbn [encode_hex]. rewrite !zlen_cons. lia. Qed.

Lemma encode_hex_no_colon k : wf_bytes k → contains_char colon (encode_hex k) = false.
Proof.
  induction 1 as [|b k Hb Hk IH]; [done|]. cbn in Hb.
  destruct (nibbles_join b Hb) as (_ & Hh & Hl).
  cbn [encode_hex contains_char existsb] in *. unfold contains_char in IH. rewrite IH.
  pose proof (hex_digit_not_colon _ Hh). pose proof (hex_digit_not_colon _ Hl).
  destruct (Z.eqb_spec colon (hex_digit (Z.shiftr b 4))); [congruence|].
  by destruct (Z.eqb_spec colon (hex_digit (Z.land b 15))); [congruence|].
Qed.

Lemma decode_encode_pairs k : wf_bytes k → decode_pairs (encode_hex k) = Some k.
Proof.
  induction 1 as [|b k Hb Hk IH]; [done|]. cbn in Hb.
  destruct (nibbles_join b Hb) as (Hj & Hh & Hl). cbn [encode_hex decode_pairs].
  rewrite !hex_nibble_digit by done. cbn. rewrite IH. cbn. by rewrite Hj.
Qed.

(** Induction two bytes at a time, the shape of [decode_pairs]. *)
Lemma pairs_ind (P : bytes → Prop) :
  P [] → (∀ a, P [a]) → (∀ a b l, P l → P (a :: b :: l)) → ∀ l, P l.
Proof.
  intros H0 H1 H2. fix IH 1. intros [|a [|b l]]; [done|apply H1|apply H2, IH].
Qed.

Lemma decode_pairs_inv l k :
  decode_pairs l = Some k → Z.even (zlen l) = true →
  wf_bytes k ∧ map ascii_lower l = encode_hex k ∧ contains_char colon l = false
  ∧ zlen l = 2 * zlen k.
Proof.
  revert k. induction l as [|a|a b l IH] using pairs_ind; intros k.
  - intros [= <-] _. repeat split. constructor.
  - done.
  - cbn [decode_pairs]. intros Hd He.
    apply bind_Some in Hd as (hi & Hhi & Hd). apply bind_Some in Hd as (lo & Hlo & Hd).
    apply bind_Some in Hd as (rest & Hr & [= <-]).
    destruct (IH _ Hr) as (Hwf & Hm & Hc & Hz).
    { rewrite !zlen_cons in He. rewrite <- He, Z.add_assoc, Z.even_add. by destruct (Z.even _). }
    apply hex_nibble_inv in Hhi as (Hhi & Hca & Hea), Hlo as (Hlo & Hcb & Heb).
    destruct (nibbles_split hi lo Hhi Hlo) as (Hb & Hs & Hl).
    repeat split.
    + by constructor.
    + cbn [map encode_hex]. by rewrite Hea, Heb, Hm, Hs, Hl.
    + unfold contains_char in *. cbn [existsb]. rewrite Hc.
      destruct (Z.eqb_spec colon a); [congruence|].
      by destruct (Z.eqb_spec colon b); [congruence|].
    + rewrite !zlen_cons, Hz. lia.
Qed.

(** ** Parsing and printing *)

Lemma parse_key_encode p k :
  key_wf k → parse_key p (p ++ [colon] ++ encode_hex k) = Ok k.
Proof.
  intros [Hwf Hlen]. unfold parse_key. rewrite strip_prefix_app, (strip_prefix_app [colon]).
  rewrite encode_hex_no_colon by done. unfold decode_hex.
  rewrite zlen_encode_hex, Hlen. cbn. by rewrite decode_encode_pairs.
Qed.

Lemma decode_pairs_lower l : decode_pairs (map ascii_lower l) = decode_pairs l.
Proof.
  assert (Hn : ∀ b, hex_nibble (ascii_lower b) = hex_nibble b).
  { intros b. unfold ascii_lower, hex_nibble.
    repeat (case_match; try (exfalso; lia)); try done; f_equal; lia. }
  induction l as [|a|a b l IH] using pairs_ind; [done..|].
  cbn [map decode_pairs]. by rewrite !Hn, IH.
Qed.

(** Exact characterisation of [FromStr] for the typed keys: a string
    parses as a key [k] of a type exactly when it is that type's prefix, a
    colon and 64 characters that are the canonical hex form of [k] up to
    ASCII case; in particular every parsed key is 32 well-formed bytes. *)
Theorem from_str_spec t s k :
  from_str t s = Ok k ↔
  ∃ hex, s = PREFIX t ++ [colon] ++ hex ∧ zlen hex = KEY_HEX_CHARS
         ∧ map ascii_lower hex = encode_hex k ∧ key_wf k.
Proof.
  unfold from_str, parse_key. split.
  - destruct (strip_prefix _ s) as [r|] eqn:H1; [|done].
    destruct (strip_prefix [colon] r) as [hex|] eqn:H2; [|done].
    apply strip_prefix_Some in H1 as ->, H2 as ->.
    unfold decode_hex. destruct (contains_char _ _); [done|].
    destruct (Z.eqb_spec (zlen hex) KEY_HEX_CHARS) as [Hl|]; [|done]. cbn [negb].
    destruct (decode_pairs hex) as [k'|] eqn:Hd; [|done]. intros [= <-].
    apply decode_pairs_inv in Hd as (? & ? & ? & Hz); [|by rewrite Hl].
    exists hex. unfold key_wf. repeat split; try done.
    unfold KEY_HEX_CHARS in *. lia.
  - intros (hex & -> & Hl & Hm & Hk).
    rewrite strip_prefix_app, (strip_prefix_app [colon]). unfold decode_hex.
    rewrite Hl. cbn [negb Z.eqb].
    assert (Hd : decode_pairs hex = Some k).
    { rewrite <- decode_pairs_lower, Hm. apply decode_encode_pairs, Hk. }
    destruct (decode_pairs_inv _ _ Hd) as (_ & _ & -> & _); [by rewrite Hl|].
    rewrite Z.eqb_refl. cbn. by rewrite Hd.
Qed.

(** Printing a key and parsing it back as the same type gives the key;
    parsed as any of the other three types it is refused, so a key of one
    kind is never accepted where another is expected. *)
Theorem to_key_string_roundtrip t t' k :
  key_wf k →
  from_str t' (to_key_string t k)
  = if decide (t = t') then Ok k else Err InvalidPrefix.
Proof.
  intros Hk. unfold to_key_string. destruct (decide (t = t')) as [->|Hne].
  - apply parse_key_encode, Hk.
  - unfold from_str, parse_key. by destruct t, t'.
Qed.

Lemma to_key_string_roundtrip_witness :
  from_str NodeKey (to_key_string MachineKey (replicate 32 171)) = Err InvalidPrefix.
Proof.
  apply (to_key_string_roundtrip MachineKey NodeKey).
  split; [apply Forall_replicate; lia | reflexivity].
Defined.
