(* ===== verification/ProtoFrame.v ===== *)
(** * MapResponse framing and capability gates
    ([crabscale-proto/src/frame.rs], [crabscale-proto/src/capver.rs]) *)

From S2P Require Import Prelude.

Module MapFrame.

Definition MAP_RESPONSE_FRAME_HEADER_LEN : Z := 4.
Definition MAX_MAP_RESPONSE_PAYLOAD_LEN : Z := 16 * 1024 * 1024.

Inductive MapFrameError : Type := MapTruncated | MapOversized.

Definition encode_map_response_frame (payload : bytes) : result bytes MapFrameError :=
  fail_if MAX_MAP_RESPONSE_PAYLOAD_LEN <? zlen payload with MapOversized ;;
  Ok (to_le 4 (wrap 32 (zlen payload)) ++ payload).

Definition decode_map_response_frame (buf : bytes) : result (bytes * Z) MapFrameError :=
  fail_if zlen buf <? MAP_RESPONSE_FRAME_HEADER_LEN with MapTruncated ;;
  let len := from_le (ztake MAP_RESPONSE_FRAME_HEADER_LEN buf) in
  fail_if MAX_MAP_RESPONSE_PAYLOAD_LEN <? len with MapOversized ;;
  let end_ := MAP_RESPONSE_FRAME_HEADER_LEN + len in
  fail_if zlen buf <? end_ with MapTruncated ;;
  Ok (slice MAP_RESPONSE_FRAME_HEADER_LEN end_ buf, end_).

(** The encoder succeeds exactly up to the payload limit, and then the length
    prefix is not truncated by the cast to [u32]. *)
Lemma encode_map_response_frame_Ok (p f : bytes) :
  encode_map_response_frame p = Ok f ↔
  zlen p ≤ MAX_MAP_RESPONSE_PAYLOAD_LEN ∧ f = to_le 4 (zlen p) ++ p.
Proof.
  unfold encode_map_response_frame. pose proof (zlen_nonneg p).
  destruct (Z.ltb_spec MAX_MAP_RESPONSE_PAYLOAD_LEN (zlen p)) as [|Hle]; [split; [done|lia]|].
  unfold wrap. rewrite Z.mod_small by (unfold MAX_MAP_RESPONSE_PAYLOAD_LEN in *; lia).
  split; [intros [= <-]; done|intros [_ ->]; done].
Qed.

Lemma header_len (p : bytes) : zlen p ≤ MAX_MAP_RESPONSE_PAYLOAD_LEN → from_le (to_le 4 (zlen p)) = zlen p.
Proof.
  intros. pose proof (zlen_nonneg p). apply from_to_le_small.
  change (256 ^ Z.of_nat 4) with (2 ^ 32). unfold MAX_MAP_RESPONSE_PAYLOAD_LEN in *. lia.
Qed.

(** A MapResponse frame decodes to its payload with the exact number of
    bytes consumed, whatever follows it in the buffer; so a stream of frames
    can be decoded one after the other. *)
Theorem map_frame_roundtrip payload frame rest :
  encode_map_response_frame payload = Ok frame →
  decode_map_response_frame (frame ++ rest) = Ok (payload, zlen frame)
  ∧ zdrop (zlen frame) (frame ++ rest) = rest.
Proof.
  intros (Hmax & ->)%encode_map_response_frame_Ok. split; [|by apply zdrop_app].
  unfold decode_map_response_frame, MAP_RESPONSE_FRAME_HEADER_LEN.
  rewrite <- app_assoc, (ztake_app 4), header_len by done.
  rewrite !zlen_app, zlen_to_le. pose proof (zlen_nonneg payload). pose proof (zlen_nonneg rest).
  repeat (case_match; [lia|]). rewrite slice_app_mid; [done..|lia].
Qed.

Lemma map_frame_roundtrip_witness :
  decode_map_response_frame ([2; 0; 0; 0; 123; 125] ++ [7]) = Ok ([123; 125], 6)
  ∧ zdrop 6 ([2; 0; 0; 0; 123; 125] ++ [7]) = [7].
Proof. exact (map_frame_roundtrip [123; 125] [2; 0; 0; 0; 123; 125] [7] eq_refl). Defined.

(** A header and part of a body, completed with zeros to a whole frame. *)
Lemma complete_frame h b :
  wf_bytes h → zlen h = 4 → from_le h ≤ MAX_MAP_RESPONSE_PAYLOAD_LEN → zlen b ≤ from_le h →
  encode_map_response_frame (b ++ zeros (from_le h - zlen b))
  = Ok (h ++ b ++ zeros (from_le h - zlen b)).
Proof.
  intros Hwf Hh Hm Hb. apply encode_map_response_frame_Ok.
  rewrite zlen_app, zlen_zeros by lia. split; [lia|]. f_equal.
  rewrite <- (to_from_le h Hwf) at 1. f_equal; [unfold zlen in Hh; lia|lia].
Qed.

(** Fewer than four header bytes never commit to an oversized length. *)
Lemma short_header buf :
  wf_bytes buf → zlen buf < 4 →
  let h := buf ++ zeros (4 - zlen buf) in
  wf_bytes h ∧ zlen h = 4 ∧ 0 ≤ from_le h ≤ MAX_MAP_RESPONSE_PAYLOAD_LEN.
Proof.
  intros Hwf Hs. cbv zeta. pose proof (zlen_nonneg buf). split; [auto with crab|].
  split; [rewrite zlen_app, zlen_zeros; lia|].
  pose proof (from_le_range buf) as [H0 H1].
  rewrite from_le_zeros. split; [done|].
  assert (256 ^ zlen buf ≤ 256 ^ 3) by (apply Z.pow_le_mono_r; lia).
  unfold MAX_MAP_RESPONSE_PAYLOAD_LEN. lia.
Qed.

(** The decoder's verdict on any buffer: it answers [MapTruncated] on every
    strict prefix of a frame, never reads past the buffer, rejects a length
    above the limit as soon as the header is there, and whatever it accepts is
    a prefix of the buffer that the encoder would produce. *)
Theorem map_frame_decode_exact buf :
  wf_bytes buf →
  match decode_map_response_frame buf with
  | Ok (payload, n) =>
      encode_map_response_frame payload = Ok (ztake n buf) ∧ n ≤ zlen buf
  | Err MapOversized =>
      4 ≤ zlen buf ∧ MAX_MAP_RESPONSE_PAYLOAD_LEN < from_le (ztake 4 buf)
  | Err MapTruncated =>
      ∃ more frame payload,
        encode_map_response_frame payload = Ok frame ∧ buf ++ more = frame ∧ more ≠ []
  end.
Proof.
  intros Hwf. unfold decode_map_response_frame, MAP_RESPONSE_FRAME_HEADER_LEN.
  pose proof (zlen_nonneg buf). destruct (Z.ltb_spec (zlen buf) 4) as [Hs|Hs].
  { destruct (short_header buf) as (Hw & Hl & Hm0 & Hm); [done..|].
    assert (zlen (zeros (4 - zlen buf)) ≠ 0) by (rewrite zlen_zeros; lia).
    exists (zeros (4 - zlen buf) ++ zeros (from_le (buf ++ zeros (4 - zlen buf)))).
    do 2 eexists. split; [|split].
    - apply (complete_frame (buf ++ zeros (4 - zlen buf)) []); [done..|by cbn].
    - rewrite <- !app_assoc. cbn [zlen length app]. by rewrite Z.sub_0_r.
    - destruct (zeros (4 - zlen buf)); [done|by cbn]. }
  assert (H4 : zlen (ztake 4 buf) = 4) by (apply zlen_take; lia).
  destruct (from_le_range (ztake 4 buf)) as [Hr _].
  destruct (_ <? from_le _) eqn:Ho; [lia|]. destruct (zlen buf <? _) eqn:Ht; breflect.
  - exists (zeros (from_le (ztake 4 buf) - zlen (zdrop 4 buf))). do 2 eexists. split; [|split].
    + apply (complete_frame (ztake 4 buf) (zdrop 4 buf)); [by apply wf_bytes_take|done..|].
      rewrite zlen_drop; lia.
    + by rewrite app_assoc, ztake_zdrop.
    + rewrite zlen_drop by lia. intros E%(f_equal zlen). rewrite zlen_zeros, zlen_nil in E; lia.
  - split; [|lia]. apply encode_map_response_frame_Ok.
    rewrite zlen_slice by lia. split; [lia|].
    rewrite (ztake_slices 4) by lia. f_equal.
    replace (4 + from_le (ztake 4 buf) - 4) with (from_le (ztake 4 buf)) by lia.
    rewrite <- (to_from_le (ztake 4 buf)) at 1 by (by apply wf_bytes_take).
    f_equal. unfold zlen in H4. lia.
Qed.

Lemma map_frame_decode_exact_witness :
  match decode_map_response_frame [255; 255; 255; 255; 1] with
  | Ok _ => False | Err MapTruncated => False
  | Err MapOversized => 4 ≤ 5 ∧ MAX_MAP_RESPONSE_PAYLOAD_LEN < from_le [255; 255; 255; 255]
  end.
Proof.
  exact (map_frame_decode_exact [255; 255; 255; 255; 1]
           ltac:(repeat (constructor; [lia|]); constructor)).
Defined.

End MapFrame.

(** The capability gates: one threshold each. *)
Module CapVer.

Definition MIN_SUPPORTED_CAPVER : Z := 113.
Definition STREAMING_READ_ONLY_CAPVER : Z := 68.
Definition PACKET_FILTERS_CAPVER : Z := 81.
Definition HOME_DERP_INTEGER_CAPVER : Z := 111.
Definition ALLOWED_IPS_NULL_CAPVER : Z := 112.
Definition DISPLAY_MESSAGES_CAPVER : Z := 117.
Definition HARDWARE_ATTESTATION_CAPVER : Z := 130.

Definition streaming_read_only (version : Z) : bool := STREAMING_READ_ONLY_CAPVER <=? version.
Definition prefers_incremental_packet_filters (version : Z) : bool :=
  PACKET_FILTERS_CAPVER <=? version.
Definition uses_integer_home_derp (version : Z) : bool := HOME_DERP_INTEGER_CAPVER <=? version.
Definition allowed_ips_null_means_addresses (version : Z) : bool :=
  ALLOWED_IPS_NULL_CAPVER <=? version.
Definition may_emit_structured_display_messages (version : Z) : bool :=
  DISPLAY_MESSAGES_CAPVER <=? version.
Definition may_read_hardware_attestation (version : Z) : bool :=
  HARDWARE_ATTESTATION_CAPVER <=? version.

(** Every client the server accepts has the four older gates open: the legacy
    encodings are never needed past the version check. *)
Lemma supported_gates version :
  MIN_SUPPORTED_CAPVER ≤ version →
  streaming_read_only version && prefers_incremental_packet_filters version
  && uses_integer_home_derp version && allowed_ips_null_means_addresses version = true.
Proof.
  unfold MIN_SUPPORTED_CAPVER, streaming_read_only, prefers_incremental_packet_filters,
    uses_integer_home_derp, allowed_ips_null_means_addresses, STREAMING_READ_ONLY_CAPVER,
    PACKET_FILTERS_CAPVER, HOME_DERP_INTEGER_CAPVER, ALLOWED_IPS_NULL_CAPVER. lia.
Qed.

End CapVer.
