(* ===== verification/StreamDecoder.v ===== *)
(** * Buffered stream decoders

    The DERP frame decoder, the Noise record decoder and the MapResponse reader
    are one loop around a function that takes one item off the front of a
    buffer.  [StreamDecoder] is the interface such a function promises (an item
    is never revised by bytes that arrive later), [feed] the loop; what the
    loop guarantees to its caller is proved once, against the interface. *)

From S2P Require Import Prelude.

(** The answer of one decoding step in state [s]: an item with the number of
    bytes it took, not enough bytes yet, or an error. *)
Inductive step_result (St A E : Type) : Type :=
| Produce (s : St) (a : A) (n : Z)
| NeedMore
| Reject (s : St) (e : E).
Arguments Produce {St A E} s a n.
Arguments NeedMore {St A E}.
Arguments Reject {St A E} s e.

Class StreamDecoder (St A E : Type) : Type := {
  decode1 : St → bytes → step_result St A E;
  (** An item takes at least one byte and at most what is there. *)
  decode1_consumes s b s' a n : decode1 s b = Produce s' a n → 0 < n ≤ zlen b;
  (** Later bytes change neither an item nor an error. *)
  decode1_produce_stable s b c s' a n :
    decode1 s b = Produce s' a n → decode1 s (b ++ c) = Produce s' a n;
  decode1_reject_stable s b c s' e :
    decode1 s b = Reject s' e → decode1 s (b ++ c) = Reject s' e;
}.

Section feed.
  Context {St A E : Type} `{SD : StreamDecoder St A E}.

(** The decoding loop; every turn that continues consumes a byte, so the
    buffer's length bounds the number of turns ([drain_loop_fuel]). *)
Fixpoint drain_loop (fuel : nat) (s : St) (buf : bytes) : (St * bytes) * result (list A) E :=
  match fuel with
  | O => ((s, buf), Ok [])
  | S fuel =>
      match decode1 s buf with
      | Produce s' a n =>
          let '(st, r) := drain_loop fuel s' (zdrop n buf) in (st, rmap (cons a) r)
      | NeedMore => ((s, buf), Ok [])
      | Reject s' e => ((s', buf), Err e)
      end
  end.

Definition drain (s : St) (buf : bytes) : (St * bytes) * result (list A) E :=
  drain_loop (S (length buf)) s buf.

(** [feed]: append the incoming bytes and decode what became complete.  On an
    error the items decoded by this call are dropped with its local vector,
    and the buffer keeps what was not consumed. *)
Definition feed (st : St * bytes) (data : bytes) : (St * bytes) * result (list A) E :=
  drain st.1 (st.2 ++ data).

(** Several calls of [feed] in sequence, stopping at the first error. *)
Fixpoint feed_all (st : St * bytes) (chunks : list bytes) : (St * bytes) * result (list A) E :=
  match chunks with
  | [] => (st, Ok [])
  | c :: cs =>
      match feed st c with
      | (st1, Ok o1) => let '(st2, r) := feed_all st1 cs in (st2, rmap (app o1) r)
      | (st1, Err e) => (st1, Err e)
      end
  end.

Lemma drain_loop_fuel f g s buf :
  (length buf < f)%nat → (length buf < g)%nat → drain_loop f s buf = drain_loop g s buf.
Proof.
  revert g s buf. induction f as [|f IH]; intros [|g] s buf Hf Hg; [lia..|]. cbn.
  destruct (decode1 s buf) as [s' a n| |] eqn:Hd; [|done..].
  apply decode1_consumes in Hd. unfold zlen in Hd.
  rewrite (IH g); [done|unfold zdrop; rewrite length_drop; lia..].
Qed.

(** The loop's equation, without fuel. *)
Lemma drain_eq s buf :
  drain s buf =
  match decode1 s buf with
  | Produce s' a n => let '(st, r) := drain s' (zdrop n buf) in (st, rmap (cons a) r)
  | NeedMore => ((s, buf), Ok [])
  | Reject s' e => ((s', buf), Err e)
  end.
Proof.
  unfold drain at 1. cbn. destruct (decode1 s buf) as [s' a n| |] eqn:Hd; [|done..].
  apply decode1_consumes in Hd. unfold zlen, drain, zdrop in *.
  rewrite (drain_loop_fuel _ (S (length (drop (Z.to_nat n) buf)))); [done| |lia].
  rewrite length_drop. lia.
Qed.

(** Induction over the items of a buffer. *)
Lemma drain_ind (P : St → bytes → Prop) :
  (∀ s buf, (∀ s' a n, decode1 s buf = Produce s' a n → P s' (zdrop n buf)) → P s buf) →
  ∀ s buf, P s buf.
Proof.
  intros Hstep s buf. revert s. induction buf as [buf IH] using (induction_ltof1 _ length).
  intros s. apply Hstep. intros s' a n Hd. apply IH.
  apply decode1_consumes in Hd. unfold ltof, zlen, zdrop in *. rewrite length_drop. lia.
Qed.

(** The loop never leaves a decodable item behind: it stops where a step needs
    more bytes or is refused. *)
Lemma drain_stops s buf s' buf' r :
  drain s buf = ((s', buf'), r) →
  match r with
  | Ok _ => decode1 s' buf' = NeedMore
  | Err e => ∃ s0, decode1 s0 buf' = Reject s' e
  end.
Proof.
  revert s buf s' buf' r. apply (drain_ind (λ s buf, ∀ s' buf' r, _ = _ → _)).
  intros s buf IH s' buf' r. rewrite drain_eq.
  destruct (decode1 s buf) as [s1 a n| |s1 e] eqn:Hd.
  - specialize (IH _ _ _ eq_refl). destruct (drain s1 (zdrop n buf)) as [[s2 b2] r2].
    specialize (IH _ _ _ eq_refl). intros [= <- <- <-]. by destruct r2.
  - by intros [= <- <- <-].
  - intros [= <- <- <-]. by exists s.
Qed.

(** Decoding [buf ++ more] is decoding [buf] and going on with what is left. *)
Lemma drain_app s buf more :
  drain s (buf ++ more) =
  match drain s buf with
  | ((s1, b1), Ok o1) => let '(st2, r) := drain s1 (b1 ++ more) in (st2, rmap (app o1) r)
  | ((s1, b1), Err e) => ((s1, b1 ++ more), Err e)
  end.
Proof.
  revert s buf. apply (drain_ind (λ s buf, _)). intros s buf IH.
  rewrite (drain_eq s buf). destruct (decode1 s buf) as [s1 a n| |s1 e] eqn:Hd.
  - rewrite drain_eq, (decode1_produce_stable _ _ more _ _ _ Hd).
    pose proof (decode1_consumes _ _ _ _ _ Hd) as Hn. unfold zlen, zdrop in *.
    rewrite drop_app_le by lia. rewrite (IH _ _ _ eq_refl). unfold zdrop.
    destruct (drain s1 _) as [[s2 b2] [o2|e2]]; [|done].
    destruct (drain s2 (b2 ++ more)) as [st3 [o3|e3]]; done.
  - destruct (drain s (buf ++ more)) as [st [o|e]]; done.
  - by rewrite drain_eq, (decode1_reject_stable _ _ more _ _ Hd).
Qed.

(** Two calls of [feed] against one. *)
Lemma feed_app st d1 d2 :
  feed st (d1 ++ d2) =
  match feed st d1 with
  | (st1, Ok o1) => let '(st2, r) := feed st1 d2 in (st2, rmap (app o1) r)
  | (st1, Err e) => ((st1.1, st1.2 ++ d2), Err e)
  end.
Proof.
  unfold feed. rewrite app_assoc, drain_app.
  by destruct (drain st.1 (st.2 ++ d1)) as [[s1 b1] [o1|e]].
Qed.

(** A state in which every complete item was taken: the state [feed] leaves. *)
Definition drained (st : St * bytes) : Prop := decode1 st.1 st.2 = NeedMore.

Lemma feed_drained st data st' o : feed st data = (st', Ok o) → drained st'.
Proof. destruct st' as [s' b']. apply drain_stops. Qed.

Lemma feed_nil st : drained st → feed st [] = (st, Ok []).
Proof.
  unfold feed, drained. destruct st as [s b]; cbn [fst snd]. intros Hd.
  by rewrite app_nil_r, drain_eq, Hd.
Qed.

(** How a transport cuts the byte stream into reads does not matter: the items,
    the final state and the error are those of the whole stream read at once. *)
Lemma feed_all_concat st chunks :
  drained st →
  match feed_all st chunks with
  | (st', Ok o) => feed st (concat chunks) = (st', Ok o) ∧ drained st'
  | (st', Err e) => (feed st (concat chunks)).2 = Err e
  end.
Proof.
  revert st. induction chunks as [|c cs IH]; intros st Hst.
  { cbn [feed_all concat]. split; [by apply feed_nil|done]. }
  cbn [feed_all concat]. rewrite feed_app.
  destruct (feed st c) as [st1 [o1|e1]] eqn:Hc; [|done].
  specialize (IH st1 (feed_drained _ _ _ _ Hc)).
  destruct (feed_all st1 cs) as [st2 [o2|e2]].
  - destruct IH as [-> ?]. done.
  - by destruct (feed st1 (concat cs)) as [st3 [o3|e3]]; simplify_eq/=.
Qed.

(** A strict prefix of an item is not an item, nor an error. *)
Lemma decode1_strict_prefix s b c s' a :
  decode1 s (b ++ c) = Produce s' a (zlen (b ++ c)) → c ≠ [] → decode1 s b = NeedMore.
Proof.
  intros Hd Hc. destruct (decode1 s b) as [s1 a1 n| |s1 e] eqn:Hb; [|done|].
  - pose proof (decode1_consumes _ _ _ _ _ Hb) as [_ Hn].
    rewrite (decode1_produce_stable _ _ c _ _ _ Hb) in Hd. injection Hd as _ _ ->.
    rewrite zlen_app in Hn. destruct c; [done|]. rewrite zlen_cons in Hn.
    pose proof (zlen_nonneg c). lia.
  - by rewrite (decode1_reject_stable _ _ c _ _ Hb) in Hd.
Qed.

(** [encodes s l bs s']: [bs] is the items [l] written one after the other by
    an encoder whose state goes from [s] to [s']. *)
Inductive encodes : St → list A → bytes → St → Prop :=
| encodes_nil s : encodes s [] [] s
| encodes_cons s s1 s' a l b bs :
    (∀ rest, decode1 s (b ++ rest) = Produce s1 a (zlen b)) →
    encodes s1 l bs s' → encodes s (a :: l) (b ++ bs) s'.

Lemma encodes_app s s1 s2 l k b c :
  encodes s l b s1 → encodes s1 k c s2 → encodes s (l ++ k) (b ++ c) s2.
Proof.
  induction 1; [done|]. intros. rewrite <- app_assoc. cbn. econstructor; eauto.
Qed.

Lemma drain_encoded s l bs s' rest :
  encodes s l bs s' →
  drain s (bs ++ rest) = let '(st, r) := drain s' rest in (st, rmap (app l) r).
Proof.
  induction 1 as [s|s s1 s' a l b bs Hb _ IH]; cbn [app].
  - by destruct (drain s rest) as [st [o|e]].
  - rewrite <- app_assoc, drain_eq, Hb, zdrop_app, IH by done.
    by destruct (drain s' rest) as [st [o|e]].
Qed.

(** Everything written is read back, in order, whatever the chunking, and the
    buffer is empty afterwards. *)
Lemma feed_all_encoded s l bs s' chunks :
  encodes s l bs s' → decode1 s [] = NeedMore → decode1 s' [] = NeedMore →
  concat chunks = bs → feed_all (s, []) chunks = ((s', []), Ok l).
Proof.
  intros He H0 H1 Hc. pose proof (feed_all_concat (s, []) chunks H0) as Hf.
  assert (Hd : feed (s, []) (concat chunks) = ((s', []), Ok l)).
  { unfold feed. cbn [fst snd app]. rewrite Hc, <- (app_nil_r bs), (drain_encoded _ _ _ _ _ He).
    rewrite drain_eq, H1. cbn [rmap]. by rewrite app_nil_r. }
  rewrite Hd in Hf. destruct (feed_all (s, []) chunks) as [st [o|e]]; [|done].
  destruct Hf as [[= <- <-] _]. done.
Qed.

End feed.
