(* ===== verification/Reader.v ===== *)
(** * Asynchronous byte readers

    An [AsyncRead] is the sequence of results its reads give: pieces of data,
    of whatever sizes the transport chooses, and failures; past the end, reads
    return zero bytes.  [read_loop] is the fill loop shared by
    [tokio::io::AsyncReadExt::read_exact] and by the header loop of
    [crabscale-derp/src/codec.rs] [read_frame]. *)

From S2P Require Import Prelude.

Inductive read_event : Type :=
| Data (b : bytes)
| IoFail.

Abbreviation reader := (list read_event).

(** [reader.read(&mut buf)] with [buf.len() = n] *)
Definition read (n : Z) (r : reader) : result (bytes * reader) unit :=
  match r with
  | [] => Ok ([], [])
  | IoFail :: _ => Err tt
  | Data b :: r' =>
      Ok (ztake n b, if zlen b <=? n then r' else Data (zdrop n b) :: r')
  end.

(** How a fill loop ends: the buffer is full, the stream ended, or a read
    failed. *)
Inductive fill_end : Type :=
| Full (r : reader)
| Eof
| IoError.

(** Fill a buffer of [n] bytes; a turn reads at least one byte, so [n] turns
    and one more test of the loop condition are enough. *)
Fixpoint read_loop (fuel : nat) (n : Z) (r : reader) : bytes * fill_end :=
  match fuel with
  | O => ([], Full r)
  | S fuel =>
      if n <=? 0 then ([], Full r)
      else match read n r with
           | Err _ => ([], IoError)
           | Ok ([], _) => ([], Eof)
           | Ok (b, r') => let '(bs, e) := read_loop fuel (n - zlen b) r' in (b ++ bs, e)
           end
  end.

Definition fill (n : Z) (r : reader) : bytes * fill_end := read_loop (S (Z.to_nat n)) n r.

(** A reader that fails nowhere and only returns zero bytes at the end, the
    contract of [AsyncRead]. *)
Definition live_event (e : read_event) : bool :=
  match e with Data [] => false | Data _ => true | IoFail => false end.
Definition live (r : reader) : Prop := forallb live_event r = true.

Fixpoint stream_of (r : reader) : bytes :=
  match r with
  | [] => []
  | Data b :: r' => b ++ stream_of r'
  | IoFail :: _ => []
  end.

Lemma read_live n r :
  0 < n → live r →
  ∃ b r', read n r = Ok (b, r') ∧ live r' ∧ stream_of r = b ++ stream_of r'
          ∧ zlen b ≤ n ∧ (b = [] → r' = [] ∧ stream_of r = []).
Proof.
  intros Hn Hr. destruct r as [|[b|] r]; [| |done].
  { exists [], []. rewrite zlen_nil. repeat split. lia. }
  unfold live in Hr. cbn [forallb] in Hr. apply andb_true_iff in Hr as [Hb Hr]. destruct b as [|x b]; [done|].
  set (c := x :: b). pose proof (zlen_nonneg b). cbn [read]. do 2 eexists. split; [done|].
  assert (Hne : ztake n c ≠ []).
  { unfold ztake, c. destruct (Z.to_nat n) eqn:E; [lia|done]. }
  destruct (Z.leb_spec (zlen c) n) as [Hle|Hgt].
  - assert (Ht : ztake n c = c) by (unfold ztake, zlen in *; apply firstn_all2; lia).
    rewrite Ht in *. repeat split; try done; intros; congruence.
  - split; [|split; [|split; [|done]]].
    + unfold live. cbn [forallb]. rewrite Hr, andb_true_r. unfold live_event, zdrop, zlen in *.
      destruct (drop (Z.to_nat n) c) eqn:E; [|done].
      apply (f_equal length) in E. rewrite length_drop, length_nil in E. lia.
    + cbn [stream_of]. by rewrite app_assoc, ztake_zdrop.
    + rewrite zlen_take; lia.
Qed.

(** The fill loop on a live reader: it takes exactly [n] bytes off the front of
    the stream, or all of it when it is shorter; the sizes of the pieces do not
    matter. *)
Lemma fill_live n r :
  0 ≤ n → live r →
  if n <=? zlen (stream_of r)
  then ∃ r', fill n r = (ztake n (stream_of r), Full r') ∧ live r'
             ∧ stream_of r' = zdrop n (stream_of r)
  else fill n r = (stream_of r, Eof).
Proof.
  intros Hn Hr. unfold fill.
  assert (Hf : (Z.to_nat n < S (Z.to_nat n))%nat) by lia. revert Hf.
  generalize (S (Z.to_nat n)) as fuel. intros fuel. revert n r Hn Hr.
  induction fuel as [|fuel IH]; intros n r Hn Hr Hf; [lia|]. cbn [read_loop].
  destruct (Z.leb_spec n 0) as [Hz|Hz].
  { assert (n = 0) as -> by lia. pose proof (zlen_nonneg (stream_of r)).
    destruct (Z.leb_spec 0 (zlen (stream_of r))); [|lia]. by exists r. }
  destruct (read_live n r Hz Hr) as (b & r' & -> & Hr' & Hs & Hb & Hend).
  destruct b as [|x b].
  { destruct (Hend eq_refl) as [-> ->]. rewrite zlen_nil.
    by destruct (Z.leb_spec n 0); [lia|]. }
  set (c := x :: b) in *. assert (0 < zlen c) by (unfold c; rewrite zlen_cons; pose proof (zlen_nonneg b); lia).
  specialize (IH (n - zlen c) r' ltac:(lia) Hr' ltac:(lia)).
  rewrite Hs, zlen_app.
  destruct (Z.leb_spec (n - zlen c) (zlen (stream_of r'))); destruct (Z.leb_spec n (zlen c + zlen (stream_of r'))); [|lia..|].
  - destruct IH as (r'' & -> & Hr'' & Hs''). exists r''. split; [|split; [done|]].
    + f_equal. unfold ztake, zlen in *. rewrite take_app_ge by lia. do 2 f_equal. lia.
    + rewrite Hs''. unfold zdrop, zlen in *. rewrite drop_app_ge by lia. f_equal. lia.
  - by rewrite IH.
Qed.
