(* ===== verification/DerpFrame.v ===== *)
(** * DERP framing
    ([crabscale-derp/src/frame.rs], [crabscale-derp/src/codec.rs])

    The byte-level codec of the relay: frame types, headers, whole frames, the
    buffered [FrameDecoder] (an instance of [StreamDecoder]), the tokio codec
    [DerpCodec] and the asynchronous [read_frame]/[write_frame]. *)

From S2P Require Import Prelude StreamDecoder Reader.

Definition FRAME_HEADER_LEN : Z := 5.
Definition MAX_PACKET_PAYLOAD_LEN : Z := 64 * 1024.
Definition MAX_FRAME_BODY_LEN : Z := 1024 * 1024.
Definition MAGIC : bytes := [0x44; 0x45; 0x52; 0x50; 0xF0; 0x9F; 0x94; 0x91].
Definition PROTOCOL_VERSION : Z := 2.

Inductive FrameError : Type :=
| Truncated
| Oversized
| PacketTooLarge
| InvalidFrameType (t : Z)
| InvalidBodyLength (expected actual : Z)
| InvalidMagic
| InvalidPeerGoneReason (r : Z)
| CryptoFailed
| InvalidUtf8.

#[global] Instance FrameError_eq_dec : EqDecision FrameError.
Proof. solve_decision. Defined.

Inductive FrameType : Type :=
| ServerKey | ClientInfo | ServerInfo | SendPacket | RecvPacket | KeepAlive
| NotePreferred | PeerGone | PeerPresent | ForwardPacket | WatchConns
| Ping | Pong | Health | Restarting.

#[global] Instance FrameType_eq_dec : EqDecision FrameType.
Proof. solve_decision. Defined.

(** [ty as u8] *)
Definition frame_type_u8 (t : FrameType) : Z :=
  match t with
  | ServerKey => 0x01 | ClientInfo => 0x02 | ServerInfo => 0x03 | SendPacket => 0x04
  | RecvPacket => 0x05 | KeepAlive => 0x06 | NotePreferred => 0x07 | PeerGone => 0x08
  | PeerPresent => 0x09 | ForwardPacket => 0x0A | WatchConns => 0x10 | Ping => 0x12
  | Pong => 0x13 | Health => 0x14 | Restarting => 0x15
  end.

Definition is_server_to_client (t : FrameType) : bool :=
  match t with
  | ServerKey | ServerInfo | RecvPacket | KeepAlive | NotePreferred | PeerGone
  | PeerPresent | Ping | Health | Restarting => true
  | _ => false
  end.

Definition frame_type_try_from (value : Z) : result FrameType FrameError :=
  match value with
  | 0x01 => Ok ServerKey | 0x02 => Ok ClientInfo | 0x03 => Ok ServerInfo
  | 0x04 => Ok SendPacket | 0x05 => Ok RecvPacket | 0x06 => Ok KeepAlive
  | 0x07 => Ok NotePreferred | 0x08 => Ok PeerGone | 0x09 => Ok PeerPresent
  | 0x0A => Ok ForwardPacket | 0x10 => Ok WatchConns | 0x12 => Ok Ping
  | 0x13 => Ok Pong | 0x14 => Ok Health | 0x15 => Ok Restarting
  | other => Err (InvalidFrameType other)
  end.

Record FrameHeader : Type := { fh_ty : FrameType; fh_len : Z }.

Definition FrameHeader_new (ty : FrameType) (len : Z) : result FrameHeader FrameError :=
  fail_if MAX_FRAME_BODY_LEN <? len with Oversized ;;
  Ok {| fh_ty := ty; fh_len := len |}.

Definition FrameHeader_encode (h : FrameHeader) : bytes :=
  frame_type_u8 h.(fh_ty) :: to_be 4 (wrap 32 h.(fh_len)).

Definition FrameHeader_decode (buf : bytes) : result (FrameHeader * Z) FrameError :=
  fail_if zlen buf <? FRAME_HEADER_LEN with Truncated ;;
  let? ty := frame_type_try_from (byte_at buf 0) in
  let len := from_be [byte_at buf 1; byte_at buf 2; byte_at buf 3; byte_at buf 4] in
  let? header := FrameHeader_new ty len in
  Ok (header, FRAME_HEADER_LEN).

Definition encode_frame (ty : FrameType) (payload : bytes) : result bytes FrameError :=
  let? header := FrameHeader_new ty (zlen payload) in
  Ok (FrameHeader_encode header ++ payload).

Definition decode_frame (buf : bytes) : result (FrameType * bytes * Z) FrameError :=
  let? (header, header_len) := FrameHeader_decode buf in
  let end_ := header_len + header.(fh_len) in
  fail_if zlen buf <? end_ with Truncated ;;
  Ok (header.(fh_ty), slice header_len end_ buf, end_).

(** The match of the loop of [FrameDecoder::feed]: [Truncated] ends it, any
    other error is returned. *)
Definition frame_decoder_step (s : unit) (buf : bytes)
    : step_result unit (FrameType * bytes) FrameError :=
  match decode_frame buf with
  | Ok (ty, payload, consumed) => Produce s (ty, payload) consumed
  | Err Truncated => NeedMore
  | Err e => Reject s e
  end.

(** ** The tokio codec *)

Record DerpCodec : Type := { max_body_len : Z }.
Definition DerpCodec_new : DerpCodec := {| max_body_len := MAX_FRAME_BODY_LEN |}.
(** [#[derive(Default)]]: the zero of [usize]. *)
Definition DerpCodec_default : DerpCodec := {| max_body_len := 0 |}.

(** [Decoder::decode]: the frame, if one is complete, and the bytes left in
    [src]. *)
Definition DerpCodec_decode (c : DerpCodec) (src : bytes)
    : result (option (FrameType * bytes) * bytes) FrameError :=
  if zlen src <? FRAME_HEADER_LEN then Ok (None, src)
  else
    let? (header, _) := FrameHeader_decode src in
    fail_if c.(max_body_len) <? header.(fh_len) with Oversized ;;
    let total := FRAME_HEADER_LEN + header.(fh_len) in
    if zlen src <? total then Ok (None, src)
    else
      let frame := ztake total src in
      Ok (Some (header.(fh_ty), zdrop FRAME_HEADER_LEN frame), zdrop total src).

(** [Encoder::encode]: [dst] with the frame appended. *)
Definition DerpCodec_encode (c : DerpCodec) (item : FrameType * bytes) (dst : bytes)
    : result bytes FrameError :=
  fail_if c.(max_body_len) <? zlen item.2 with Oversized ;;
  let? header := FrameHeader_new item.1 (zlen item.2) in
  Ok (dst ++ FrameHeader_encode header ++ item.2).

(** ** Asynchronous readers and writers *)

Inductive IoErrorKind : Type :=
| InvalidData (e : FrameError)   (** [io_err] *)
| UnexpectedEofHeader
| UnexpectedEofFrame
| ReadFailed.

Definition read_frame (r : reader)
    : result (option (FrameType * bytes) * reader) IoErrorKind :=
  match fill FRAME_HEADER_LEN r with
  | (_, IoError) => Err ReadFailed
  | ([], Eof) => Ok (None, [])
  | (_ :: _, Eof) => Err UnexpectedEofHeader
  | (header, Full r1) =>
      let? (parsed, _) := map_err InvalidData (FrameHeader_decode header) in
      match fill parsed.(fh_len) r1 with
      | (payload, Full r2) => Ok (Some (parsed.(fh_ty), payload), r2)
      | (_, _) => Err UnexpectedEofFrame
      end
  end.

(** The bytes [write_frame] hands to the writer. *)
Definition write_frame (frame : FrameType * bytes) : result bytes IoErrorKind :=
  let? header := map_err InvalidData (FrameHeader_new frame.1 (zlen frame.2)) in
  Ok (FrameHeader_encode header ++ frame.2).

(** ** Lemmas *)

Lemma frame_type_roundtrip t : frame_type_try_from (frame_type_u8 t) = Ok t.
Proof. by destruct t. Qed.

Lemma frame_type_try_from_Ok v t : frame_type_try_from v = Ok t ↔ v = frame_type_u8 t.
Proof.
  split; [|intros ->; apply frame_type_roundtrip].
  destruct (decide (0 ≤ v < 22)) as [Hv|Hv].
  - intros Ht. cut (match frame_type_try_from v with
                    | Ok t => v =? frame_type_u8 t | Err _ => true end = true).
    { rewrite Ht. lia. }
    clear Ht. revert v Hv. apply (range_cases 22). by vm_compute.
  - destruct v as [|p|p]; [lia| |done]. unfold frame_type_try_from.
    repeat case_match; intros; simplify_eq; try done; exfalso; lia.
Qed.

Lemma frame_type_u8_byte t : 0 ≤ frame_type_u8 t < 256.
Proof. by destruct t. Qed.

Lemma FrameHeader_new_Ok ty len h :
  FrameHeader_new ty len = Ok h ↔
  len ≤ MAX_FRAME_BODY_LEN ∧ h = {| fh_ty := ty; fh_len := len |}.
Proof. unfold FrameHeader_new. crush; split; [|lia|by intros [= <-]|by intros [_ ->]]; done. Qed.

(** The four length bytes, as a slice. *)
Lemma header_len_slice buf :
  5 ≤ zlen buf →
  [byte_at buf 1; byte_at buf 2; byte_at buf 3; byte_at buf 4] = slice 1 5 buf.
Proof.
  intros Hl. destruct buf as [|b0 [|b1 [|b2 [|b3 [|b4 rest]]]]];
    [unfold zlen in Hl; cbn [length] in Hl; lia..|done].
Qed.

Lemma FrameHeader_decode_app buf c :
  FRAME_HEADER_LEN ≤ zlen buf → FrameHeader_decode (buf ++ c) = FrameHeader_decode buf.
Proof.
  intros Hl. unfold FrameHeader_decode, FRAME_HEADER_LEN in *. rewrite zlen_app.
  pose proof (zlen_nonneg c). rewrite !byte_at_app by lia.
  destruct (Z.ltb_spec (zlen buf + zlen c) 5), (Z.ltb_spec (zlen buf) 5); [lia..|done].
Qed.

Lemma FrameHeader_decode_encode h rest :
  0 ≤ h.(fh_len) ≤ MAX_FRAME_BODY_LEN →
  FrameHeader_decode (FrameHeader_encode h ++ rest) = Ok (h, FRAME_HEADER_LEN).
Proof.
  destruct h as [ty len]. cbn [fh_len]. intros Hlen.
  assert (H4 : zlen (FrameHeader_encode {| fh_ty := ty; fh_len := len |}) = 5).
  { unfold FrameHeader_encode. by rewrite zlen_cons, zlen_to_be. }
  rewrite FrameHeader_decode_app by (unfold FRAME_HEADER_LEN; lia).
  unfold FrameHeader_decode, FRAME_HEADER_LEN. rewrite header_len_slice, H4 by lia.
  unfold FrameHeader_encode. cbn [fh_ty fh_len Z.ltb Z.compare Pos.compare Pos.compare_cont].
  change (byte_at (frame_type_u8 ty :: _) 0) with (frame_type_u8 ty).
  rewrite frame_type_roundtrip. cbn [rbind].
  rewrite slice_cons, slice_0, ztake_all by (by rewrite ?zlen_to_be).
  unfold wrap. rewrite Z.mod_small, from_to_be_small by (unfold MAX_FRAME_BODY_LEN in *; lia).
  by rewrite (proj2 (FrameHeader_new_Ok _ _ _) (conj (proj2 Hlen) eq_refl)).
Qed.

(** What a decoded header says of the bytes it was read from. *)
Lemma FrameHeader_decode_inv buf h n :
  wf_bytes buf → FrameHeader_decode buf = Ok (h, n) →
  n = FRAME_HEADER_LEN ∧ FRAME_HEADER_LEN ≤ zlen buf ∧ 0 ≤ h.(fh_len) ≤ MAX_FRAME_BODY_LEN
  ∧ ztake FRAME_HEADER_LEN buf = FrameHeader_encode h.
Proof.
  intros Hwf. unfold FrameHeader_decode, FRAME_HEADER_LEN.
  destruct (Z.ltb_spec (zlen buf) 5) as [|Hl]; [done|]. rewrite header_len_slice by done.
  destruct (frame_type_try_from _) as [ty|] eqn:Ht; [|done]. cbn [rbind].
  destruct (FrameHeader_new ty _) as [h'|] eqn:Hh; [|done]. cbn [rbind]. intros [= <- <-].
  apply FrameHeader_new_Ok in Hh as [Hm ->]. apply frame_type_try_from_Ok in Ht.
  assert (Hs : zlen (slice 1 5 buf) = 4) by (rewrite zlen_slice; lia).
  assert (Hw : wf_bytes (slice 1 5 buf)) by auto with crab.
  destruct (from_be_range (slice 1 5 buf)) as [H0 _].
  repeat split; try done. unfold FrameHeader_encode. cbn [fh_ty fh_len].
  unfold wrap. rewrite Z.mod_small by (unfold MAX_FRAME_BODY_LEN in *; lia).
  unfold zlen in Hs. replace 4%nat with (length (slice 1 5 buf)) by lia.
  rewrite to_from_be, <- Ht by done.
  destruct buf as [|b0 buf]; [rewrite zlen_nil in Hl; lia|]. done.
Qed.

Lemma FrameHeader_decode_bounds buf h n :
  FrameHeader_decode buf = Ok (h, n) →
  n = FRAME_HEADER_LEN ∧ FRAME_HEADER_LEN ≤ zlen buf ∧ 0 ≤ h.(fh_len) ≤ MAX_FRAME_BODY_LEN.
Proof.
  unfold FrameHeader_decode, FRAME_HEADER_LEN. destruct (Z.ltb_spec (zlen buf) 5); [done|].
  destruct (frame_type_try_from _); [|done]. cbn [rbind].
  destruct (FrameHeader_new _ _) eqn:Hh; [|done]. cbn [rbind]. intros [= <- <-].
  apply FrameHeader_new_Ok in Hh as [? ->]. cbn [fh_len].
  pose proof (from_be_range [byte_at buf 1; byte_at buf 2; byte_at buf 3; byte_at buf 4]). lia.
Qed.

Lemma FrameHeader_decode_short buf :
  zlen buf < FRAME_HEADER_LEN → FrameHeader_decode buf = Err Truncated.
Proof. intros. unfold FrameHeader_decode. by destruct (Z.ltb_spec (zlen buf) FRAME_HEADER_LEN); [|lia]. Qed.

(** Past the header, a header error is not [Truncated]. *)
Lemma FrameHeader_decode_long buf :
  FRAME_HEADER_LEN ≤ zlen buf → FrameHeader_decode buf ≠ Err Truncated.
Proof.
  intros. unfold FrameHeader_decode. destruct (Z.ltb_spec (zlen buf) FRAME_HEADER_LEN); [lia|].
  unfold frame_type_try_from, FrameHeader_new. repeat (case_match; simplify_eq/=; try done).
Qed.

Lemma decode_frame_short buf :
  zlen buf < FRAME_HEADER_LEN → decode_frame buf = Err Truncated.
Proof. intros. unfold decode_frame. by rewrite FrameHeader_decode_short. Qed.

(** [decode_frame] through the header it reads. *)
Lemma decode_frame_eq buf :
  FRAME_HEADER_LEN ≤ zlen buf →
  decode_frame buf =
  match FrameHeader_decode buf with
  | Ok (h, _) =>
      if zlen buf <? FRAME_HEADER_LEN + h.(fh_len) then Err Truncated
      else Ok (h.(fh_ty), slice FRAME_HEADER_LEN (FRAME_HEADER_LEN + h.(fh_len)) buf,
               FRAME_HEADER_LEN + h.(fh_len))
  | Err e => Err e
  end.
Proof.
  intros. unfold decode_frame. destruct (FrameHeader_decode buf) as [[h n]|] eqn:Hd; [|done].
  by apply FrameHeader_decode_bounds in Hd as (-> & _).
Qed.

Lemma encode_frame_Ok ty p f :
  encode_frame ty p = Ok f ↔
  zlen p ≤ MAX_FRAME_BODY_LEN
  ∧ f = FrameHeader_encode {| fh_ty := ty; fh_len := zlen p |} ++ p.
Proof.
  unfold encode_frame. destruct (FrameHeader_new ty (zlen p)) as [h|e] eqn:Hh; cbn.
  - apply FrameHeader_new_Ok in Hh as [? ->]. split; [intros [= <-]; done|by intros [_ ->]].
  - split; [done|]. intros [Hle _]. unfold FrameHeader_new in Hh. crush. lia.
Qed.

Lemma zlen_FrameHeader_encode h : zlen (FrameHeader_encode h) = FRAME_HEADER_LEN.
Proof. unfold FrameHeader_encode. by rewrite zlen_cons, zlen_to_be. Qed.

(** A frame decodes to its type and body, whatever follows. *)
Lemma decode_encode_frame ty p f rest :
  encode_frame ty p = Ok f → decode_frame (f ++ rest) = Ok (ty, p, zlen f).
Proof.
  intros (Hm & ->)%encode_frame_Ok. pose proof (zlen_nonneg p). pose proof (zlen_nonneg rest).
  rewrite <- app_assoc, decode_frame_eq
    by (rewrite zlen_app, zlen_app, zlen_FrameHeader_encode; lia).
  rewrite FrameHeader_decode_encode by done. cbn [fh_len fh_ty].
  rewrite !zlen_app, zlen_FrameHeader_encode. case_match; [lia|].
  rewrite slice_app_mid; [done|apply zlen_FrameHeader_encode|lia].
Qed.

(** An answer other than [Truncated] is final. *)
Lemma decode_frame_app buf c :
  decode_frame buf ≠ Err Truncated → decode_frame (buf ++ c) = decode_frame buf.
Proof.
  intros Hn. destruct (Z.lt_ge_cases (zlen buf) FRAME_HEADER_LEN) as [|Hl].
  { by rewrite decode_frame_short in Hn. }
  pose proof (zlen_nonneg c). rewrite (decode_frame_eq buf) in Hn |- * by done.
  rewrite decode_frame_eq, FrameHeader_decode_app by (rewrite ?zlen_app; lia).
  destruct (FrameHeader_decode buf) as [[h n]|e]; [|done]. rewrite zlen_app.
  destruct (Z.ltb_spec (zlen buf) (FRAME_HEADER_LEN + h.(fh_len))); [done|].
  case_match; [lia|]. do 2 f_equal. unfold slice, ztake, zdrop, zlen, FRAME_HEADER_LEN in *.
  rewrite drop_app_le, take_app_le by (rewrite ?length_drop; lia). done.
Qed.

Lemma decode_frame_consumes buf ty p n :
  wf_bytes buf → decode_frame buf = Ok (ty, p, n) →
  n = FRAME_HEADER_LEN + zlen p ∧ n ≤ zlen buf ∧ encode_frame ty p = Ok (ztake n buf).
Proof.
  intros Hwf Hd. destruct (Z.lt_ge_cases (zlen buf) FRAME_HEADER_LEN) as [|Hl].
  { by rewrite decode_frame_short in Hd. }
  rewrite decode_frame_eq in Hd by done.
  destruct (FrameHeader_decode buf) as [[h k]|] eqn:Hh; [|done].
  apply FrameHeader_decode_inv in Hh as (-> & _ & Hlen & Ht); [|done].
  destruct (Z.ltb_spec (zlen buf) (FRAME_HEADER_LEN + h.(fh_len))) as [|Hb]; [done|].
  injection Hd as <- <- <-. unfold FRAME_HEADER_LEN in *.
  assert (Hz : zlen (slice 5 (5 + fh_len h) buf) = fh_len h) by (rewrite zlen_slice; lia).
  rewrite Hz. repeat split; [lia|]. apply encode_frame_Ok. rewrite Hz. split; [lia|].
  rewrite (ztake_slices 5), Ht by lia. by destruct h.
Qed.

(** [encode_frame] and [decode_frame] are inverse: on well-formed bytes the
    decoder returns a frame with a byte count exactly when that many bytes of
    the buffer are that frame's encoding. *)
Theorem derp_frame_exact buf ty payload n :
  wf_bytes buf →
  decode_frame buf = Ok (ty, payload, n) ↔
  n = FRAME_HEADER_LEN + zlen payload ∧ n ≤ zlen buf
  ∧ encode_frame ty payload = Ok (ztake n buf).
Proof.
  intros Hwf. split; [by apply decode_frame_consumes|].
  intros (Hn & Hle & He). rewrite <- (ztake_zdrop n buf), (decode_encode_frame _ _ _ _ He).
  pose proof (zlen_nonneg payload). rewrite zlen_take; [done|]. unfold FRAME_HEADER_LEN in *. lia.
Qed.

Lemma derp_frame_exact_witness :
  decode_frame [0x12; 0; 0; 0; 2; 7; 8; 99] = Ok (Ping, [7; 8], 7).
Proof.
  apply (derp_frame_exact [0x12; 0; 0; 0; 2; 7; 8; 99] Ping [7; 8] 7);
    [repeat (constructor; [lia|]); constructor | by vm_compute].
Defined.

(** ** The buffered decoder *)

Lemma frame_decoder_consumes s buf s' a n :
  frame_decoder_step s buf = Produce s' a n → 0 < n ≤ zlen buf.
Proof.
  unfold frame_decoder_step. destruct (Z.lt_ge_cases (zlen buf) FRAME_HEADER_LEN).
  { by rewrite decode_frame_short. }
  rewrite decode_frame_eq by done.
  destruct (FrameHeader_decode buf) as [[h k]|e] eqn:Hh; [|by destruct e].
  apply FrameHeader_decode_bounds in Hh as (_ & _ & Hb). unfold FRAME_HEADER_LEN in *.
  destruct (zlen buf <? _) eqn:?; [done|]. intros [= <- <- <-]. lia.
Qed.

(** The step's answer is final unless it asks for more. *)
Lemma frame_decoder_app s buf c :
  frame_decoder_step s buf ≠ NeedMore →
  frame_decoder_step s (buf ++ c) = frame_decoder_step s buf.
Proof.
  unfold frame_decoder_step. intros Hn. rewrite decode_frame_app; [done|].
  intros He. by rewrite He in Hn.
Qed.

(** [FrameDecoder]: its state besides the buffer is nothing, its [feed] the
    loop of [StreamDecoder]. *)
#[global] Program Instance FrameDecoder : StreamDecoder unit (FrameType * bytes) FrameError :=
  {| decode1 := frame_decoder_step |}.
Next Obligation. apply frame_decoder_consumes. Qed.
Next Obligation. intros * Hd. by rewrite frame_decoder_app, Hd by (by rewrite Hd). Qed.
Next Obligation. intros * Hd. by rewrite frame_decoder_app, Hd by (by rewrite Hd). Qed.

Definition FrameDecoder_feed (buf data : bytes)
    : bytes * result (list (FrameType * bytes)) FrameError :=
  let '((_, buf'), r) := feed (SD := FrameDecoder) (tt, buf) data in (buf', r).

Lemma derp_frames_encode (l : list (FrameType * bytes)) encoded :
  Forall2 (λ f e, encode_frame f.1 f.2 = Ok e) l encoded →
  encodes (SD := FrameDecoder) tt l (concat encoded) tt.
Proof.
  induction 1 as [|[ty p] e l es He _ IH]; cbn [concat]; [constructor|].
  econstructor; [|apply IH]. intros rest. cbn in He |- *. unfold frame_decoder_step.
  by rewrite (decode_encode_frame _ _ _ _ He).
Qed.

(** The relay's buffered decoder loses and invents nothing: the frames of
    any list [l] (each within the body limit), written one after the other and
    delivered in any pieces, come out as exactly [l], in order, with nothing
    left in the buffer. *)
Theorem frame_decoder_roundtrip (l : list (FrameType * bytes)) encoded chunks :
  Forall2 (λ f e, encode_frame f.1 f.2 = Ok e) l encoded →
  concat chunks = concat encoded →
  feed_all (SD := FrameDecoder) (tt, []) chunks = ((tt, []), Ok l).
Proof.
  intros Hl Hc. by apply (feed_all_encoded tt l (concat encoded) tt); [apply derp_frames_encode|..].
Qed.

Lemma frame_decoder_roundtrip_witness :
  feed_all (SD := FrameDecoder) (tt, []) [[0x13; 0; 0]; [0; 1; 9; 6; 0; 0; 0; 0]]
  = ((tt, []), Ok [(Pong, [9]); (KeepAlive, [])]).
Proof.
  apply (frame_decoder_roundtrip [(Pong, [9]); (KeepAlive, [])] [[0x13; 0; 0; 0; 1; 9]; [6; 0; 0; 0; 0]]).
  - by repeat constructor.
  - by vm_compute.
Defined.

(** An oversized or unknown header is refused the moment its five bytes
    are there, before any body byte, however the stream is cut: feeding any
    chunks whose concatenation starts with such a header ends in that error. *)
Theorem frame_decoder_rejects_early hdr e chunks rest :
  zlen hdr = FRAME_HEADER_LEN → FrameHeader_decode hdr = Err e →
  concat chunks = hdr ++ rest →
  (feed_all (SD := FrameDecoder) (tt, []) chunks).2 = Err e
  ∧ FrameDecoder_feed [] hdr = (hdr, Err e).
Proof.
  intros Hz He Hc.
  assert (Hd : decode1 (StreamDecoder := FrameDecoder) tt hdr = Reject tt e).
  { cbn. unfold frame_decoder_step, decode_frame. rewrite He. cbn.
    pose proof (FrameHeader_decode_long hdr ltac:(lia)). by destruct e. }
  split; [|unfold FrameDecoder_feed, feed; cbn [fst snd app]; by rewrite drain_eq, Hd].
  pose proof (feed_all_concat (SD := FrameDecoder) (tt, []) chunks eq_refl) as Hf.
  assert (Ha : (feed (SD := FrameDecoder) (tt, []) (concat chunks)).2 = Err e).
  { unfold feed. cbn [fst snd app]. by rewrite Hc, drain_eq, (decode1_reject_stable _ _ _ _ _ Hd). }
  destruct (feed_all _ chunks) as [st [o|e']]; cbn.
  - destruct Hf as [Hf _]. by rewrite Hf in Ha.
  - congruence.
Qed.

Lemma frame_decoder_rejects_early_witness :
  (feed_all (SD := FrameDecoder) (tt, []) [[0x04; 255]; [255; 255; 255]; [1; 2]]).2 = Err Oversized
  ∧ FrameDecoder_feed [] [0x04; 255; 255; 255; 255] = ([0x04; 255; 255; 255; 255], Err Oversized).
Proof.
  exact (frame_decoder_rejects_early [0x04; 255; 255; 255; 255] Oversized
           [[0x04; 255]; [255; 255; 255]; [1; 2]] [1; 2] eq_refl eq_refl eq_refl).
Defined.

(** ** The codec and the asynchronous reader *)

(** The tokio codec made by [DerpCodec::new] is [decode_frame] in the shape the
    [Decoder] trait asks for. *)
Lemma DerpCodec_decode_new src :
  DerpCodec_decode DerpCodec_new src =
  match decode_frame src with
  | Ok (ty, p, n) => Ok (Some (ty, p), zdrop n src)
  | Err Truncated => Ok (None, src)
  | Err e => Err e
  end.
Proof.
  unfold DerpCodec_decode. destruct (Z.ltb_spec (zlen src) FRAME_HEADER_LEN) as [|Hl].
  { by rewrite decode_frame_short. }
  pose proof (FrameHeader_decode_long src Hl) as Hlong. rewrite decode_frame_eq by done.
  destruct (FrameHeader_decode src) as [[h n]|e] eqn:Hh; cbn [rbind]; [|by destruct e].
  apply FrameHeader_decode_bounds in Hh as (_ & _ & Hb). cbn [max_body_len DerpCodec_new].
  destruct (Z.ltb_spec MAX_FRAME_BODY_LEN h.(fh_len)); [lia|].
  destruct (Z.ltb_spec (zlen src) (FRAME_HEADER_LEN + h.(fh_len))); [done|].
  do 3 f_equal. unfold slice, zdrop, ztake. rewrite skipn_firstn_comm. do 2 f_equal.
  unfold FRAME_HEADER_LEN in *. lia.
Qed.

(** The asynchronous [read_frame] refines the in-memory decoder: on a reader
    that delivers a byte stream in arbitrary non-empty pieces it returns exactly
    the frame [decode_frame] finds at the front of the stream and leaves the
    reader right after it; a truncated stream is a clean end only when it is
    empty, and an invalid header is reported as such. *)
Theorem read_frame_refines r :
  live r →
  match decode_frame (stream_of r) with
  | Ok (ty, payload, n) =>
      ∃ r', read_frame r = Ok (Some (ty, payload), r') ∧ live r'
            ∧ stream_of r' = zdrop n (stream_of r)
  | Err Truncated =>
      if zlen (stream_of r) =? 0 then read_frame r = Ok (None, [])
      else read_frame r = Err (if zlen (stream_of r) <? FRAME_HEADER_LEN
                               then UnexpectedEofHeader else UnexpectedEofFrame)
  | Err e => read_frame r = Err (InvalidData e)
  end.
Proof.
  intros Hr. unfold read_frame. pose proof (fill_live FRAME_HEADER_LEN r ltac:(done) Hr) as Hf.
  destruct (Z.leb_spec FRAME_HEADER_LEN (zlen (stream_of r))) as [Hl|Hl].
  - destruct Hf as (r1 & -> & Hr1 & Hs1). rewrite decode_frame_eq by done.
    assert (H5 : zlen (ztake FRAME_HEADER_LEN (stream_of r)) = FRAME_HEADER_LEN)
      by (apply zlen_take; split; [done|lia]).
    destruct (ztake FRAME_HEADER_LEN (stream_of r)) as [|x0 x] eqn:Hx; [done|].
    assert (Hhd : FrameHeader_decode (x0 :: x) = FrameHeader_decode (stream_of r)).
    { rewrite <- (ztake_zdrop FRAME_HEADER_LEN (stream_of r)), Hx.
      by rewrite FrameHeader_decode_app by lia. }
    rewrite Hhd. pose proof (FrameHeader_decode_long _ Hl).
    destruct (FrameHeader_decode (stream_of r)) as [[h n]|e] eqn:Hh; [|by destruct e].
    cbn [rbind map_err].
    apply FrameHeader_decode_bounds in Hh as (_ & _ & Hb).
    pose proof (fill_live h.(fh_len) r1 ltac:(lia) Hr1) as Hf.
    rewrite Hs1, zlen_drop in Hf by (unfold FRAME_HEADER_LEN in *; lia).
    destruct (Z.ltb_spec (zlen (stream_of r)) (FRAME_HEADER_LEN + h.(fh_len))) as [Ht|Ht].
    + destruct (Z.leb_spec h.(fh_len) (zlen (stream_of r) - FRAME_HEADER_LEN)); [lia|].
      rewrite Hf. unfold FRAME_HEADER_LEN in *. repeat (case_match; [lia|]). done.
    + destruct (Z.leb_spec h.(fh_len) (zlen (stream_of r) - FRAME_HEADER_LEN)); [|lia].
      destruct Hf as (r2 & -> & Hr2 & Hs2). exists r2. split; [|split; [done|]].
      * do 3 f_equal. unfold slice. do 2 f_equal. lia.
      * rewrite Hs2. unfold zdrop. rewrite drop_drop. f_equal. unfold FRAME_HEADER_LEN. lia.
  - rewrite Hf, decode_frame_short by done. destruct (stream_of r) as [|x s]; [done|].
    rewrite zlen_cons in *. pose proof (zlen_nonneg s). case_match; [lia|].
    by case_match; [|lia].
Qed.

Lemma read_frame_refines_witness :
  read_frame [Data [0x12; 0]; Data [0; 0; 1; 5]; Data [4]] = Ok (Some (Ping, [5]), [Data [4]]).
Proof.
  pose proof (read_frame_refines [Data [0x12; 0]; Data [0; 0; 1; 5]; Data [4]] eq_refl) as H.
  vm_compute in H. vm_compute. by destruct H as (r' & -> & _).
Defined.

(** [DerpCodec::default()] is not the codec of [DerpCodec::new()]: its
    ceiling is zero, so it refuses every frame with a body, on both sides. *)
Theorem DerpCodec_default_refuses ty b p f dst :
  encode_frame ty (b :: p) = Ok f →
  DerpCodec_decode DerpCodec_default f = Err Oversized
  ∧ DerpCodec_encode DerpCodec_default (ty, b :: p) dst = Err Oversized
  ∧ DerpCodec_decode DerpCodec_new f = Ok (Some (ty, b :: p), []).
Proof.
  intros He. pose proof (zlen_nonneg p). split; [|split].
  - pose proof He as (Hm & ->)%encode_frame_Ok. unfold DerpCodec_decode.
    rewrite zlen_app, zlen_FrameHeader_encode, zlen_cons. case_match; [lia|].
    rewrite FrameHeader_decode_encode by (cbn [fh_len]; rewrite zlen_cons in *; lia).
    cbn [rbind fh_len max_body_len DerpCodec_default]. by case_match; [|lia].
  - unfold DerpCodec_encode. cbn [snd max_body_len DerpCodec_default]. rewrite zlen_cons.
    by case_match; [|lia].
  - rewrite DerpCodec_decode_new. pose proof (decode_encode_frame _ _ _ [] He) as Hd.
    rewrite app_nil_r in Hd. rewrite Hd. by rewrite zdrop_all.
Qed.

Lemma DerpCodec_default_refuses_witness :
  DerpCodec_decode DerpCodec_default [0x14; 0; 0; 0; 1; 65] = Err Oversized
  ∧ DerpCodec_encode DerpCodec_default (Health, [65]) [] = Err Oversized
  ∧ DerpCodec_decode DerpCodec_new [0x14; 0; 0; 0; 1; 65] = Ok (Some (Health, [65]), []).
Proof. exact (DerpCodec_default_refuses Health 65 [] _ [] eq_refl). Defined.
