(* ===== verification/DerpFrames.v ===== *)
(** * Typed DERP frame bodies ([crabscale-derp/src/frames.rs])

    One record per body with its encoder and decoder.  [FixedBody] is the
    contract of the fixed-width bodies and [PrefixBody] that of the bodies with
    a fixed prefix and a variable tail; each body is an instance. *)

From S2P Require Import Prelude StreamDecoder Reader DerpFrame.

Definition KEY_LEN : Z := 32.
Definition NONCE_LEN : Z := 24.
Definition SERVER_KEY_BODY_LEN : Z := zlen MAGIC + KEY_LEN.
Definition CLIENT_INFO_PREFIX_LEN : Z := KEY_LEN + NONCE_LEN.
Definition SERVER_INFO_PREFIX_LEN : Z := NONCE_LEN.
Definition SEND_PACKET_PREFIX_LEN : Z := KEY_LEN.
Definition RECV_PACKET_PREFIX_LEN : Z := KEY_LEN.
Definition FORWARD_PACKET_PREFIX_LEN : Z := KEY_LEN * 2.
Definition PEER_GONE_BODY_LEN : Z := KEY_LEN + 1.
Definition NOTE_PREFERRED_BODY_LEN : Z := 1.
Definition PING_BODY_LEN : Z := 8.
Definition RESTARTING_BODY_LEN : Z := 8.
Definition PEER_PRESENT_KEY_LEN : Z := KEY_LEN.
Definition PEER_PRESENT_IP_PORT_LEN : Z := 16 + 2.
Definition PEER_PRESENT_FULL_LEN : Z := KEY_LEN + 16 + 2 + 1.

(** An array field [[u8; n]]. *)
Definition array (n : Z) (l : bytes) : Prop := wf_bytes l ∧ zlen l = n.

Inductive PeerPresentFlags : Type := Regular | MeshPeer | Prober | NotIdeal.

Definition peer_present_flag_u8 (f : PeerPresentFlags) : Z :=
  match f with Regular => 0x01 | MeshPeer => 0x02 | Prober => 0x04 | NotIdeal => 0x08 end.

Inductive PeerGoneReason : Type := Disconnected | NotHere.

Definition peer_gone_reason_u8 (r : PeerGoneReason) : Z :=
  match r with Disconnected => 0x00 | NotHere => 0x01 end.

Definition peer_gone_reason_try_from (value : Z) : result PeerGoneReason FrameError :=
  match value with
  | 0x00 => Ok Disconnected
  | 0x01 => Ok NotHere
  | other => Err (InvalidPeerGoneReason other)
  end.

(** The length test of the fixed-width decoders. *)
Definition check_len (expected : Z) (body : bytes) : option FrameError :=
  if negb (zlen body =? expected) then Some (InvalidBodyLength expected (zlen body)) else None.

Record ServerKeyBody : Type := { sk_key : bytes }.

Definition ServerKeyBody_encode (b : ServerKeyBody) : bytes := MAGIC ++ b.(sk_key).

Definition ServerKeyBody_decode (body : bytes) : result ServerKeyBody FrameError :=
  match check_len SERVER_KEY_BODY_LEN body with
  | Some e => Err e
  | None =>
      fail_if bool_decide (ztake (zlen MAGIC) body ≠ MAGIC) with InvalidMagic ;;
      Ok {| sk_key := zdrop (zlen MAGIC) body |}
  end.

Record ClientInfoBody : Type := { ci_key : bytes; ci_nonce : bytes }.

Definition ClientInfoBody_encode_prefix (b : ClientInfoBody) : bytes :=
  b.(ci_key) ++ b.(ci_nonce).

Definition ClientInfoBody_decode_prefix (body : bytes) : result ClientInfoBody FrameError :=
  fail_if zlen body <? CLIENT_INFO_PREFIX_LEN with Truncated ;;
  Ok {| ci_key := ztake KEY_LEN body; ci_nonce := slice KEY_LEN CLIENT_INFO_PREFIX_LEN body |}.

Record ServerInfoBody : Type := { si_nonce : bytes }.

Definition ServerInfoBody_encode_prefix (b : ServerInfoBody) : bytes := b.(si_nonce).

Definition ServerInfoBody_decode_prefix (body : bytes) : result ServerInfoBody FrameError :=
  fail_if zlen body <? SERVER_INFO_PREFIX_LEN with Truncated ;;
  Ok {| si_nonce := ztake SERVER_INFO_PREFIX_LEN body |}.

Record SendPacketBody : Type := { sp_dest : bytes }.

Definition SendPacketBody_encode_prefix (b : SendPacketBody) : bytes := b.(sp_dest).

Definition SendPacketBody_decode_prefix (body : bytes) : result SendPacketBody FrameError :=
  fail_if zlen body <? SEND_PACKET_PREFIX_LEN with Truncated ;;
  Ok {| sp_dest := ztake SEND_PACKET_PREFIX_LEN body |}.

Record RecvPacketBody : Type := { rp_src : bytes }.

Definition RecvPacketBody_encode_prefix (b : RecvPacketBody) : bytes := b.(rp_src).

Definition RecvPacketBody_decode_prefix (body : bytes) : result RecvPacketBody FrameError :=
  fail_if zlen body <? RECV_PACKET_PREFIX_LEN with Truncated ;;
  Ok {| rp_src := ztake RECV_PACKET_PREFIX_LEN body |}.

Record ForwardPacketBody : Type := { fp_src : bytes; fp_dest : bytes }.

Definition ForwardPacketBody_encode_prefix (b : ForwardPacketBody) : bytes :=
  b.(fp_src) ++ b.(fp_dest).

Definition ForwardPacketBody_decode_prefix (body : bytes) : result ForwardPacketBody FrameError :=
  fail_if zlen body <? FORWARD_PACKET_PREFIX_LEN with Truncated ;;
  Ok {| fp_src := ztake KEY_LEN body;
        fp_dest := slice KEY_LEN FORWARD_PACKET_PREFIX_LEN body |}.

Record NotePreferredBody : Type := { np_preferred : bool }.

Definition NotePreferredBody_encode (b : NotePreferredBody) : bytes :=
  [if b.(np_preferred) then 1 else 0].

Definition NotePreferredBody_decode (body : bytes) : result NotePreferredBody FrameError :=
  match check_len NOTE_PREFERRED_BODY_LEN body with
  | Some e => Err e
  | None => Ok {| np_preferred := negb (byte_at body 0 =? 0) |}
  end.

Record PeerGoneBody : Type := { pg_key : bytes; pg_reason : PeerGoneReason }.

Definition PeerGoneBody_encode (b : PeerGoneBody) : bytes :=
  b.(pg_key) ++ [peer_gone_reason_u8 b.(pg_reason)].

Definition PeerGoneBody_decode (body : bytes) : result PeerGoneBody FrameError :=
  match check_len PEER_GONE_BODY_LEN body with
  | Some e => Err e
  | None =>
      let? reason := peer_gone_reason_try_from (byte_at body KEY_LEN) in
      Ok {| pg_key := ztake KEY_LEN body; pg_reason := reason |}
  end.

Record PeerPresentBody : Type := {
  pp_key : bytes; pp_ip : option bytes; pp_port : option Z; pp_flags : Z }.

Definition PeerPresentBody_new (key : bytes) (flags : Z) : PeerPresentBody :=
  {| pp_key := key; pp_ip := None; pp_port := None; pp_flags := flags |}.

Definition PeerPresentBody_encode (b : PeerPresentBody) : bytes :=
  b.(pp_key) ++ default (zeros 16) b.(pp_ip) ++ to_be 2 (default 0 b.(pp_port)) ++ [b.(pp_flags)].

Definition PeerPresentBody_decode (body : bytes) : result PeerPresentBody FrameError :=
  let len := zlen body in
  let key := ztake KEY_LEN body in
  let ip := slice KEY_LEN (KEY_LEN + 16) body in
  let port := from_be (slice (KEY_LEN + 16) (KEY_LEN + 16 + 2) body) in
  fail_if len <? PEER_PRESENT_KEY_LEN with Truncated ;;
  if len =? PEER_PRESENT_KEY_LEN then
    Ok {| pp_key := key; pp_ip := None; pp_port := None; pp_flags := 0 |}
  else if len =? PEER_PRESENT_KEY_LEN + PEER_PRESENT_IP_PORT_LEN then
    Ok {| pp_key := key; pp_ip := Some ip; pp_port := Some port; pp_flags := 0 |}
  else if PEER_PRESENT_FULL_LEN <=? len then
    Ok {| pp_key := key; pp_ip := Some ip; pp_port := Some port;
          pp_flags := byte_at body (KEY_LEN + 16 + 2) |}
  else Err (InvalidBodyLength PEER_PRESENT_FULL_LEN len).

(** [PingBody] and [PongBody] have the same layout. *)
Record PingBody : Type := { ping_payload : bytes }.

Definition PingBody_encode (b : PingBody) : bytes := b.(ping_payload).

Definition PingBody_decode (body : bytes) : result PingBody FrameError :=
  match check_len PING_BODY_LEN body with
  | Some e => Err e
  | None => Ok {| ping_payload := body |}
  end.

Record PongBody : Type := { pong_payload : bytes }.

Definition PongBody_encode (b : PongBody) : bytes := b.(pong_payload).

Definition PongBody_decode (body : bytes) : result PongBody FrameError :=
  match check_len PING_BODY_LEN body with
  | Some e => Err e
  | None => Ok {| pong_payload := body |}
  end.

(** [core::str::from_utf8]: well-formed UTF-8, without overlong forms,
    surrogates or code points past U+10FFFF. *)
Definition cont (b : Z) : bool := (0x80 <=? b) && (b <=? 0xBF).

Fixpoint utf8_valid_loop (fuel : nat) (l : bytes) : bool :=
  match fuel with
  | O => true
  | S fuel =>
      match l with
      | [] => true
      | b0 :: t0 =>
          if b0 <? 0x80 then utf8_valid_loop fuel t0
          else
            match t0 with
            | [] => false
            | b1 :: t1 =>
                if (0xC2 <=? b0) && (b0 <=? 0xDF) then cont b1 && utf8_valid_loop fuel t1
                else
                  match t1 with
                  | [] => false
                  | b2 :: t2 =>
                      if (0xE0 <=? b0) && (b0 <=? 0xEF) then
                        (if b0 =? 0xE0 then (0xA0 <=? b1) && (b1 <=? 0xBF)
                         else if b0 =? 0xED then (0x80 <=? b1) && (b1 <=? 0x9F)
                         else cont b1)
                        && cont b2 && utf8_valid_loop fuel t2
                      else
                        match t2 with
                        | [] => false
                        | b3 :: t3 =>
                            (0xF0 <=? b0) && (b0 <=? 0xF4)
                            && (if b0 =? 0xF0 then (0x90 <=? b1) && (b1 <=? 0xBF)
                                else if b0 =? 0xF4 then (0x80 <=? b1) && (b1 <=? 0x8F)
                                else cont b1)
                            && cont b2 && cont b3 && utf8_valid_loop fuel t3
                        end
                  end
            end
      end
  end.

Definition utf8_valid (l : bytes) : bool := utf8_valid_loop (length l) l.

(** A [String] is its bytes, which are valid UTF-8. *)
Record HealthBody : Type := { health_msg : bytes }.

Definition HealthBody_encode (b : HealthBody) : bytes := b.(health_msg).

Definition HealthBody_decode (body : bytes) : result HealthBody FrameError :=
  if utf8_valid body then Ok {| health_msg := body |} else Err InvalidUtf8.

Record RestartingBody : Type := { reconnect_ms : Z; total_ms : Z }.

Definition RestartingBody_encode (b : RestartingBody) : bytes :=
  to_be 4 b.(reconnect_ms) ++ to_be 4 b.(total_ms).

Definition RestartingBody_decode (body : bytes) : result RestartingBody FrameError :=
  match check_len RESTARTING_BODY_LEN body with
  | Some e => Err e
  | None => Ok {| reconnect_ms := from_be (slice 0 4 body); total_ms := from_be (slice 4 8 body) |}
  end.

Definition validate_frame_body (ty : FrameType) (body_len : Z) : result unit FrameError :=
  fail_if MAX_FRAME_BODY_LEN <? body_len with Oversized ;;
  let packet_len :=
    match ty with
    | SendPacket | RecvPacket => Z.max 0 (body_len - SEND_PACKET_PREFIX_LEN)
    | ForwardPacket => Z.max 0 (body_len - FORWARD_PACKET_PREFIX_LEN)
    | _ => 0
    end in
  fail_if MAX_PACKET_PAYLOAD_LEN <? packet_len with PacketTooLarge ;;
  Ok tt.

(** ** Contracts *)

(** A fixed-width body: decoding accepts bodies of one length only, and gives
    back what was encoded. *)
Class FixedBody (A : Type) : Type := {
  fixed_len : Z;
  fixed_ok : A → Prop;
  fixed_encode : A → bytes;
  fixed_decode : bytes → result A FrameError;
  fixed_encode_len a : fixed_ok a → zlen (fixed_encode a) = fixed_len;
  fixed_roundtrip a : fixed_ok a → fixed_decode (fixed_encode a) = Ok a;
  fixed_reject body :
    zlen body ≠ fixed_len → fixed_decode body = Err (InvalidBodyLength fixed_len (zlen body));
}.

(** A body with a fixed prefix: the prefix is read back whatever packet or
    ciphertext follows it, and only a shorter body is refused. *)
Class PrefixBody (A : Type) : Type := {
  prefix_len : Z;
  prefix_ok : A → Prop;
  prefix_encode : A → bytes;
  prefix_decode : bytes → result A FrameError;
  prefix_encode_len a : prefix_ok a → zlen (prefix_encode a) = prefix_len;
  prefix_roundtrip a tail : prefix_ok a → prefix_decode (prefix_encode a ++ tail) = Ok a;
  prefix_exact body :
    match prefix_decode body with
    | Ok a => prefix_len ≤ zlen body ∧ prefix_encode a = ztake prefix_len body
    | Err e => e = Truncated ∧ zlen body < prefix_len
    end;
}.

Lemma check_len_ok n body : zlen body = n → check_len n body = None.
Proof. intros <-. unfold check_len. by rewrite Z.eqb_refl. Qed.

Lemma check_len_bad n body :
  zlen body ≠ n → check_len n body = Some (InvalidBodyLength n (zlen body)).
Proof. intros Hn. unfold check_len. by destruct (Z.eqb_spec (zlen body) n). Qed.

(** Closes the length refusal of a fixed-width decoder. *)
Ltac fixed_refuses d := intros; unfold d; by rewrite check_len_bad.

#[global] Program Instance ServerKeyBody_fixed : FixedBody ServerKeyBody := {|
  fixed_len := SERVER_KEY_BODY_LEN;
  fixed_ok b := array KEY_LEN b.(sk_key);
  fixed_encode := ServerKeyBody_encode;
  fixed_decode := ServerKeyBody_decode |}.
Next Obligation.
  intros b [_ Hk]. unfold ServerKeyBody_encode. by rewrite zlen_app, Hk.
Qed.
Next Obligation.
  intros [k] [_ Hk]. cbn in Hk. unfold ServerKeyBody_decode, ServerKeyBody_encode. cbn [sk_key].
  rewrite check_len_ok by (by rewrite zlen_app, Hk). rewrite ztake_app, zdrop_app by done.
  by rewrite bool_decide_eq_false_2 by (intros ?; done).
Qed.
Next Obligation. fixed_refuses ServerKeyBody_decode. Qed.

#[global] Program Instance NotePreferredBody_fixed : FixedBody NotePreferredBody := {|
  fixed_len := NOTE_PREFERRED_BODY_LEN;
  fixed_ok _ := True;
  fixed_encode := NotePreferredBody_encode;
  fixed_decode := NotePreferredBody_decode |}.
Next Obligation. done. Qed.
Next Obligation. by intros [[]] _. Qed.
Next Obligation. fixed_refuses NotePreferredBody_decode. Qed.

#[global] Program Instance PeerGoneBody_fixed : FixedBody PeerGoneBody := {|
  fixed_len := PEER_GONE_BODY_LEN;
  fixed_ok b := array KEY_LEN b.(pg_key);
  fixed_encode := PeerGoneBody_encode;
  fixed_decode := PeerGoneBody_decode |}.
Next Obligation. intros b [_ Hk]. unfold PeerGoneBody_encode. by rewrite zlen_app, Hk. Qed.
Next Obligation.
  intros [k r] [_ Hk]. cbn in Hk. unfold PeerGoneBody_decode, PeerGoneBody_encode. cbn [pg_key pg_reason].
  rewrite check_len_ok by (by rewrite zlen_app, Hk).
  assert (byte_at (k ++ [peer_gone_reason_u8 r]) KEY_LEN = peer_gone_reason_u8 r) as ->.
  { unfold byte_at, zlen in *. rewrite app_nth2 by (unfold KEY_LEN in *; lia).
    by replace (Z.to_nat KEY_LEN - length k)%nat with 0%nat by lia. }
  rewrite ztake_app by done. by destruct r.
Qed.
Next Obligation. fixed_refuses PeerGoneBody_decode. Qed.

#[global] Program Instance PingBody_fixed : FixedBody PingBody := {|
  fixed_len := PING_BODY_LEN;
  fixed_ok b := array PING_BODY_LEN b.(ping_payload);
  fixed_encode := PingBody_encode;
  fixed_decode := PingBody_decode |}.
Next Obligation. by intros b [_ ?]. Qed.
Next Obligation. intros [p] [_ Hp]. unfold PingBody_decode. by rewrite check_len_ok. Qed.
Next Obligation. fixed_refuses PingBody_decode. Qed.

#[global] Program Instance PongBody_fixed : FixedBody PongBody := {|
  fixed_len := PING_BODY_LEN;
  fixed_ok b := array PING_BODY_LEN b.(pong_payload);
  fixed_encode := PongBody_encode;
  fixed_decode := PongBody_decode |}.
Next Obligation. by intros b [_ ?]. Qed.
Next Obligation. intros [p] [_ Hp]. unfold PongBody_decode. by rewrite check_len_ok. Qed.
Next Obligation. fixed_refuses PongBody_decode. Qed.

#[global] Program Instance RestartingBody_fixed : FixedBody RestartingBody := {|
  fixed_len := RESTARTING_BODY_LEN;
  fixed_ok b := 0 ≤ b.(reconnect_ms) < 2 ^ 32 ∧ 0 ≤ b.(total_ms) < 2 ^ 32;
  fixed_encode := RestartingBody_encode;
  fixed_decode := RestartingBody_decode |}.
Next Obligation. intros b _. unfold RestartingBody_encode. by rewrite zlen_app, !zlen_to_be. Qed.
Next Obligation.
  intros [r t] [Hr Ht]. cbn in Hr, Ht. unfold RestartingBody_decode, RestartingBody_encode. cbn [reconnect_ms total_ms].
  rewrite check_len_ok by (by rewrite zlen_app, !zlen_to_be).
  rewrite slice_app_l by apply zlen_to_be.
  rewrite <- (app_nil_r (to_be 4 t)), slice_app_mid by (by rewrite zlen_to_be).
  by rewrite !from_to_be_small by lia.
Qed.
Next Obligation. fixed_refuses RestartingBody_decode. Qed.

#[global] Program Instance ClientInfoBody_prefix : PrefixBody ClientInfoBody := {|
  prefix_len := CLIENT_INFO_PREFIX_LEN;
  prefix_ok b := array KEY_LEN b.(ci_key) ∧ array NONCE_LEN b.(ci_nonce);
  prefix_encode := ClientInfoBody_encode_prefix;
  prefix_decode := ClientInfoBody_decode_prefix |}.
Next Obligation.
  intros b [[_ Hk] [_ Hn]]. unfold ClientInfoBody_encode_prefix. by rewrite zlen_app, Hk, Hn.
Qed.
Next Obligation.
  intros [k n] tail [[_ Hk] [_ Hn]]. cbn in Hk, Hn.
  unfold ClientInfoBody_decode_prefix, ClientInfoBody_encode_prefix. cbn [ci_key ci_nonce].
  rewrite !zlen_app, Hk, Hn. pose proof (zlen_nonneg tail).
  case_match; [unfold CLIENT_INFO_PREFIX_LEN in *; lia|].
  by rewrite <- app_assoc, ztake_app, slice_app_mid by (rewrite ?Hk, ?Hn; done).
Qed.
Next Obligation.
  intros body. unfold ClientInfoBody_decode_prefix. destruct (Z.ltb_spec (zlen body) CLIENT_INFO_PREFIX_LEN); [done|].
  split; [done|]. unfold ClientInfoBody_encode_prefix. cbn [ci_key ci_nonce].
  by rewrite (ztake_slices KEY_LEN CLIENT_INFO_PREFIX_LEN).
Qed.

#[global] Program Instance ForwardPacketBody_prefix : PrefixBody ForwardPacketBody := {|
  prefix_len := FORWARD_PACKET_PREFIX_LEN;
  prefix_ok b := array KEY_LEN b.(fp_src) ∧ array KEY_LEN b.(fp_dest);
  prefix_encode := ForwardPacketBody_encode_prefix;
  prefix_decode := ForwardPacketBody_decode_prefix |}.
Next Obligation.
  intros b [[_ Hk] [_ Hn]]. unfold ForwardPacketBody_encode_prefix. by rewrite zlen_app, Hk, Hn.
Qed.
Next Obligation.
  intros [k n] tail [[_ Hk] [_ Hn]]. cbn in Hk, Hn.
  unfold ForwardPacketBody_decode_prefix, ForwardPacketBody_encode_prefix. cbn [fp_src fp_dest].
  rewrite !zlen_app, Hk, Hn. pose proof (zlen_nonneg tail).
  case_match; [unfold FORWARD_PACKET_PREFIX_LEN in *; lia|].
  by rewrite <- app_assoc, ztake_app, slice_app_mid by (rewrite ?Hk, ?Hn; done).
Qed.
Next Obligation.
  intros body. unfold ForwardPacketBody_decode_prefix. destruct (Z.ltb_spec (zlen body) FORWARD_PACKET_PREFIX_LEN); [done|].
  split; [done|]. unfold ForwardPacketBody_encode_prefix. cbn [fp_src fp_dest].
  by rewrite (ztake_slices KEY_LEN FORWARD_PACKET_PREFIX_LEN).
Qed.

(** The three prefixes that are one array. *)
Lemma array_prefix_ok n (k tail : bytes) : zlen k = n → (zlen (k ++ tail) <? n) = false.
Proof. intros. rewrite zlen_app. pose proof (zlen_nonneg tail). lia. Qed.

#[global] Program Instance ServerInfoBody_prefix : PrefixBody ServerInfoBody := {|
  prefix_len := SERVER_INFO_PREFIX_LEN;
  prefix_ok b := array NONCE_LEN b.(si_nonce);
  prefix_encode := ServerInfoBody_encode_prefix;
  prefix_decode := ServerInfoBody_decode_prefix |}.
Next Obligation. by intros b [_ ?]. Qed.
Next Obligation. intros [k] tail [_ Hk]. cbn in Hk.
  unfold ServerInfoBody_decode_prefix, ServerInfoBody_encode_prefix. cbn [si_nonce].
  by rewrite array_prefix_ok, ztake_app by done. Qed.
Next Obligation.
  intros body. unfold ServerInfoBody_decode_prefix. by destruct (Z.ltb_spec (zlen body) SERVER_INFO_PREFIX_LEN).
Qed.

#[global] Program Instance SendPacketBody_prefix : PrefixBody SendPacketBody := {|
  prefix_len := SEND_PACKET_PREFIX_LEN;
  prefix_ok b := array KEY_LEN b.(sp_dest);
  prefix_encode := SendPacketBody_encode_prefix;
  prefix_decode := SendPacketBody_decode_prefix |}.
Next Obligation. by intros b [_ ?]. Qed.
Next Obligation. intros [k] tail [_ Hk]. cbn in Hk.
  unfold SendPacketBody_decode_prefix, SendPacketBody_encode_prefix. cbn [sp_dest].
  by rewrite array_prefix_ok, ztake_app by done. Qed.
Next Obligation.
  intros body. unfold SendPacketBody_decode_prefix. by destruct (Z.ltb_spec (zlen body) SEND_PACKET_PREFIX_LEN).
Qed.

#[global] Program Instance RecvPacketBody_prefix : PrefixBody RecvPacketBody := {|
  prefix_len := RECV_PACKET_PREFIX_LEN;
  prefix_ok b := array KEY_LEN b.(rp_src);
  prefix_encode := RecvPacketBody_encode_prefix;
  prefix_decode := RecvPacketBody_decode_prefix |}.
Next Obligation. by intros b [_ ?]. Qed.
Next Obligation. intros [k] tail [_ Hk]. cbn in Hk.
  unfold RecvPacketBody_decode_prefix, RecvPacketBody_encode_prefix. cbn [rp_src].
  by rewrite array_prefix_ok, ztake_app by done. Qed.
Next Obligation.
  intros body. unfold RecvPacketBody_decode_prefix. by destruct (Z.ltb_spec (zlen body) RECV_PACKET_PREFIX_LEN).
Qed.

(** ** Bodies over the wire *)

Lemma PeerPresentBody_roundtrip b tail :
  array KEY_LEN b.(pp_key) → array 16 (default (zeros 16) b.(pp_ip)) →
  0 ≤ default 0 b.(pp_port) < 2 ^ 16 →
  PeerPresentBody_decode (PeerPresentBody_encode b ++ tail)
  = Ok {| pp_key := b.(pp_key);
          pp_ip := Some (default (zeros 16) b.(pp_ip));
          pp_port := Some (default 0 b.(pp_port));
          pp_flags := b.(pp_flags) |}.
Proof.
  destruct b as [k ip port fl]. cbn [pp_key pp_ip pp_port pp_flags].
  set (i := default (zeros 16) ip). set (p := default 0 port). intros [_ Hk] [_ Hi] Hp.
  unfold PeerPresentBody_decode, PeerPresentBody_encode. cbn [pp_key pp_ip pp_port pp_flags].
  fold i p. rewrite <- !app_assoc. cbn [app].
  set (body := k ++ i ++ to_be 2 p ++ fl :: tail). pose proof (zlen_nonneg tail).
  assert (Hl : zlen body = 51 + zlen tail).
  { unfold body. rewrite !zlen_app, zlen_cons, zlen_to_be, Hk, Hi. unfold KEY_LEN. lia. }
  rewrite Hl. unfold PEER_PRESENT_KEY_LEN, PEER_PRESENT_IP_PORT_LEN, PEER_PRESENT_FULL_LEN, KEY_LEN.
  case_match; [lia|]. case_match; [lia|]. case_match; [lia|]. case_match; [|lia].
  do 2 f_equal.
  - unfold body. by rewrite ztake_app.
  - f_equal. unfold body. by rewrite slice_app_mid by (rewrite ?Hk, ?Hi; done).
  - f_equal. unfold body. rewrite app_assoc, slice_app_mid.
    + apply from_to_be_small. lia.
    + by rewrite zlen_app, Hk, Hi.
    + by rewrite zlen_to_be.
  - unfold body. rewrite !app_assoc. unfold byte_at.
    assert (Hz : zlen ((k ++ i) ++ to_be 2 p) = 50) by (rewrite !zlen_app, zlen_to_be, Hk, Hi; done).
    unfold zlen in Hz. rewrite app_nth2 by lia.
    by replace (Z.to_nat (32 + 16 + 2) - _)%nat with 0%nat by lia.
Qed.

(** A message of the protocol: a body and, after a prefixed one, the bytes that
    follow it. *)
Inductive Message : Type :=
| MServerKey (b : ServerKeyBody)
| MClientInfo (b : ClientInfoBody) (ciphertext : bytes)
| MServerInfo (b : ServerInfoBody) (ciphertext : bytes)
| MSendPacket (b : SendPacketBody) (packet : bytes)
| MRecvPacket (b : RecvPacketBody) (packet : bytes)
| MForwardPacket (b : ForwardPacketBody) (packet : bytes)
| MNotePreferred (b : NotePreferredBody)
| MPeerGone (b : PeerGoneBody)
| MPing (b : PingBody)
| MPong (b : PongBody)
| MRestarting (b : RestartingBody).

Definition message_type (m : Message) : FrameType :=
  match m with
  | MServerKey _ => ServerKey | MClientInfo _ _ => ClientInfo | MServerInfo _ _ => ServerInfo
  | MSendPacket _ _ => SendPacket | MRecvPacket _ _ => RecvPacket
  | MForwardPacket _ _ => ForwardPacket | MNotePreferred _ => NotePreferred
  | MPeerGone _ => PeerGone | MPing _ => Ping | MPong _ => Pong | MRestarting _ => Restarting
  end.

Definition message_body (m : Message) : bytes :=
  match m with
  | MServerKey b => ServerKeyBody_encode b
  | MClientInfo b ct => ClientInfoBody_encode_prefix b ++ ct
  | MServerInfo b ct => ServerInfoBody_encode_prefix b ++ ct
  | MSendPacket b pkt => SendPacketBody_encode_prefix b ++ pkt
  | MRecvPacket b pkt => RecvPacketBody_encode_prefix b ++ pkt
  | MForwardPacket b pkt => ForwardPacketBody_encode_prefix b ++ pkt
  | MNotePreferred b => NotePreferredBody_encode b
  | MPeerGone b => PeerGoneBody_encode b
  | MPing b => PingBody_encode b
  | MPong b => PongBody_encode b
  | MRestarting b => RestartingBody_encode b
  end.

(** The keys, nonces and payloads have their lengths, the durations fit their
    width. *)
Definition message_ok (m : Message) : Prop :=
  match m with
  | MServerKey b => fixed_ok b
  | MClientInfo b _ => prefix_ok b
  | MServerInfo b _ => prefix_ok b
  | MSendPacket b _ => prefix_ok b
  | MRecvPacket b _ => prefix_ok b
  | MForwardPacket b _ => prefix_ok b
  | MNotePreferred b => fixed_ok b
  | MPeerGone b => fixed_ok b
  | MPing b => fixed_ok b
  | MPong b => fixed_ok b
  | MRestarting b => fixed_ok b
  end.

(** The decoder of the body of a frame, chosen by the frame's type. *)
Definition decode_message (ty : FrameType) (body : bytes) : option (result Message FrameError) :=
  match ty with
  | ServerKey => Some (rmap MServerKey (ServerKeyBody_decode body))
  | ClientInfo => Some (rmap (λ b, MClientInfo b (zdrop CLIENT_INFO_PREFIX_LEN body))
                          (ClientInfoBody_decode_prefix body))
  | ServerInfo => Some (rmap (λ b, MServerInfo b (zdrop SERVER_INFO_PREFIX_LEN body))
                          (ServerInfoBody_decode_prefix body))
  | SendPacket => Some (rmap (λ b, MSendPacket b (zdrop SEND_PACKET_PREFIX_LEN body))
                          (SendPacketBody_decode_prefix body))
  | RecvPacket => Some (rmap (λ b, MRecvPacket b (zdrop RECV_PACKET_PREFIX_LEN body))
                          (RecvPacketBody_decode_prefix body))
  | ForwardPacket => Some (rmap (λ b, MForwardPacket b (zdrop FORWARD_PACKET_PREFIX_LEN body))
                             (ForwardPacketBody_decode_prefix body))
  | NotePreferred => Some (rmap MNotePreferred (NotePreferredBody_decode body))
  | PeerGone => Some (rmap MPeerGone (PeerGoneBody_decode body))
  | Ping => Some (rmap MPing (PingBody_decode body))
  | Pong => Some (rmap MPong (PongBody_decode body))
  | Restarting => Some (rmap MRestarting (RestartingBody_decode body))
  | _ => None
  end.

Lemma fixed_message `{FixedBody A} (f : A → Message) (a : A) :
  fixed_ok a → Some (rmap f (fixed_decode (fixed_encode a))) = Some (Ok (f a)).
Proof. intros Ha. by rewrite fixed_roundtrip. Qed.

Lemma prefix_message `{PrefixBody A} (f : A → bytes → Message) (a : A) tail :
  prefix_ok a →
  Some (rmap (λ b, f b (zdrop (prefix_len (A := A)) (prefix_encode a ++ tail)))
          (prefix_decode (prefix_encode a ++ tail))) = Some (Ok (f a tail)).
Proof.
  intros Ha. rewrite prefix_roundtrip by done. cbn [rmap].
  by rewrite zdrop_app by by apply prefix_encode_len.
Qed.

(** Every message of the protocol survives the wire: put in a frame and read
    off a stream, whatever follows it, it is the message that was sent, with
    the packet or ciphertext after its prefix. *)
Theorem messages_over_wire m frame rest :
  message_ok m → encode_frame (message_type m) (message_body m) = Ok frame →
  decode_frame (frame ++ rest) = Ok (message_type m, message_body m, zlen frame)
  ∧ decode_message (message_type m) (message_body m) = Some (Ok m).
Proof.
  intros Hok He. split; [by apply decode_encode_frame|].
  clear He. destruct m.
  - exact (fixed_message MServerKey b Hok).
  - exact (prefix_message MClientInfo b ciphertext Hok).
  - exact (prefix_message MServerInfo b ciphertext Hok).
  - exact (prefix_message MSendPacket b packet Hok).
  - exact (prefix_message MRecvPacket b packet Hok).
  - exact (prefix_message MForwardPacket b packet Hok).
  - exact (fixed_message MNotePreferred b Hok).
  - exact (fixed_message MPeerGone b Hok).
  - exact (fixed_message MPing b Hok).
  - exact (fixed_message MPong b Hok).
  - exact (fixed_message MRestarting b Hok).
Qed.

Lemma messages_over_wire_witness :
  let m := MSendPacket {| sp_dest := replicate 32 9 |} [1; 2] in
  let frame := [0x04; 0; 0; 0; 34] ++ replicate 32 9 ++ [1; 2] in
  decode_frame (frame ++ [7]) = Ok (message_type m, message_body m, zlen frame)
  ∧ decode_message (message_type m) (message_body m) = Some (Ok m).
Proof.
  intros m frame. apply (messages_over_wire m frame [7]); [|done].
  split; [apply Forall_replicate; lia|done].
Defined.
