(* ===== verification/DerpRelay.v ===== *)
(** * The DERP relay
    ([crabscale-derp/src/server.rs], [crabscale-derp/src/handshake.rs])

    The registry of connected clients, packet routing, presence announcements
    and the login handshake.  A connection's outbound [mpsc] channel is its
    bounded queue; [try_send] appends unless it is full or its receiver is
    gone, and the writer task takes frames off the front.  The registry lock
    makes each operation one step; [relay_step] interleaves them freely. *)

From S2P Require Import Prelude StreamDecoder Reader DerpFrame DerpFrames.

Abbreviation Frame := (FrameType * bytes)%type.

Definition OUTBOUND_CAPACITY : Z := 256.

(** ** State *)

Record Channel : Type := { queue : list Frame; receiver_gone : bool }.

Record ConnEntry : Type := { conn_node : bytes; conn_out : Channel }.

Record Registry : Type := {
  by_key : gmap bytes (gset Z);
  conns : gmap Z ConnEntry;
}.

Record Relay : Type := {
  registry : Registry;
  next_id : Z;
  derp_packets_total : Z;
  derp_packets_dropped_total : Z;
}.

Definition Relay_new : Relay :=
  {| registry := {| by_key := ∅; conns := ∅ |}; next_id := 1;
     derp_packets_total := 0; derp_packets_dropped_total := 0 |}.

(** [mpsc::channel(OUTBOUND_CAPACITY)] *)
Definition channel_new : Channel := {| queue := []; receiver_gone := false |}.

(** [Sender::try_send] *)
Definition try_send (c : Channel) (f : Frame) : Channel * bool :=
  if c.(receiver_gone) || (OUTBOUND_CAPACITY <=? zlen c.(queue)) then (c, false)
  else ({| queue := c.(queue) ++ [f]; receiver_gone := false |}, true).

Definition send_entry (f : Frame) (e : ConnEntry) : ConnEntry :=
  {| conn_node := e.(conn_node); conn_out := (try_send e.(conn_out) f).1 |}.

Definition set_registry (r : Registry) (s : Relay) : Relay :=
  {| registry := r; next_id := s.(next_id);
     derp_packets_total := s.(derp_packets_total);
     derp_packets_dropped_total := s.(derp_packets_dropped_total) |}.

Definition set_conns (c : gmap Z ConnEntry) (s : Relay) : Relay :=
  set_registry {| by_key := s.(registry).(by_key); conns := c |} s.

Definition count_dropped (s : Relay) : Relay :=
  {| registry := s.(registry); next_id := s.(next_id);
     derp_packets_total := s.(derp_packets_total);
     derp_packets_dropped_total := wrap 64 (s.(derp_packets_dropped_total) + 1) |}.

Definition count_delivered (s : Relay) : Relay :=
  {| registry := s.(registry); next_id := s.(next_id);
     derp_packets_total := wrap 64 (s.(derp_packets_total) + 1);
     derp_packets_dropped_total := s.(derp_packets_dropped_total) |}.

(** ** Frames the relay emits *)

Definition present_frame (k : bytes) : Frame :=
  (PeerPresent, PeerPresentBody_encode (PeerPresentBody_new k (peer_present_flag_u8 Regular))).

Definition gone_frame (k : bytes) (r : PeerGoneReason) : Frame :=
  (PeerGone, PeerGoneBody_encode {| pg_key := k; pg_reason := r |}).

Definition recv_frame (src packet : bytes) : Frame :=
  (RecvPacket, RecvPacketBody_encode_prefix {| rp_src := src |} ++ packet).

(** ** Operations *)

(** The snapshot loop of [register]: [order] is the order in which the keys of
    [by_key] are iterated. *)
Fixpoint announce_present (node : bytes) (order : list bytes) (announced : gset bytes)
    (out : Channel) : Channel :=
  match order with
  | [] => out
  | peer :: order =>
      if bool_decide (peer ≠ node ∧ peer ∉ announced) then
        announce_present node order ({[peer]} ∪ announced) (try_send out (present_frame peer)).1
      else announce_present node order announced out
  end.

Definition register (node : bytes) (order : list bytes) (s : Relay) : Relay * Z :=
  let reg := s.(registry) in
  let id := s.(next_id) in
  let conns' := send_entry (present_frame node) <$> reg.(conns) in
  let out := announce_present node order ∅ channel_new in
  let ids := default ∅ (reg.(by_key) !! node) in
  ({| registry :=
        {| by_key := <[node := {[id]} ∪ ids]> reg.(by_key);
           conns := <[id := {| conn_node := node; conn_out := out |}]> conns' |};
      next_id := wrap 64 (s.(next_id) + 1);
      derp_packets_total := s.(derp_packets_total);
      derp_packets_dropped_total := s.(derp_packets_dropped_total) |}, id).

Definition deregister (id : Z) (s : Relay) : Relay :=
  let reg := s.(registry) in
  match reg.(conns) !! id with
  | None => s
  | Some entry =>
      let conns' := delete id reg.(conns) in
      let node := entry.(conn_node) in
      let '(by_key', was_last) :=
        match reg.(by_key) !! node with
        | Some set =>
            let set' := set ∖ {[id]} in
            if bool_decide (set' = ∅) then (delete node reg.(by_key), true)
            else (<[node := set']> reg.(by_key), false)
        | None => (reg.(by_key), false)
        end in
      set_registry
        {| by_key := by_key';
           conns := if was_last : bool
                    then send_entry (gone_frame node Disconnected) <$> conns' else conns' |} s
  end.

(** The delivery loop of [route_send_packet]. *)
Fixpoint deliver (f : Frame) (targets : list Z) (c : gmap Z ConnEntry) (delivered : bool)
    : gmap Z ConnEntry * bool :=
  match targets with
  | [] => (c, delivered)
  | t :: targets =>
      match c !! t with
      | Some entry =>
          let '(out', sent) := try_send entry.(conn_out) f in
          deliver f targets
            (<[t := {| conn_node := entry.(conn_node); conn_out := out' |}]> c)
            (delivered || sent)
      | None => deliver f targets c delivered
      end
  end.

Definition route_send_packet (from : Z) (dest packet : bytes) (s : Relay) : Relay :=
  if MAX_PACKET_PAYLOAD_LEN <? zlen packet then count_dropped s
  else
    let reg := s.(registry) in
    match reg.(conns) !! from with
    | None => s
    | Some sender =>
        let src := sender.(conn_node) in
        match reg.(by_key) !! dest with
        | Some targets =>
            if bool_decide (targets = ∅) then
              set_conns (<[from := send_entry (gone_frame dest NotHere) sender]> reg.(conns))
                (count_dropped s)
            else
              let '(conns', delivered) :=
                deliver (recv_frame src packet) (elements targets) reg.(conns) false in
              set_conns conns' (if delivered : bool then count_delivered s else count_dropped s)
        | None =>
            set_conns (<[from := send_entry (gone_frame dest NotHere) sender]> reg.(conns))
              (count_dropped s)
        end
    end.

(** [handle_data_frame]: the boolean says whether the connection goes on. *)
Definition handle_data_frame (id : Z) (frame : Frame) (s : Relay) : Relay * bool :=
  match frame.1 with
  | SendPacket =>
      match SendPacketBody_decode_prefix frame.2 with
      | Err _ => (s, true)
      | Ok body =>
          (route_send_packet id body.(sp_dest) (zdrop SEND_PACKET_PREFIX_LEN frame.2) s, true)
      end
  | Pong => (s, true)
  | ForwardPacket | WatchConns | PeerPresent | PeerGone => (s, true)
  | Ping => (s, false)
  | _ => (s, false)
  end.

Definition send_keepalive (id : Z) (s : Relay) : Relay :=
  match s.(registry).(conns) !! id with
  | Some entry => set_conns (<[id := send_entry (KeepAlive, []) entry]> s.(registry).(conns)) s
  | None => s
  end.

(** The writer task: one [out_rx.recv()] hands over the frame at the front; a
    failed write ends the task and drops the receiver. *)
Definition writer_recv (id : Z) (s : Relay) : Relay * option Frame :=
  match s.(registry).(conns) !! id with
  | Some {| conn_node := n; conn_out := {| queue := f :: q; receiver_gone := false |} |} =>
      (set_conns (<[id := {| conn_node := n; conn_out := {| queue := q; receiver_gone := false |} |}]>
                    s.(registry).(conns)) s, Some f)
  | _ => (s, None)
  end.

Definition writer_stop (id : Z) (s : Relay) : Relay :=
  match s.(registry).(conns) !! id with
  | Some e =>
      set_conns (<[id := {| conn_node := e.(conn_node);
                            conn_out := {| queue := []; receiver_gone := true |} |}]>
                   s.(registry).(conns)) s
  | None => s
  end.

Definition registered_nodes (s : Relay) : nat := size s.(registry).(by_key).

(** ** Interleavings *)

Inductive relay_event : Type :=
| EvRegister (node : bytes) (order : list bytes)
| EvFrame (id : Z) (frame : Frame)
| EvDeregister (id : Z)
| EvKeepalive (id : Z)
| EvWriterRecv (id : Z)
| EvWriterStop (id : Z).

Definition apply_event (e : relay_event) (s : Relay) : Relay :=
  match e with
  | EvRegister node order => (register node order s).1
  | EvFrame id frame => (handle_data_frame id frame s).1
  | EvDeregister id => deregister id s
  | EvKeepalive id => send_keepalive id s
  | EvWriterRecv id => (writer_recv id s).1
  | EvWriterStop id => writer_stop id s
  end.

(** One step of the relay: any task may go next; an iteration of [by_key] sees
    its keys once each, in some order. *)
Inductive relay_step : Relay → relay_event → Relay → Prop :=
| relay_step_register s node order :
    order ≡ₚ elements (dom s.(registry).(by_key)) →
    relay_step s (EvRegister node order) (apply_event (EvRegister node order) s)
| relay_step_other s e :
    (∀ node order, e ≠ EvRegister node order) →
    relay_step s e (apply_event e s).

Inductive relay_steps : list relay_event → Relay → Prop :=
| relay_steps_nil : relay_steps [] Relay_new
| relay_steps_snoc tr s e s' :
    relay_steps tr s → relay_step s e s' → relay_steps (tr ++ [e]) s'.

(** ** The registry invariant *)

(** Which node each connection belongs to. *)
Definition nodes (s : Relay) : gmap Z bytes := conn_node <$> s.(registry).(conns).

(** The connections of a node key. *)
Definition conns_of (k : bytes) (s : Relay) : gset Z := dom (filter (λ p, p.2 = k) (nodes s)).

Definition queues_bounded (c : gmap Z ConnEntry) : Prop :=
  map_Forall (λ _ e, zlen e.(conn_out).(queue) ≤ OUTBOUND_CAPACITY) c.

Record relay_inv (s : Relay) : Prop := {
  (** [by_key] is exactly the index of [conns]: a key is there when it has a
      connection, with the set of its connections. *)
  inv_index k : s.(registry).(by_key) !! k =
                if decide (conns_of k s = ∅) then None else Some (conns_of k s);
  inv_fresh id k : nodes s !! id = Some k → 1 ≤ id < s.(next_id);
  inv_next : 1 ≤ s.(next_id);
  inv_queue : queues_bounded s.(registry).(conns);
}.

(** ** Channels *)

Lemma try_send_bounded c f :
  zlen c.(queue) ≤ OUTBOUND_CAPACITY → zlen (try_send c f).1.(queue) ≤ OUTBOUND_CAPACITY.
Proof.
  intros Hc. unfold try_send. destruct (receiver_gone c); [done|]. cbn [orb].
  destruct (Z.leb_spec OUTBOUND_CAPACITY (zlen c.(queue))); [done|].
  cbn [fst queue]. rewrite zlen_app, zlen_cons, zlen_nil. lia.
Qed.

Lemma queues_bounded_insert c id e :
  queues_bounded c → zlen e.(conn_out).(queue) ≤ OUTBOUND_CAPACITY → queues_bounded (<[id := e]> c).
Proof. intros. by apply map_Forall_insert_2. Qed.

Lemma queues_bounded_broadcast c f : queues_bounded c → queues_bounded (send_entry f <$> c).
Proof.
  intros Hc id e. rewrite lookup_fmap. intros (e0 & He & ->)%fmap_Some.
  by apply try_send_bounded, (Hc id).
Qed.

Lemma queues_bounded_delete c id : queues_bounded c → queues_bounded (delete id c).
Proof. apply map_Forall_delete. Qed.

Lemma announce_present_bounded node order ann out :
  zlen out.(queue) ≤ OUTBOUND_CAPACITY →
  zlen (announce_present node order ann out).(queue) ≤ OUTBOUND_CAPACITY.
Proof.
  revert ann out. induction order as [|p order IH]; intros; cbn; [done|].
  case_bool_decide; apply IH; [by apply try_send_bounded|done].
Qed.

Lemma deliver_bounded f ts c d : queues_bounded c → queues_bounded (deliver f ts c d).1.
Proof.
  revert c d. induction ts as [|t ts IH]; intros c d Hc; cbn; [done|].
  destruct (c !! t) as [e|] eqn:He; [|by apply IH].
  destruct (try_send (conn_out e) f) as [out' sent] eqn:Hs. apply IH.
  apply queues_bounded_insert; [done|]. cbn.
  pose proof (try_send_bounded (conn_out e) f) as Hb. rewrite Hs in Hb. apply Hb, (Hc t _ He).
Qed.

#[export] Hint Resolve try_send_bounded queues_bounded_insert queues_bounded_broadcast
  queues_bounded_delete deliver_bounded announce_present_bounded : crab.

(** ** The directory of connections *)

Lemma nodes_broadcast f (c : gmap Z ConnEntry) : conn_node <$> (send_entry f <$> c) = conn_node <$> c.
Proof. rewrite <- map_fmap_compose. by apply map_fmap_ext. Qed.

Lemma nodes_update (c : gmap Z ConnEntry) id e e' :
  c !! id = Some e → conn_node e' = conn_node e →
  conn_node <$> <[id := e']> c = conn_node <$> c.
Proof.
  intros He Hn. rewrite fmap_insert, Hn. apply insert_id. by rewrite lookup_fmap, He.
Qed.

Lemma nodes_deliver f ts c d : conn_node <$> (deliver f ts c d).1 = conn_node <$> c.
Proof.
  revert c d. induction ts as [|t ts IH]; intros c d; cbn; [done|].
  destruct (c !! t) as [e|] eqn:He; [|done].
  destruct (try_send (conn_out e) f) as [out' sent]. rewrite IH. by apply (nodes_update c t e).
Qed.

Lemma elem_of_conns_of id k s : id ∈ conns_of k s ↔ nodes s !! id = Some k.
Proof.
  unfold conns_of. rewrite elem_of_dom. split.
  - intros [k' [? ?]%map_lookup_filter_Some]. cbn in *. by subst.
  - intros. exists k. by apply map_lookup_filter_Some.
Qed.

Lemma nodes_Some s id k :
  nodes s !! id = Some k ↔ ∃ e, s.(registry).(conns) !! id = Some e ∧ e.(conn_node) = k.
Proof.
  unfold nodes. rewrite lookup_fmap, fmap_Some. split; intros (e & ? & ?); exists e; auto.
Qed.

(** The invariant only looks at the directory, the index, the counter and the
    queue lengths. *)
Lemma inv_frame s s' :
  nodes s' = nodes s → s'.(registry).(by_key) = s.(registry).(by_key) →
  s'.(next_id) = s.(next_id) → queues_bounded s'.(registry).(conns) →
  relay_inv s → relay_inv s'.
Proof.
  intros Hn Hk Hi Hq [H1 H2 H3 H4]. constructor; [| |by rewrite Hi|done].
  - intros k. unfold conns_of. by rewrite Hk, Hn, H1.
  - intros id k. rewrite Hn, Hi. apply H2.
Qed.

Lemma inv_init : relay_inv Relay_new.
Proof.
  constructor; [|done..]. intros k. rewrite decide_True; [done|].
  unfold conns_of, nodes. set_solver.
Qed.

(** *** Registration *)

Lemma nodes_register node order s :
  nodes (register node order s).1 = <[next_id s := node]> (nodes s).
Proof. unfold nodes, register. cbn. by rewrite fmap_insert, nodes_broadcast. Qed.

Lemma fresh_id s : relay_inv s → nodes s !! next_id s = None.
Proof.
  intros Hs. destruct (nodes s !! next_id s) eqn:E; [|done].
  apply (inv_fresh s Hs) in E. lia.
Qed.

Lemma conns_of_register k node order s :
  relay_inv s →
  conns_of k (register node order s).1
  = (if decide (k = node) then {[next_id s]} else ∅) ∪ conns_of k s.
Proof.
  intros Hfr%fresh_id. apply set_eq. intros id.
  rewrite elem_of_union, !elem_of_conns_of, nodes_register, lookup_insert_Some.
  destruct (decide (k = node)) as [->|Hne].
  - rewrite elem_of_singleton. destruct (decide (id = next_id s)); naive_solver.
  - rewrite elem_of_empty. destruct (decide (id = next_id s)); naive_solver.
Qed.

Lemma inv_register node order s :
  s.(next_id) < 2 ^ 64 - 1 → relay_inv s → relay_inv (register node order s).1.
Proof.
  intros Hi Hs. pose proof Hs as [H1 H2 H3 H4].
  assert (Hn : next_id (register node order s).1 = next_id s + 1).
  { cbn. unfold wrap. apply Z.mod_small. lia. }
  constructor.
  - intros k. rewrite conns_of_register by done. unfold register. cbn.
    destruct (decide (k = node)) as [->|Hne].
    + rewrite lookup_insert_eq, decide_False by set_solver. f_equal. f_equal. rewrite H1.
      by destruct (decide (conns_of node s = ∅)) as [->|].
    + rewrite lookup_insert_ne by done. by rewrite (left_id_L ∅ (∪)).
  - intros id k. rewrite nodes_register, lookup_insert_Some, Hn.
    intros [[<- _]|[_ ?%H2]]; lia.
  - rewrite Hn. lia.
  - apply queues_bounded_insert; [auto with crab|]. by apply announce_present_bounded.
Qed.

(** *** Departure *)

Lemma nodes_deregister id s : nodes (deregister id s) = delete id (nodes s).
Proof.
  unfold deregister. destruct (conns (registry s) !! id) as [e|] eqn:He.
  - unfold nodes. rewrite <- fmap_delete. destruct (by_key _ !! _); [case_bool_decide|]; cbn;
      by rewrite ?nodes_broadcast.
  - rewrite delete_id; [done|]. unfold nodes. by rewrite lookup_fmap, He.
Qed.

Lemma conns_of_deregister k id s : conns_of k (deregister id s) = conns_of k s ∖ {[id]}.
Proof.
  apply set_eq. intros i. rewrite elem_of_difference, elem_of_singleton, !elem_of_conns_of.
  rewrite nodes_deregister, lookup_delete_Some. naive_solver.
Qed.

Lemma next_id_deregister id s : next_id (deregister id s) = next_id s.
Proof.
  unfold deregister. destruct (conns _ !! _); [|done].
  by destruct (by_key _ !! _); [case_bool_decide|].
Qed.

(** What [deregister] does to a registered connection of [node]. *)
Lemma deregister_eq id e s :
  relay_inv s → s.(registry).(conns) !! id = Some e →
  let node := e.(conn_node) in
  let rest := conns_of node s ∖ {[id]} in
  (deregister id s).(registry)
  = if decide (rest = ∅)
    then {| by_key := delete node s.(registry).(by_key);
            conns := send_entry (gone_frame node Disconnected) <$> delete id s.(registry).(conns) |}
    else {| by_key := <[node := rest]> s.(registry).(by_key);
            conns := delete id s.(registry).(conns) |}.
Proof.
  intros Hs He. cbv zeta. unfold deregister. rewrite He, (inv_index s Hs).
  assert (Hin : id ∈ conns_of (conn_node e) s).
  { apply elem_of_conns_of, nodes_Some. eauto. }
  rewrite decide_False by set_solver.
  case_bool_decide; [by rewrite decide_True|by rewrite decide_False].
Qed.

Lemma inv_deregister id s : relay_inv s → relay_inv (deregister id s).
Proof.
  intros Hs. pose proof Hs as [H1 H2 H3 H4].
  destruct (conns (registry s) !! id) as [e|] eqn:He.
  2:{ unfold deregister. by rewrite He. }
  pose proof (deregister_eq id e s Hs He) as Hr. cbv zeta in Hr. constructor.
  - intros k. rewrite conns_of_deregister, Hr.
    destruct (decide (k = conn_node e)) as [->|Hne].
    + destruct (decide (_ = ∅)); cbn [by_key]; by rewrite ?lookup_delete_eq, ?lookup_insert_eq.
    + assert (Hno : conns_of k s ∖ {[id]} = conns_of k s).
      { apply difference_disjoint_L, disjoint_singleton_r. rewrite elem_of_conns_of, nodes_Some.
        intros (e' & ? & ?). simplify_eq. }
      rewrite Hno, <- H1.
      destruct (decide (_ = ∅)); cbn [by_key]; by rewrite ?lookup_delete_ne, ?lookup_insert_ne.
  - intros i k. rewrite nodes_deregister, next_id_deregister. intros [_ Hi]%lookup_delete_Some.
    by eapply H2.
  - by rewrite next_id_deregister.
  - rewrite Hr. destruct (decide _); cbn [conns]; auto with crab.
Qed.

(** *** Routing, keepalives and the writer tasks *)

(** The update of one connection that keeps its node. *)
Lemma inv_set_conn id e e' s :
  s.(registry).(conns) !! id = Some e → e'.(conn_node) = e.(conn_node) →
  zlen e'.(conn_out).(queue) ≤ OUTBOUND_CAPACITY →
  relay_inv s → relay_inv (set_conns (<[id := e']> s.(registry).(conns)) s).
Proof.
  intros He Hn Hq Hs. apply (inv_frame s); try done.
  - by apply (nodes_update _ id e).
  - apply queues_bounded_insert; [apply Hs|done].
Qed.

Lemma send_entry_bounded f id e s :
  relay_inv s → s.(registry).(conns) !! id = Some e →
  zlen (send_entry f e).(conn_out).(queue) ≤ OUTBOUND_CAPACITY.
Proof. intros Hs He. apply try_send_bounded. apply (inv_queue s Hs id e He). Qed.

Lemma inv_count_dropped s : relay_inv s → relay_inv (count_dropped s).
Proof. intros Hs. apply (inv_frame s); try done. apply Hs. Qed.

Lemma inv_count_delivered s : relay_inv s → relay_inv (count_delivered s).
Proof. intros Hs. apply (inv_frame s); try done. apply Hs. Qed.

Lemma inv_route from dest packet s :
  relay_inv s → relay_inv (route_send_packet from dest packet s).
Proof.
  intros Hs. unfold route_send_packet. case_match; [by apply inv_count_dropped|].
  destruct (conns (registry s) !! from) as [e|] eqn:He; [|done].
  assert (Hgone : relay_inv (set_conns (<[from := send_entry (gone_frame dest NotHere) e]>
                                          (conns (registry s))) (count_dropped s))).
  { apply (inv_set_conn from e _ (count_dropped s)); try done.
    - by eapply send_entry_bounded.
    - by apply inv_count_dropped. }
  destruct (by_key (registry s) !! dest) as [ts|]; [|done]. case_bool_decide; [done|].
  set (f := recv_frame _ _).
  pose proof (deliver_bounded f (elements ts) (conns (registry s)) false (inv_queue s Hs)).
  pose proof (nodes_deliver f (elements ts) (conns (registry s)) false).
  destruct (deliver f _ _ _) as [c d]. apply (inv_frame s); try done; by destruct d.
Qed.

Lemma inv_event e s :
  s.(next_id) < 2 ^ 64 - 1 → relay_inv s → relay_inv (apply_event e s).
Proof.
  intros Hi Hs. destruct e as [node order|id frame|id|id|id|id]; cbn [apply_event].
  - by apply inv_register.
  - unfold handle_data_frame. destruct (frame.1); try done.
    destruct (SendPacketBody_decode_prefix _); [by apply inv_route|done].
  - by apply inv_deregister.
  - unfold send_keepalive. destruct (conns _ !! _) as [e|] eqn:He; [|done].
    apply (inv_set_conn id e); try done. by eapply send_entry_bounded.
  - unfold writer_recv. destruct (conns _ !! _) as [[n [[|f q] []]]|] eqn:He; try done.
    apply (inv_set_conn id _ _ s He); try done.
    pose proof (inv_queue s Hs _ _ He) as Hq. cbn in Hq |- *. rewrite zlen_cons in Hq. lia.
  - unfold writer_stop. destruct (conns _ !! _) as [e|] eqn:He; [|done].
    by apply (inv_set_conn id e).
Qed.

Lemma next_id_event e s :
  relay_inv s → s.(next_id) < 2 ^ 64 - 1 →
  s.(next_id) ≤ (apply_event e s).(next_id) ≤ s.(next_id) + 1.
Proof.
  intros Hs Hi. pose proof (inv_next s Hs).
  destruct e as [node order|id frame|id|id|id|id]; cbn [apply_event].
  - cbn. unfold wrap. rewrite Z.mod_small; lia.
  - unfold handle_data_frame, route_send_packet.
    repeat (case_match; simplify_eq/=; try lia).
  - rewrite next_id_deregister. lia.
  - unfold send_keepalive. case_match; cbn; lia.
  - unfold writer_recv. repeat (case_match; cbn; try lia).
  - unfold writer_stop. case_match; cbn; lia.
Qed.

Lemma relay_steps_inv tr s :
  relay_steps tr s → zlen tr < 2 ^ 64 - 2 → relay_inv s ∧ s.(next_id) ≤ 1 + zlen tr.
Proof.
  induction 1 as [|tr s e s' _ IH Hstep]; [intros _; split; [apply inv_init|done]|].
  rewrite zlen_app, zlen_cons, zlen_nil. intros Hlen. destruct IH as [Hs Hn]; [lia|].
  assert (Hi : next_id s < 2 ^ 64 - 1) by lia.
  pose proof (next_id_event e s Hs Hi).
  assert (Happ : s' = apply_event e s) by (by destruct Hstep). rewrite Happ.
  split; [by apply inv_event|lia].
Qed.

(** C27. The registry stays consistent under every interleaving of logins, packets,
    disconnects, keepalives and writer tasks: the key index is exactly the set
    of live connections per key, connection ids are never reused, and no
    outbound queue exceeds its capacity (for fewer than [2^64 - 2] events, the
    width of the id counter). *)
Theorem relay_registry_consistent tr s :
  relay_steps tr s → zlen tr < 2 ^ 64 - 2 → relay_inv s ∧ s.(next_id) ≤ 1 + zlen tr.
Proof. apply relay_steps_inv. Qed.

Lemma relay_registry_consistent_witness :
  relay_inv (apply_event (EvRegister [7] []) Relay_new)
  ∧ next_id (apply_event (EvRegister [7] []) Relay_new) ≤ 1 + zlen [EvRegister [7] []].
Proof.
  apply (relay_registry_consistent [EvRegister [7] []]); [|done].
  apply (relay_steps_snoc [] Relay_new); [constructor|]. by constructor.
Defined.

(** *** Who receives what *)

Lemma deliver_lookup f ts c d id :
  NoDup ts →
  (deliver f ts c d).1 !! id
  = (λ e, if decide (id ∈ ts) then send_entry f e else e) <$> c !! id.
Proof.
  intros Hnd. revert c d. induction Hnd as [|t ts Ht Hnd IH]; intros c d; cbn [deliver].
  { cbn. by destruct (c !! id). }
  destruct (c !! t) as [e|] eqn:He.
  - destruct (try_send (conn_out e) f) as [out' sent] eqn:Hs. rewrite IH.
    destruct (decide (id = t)) as [->|Hne].
    + rewrite lookup_insert_eq, He. cbn. rewrite decide_False, decide_True by set_solver.
      unfold send_entry. by rewrite Hs.
    + rewrite lookup_insert_ne by done. destruct (c !! id); [|done]. cbn. f_equal.
      destruct (decide (id ∈ ts)); [rewrite decide_True|rewrite decide_False]; set_solver.
  - rewrite IH. destruct (c !! id) eqn:Hid; [|done]. cbn. f_equal.
    assert (id ≠ t) by congruence.
    destruct (decide (id ∈ ts)); [rewrite decide_True|rewrite decide_False]; set_solver.
Qed.

Lemma route_lookup from dest packet s id :
  relay_inv s →
  (route_send_packet from dest packet s).(registry).(conns) !! id =
  (λ e, match s.(registry).(conns) !! from with
        | Some sender =>
            if MAX_PACKET_PAYLOAD_LEN <? zlen packet then e
            else if decide (conns_of dest s = ∅)
            then if decide (id = from) then send_entry (gone_frame dest NotHere) e else e
            else if decide (e.(conn_node) = dest)
            then send_entry (recv_frame sender.(conn_node) packet) e else e
        | None => e
        end) <$> s.(registry).(conns) !! id.
Proof.
  intros Hs. unfold route_send_packet.
  assert (Hid : ∀ o : option ConnEntry, o = (λ e, e) <$> o) by (by intros []).
  destruct (Z.ltb_spec MAX_PACKET_PAYLOAD_LEN (zlen packet)).
  { cbn. destruct (conns (registry s) !! from); apply Hid. }
  destruct (conns (registry s) !! from) as [sender|] eqn:Hf; [|apply Hid].
  rewrite (inv_index s Hs). destruct (decide (conns_of dest s = ∅)) as [Hz|Hz].
  { cbn. destruct (decide (id = from)) as [->|Hne].
    - by rewrite lookup_insert_eq, Hf.
    - rewrite lookup_insert_ne by done. apply Hid. }
  rewrite bool_decide_eq_false_2 by done.
  pose proof (deliver_lookup (recv_frame (conn_node sender) packet) (elements (conns_of dest s))
    (conns (registry s)) false id (NoDup_elements _)) as Hd.
  destruct (deliver _ _ _ _) as [c d]. cbn in Hd |- *. rewrite Hd.
  destruct (conns (registry s) !! id) as [e|] eqn:He; [|done]. cbn. f_equal.
  assert (Hiff : id ∈ elements (conns_of dest s) ↔ conn_node e = dest).
  { rewrite elem_of_elements, elem_of_conns_of, nodes_Some, He. naive_solver. }
  destruct (decide (conn_node e = dest)); [rewrite decide_True|rewrite decide_False]; tauto.
Qed.

(** Routing, exactly: an addressee with live connections gets the packet, with
    the sender's registered key as its source, on each of them that has room,
    and no other queue changes; for an unknown addressee the sender alone is
    told [PeerGone(NotHere)]; an oversized packet changes no queue. *)
Theorem route_send_packet_exact from dest packet s id :
  relay_inv s →
  (route_send_packet from dest packet s).(registry).(conns) !! id =
  (λ e, match s.(registry).(conns) !! from with
        | Some sender =>
            if MAX_PACKET_PAYLOAD_LEN <? zlen packet then e
            else if decide (conns_of dest s = ∅)
            then if decide (id = from) then send_entry (gone_frame dest NotHere) e else e
            else if decide (e.(conn_node) = dest)
            then send_entry (recv_frame sender.(conn_node) packet) e else e
        | None => e
        end) <$> s.(registry).(conns) !! id.
Proof. apply route_lookup. Qed.

Definition relay_demo : Relay :=
  (register [2] [[1]] (register [1] [] Relay_new).1).1.

Lemma relay_demo_inv : relay_inv relay_demo.
Proof. apply inv_register; [done|]. apply inv_register; [done|apply inv_init]. Qed.

Lemma route_send_packet_exact_witness :
  (route_send_packet 2 [1] [9] relay_demo).(registry).(conns) !! 1
  = Some {| conn_node := [1];
            conn_out := {| queue := [present_frame [2]; recv_frame [2] [9]];
                           receiver_gone := false |} |}.
Proof.
  rewrite (route_send_packet_exact 2 [1] [9] relay_demo 1 relay_demo_inv). by vm_compute.
Defined.

Lemma deregister_lookup id e s other :
  relay_inv s → s.(registry).(conns) !! id = Some e → other ≠ id →
  (deregister id s).(registry).(conns) !! other =
  (λ o, if decide (conns_of e.(conn_node) s = {[id]})
        then send_entry (gone_frame e.(conn_node) Disconnected) o else o)
    <$> s.(registry).(conns) !! other
  ∧ (deregister id s).(registry).(conns) !! id = None.
Proof.
  intros Hs He Hne. rewrite (deregister_eq id e s Hs He). cbv zeta.
  assert (Hin : id ∈ conns_of (conn_node e) s).
  { apply elem_of_conns_of, nodes_Some. eauto. }
  assert (Hiff : conns_of (conn_node e) s ∖ {[id]} = ∅ ↔ conns_of (conn_node e) s = {[id]}).
  { split; [|set_solver]. intros Hd. apply set_eq. intros i. rewrite elem_of_singleton.
    split; [|by intros ->]. intros Hi. destruct (decide (i = id)); [done|]. set_solver. }
  destruct (decide (_ = ∅)) as [Hd|Hd]; cbn [conns]; rewrite ?lookup_fmap;
    (rewrite lookup_delete_ne, lookup_delete_eq by done); split; try done;
    destruct (conns (registry s) !! other) as [o|]; try done; cbn; f_equal.
  - by rewrite decide_True by tauto.
  - by rewrite decide_False by tauto.
Qed.

(** A departure is announced, as [PeerGone(Disconnected)] to every remaining
    connection, exactly when the node's last connection goes; while another one
    is live nobody is told anything. *)
Theorem deregister_announces_last id e s other :
  relay_inv s → s.(registry).(conns) !! id = Some e → other ≠ id →
  (deregister id s).(registry).(conns) !! other =
  (λ o, if decide (conns_of e.(conn_node) s = {[id]})
        then send_entry (gone_frame e.(conn_node) Disconnected) o else o)
    <$> s.(registry).(conns) !! other
  ∧ (deregister id s).(registry).(conns) !! id = None.
Proof. apply deregister_lookup. Qed.

Lemma deregister_announces_last_witness :
  (deregister 2 relay_demo).(registry).(conns) !! 1
  = Some {| conn_node := [1];
            conn_out := {| queue := [present_frame [2]; gone_frame [2] Disconnected];
                           receiver_gone := false |} |}.
Proof.
  destruct (deregister_announces_last 2 {| conn_node := [2]; conn_out :=
    {| queue := [present_frame [1]]; receiver_gone := false |} |} relay_demo 1
    relay_demo_inv eq_refl ltac:(done)) as [-> _].
  by vm_compute.
Defined.

(** *** Provenance of packets *)

Lemma try_send_elem f c g : f ∈ (try_send c g).1.(queue) → f ∈ c.(queue) ∨ f = g.
Proof.
  unfold try_send. case_match; [by left|]. cbn. rewrite elem_of_app, list_elem_of_singleton. done.
Qed.

Lemma announce_present_elem f node order ann out :
  f ∈ (announce_present node order ann out).(queue) → f ∈ out.(queue) ∨ f.1 = PeerPresent.
Proof.
  revert ann out. induction order as [|p order IH]; intros ann out; cbn; [by left|].
  case_bool_decide; intros [Hf|Hf]%IH; auto.
  apply try_send_elem in Hf as [| ->]; auto.
Qed.

(** A received packet that was not queued before the event was sent by it. *)
Lemma recv_origin ev s id e' body :
  relay_inv s → (apply_event ev s).(registry).(conns) !! id = Some e' →
  (RecvPacket, body) ∈ e'.(conn_out).(queue) →
  (∃ e, s.(registry).(conns) !! id = Some e ∧ e.(conn_node) = e'.(conn_node)
        ∧ (RecvPacket, body) ∈ e.(conn_out).(queue))
  ∨ (∃ from sender packet,
        ev = EvFrame from (SendPacket, e'.(conn_node) ++ packet)
        ∧ nodes s !! from = Some sender ∧ body = sender ++ packet).
Proof.
  intros Hs. destruct ev as [node order|from frame|i|i|i|i]; cbn [apply_event].
  - unfold register. cbn. rewrite lookup_insert_Some.
    intros [[<- <-]|[_ He]] Hf.
    + apply announce_present_elem in Hf as [Hf|]; [|done]. cbn in Hf. set_solver.
    + rewrite lookup_fmap in He. apply fmap_Some in He as (e & He & ->). left. exists e.
      split; [done|]. split; [done|]. by apply try_send_elem in Hf as [|].
  - unfold handle_data_frame. destruct frame as [ty p]. cbn [fst snd].
    intros He Hf.
    assert (Hold : registry (handle_data_frame from (ty, p) s).1 = registry s →
                   conns (registry s) !! id = Some e') by (unfold handle_data_frame; cbn; congruence).
    destruct ty; try (left; exists e'; by auto).
    destruct (SendPacketBody_decode_prefix p) as [b|] eqn:Hb; [|left; exists e'; by auto].
    cbn [fst] in He. rewrite route_lookup in He by done.
    apply fmap_Some in He as (e & He & ->).
    destruct (conns (registry s) !! from) as [sender|] eqn:Hfrom; [|left; by eauto].
    case_match; [left; by eauto|]. case_match.
    + case_match; [|left; by eauto]. left. exists e. split; [done|]. split; [done|].
      by apply try_send_elem in Hf as [|].
    + case_match; [|left; by eauto]. apply try_send_elem in Hf as [Hf|Hf]; [left; by eauto|].
      right. unfold SendPacketBody_decode_prefix in Hb.
      destruct (zlen p <? SEND_PACKET_PREFIX_LEN); [done|]. injection Hb as <-.
      exists from, (conn_node sender), (zdrop SEND_PACKET_PREFIX_LEN p).
      rewrite nodes_Some. subst. cbn [conn_node send_entry sp_dest] in *. split; [|split].
      * do 2 f_equal. rewrite <- (ztake_zdrop SEND_PACKET_PREFIX_LEN p) at 1. f_equal. done.
      * by eauto.
      * by injection Hf.
  - destruct (conns (registry s) !! i) as [e|] eqn:He.
    + destruct (decide (id = i)) as [->|Hne].
      { destruct (deregister_lookup i e s (i + 1) Hs He ltac:(lia)) as [_ ->]. done. }
      destruct (deregister_lookup i e s id Hs He Hne) as [-> _].
      intros (o & Ho & ->)%fmap_Some Hf. left. exists o. split; [done|].
      case_match; [|done]. split; [done|]. by apply try_send_elem in Hf as [|].
    + unfold deregister. rewrite He. intros; left; eauto.
  - unfold send_keepalive. destruct (conns _ !! i) as [e|] eqn:He; [|intros; left; by eauto].
    cbn. rewrite lookup_insert_Some. intros [[<- <-]|[_ Hid]] Hf; [|left; by eauto].
    left. exists e. split; [done|]. split; [done|]. by apply try_send_elem in Hf as [|].
  - unfold writer_recv.
    destruct (conns _ !! i) as [[n [[|f q] []]]|] eqn:He; try (intros; left; by eauto).
    cbn. rewrite lookup_insert_Some. intros [[<- <-]|[_ Hid]] Hf; [|left; by eauto].
    left. eexists. split; [done|]. split; [done|]. cbn in *. by right.
  - unfold writer_stop. destruct (conns _ !! i) as [e|] eqn:He; [|intros; left; by eauto].
    cbn. rewrite lookup_insert_Some. intros [[<- <-]|[_ Hid]] Hf; [|left; by eauto].
    cbn in Hf. set_solver.
Qed.

Lemma nodes_event_origin ev s id k :
  relay_inv s → nodes (apply_event ev s) !! id = Some k →
  nodes s !! id = Some k ∨ ∃ order, ev = EvRegister k order.
Proof.
  intros Hs. destruct ev as [node order|from frame|i|i|i|i]; cbn [apply_event].
  - rewrite nodes_register, lookup_insert_Some. intros [[_ ->]|[_ ?]]; eauto.
  - unfold handle_data_frame. destruct (frame.1); try (intros; by left).
    destruct (SendPacketBody_decode_prefix _); [|by left]. cbn [fst].
    rewrite !nodes_Some. intros (e & He & <-). rewrite route_lookup in He by done.
    apply fmap_Some in He as (e0 & He & ->). left. exists e0. split; [done|].
    by repeat case_match.
  - rewrite nodes_deregister. intros [_ ?]%lookup_delete_Some. by left.
  - unfold send_keepalive. destruct (conns _ !! i) as [e|] eqn:He; [|by left].
    unfold nodes. cbn. rewrite (nodes_update _ i e) by done. by left.
  - unfold writer_recv. destruct (conns _ !! i) as [[n [[|f q] []]]|] eqn:He; try by left.
    unfold nodes. cbn. erewrite nodes_update by done. by left.
  - unfold writer_stop. destruct (conns _ !! i) as [e|] eqn:He; [|by left].
    unfold nodes. cbn. rewrite (nodes_update _ i e) by done. by left.
Qed.

(** C28. No packet is misrouted or forged: whatever the interleaving, a packet in the
    queue of a connection was sent, in a [SendPacket] frame addressed to that
    connection's own node key, by a connection that was live at that moment,
    and the source key in front of it is the key that connection had logged in
    with. *)
Theorem relay_packets_authentic tr s id e body :
  relay_steps tr s → zlen tr < 2 ^ 64 - 2 →
  s.(registry).(conns) !! id = Some e → (RecvPacket, body) ∈ e.(conn_out).(queue) →
  ∃ before s1 after from src packet order,
    tr = before ++ EvFrame from (SendPacket, e.(conn_node) ++ packet) :: after
    ∧ relay_steps before s1 ∧ nodes s1 !! from = Some src
    ∧ EvRegister src order ∈ before ∧ body = src ++ packet.
Proof.
  intros Htr Hlen.
  assert (Hall : (∀ id k, nodes s !! id = Some k → ∃ order, EvRegister k order ∈ tr)
    ∧ ∀ id e body, s.(registry).(conns) !! id = Some e → (RecvPacket, body) ∈ e.(conn_out).(queue) →
      ∃ before s1 after from src packet order,
        tr = before ++ EvFrame from (SendPacket, e.(conn_node) ++ packet) :: after
        ∧ relay_steps before s1 ∧ nodes s1 !! from = Some src
        ∧ EvRegister src order ∈ before ∧ body = src ++ packet).
  2:{ intros. by eapply Hall. }
  clear id e body. induction Htr as [|tr s ev s' Htr IH Hstep]; [by split|].
  rewrite zlen_app, zlen_cons, zlen_nil in Hlen. destruct IH as [IHn IHp]; [lia|].
  assert (Hs : relay_inv s).
  { eapply relay_steps_inv; [done|lia]. }
  assert (s' = apply_event ev s) as -> by (by destruct Hstep).
  split.
  - setoid_rewrite elem_of_app.
    intros id k [Hk|[order ->]]%nodes_event_origin; [|by eauto using list_elem_of_here|done].
    destruct (IHn _ _ Hk). eauto.
  - intros id e body He [(e0 & He0 & <- & Hf)|(from & k & p & -> & Hk & ->)]%(recv_origin _ _ _ _ _ Hs He).
    + destruct (IHp _ _ _ He0 Hf) as (before & s1 & after & f & src & p & o & -> & ? & ? & ? & ?).
      exists before, s1, (after ++ [ev]), f, src, p, o. rewrite <- app_assoc. by split_and!.
    + destruct (IHn _ _ Hk) as [o Ho]. by exists tr, s, [], from, k, p, o.
Qed.

Lemma relay_packets_authentic_witness :
  let A := replicate 32 1 in let B := replicate 32 2 in
  let tr := [EvRegister A []; EvRegister B [A]; EvFrame 2 (SendPacket, A ++ [9])] in
  ∃ before s1 after from src packet order,
    tr = before ++ EvFrame from (SendPacket, A ++ packet) :: after
    ∧ relay_steps before s1 ∧ nodes s1 !! from = Some src
    ∧ EvRegister src order ∈ before ∧ B ++ [9] = src ++ packet.
Proof.
  set (A := replicate 32 1). set (B := replicate 32 2). cbv zeta.
  apply (relay_packets_authentic _
    (foldl (λ s e, apply_event e s) Relay_new
       [EvRegister A []; EvRegister B [A]; EvFrame 2 (SendPacket, A ++ [9])]) 1
    {| conn_node := A; conn_out := {| queue := [present_frame B; recv_frame B [9]];
                                      receiver_gone := false |} |}).
  - cbn [foldl]. eapply (relay_steps_snoc [_; _]); [|by apply relay_step_other].
    eapply (relay_steps_snoc [_]); [|apply relay_step_register; by vm_compute].
    eapply (relay_steps_snoc []); [constructor|apply relay_step_register; by vm_compute].
  - done.
  - by vm_compute.
  - right. left.
Defined.
