(* ===== verification/DerpLogin.v ===== *)
(** * The DERP login handshake
    ([crabscale-derp/src/handshake.rs], the first half of [Relay::run_conn] in
    [crabscale-derp/src/server.rs])

    The [crypto_box] and [serde_json] crates are parameters: [CryptoBox] is
    what the documentation of the box construction promises, [InfoJson] that a
    printed payload parses back. *)

From S2P Require Import Prelude StreamDecoder Reader DerpFrame DerpFrames DerpRelay.

Class CryptoBox : Type := {
  box_public : bytes → bytes;
  (** [SalsaBox::new(recipient_public, sender_secret).encrypt(nonce, plaintext)] *)
  box_encrypt : bytes → bytes → bytes → bytes → option bytes;
  (** [SalsaBox::new(sender_public, recipient_secret).decrypt(nonce, ciphertext)] *)
  box_decrypt : bytes → bytes → bytes → bytes → option bytes;
  box_public_len sk : array KEY_LEN (box_public sk);
  box_decrypt_encrypt sender recipient nonce pt ct :
    box_encrypt (box_public recipient) sender nonce pt = Some ct →
    box_decrypt (box_public sender) recipient nonce ct = Some pt;
}.

Record ClientInfoPayload : Type := {
  can_ack_pings : bool; is_prober : bool; mesh_key : bytes; ci_version : Z }.

Definition ClientInfoPayload_default : ClientInfoPayload :=
  {| can_ack_pings := false; is_prober := false; mesh_key := []; ci_version := PROTOCOL_VERSION |}.

Record ServerInfoPayload : Type := {
  si_version : Z;
  token_bucket_bytes_per_second : option Z;
  token_bucket_bytes_burst : option Z }.

Definition ServerInfoPayload_default : ServerInfoPayload :=
  {| si_version := PROTOCOL_VERSION; token_bucket_bytes_per_second := None;
     token_bucket_bytes_burst := None |}.

(** [serde_json::to_vec] and [serde_json::from_slice] at the two payloads. *)
Class InfoJson : Type := {
  client_to_vec : ClientInfoPayload → option bytes;
  client_from_slice : bytes → option ClientInfoPayload;
  server_to_vec : ServerInfoPayload → option bytes;
  server_from_slice : bytes → option ServerInfoPayload;
  client_json_roundtrip p b : client_to_vec p = Some b → client_from_slice b = Some p;
  server_json_roundtrip p b : server_to_vec p = Some b → server_from_slice b = Some p;
}.

Inductive HandshakeError : Type :=
| DecryptionFailed
| UnsupportedVersion
| InvalidPayload
| KeyMismatch.

Section login.
  Context `{CryptoBox, InfoJson}.

Definition seal_to (recipient_public sender_secret nonce plaintext : bytes)
    : result bytes FrameError :=
  ok_or (box_encrypt recipient_public sender_secret nonce plaintext) CryptoFailed.

Definition open_from (sender_public recipient_secret nonce ciphertext : bytes)
    : result bytes FrameError :=
  ok_or (box_decrypt sender_public recipient_secret nonce ciphertext) CryptoFailed.

(** The [nonce] argument of the two makers is what [generate_nonce] drew. *)
Definition make_client_info (client_secret server_public nonce : bytes)
    (payload : ClientInfoPayload) : result (bytes * bytes * bytes) HandshakeError :=
  let? json := ok_or (client_to_vec payload) InvalidPayload in
  let? ct := map_err (λ _, DecryptionFailed) (seal_to server_public client_secret nonce json) in
  Ok (box_public client_secret, nonce, ct).

Definition open_client_info (client_public server_secret nonce ciphertext : bytes)
    : result ClientInfoPayload HandshakeError :=
  let? pt := map_err (λ _, DecryptionFailed)
               (open_from client_public server_secret nonce ciphertext) in
  ok_or (client_from_slice pt) InvalidPayload.

Definition make_server_info (server_secret client_public nonce : bytes)
    (payload : ServerInfoPayload) : result (bytes * bytes) HandshakeError :=
  let? json := ok_or (server_to_vec payload) InvalidPayload in
  let? ct := map_err (λ _, DecryptionFailed) (seal_to client_public server_secret nonce json) in
  Ok (nonce, ct).

Definition open_server_info (server_public client_secret nonce ciphertext : bytes)
    : result ServerInfoPayload HandshakeError :=
  let? pt := map_err (λ _, DecryptionFailed)
               (open_from server_public client_secret nonce ciphertext) in
  ok_or (server_from_slice pt) InvalidPayload.

Definition accept_client_info (server_secret : bytes) (verify : option (bytes → bool))
    (body : bytes) : option bytes :=
  match ClientInfoBody_decode_prefix body with
  | Err _ => None
  | Ok prefix =>
      let encrypted := zdrop CLIENT_INFO_PREFIX_LEN body in
      match open_client_info prefix.(ci_key) server_secret prefix.(ci_nonce) encrypted with
      | Err _ => None
      | Ok _ =>
          match verify with
          | Some v => if negb (v prefix.(ci_key)) then None else Some prefix.(ci_key)
          | None => Some prefix.(ci_key)
          end
      end
  end.

(** Step 2 of [run_conn]: frames before [ClientInfo] are ignored; the end of
    the input, or a read error, ends the connection. *)
Fixpoint await_client_info (incoming : list Frame) : option (bytes * list Frame) :=
  match incoming with
  | [] => None
  | (ClientInfo, payload) :: rest => Some (payload, rest)
  | _ :: rest => await_client_info rest
  end.

(** [run_conn] up to the registration: the frames written, and the node key to
    register with the input left for the read loop.  [write_ok i] says whether
    the [i]-th write succeeds, [nonce] is the nonce drawn for [ServerInfo]. *)
Definition login (server_secret : bytes) (verify : option (bytes → bool)) (nonce : bytes)
    (write_ok : nat → bool) (incoming : list Frame) : list Frame * option (bytes * list Frame) :=
  let hello := (ServerKey, ServerKeyBody_encode {| sk_key := box_public server_secret |}) in
  if negb (write_ok 0%nat) then ([], None)
  else
    match await_client_info incoming with
    | None => ([hello], None)
    | Some (client, rest) =>
        match accept_client_info server_secret verify client with
        | None => ([hello], None)
        | Some node_key =>
            match make_server_info server_secret node_key nonce ServerInfoPayload_default with
            | Err _ => ([hello], None)
            | Ok (n, ct) =>
                let info := (ServerInfo, ServerInfoBody_encode_prefix {| si_nonce := n |} ++ ct) in
                if negb (write_ok 1%nat) then ([hello], None)
                else ([hello; info], Some (node_key, rest))
            end
        end
    end.

(** The client's side of step 2 ([crabscale-derp/src/client.rs]): the body of
    the [ClientInfo] frame. *)
Definition client_info_body (key nonce ct : bytes) : bytes :=
  ClientInfoBody_encode_prefix {| ci_key := key; ci_nonce := nonce |} ++ ct.

Lemma accept_client_info_Some secret verify body k :
  accept_client_info secret verify body = Some k ↔
  CLIENT_INFO_PREFIX_LEN ≤ zlen body ∧ k = ztake KEY_LEN body
  ∧ (∃ p, open_client_info k secret (slice KEY_LEN CLIENT_INFO_PREFIX_LEN body)
            (zdrop CLIENT_INFO_PREFIX_LEN body) = Ok p)
  ∧ (∀ v, verify = Some v → v k = true).
Proof.
  unfold accept_client_info, ClientInfoBody_decode_prefix.
  destruct (Z.ltb_spec (zlen body) CLIENT_INFO_PREFIX_LEN); [split; [done|lia]|].
  cbn [ci_key ci_nonce]. split.
  - destruct (open_client_info _ _ _ _) as [p|] eqn:Ho; [|done].
    destruct verify as [v|]; [destruct (v _) eqn:Hv; [|done]|]; cbn; intros [= <-];
      repeat split; eauto; naive_solver.
  - intros (_ & -> & [p ->] & Hv). destruct verify as [v|]; [|done]. by rewrite (Hv v).
Qed.

Lemma make_client_info_opens client server nonce payload k n ct :
  make_client_info client (box_public server) nonce payload = Ok (k, n, ct) →
  k = box_public client ∧ n = nonce ∧ open_client_info k server n ct = Ok payload.
Proof.
  unfold make_client_info, open_client_info, seal_to, open_from.
  destruct (client_to_vec payload) as [json|] eqn:Hj; [|done]. cbn.
  destruct (box_encrypt _ _ _ _) as [c|] eqn:He; [|done]. cbn. intros [= <- <- <-].
  rewrite (box_decrypt_encrypt _ _ _ _ _ He). cbn. by rewrite (client_json_roundtrip _ _ Hj).
Qed.

Lemma make_server_info_opens server client nonce payload n ct :
  make_server_info server (box_public client) nonce payload = Ok (n, ct) →
  n = nonce ∧ open_server_info (box_public server) client n ct = Ok payload.
Proof.
  unfold make_server_info, open_server_info, seal_to, open_from.
  destruct (server_to_vec payload) as [json|] eqn:Hj; [|done]. cbn.
  destruct (box_encrypt _ _ _ _) as [c|] eqn:He; [|done]. cbn. intros [= <- <-].
  rewrite (box_decrypt_encrypt _ _ _ _ _ He). cbn. by rewrite (server_json_roundtrip _ _ Hj).
Qed.

(** The input of the login that is looked at: everything before the first
    [ClientInfo] frame is skipped. *)
Lemma await_client_info_skip junk payload rest :
  Forall (λ f, f.1 ≠ ClientInfo) junk →
  await_client_info (junk ++ (ClientInfo, payload) :: rest) = Some (payload, rest).
Proof. induction 1 as [|[ty p] junk Hf _ IH]; [done|]. cbn. by destruct ty. Qed.

Lemma await_client_info_Some incoming payload rest :
  await_client_info incoming = Some (payload, rest) → (ClientInfo, payload) ∈ incoming.
Proof.
  induction incoming as [|[ty p] inc IH]; [done|]. cbn.
  destruct ty; try (intros ?%IH; by right). intros [= -> ->]. by left.
Qed.

End login.


(** Admission is complete: a client that seals its info to the relay, after
    any frames of other types, is answered with a [ServerInfo] it can open,
    carrying the wire protocol version, and is registered under its own key. *)
Theorem login_complete `{CryptoBox, InfoJson} server client verify cn sn write_ok payload
    k n ct json sct junk rest :
  (∀ i, write_ok i = true) → array NONCE_LEN cn → array NONCE_LEN sn →
  Forall (λ f, f.1 ≠ ClientInfo) junk →
  (∀ v, verify = Some v → v (box_public client) = true) →
  make_client_info client (box_public server) cn payload = Ok (k, n, ct) →
  server_to_vec ServerInfoPayload_default = Some json →
  box_encrypt (box_public client) server sn json = Some sct →
  ∃ info, login server verify sn write_ok (junk ++ (ClientInfo, client_info_body k n ct) :: rest)
    = ([(ServerKey, ServerKeyBody_encode {| sk_key := box_public server |}); (ServerInfo, info)],
       Some (box_public client, rest))
    ∧ ServerInfoBody_decode_prefix info = Ok {| si_nonce := sn |}
    ∧ open_server_info (box_public server) client sn (zdrop SERVER_INFO_PREFIX_LEN info)
      = Ok {| si_version := PROTOCOL_VERSION; token_bucket_bytes_per_second := None;
              token_bucket_bytes_burst := None |}
    ∧ info = ServerInfoBody_encode_prefix {| si_nonce := sn |} ++ sct.
Proof.
  intros Hw Hcn Hsn Hj Hv Hmk Hjson Hsct.
  assert (Hsi : make_server_info server (box_public client) sn ServerInfoPayload_default = Ok (sn, sct)).
  { unfold make_server_info, seal_to. rewrite Hjson. cbn. by rewrite Hsct. }
  pose proof (make_server_info_opens _ _ _ _ _ _ Hsi) as [_ Hopen].
  apply make_client_info_opens in Hmk as (-> & -> & Hp).
  pose proof (box_public_len client) as Hlen.
  set (pre := {| ci_key := box_public client; ci_nonce := cn |}).
  pose proof (prefix_encode_len pre (conj Hlen Hcn)) as Hpre.
  assert (Hrt : ClientInfoBody_decode_prefix (ClientInfoBody_encode_prefix pre ++ ct) = Ok pre)
    by exact (prefix_roundtrip pre ct (conj Hlen Hcn)).
  eexists. split; [|split; [|split; [|done]]].
  - unfold login, client_info_body. rewrite !Hw, await_client_info_skip by done. cbn [negb].
    assert (Hacc : accept_client_info server verify (ClientInfoBody_encode_prefix pre ++ ct)
                   = Some (box_public client)).
    { unfold accept_client_info. rewrite Hrt.
      rewrite zdrop_app by exact Hpre. unfold pre. cbn [ci_key ci_nonce]. rewrite Hp.
      destruct verify as [v|]; [|done]. by rewrite (Hv v). }
    fold pre. rewrite Hacc, Hsi. done.
  - exact (prefix_roundtrip {| si_nonce := sn |} sct Hsn).
  - cbn. rewrite zdrop_app by apply Hsn. done.
Qed.

(** A box and a printer that satisfy the two contracts, for the witnesses: the
    "ciphertext" is the plaintext, a printed payload lists its fields. *)
Definition demo_box : CryptoBox.
Proof.
  refine {| box_public sk := map (λ b, b mod 256) (ztake KEY_LEN (sk ++ zeros KEY_LEN));
            box_encrypt _ _ _ pt := Some pt; box_decrypt _ _ _ ct := Some ct |}.
  - intros sk. split.
    + apply List.Forall_map, List.Forall_forall. intros b _. apply Z.mod_pos_bound. lia.
    + unfold zlen. rewrite length_map. unfold ztake. rewrite length_take, length_app.
      unfold zeros. rewrite length_replicate. unfold KEY_LEN. lia.
  - cbn. congruence.
Defined.

Definition demo_json : InfoJson.
Proof.
  refine {| client_to_vec p := if bool_decide (p.(mesh_key) = []) then
              Some [if p.(can_ack_pings) then 1 else 0; if p.(is_prober) then 1 else 0; p.(ci_version)]
              else None;
            client_from_slice b := match b with
              | [a; p; v] => Some {| can_ack_pings := a =? 1; is_prober := p =? 1;
                                     mesh_key := []; ci_version := v |}
              | _ => None end;
            server_to_vec p := match p with
              | {| si_version := v; token_bucket_bytes_per_second := None;
                   token_bucket_bytes_burst := None |} => Some [v]
              | _ => None end;
            server_from_slice b := match b with
              | [v] => Some {| si_version := v; token_bucket_bytes_per_second := None;
                               token_bucket_bytes_burst := None |}
              | _ => None end |}.
  - intros [a p m v] b. cbn. case_bool_decide; [|done]. intros [= <-]. subst. by destruct a, p.
  - by intros [v [] []] b; [..|intros [= <-]].
Defined.

Definition demo_hello : bytes :=
  client_info_body (box_public (CryptoBox := demo_box) [5]) (zeros 24) [0; 0; 2].


Lemma login_complete_witness :
  ∃ info, login (H := demo_box) (H0 := demo_json) [1] None (zeros 24) (λ _, true)
            [(Ping, []); (ClientInfo, demo_hello)]
    = ([(ServerKey, ServerKeyBody_encode {| sk_key := box_public (CryptoBox := demo_box) [1] |});
        (ServerInfo, info)], Some (box_public (CryptoBox := demo_box) [5], []))
    ∧ ServerInfoBody_decode_prefix info = Ok {| si_nonce := zeros 24 |}
    ∧ open_server_info (H := demo_box) (H0 := demo_json) (box_public (CryptoBox := demo_box) [1]) [5]
        (zeros 24) (zdrop SERVER_INFO_PREFIX_LEN info)
      = Ok {| si_version := PROTOCOL_VERSION; token_bucket_bytes_per_second := None;
              token_bucket_bytes_burst := None |}
    ∧ info = ServerInfoBody_encode_prefix {| si_nonce := zeros 24 |} ++ [2].
Proof.
  apply (login_complete (H := demo_box) (H0 := demo_json) [1] [5] None (zeros 24) (zeros 24)
    (λ _, true) ClientInfoPayload_default (box_public (CryptoBox := demo_box) [5]) (zeros 24)
    [0; 0; 2] [2] [2] [(Ping, [])] []).
  - done.
  - split; [apply wf_bytes_zeros|done].
  - split; [apply wf_bytes_zeros|done].
  - by repeat constructor.
  - done.
  - done.
  - done.
  - done.
Defined.
