(* ===== verification/DerpClient.v ===== *)
(** * The DERP client ([crabscale-derp/src/client.rs])

    The other end of a relay connection: the client's half of the login, its
    packets, and the loops that read until a frame of interest arrives.  The
    server's half is [DerpLogin.login] and [DerpRelay]; the theorems put the two
    together over a byte stream. *)

From S2P Require Import Prelude StreamDecoder Reader DerpFrame DerpFrames DerpRelay DerpLogin.

(** ** Outcomes *)

(** The errors of the reading loops, by where they come from. *)
Inductive ClientError : Type :=
| StreamEnded
| Io (e : IoErrorKind)
| InvalidBody (e : FrameError)
| WriteError
| UnexpectedFrame (ty : FrameType).

(** What a call ends in; [OutOfFuel] is not an outcome of the code. *)
Inductive outcome (A : Type) : Type :=
| Return (a : A)
| Fails (e : ClientError)
| Panics
| OutOfFuel.
Arguments Return {A} _.
Arguments Fails {A} _.
Arguments Panics {A}.
Arguments OutOfFuel {A}.

(** The keys a [Client] holds; its reader and its writer are passed along. *)
Record Client : Type := { client_node_key : bytes; client_server_public : bytes }.

(** ** Sending *)

(** [send_frame]: the bytes written. *)
Definition send_frame (frame : Frame) : result bytes IoErrorKind := write_frame frame.

Definition send_packet (dest packet : bytes) : result bytes IoErrorKind :=
  write_frame (SendPacket, SendPacketBody_encode_prefix {| sp_dest := dest |} ++ packet).

(** ** The login *)

Section connect.
  Context `{CryptoBox, InfoJson}.

Definition client_payload : ClientInfoPayload :=
  {| can_ack_pings := true; is_prober := false; mesh_key := []; ci_version := PROTOCOL_VERSION |}.

(** [connect_halves]: the client, the bytes it wrote and what is left to read.
    [None] is a panic, the only way it fails; [debug_assertions] says whether
    the [debug_assert]s are compiled in, [nonce] is what [generate_nonce] drew. *)
Definition connect_halves (debug_assertions : bool) (client_secret nonce : bytes) (write_ok : bool)
    (r : reader) : option (Client * bytes * reader) :=
  match read_frame r with
  | Ok (Some (ty, payload), r) =>
      if debug_assertions && negb (bool_decide (ty = ServerKey)) then None
      else
        match ServerKeyBody_decode payload with
        | Err _ => None
        | Ok server_key =>
            let server_public := server_key.(sk_key) in
            match make_client_info client_secret server_public nonce client_payload with
            | Err _ => None
            | Ok (node_key, n, ct) =>
                match write_frame (ClientInfo, client_info_body node_key n ct) with
                | Err _ => None
                | Ok written =>
                    if negb write_ok then None
                    else
                      match read_frame r with
                      | Ok (Some (ty, payload), r) =>
                          if debug_assertions && negb (bool_decide (ty = ServerInfo)) then None
                          else
                            match ServerInfoBody_decode_prefix payload with
                            | Err _ => None
                            | Ok prefix =>
                                match open_server_info server_public client_secret prefix.(si_nonce)
                                        (zdrop SERVER_INFO_PREFIX_LEN payload) with
                                | Err _ => None
                                | Ok info =>
                                    if debug_assertions && (info.(si_version) <? PROTOCOL_VERSION) then None
                                    else Some ({| client_node_key := node_key;
                                                  client_server_public := server_public |}, written, r)
                                end
                            end
                      | _ => None
                      end
                end
            end
        end
  | _ => None
  end.

End connect.

(** ** Receiving *)

(** The body of the answer to a ping: [copy_from_slice] panics when the lengths
    differ, so a ping of fewer than eight bytes is a panic. *)
Definition pong_of (payload : bytes) : option PongBody :=
  if zlen payload <? PING_BODY_LEN then None
  else Some {| pong_payload := ztake PING_BODY_LEN payload |}.

(** One turn of the loop of [recv_packet] on a frame. *)
Inductive client_turn (A : Type) : Type :=
| Done (o : outcome A)
| Skip
| Reply (frame : Frame).
Arguments Done {A} _.
Arguments Skip {A}.
Arguments Reply {A} _.

Definition recv_packet_turn (frame : Frame) : client_turn (bytes * bytes) :=
  match frame.1 with
  | RecvPacket =>
      match RecvPacketBody_decode_prefix frame.2 with
      | Err e => Done (Fails (InvalidBody e))
      | Ok body => Done (Return (body.(rp_src), zdrop RECV_PACKET_PREFIX_LEN frame.2))
      end
  | Ping =>
      match pong_of frame.2 with
      | None => Done Panics
      | Some pong => Reply (Pong, PongBody_encode pong)
      end
  | KeepAlive | PeerGone | PeerPresent | NotePreferred | Health | ServerKey | ServerInfo
  | Restarting => Skip
  | other => Done (Fails (UnexpectedFrame other))
  end.

Definition recv_peer_gone_turn (frame : Frame) : client_turn (bytes * PeerGoneReason) :=
  match frame.1 with
  | PeerGone =>
      match PeerGoneBody_decode frame.2 with
      | Err e => Done (Fails (InvalidBody e))
      | Ok body => Done (Return (body.(pg_key), body.(pg_reason)))
      end
  | _ => Skip
  end.

Definition recv_peer_present_turn (frame : Frame) : client_turn bytes :=
  match frame.1 with
  | PeerPresent =>
      match PeerPresentBody_decode frame.2 with
      | Err e => Done (Fails (InvalidBody e))
      | Ok body => Done (Return body.(pp_key))
      end
  | _ => Skip
  end.

Definition recv_note_preferred_turn (frame : Frame) : client_turn NotePreferredBody :=
  match frame.1 with
  | NotePreferred =>
      match NotePreferredBody_decode frame.2 with
      | Err e => Done (Fails (InvalidBody e))
      | Ok body => Done (Return body)
      end
  | _ => Skip
  end.

(** The loop the four calls share: the next frame, and what the call makes of
    it.  It returns the outcome, the bytes written and what is left to read;
    [write_ok i] says whether the [i]-th write of the call succeeds. *)
Fixpoint recv_loop {A} (fuel : nat) (on_frame : Frame → client_turn A) (write_ok : nat → bool) (written : bytes)
    (r : reader) : outcome A * bytes * reader :=
  match fuel with
  | O => (OutOfFuel, written, r)
  | S fuel =>
      match read_frame r with
      | Err e => (Fails (Io e), written, r)
      | Ok (None, r) => (Fails StreamEnded, written, r)
      | Ok (Some frame, r) =>
          match on_frame frame with
          | Done o => (o, written, r)
          | Skip => recv_loop fuel on_frame write_ok written r
          | Reply reply =>
              match send_frame reply with
              | Err e => (Fails (Io e), written, r)
              | Ok b =>
                  if write_ok 0%nat then recv_loop fuel on_frame (λ i, write_ok (S i)) (written ++ b) r
                  else (Fails WriteError, written, r)
              end
          end
      end
  end.

(** The bytes a reader can still give: a turn takes at least a header off it. *)
Fixpoint weight (r : reader) : Z :=
  match r with
  | [] => 0
  | Data b :: r => zlen b + weight r
  | IoFail :: r => weight r
  end.

Definition recv {A} (on_frame : Frame → client_turn A) (write_ok : nat → bool) (r : reader) : outcome A * bytes * reader :=
  recv_loop (S (Z.to_nat (weight r))) on_frame write_ok [] r.

Definition recv_packet (write_ok : nat → bool) (r : reader) : outcome (bytes * bytes) * bytes * reader :=
  recv recv_packet_turn write_ok r.
Definition recv_peer_gone (r : reader) : outcome (bytes * PeerGoneReason) * bytes * reader :=
  recv recv_peer_gone_turn (λ _, true) r.
Definition recv_peer_present (r : reader) : outcome bytes * bytes * reader :=
  recv recv_peer_present_turn (λ _, true) r.
Definition recv_note_preferred (r : reader) : outcome NotePreferredBody * bytes * reader :=
  recv recv_note_preferred_turn (λ _, true) r.

(** ** Termination *)

Lemma weight_nonneg r : 0 ≤ weight r.
Proof. induction r as [|[b|] r IH]; cbn [weight]; [done| |done]. pose proof (zlen_nonneg b). lia. Qed.

Lemma read_weight n r b r' : 0 ≤ n → Reader.read n r = Ok (b, r') → zlen b + weight r' = weight r.
Proof.
  intros Hn. destruct r as [|[d|] r]; cbn [Reader.read]; [by intros [= <- <-]| |done].
  destruct (Z.leb_spec (zlen d) n) as [Hle|Hgt]; intros [= <- <-]; cbn [weight].
  - assert (Ht : ztake n d = d) by (unfold ztake, zlen in *; apply firstn_all2; lia). by rewrite Ht.
  - rewrite zlen_take, zlen_drop by lia. lia.
Qed.

Lemma fill_weight n r b r' : fill n r = (b, Full r') → zlen b + weight r' = weight r.
Proof.
  unfold fill. generalize (S (Z.to_nat n)) as fuel. intros fuel. revert n r b r'.
  induction fuel as [|fuel IH]; intros n r b r'; cbn [read_loop]; [by intros [= <- <-]|].
  destruct (Z.leb_spec n 0); [by intros [= <- <-]|].
  destruct (Reader.read n r) as [[d r1]|] eqn:Hr; [|done].
  apply read_weight in Hr; [|lia]. destruct d as [|x d]; [done|].
  destruct (read_loop fuel _ r1) as [bs e] eqn:Hl. intros [= <- ->].
  apply IH in Hl. rewrite app_comm_cons, zlen_app. lia.
Qed.

Lemma read_frame_weight r f r' : read_frame r = Ok (Some f, r') → weight r' < weight r.
Proof.
  unfold read_frame. destruct (fill FRAME_HEADER_LEN r) as [h [r1| |]] eqn:Hf; [|by destruct h..].
  destruct (FrameHeader_decode h) as [[hd n]|] eqn:Hd; cbn [map_err rbind]; [|by destruct h].
  apply FrameHeader_decode_bounds in Hd as (_ & Hlen & _). unfold FRAME_HEADER_LEN in Hlen.
  destruct (fill (fh_len hd) r1) as [p [r2| |]] eqn:Hp; [|by destruct h..].
  apply fill_weight in Hf, Hp. pose proof (zlen_nonneg p).
  destruct h as [|x h]; [by rewrite zlen_nil in Hlen|]. intros [= <- <-]. lia.
Qed.

Lemma recv_loop_returns {A} fuel (on_frame : Frame → client_turn A) ok w r :
  (∀ f o, on_frame f = Done o → o ≠ OutOfFuel) →
  weight r < Z.of_nat fuel → (recv_loop fuel on_frame ok w r).1.1 ≠ OutOfFuel.
Proof.
  intros Hd. revert ok w r. induction fuel as [|fuel IH]; intros ok w r Hw.
  { pose proof (weight_nonneg r). lia. }
  cbn [recv_loop]. destruct (read_frame r) as [[[f|] r']|] eqn:Hr; [|done..].
  apply read_frame_weight in Hr.
  destruct (on_frame f) as [o| |reply] eqn:Hf; [by apply (Hd f)|apply IH; lia|].
  destruct (send_frame reply); [|done]. destruct (ok 0%nat); [|done]. apply IH. lia.
Qed.

Lemma recv_loop_fuel {A} (on_frame : Frame → client_turn A) f1 f2 ok w r :
  weight r < Z.of_nat f1 → weight r < Z.of_nat f2 →
  recv_loop f1 on_frame ok w r = recv_loop f2 on_frame ok w r.
Proof.
  revert f2 ok w r. induction f1 as [|f1 IH]; intros [|f2] ok w r H1 H2; pose proof (weight_nonneg r); [lia..|].
  cbn [recv_loop]. destruct (read_frame r) as [[[f|] r']|] eqn:Hr; [|done..].
  apply read_frame_weight in Hr. destruct (on_frame f); [done|apply IH; lia|].
  destruct (send_frame _); [|done]. destruct (ok 0%nat); [|done]. apply IH; lia.
Qed.

(** Where a frame is skipped, the call goes on with the rest. *)
Lemma recv_skip {A} (on_frame : Frame → client_turn A) ok f r r' :
  read_frame r = Ok (Some f, r') → on_frame f = Skip → recv on_frame ok r = recv on_frame ok r'.
Proof.
  intros Hr Hf. unfold recv. trans (recv_loop (Z.to_nat (weight r)) on_frame ok [] r').
  { cbn [recv_loop]. by rewrite Hr, Hf. }
  apply recv_loop_fuel.
  - apply read_frame_weight in Hr. pose proof (weight_nonneg r'). lia.
  - pose proof (weight_nonneg r'). lia.
Qed.

Lemma recv_done {A} (on_frame : Frame → client_turn A) ok f o r r' :
  read_frame r = Ok (Some f, r') → on_frame f = Done o → recv on_frame ok r = (o, [], r').
Proof. intros Hr Hf. unfold recv. cbn [recv_loop]. by rewrite Hr, Hf. Qed.

(** Every call returns, whatever the relay sends and however its reads are cut
    or fail. *)
Theorem client_calls_return r ok :
  (recv_packet ok r).1.1 ≠ OutOfFuel ∧ (recv_peer_gone r).1.1 ≠ OutOfFuel
  ∧ (recv_peer_present r).1.1 ≠ OutOfFuel ∧ (recv_note_preferred r).1.1 ≠ OutOfFuel.
Proof.
  pose proof (weight_nonneg r).
  split_and!; apply recv_loop_returns; try lia; intros [[] p] o; cbn;
    repeat case_match; intros [= <-]; done.
Qed.

(** ** Frames on a stream *)

Definition frame_bytes (f : Frame) : bytes := FrameHeader_encode {| fh_ty := f.1; fh_len := zlen f.2 |} ++ f.2.

(** What the writer task writes for the frames it takes off its channel. *)
Fixpoint write_all (q : list Frame) : result bytes IoErrorKind :=
  match q with
  | [] => Ok []
  | f :: q => let? b := write_frame f in let? bs := write_all q in Ok (b ++ bs)
  end.

Definition fits (f : Frame) : Prop := zlen f.2 ≤ MAX_FRAME_BODY_LEN.

Lemma write_frame_fits f : fits f → write_frame f = Ok (frame_bytes f).
Proof.
  intros Hf. unfold write_frame. by rewrite (proj2 (FrameHeader_new_Ok _ _ _) (conj Hf eq_refl)).
Qed.

Lemma write_all_fits q : Forall fits q → write_all q = Ok (concat (map frame_bytes q)).
Proof. induction 1 as [|f q Hf _ IH]; [done|]. cbn. by rewrite (write_frame_fits f Hf), IH. Qed.

Lemma read_frame_bytes f r rest :
  fits f → live r → stream_of r = frame_bytes f ++ rest →
  ∃ r', read_frame r = Ok (Some f, r') ∧ live r' ∧ stream_of r' = rest.
Proof.
  intros Hf Hr Hs. pose proof (read_frame_refines r Hr) as H. destruct f as [ty p].
  assert (He : encode_frame ty p = Ok (frame_bytes (ty, p))) by (by apply encode_frame_Ok).
  rewrite Hs, (decode_encode_frame _ _ _ _ He) in H. destruct H as (r' & -> & Hl & Hz).
  exists r'. by rewrite Hz, zdrop_app.
Qed.

(** ** What the relay sends *)

(** The frames of a queue of the relay: presence, keepalives, and packets with
    the key of their source in front. *)
Definition relay_frame (f : Frame) : Prop :=
  fits f ∧ match f.1 with
           | KeepAlive | PeerGone | PeerPresent => True
           | RecvPacket => KEY_LEN ≤ zlen f.2
           | _ => False
           end.

Definition packet_of (f : Frame) : option (bytes * bytes) :=
  match f.1 with
  | RecvPacket => Some (ztake KEY_LEN f.2, zdrop KEY_LEN f.2)
  | _ => None
  end.

Lemma relay_frame_turn f :
  relay_frame f → recv_packet_turn f = match packet_of f with Some p => Done (Return p) | None => Skip end.
Proof.
  destruct f as [ty p]. intros [_ Hf]. unfold recv_packet_turn, packet_of. cbn [fst snd] in *.
  destruct ty; try done. unfold RecvPacketBody_decode_prefix, RECV_PACKET_PREFIX_LEN.
  by destruct (Z.ltb_spec (zlen p) KEY_LEN); [lia|].
Qed.

(** [n] calls of [recv_packet], each of which returns a packet. *)
Fixpoint recv_packets (n : nat) (r : reader) : option (list (bytes * bytes) * reader) :=
  match n with
  | O => Some ([], r)
  | S n =>
      match recv_packet (λ _, true) r with
      | (Return p, _, r) =>
          match recv_packets n r with
          | Some (ps, r) => Some (p :: ps, r)
          | None => None
          end
      | _ => None
      end
  end.

(** Reading a queue of the relay gives its packets, in order. *)
Lemma recv_packets_queue q r rest :
  Forall relay_frame q → live r → stream_of r = concat (map frame_bytes q) ++ rest →
  ∃ r', recv_packets (length (omap packet_of q)) r = Some (omap packet_of q, r').
Proof.
  intros Hq. revert r. induction Hq as [|f q Hf _ IH]; intros r Hr Hs; [by exists r|].
  cbn [map concat] in Hs. rewrite <- app_assoc in Hs.
  destruct (read_frame_bytes f r _ (proj1 Hf) Hr Hs) as (r1 & Hrd & Hr1 & Hs1).
  destruct (IH r1 Hr1 Hs1) as [r' IH']. apply relay_frame_turn in Hf. cbn [omap list_omap].
  destruct (packet_of f) as [p|].
  - cbn [length recv_packets]. unfold recv_packet. rewrite (recv_done _ _ f (Return p) r r1) by done.
    rewrite IH'. by exists r'.
  - destruct (omap packet_of q) as [|p ps]; [by exists r|]. cbn [length recv_packets] in *.
    unfold recv_packet in *. rewrite (recv_skip _ _ f r r1) by done. by exists r'.
Qed.

(** Every queue of a reachable relay is one, and every connection has a key. *)
Definition sends_relay_frames (c : gmap Z ConnEntry) : Prop :=
  map_Forall (λ _ e, zlen e.(conn_node) = KEY_LEN ∧ Forall relay_frame e.(conn_out).(queue)) c.

Lemma try_send_relay_frame c f :
  relay_frame f → Forall relay_frame c.(queue) → Forall relay_frame (try_send c f).1.(queue).
Proof.
  intros Hf Hc. unfold try_send. case_match; [done|]. apply Forall_app. split; [done|]. by constructor.
Qed.

Lemma present_relay_frame k : zlen k = KEY_LEN → relay_frame (present_frame k).
Proof.
  intros Hk. split; [|done]. unfold fits, present_frame, PeerPresentBody_encode. cbn [snd].
  cbn. rewrite !zlen_app, Hk. by vm_compute.
Qed.

Lemma gone_relay_frame k reason : zlen k = KEY_LEN → relay_frame (gone_frame k reason).
Proof.
  intros Hk. split; [|done]. unfold fits, gone_frame, PeerGoneBody_encode. cbn [snd pg_key pg_reason].
  rewrite zlen_app, Hk, zlen_cons, zlen_nil. by vm_compute.
Qed.

Lemma recv_relay_frame src p :
  zlen src = KEY_LEN → zlen p ≤ MAX_PACKET_PAYLOAD_LEN → relay_frame (recv_frame src p).
Proof.
  intros Hk Hp. unfold relay_frame, fits, recv_frame, RecvPacketBody_encode_prefix. cbn [fst snd rp_src].
  rewrite zlen_app, Hk. pose proof (zlen_nonneg p).
  unfold KEY_LEN, MAX_FRAME_BODY_LEN, MAX_PACKET_PAYLOAD_LEN in *. lia.
Qed.

Lemma sends_broadcast f c : relay_frame f → sends_relay_frames c → sends_relay_frames (send_entry f <$> c).
Proof.
  intros Hf Hc id e. rewrite lookup_fmap. intros (e0 & [Hk Hq]%Hc & ->)%fmap_Some.
  split; [done|]. by apply try_send_relay_frame.
Qed.

Lemma sends_insert c id e :
  zlen e.(conn_node) = KEY_LEN → Forall relay_frame e.(conn_out).(queue) →
  sends_relay_frames c → sends_relay_frames (<[id := e]> c).
Proof. intros. by apply map_Forall_insert_2. Qed.

Lemma sends_entry c id e f :
  relay_frame f → c !! id = Some e → sends_relay_frames c → sends_relay_frames (<[id := send_entry f e]> c).
Proof.
  intros Hf He Hc. pose proof (Hc _ _ He) as [Hk Hq].
  apply sends_insert; [done| |done]. by apply try_send_relay_frame.
Qed.

Lemma announce_relay_frames node order ann out :
  Forall (λ k, zlen k = KEY_LEN) order → Forall relay_frame out.(queue) →
  Forall relay_frame (announce_present node order ann out).(queue).
Proof.
  intros Ho. revert ann out. induction Ho as [|k order Hk _ IH]; intros ann out Hq; cbn; [done|].
  case_bool_decide; apply IH; [|done]. by apply try_send_relay_frame; [apply present_relay_frame|].
Qed.

Lemma sends_deregister id s :
  relay_inv s → sends_relay_frames s.(registry).(conns) →
  sends_relay_frames (deregister id s).(registry).(conns).
Proof.
  intros Hs Hc. destruct (s.(registry).(conns) !! id) as [e|] eqn:He.
  2:{ unfold deregister. by rewrite He. }
  rewrite (deregister_eq id e s Hs He). destruct (Hc _ _ He) as [Hk _].
  assert (sends_relay_frames (delete id s.(registry).(conns))) by (by apply map_Forall_delete).
  destruct (decide _); cbn [conns]; [|done]. by apply sends_broadcast; [apply gone_relay_frame|].
Qed.

Lemma sends_route from dest packet s :
  relay_inv s → zlen dest = KEY_LEN → sends_relay_frames s.(registry).(conns) →
  sends_relay_frames (route_send_packet from dest packet s).(registry).(conns).
Proof.
  intros Hs Hd Hc id e. rewrite route_lookup by done.
  intros (e0 & He & ->)%fmap_Some. pose proof (Hc _ _ He) as [Hk Hq].
  destruct (s.(registry).(conns) !! from) as [sender|] eqn:Hf; [|done].
  destruct (Hc _ _ Hf) as [Hks _].
  destruct (Z.ltb_spec MAX_PACKET_PAYLOAD_LEN (zlen packet)); [done|].
  destruct (decide (conns_of dest s = ∅)); case_decide; try done; (split; [done|]); cbn [conn_out send_entry];
    apply try_send_relay_frame; auto using gone_relay_frame, recv_relay_frame.
Qed.

(** The keys a login registers are keys. *)
Definition event_ok (e : relay_event) : Prop :=
  match e with EvRegister node _ => zlen node = KEY_LEN | _ => True end.

Lemma sends_step s e s' :
  relay_inv s → relay_step s e s' → event_ok e → sends_relay_frames s.(registry).(conns) →
  sends_relay_frames s'.(registry).(conns).
Proof.
  intros Hs Hstep Hok Hc. destruct Hstep as [s node order Hord|s e Hne].
  { cbn. apply sends_insert; [done| |by apply sends_broadcast; [apply present_relay_frame|]].
    apply announce_relay_frames; [|constructor]. rewrite Hord. apply list.Forall_forall. intros k.
    rewrite elem_of_elements, elem_of_dom, (inv_index s Hs). intros [ids Hids].
    destruct (decide (conns_of k s = ∅)) as [|Hz]; [done|]. apply set_choose_L in Hz as [i Hi].
    apply elem_of_conns_of, nodes_Some in Hi as (e & He & <-). apply (Hc _ _ He). }
  destruct e as [node order|id frame|id|id|id|id]; [by edestruct Hne| | | | |]; cbn [apply_event].
  - unfold handle_data_frame. destruct (frame.1); try done. cbn [fst].
    unfold SendPacketBody_decode_prefix.
    destruct (Z.ltb_spec (zlen frame.2) SEND_PACKET_PREFIX_LEN) as [|Hl]; [done|]. cbn [fst sp_dest].
    apply sends_route; [done| |done]. by apply zlen_take; split.
  - by apply sends_deregister.
  - unfold send_keepalive. destruct (conns _ !! id) as [e|] eqn:He; [|done].
    apply sends_entry; [by split; vm_compute|done..].
  - unfold writer_recv. destruct (conns _ !! id) as [[n [[|f q] []]]|] eqn:He; try done.
    destruct (Hc _ _ He) as [Hk Hq]. apply list.Forall_cons in Hq as [_ Hq]. by apply sends_insert.
  - unfold writer_stop. destruct (conns _ !! id) as [e|] eqn:He; [|done].
    destruct (Hc _ _ He) as [Hk Hq]. by apply sends_insert.
Qed.

Lemma reachable_sends tr s :
  relay_steps tr s → zlen tr < 2 ^ 64 - 2 → Forall event_ok tr → sends_relay_frames s.(registry).(conns).
Proof.
  induction 1 as [|tr s e s' Htr IH Hstep]; [done|]. rewrite zlen_app, zlen_cons, zlen_nil.
  intros Hlen [Hok He]%Forall_app. apply list.Forall_cons in He as [He _].
  apply (sends_step s e s'); [|done..|apply IH; [lia|done]].
  eapply relay_steps_inv; [done|lia].
Qed.

(** ** From one client to another *)

Definition packet_frame (dest packet : bytes) : Frame :=
  (SendPacket, SendPacketBody_encode_prefix {| sp_dest := dest |} ++ packet).

Lemma packet_frame_fits dest packet :
  zlen dest = KEY_LEN → zlen packet ≤ MAX_PACKET_PAYLOAD_LEN → fits (packet_frame dest packet).
Proof.
  intros Hd Hp. unfold fits, packet_frame, SendPacketBody_encode_prefix. cbn [snd sp_dest].
  rewrite zlen_app, Hd. unfold KEY_LEN, MAX_FRAME_BODY_LEN, MAX_PACKET_PAYLOAD_LEN in *. lia.
Qed.

Lemma handle_packet_frame from dest packet s :
  zlen dest = KEY_LEN →
  handle_data_frame from (packet_frame dest packet) s = (route_send_packet from dest packet s, true).
Proof.
  intros Hd. unfold handle_data_frame, packet_frame, SendPacketBody_decode_prefix, SendPacketBody_encode_prefix.
  cbn [fst snd sp_dest]. rewrite zlen_app, Hd. unfold SEND_PACKET_PREFIX_LEN. pose proof (zlen_nonneg packet).
  destruct (Z.ltb_spec (KEY_LEN + zlen packet) KEY_LEN); [lia|]. cbn [sp_dest].
  by rewrite ztake_app, zdrop_app by done.
Qed.

Lemma route_queued from sender id e packet s :
  relay_inv s → s.(registry).(conns) !! from = Some sender → s.(registry).(conns) !! id = Some e →
  e.(conn_out).(receiver_gone) = false → zlen e.(conn_out).(queue) < OUTBOUND_CAPACITY →
  zlen packet ≤ MAX_PACKET_PAYLOAD_LEN →
  (route_send_packet from e.(conn_node) packet s).(registry).(conns) !! id =
  Some {| conn_node := e.(conn_node); conn_out :=
    {| queue := e.(conn_out).(queue) ++ [recv_frame sender.(conn_node) packet]; receiver_gone := false |} |}.
Proof.
  intros Hs Hfrom Hid Hgone Hroom Hp. rewrite route_lookup, Hfrom, Hid by done.
  cbn [fmap option_fmap option_map].
  destruct (Z.ltb_spec MAX_PACKET_PAYLOAD_LEN (zlen packet)); [lia|]. rewrite decide_False.
  - rewrite decide_True by done. unfold send_entry, try_send. rewrite Hgone. cbn [orb].
    by destruct (Z.leb_spec OUTBOUND_CAPACITY (zlen (queue (conn_out e)))); [lia|].
  - intros Hz. assert (Hin : id ∈ conns_of (conn_node e) s) by (apply elem_of_conns_of, nodes_Some; eauto).
    by rewrite Hz in Hin.
Qed.

Lemma packet_of_recv_frame src packet :
  zlen src = KEY_LEN → packet_of (recv_frame src packet) = Some (src, packet).
Proof.
  intros Hs. unfold packet_of, recv_frame, RecvPacketBody_encode_prefix. cbn [fst snd rp_src].
  by rewrite ztake_app, zdrop_app by done.
Qed.

(** C26. A packet arrives: the relay reads what a client's [send_packet] wrote,
    however the stream is cut, and when the addressee has a connection with room,
    the bytes the relay then writes to it are ones from which its client's calls
    of [recv_packet] return every packet that was waiting, in order, and after
    them the packet sent, under the key its sender logged in with; presence and
    keepalive frames in between are skipped. *)
Theorem derp_packet_arrives tr s from sender id e packet :
  relay_steps tr s → zlen tr < 2 ^ 64 - 2 → Forall event_ok tr →
  s.(registry).(conns) !! from = Some sender → s.(registry).(conns) !! id = Some e →
  e.(conn_out).(receiver_gone) = false → zlen e.(conn_out).(queue) < OUTBOUND_CAPACITY →
  zlen packet ≤ MAX_PACKET_PAYLOAD_LEN →
  ∃ sent, send_packet e.(conn_node) packet = Ok sent
  ∧ ∀ r rest, live r → stream_of r = sent ++ rest →
    ∃ frame r', read_frame r = Ok (Some frame, r') ∧ stream_of r' = rest
    ∧ ∃ s' e' out, handle_data_frame from frame s = (s', true)
      ∧ s'.(registry).(conns) !! id = Some e' ∧ write_all e'.(conn_out).(queue) = Ok out
      ∧ let packets := omap packet_of e.(conn_out).(queue) ++ [(sender.(conn_node), packet)] in
        ∀ rb later, live rb → stream_of rb = out ++ later →
        ∃ rb', recv_packets (length packets) rb = Some (packets, rb').
Proof.
  intros Htr Hlen Hok Hfrom Hid Hgone Hroom Hp.
  pose proof (proj1 (relay_steps_inv _ _ Htr Hlen)) as Hs.
  pose proof (reachable_sends _ _ Htr Hlen Hok) as Hc.
  destruct (Hc _ _ Hfrom) as [Hks _]. destruct (Hc _ _ Hid) as [Hk Hq].
  pose proof (packet_frame_fits _ _ Hk Hp) as Hfit.
  exists (frame_bytes (packet_frame e.(conn_node) packet)). split; [by apply (write_frame_fits (packet_frame _ _))|].
  intros r rest Hr Hst. destruct (read_frame_bytes _ r rest Hfit Hr Hst) as (r' & Hrd & _ & Hst').
  assert (Hq' : Forall relay_frame (e.(conn_out).(queue) ++ [recv_frame sender.(conn_node) packet])).
  { apply Forall_app. split; [done|]. constructor; [by apply recv_relay_frame|constructor]. }
  eexists _, r'. split; [exact Hrd|]. split; [done|]. eexists _, _, _. split; [by apply handle_packet_frame|].
  split; [by apply route_queued|]. split.
  { apply write_all_fits. refine (list.Forall_impl _ _ _ Hq' _). by intros f [Hf _]. }
  intros packets rb later Hrb Hsb. cbn [conn_out queue] in Hsb.
  destruct (recv_packets_queue _ rb later Hq' Hrb Hsb) as [rb' Hgot]. exists rb'.
  rewrite omap_app in Hgot. cbn [omap list_omap] in Hgot. by rewrite packet_of_recv_frame in Hgot.
Qed.

Lemma derp_packet_arrives_witness :
  let A := replicate 32 1 in let B := replicate 32 2 in
  let s := foldl (λ s e, apply_event e s) Relay_new [EvRegister A []; EvRegister B [A]] in
  ∃ sent, send_packet A [9] = Ok sent
  ∧ ∀ r rest, live r → stream_of r = sent ++ rest →
    ∃ frame r', read_frame r = Ok (Some frame, r') ∧ stream_of r' = rest
    ∧ ∃ s' e' out, handle_data_frame 2 frame s = (s', true)
      ∧ s'.(registry).(conns) !! 1 = Some e' ∧ write_all e'.(conn_out).(queue) = Ok out
      ∧ ∀ rb later, live rb → stream_of rb = out ++ later →
        ∃ rb', recv_packets 1 rb = Some ([(B, [9])], rb').
Proof.
  set (A := replicate 32 1). set (B := replicate 32 2). cbv zeta.
  apply (derp_packet_arrives [EvRegister A []; EvRegister B [A]]
    (foldl (λ s e, apply_event e s) Relay_new [EvRegister A []; EvRegister B [A]]) 2
    {| conn_node := B; conn_out := {| queue := [present_frame A]; receiver_gone := false |} |} 1
    {| conn_node := A; conn_out := {| queue := [present_frame B]; receiver_gone := false |} |} [9]).
  - cbn [foldl]. eapply (relay_steps_snoc [_]); [|apply relay_step_register; by vm_compute].
    eapply (relay_steps_snoc []); [constructor|apply relay_step_register; by vm_compute].
  - done.
  - by repeat constructor.
  - by vm_compute.
  - by vm_compute.
  - done.
  - done.
  - done.
Defined.

(** ** The two halves of the login *)

(** The client's login and the relay's agree: reading what the relay writes,
    the client sends the one [ClientInfo] from which the relay registers it
    under its own key, accepts the [ServerInfo] it gets back, in a debug build
    too, and is left at the first byte behind it. *)
Theorem derp_login_agrees `{CryptoBox, InfoJson} debug server client verify cn sn k n ct json sct :
  array NONCE_LEN cn → array NONCE_LEN sn →
  (∀ v, verify = Some v → v (box_public client) = true) →
  make_client_info client (box_public server) cn client_payload = Ok (k, n, ct) →
  server_to_vec ServerInfoPayload_default = Some json →
  box_encrypt (box_public client) server sn json = Some sct →
  zlen ct ≤ MAX_FRAME_BODY_LEN - CLIENT_INFO_PREFIX_LEN →
  zlen sct ≤ MAX_FRAME_BODY_LEN - SERVER_INFO_PREFIX_LEN →
  ∃ out hello info, login server verify sn (λ _, true) [(ClientInfo, client_info_body k n ct)]
    = ([hello; info], Some (box_public client, []))
  ∧ write_all [hello; info] = Ok out
  ∧ ∀ r rest, live r → stream_of r = out ++ rest →
    ∃ r', connect_halves debug client cn true r
      = Some ({| client_node_key := box_public client; client_server_public := box_public server |},
              frame_bytes (ClientInfo, client_info_body k n ct), r')
    ∧ live r' ∧ stream_of r' = rest.
Proof.
  intros Hcn Hsn Hv Hmk Hjson Hsct Hct Hsl.
  destruct (login_complete server client verify cn sn (λ _, true) client_payload k n ct json sct [] []
    (λ _, eq_refl) Hcn Hsn ltac:(constructor) Hv Hmk Hjson Hsct) as (info & Hlogin & Hpre & Hopen & Hinfo).
  pose proof (make_client_info_opens _ _ _ _ _ _ _ Hmk) as (-> & -> & _).
  pose proof (box_public_len server) as Hlen. pose proof (box_public_len client) as Hlen'.
  set (hello := (ServerKey, ServerKeyBody_encode {| sk_key := box_public server |})) in *.
  assert (Hfh : fits hello).
  { unfold fits, hello, ServerKeyBody_encode. cbn [snd sk_key]. rewrite zlen_app, (proj2 Hlen). by vm_compute. }
  assert (Hfi : fits (ServerInfo, info)).
  { unfold fits. cbn [snd]. rewrite Hinfo, zlen_app. cbn [ServerInfoBody_encode_prefix si_nonce].
    rewrite (proj2 Hsn). unfold SERVER_INFO_PREFIX_LEN in *. lia. }
  assert (Hfc : fits (ClientInfo, client_info_body (box_public client) cn ct)).
  { unfold fits, client_info_body, ClientInfoBody_encode_prefix. cbn [snd ci_key ci_nonce].
    rewrite !zlen_app, (proj2 Hlen'), (proj2 Hcn). unfold CLIENT_INFO_PREFIX_LEN in *. lia. }
  eexists _, hello, (ServerInfo, info). split; [exact Hlogin|]. split; [by apply write_all_fits; repeat constructor|].
  intros r rest Hr Hs. cbn [map concat] in Hs. rewrite app_nil_r, <- !app_assoc in Hs.
  destruct (read_frame_bytes hello r _ Hfh Hr Hs) as (r1 & Hrd1 & Hr1 & Hs1).
  destruct (read_frame_bytes (ServerInfo, info) r1 rest Hfi Hr1 Hs1) as (r2 & Hrd2 & Hr2 & Hs2).
  exists r2. split; [|done].
  assert (Hkey : ServerKeyBody_decode (ServerKeyBody_encode {| sk_key := box_public server |})
                 = Ok {| sk_key := box_public server |}) by exact (fixed_roundtrip {| sk_key := box_public server |} Hlen).
  unfold connect_halves. rewrite Hrd1. unfold hello. rewrite bool_decide_eq_true_2, andb_false_r by done.
  rewrite Hkey. cbn [sk_key]. rewrite Hmk, (write_frame_fits _ Hfc), Hrd2. cbn [negb].
  rewrite bool_decide_eq_true_2, andb_false_r by done. rewrite Hpre. cbn [si_nonce]. rewrite Hopen.
  cbn [si_version]. by rewrite andb_false_r.
Qed.

Lemma derp_login_agrees_witness :
  let body := client_info_body (box_public (CryptoBox := demo_box) [5]) (zeros 24) [1; 0; 2] in
  ∃ out hello info, login (H := demo_box) (H0 := demo_json) [1] None (zeros 24) (λ _, true) [(ClientInfo, body)]
    = ([hello; info], Some (box_public (CryptoBox := demo_box) [5], []))
  ∧ write_all [hello; info] = Ok out
  ∧ ∀ r rest, live r → stream_of r = out ++ rest →
    ∃ r', connect_halves (H := demo_box) (H0 := demo_json) true [5] (zeros 24) true r
      = Some ({| client_node_key := box_public (CryptoBox := demo_box) [5];
                 client_server_public := box_public (CryptoBox := demo_box) [1] |},
              frame_bytes (ClientInfo, body), r')
    ∧ live r' ∧ stream_of r' = rest.
Proof.
  apply (derp_login_agrees (H := demo_box) (H0 := demo_json) true [1] [5] None (zeros 24) (zeros 24)
    (box_public (CryptoBox := demo_box) [5]) (zeros 24) [1; 0; 2] [2] [2]); try done.
  - split; [apply wf_bytes_zeros|done].
  - split; [apply wf_bytes_zeros|done].
Defined.

(** A ping of fewer than eight bytes makes the client panic; any longer one is
    answered with its first eight. *)
Lemma short_ping_panics r payload rest :
  zlen payload < PING_BODY_LEN → live r → stream_of r = frame_bytes (Ping, payload) ++ rest →
  ∃ r', recv_packet (λ _, true) r = (Panics, [], r').
Proof.
  intros Hp Hr Hs. assert (Hf : fits (Ping, payload)).
  { unfold fits. cbn [snd]. unfold PING_BODY_LEN, MAX_FRAME_BODY_LEN in *. lia. }
  destruct (read_frame_bytes _ r rest Hf Hr Hs) as (r' & Hrd & _). exists r'.
  apply (recv_done _ _ (Ping, payload)); [done|]. unfold recv_packet_turn, pong_of. cbn [fst snd].
  by destruct (Z.ltb_spec (zlen payload) PING_BODY_LEN); [|lia].
Qed.

Example short_ping_panics_witness :
  ∃ r', recv_packet (λ _, true) [Data [0x12; 0; 0; 0; 1; 7]] = (Panics, [], r').
Proof. by apply (short_ping_panics [Data [0x12; 0; 0; 0; 1; 7]] [7] []). Defined.

Example ping_answered :
  recv_packet (λ _, true) [Data [0x12; 0; 0; 0; 8; 1; 2; 3; 4; 5; 6]; Data [7; 8; 6; 0; 0; 0; 0]]
  = (Fails StreamEnded, [0x13; 0; 0; 0; 8; 1; 2; 3; 4; 5; 6; 7; 8], []).
Proof. by vm_compute. Qed.
