(* ===== verification/Net.v ===== *)
(** * IP addresses

    [std::net::IpAddr]: an IPv4 address is its 32-bit and an IPv6 address its
    128-bit integer, [octets] the big-endian bytes of either. *)

From S2P Require Import Prelude.

Inductive IpAddr : Type :=
| V4 (a : Z)
| V6 (a : Z).

#[global] Instance IpAddr_eq_dec : EqDecision IpAddr.
Proof. solve_decision. Defined.

#[global] Instance IpAddr_countable : Countable IpAddr.
Proof.
  refine (inj_countable'
    (λ a, match a with V4 x => inl x | V6 x => inr x end)
    (λ s, match s with inl x => V4 x | inr x => V6 x end) _).
  by intros [].
Defined.

Definition addr_bits (a : IpAddr) : Z := match a with V4 _ => 32 | V6 _ => 128 end.
Definition addr_bytes (a : IpAddr) : Z := match a with V4 _ => 4 | V6 _ => 16 end.
Definition addr_val (a : IpAddr) : Z := match a with V4 x | V6 x => x end.
Definition addr_wf (a : IpAddr) : Prop := 0 ≤ addr_val a < 2 ^ addr_bits a.

Definition octets (a : IpAddr) : bytes :=
  match a with V4 x => to_be 4 x | V6 x => to_be 16 x end.

(** ** Prefix masks *)

(** [uN::MAX << (N - len)] for [0 < len]: the shifted-out bits are lost. *)
Definition prefix_mask (bits len : Z) : Z := wrap bits (Z.shiftl (2 ^ bits - 1) (bits - len)).

Lemma prefix_mask_testbit bits len i :
  0 ≤ len ≤ bits → 0 ≤ i →
  Z.testbit (prefix_mask bits len) i = (bits - len <=? i) && (i <? bits).
Proof.
  intros Hl Hi. unfold prefix_mask, wrap. rewrite <- Z.land_ones by lia.
  replace (2 ^ bits - 1) with (Z.ones bits) by (rewrite Z.ones_equiv; lia).
  rewrite Z.land_spec, Z.shiftl_spec, (Z.testbit_ones_nonneg bits i) by lia.
  destruct (Z.leb_spec (bits - len) i) as [Hge|Hlt].
  - rewrite Z.testbit_ones_nonneg by lia. lia.
  - rewrite Z.testbit_neg_r by lia. done.
Qed.

(** Masking clears the host bits. *)
Lemma land_prefix_mask bits len x :
  0 ≤ len ≤ bits → 0 ≤ x < 2 ^ bits →
  Z.land x (prefix_mask bits len) = x / 2 ^ (bits - len) * 2 ^ (bits - len).
Proof.
  intros Hl Hx. rewrite <- Z.shiftr_div_pow2, <- Z.shiftl_mul_pow2 by lia.
  apply Z.bits_inj'. intros i Hi.
  rewrite Z.land_spec, prefix_mask_testbit, Z.shiftl_spec by lia.
  destruct (Z.leb_spec (bits - len) i) as [Hge|Hlt]; cbn [andb].
  - rewrite Z.shiftr_spec by lia. replace (i - (bits - len) + (bits - len)) with i by lia.
    destruct (Z.ltb_spec i bits) as [Hb|Hb]; [by rewrite andb_true_r|].
    rewrite andb_false_r. symmetry. destruct (Z.eq_dec x 0) as [->|Hnz]; [apply Z.testbit_0_l|].
    apply Z.bits_above_log2; [lia|]. apply Z.lt_le_trans with bits; [|done].
    apply Z.log2_lt_pow2; lia.
  - by rewrite andb_false_r, Z.testbit_neg_r by lia.
Qed.

(** The block of addresses that share the masked prefix of [x]. *)
Lemma prefix_block bits len x y :
  0 ≤ len ≤ bits → 0 ≤ x < 2 ^ bits → 0 ≤ y < 2 ^ bits →
  let net := Z.land x (prefix_mask bits len) in
  Z.land y (prefix_mask bits len) = net ↔ net ≤ y < net + 2 ^ (bits - len).
Proof.
  intros Hl Hx Hy. cbv zeta. rewrite !land_prefix_mask by done.
  set (B := 2 ^ (bits - len)). assert (HB : 0 < B) by (apply Z.pow_pos_nonneg; lia).
  pose proof (Z.div_mod y B ltac:(lia)) as Hd. pose proof (Z.mod_pos_bound y B HB).
  split; intros H1.
  - rewrite <- H1. lia.
  - f_equal. symmetry. apply (Z.div_unique y B _ (y - x / B * B)); lia.
Qed.

Lemma prefix_net_range bits len x :
  0 ≤ len ≤ bits → 0 ≤ x < 2 ^ bits →
  let net := Z.land x (prefix_mask bits len) in
  0 ≤ net ∧ net + 2 ^ (bits - len) ≤ 2 ^ bits.
Proof.
  intros Hl Hx. cbv zeta. rewrite land_prefix_mask by done.
  set (B := 2 ^ (bits - len)). assert (HB : 0 < B) by (apply Z.pow_pos_nonneg; lia).
  assert (HP : 2 ^ bits = 2 ^ len * B) by (unfold B; rewrite <- Z.pow_add_r by lia; f_equal; lia).
  assert (0 < 2 ^ len) by (apply Z.pow_pos_nonneg; lia).
  assert (0 ≤ x / B < 2 ^ len) by (split; [apply Z.div_pos|apply Z.div_lt_upper_bound]; lia).
  rewrite HP. nia.
Qed.
