(* ===== verification/Stun.v ===== *)
(** * STUN Binding messages ([crabscale-derp/src/stun.rs]) *)

From S2P Require Import Prelude Net.

Definition HEADER_LEN : Z := 20.
Definition TXID_LEN : Z := 12.
Definition MAGIC_COOKIE : Z := 0x2112A442.
Definition TYPE_BINDING_REQUEST : Z := 0x0001.
Definition TYPE_BINDING_RESPONSE : Z := 0x0101.
Definition ATTR_XOR_MAPPED_ADDRESS : Z := 0x0020.
Definition FAMILY_IPV4 : Z := 0x01.
Definition FAMILY_IPV6 : Z := 0x02.

Inductive StunError : Type :=
| StunTruncated
| NotStun
| NotBinding
| MalformedAttributes
| MissingXorMappedAddress
| UnsupportedFamily (family : Z).

Definition parse_header (packet : bytes) : result (Z * Z * Z * bytes) StunError :=
  fail_if zlen packet <? HEADER_LEN with StunTruncated ;;
  let msg_type := from_be (slice 0 2 packet) in
  let length := from_be (slice 2 4 packet) in
  let cookie := from_be (slice 4 8 packet) in
  fail_if negb (cookie =? MAGIC_COOKIE) with NotStun ;;
  Ok (msg_type, length, cookie, slice 8 20 packet).

Definition parse_binding_request (packet : bytes) : result bytes StunError :=
  let? (msg_type, length, _, tx) := parse_header packet in
  fail_if negb (msg_type =? TYPE_BINDING_REQUEST) with NotBinding ;;
  fail_if zlen packet <? HEADER_LEN + length with MalformedAttributes ;;
  Ok tx.

Record Attribute : Type := { attr_ty : Z; attr_value : bytes }.

(** The loop of [attributes]: every turn that goes on takes at least the four
    header bytes, so the area's length bounds the turns; [None] is the
    [Err(())] item that ends it. *)
Fixpoint attributes_loop (fuel : nat) (area : bytes) : list (option Attribute) :=
  match fuel with
  | O => []
  | S fuel =>
      match area with
      | [] => []
      | _ :: _ =>
          if zlen area <? 4 then [None]
          else
            let ty := from_be (slice 0 2 area) in
            let len := from_be (slice 2 4 area) in
            let padded := Z.land (len + 3) (Z.lnot 3) in
            if zlen area <? 4 + padded then [None]
            else
              Some {| attr_ty := ty; attr_value := slice 4 (4 + len) area |}
              :: attributes_loop fuel (zdrop (4 + padded) area)
      end
  end.

Definition attributes (area : bytes) : list (option Attribute) :=
  attributes_loop (length area) area.

(** The mask of an [XOR-MAPPED-ADDRESS]: the cookie, then the transaction id. *)
Definition xor_mask (tx : bytes) : bytes := to_be 4 MAGIC_COOKIE ++ tx.

Definition decode_xor_mapped_address (value tx : bytes) : result (IpAddr * Z) StunError :=
  fail_if zlen value <? 4 with MalformedAttributes ;;
  let family := byte_at value 1 in
  let x_port := from_be (slice 2 4 value) in
  let port := Z.lxor x_port (wrap 16 MAGIC_COOKIE) in
  if family =? FAMILY_IPV4 then
    fail_if zlen value <? 8 with MalformedAttributes ;;
    Ok (V4 (from_be (zip_with Z.lxor (slice 4 8 value) (xor_mask tx))), port)
  else if family =? FAMILY_IPV6 then
    fail_if zlen value <? 20 with MalformedAttributes ;;
    Ok (V6 (from_be (zip_with Z.lxor (slice 4 20 value) (xor_mask tx))), port)
  else Err (UnsupportedFamily family).

Definition encode_xor_mapped_address (addr : IpAddr) (port : Z) (tx : bytes) : bytes :=
  [0; match addr with V4 _ => FAMILY_IPV4 | V6 _ => FAMILY_IPV6 end]
  ++ to_be 2 (Z.lxor port (wrap 16 MAGIC_COOKIE))
  ++ zip_with Z.lxor (octets addr) (xor_mask tx).

(** The search of [parse_binding_response] through the attributes. *)
Fixpoint find_mapped (attrs : list (option Attribute)) (tx : bytes)
    : result (bytes * IpAddr * Z) StunError :=
  match attrs with
  | [] => Err MissingXorMappedAddress
  | None :: _ => Err MalformedAttributes
  | Some attr :: rest =>
      if attr.(attr_ty) =? ATTR_XOR_MAPPED_ADDRESS then
        let? (addr, port) := decode_xor_mapped_address attr.(attr_value) tx in
        Ok (tx, addr, port)
      else find_mapped rest tx
  end.

Definition parse_binding_response (packet : bytes) : result (bytes * IpAddr * Z) StunError :=
  let? (msg_type, length, _, tx) := parse_header packet in
  fail_if negb (msg_type =? TYPE_BINDING_RESPONSE) with NotBinding ;;
  fail_if zlen packet <? HEADER_LEN + length with MalformedAttributes ;;
  find_mapped (attributes (slice HEADER_LEN (HEADER_LEN + length) packet)) tx.

Definition build_binding_response (tx : bytes) (addr : IpAddr) (port : Z) : bytes :=
  let value := encode_xor_mapped_address addr port tx in
  let attr_area := 4 + zlen value in
  to_be 2 TYPE_BINDING_RESPONSE ++ to_be 2 (wrap 16 attr_area) ++ to_be 4 MAGIC_COOKIE ++ tx
  ++ to_be 2 ATTR_XOR_MAPPED_ADDRESS ++ to_be 2 (wrap 16 (zlen value)) ++ value.

(** ** Lemmas *)

Lemma zip_lxor_twice (l m : bytes) :
  (length l ≤ length m)%nat → zip_with Z.lxor (zip_with Z.lxor l m) m = l.
Proof.
  revert m. induction l as [|a l IH]; intros [|b m] Hl; cbn in *; try done; [lia|].
  by rewrite lxor_twice, IH by lia.
Qed.

Lemma lxor_range n a b :
  0 ≤ n → 0 ≤ a < 2 ^ n → 0 ≤ b < 2 ^ n → 0 ≤ Z.lxor a b < 2 ^ n.
Proof.
  intros Hn Ha Hb. assert (0 ≤ Z.lxor a b) by (apply Z.lxor_nonneg; lia).
  split; [done|]. destruct (Z.eq_dec (Z.lxor a b) 0) as [->|Hz]; [lia|].
  apply Z.log2_lt_pow2; [lia|].
  assert (Hlog : ∀ x, 0 ≤ x < 2 ^ n → Z.log2 x < n ∨ x = 0).
  { intros x Hx. destruct (Z.eq_dec x 0); [by right|left]. apply Z.log2_lt_pow2; lia. }
  pose proof (Z.log2_lxor a b ltac:(lia) ltac:(lia)).
  destruct (Hlog a Ha) as [| ->], (Hlog b Hb) as [| ->];
    rewrite ?Z.lxor_0_l, ?Z.lxor_0_r in *; [lia|lia|lia|done].
Qed.

Lemma zlen_octets a : zlen (octets a) = addr_bytes a.
Proof. by destruct a; cbn [octets]; rewrite zlen_to_be. Qed.

Lemma zlen_xor_mask tx : zlen tx = TXID_LEN → zlen (xor_mask tx) = 16.
Proof. intros Ht. unfold xor_mask. by rewrite zlen_app, zlen_to_be, Ht. Qed.

Lemma octets_le_mask a tx :
  zlen tx = TXID_LEN → (length (octets a) ≤ length (xor_mask tx))%nat.
Proof.
  intros Ht%zlen_xor_mask. pose proof (zlen_octets a). unfold zlen in *. destruct a; cbn in *; lia.
Qed.

Lemma zlen_masked a tx :
  zlen tx = TXID_LEN → zlen (zip_with Z.lxor (octets a) (xor_mask tx)) = addr_bytes a.
Proof.
  intros Ht. rewrite <- zlen_octets. unfold zlen. f_equal.
  rewrite length_zip_with. pose proof (octets_le_mask a tx Ht). lia.
Qed.

Lemma zlen_encode_xor a port tx :
  zlen tx = TXID_LEN → zlen (encode_xor_mapped_address a port tx) = 4 + addr_bytes a.
Proof.
  intros Ht. unfold encode_xor_mapped_address. rewrite !zlen_app, zlen_masked, zlen_to_be by done.
  rewrite !zlen_cons, zlen_nil. lia.
Qed.

(** The attribute round trip: the address and port come back for either family,
    whatever padding or data follows the value. *)
Lemma decode_encode_xor a port tx tail :
  zlen tx = TXID_LEN → addr_wf a → 0 ≤ port < 2 ^ 16 →
  decode_xor_mapped_address (encode_xor_mapped_address a port tx ++ tail) tx = Ok (a, port).
Proof.
  intros Ht Ha Hp. unfold decode_xor_mapped_address.
  rewrite zlen_app, zlen_encode_xor by done. pose proof (zlen_nonneg tail).
  assert (Hport : from_be (slice 2 4 (encode_xor_mapped_address a port tx ++ tail))
                  = Z.lxor port (wrap 16 MAGIC_COOKIE)).
  { unfold encode_xor_mapped_address. rewrite <- !app_assoc.
    rewrite slice_app_mid by (by rewrite ?zlen_to_be). apply from_to_be_small.
    apply (lxor_range 16); [lia..|by vm_compute]. }
  assert (Haddr : ∀ n, n = addr_bytes a →
    slice 4 (4 + n) (encode_xor_mapped_address a port tx ++ tail)
    = zip_with Z.lxor (octets a) (xor_mask tx)).
  { intros n ->. unfold encode_xor_mapped_address. rewrite <- !app_assoc, (app_assoc [_; _]).
    rewrite slice_app_mid; [done| |].
    - by rewrite zlen_app, zlen_to_be.
    - rewrite zlen_masked by done. lia. }
  rewrite Hport, lxor_twice.
  destruct a as [x|x]; cbn [addr_bytes] in *; unfold addr_wf in Ha; cbn in Ha.
  - change (byte_at _ 1) with FAMILY_IPV4. pass_guard. cbn [FAMILY_IPV4 Z.eqb Pos.eqb].
    pass_guard. change 8 with (4 + 4). rewrite (Haddr 4 eq_refl), zip_lxor_twice by (by apply octets_le_mask).
    cbn [octets]. by rewrite from_to_be_small.
  - change (byte_at _ 1) with FAMILY_IPV6. pass_guard. cbn [FAMILY_IPV4 FAMILY_IPV6 Z.eqb Pos.eqb].
    pass_guard. change 20 with (4 + 16). rewrite (Haddr 16 eq_refl), zip_lxor_twice by (by apply octets_le_mask).
    cbn [octets]. by rewrite from_to_be_small.
Qed.

(** A header followed by an attribute area. *)
Definition stun_message (msg_type : Z) (tx area : bytes) : bytes :=
  to_be 2 msg_type ++ to_be 2 (zlen area) ++ to_be 4 MAGIC_COOKIE ++ tx ++ area.

Lemma parse_header_message ty tx area :
  zlen tx = TXID_LEN → 0 ≤ ty < 2 ^ 16 → zlen area < 2 ^ 16 →
  parse_header (stun_message ty tx area) = Ok (ty, zlen area, MAGIC_COOKIE, tx).
Proof.
  intros Ht Hty Ha. pose proof (zlen_nonneg area). unfold parse_header, stun_message.
  rewrite !zlen_app, !zlen_to_be, Ht. unfold HEADER_LEN, TXID_LEN in *. case_match; [lia|].
  rewrite slice_app_l by apply zlen_to_be. rewrite from_to_be_small by done.
  rewrite (slice_app_mid 2 4) by (by rewrite zlen_to_be).
  rewrite from_to_be_small by (cbn; lia).
  rewrite (app_assoc (to_be 2 ty)), (slice_app_mid 4 8) by (by rewrite ?zlen_app, !zlen_to_be).
  rewrite (app_assoc (to_be 2 ty ++ _)), (slice_app_mid 8 20) by (rewrite ?zlen_app, ?zlen_to_be; lia).
  done.
Qed.

Lemma zlen_stun_message ty tx area :
  zlen tx = TXID_LEN → zlen (stun_message ty tx area) = HEADER_LEN + zlen area.
Proof.
  intros Ht. unfold stun_message. rewrite !zlen_app, !zlen_to_be, Ht. unfold HEADER_LEN, TXID_LEN. lia.
Qed.

Lemma stun_message_area ty tx area :
  zlen tx = TXID_LEN →
  slice HEADER_LEN (HEADER_LEN + zlen area) (stun_message ty tx area) = area.
Proof.
  intros Ht. rewrite slice_zdrop by (rewrite zlen_stun_message by done; lia).
  unfold stun_message. rewrite !app_assoc. apply zdrop_app.
  by rewrite !zlen_app, !zlen_to_be, Ht.
Qed.

(** One well-formed attribute, padded, in front of an area. *)
Definition attr_bytes (ty : Z) (value pad : bytes) : bytes :=
  to_be 2 ty ++ to_be 2 (zlen value) ++ value ++ pad.

Lemma pad4 n : 0 ≤ n → Z.land (n + 3) (Z.lnot 3) = 4 * ((n + 3) / 4).
Proof.
  intros Hn. change 3 with (Z.ones 2) at 2. rewrite <- Z.ldiff_land, Z.ldiff_ones_r by lia.
  rewrite Z.shiftr_div_pow2, Z.shiftl_mul_pow2 by lia. change (2 ^ 2) with 4. lia.
Qed.

Lemma attributes_loop_cons fuel ty value pad rest :
  0 ≤ ty < 2 ^ 16 → zlen value < 2 ^ 16 → zlen value + zlen pad = 4 * ((zlen value + 3) / 4) →
  attributes_loop (S fuel) (attr_bytes ty value pad ++ rest)
  = Some {| attr_ty := ty; attr_value := value |} :: attributes_loop fuel rest.
Proof.
  intros Hty Hv Hp. pose proof (zlen_nonneg value). pose proof (zlen_nonneg pad).
  pose proof (zlen_nonneg rest).
  set (area := attr_bytes ty value pad ++ rest).
  assert (Hl : zlen area = 4 + zlen value + zlen pad + zlen rest).
  { unfold area, attr_bytes. rewrite !zlen_app, !zlen_to_be. lia. }
  assert (Hty' : from_be (slice 0 2 area) = ty).
  { unfold area, attr_bytes. rewrite <- !app_assoc, slice_app_l by apply zlen_to_be.
    by apply from_to_be_small. }
  assert (Hlen : from_be (slice 2 4 area) = zlen value).
  { unfold area, attr_bytes. rewrite <- !app_assoc, slice_app_mid by (by rewrite zlen_to_be).
    apply from_to_be_small. cbn. lia. }
  cbn [attributes_loop]. destruct area as [|x area'] eqn:Ha; [rewrite zlen_nil in Hl; lia|].
  rewrite <- Ha in *. rewrite Hl, Hty', Hlen, pad4 by lia.
  case_match; [lia|]. case_match; [lia|]. unfold area, attr_bytes. f_equal.
  - do 2 f_equal. rewrite <- !app_assoc, (app_assoc (to_be 2 ty)).
    apply slice_app_mid; [by rewrite zlen_app, !zlen_to_be|lia].
  - f_equal. apply zdrop_app. rewrite !zlen_app, !zlen_to_be. lia.
Qed.

(** A relay's answer, read by any client, names the transaction of the request
    and the client's own observed address and port, for both address families. *)
Theorem stun_response_roundtrip tx addr port :
  zlen tx = TXID_LEN → addr_wf addr → 0 ≤ port < 2 ^ 16 →
  parse_binding_response (build_binding_response tx addr port) = Ok (tx, addr, port).
Proof.
  intros Ht Ha Hp. set (value := encode_xor_mapped_address addr port tx).
  assert (Hv : zlen value = 4 + addr_bytes addr) by (by apply zlen_encode_xor).
  assert (Hb : build_binding_response tx addr port
               = stun_message TYPE_BINDING_RESPONSE tx (attr_bytes ATTR_XOR_MAPPED_ADDRESS value [])).
  { unfold build_binding_response, stun_message, attr_bytes, wrap. fold value.
    rewrite app_nil_r, !zlen_app, !zlen_to_be, Hv. by destruct addr. }
  assert (Harea : zlen (attr_bytes ATTR_XOR_MAPPED_ADDRESS value []) = 8 + addr_bytes addr).
  { unfold attr_bytes. rewrite !zlen_app, !zlen_to_be, Hv, zlen_nil. lia. }
  unfold parse_binding_response. rewrite Hb, parse_header_message by (try done; rewrite Harea; by destruct addr).
  cbn [rbind]. rewrite Z.eqb_refl, zlen_stun_message, Z.ltb_irrefl, stun_message_area by done.
  unfold attributes. destruct (length (attr_bytes _ _ _)) as [|n] eqn:Hn.
  { exfalso. unfold zlen in Harea. rewrite Hn in Harea. by destruct addr. }
  rewrite <- (app_nil_r (attr_bytes _ _ _)), attributes_loop_cons.
  - cbn [find_mapped attr_ty attr_value]. rewrite Z.eqb_refl, <- (app_nil_r value).
    unfold value. by rewrite decode_encode_xor.
  - done.
  - rewrite Hv. by destruct addr.
  - rewrite Hv, zlen_nil. by destruct addr.
Qed.

Lemma stun_response_roundtrip_witness :
  parse_binding_response (build_binding_response (zeros 12) (V4 0xCB007105) 41641)
  = Ok (zeros 12, V4 0xCB007105, 41641).
Proof. apply stun_response_roundtrip; by vm_compute. Defined.

(** The relay's own parser accepts every Binding request, with any attributes,
    and returns its transaction id; nothing that is not one gets an answer. *)
Lemma parse_binding_request_message ty tx area :
  zlen tx = TXID_LEN → 0 ≤ ty < 2 ^ 16 → zlen area < 2 ^ 16 →
  parse_binding_request (stun_message ty tx area)
  = if ty =? TYPE_BINDING_REQUEST then Ok tx else Err NotBinding.
Proof.
  intros Ht Hty Ha. unfold parse_binding_request. rewrite parse_header_message by done.
  cbn [rbind]. destruct (ty =? _); [|done]. cbn [negb].
  by rewrite zlen_stun_message, Z.ltb_irrefl.
Qed.
