(* ===== verification/TransportRecord.v ===== *)
(** * TS2021 handshake messages and Noise records
    ([crabscale-transport/src/messages.rs], [crabscale-transport/src/error.rs],
    [crabscale-transport/src/record.rs])

    ChaCha20-Poly1305 is the parameter [Aead]: a detached encryption that keeps
    the length and a decryption that undoes it under the same key and nonce.
    The record decoder is an instance of [StreamDecoder]. *)

From S2P Require Import Prelude StreamDecoder.

Inductive TransportError : Type :=
| InvalidInitMessage
| InvalidResponseMessage
| InvalidRecord
| UnsupportedCapabilityVersion (v : Z)
| UnexpectedMessageType (t : Z)
| TOversized
| TTruncated
| HandshakeFailed
| EarlyPayloadTooLarge
| InvalidEarlyPayload
| InvalidUpgradeRequest
| UnsupportedSubprotocol
| Http2
| BodyTooLarge.

Definition INIT_MESSAGE_LEN : Z := 101.
Definition RESPONSE_MESSAGE_LEN : Z := 51.
Definition MAX_RECORD_FRAME_SIZE : Z := 4096.
Definition RECORD_HEADER_LEN : Z := 3.
Definition AEAD_TAG_LEN : Z := 16.
Definition MAX_RECORD_PLAINTEXT : Z := MAX_RECORD_FRAME_SIZE - RECORD_HEADER_LEN - AEAD_TAG_LEN.
Definition MAX_EARLY_PAYLOAD_LEN : Z := 1024 * 1024.
Definition MSG_TYPE_INIT : Z := 0x01.
Definition MSG_TYPE_RESPONSE : Z := 0x02.
Definition MSG_TYPE_ERROR : Z := 0x03.
Definition MSG_TYPE_RECORD : Z := 0x04.

(** ** Handshake messages *)

Record InitMessage : Type := {
  init_version : Z;
  client_ephemeral : bytes;
  client_static_ciphertext : bytes;
  payload_tag : bytes }.

Record ResponseMessage : Type := { server_ephemeral : bytes; auth_tag : bytes }.

Definition parse_init_message (buf : bytes) : result InitMessage TransportError :=
  fail_if negb (zlen buf =? INIT_MESSAGE_LEN) with InvalidInitMessage ;;
  fail_if negb (byte_at buf 2 =? MSG_TYPE_INIT) with UnexpectedMessageType (byte_at buf 2) ;;
  let payload_len := from_be (slice 3 5 buf) in
  fail_if negb (payload_len =? 96) with InvalidInitMessage ;;
  Ok {| init_version := from_be (slice 0 2 buf);
        client_ephemeral := slice 5 37 buf;
        client_static_ciphertext := slice 37 85 buf;
        payload_tag := slice 85 101 buf |}.

Definition write_response_message (server_ephemeral auth_tag : bytes) : bytes :=
  [MSG_TYPE_RESPONSE] ++ to_be 2 48 ++ server_ephemeral ++ auth_tag.

Definition parse_response_message (buf : bytes) : result ResponseMessage TransportError :=
  fail_if negb (zlen buf =? RESPONSE_MESSAGE_LEN) with InvalidResponseMessage ;;
  fail_if negb (byte_at buf 0 =? MSG_TYPE_RESPONSE) with UnexpectedMessageType (byte_at buf 0) ;;
  let payload_len := from_be (slice 1 3 buf) in
  fail_if negb (payload_len =? 48) with InvalidResponseMessage ;;
  Ok {| server_ephemeral := slice 3 35 buf; auth_tag := slice 35 51 buf |}.

Lemma response_message_roundtrip e t :
  zlen e = 32 → zlen t = AEAD_TAG_LEN →
  parse_response_message (write_response_message e t) = Ok {| server_ephemeral := e; auth_tag := t |}.
Proof.
  intros He Ht. unfold parse_response_message, write_response_message.
  change ([MSG_TYPE_RESPONSE] ++ to_be 2 48 ++ e ++ t) with ([2; 0; 48] ++ e ++ t).
  assert (Hl : zlen ([2; 0; 48] ++ e ++ t) = 51) by (rewrite !zlen_app, He, Ht; done).
  rewrite Hl. cbn [Z.eqb Pos.eqb negb]. do 2 f_equal; [by apply slice_app_mid|].
  rewrite slice_zdrop by lia. rewrite app_assoc. apply zdrop_app. by rewrite zlen_app, He.
Qed.

(** ** Records *)

Class Aead : Type := {
  (** [encrypt_in_place_detached]: ciphertext and tag *)
  aead_encrypt : bytes → bytes → bytes → bytes * bytes;
  (** [decrypt_in_place_detached] *)
  aead_decrypt : bytes → bytes → bytes → bytes → option bytes;
  aead_ct_len k n pt : zlen (aead_encrypt k n pt).1 = zlen pt;
  aead_tag_len k n pt : zlen (aead_encrypt k n pt).2 = AEAD_TAG_LEN;
  aead_correct k n pt :
    aead_decrypt k n (aead_encrypt k n pt).1 (aead_encrypt k n pt).2 = Some pt;
}.

Record RecordCipher : Type := { rc_key : bytes; rc_nonce : Z }.

Definition RecordCipher_new (key : bytes) : RecordCipher := {| rc_key := key; rc_nonce := 0 |}.

Definition u64_max : Z := 2 ^ 64 - 1.

(** A call ends in an error value or in a panic. *)
Inductive fault : Type :=
| Failed (e : TransportError)
| Panicked.

(** [next_nonce]: the 12-byte nonce and the advanced counter; [None] is the
    [assert_ne!] panic. *)
Definition nonce_bytes (n : Z) : bytes := zeros 4 ++ to_be 8 n.

Definition next_nonce (c : RecordCipher) : option (RecordCipher * bytes) :=
  if c.(rc_nonce) =? u64_max then None
  else Some ({| rc_key := c.(rc_key); rc_nonce := c.(rc_nonce) + 1 |}, nonce_bytes c.(rc_nonce)).

(** [slice::chunks(n)] *)
Fixpoint chunks_loop (fuel : nat) (n : Z) (l : bytes) : list bytes :=
  match fuel with
  | O => []
  | S fuel =>
      match l with
      | [] => []
      | _ :: _ => ztake n l :: chunks_loop fuel n (zdrop n l)
      end
  end.

Definition chunks (n : Z) (l : bytes) : list bytes := chunks_loop (length l) n l.

Section records.
  Context `{Aead}.

(** The body of the loop of [encode]: one record frame. *)
Definition encode_record (c : RecordCipher) (chunk : bytes) : option (RecordCipher * bytes) :=
  '(c', nonce) ← next_nonce c;
  let '(body, tag) := aead_encrypt c.(rc_key) nonce chunk in
  Some (c', [MSG_TYPE_RECORD] ++ to_be 2 (wrap 16 (zlen body + AEAD_TAG_LEN)) ++ body ++ tag).

Fixpoint encode_chunks (c : RecordCipher) (cs : list bytes) : option (RecordCipher * bytes) :=
  match cs with
  | [] => Some (c, [])
  | chunk :: cs =>
      '(c1, frame) ← encode_record c chunk;
      '(c2, frames) ← encode_chunks c1 cs;
      Some (c2, frame ++ frames)
  end.

(** [RecordCipher::encode]; [None] is the nonce panic. *)
Definition RecordCipher_encode (c : RecordCipher) (plaintext : bytes)
    : option (RecordCipher * bytes) :=
  encode_chunks c (chunks MAX_RECORD_PLAINTEXT plaintext).

(** [RecordCipher::decode_one]: a failed decryption has advanced the counter. *)
Definition decode_one (c : RecordCipher) (buf : bytes) : step_result RecordCipher bytes fault :=
  if zlen buf <? RECORD_HEADER_LEN then NeedMore
  else
    let msg_type := byte_at buf 0 in
    let len := from_be (slice 1 3 buf) in
    let total := RECORD_HEADER_LEN + len in
    if MAX_RECORD_FRAME_SIZE <? total then Reject c (Failed TOversized)
    else if zlen buf <? total then NeedMore
    else if msg_type =? MSG_TYPE_RECORD then
      if len <? AEAD_TAG_LEN then Reject c (Failed InvalidRecord)
      else
        let body := slice RECORD_HEADER_LEN total buf in
        let ct := ztake (zlen body - AEAD_TAG_LEN) body in
        let tag := zdrop (zlen body - AEAD_TAG_LEN) body in
        match next_nonce c with
        | None => Reject c Panicked
        | Some (c', nonce) =>
            match aead_decrypt c.(rc_key) nonce ct tag with
            | None => Reject c' (Failed HandshakeFailed)
            | Some pt => Produce c' pt total
            end
        end
    else if msg_type =? MSG_TYPE_ERROR then Reject c (Failed HandshakeFailed)
    else Reject c (Failed (UnexpectedMessageType msg_type)).

Lemma decode_one_consumes c buf c' a n :
  decode_one c buf = Produce c' a n → 0 < n ≤ zlen buf.
Proof.
  unfold decode_one, RECORD_HEADER_LEN. pose proof (from_be_range (slice 1 3 buf)).
  destruct (zlen buf <? 3); [done|]. destruct (_ <? 3 + _); [done|].
  destruct (Z.ltb_spec (zlen buf) (3 + from_be (slice 1 3 buf))); [done|].
  destruct (_ =? MSG_TYPE_RECORD); [|by destruct (_ =? MSG_TYPE_ERROR)].
  destruct (_ <? AEAD_TAG_LEN); [done|]. destruct (next_nonce c) as [[]|]; [|done].
  destruct (aead_decrypt _ _ _ _); [|done]. intros [= <- <- <-]. lia.
Qed.

Lemma decode_one_app c buf more :
  decode_one c buf ≠ NeedMore → decode_one c (buf ++ more) = decode_one c buf.
Proof.
  unfold decode_one, RECORD_HEADER_LEN. pose proof (zlen_nonneg more). rewrite zlen_app.
  pose proof (from_be_range (slice 1 3 buf)).
  destruct (Z.ltb_spec (zlen buf) 3); [done|].
  destruct (Z.ltb_spec (zlen buf + zlen more) 3); [lia|].
  assert (Hs : ∀ a b, 0 ≤ a → a ≤ b → b ≤ zlen buf → slice a b (buf ++ more) = slice a b buf).
  { intros a b ? ? ?. unfold slice, ztake, zdrop, zlen in *.
    rewrite drop_app_le, take_app_le by (rewrite ?length_drop; lia). done. }
  rewrite byte_at_app, (Hs 1 3) by lia. set (len := from_be (slice 1 3 buf)) in *.
  destruct (MAX_RECORD_FRAME_SIZE <? 3 + len); [done|].
  destruct (Z.ltb_spec (zlen buf) (3 + len)); [done|]. intros _.
  destruct (Z.ltb_spec (zlen buf + zlen more) (3 + len)); [lia|].
  by rewrite (Hs 3 (3 + len)) by lia.
Qed.

#[global] Program Instance RecordDecoder : StreamDecoder RecordCipher bytes fault :=
  {| decode1 := decode_one |}.
Next Obligation. apply decode_one_consumes. Qed.
Next Obligation. intros * Hd. by rewrite decode_one_app, Hd by (by rewrite Hd). Qed.
Next Obligation. intros * Hd. by rewrite decode_one_app, Hd by (by rewrite Hd). Qed.

(** [RecordDecoder::feed]: the plaintexts are appended to one vector. *)
Definition RecordDecoder_feed (st : RecordCipher * bytes) (data : bytes)
    : (RecordCipher * bytes) * result bytes fault :=
  let '(st', r) := feed (SD := RecordDecoder) st data in (st', rmap (@concat Z) r).

(** *** Lemmas *)

Lemma chunks_loop_spec fuel n l :
  0 < n → (length l ≤ fuel)%nat →
  concat (chunks_loop fuel n l) = l
  ∧ Forall (λ c, 0 < zlen c ≤ n) (chunks_loop fuel n l).
Proof.
  intros Hn. revert l. induction fuel as [|fuel IH]; intros l Hl.
  { destruct l; [done|cbn in Hl; lia]. }
  destruct l as [|x l]; [done|]. cbn [chunks_loop concat]. set (k := x :: l) in *.
  assert (Hk : 0 < zlen k) by (unfold k; rewrite zlen_cons; pose proof (zlen_nonneg l); lia).
  destruct (IH (zdrop n k)) as [IHc IHf].
  { unfold zdrop, zlen in *. rewrite length_drop. lia. }
  rewrite IHc, ztake_zdrop. split; [done|]. constructor; [|done].
  unfold ztake, zlen in *. rewrite length_take. lia.
Qed.

Lemma chunks_spec n l :
  0 < n → concat (chunks n l) = l ∧ Forall (λ c, 0 < zlen c ≤ n) (chunks n l).
Proof. intros. by apply chunks_loop_spec. Qed.

(** One record: what the encoder writes for a chunk, the decoder in the same
    state reads back, whatever follows, and both end in the same state. *)
Lemma decode_encode_record c chunk c' frame rest :
  zlen chunk ≤ MAX_RECORD_PLAINTEXT → encode_record c chunk = Some (c', frame) →
  decode_one c (frame ++ rest) = Produce c' chunk (zlen frame)
  ∧ zlen frame = RECORD_HEADER_LEN + zlen chunk + AEAD_TAG_LEN.
Proof.
  intros Hc. unfold encode_record.
  destruct (next_nonce c) as [[c1 nonce]|] eqn:Hn; [|done]. cbn [mbind option_bind].
  pose proof (aead_ct_len (rc_key c) nonce chunk) as Hct.
  pose proof (aead_tag_len (rc_key c) nonce chunk) as Htag.
  pose proof (aead_correct (rc_key c) nonce chunk) as Hdec.
  destruct (aead_encrypt (rc_key c) nonce chunk) as [body tag]. cbn [fst snd] in *.
  intros Hs. assert (c1 = c') as <- by congruence.
  assert (Hfr : frame = [MSG_TYPE_RECORD] ++ to_be 2 (wrap 16 (zlen body + AEAD_TAG_LEN)) ++ body ++ tag)
    by congruence.
  clear Hs. pose proof (zlen_nonneg chunk). pose proof (zlen_nonneg rest).
  unfold MAX_RECORD_PLAINTEXT, MAX_RECORD_FRAME_SIZE, RECORD_HEADER_LEN, AEAD_TAG_LEN in *.
  remember (zlen body + 16) as L eqn:EL. assert (HL : wrap 16 L = L) by (apply Z.mod_small; lia).
  rewrite HL in Hfr.
  assert (Hf : zlen frame = 3 + L).
  { rewrite Hfr. rewrite !zlen_app, zlen_to_be, Htag, zlen_cons, zlen_nil. lia. }
  split; [|lia].
  unfold decode_one, MAX_RECORD_FRAME_SIZE, RECORD_HEADER_LEN, AEAD_TAG_LEN.
  assert (Hlen : from_be (slice 1 3 (frame ++ rest)) = L).
  { rewrite Hfr. rewrite <- !app_assoc, slice_app_mid by (by rewrite ?zlen_to_be).
    apply from_to_be_small. cbn. lia. }
  assert (Hty : byte_at (frame ++ rest) 0 = MSG_TYPE_RECORD) by (by rewrite Hfr).
  rewrite Hlen, zlen_app, Hf, Hty, Z.eqb_refl.
  assert (Hbody : slice 3 (3 + L) (frame ++ rest) = body ++ tag).
  { rewrite Hfr. rewrite <- !app_assoc, (app_assoc [_]), (app_assoc body).
    apply slice_app_mid; [by rewrite zlen_app, zlen_to_be|rewrite zlen_app; lia]. }
  repeat pass_guard. rewrite Hbody, zlen_app, Htag, Hn.
  replace (zlen body + 16 - 16) with (zlen body) by lia.
  by rewrite ztake_app, zdrop_app, Hdec.
Qed.

Lemma encode_chunks_encodes c cs c' frames :
  Forall (λ x, 0 < zlen x ≤ MAX_RECORD_PLAINTEXT) cs →
  encode_chunks c cs = Some (c', frames) → encodes (SD := RecordDecoder) c cs frames c'.
Proof.
  intros Hcs. revert c c' frames. induction Hcs as [|x cs Hx _ IH]; intros c c' frames; cbn.
  { intros [= <- <-]. constructor. }
  intros ([c1 f] & Hf & Hb)%bind_Some. apply bind_Some in Hb as ([c2 fs] & Hfs & [= <- <-]).
  econstructor; [|by eapply IH]. intros rest. cbn.
  by apply (decode_encode_record c x c1 f rest); [lia|].
Qed.

Lemma RecordCipher_encode_encodes c pt c' frames :
  RecordCipher_encode c pt = Some (c', frames) →
  encodes (SD := RecordDecoder) c (chunks MAX_RECORD_PLAINTEXT pt) frames c'.
Proof. apply encode_chunks_encodes. by apply chunks_spec. Qed.

(** Several writes with one cipher. *)
Fixpoint encode_all (c : RecordCipher) (ws : list bytes) : option (RecordCipher * bytes) :=
  match ws with
  | [] => Some (c, [])
  | w :: ws =>
      '(c1, f) ← RecordCipher_encode c w; '(c2, fs) ← encode_all c1 ws; Some (c2, f ++ fs)
  end.

Lemma encode_all_encodes c ws c' frames :
  encode_all c ws = Some (c', frames) →
  ∃ l, encodes (SD := RecordDecoder) c l frames c' ∧ concat l = concat ws.
Proof.
  revert c c' frames. induction ws as [|w ws IH]; intros c c' frames; cbn.
  { intros [= <- <-]. exists []. split; [constructor|done]. }
  intros ([c1 f] & Hf & Hb)%bind_Some. apply bind_Some in Hb as ([c2 fs] & Hfs & [= <- <-]).
  destruct (IH _ _ _ Hfs) as (l & Hl & Hc).
  exists (chunks MAX_RECORD_PLAINTEXT w ++ l). split.
  - eapply encodes_app; [by apply RecordCipher_encode_encodes|done].
  - rewrite concat_app, Hc. f_equal. by apply chunks_spec.
Qed.

End records.

(** Everything one side writes in the data phase is what the other side reads:
    whatever sizes the writes have and however the transport cuts the bytes,
    the decoder that starts in the writer's cipher state returns exactly the
    written plaintext, keeps no byte back and ends in the writer's state. *)
Theorem record_stream_roundtrip `{Aead} c ws c' frames pieces :
  encode_all c ws = Some (c', frames) → concat pieces = frames →
  ∃ l, feed_all (SD := RecordDecoder) (c, []) pieces = ((c', []), Ok l)
       ∧ concat l = concat ws.
Proof.
  intros (l & Hl & Hc)%encode_all_encodes Hp. exists l. split; [|done].
  by apply (feed_all_encoded c l frames c').
Qed.

(** An authenticated-encryption stand-in for the witnesses: the tag repeats the
    first byte of the nonce's counter and of the key. *)
Definition demo_aead : Aead.
Proof.
  refine {| aead_encrypt k n pt := (pt, byte_at n 11 :: byte_at k 0 :: zeros 14);
            aead_decrypt k n ct tag :=
              if bool_decide (tag = byte_at n 11 :: byte_at k 0 :: zeros 14) then Some ct else None |}.
  - done.
  - done.
  - intros. cbn [fst snd]. by rewrite bool_decide_eq_true_2.
Defined.

Lemma record_stream_roundtrip_witness :
  ∃ l, feed_all (SD := RecordDecoder (H := demo_aead)) (RecordCipher_new [9], [])
         [[4; 0; 18; 7; 8; 0]; [9] ++ zeros 14 ++ [4; 0]; [17; 5; 1; 9] ++ zeros 14]
       = (({| rc_key := [9]; rc_nonce := 2 |}, []), Ok l)
       ∧ concat l = [7; 8; 5].
Proof.
  eapply (record_stream_roundtrip (H := demo_aead) (RecordCipher_new [9]) [[7; 8]; [5]]
    {| rc_key := [9]; rc_nonce := 2 |}).
  - vm_compute. reflexivity.
  - by vm_compute.
Defined.

Lemma nonce_bytes_inj n m :
  0 ≤ n < 2 ^ 64 → 0 ≤ m < 2 ^ 64 → nonce_bytes n = nonce_bytes m → n = m.
Proof.
  intros Hn Hm Heq%(f_equal (λ l, from_be (zdrop 4 l))). unfold nonce_bytes in Heq.
  rewrite !zdrop_app in Heq by done. by rewrite !from_to_be_small in Heq by (cbn; lia).
Qed.

(** The record that seals [chunk] under the counter [n]. *)
Definition sealed_record `{Aead} (key : bytes) (n : Z) (chunk : bytes) : bytes :=
  let '(body, tag) := aead_encrypt key (nonce_bytes n) chunk in
  [MSG_TYPE_RECORD] ++ to_be 2 (wrap 16 (zlen body + AEAD_TAG_LEN)) ++ body ++ tag.

(** The counter of a cipher only moves forward, by one for each record, and
    each record is sealed under the counter it found. *)
Lemma encode_chunks_nonce `{Aead} c cs c' frames :
  rc_nonce c ≤ u64_max → encode_chunks c cs = Some (c', frames) →
  rc_key c' = rc_key c ∧ rc_nonce c' = rc_nonce c + zlen cs ∧ rc_nonce c' ≤ u64_max
  ∧ frames = concat (imap (λ k x, sealed_record (rc_key c) (rc_nonce c + Z.of_nat k) x) cs).
Proof.
  revert c c' frames. induction cs as [|x cs IH]; intros c c' frames Hc; cbn [encode_chunks].
  { intros [= <- <-]. change (zlen (@nil bytes)) with 0. split_and!; [done|lia..|done]. }
  intros ([c1 f] & Hf & Hb)%bind_Some. apply bind_Some in Hb as ([c2 fs] & Hfs & [= <- <-]).
  unfold encode_record, next_nonce in Hf. destruct (Z.eqb_spec (rc_nonce c) u64_max); [done|].
  cbn [mbind option_bind] in Hf. destruct (aead_encrypt _ _ _) as [body tag] eqn:Ea.
  injection Hf as <- <-.
  apply IH in Hfs as (Hk & Hn & Hm & ->); cbn [rc_nonce rc_key] in *; [|lia]. rewrite zlen_cons.
  split_and!; [done|lia..|]. cbn [imap concat]. f_equal.
  - unfold sealed_record. rewrite Z.add_0_r, Ea. done.
  - f_equal. apply imap_ext. intros k y _. unfold compose.
    by replace (rc_nonce c + Z.of_nat (S k)) with (rc_nonce c + 1 + Z.of_nat k) by lia.
Qed.



(** Every frame a cipher emits fits the protocol's frame size, so a peer's
    decoder never refuses it as oversized. *)
Lemma encode_record_size `{Aead} c chunk c' frame :
  zlen chunk ≤ MAX_RECORD_PLAINTEXT → encode_record c chunk = Some (c', frame) →
  zlen frame ≤ MAX_RECORD_FRAME_SIZE.
Proof.
  intros Hc He. destruct (decode_encode_record c chunk c' frame [] Hc He) as [_ ->].
  unfold MAX_RECORD_PLAINTEXT in Hc. unfold MAX_RECORD_FRAME_SIZE in *. lia.
Qed.
