(* ===== verification/TransportStream.v ===== *)
(** * The Noise stream ([crabscale-transport/src/stream.rs])

    [NoiseStream] between HTTP/2 and the socket.  The inner transport is what
    its polls answer: a script of read results and a script of write results;
    the bytes it accepted are collected in [inner_out]. *)

From S2P Require Import Prelude StreamDecoder TransportRecord.

Inductive poll (A : Type) : Type :=
| Ready (a : A)
| Pending.
Arguments Ready {A} a.
Arguments Pending {A}.

(** [io::Result]: the errors are told apart only where the code makes them. *)
Inductive stream_error : Type :=
| InnerError          (** an error of the transport *)
| WriteZero           (** "noise stream write returned zero" *)
| UnexpectedEof       (** "noise stream closed" *)
| Record_ (e : fault). (** an error of the record layer *)

(** What the transport answers to a poll: data (at most what is asked for; no
    data is the end of the stream), an error, or not yet. *)
Inductive read_answer : Type := RData (b : bytes) | RFail | RPending.
(** How many bytes a write poll accepts at most. *)
Inductive write_answer : Type := WAccept (n : Z) | WFail | WPending.

Record NoiseStream : Type := {
  inner_in : list read_answer;
  inner_accepts : list write_answer;
  inner_out : bytes;
  reader : RecordCipher * bytes;
  writer : RecordCipher;
  read_buf : bytes;
  read_pos : Z;
  write_buf : bytes;
  write_pos : Z;
  write_acked : Z;
}.

Definition READ_CHUNK : Z := 4096.

Definition NoiseStream_new (inp : list read_answer) (acc : list write_answer)
    (read_key write_key : bytes) : NoiseStream :=
  {| inner_in := inp; inner_accepts := acc; inner_out := [];
     reader := (RecordCipher_new read_key, []); writer := RecordCipher_new write_key;
     read_buf := []; read_pos := 0; write_buf := []; write_pos := 0; write_acked := 0 |}.

Definition with_read (s : NoiseStream) (inp : list read_answer) (r : RecordCipher * bytes)
    (buf : bytes) (pos : Z) : NoiseStream :=
  {| inner_in := inp; inner_accepts := s.(inner_accepts); inner_out := s.(inner_out);
     reader := r; writer := s.(writer); read_buf := buf; read_pos := pos;
     write_buf := s.(write_buf); write_pos := s.(write_pos); write_acked := s.(write_acked) |}.

Definition with_write (s : NoiseStream) (acc : list write_answer) (out : bytes)
    (w : RecordCipher) (buf : bytes) (pos acked : Z) : NoiseStream :=
  {| inner_in := s.(inner_in); inner_accepts := acc; inner_out := out;
     reader := s.(reader); writer := w; read_buf := s.(read_buf); read_pos := s.(read_pos);
     write_buf := buf; write_pos := pos; write_acked := acked |}.

(** [inner.poll_read] into a buffer of [n] bytes; a script that has run out
    answers [Pending]. *)
Definition inner_poll_read (n : Z) (inp : list read_answer) : list read_answer * poll (option bytes) :=
  match inp with
  | [] => ([], Pending)
  | RPending :: r => (r, Pending)
  | RFail :: r => (r, Ready None)
  | RData b :: r => (if zlen b <=? n then r else RData (zdrop n b) :: r, Ready (Some (ztake n b)))
  end.

Section stream.
  Context `{Aead}.

(** The copy-out of [poll_read]: at most [remaining] unread plaintext bytes. *)
Definition take_unread (s : NoiseStream) (remaining : Z) : NoiseStream * bytes :=
  let n := Z.min (zlen s.(read_buf) - s.(read_pos)) remaining in
  (with_read s s.(inner_in) s.(reader) s.(read_buf) (s.(read_pos) + n),
   slice s.(read_pos) (s.(read_pos) + n) s.(read_buf)).

(** [poll_read] with [remaining] bytes of room: the bytes put in the buffer. *)
Definition poll_read (remaining : Z) (s : NoiseStream)
    : NoiseStream * poll (result bytes stream_error) :=
  if s.(read_pos) <? zlen s.(read_buf) then
    let '(s', out) := take_unread s remaining in (s', Ready (Ok out))
  else
    let '(inp, ans) := inner_poll_read READ_CHUNK s.(inner_in) in
    match ans with
    | Pending => (with_read s inp s.(reader) [] 0, Pending)
    | Ready None => (with_read s inp s.(reader) [] 0, Ready (Err InnerError))
    | Ready (Some chunk) =>
        if zlen chunk =? 0 then (with_read s inp s.(reader) [] 0, Ready (Ok []))
        else
          match RecordDecoder_feed s.(reader) chunk with
          | (rd, Err e) => (with_read s inp rd [] 0, Ready (Err (Record_ e)))
          | (rd, Ok plaintext) =>
              let '(s', out) := take_unread (with_read s inp rd plaintext 0) remaining in
              (s', Ready (Ok out))
          end
    end.

(** The loop of [flush_pending]; an accepting poll takes at least one byte, so
    the bytes left bound the turns. *)
Fixpoint flush_loop (fuel : nat) (s : NoiseStream) : NoiseStream * poll (result unit stream_error) :=
  match fuel with
  | O => (s, Pending)
  | S fuel =>
      if s.(write_pos) <? zlen s.(write_buf) then
        match s.(inner_accepts) with
        | [] => (s, Pending)
        | WPending :: acc =>
            (with_write s acc s.(inner_out) s.(writer) s.(write_buf) s.(write_pos) s.(write_acked),
             Pending)
        | WFail :: acc =>
            (with_write s acc s.(inner_out) s.(writer) s.(write_buf) s.(write_pos) s.(write_acked),
             Ready (Err InnerError))
        | WAccept k :: acc =>
            let n := Z.min (Z.max 0 k) (zlen s.(write_buf) - s.(write_pos)) in
            if n =? 0 then
              (with_write s acc s.(inner_out) s.(writer) s.(write_buf) s.(write_pos) s.(write_acked),
               Ready (Err WriteZero))
            else
              flush_loop fuel
                (with_write s acc
                   (s.(inner_out) ++ slice s.(write_pos) (s.(write_pos) + n) s.(write_buf))
                   s.(writer) s.(write_buf) (s.(write_pos) + n) s.(write_acked))
        end
      else
        (with_write s s.(inner_accepts) s.(inner_out) s.(writer) [] 0 s.(write_acked),
         Ready (Ok tt))
  end.

Definition flush_pending (s : NoiseStream) : NoiseStream * poll (result unit stream_error) :=
  flush_loop (S (length s.(write_buf))) s.

Definition set_acked (s : NoiseStream) (acked : Z) : NoiseStream :=
  with_write s s.(inner_accepts) s.(inner_out) s.(writer) s.(write_buf) s.(write_pos) acked.

(** The common tail of the two branches of [poll_write]. *)
Definition flush_and_ack (s : NoiseStream) : NoiseStream * poll (result Z stream_error) :=
  match flush_pending s with
  | (s', Ready (Ok tt)) => (set_acked s' 0, Ready (Ok s'.(write_acked)))
  | (s', Ready (Err e)) => (s', Ready (Err e))
  | (s', Pending) => (s', Pending)
  end.

Definition poll_write (buf : bytes) (s : NoiseStream) : NoiseStream * poll (result Z stream_error) :=
  if 0 <? s.(write_acked) then flush_and_ack s
  else
    match RecordCipher_encode s.(writer) buf with
    | None => (s, Ready (Err (Record_ Panicked)))
    | Some (w, framed) =>
        flush_and_ack (with_write s s.(inner_accepts) s.(inner_out) w framed 0 (zlen buf))
    end.

(** [poll_flush] and [poll_shutdown] up to the call of the transport's own. *)
Definition poll_flush (s : NoiseStream) : NoiseStream * poll (result unit stream_error) :=
  match flush_pending s with
  | (s', Ready (Ok tt)) => (set_acked s' 0, Ready (Ok tt))
  | other => other
  end.

Definition poll_shutdown (s : NoiseStream) : NoiseStream * poll (result unit stream_error) :=
  match flush_pending s with
  | (s', Ready (Ok tt)) => (set_acked s' 0, Ready (Ok tt))
  | other => other
  end.

(** ** Writing *)

(** The bytes that are on the wire or still to be flushed. *)
Definition committed (s : NoiseStream) : bytes := s.(inner_out) ++ zdrop s.(write_pos) s.(write_buf).

(** The invariant of the write half: the position lies in the buffer, and
    nothing is pending when no write is outstanding. *)
Record write_inv (s : NoiseStream) : Prop := {
  wi_pos : 0 ≤ s.(write_pos) ≤ zlen s.(write_buf);
  wi_acked : 0 ≤ s.(write_acked);
  wi_idle : s.(write_acked) = 0 → s.(write_pos) = zlen s.(write_buf);
}.

Lemma flush_loop_spec fuel s s' r :
  0 ≤ s.(write_pos) ≤ zlen s.(write_buf) →
  zlen s.(write_buf) - s.(write_pos) < Z.of_nat fuel →
  flush_loop fuel s = (s', r) →
  committed s' = committed s ∧ s'.(writer) = s.(writer) ∧ s'.(write_acked) = s.(write_acked)
  ∧ 0 ≤ s'.(write_pos) ≤ zlen s'.(write_buf)
  ∧ (r = Ready (Ok tt) → s'.(write_buf) = [] ∧ s'.(write_pos) = 0)
  ∧ (r ≠ Ready (Ok tt) → s'.(write_pos) < zlen s'.(write_buf)).
Proof.
  revert s. induction fuel as [|fuel IH]; intros s Hp Hf; [lia|]. cbn [flush_loop].
  destruct (Z.ltb_spec s.(write_pos) (zlen s.(write_buf))) as [Hlt|Hge].
  - destruct (inner_accepts s) as [|[k| |] acc]; try (by intros [= <- <-]).
    + remember (Z.min (Z.max 0 k) (zlen (write_buf s) - write_pos s)) as n eqn:En.
      destruct (Z.eqb_spec n 0) as [|Hn]; [by intros [= <- <-]|].
      assert (0 < n ≤ zlen (write_buf s) - write_pos s) by lia.
      intros Hl. apply IH in Hl; cbn [with_write write_pos write_buf]; [|lia..].
      cbn [with_write committed inner_out write_pos write_buf writer write_acked] in Hl.
      destruct Hl as (Hc & Hrest). split; [|done]. rewrite Hc. unfold committed. cbn.
      rewrite <- app_assoc. f_equal. unfold slice, zdrop, ztake.
      replace (write_pos s + n - write_pos s) with n by lia.
      replace (Z.to_nat (write_pos s + n)) with (Z.to_nat (write_pos s) + Z.to_nat n)%nat by lia.
      rewrite <- drop_drop. apply take_drop.
  - intros [= <- <-]. unfold committed. cbn. split_and!; try done.
    rewrite !zdrop_all; [done|lia|done].
Qed.

Lemma flush_pending_spec s s' r :
  0 ≤ s.(write_pos) ≤ zlen s.(write_buf) → flush_pending s = (s', r) →
  committed s' = committed s ∧ s'.(writer) = s.(writer) ∧ s'.(write_acked) = s.(write_acked)
  ∧ 0 ≤ s'.(write_pos) ≤ zlen s'.(write_buf)
  ∧ (r = Ready (Ok tt) → s'.(write_buf) = [] ∧ s'.(write_pos) = 0)
  ∧ (r ≠ Ready (Ok tt) → s'.(write_pos) < zlen s'.(write_buf)).
Proof. intros Hp. apply flush_loop_spec; [done|]. unfold zlen in *. lia. Qed.

(** The tail of [poll_write], when something is outstanding or nothing is left
    to flush. *)
Lemma flush_and_ack_spec s s' r :
  0 ≤ s.(write_pos) ≤ zlen s.(write_buf) →
  0 < s.(write_acked) ∨ (s.(write_acked) = 0 ∧ s.(write_buf) = []) →
  flush_and_ack s = (s', r) →
  write_inv s' ∧ committed s' = committed s ∧ s'.(writer) = s.(writer)
  ∧ match r with
    | Ready (Ok n) => n = s.(write_acked) ∧ s'.(write_acked) = 0 ∧ s'.(inner_out) = committed s
    | _ => 0 < s'.(write_acked)
    end.
Proof.
  intros Hp Ha. unfold flush_and_ack. destruct (flush_pending s) as [s1 r1] eqn:Hf.
  assert (Hdone : s.(write_buf) = [] → r1 = Ready (Ok tt)).
  { intros Hb. unfold flush_pending in Hf. rewrite Hb in *. cbn in Hf. rewrite Hb in Hf.
    rewrite zlen_nil in *. destruct (Z.ltb_spec (write_pos s) 0); [lia|]. congruence. }
  apply flush_pending_spec in Hf as (Hc & Hw & Hk & Hpos & Hok & Hno); [|done].
  destruct r1 as [[[]|e]|].
  - destruct (Hok eq_refl) as [Hb Hz]. intros [= <- <-]. unfold committed in *. cbn.
    rewrite Hb, Hz in *. cbn in Hc. rewrite app_nil_r in Hc.
    split; [|split_and!; try done]; [|by rewrite Hc, app_nil_r].
    constructor; cbn [set_acked with_write write_pos write_buf write_acked];
      rewrite ?Hb, ?Hz; done.
  - intros [= <- <-]. destruct Ha as [Ha|[_ Hb]]; [|by specialize (Hdone Hb)].
    split; [constructor; lia|]. split_and!; try done. lia.
  - intros [= <- <-]. destruct Ha as [Ha|[_ Hb]]; [|by specialize (Hdone Hb)].
    split; [constructor; lia|]. split_and!; try done. lia.
Qed.

(** One [poll_write]: with no write outstanding it commits the encoding of the
    buffer, with one outstanding it commits nothing; the result is the length
    of the buffer of the write that is completed. *)
Lemma poll_write_spec buf s s' r :
  write_inv s → poll_write buf s = (s', r) → r ≠ Ready (Err (Record_ Panicked)) →
  write_inv s'
  ∧ (if 0 <? s.(write_acked)
     then committed s' = committed s ∧ s'.(writer) = s.(writer)
          ∧ match r with Ready (Ok n) => n = s.(write_acked) ∧ s'.(write_acked) = 0
                                         ∧ s'.(inner_out) = committed s
                       | _ => 0 < s'.(write_acked) end
     else ∃ framed, RecordCipher_encode s.(writer) buf = Some (s'.(writer), framed)
          ∧ committed s' = s.(inner_out) ++ framed
          ∧ match r with Ready (Ok n) => n = zlen buf ∧ s'.(write_acked) = 0
                                         ∧ s'.(inner_out) = s.(inner_out) ++ framed
                       | _ => 0 < s'.(write_acked) end).
Proof.
  intros Hs. unfold poll_write. destruct (Z.ltb_spec 0 (write_acked s)) as [Ha|Ha].
  - intros Hf _. apply flush_and_ack_spec in Hf; [tauto|apply Hs|by left].
  - destruct (RecordCipher_encode (writer s) buf) as [[w framed]|] eqn:He.
    + intros Hf _. apply flush_and_ack_spec in Hf as (Hi & Hc & Hw & Hr).
      * split; [done|]. exists framed. rewrite Hw. done.
      * cbn. pose proof (zlen_nonneg framed). lia.
      * cbn. destruct buf as [|b buf].
        { right. split; [done|]. cbn in He. congruence. }
        left. rewrite zlen_cons. pose proof (zlen_nonneg buf). lia.
    + by intros [= <- <-].
Qed.

(** A caller that polls the same buffer until the write is ready: the calls
    before the last one answered [Pending]. *)
Inductive write_polls (buf : bytes) : NoiseStream → Z → NoiseStream → Prop :=
| write_polls_ready s s' n :
    poll_write buf s = (s', Ready (Ok n)) → write_polls buf s n s'
| write_polls_pending s s1 n s' :
    poll_write buf s = (s1, Pending) → write_polls buf s1 n s' → write_polls buf s n s'.

Lemma write_polls_outstanding buf s n s' :
  write_inv s → 0 < s.(write_acked) → write_polls buf s n s' →
  write_inv s' ∧ n = s.(write_acked) ∧ s'.(write_acked) = 0
  ∧ s'.(inner_out) = committed s ∧ s'.(writer) = s.(writer).
Proof.
  intros Hs Ha Hw. induction Hw as [s s' n Hp|s s1 n s' Hp _ IH].
  - apply poll_write_spec in Hp as [Hi Hr]; [|done..].
    destruct (Z.ltb_spec 0 (write_acked s)); [|lia]. destruct Hr as (Hc & Hk & -> & Hack & Ho).
    by split_and!.
  - pose proof Hp as Hp'. unfold poll_write in Hp'.
    destruct (Z.ltb_spec 0 (write_acked s)); [|lia]. unfold flush_and_ack in Hp'.
    assert (Hk1 : write_acked s1 = write_acked s).
    { destruct (flush_pending s) as [s2 [[[]|]|]] eqn:Hf; simplify_eq.
      by apply flush_pending_spec in Hf as (_ & _ & ? & _); [|apply Hs]. }
    apply poll_write_spec in Hp as [Hi Hr]; [|done..].
    destruct (Z.ltb_spec 0 (write_acked s)); [|lia]. destruct Hr as (Hc & Hw & Hack).
    destruct (IH Hi Hack) as (? & -> & ? & -> & ->). rewrite Hc, Hw, Hk1. by split_and!.
Qed.

(** ** Reading *)

(** The plaintext decoded and not yet handed out. *)
Definition unread (s : NoiseStream) : bytes := zdrop s.(read_pos) s.(read_buf).

Definition read_inv (s : NoiseStream) : Prop := 0 ≤ s.(read_pos) ≤ zlen s.(read_buf).

Lemma take_unread_spec s m s' out :
  read_inv s → 0 ≤ m → take_unread s m = (s', out) →
  read_inv s' ∧ out ++ unread s' = unread s ∧ zlen out ≤ m ∧ s'.(reader) = s.(reader)
  ∧ s'.(inner_in) = s.(inner_in) ∧ (0 < m → unread s ≠ [] → out ≠ []).
Proof.
  unfold read_inv, take_unread. intros Hr Hm Ht. injection Ht as <- <-.
  remember (Z.min (zlen (read_buf s) - read_pos s) m) as n eqn:En.
  assert (0 ≤ n ≤ zlen (read_buf s) - read_pos s) by lia.
  assert (Hz : zlen (slice (read_pos s) (read_pos s + n) (read_buf s)) = n) by (rewrite zlen_slice; lia).
  unfold unread. cbn [with_read read_pos read_buf reader inner_in].
  split_and!; try done; try lia.
  - unfold slice, zdrop, ztake. replace (read_pos s + n - read_pos s) with n by lia.
    replace (Z.to_nat (read_pos s + n)) with (Z.to_nat (read_pos s) + Z.to_nat n)%nat by lia.
    rewrite <- drop_drop. apply take_drop.
  - intros Hm0 Hu Hout. rewrite Hout in Hz. change (0 = n) in Hz. apply Hu.
    apply zdrop_all. lia.
Qed.

End stream.

(** A write is put on the wire exactly once, however many polls it takes: if a
    caller polls a buffer until it is accepted, the transport has received
    exactly the record encoding of that buffer after what it had, the count
    returned is the buffer's length, and the stream is ready for the next
    write. *)
Theorem poll_write_exactly_once `{Aead} buf s n s' :
  write_inv s → s.(write_acked) = 0 → write_polls buf s n s' →
  n = zlen buf ∧ write_inv s' ∧ s'.(write_acked) = 0
  ∧ ∃ framed, RecordCipher_encode s.(writer) buf = Some (s'.(writer), framed)
              ∧ s'.(inner_out) = s.(inner_out) ++ framed.
Proof.
  intros Hs Ha Hw. destruct Hw as [s s' n Hp|s s1 n s' Hp Hw].
  - apply poll_write_spec in Hp as [Hi Hr]; [|done..]. rewrite Ha in Hr. cbn in Hr.
    destruct Hr as (framed & He & _ & -> & Hack & Ho). eauto 10.
  - pose proof Hp as Hp'. unfold poll_write in Hp'. rewrite Ha in Hp'. cbn in Hp'.
    destruct (RecordCipher_encode (writer s) buf) as [[w framed]|] eqn:He; [|done].
    assert (Hk1 : write_acked s1 = zlen buf).
    { unfold flush_and_ack in Hp'. destruct (flush_pending _) as [s2 [[[]|]|]] eqn:Hf; simplify_eq.
      apply flush_pending_spec in Hf as (_ & _ & ? & _); [done|].
      cbn. pose proof (zlen_nonneg framed). lia. }
    apply poll_write_spec in Hp as [Hi Hr]; [|done..]. rewrite Ha in Hr. cbn in Hr.
    destruct Hr as (framed' & He' & Hc & Hack).
    destruct (write_polls_outstanding buf s1 n s' Hi Hack Hw) as (? & -> & ? & Ho & Hw').
    split; [done|]. split; [done|]. split; [done|]. exists framed'.
    rewrite Hw', Ho, Hc. split; [congruence|done].
Qed.

Lemma poll_write_exactly_once_witness :
  let s := NoiseStream_new [] [WAccept 5; WPending; WAccept 100] [1] [2] in
  let s' := (poll_write (H := demo_aead) [7] (poll_write (H := demo_aead) [7] s).1).1 in
  1 = zlen [7] ∧ write_inv s' ∧ s'.(write_acked) = 0
  ∧ ∃ framed, RecordCipher_encode (H := demo_aead) s.(writer) [7] = Some (s'.(writer), framed)
              ∧ s'.(inner_out) = s.(inner_out) ++ framed.
Proof.
  apply (poll_write_exactly_once (H := demo_aead) [7]
    (NoiseStream_new [] [WAccept 5; WPending; WAccept 100] [1] [2])).
  - by constructor.
  - done.
  - eapply write_polls_pending; [vm_compute; reflexivity|].
    eapply write_polls_ready. vm_compute. reflexivity.
Defined.

(** A flush between two polls of a pending write duplicates it: [poll_flush]
    completes the pending record but forgets that it acknowledges a write, so
    the caller's next poll of the same buffer encodes and sends it again. *)
Theorem flush_duplicates_pending_write `{Aead} buf s s1 s2 s3 r :
  write_inv s → s.(write_acked) = 0 →
  poll_write buf s = (s1, Pending) → poll_flush s1 = (s2, Ready (Ok tt)) →
  poll_write buf s2 = (s3, r) → r ≠ Ready (Err (Record_ Panicked)) →
  ∃ once twice, RecordCipher_encode s.(writer) buf = Some (s2.(writer), once)
    ∧ RecordCipher_encode s2.(writer) buf = Some (s3.(writer), twice)
    ∧ committed s3 = s.(inner_out) ++ once ++ twice.
Proof.
  intros Hs Ha Hp Hf Hp2 Hr2.
  apply poll_write_spec in Hp as [Hi Hr]; [|done..]. rewrite Ha in Hr. cbn in Hr.
  destruct Hr as (once & He & Hc & Hack).
  unfold poll_flush in Hf. destruct (flush_pending s1) as [t [[[]|]|]] eqn:Hfl; simplify_eq.
  apply flush_pending_spec in Hfl as (Hct & Hwt & _ & _ & Hok & _); [|apply Hi].
  destruct (Hok eq_refl) as [Hb Hz].
  assert (Hi2 : write_inv (set_acked t 0)).
  { constructor; cbn [set_acked with_write write_pos write_buf write_acked]; rewrite ?Hb, ?Hz; done. }
  apply poll_write_spec in Hp2 as [_ Hr]; [|done..]. cbn in Hr.
  destruct Hr as (twice & He2 & Hc2 & _). exists once, twice. cbn. rewrite Hwt.
  split; [done|]. rewrite <- Hwt. split; [done|]. rewrite Hc2, app_assoc. f_equal.
  rewrite <- Hc, <- Hct. unfold committed. by rewrite Hb, Hz, app_nil_r.
Qed.

Lemma flush_duplicates_pending_write_witness :
  let s := NoiseStream_new [] [WPending; WAccept 100; WAccept 100] [1] [2] in
  let s2 := (poll_flush (poll_write (H := demo_aead) [7] s).1).1 in
  let s3 := (poll_write (H := demo_aead) [7] s2).1 in
  ∃ once twice, RecordCipher_encode (H := demo_aead) s.(writer) [7] = Some (s2.(writer), once)
    ∧ RecordCipher_encode (H := demo_aead) s2.(writer) [7] = Some (s3.(writer), twice)
    ∧ committed s3 = s.(inner_out) ++ once ++ twice.
Proof.
  eapply (flush_duplicates_pending_write (H := demo_aead) [7]
    (NoiseStream_new [] [WPending; WAccept 100; WAccept 100] [1] [2])).
  - by constructor.
  - done.
  - vm_compute. reflexivity.
  - vm_compute. reflexivity.
  - vm_compute. reflexivity.
  - done.
Defined.

(** Reading loses and invents nothing: the bytes a poll hands out, followed by
    what stays buffered, are the plaintext that was buffered, or, when nothing
    was, exactly what the record decoder made of the next piece of input. *)
Theorem poll_read_conserves `{Aead} m s s' out :
  read_inv s → 0 ≤ m → poll_read m s = (s', Ready (Ok out)) →
  read_inv s' ∧ zlen out ≤ m
  ∧ if bool_decide (unread s = [])
    then match (inner_poll_read READ_CHUNK s.(inner_in)).2 with
         | Ready (Some (b :: chunk)) =>
             RecordDecoder_feed s.(reader) (b :: chunk) = (s'.(reader), Ok (out ++ unread s'))
         | _ => out = [] ∧ unread s' = [] ∧ s'.(reader) = s.(reader)
         end
    else out ++ unread s' = unread s ∧ s'.(reader) = s.(reader)
         ∧ s'.(inner_in) = s.(inner_in) ∧ (0 < m → out ≠ []).
Proof.
  intros Hr Hm. unfold poll_read. destruct (Z.ltb_spec (read_pos s) (zlen (read_buf s))) as [Hlt|Hge].
  - assert (Hne : unread s ≠ []).
    { intros E%(f_equal zlen). unfold unread in E. unfold read_inv in Hr.
      rewrite zlen_drop in E by lia. change (zlen []) with 0 in E. lia. }
    rewrite bool_decide_eq_false_2 by done.
    destruct (take_unread s m) as [s1 o] eqn:Ht. intros [= <- <-].
    apply take_unread_spec in Ht as (? & ? & ? & ? & ? & ?); [|done..]. auto 10.
  - assert (Hnil : unread s = []).
    { unfold unread, read_inv in *. apply zdrop_all. lia. }
    rewrite bool_decide_eq_true_2 by done.
    destruct (inner_poll_read READ_CHUNK (inner_in s)) as [inp [[[|b chunk]|]|]]; try done.
    + cbn. intros [= <- <-]. by repeat split.
    + cbn [snd zlen]. assert ((zlen (b :: chunk) =? 0) = false) as ->.
      { rewrite zlen_cons. pose proof (zlen_nonneg chunk). lia. }
      destruct (RecordDecoder_feed (reader s) (b :: chunk)) as [rd [pt|e]]; [|done].
      destruct (take_unread _ m) as [s1 o] eqn:Ht. intros [= <- <-].
      apply take_unread_spec in Ht as (? & Hu & ? & Hrd & _); [|split; [done|apply zlen_nonneg]|done].
      split; [done|]. split; [done|]. unfold unread in Hu at 2. cbn in Hu. rewrite zdrop_0 in Hu.
      by rewrite Hu, Hrd.
Qed.

Lemma poll_read_conserves_witness :
  let s := NoiseStream_new [RData ([4; 0; 18; 7; 8; 0; 9] ++ zeros 14)] [] [9] [2] in
  let s' := (poll_read (H := demo_aead) 1 s).1 in
  read_inv s' ∧ zlen [7] ≤ 1
  ∧ RecordDecoder_feed (H := demo_aead) s.(reader) ([4; 0; 18; 7; 8; 0; 9] ++ zeros 14)
    = (s'.(reader), Ok ([7] ++ unread s')).
Proof.
  refine (poll_read_conserves (H := demo_aead) 1
    (NoiseStream_new [RData ([4; 0; 18; 7; 8; 0; 9] ++ zeros 14)] [] [9] [2]) _ [7] _ _ _).
  - by split.
  - lia.
  - vm_compute. reflexivity.
Defined.

(** A record that arrives in two pieces looks like the end of the stream: when
    the transport delivers a strict prefix of a record, [poll_read] answers
    ready with no bytes, which for [AsyncRead] is the end of the stream, and is
    the very answer it gives when the transport is at its end. *)
Theorem partial_record_reads_as_eof `{Aead} m s part more c' chunk rest :
  read_inv s → unread s = [] → s.(reader).2 = [] → 0 ≤ m →
  zlen chunk ≤ MAX_RECORD_PLAINTEXT →
  encode_record s.(reader).1 chunk = Some (c', part ++ more) → part ≠ [] → more ≠ [] →
  s.(inner_in) = RData part :: rest →
  (poll_read m s).2 = Ready (Ok [])
  ∧ (poll_read m (with_read s (RData [] :: rest) s.(reader) [] 0)).2 = Ready (Ok []).
Proof.
  intros Hr Hu Hb Hm Hc He Hp Hmore Hin. split; [|done].
  assert (Hpos : (read_pos s <? zlen (read_buf s)) = false).
  { apply Z.ltb_ge. unfold unread, read_inv in *. apply (f_equal zlen) in Hu.
    rewrite zlen_drop in Hu by lia. change (zlen []) with 0 in Hu. lia. }
  destruct (decode_encode_record _ _ _ _ [] Hc He) as [Hd Hsz]. rewrite app_nil_r in Hd.
  assert (Hmax : zlen part ≤ READ_CHUNK).
  { rewrite zlen_app in Hsz. pose proof (zlen_nonneg more).
    unfold MAX_RECORD_PLAINTEXT, MAX_RECORD_FRAME_SIZE, READ_CHUNK, RECORD_HEADER_LEN, AEAD_TAG_LEN in *.
    lia. }
  assert (Hneed : decode1 (StreamDecoder := RecordDecoder) (reader s).1 part = NeedMore).
  { eapply (decode1_strict_prefix (SD := RecordDecoder)); [exact Hd|done]. }
  assert (Hfeed : RecordDecoder_feed (reader s) part = (((reader s).1, part), Ok [])).
  { unfold RecordDecoder_feed, feed. rewrite Hb. cbn [app]. by rewrite drain_eq, Hneed. }
  unfold poll_read. rewrite Hpos, Hin. cbn [inner_poll_read].
  rewrite (proj2 (Z.leb_le _ _) Hmax).
  assert (Ht : ztake READ_CHUNK part = part) by (unfold ztake, zlen in *; apply firstn_all2; lia).
  rewrite Ht. destruct part as [|b part]; [done|].
  assert ((zlen (b :: part) =? 0) = false) as -> by (rewrite zlen_cons; pose proof (zlen_nonneg part); lia).
  rewrite Hfeed. unfold take_unread. cbn [with_read read_buf read_pos].
  change (zlen (@nil Z) - 0) with 0. by rewrite Z.min_l.
Qed.

Lemma partial_record_reads_as_eof_witness :
  let s := NoiseStream_new [RData [4; 0; 18; 7]; RData ([8; 0; 9] ++ zeros 14)] [] [9] [2] in
  (poll_read (H := demo_aead) 64 s).2 = Ready (Ok [])
  ∧ (poll_read (H := demo_aead) 64
       (with_read s [RData []; RData ([8; 0; 9] ++ zeros 14)] s.(reader) [] 0)).2 = Ready (Ok []).
Proof.
  eapply (partial_record_reads_as_eof (H := demo_aead) 64
    (NoiseStream_new [RData [4; 0; 18; 7]; RData ([8; 0; 9] ++ zeros 14)] [] [9] [2])
    [4; 0; 18; 7] ([8; 0; 9] ++ zeros 14) {| rc_key := [9]; rc_nonce := 1 |} [7; 8]);
    by vm_compute.
Defined.
