(* ===== verification/Noise.v ===== *)
(** * The Noise IK handshake ([crabscale-transport/src/noise.rs])

    [Noise_IK_25519_ChaChaPoly_BLAKE2s]: the symmetric state, the responder of the
    control server and the initiator.  The primitives are a parameter: BLAKE2s and
    the HKDF on it as functions, X25519 with the law that both sides of an exchange
    come to the same secret, ChaCha20-Poly1305 with the law that what opens is what
    sealing gives.  The ephemeral secrets, which the source draws at random, are
    arguments.  The keys of the two ends feed the records of [TransportRecord]. *)

From S2P Require Import Prelude StreamDecoder ProtoFrame TransportRecord.

Class NoisePrimitives : Type := {
  (** [Blake2s256::digest] *)
  blake2s : bytes → bytes;
  (** [SimpleHkdf::<Blake2s256>::new(Some(salt), key).expand(&[], 64 bytes)] *)
  hkdf : bytes → bytes → bytes;
  (** [PublicKey::from(&secret)] and [secret.diffie_hellman(&public)] *)
  public_key : bytes → bytes;
  diffie_hellman : bytes → bytes → bytes;
  (** key, nonce, associated data: ciphertext and tag, and back *)
  seal_detached : bytes → bytes → bytes → bytes → bytes * bytes;
  open_detached : bytes → bytes → bytes → bytes → bytes → option bytes;
  blake2s_len d : zlen (blake2s d) = 32;
  hkdf_len salt key : zlen (hkdf salt key) = 64;
  public_key_len s : zlen (public_key s) = 32;
  dh_agrees a b : diffie_hellman a (public_key b) = diffie_hellman b (public_key a);
  sealed_len k n ad pt : zlen (seal_detached k n ad pt).1 = zlen pt;
  sealed_tag_len k n ad pt : zlen (seal_detached k n ad pt).2 = AEAD_TAG_LEN;
  open_sealed k n ad ct tag pt :
    open_detached k n ad ct tag = Some pt ↔ seal_detached k n ad pt = (ct, tag);
}.

Inductive Role : Type := Initiator | Responder.

Record Session : Type := {
  initiator_to_responder : bytes;
  responder_to_initiator : bytes;
  role : Role }.

(** [PROTOCOL_NAME]: Noise_IK_25519_ChaChaPoly_BLAKE2s *)
Definition PROTOCOL_NAME : bytes :=
  [78; 111; 105; 115; 101; 95; 73; 75; 95; 50; 53; 53; 49; 57; 95; 67; 104; 97; 67; 104; 97; 80; 111; 108;
   121; 95; 66; 76; 65; 75; 69; 50; 115].

(** ** The symmetric state *)

Record State : Type := { st_hash : bytes; chaining_key : bytes }.

(** With an active cipher. *)
Record StateWithAead : Type := { aead_state : State; aead_key : bytes }.

Section noise.
  Context `{NoisePrimitives}.

Definition State_new (protocol_name : bytes) : State :=
  let digest := blake2s protocol_name in
  {| st_hash := digest; chaining_key := digest |}.

Definition mix_hash (data : bytes) (st : State) : State :=
  {| st_hash := blake2s (st.(st_hash) ++ data); chaining_key := st.(chaining_key) |}.

Definition mix_hash_gather (data : list bytes) (st : State) : State :=
  {| st_hash := blake2s (st.(st_hash) ++ concat data); chaining_key := st.(chaining_key) |}.

Definition hkdf_pair (chaining_key key : bytes) : bytes * bytes :=
  let out := hkdf chaining_key key in (slice 0 32 out, slice 32 64 out).

Definition State_mix_dh (private public : bytes) (st : State) : StateWithAead :=
  let shared := diffie_hellman private public in
  let '(ck, k) := hkdf_pair st.(chaining_key) shared in
  {| aead_state := {| st_hash := st.(st_hash); chaining_key := ck |}; aead_key := k |}.

Definition mix_dh (private public : bytes) (st : StateWithAead) : StateWithAead :=
  State_mix_dh private public st.(aead_state).

(** [Nonce::default()] *)
Definition zero_nonce : bytes := zeros 12.

(** The state, with the ciphertext and the tag that replace the arguments. *)
Definition seal (cleartext : bytes) (st : StateWithAead) : State * (bytes * bytes) :=
  let '(ct, tag) := seal_detached st.(aead_key) zero_nonce st.(aead_state).(st_hash) cleartext in
  (mix_hash_gather [ct; tag] st.(aead_state), (ct, tag)).

Definition open (ciphertext tag : bytes) (st : StateWithAead) : option (State * bytes) :=
  let state := mix_hash_gather [ciphertext; tag] st.(aead_state) in
  match open_detached st.(aead_key) zero_nonce st.(aead_state).(st_hash) ciphertext tag with
  | Some pt => Some (state, pt)
  | None => None
  end.

Definition finish_state (r : Role) (st : State) : Session :=
  let '(i2r, r2i) := hkdf_pair st.(chaining_key) [] in
  {| initiator_to_responder := i2r; responder_to_initiator := r2i; role := r |}.

(** ** The responder *)

Record NoiseResponder : Type := { static_private : bytes; static_public : bytes }.

Definition NoiseResponder_from_bytes (secret : bytes) : NoiseResponder :=
  {| static_private := secret; static_public := public_key secret |}.

Record ResponderOutput : Type := {
  response : bytes;
  out_session : Session;
  peer_static_public : bytes }.

Definition respond_with_ephemeral (r : NoiseResponder) (init : InitMessage) (prologue server_ephemeral : bytes)
    : result ResponderOutput TransportError :=
  if init.(init_version) <? CapVer.MIN_SUPPORTED_CAPVER then Err (UnsupportedCapabilityVersion init.(init_version))
  else
    let state := State_mix_dh r.(static_private) init.(client_ephemeral)
                   (mix_hash init.(client_ephemeral)
                     (mix_hash r.(static_public) (mix_hash prologue (State_new PROTOCOL_NAME)))) in
    let client_static := slice 0 32 init.(client_static_ciphertext) in
    let static_tag := slice 32 48 init.(client_static_ciphertext) in
    match open client_static static_tag state with
    | None => Err HandshakeFailed
    | Some (state, client_static_public) =>
        match open [] init.(payload_tag) (State_mix_dh r.(static_private) client_static_public state) with
        | None => Err HandshakeFailed
        | Some (state, _) =>
            let server_ephemeral_public := public_key server_ephemeral in
            let '(state, (_, auth_tag)) :=
              seal [] (mix_dh server_ephemeral client_static_public
                        (State_mix_dh server_ephemeral init.(client_ephemeral)
                          (mix_hash server_ephemeral_public state))) in
            Ok {| response := write_response_message server_ephemeral_public auth_tag;
                  out_session := finish_state Responder state;
                  peer_static_public := client_static_public |}
        end
    end.

(** ** The initiator *)

Record NoiseInitiator : Type := {
  client_static_private : bytes;
  client_state : State;
  ephemeral_private : bytes }.

Definition initialize_with_ephemeral (client_static ephemeral server_public prologue : bytes) (version : Z)
    : NoiseInitiator * bytes :=
  let ephemeral_public := public_key ephemeral in
  let '(state, (ct, static_tag)) :=
    seal (public_key client_static)
      (State_mix_dh ephemeral server_public
        (mix_hash ephemeral_public (mix_hash server_public (mix_hash prologue (State_new PROTOCOL_NAME))))) in
  let client_static_ciphertext := ct ++ static_tag in
  let '(state, (_, payload_tag)) := seal [] (State_mix_dh client_static server_public state) in
  let init := to_be 2 version ++ [MSG_TYPE_INIT] ++ to_be 2 96 ++ ephemeral_public
              ++ client_static_ciphertext ++ payload_tag in
  ({| client_static_private := client_static; client_state := state; ephemeral_private := ephemeral |}, init).

(** [NoiseInitiator::finish] *)
Definition finish (i : NoiseInitiator) (response : bytes) : result Session TransportError :=
  match parse_response_message response with
  | Err e => Err e
  | Ok parsed =>
      match open [] parsed.(auth_tag)
              (mix_dh i.(client_static_private) parsed.(server_ephemeral)
                (State_mix_dh i.(ephemeral_private) parsed.(server_ephemeral)
                  (mix_hash parsed.(server_ephemeral) i.(client_state)))) with
      | None => Err HandshakeFailed
      | Some (state, _) => Ok (finish_state Initiator state)
      end
  end.

(** The cipher of the records: no associated data. *)
#[global] Program Instance record_aead : Aead := {|
  aead_encrypt k n pt := seal_detached k n [] pt;
  aead_decrypt k n ct tag := open_detached k n [] ct tag |}.
Next Obligation. intros. apply sealed_len. Qed.
Next Obligation. intros. apply sealed_tag_len. Qed.
Next Obligation. intros. apply open_sealed. by destruct (seal_detached k n [] pt). Qed.

(** ** Lemmas *)

Lemma init_message_roundtrip v e c t :
  0 ≤ v < 2 ^ 16 → zlen e = 32 → zlen c = 48 → zlen t = AEAD_TAG_LEN →
  parse_init_message (to_be 2 v ++ [MSG_TYPE_INIT] ++ to_be 2 96 ++ e ++ c ++ t)
  = Ok {| init_version := v; client_ephemeral := e; client_static_ciphertext := c; payload_tag := t |}.
Proof.
  intros Hv He Hc Ht. unfold parse_init_message. set (buf := to_be 2 v ++ _).
  assert (Hb : zlen buf = 101) by (unfold buf; rewrite !zlen_app, !zlen_to_be, He, Hc, Ht; done).
  assert (H2 : byte_at buf 2 = MSG_TYPE_INIT) by done.
  assert (H3 : slice 3 5 buf = to_be 2 96) by done.
  assert (H0 : slice 0 2 buf = to_be 2 v) by done.
  rewrite Hb, H2, H3, H0. change (from_be (to_be 2 96) =? 96) with true. cbn [Z.eqb Pos.eqb negb MSG_TYPE_INIT].
  rewrite from_to_be_small by (cbn; lia). repeat f_equal.
  - unfold buf. rewrite !app_assoc, <- (app_assoc _ c t), <- (app_assoc _ e). apply slice_app_mid; [|by rewrite He].
    by rewrite !zlen_app, !zlen_to_be.
  - unfold buf. rewrite !app_assoc, <- (app_assoc _ c t). apply slice_app_mid; [|by rewrite Hc].
    by rewrite !zlen_app, !zlen_to_be, He.
  - unfold buf. rewrite !app_assoc. rewrite slice_zdrop by (by rewrite <- Hb; unfold buf; rewrite !app_assoc).
    apply zdrop_app. by rewrite !zlen_app, !zlen_to_be, He, Hc.
Qed.

(** Sealed messages open, and only those. *)
Lemma open_seal pt st : open (seal pt st).2.1 (seal pt st).2.2 st = Some ((seal pt st).1, pt).
Proof.
  unfold open, seal. destruct (seal_detached _ _ _ pt) as [ct tag] eqn:Hs. cbn [fst snd].
  by rewrite (proj2 (open_sealed _ _ _ ct tag pt) Hs).
Qed.

Lemma open_seal_nothing st : open [] (seal [] st).2.2 st = Some ((seal [] st).1, []).
Proof.
  pose proof (open_seal [] st) as Ho. unfold seal in *.
  pose proof (sealed_len (aead_key st) zero_nonce (st_hash (aead_state st)) []) as Hl.
  destruct (seal_detached _ _ _ []) as [[|x ct] tag]; [done|]. cbn [fst] in Hl. rewrite zlen_cons, zlen_nil in Hl.
  pose proof (zlen_nonneg ct). lia.
Qed.

Lemma open_genuine ct tag st st' pt : open ct tag st = Some (st', pt) → seal pt st = (st', (ct, tag)).
Proof.
  unfold open, seal. destruct (open_detached _ _ _ _ _) as [x|] eqn:Ho; [|done]. intros [= <- <-].
  apply open_sealed in Ho. by rewrite Ho.
Qed.

(** A tag alone. *)
Lemma open_nothing tag st st' x : open [] tag st = Some (st', x) → seal [] st = (st', ([], tag)).
Proof.
  intros Ho. apply open_genuine in Ho as Hs. destruct x as [|y x]; [done|]. exfalso. unfold seal in Hs.
  pose proof (sealed_len (aead_key st) zero_nonce (st_hash (aead_state st)) (y :: x)) as Hl.
  destruct (seal_detached _ _ _ (y :: x)) as [ct t]. injection Hs as _ -> _. cbn [fst] in Hl.
  rewrite zlen_cons, zlen_nil in Hl. pose proof (zlen_nonneg x). lia.
Qed.

(** Both sides of an exchange come to the same state. *)
Lemma mix_dh_agrees a b st : State_mix_dh a (public_key b) st = State_mix_dh b (public_key a) st.
Proof. unfold State_mix_dh. by rewrite dh_agrees. Qed.

Lemma seal_lens pt st : zlen (seal pt st).2.1 = zlen pt ∧ zlen (seal pt st).2.2 = AEAD_TAG_LEN.
Proof.
  unfold seal. pose proof (sealed_len (aead_key st) zero_nonce (st_hash (aead_state st)) pt) as H1.
  pose proof (sealed_tag_len (aead_key st) zero_nonce (st_hash (aead_state st)) pt) as H2.
  by destruct (seal_detached _ _ _ pt).
Qed.

(** What an initiator sends is the message its fields make. *)
Lemma initialize_parses cs ce sp prologue v i init :
  0 ≤ v < 2 ^ 16 → initialize_with_ephemeral cs ce sp prologue v = (i, init) →
  let st1 := State_mix_dh ce sp (mix_hash (public_key ce) (mix_hash sp (mix_hash prologue (State_new PROTOCOL_NAME)))) in
  let s1 := seal (public_key cs) st1 in
  let s2 := seal [] (State_mix_dh cs sp s1.1) in
  parse_init_message init = Ok {| init_version := v; client_ephemeral := public_key ce;
    client_static_ciphertext := s1.2.1 ++ s1.2.2; payload_tag := s2.2.2 |}
  ∧ i = {| client_static_private := cs; client_state := s2.1; ephemeral_private := ce |}.
Proof.
  intros Hv Hi. cbv zeta. unfold initialize_with_ephemeral in Hi.
  set (st1 := State_mix_dh ce sp _) in *. destruct (seal_lens (public_key cs) st1) as [Hc Ht].
  destruct (seal (public_key cs) st1) as [st [ct tag]]. cbn [fst snd] in *.
  set (st2 := State_mix_dh cs sp st) in *. destruct (seal_lens [] st2) as [_ Ht2].
  destruct (seal [] st2) as [st' [ct2 tag2]]. cbn [fst snd] in *. injection Hi as <- <-. split; [|done].
  apply init_message_roundtrip; [done|apply public_key_len| |done].
  by rewrite zlen_app, Hc, Ht, public_key_len.
Qed.

(** The responder's work, in the steps that can fail. *)
Lemma respond_steps r init prologue se out :
  respond_with_ephemeral r init prologue se = Ok out ↔
  CapVer.MIN_SUPPORTED_CAPVER ≤ init.(init_version) ∧
  ∃ st1 st2 nothing,
    open (slice 0 32 init.(client_static_ciphertext)) (slice 32 48 init.(client_static_ciphertext))
      (State_mix_dh r.(static_private) init.(client_ephemeral)
        (mix_hash init.(client_ephemeral) (mix_hash r.(static_public) (mix_hash prologue (State_new PROTOCOL_NAME)))))
      = Some (st1, out.(peer_static_public))
    ∧ open [] init.(payload_tag) (State_mix_dh r.(static_private) out.(peer_static_public) st1) = Some (st2, nothing)
    ∧ let s3 := seal [] (mix_dh se out.(peer_static_public)
                          (State_mix_dh se init.(client_ephemeral) (mix_hash (public_key se) st2))) in
      out.(response) = write_response_message (public_key se) s3.2.2
      ∧ out.(out_session) = finish_state Responder s3.1.
Proof.
  unfold respond_with_ephemeral. destruct (Z.ltb_spec (init_version init) CapVer.MIN_SUPPORTED_CAPVER) as [Hv|Hv].
  { split; [done|]. intros [? _]. lia. }
  set (st0 := State_mix_dh _ _ _). destruct (open _ _ st0) as [[st1 peer]|] eqn:H1.
  2: { split; [done|]. by intros (_ & ? & ? & ? & [=] & _). }
  destruct (open [] _ _) as [[st2 x]|] eqn:H2.
  2: { split; [done|]. intros (_ & ? & ? & ? & [= <- <-] & Ho & _). by rewrite H2 in Ho. }
  destruct (seal [] _) as [st3 [ct tag]] eqn:H3. split.
  - intros [= <-]. split; [done|]. exists st1, st2, x. cbn [peer_static_public response out_session].
    split; [done|]. split; [done|]. cbv zeta. by rewrite H3.
  - intros (_ & ? & ? & ? & [= <- Hp] & Ho & Hr & Hs). rewrite <- Hp, H2 in Ho. injection Ho as <- <-.
    cbv zeta in Hr, Hs. rewrite <- Hp, H3 in Hr, Hs. cbn [fst snd] in *.
    destruct out; cbn in *. by subst.
Qed.

(** The states in which both ends have exchanged the first message. *)
Lemma respond_to_initialize cs ce ss prologue v se i init :
  CapVer.MIN_SUPPORTED_CAPVER ≤ v < 2 ^ 16 →
  initialize_with_ephemeral cs ce (public_key ss) prologue v = (i, init) →
  ∃ m out, parse_init_message init = Ok m
    ∧ respond_with_ephemeral (NoiseResponder_from_bytes ss) m prologue se = Ok out
    ∧ out.(peer_static_public) = public_key cs
    ∧ let s3 := seal [] (mix_dh cs (public_key se)
                  (State_mix_dh ce (public_key se) (mix_hash (public_key se) i.(client_state)))) in
      out.(response) = write_response_message (public_key se) s3.2.2
      ∧ out.(out_session) = finish_state Responder s3.1.
Proof.
  intros Hv Hi. assert (Hv' : 0 ≤ v < 2 ^ 16) by (unfold CapVer.MIN_SUPPORTED_CAPVER in Hv; lia).
  destruct (initialize_parses _ _ _ _ _ _ _ Hv' Hi) as [Hp Hst]. cbv zeta in Hp, Hst.
  set (st1 := State_mix_dh ce (public_key ss) _) in *. destruct (seal_lens (public_key cs) st1) as [Hc Ht].
  rewrite public_key_len in Hc. set (s1 := seal (public_key cs) st1) in *.
  set (s2 := seal [] (State_mix_dh cs (public_key ss) s1.1)) in *. rewrite Hst. cbn [client_state].
  set (st3 := State_mix_dh ce (public_key se) (mix_hash (public_key se) s2.1)).
  eexists _, {| response := write_response_message (public_key se) (seal [] (mix_dh cs (public_key se) st3)).2.2;
                out_session := finish_state Responder (seal [] (mix_dh cs (public_key se) st3)).1;
                peer_static_public := public_key cs |}.
  split; [exact Hp|]. split; [|by repeat split]. apply respond_steps. cbn [init_version]. split; [lia|].
  exists s1.1, s2.1, []. cbn [client_static_ciphertext client_ephemeral payload_tag peer_static_public static_private
    static_public NoiseResponder_from_bytes response out_session].
  rewrite slice_app_l by done. rewrite slice_app_r, Hc, slice_zdrop by (rewrite ?Hc, ?Ht; done).
  rewrite mix_dh_agrees. fold st1. split; [apply open_seal|]. rewrite mix_dh_agrees. split; [apply open_seal_nothing|].
  cbv zeta. unfold mix_dh. rewrite (mix_dh_agrees se cs), (mix_dh_agrees se ce). done.
Qed.

(** Both ends complete the handshake with the same keys. *)
Lemma handshake_completes cs ce ss se prologue v i init :
  CapVer.MIN_SUPPORTED_CAPVER ≤ v < 2 ^ 16 →
  initialize_with_ephemeral cs ce (public_key ss) prologue v = (i, init) →
  ∃ m out session,
    parse_init_message init = Ok m
    ∧ respond_with_ephemeral (NoiseResponder_from_bytes ss) m prologue se = Ok out
    ∧ out.(peer_static_public) = public_key cs
    ∧ finish i out.(response) = Ok session
    ∧ session.(role) = Initiator ∧ out.(out_session).(role) = Responder
    ∧ session.(initiator_to_responder) = out.(out_session).(initiator_to_responder)
    ∧ session.(responder_to_initiator) = out.(out_session).(responder_to_initiator).
Proof.
  intros Hv Hi. destruct (respond_to_initialize cs ce ss prologue v se i init Hv Hi)
    as (m & out & Hm & Ho & Hp & Hr & Hs). cbv zeta in Hr, Hs.
  assert (Hi' : i = {| client_static_private := cs; client_state := i.(client_state); ephemeral_private := ce |}).
  { assert (Hv' : 0 ≤ v < 2 ^ 16) by (unfold CapVer.MIN_SUPPORTED_CAPVER in Hv; lia).
    destruct (initialize_parses _ _ _ _ _ _ _ Hv' Hi) as [_ ->]. done. }
  set (st := mix_dh cs _ _) in *. destruct (seal_lens [] st) as [_ Ht].
  assert (Hf : finish i out.(response) = Ok (finish_state Initiator (seal [] st).1)).
  { rewrite Hr. unfold finish. rewrite response_message_roundtrip by (by rewrite ?public_key_len).
    cbn [server_ephemeral auth_tag]. rewrite Hi'. cbn [client_static_private client_state ephemeral_private].
    fold st. by rewrite open_seal_nothing. }
  exists m, out, (finish_state Initiator (seal [] st).1). rewrite Hs.
  do 4 (split; [done|]). unfold finish_state. by destruct (hkdf_pair _ _).
Qed.

(** One direction of the data phase. *)
Lemma records_delivered key ws c' pieces :
  encode_all (RecordCipher_new key) ws = Some (c', concat pieces) →
  ∃ l, feed_all (SD := RecordDecoder) (RecordCipher_new key, []) pieces = ((c', []), Ok l) ∧ concat l = concat ws.
Proof.
  intros (l & Hl & Hc)%encode_all_encodes. exists l. split; [|done]. by apply (feed_all_encoded _ l (concat pieces)).
Qed.

End noise.

(** C7. A client that knows the server's key and has a supported version gets a
    channel.  Its first message parses, the server accepts it and learns the
    client's machine key, the client accepts the answer; and what either end then
    writes the other reads, in writes of any size and however the transport cuts
    the bytes. *)
Theorem handshake_channel `{NoisePrimitives} cs ce ss se prologue v i init :
  CapVer.MIN_SUPPORTED_CAPVER ≤ v < 2 ^ 16 →
  initialize_with_ephemeral cs ce (public_key ss) prologue v = (i, init) →
  ∃ m out session,
    parse_init_message init = Ok m
    ∧ respond_with_ephemeral (NoiseResponder_from_bytes ss) m prologue se = Ok out
    ∧ out.(peer_static_public) = public_key cs
    ∧ finish i out.(response) = Ok session
    ∧ (∀ ws c' pieces,
        encode_all (RecordCipher_new session.(initiator_to_responder)) ws = Some (c', concat pieces) →
        ∃ l, feed_all (SD := RecordDecoder) (RecordCipher_new out.(out_session).(initiator_to_responder), []) pieces
             = ((c', []), Ok l) ∧ concat l = concat ws)
    ∧ (∀ ws c' pieces,
        encode_all (RecordCipher_new out.(out_session).(responder_to_initiator)) ws = Some (c', concat pieces) →
        ∃ l, feed_all (SD := RecordDecoder) (RecordCipher_new session.(responder_to_initiator), []) pieces
             = ((c', []), Ok l) ∧ concat l = concat ws).
Proof.
  intros Hv Hi. destruct (handshake_completes cs ce ss se prologue v i init Hv Hi)
    as (m & out & s & Hm & Ho & Hp & Hf & _ & _ & H1 & H2).
  exists m, out, s. rewrite <- H1, <- H2. do 4 (split; [done|]). split; intros; by apply records_delivered.
Qed.

(** Only the holder of a secret gets in: an accepted first message is, but for its
    version, the message that the machine key the server attributes it to would send.
    Whatever secrets belong to the ephemeral and the machine key, the initiator that
    holds them writes exactly the accepted fields. *)
Lemma accepted_init_is_genuine `{NoisePrimitives} ss se prologue init out cs ce :
  zlen init.(client_static_ciphertext) = 48 → 0 ≤ init.(init_version) < 2 ^ 16 →
  respond_with_ephemeral (NoiseResponder_from_bytes ss) init prologue se = Ok out →
  init.(client_ephemeral) = public_key ce → out.(peer_static_public) = public_key cs →
  parse_init_message
    (initialize_with_ephemeral cs ce (public_key ss) prologue init.(init_version)).2 = Ok init.
Proof.
  intros Hl Hv (_ & st1 & st2 & x & Ho1 & Ho2 & _)%respond_steps Hce Hcs.
  destruct (initialize_with_ephemeral cs ce (public_key ss) prologue (init_version init)) as [i b] eqn:Hi.
  destruct (initialize_parses _ _ _ _ _ _ _ Hv Hi) as [Hp _]. cbv zeta in Hp. cbn [snd]. rewrite Hp.
  cbn [static_private static_public NoiseResponder_from_bytes] in *. rewrite Hce, Hcs in *.
  rewrite mix_dh_agrees in Ho1, Ho2. apply open_genuine in Ho1. apply open_nothing in Ho2. rewrite Ho1.
  cbn [fst snd]. rewrite Ho2. cbn [snd]. destruct init as [v e c t].
  cbn [client_static_ciphertext client_ephemeral init_version payload_tag] in *.
  by rewrite Hce, slice_0, <- ztake_slices, ztake_all.
Qed.

(** An accepted first message cannot be changed in flight: two messages with the
    same ephemeral key that the server accepts as coming from the same machine differ
    at most in the version, whatever the server's own draws were. *)
Theorem accepted_init_not_malleable `{NoisePrimitives} r se se' prologue init init' out out' :
  zlen init.(client_static_ciphertext) = 48 → zlen init'.(client_static_ciphertext) = 48 →
  respond_with_ephemeral r init prologue se = Ok out →
  respond_with_ephemeral r init' prologue se' = Ok out' →
  init.(client_ephemeral) = init'.(client_ephemeral) → out.(peer_static_public) = out'.(peer_static_public) →
  init.(client_static_ciphertext) = init'.(client_static_ciphertext) ∧ init.(payload_tag) = init'.(payload_tag).
Proof.
  intros Hl Hl' (_ & st1 & st2 & x & Ho1 & Ho2 & _)%respond_steps (_ & st1' & st2' & x' & Ho1' & Ho2' & _)%respond_steps He Hp.
  rewrite He, Hp in *. apply open_genuine in Ho1, Ho1'. apply open_nothing in Ho2, Ho2'.
  rewrite Ho1 in Ho1'. injection Ho1' as -> H1 H2. rewrite Ho2 in Ho2'. split; [|congruence].
  rewrite <- (ztake_all 48 (client_static_ciphertext init)), <- (ztake_all 48 (client_static_ciphertext init')) by done.
  rewrite !(ztake_slices 32 48) by lia. rewrite <- !slice_0. by rewrite H1, H2.
Qed.

(** Stand-ins for the primitives, for the witnesses: keys are their own public
    halves and add up in an exchange, a tag is cut from the key and the associated
    data. *)
Definition demo_pad (n : Z) (d : bytes) : bytes := ztake n (d ++ zeros n).

Lemma demo_pad_len n d : 0 ≤ n → zlen (demo_pad n d) = n.
Proof.
  intros. unfold demo_pad, ztake, zlen, zeros. rewrite length_take, length_app, length_replicate. lia.
Qed.

Lemma demo_exchange a b : zip_with Z.add a b = zip_with Z.add b a.
Proof. revert b. induction a as [|x a IH]; intros [|y b]; [done..|]. cbn. by rewrite IH, Z.add_comm. Qed.

Definition demo_tag (k ad : bytes) : bytes := demo_pad 16 (ztake 8 k ++ ztake 8 ad).

#[program] Definition demo_primitives : NoisePrimitives := {|
  blake2s d := demo_pad 32 (reverse d);
  hkdf salt key := demo_pad 64 (key ++ salt);
  public_key s := demo_pad 32 s;
  diffie_hellman a p := zip_with Z.add (demo_pad 32 a) p;
  seal_detached k n ad pt := (pt, demo_tag k ad);
  open_detached k n ad ct tag := if bool_decide (tag = demo_tag k ad) then Some ct else None |}.
Next Obligation. intros. by apply demo_pad_len. Qed.
Next Obligation. intros. by apply demo_pad_len. Qed.
Next Obligation. intros. by apply demo_pad_len. Qed.
Next Obligation. intros. apply demo_exchange. Qed.
Next Obligation. done. Qed.
Next Obligation. intros. by apply demo_pad_len. Qed.
Next Obligation.
  intros k n ad ct tag pt. cbv beta. case_bool_decide as E; split; intros Heq; congruence.
Qed.

(** A client with secret 5, ephemeral 7, and a server with secret 9, ephemeral 3. *)
Definition demo_init : bytes :=
  (initialize_with_ephemeral (H := demo_primitives) [5] [7] (demo_pad 32 [9]) [1; 2] 113).2.

Lemma handshake_channel_witness :
  CapVer.MIN_SUPPORTED_CAPVER ≤ 113 < 2 ^ 16 ∧
  ∃ m out session,
    parse_init_message demo_init = Ok m
    ∧ respond_with_ephemeral (H := demo_primitives) (NoiseResponder_from_bytes (H := demo_primitives) [9]) m [1; 2] [3] = Ok out
    ∧ out.(peer_static_public) = demo_pad 32 [5]
    ∧ finish (H := demo_primitives) (initialize_with_ephemeral (H := demo_primitives) [5] [7] (demo_pad 32 [9]) [1; 2] 113).1
        out.(response) = Ok session.
Proof.
  split; [by vm_compute|].
  destruct (handshake_channel (H := demo_primitives) [5] [7] [9] [3] [1; 2] 113
              (initialize_with_ephemeral (H := demo_primitives) [5] [7] (demo_pad 32 [9]) [1; 2] 113).1 demo_init)
    as (m & out & s & Hm & Ho & Hp & Hf & _); [by vm_compute|by vm_compute|].
  exists m, out, s. exact (conj Hm (conj Ho (conj Hp Hf))).
Defined.

(** The message of that client as the server has parsed it. *)
Definition demo_message : InitMessage := {|
  init_version := 113; client_ephemeral := demo_pad 32 [7];
  client_static_ciphertext := slice 37 85 demo_init; payload_tag := slice 85 101 demo_init |}.

Definition demo_output : ResponderOutput :=
  match respond_with_ephemeral (H := demo_primitives) (NoiseResponder_from_bytes (H := demo_primitives) [9])
          demo_message [1; 2] [3] with
  | Ok out => out
  | Err _ => {| response := []; out_session := {| initiator_to_responder := []; responder_to_initiator := []; role := Responder |};
                peer_static_public := [] |}
  end.

Lemma accepted_init_not_malleable_witness :
  demo_message.(client_static_ciphertext) = slice 37 85 demo_init ∧ demo_message.(payload_tag) = slice 85 101 demo_init.
Proof.
  exact (accepted_init_not_malleable (H := demo_primitives) (NoiseResponder_from_bytes (H := demo_primitives) [9]) [3] [3] [1; 2]
           demo_message
           {| init_version := 120; client_ephemeral := demo_pad 32 [7];
              client_static_ciphertext := slice 37 85 demo_init; payload_tag := slice 85 101 demo_init |}
           demo_output demo_output
           ltac:(by vm_compute) ltac:(by vm_compute) ltac:(by vm_compute) ltac:(by vm_compute)
           ltac:(by vm_compute) ltac:(by vm_compute)).
Defined.
