(* ===== verification/Sessions.v ===== *)
(** * Session lifecycle ([crabscale-control/src/session.rs])

    The registry of live map sessions: counts per node, the reconnect grace and
    the online/offline transitions.  Times and ids ([i64]) are integers. *)

From S2P Require Import Prelude.

Definition DEFAULT_RECONNECT_GRACE_SECONDS : Z := 10.

Inductive SessionEvent : Type :=
| Online (node_id : Z)
| Offline (node_id : Z)
| EphemeralExpired (node_id : Z).

#[global] Instance SessionEvent_eq_dec : EqDecision SessionEvent.
Proof. solve_decision. Defined.

Record NodeSessions : Type := {
  live : Z;
  online : bool;
  offline_at : option Z;
  ephemeral : bool;
}.

Record SessionRegistry : Type := {
  grace_seconds : Z;
  next_session_id : Z;
  sessions_of : gmap Z NodeSessions;
  session_to_node : gmap Z Z;
}.

Definition SessionRegistry_new (grace : Z) : SessionRegistry :=
  {| grace_seconds := grace; next_session_id := 1; sessions_of := ∅; session_to_node := ∅ |}.

(** The part of [open] that runs when no session of the node is live. *)
Definition open_transition (node_id now : Z) (e : NodeSessions)
    : NodeSessions * list SessionEvent :=
  if e.(live) =? 0 then
    let '(on, ev1) :=
      match e.(offline_at) with
      | Some at_ => if (at_ <=? now) && e.(online) then (false, [Offline node_id]) else (e.(online), [])
      | None => (e.(online), [])
      end in
    let ev2 := if negb on then [Online node_id] else [] in
    ({| live := e.(live); online := true; offline_at := None; ephemeral := e.(ephemeral) |},
     ev1 ++ ev2)
  else (e, []).

Definition session_open (node_id : Z) (eph : bool) (now : Z) (s : SessionRegistry)
    : SessionRegistry * Z * list SessionEvent :=
  let session_id := s.(next_session_id) in
  let e0 := default {| live := 0; online := false; offline_at := None; ephemeral := eph |}
              (s.(sessions_of) !! node_id) in
  let e1 := {| live := e0.(live); online := e0.(online); offline_at := e0.(offline_at);
               ephemeral := eph |} in
  let '(e2, events) := open_transition node_id now e1 in
  let e3 := {| live := e2.(live) + 1; online := e2.(online); offline_at := e2.(offline_at);
               ephemeral := e2.(ephemeral) |} in
  ({| grace_seconds := s.(grace_seconds); next_session_id := session_id + 1;
      sessions_of := <[node_id := e3]> s.(sessions_of);
      session_to_node := <[session_id := node_id]> s.(session_to_node) |}, session_id, events).

Definition session_close (session_id now : Z) (s : SessionRegistry) : SessionRegistry * bool :=
  match s.(session_to_node) !! session_id with
  | None => (s, false)
  | Some node_id =>
      let sessions' :=
        match s.(sessions_of) !! node_id with
        | Some e =>
            let n := Z.max 0 (e.(live) - 1) in
            <[node_id := {| live := n; online := e.(online);
                            offline_at := if n =? 0 then Some (now + s.(grace_seconds))
                                          else e.(offline_at);
                            ephemeral := e.(ephemeral) |}]> s.(sessions_of)
        | None => s.(sessions_of)
        end in
      ({| grace_seconds := s.(grace_seconds); next_session_id := s.(next_session_id);
          sessions_of := sessions';
          session_to_node := delete session_id s.(session_to_node) |}, true)
  end.

(** The loop body of [tick] on one entry: the entry, the events, and whether
    the node is to be removed. *)
Definition tick_entry (now node_id : Z) (e : NodeSessions)
    : NodeSessions * list SessionEvent * bool :=
  if negb (e.(live) =? 0) then (e, [], false)
  else
    match e.(offline_at) with
    | None => (e, [], false)
    | Some at_ =>
        if now <? at_ then (e, [], false)
        else
          ({| live := e.(live); online := false; offline_at := None; ephemeral := e.(ephemeral) |},
           (if e.(online) then [Offline node_id] else [])
             ++ (if e.(ephemeral) then [EphemeralExpired node_id] else []),
           e.(ephemeral))
    end.

Definition tick_events (now : Z) (s : SessionRegistry) (node_id : Z) : list SessionEvent :=
  match s.(sessions_of) !! node_id with
  | Some e => (tick_entry now node_id e).1.2
  | None => []
  end.

(** [tick]: [order] is the order in which the map of nodes is iterated. *)
Definition session_tick (order : list Z) (now : Z) (s : SessionRegistry)
    : SessionRegistry * list SessionEvent :=
  ({| grace_seconds := s.(grace_seconds); next_session_id := s.(next_session_id);
      sessions_of :=
        map_imap (λ id e, let '(e', _, expired) := tick_entry now id e in
                          if expired : bool then None else Some e') s.(sessions_of);
      session_to_node := s.(session_to_node) |},
   flat_map (tick_events now s) order).

Definition session_is_online (s : SessionRegistry) (node_id : Z) : bool :=
  match s.(sessions_of) !! node_id with Some e => e.(online) | None => false end.

Definition live_sessions (s : SessionRegistry) (node_id : Z) : Z :=
  match s.(sessions_of) !! node_id with Some e => e.(live) | None => 0 end.

(** ** Runs *)

Inductive session_op : Type :=
| OpOpen (node_id : Z) (eph : bool) (now : Z)
| OpClose (session_id now : Z)
| OpTick (order : list Z) (now : Z).

Definition session_step (op : session_op) (s : SessionRegistry)
    : SessionRegistry * list SessionEvent :=
  match op with
  | OpOpen n e t => let '(s', _, ev) := session_open n e t s in (s', ev)
  | OpClose i t => ((session_close i t s).1, [])
  | OpTick order t => session_tick order t s
  end.

(** A tick iterates each node of the map once. *)
Definition op_ok (op : session_op) (s : SessionRegistry) : Prop :=
  match op with
  | OpTick order _ => order ≡ₚ elements (dom s.(sessions_of))
  | _ => True
  end.

(** [session_run s evs]: the registry can reach [s] having emitted [evs]. *)
Inductive session_run (grace : Z) : SessionRegistry → list SessionEvent → Prop :=
| session_run_nil : session_run grace (SessionRegistry_new grace) []
| session_run_step s evs op s' ev :
    session_run grace s evs → op_ok op s → session_step op s = (s', ev) →
    session_run grace s' (evs ++ ev).

(** ** Invariant *)

Definition sessions_for (node_id : Z) (s : SessionRegistry) : gset Z :=
  dom (filter (λ p, p.2 = node_id) s.(session_to_node)).

Record session_inv (s : SessionRegistry) : Prop := {
  (** the count of a node is the number of its open sessions *)
  si_live n : live_sessions s n = Z.of_nat (size (sessions_for n s));
  (** a node with a live session is online and has no pending transition *)
  si_online n e : s.(sessions_of) !! n = Some e → 0 < e.(live) →
                  e.(online) = true ∧ e.(offline_at) = None;
  (** an online node without live sessions has its transition scheduled *)
  si_grace n e : s.(sessions_of) !! n = Some e → e.(live) = 0 → e.(online) = true →
                 is_Some e.(offline_at);
  si_fresh i n : s.(session_to_node) !! i = Some n → i < s.(next_session_id);
}.

Lemma elem_of_sessions_for i n s : i ∈ sessions_for n s ↔ s.(session_to_node) !! i = Some n.
Proof.
  unfold sessions_for. rewrite elem_of_dom. split.
  - intros [m [? ?]%map_lookup_filter_Some]. cbn in *. by subst.
  - intros. exists n. by apply map_lookup_filter_Some.
Qed.

Lemma session_inv_new grace : session_inv (SessionRegistry_new grace).
Proof.
  constructor; [|done..]. intros n. change (live_sessions _ n) with 0.
  assert (sessions_for n (SessionRegistry_new grace) = ∅) as ->; [|done].
  apply set_eq. intros i. rewrite elem_of_sessions_for. cbn. set_solver.
Qed.

Lemma open_transition_spec n now e e' ev :
  open_transition n now e = (e', ev) →
  e'.(live) = e.(live) ∧ e'.(ephemeral) = e.(ephemeral)
  ∧ (e.(live) = 0 → e'.(online) = true ∧ e'.(offline_at) = None)
  ∧ (e.(live) ≠ 0 → e' = e ∧ ev = []).
Proof.
  unfold open_transition. destruct (Z.eqb_spec (live e) 0) as [Hl|Hl].
  - destruct (match offline_at e with Some _ => _ | None => _ end) as [on ev1].
    intros [= <- <-]. cbn. by split_and!.
  - intros [= <- <-]. by split_and!.
Qed.

Lemma live_nonneg s n e : session_inv s → s.(sessions_of) !! n = Some e → 0 ≤ e.(live).
Proof.
  intros Hs He. pose proof (si_live s Hs n) as Hl. unfold live_sessions in Hl.
  rewrite He in Hl. lia.
Qed.

Lemma sessions_for_open n eph now s m :
  session_inv s →
  sessions_for m (session_open n eph now s).1.1
  = (if decide (m = n) then {[next_session_id s]} else ∅) ∪ sessions_for m s.
Proof.
  intros Hs. apply set_eq. intros i. rewrite elem_of_union, !elem_of_sessions_for.
  unfold session_open. destruct (open_transition _ _ _) as [e2 ev]. cbn.
  rewrite lookup_insert_Some.
  assert (session_to_node s !! next_session_id s = None) as Hno.
  { destruct (session_to_node s !! _) eqn:E; [|done]. apply (si_fresh s Hs) in E. lia. }
  destruct (decide (m = n)) as [->|]; [rewrite elem_of_singleton|rewrite elem_of_empty];
    destruct (decide (i = next_session_id s)) as [->|]; naive_solver.
Qed.

Lemma session_inv_open n eph now s :
  session_inv s → session_inv (session_open n eph now s).1.1.
Proof.
  intros Hs. pose proof (sessions_for_open n eph now s) as Hsf. unfold session_open in *.
  set (e0 := default _ _) in *.
  assert (Hlive0 : live e0 = live_sessions s n).
  { unfold e0, live_sessions. by destruct (sessions_of s !! n). }
  destruct (open_transition n now _) as [e2 ev] eqn:Ht. cbn in Hsf.
  apply open_transition_spec in Ht as (Hl & _ & Hz & Hnz). cbn in Hl, Hz, Hnz.
  pose proof (si_live s Hs n) as Hcount. constructor; cbn.
  - intros m. rewrite Hsf by done. unfold live_sessions. cbn.
    destruct (decide (m = n)) as [->|Hne].
    + rewrite lookup_insert_eq. cbn. rewrite Hl, Hlive0, Hcount, size_union_alt, size_singleton.
      assert (sessions_for n s ∖ {[next_session_id s]} = sessions_for n s) as ->; [|lia].
      apply difference_disjoint_L, disjoint_singleton_r.
      rewrite elem_of_sessions_for. intros E%(si_fresh s Hs). lia.
    + rewrite lookup_insert_ne by done. rewrite (left_id_L ∅ (∪)). apply (si_live s Hs).
  - intros m e. rewrite lookup_insert_Some. intros [[<- <-]|[_ He]]; [|by apply (si_online s Hs m)].
    cbn. intros _. destruct (Z.eq_dec (live e0) 0) as [H0|H0]; [by apply Hz|].
    destruct (Hnz H0) as [-> _]. cbn. unfold e0 in *.
    destruct (sessions_of s !! n) as [e|] eqn:He; cbn in *; [|done].
    apply (si_online s Hs n e He). pose proof (live_nonneg s n e Hs He). lia.
  - intros m e. rewrite lookup_insert_Some. intros [[<- <-]|[_ He]]; [|by apply (si_grace s Hs m)].
    cbn. intros H0. exfalso. unfold e0 in *.
    destruct (sessions_of s !! n) as [e|] eqn:He; cbn in *; [|lia].
    pose proof (live_nonneg s n e Hs He). lia.
  - intros i m. rewrite lookup_insert_Some. intros [[<- _]|[_ Hi]]; [lia|].
    apply (si_fresh s Hs) in Hi. lia.
Qed.

Lemma sessions_for_close i now s m :
  sessions_for m (session_close i now s).1 = sessions_for m s ∖ {[i]}.
Proof.
  apply set_eq. intros j. rewrite elem_of_difference, elem_of_singleton, !elem_of_sessions_for.
  unfold session_close. destruct (session_to_node s !! i) as [n|] eqn:Hi; cbn.
  - rewrite lookup_delete_Some. naive_solver.
  - split; [|tauto]. intros Hj. split; [done|]. intros ->. congruence.
Qed.

(** An open session is counted: its node is in the map, with a live session. *)
Lemma session_counted i n s :
  session_inv s → s.(session_to_node) !! i = Some n →
  ∃ e, s.(sessions_of) !! n = Some e ∧ 0 < e.(live).
Proof.
  intros Hs Hi. pose proof (si_live s Hs n) as Hc. unfold live_sessions in Hc.
  assert (Hin : i ∈ sessions_for n s) by (by apply elem_of_sessions_for).
  assert (size (sessions_for n s) ≠ 0%nat).
  { intros Hz%size_empty_inv. set_solver. }
  destruct (sessions_of s !! n) as [e|]; [exists e; split; [done|lia]|lia].
Qed.

Lemma session_inv_close i now s : session_inv s → session_inv (session_close i now s).1.
Proof.
  intros Hs. pose proof (sessions_for_close i now s) as Hsf. unfold session_close in *.
  destruct (session_to_node s !! i) as [n|] eqn:Hi; [|done].
  destruct (session_counted i n s Hs Hi) as (e & He & Hpos). rewrite He in *.
  pose proof (si_live s Hs n) as Hc. unfold live_sessions in Hc. rewrite He in Hc.
  constructor; cbn.
  - intros m. rewrite Hsf. unfold live_sessions. cbn. destruct (decide (m = n)) as [->|Hne].
    + rewrite lookup_insert_eq. cbn.
      rewrite size_difference, size_singleton; [lia|].
      apply singleton_subseteq_l. by apply elem_of_sessions_for.
    + rewrite lookup_insert_ne by done. rewrite difference_disjoint_L; [apply (si_live s Hs)|].
      apply disjoint_singleton_r. rewrite elem_of_sessions_for. congruence.
  - intros m e'. rewrite lookup_insert_Some. intros [[<- <-]|[_ He']]; [|by apply (si_online s Hs m)].
    cbn. intros H1. destruct (Z.eqb_spec (Z.max 0 (live e - 1)) 0); [lia|].
    by apply (si_online s Hs n).
  - intros m e'. rewrite lookup_insert_Some. intros [[<- <-]|[_ He']]; [|by apply (si_grace s Hs m)].
    cbn. intros H1 _. rewrite H1. by eexists.
  - intros j m. rewrite lookup_delete_Some. intros [_ Hj]. by apply (si_fresh s Hs) in Hj.
Qed.

Lemma tick_entry_spec now n e e' ev x :
  tick_entry now n e = (e', ev, x) →
  e'.(live) = e.(live) ∧ (x = true → e.(live) = 0)
  ∧ (e' = e ∨ (e.(live) = 0 ∧ e'.(online) = false)).
Proof.
  unfold tick_entry. destruct (Z.eqb_spec (live e) 0) as [Hl|]; cbn [negb].
  - destruct (offline_at e) as [t|]; [destruct (now <? t)|];
      intros [= <- <- <-]; split_and!; auto.
  - intros [= <- <- <-]. split_and!; auto. done.
Qed.

Lemma session_inv_tick order now s : session_inv s → session_inv (session_tick order now s).1.
Proof.
  intros Hs.
  assert (Hl : ∀ n e', sessions_of (session_tick order now s).1 !! n = Some e' →
    ∃ e, sessions_of s !! n = Some e ∧ e'.(live) = e.(live)
         ∧ (e' = e ∨ (e.(live) = 0 ∧ e'.(online) = false))).
  { intros n e'. cbn. rewrite map_lookup_imap. intros (e & He & Hx)%bind_Some.
    destruct (tick_entry now n e) as [[e1 ev] x] eqn:Ht. destruct x; [done|].
    injection Hx as <-. apply tick_entry_spec in Ht as (? & _ & ?). eauto. }
  constructor.
  - intros n. change (sessions_for n (session_tick order now s).1) with (sessions_for n s).
    rewrite <- (si_live s Hs). unfold live_sessions.
    destruct (sessions_of (session_tick order now s).1 !! n) as [e'|] eqn:He'.
    + destruct (Hl n e' He') as (e & -> & Hlive & _). done.
    + cbn in He'. rewrite map_lookup_imap in He'. destruct (sessions_of s !! n) as [e|] eqn:He; [|done].
      cbn in He'. destruct (tick_entry now n e) as [[e1 ev] x] eqn:Ht. destruct x; [|done].
      apply tick_entry_spec in Ht as (_ & Hx & _). by rewrite Hx.
  - intros n e' He' Hpos. destruct (Hl n e' He') as (e & He & Hlive & [->|[? ?]]); [|lia].
    by apply (si_online s Hs n).
  - intros n e' He' H0 Hon. destruct (Hl n e' He') as (e & He & Hlive & [->|[? ?]]); [|congruence].
    by apply (si_grace s Hs n).
  - apply (si_fresh s Hs).
Qed.

Lemma session_inv_step op s : session_inv s → session_inv (session_step op s).1.
Proof.
  intros Hs. destruct op as [n e t|i t|order t]; cbn [session_step].
  - pose proof (session_inv_open n e t s Hs) as H. by destruct (session_open n e t s) as [[s' ?] ?].
  - by apply session_inv_close.
  - by apply session_inv_tick.
Qed.

Lemma session_run_inv grace s evs : session_run grace s evs → session_inv s.
Proof.
  induction 1 as [|s evs op s' ev _ IH _ Hstep]; [apply session_inv_new|].
  pose proof (session_inv_step op s IH) as H. by rewrite Hstep in H.
Qed.

(** ** The promise to subscribers *)

(** What a subscriber may rely on for one node: transitions alternate, and an
    ephemeral node is only collected while it is offline.  The state is whether
    the node is online, [None] a broken promise. *)
Definition presence_step (n : Z) (st : bool) (ev : SessionEvent) : option bool :=
  match ev with
  | Online m => if m =? n then (if st then None else Some true) else Some st
  | Offline m => if m =? n then (if st then Some false else None) else Some st
  | EphemeralExpired m => if m =? n then (if st then None else Some false) else Some st
  end.

Fixpoint presence (n : Z) (st : bool) (evs : list SessionEvent) : option bool :=
  match evs with
  | [] => Some st
  | ev :: evs => st' ← presence_step n st ev; presence n st' evs
  end.

Lemma presence_app n st evs1 evs2 :
  presence n st (evs1 ++ evs2) = (st' ← presence n st evs1; presence n st' evs2).
Proof.
  revert st. induction evs1 as [|ev evs1 IH]; intros st; cbn; [done|].
  destruct (presence_step n st ev); cbn; [apply IH|done].
Qed.

Definition about (m : Z) (ev : SessionEvent) : Prop :=
  match ev with Online k | Offline k | EphemeralExpired k => k = m end.

Lemma presence_other n m st evs : n ≠ m → Forall (about m) evs → presence n st evs = Some st.
Proof.
  intros Hne. induction 1 as [|ev evs Hev _ IH]; [done|].
  destruct ev; cbn in *; subst; (destruct (Z.eqb_spec m n); [congruence|]); exact IH.
Qed.

Lemma open_transition_presence n now e e' ev :
  open_transition n now e = (e', ev) → (e.(live) ≠ 0 → e.(online) = true) →
  presence n e.(online) ev = Some true ∧ Forall (about n) ev.
Proof.
  unfold open_transition. destruct (Z.eqb_spec (live e) 0) as [Hl|Hl].
  - intros Ht _. destruct (online e), (offline_at e) as [at_|]; cbn in Ht;
      try destruct (at_ <=? now); cbn in Ht; injection Ht as _ <-; cbn;
      rewrite ?Z.eqb_refl; cbn; rewrite ?Z.eqb_refl; repeat constructor.
  - intros [= <- <-] Hon. by rewrite Hon.
Qed.

Lemma tick_entry_presence now n e e' ev x :
  tick_entry now n e = (e', ev, x) →
  presence n e.(online) ev = Some (if x then false else e'.(online)) ∧ Forall (about n) ev.
Proof.
  unfold tick_entry. destruct (Z.eqb_spec (live e) 0); cbn [negb].
  - destruct (offline_at e) as [at_|]; [destruct (now <? at_)|]; intros [= <- <- <-];
      [by repeat constructor| |by repeat constructor].
    destruct (online e), (ephemeral e); cbn; rewrite ?Z.eqb_refl; cbn; rewrite ?Z.eqb_refl;
      repeat constructor.
  - intros [= <- <- <-]. repeat constructor.
Qed.

Lemma tick_events_about now s m : Forall (about m) (tick_events now s m).
Proof.
  unfold tick_events. destruct (sessions_of s !! m) as [e|]; [|constructor].
  destruct (tick_entry now m e) as [[e' ev] x] eqn:Ht. by apply tick_entry_presence in Ht as [_ ?].
Qed.

Lemma presence_flat_map n st (f : Z → list SessionEvent) order :
  NoDup order → (∀ m, Forall (about m) (f m)) →
  presence n st (flat_map f order) = presence n st (if decide (n ∈ order) then f n else []).
Proof.
  intros Hnd Hf. revert st. induction Hnd as [|m order Hm _ IH]; intros st; [done|].
  cbn [flat_map]. rewrite presence_app. destruct (decide (m = n)) as [->|Hne].
  - rewrite decide_True by (by left). destruct (presence n st (f n)) as [st'|]; [|done]. cbn.
    rewrite IH, decide_False by done. done.
  - rewrite (presence_other n m) by auto. cbn. rewrite IH.
    destruct (decide (n ∈ order)); [rewrite decide_True|rewrite decide_False]; set_solver.
Qed.

Lemma presence_step_ok op s s' ev n :
  session_inv s → op_ok op s → session_step op s = (s', ev) →
  presence n (session_is_online s n) ev = Some (session_is_online s' n).
Proof.
  intros Hs Hok. destruct op as [m eph t|i t|order t]; cbn [session_step].
  - unfold session_open. set (e0 := default _ _).
    destruct (open_transition m t _) as [e2 ev2] eqn:Ht. intros [= <- <-].
    pose proof Ht as Hsp. apply open_transition_spec in Hsp as (_ & _ & Hz & Hnz). cbn in Hz, Hnz.
    assert (Hon0 : e0.(live) ≠ 0 → e0.(online) = true).
    { unfold e0. destruct (sessions_of s !! m) as [e|] eqn:He; cbn; [|done].
      intros. apply (si_online s Hs m e He). pose proof (live_nonneg s m e Hs He). lia. }
    apply open_transition_presence in Ht as [Hp Ha]; [|done]. cbn in Hp.
    unfold session_is_online. cbn. destruct (decide (n = m)) as [->|Hne].
    + rewrite lookup_insert_eq. cbn.
      assert (online e2 = true) as ->.
      { destruct (Z.eq_dec (live e0) 0) as [H0|H0]; [by apply Hz|].
        destruct (Hnz H0) as [-> _]. by apply Hon0. }
      unfold e0 in Hp. by destruct (sessions_of s !! m).
    + rewrite lookup_insert_ne by done. by apply (presence_other n m).
  - intros [= <- <-]. unfold session_is_online, session_close. cbn.
    destruct (session_to_node s !! i) as [m|]; [|done]. cbn.
    destruct (sessions_of s !! m) as [e|] eqn:He; [|done].
    destruct (decide (n = m)) as [->|Hne].
    + by rewrite lookup_insert_eq, He.
    + by rewrite lookup_insert_ne.
  - intros Heq. apply (f_equal fst) in Heq as Hs'. apply (f_equal snd) in Heq as Hev.
    cbn [fst snd] in Hs', Hev. subst s' ev. clear Heq. cbn [session_tick fst snd].
    rewrite presence_flat_map; [|cbn in Hok; rewrite Hok; apply NoDup_elements|apply tick_events_about].
    unfold session_is_online. cbn [sessions_of]. rewrite map_lookup_imap. cbn [op_ok] in Hok.
    destruct (sessions_of s !! n) as [e|] eqn:He.
    + rewrite decide_True by (rewrite Hok; apply elem_of_elements, elem_of_dom; eauto).
      unfold tick_events. rewrite He. cbn [mbind option_bind].
      destruct (tick_entry t n e) as [[e' ev] x] eqn:Ht.
      apply tick_entry_presence in Ht as [Hp _]. cbn [fst snd]. rewrite Hp. by destruct x.
    + by destruct (decide _); unfold tick_events; rewrite ?He.
Qed.

(** C29. The registry implements the two-state presence automaton of every node,
    whatever the interleaving of opens, closes and ticks: transitions are
    reported once and alternate, an ephemeral node is only collected while
    offline, and replaying the events a subscriber received gives the current
    online state.  Along the way the live count of a node is the number of its
    open sessions. *)
Theorem session_presence_refines grace s evs n :
  session_run grace s evs →
  presence n false evs = Some (session_is_online s n)
  ∧ live_sessions s n = Z.of_nat (size (sessions_for n s))
  ∧ (0 < live_sessions s n → session_is_online s n = true).
Proof.
  intros Hrun. pose proof (session_run_inv _ _ _ Hrun) as Hs. split_and!.
  - clear Hs. induction Hrun as [|s evs op s' ev Hrun IH Hok Hstep]; [done|].
    rewrite presence_app, IH. cbn.
    by apply (presence_step_ok op); [by eapply session_run_inv|..].
  - apply Hs.
  - unfold live_sessions, session_is_online. destruct (sessions_of s !! n) as [e|] eqn:He; [|lia].
    intros. by apply (si_online s Hs n e).
Qed.

Lemma session_presence_refines_witness :
  let s1 := (session_open 7 false 100 (SessionRegistry_new 10)).1.1 in
  presence 7 false ([] ++ [Online 7]) = Some (session_is_online s1 7)
  ∧ live_sessions s1 7 = Z.of_nat (size (sessions_for 7 s1))
  ∧ (0 < live_sessions s1 7 → session_is_online s1 7 = true).
Proof.
  apply (session_presence_refines 10).
  eapply (session_run_step 10 (SessionRegistry_new 10) [] (OpOpen 7 false 100));
    [constructor|done|by vm_compute].
Defined.

(** The reconnect grace: closing a node's last session keeps it online; until
    the grace has passed neither a reconnect nor a tick reports anything, from
    then on the next tick reports the node offline, once, and collects it if it
    is ephemeral. *)
Theorem reconnect_grace i n t t' eph s :
  session_inv s → s.(session_to_node) !! i = Some n → live_sessions s n = 1 →
  let s1 := (session_close i t s).1 in
  session_is_online s1 n = true
  ∧ (t' < t + s.(grace_seconds) →
     (session_open n eph t' s1).2 = [] ∧ tick_events t' s1 n = [])
  ∧ (t + s.(grace_seconds) ≤ t' →
     (session_open n eph t' s1).2 = [Offline n; Online n]
     ∧ ∃ rest, tick_events t' s1 n = Offline n :: rest
               ∧ (rest = [] ∨ rest = [EphemeralExpired n])).
Proof.
  intros Hs Hi Hl. destruct (session_counted i n s Hs Hi) as (e & He & Hpos).
  unfold live_sessions in Hl. rewrite He in Hl.
  destruct (si_online s Hs n e He Hpos) as [Hon Hoff].
  cbv zeta. unfold session_is_online, tick_events, session_open, session_close.
  rewrite Hi, He. cbn. rewrite lookup_insert_eq. cbn. rewrite Hl, Hon. cbn. split; [done|].
  unfold open_transition, tick_entry. change (0 `max` (1 - 1)) with 0. cbn.
  split; intros Ht;
    (destruct (Z.ltb_spec t' (t + grace_seconds s)), (Z.leb_spec (t + grace_seconds s) t'); try lia).
  - done.
  - split; [done|]. eexists. split; [done|]. destruct (ephemeral e); auto.
Qed.

Lemma reconnect_grace_witness :
  let s := (session_open 7 true 100 (SessionRegistry_new 10)).1.1 in
  let s1 := (session_close 1 105 s).1 in
  session_is_online s1 7 = true
  ∧ (110 < 105 + 10 → (session_open 7 true 110 s1).2 = [] ∧ tick_events 110 s1 7 = [])
  ∧ (105 + 10 ≤ 110 → (session_open 7 true 110 s1).2 = [Offline 7; Online 7]
     ∧ ∃ rest, tick_events 110 s1 7 = Offline 7 :: rest
               ∧ (rest = [] ∨ rest = [EphemeralExpired 7])).
Proof.
  refine (reconnect_grace 1 7 105 110 true _ _ _ _).
  - apply session_inv_open, session_inv_new.
  - by vm_compute.
  - by vm_compute.
Defined.
