(* ===== verification/Events.v ===== *)
(** * The change bus ([crabscale-control/src/events.rs])

    Events are coalesced per node in an accumulator and drained as one ordered
    batch, early when enough distinct events are pending.  The broadcast
    channel is the list of the batches sent on it. *)

From S2P Require Import Prelude.

Definition DEFAULT_CHANGE_BATCH_MAX : Z := 64.

Inductive ChangeEvent : Type :=
| NodeChanged (id : Z)
| NodeRemoved (id : Z)
| PolicyChanged
| DnsChanged
| DerpMapChanged
| OnlineChanged (node_id : Z) (on : bool)
| PeerSeen (id : Z).

#[global] Instance ChangeEvent_eq_dec : EqDecision ChangeEvent.
Proof. solve_decision. Defined.

Record ChangeBatch : Type := { batch_events : list ChangeEvent }.

Definition batch_is_empty (b : ChangeBatch) : bool :=
  match b.(batch_events) with [] => true | _ => false end.

Definition has_dns (b : ChangeBatch) : bool :=
  existsb (λ e, match e with DnsChanged => true | _ => false end) b.(batch_events).
Definition has_derp (b : ChangeBatch) : bool :=
  existsb (λ e, match e with DerpMapChanged => true | _ => false end) b.(batch_events).
Definition has_policy (b : ChangeBatch) : bool :=
  existsb (λ e, match e with PolicyChanged => true | _ => false end) b.(batch_events).
Definition needs_peer_rescan (b : ChangeBatch) : bool :=
  existsb (λ e, match e with
                | NodeChanged _ | NodeRemoved _ | PolicyChanged | OnlineChanged _ _ | PeerSeen _ => true
                | DnsChanged | DerpMapChanged => false
                end) b.(batch_events).
Definition online_changes (b : ChangeBatch) : list (Z * bool) :=
  omap (λ e, match e with OnlineChanged n o => Some (n, o) | _ => None end) b.(batch_events).
Definition seen_nodes (b : ChangeBatch) : list Z :=
  omap (λ e, match e with PeerSeen n => Some n | _ => None end) b.(batch_events).

Record NodeAccumulator : Type := {
  acc_changed : bool; acc_removed : bool; acc_seen : bool; acc_online : option bool }.

Definition NodeAccumulator_default : NodeAccumulator :=
  {| acc_changed := false; acc_removed := false; acc_seen := false; acc_online := None |}.

Record Accumulator : Type := {
  acc_nodes : gmap Z NodeAccumulator; acc_policy : bool; acc_dns : bool; acc_derp : bool }.

Definition Accumulator_default : Accumulator :=
  {| acc_nodes := ∅; acc_policy := false; acc_dns := false; acc_derp := false |}.

(** [self.nodes.entry(id).or_default()] updated by [f] *)
Definition update_node (id : Z) (f : NodeAccumulator → NodeAccumulator) (a : Accumulator)
    : Accumulator :=
  {| acc_nodes := <[id := f (default NodeAccumulator_default (a.(acc_nodes) !! id))]> a.(acc_nodes);
     acc_policy := a.(acc_policy); acc_dns := a.(acc_dns); acc_derp := a.(acc_derp) |}.

Definition acc_apply (a : Accumulator) (event : ChangeEvent) : Accumulator :=
  match event with
  | NodeChanged id =>
      update_node id (λ n, if negb n.(acc_removed) then
        {| acc_changed := true; acc_removed := n.(acc_removed); acc_seen := n.(acc_seen);
           acc_online := n.(acc_online) |} else n) a
  | NodeRemoved id =>
      update_node id (λ _,
        {| acc_changed := false; acc_removed := true; acc_seen := false; acc_online := None |}) a
  | PolicyChanged =>
      {| acc_nodes := a.(acc_nodes); acc_policy := true; acc_dns := a.(acc_dns); acc_derp := a.(acc_derp) |}
  | DnsChanged =>
      {| acc_nodes := a.(acc_nodes); acc_policy := a.(acc_policy); acc_dns := true; acc_derp := a.(acc_derp) |}
  | DerpMapChanged =>
      {| acc_nodes := a.(acc_nodes); acc_policy := a.(acc_policy); acc_dns := a.(acc_dns); acc_derp := true |}
  | OnlineChanged id on =>
      update_node id (λ n, if negb n.(acc_removed) then
        {| acc_changed := n.(acc_changed); acc_removed := n.(acc_removed); acc_seen := n.(acc_seen);
           acc_online := Some on |} else n) a
  | PeerSeen id =>
      update_node id (λ n, if negb n.(acc_removed) then
        {| acc_changed := n.(acc_changed); acc_removed := n.(acc_removed); acc_seen := true;
           acc_online := n.(acc_online) |} else n) a
  end.

Definition b2z (b : bool) : Z := if b then 1 else 0.

Definition node_count (n : NodeAccumulator) : Z :=
  b2z (n.(acc_removed) || n.(acc_changed))
  + b2z (match n.(acc_online) with Some _ => true | None => false end) + b2z n.(acc_seen).

Definition acc_count (a : Accumulator) : Z :=
  foldr (λ id t, node_count (default NodeAccumulator_default (a.(acc_nodes) !! id)) + t) 0
    (sorted_keys a.(acc_nodes))
  + b2z a.(acc_policy) + b2z a.(acc_dns) + b2z a.(acc_derp).

(** The events one drained node contributes. *)
Definition node_events (id : Z) (n : NodeAccumulator) : list ChangeEvent :=
  if n.(acc_removed) then [NodeRemoved id]
  else (if n.(acc_changed) then [NodeChanged id] else [])
       ++ match n.(acc_online) with Some on => [OnlineChanged id on] | None => [] end
       ++ (if n.(acc_seen) then [PeerSeen id] else []).

Definition drain_batch (a : Accumulator) : Accumulator * ChangeBatch :=
  ({| acc_nodes := ∅; acc_policy := false; acc_dns := false; acc_derp := false |},
   {| batch_events :=
        (if a.(acc_policy) then [PolicyChanged] else [])
        ++ (if a.(acc_dns) then [DnsChanged] else [])
        ++ (if a.(acc_derp) then [DerpMapChanged] else [])
        ++ flat_map (λ id, node_events id (default NodeAccumulator_default (a.(acc_nodes) !! id)))
             (sorted_keys a.(acc_nodes)) |}).

Record ChangeBus : Type := {
  bus_pending : Accumulator;
  bus_sent : list ChangeBatch;
  bus_max_events : Z;
}.

Definition ChangeBus_new (max_events : Z) : ChangeBus :=
  {| bus_pending := Accumulator_default; bus_sent := []; bus_max_events := max_events |}.

Definition bus_broadcast (b : ChangeBatch) (bus : ChangeBus) : ChangeBus :=
  if batch_is_empty b then bus
  else {| bus_pending := bus.(bus_pending); bus_sent := bus.(bus_sent) ++ [b];
          bus_max_events := bus.(bus_max_events) |}.

Definition set_pending (a : Accumulator) (bus : ChangeBus) : ChangeBus :=
  {| bus_pending := a; bus_sent := bus.(bus_sent); bus_max_events := bus.(bus_max_events) |}.

Definition bus_publish (event : ChangeEvent) (bus : ChangeBus) : ChangeBus :=
  let pending := acc_apply bus.(bus_pending) event in
  if bus.(bus_max_events) <=? acc_count pending then
    let '(a, batch) := drain_batch pending in bus_broadcast batch (set_pending a bus)
  else set_pending pending bus.

Definition bus_flush (bus : ChangeBus) : ChangeBus :=
  let '(a, batch) := drain_batch bus.(bus_pending) in
  bus_broadcast batch (set_pending a bus).

Definition pending_count (bus : ChangeBus) : Z := acc_count bus.(bus_pending).

(** ** What a window of events amounts to *)

Fixpoint last_online (n : Z) (evs : list ChangeEvent) : option bool :=
  match evs with
  | [] => None
  | e :: evs =>
      match last_online n evs with
      | Some b => Some b
      | None => match e with OnlineChanged m b => if m =? n then Some b else None | _ => None end
      end
  end.

(** [net evs e]: event [e] is part of the net effect of the events [evs]. *)
Definition net (evs : list ChangeEvent) (e : ChangeEvent) : Prop :=
  match e with
  | PolicyChanged | DnsChanged | DerpMapChanged | NodeRemoved _ => e ∈ evs
  | NodeChanged n | PeerSeen n => e ∈ evs ∧ NodeRemoved n ∉ evs
  | OnlineChanged n b => last_online n evs = Some b ∧ NodeRemoved n ∉ evs
  end.

(** The state of the accumulator after [evs], by node. *)
Definition node_summary (n : Z) (evs : list ChangeEvent) : NodeAccumulator :=
  if bool_decide (NodeRemoved n ∈ evs) then
    {| acc_changed := false; acc_removed := true; acc_seen := false; acc_online := None |}
  else
    {| acc_changed := bool_decide (NodeChanged n ∈ evs); acc_removed := false;
       acc_seen := bool_decide (PeerSeen n ∈ evs); acc_online := last_online n evs |}.

Definition apply_all (evs : list ChangeEvent) (a : Accumulator) : Accumulator :=
  foldl acc_apply a evs.

Lemma last_online_snoc n evs e :
  last_online n (evs ++ [e]) =
  match e with
  | OnlineChanged m b => if m =? n then Some b else last_online n evs
  | _ => last_online n evs
  end.
Proof.
  induction evs as [|e' evs IH]; cbn; [by destruct e|]. rewrite IH.
  destruct e; try done. by destruct (node_id =? n).
Qed.

Lemma elem_of_snoc {A} (x y : A) l : x ∈ l ++ [y] ↔ x ∈ l ∨ x = y.
Proof. by rewrite elem_of_app, list_elem_of_singleton. Qed.

Lemma bool_decide_snoc (x y : ChangeEvent) l :
  bool_decide (x ∈ l ++ [y]) = bool_decide (x ∈ l) || bool_decide (x = y).
Proof.
  apply eq_true_iff_eq. rewrite orb_true_iff, !bool_decide_eq_true. apply elem_of_snoc.
Qed.

Lemma lookup_update id f a n :
  default NodeAccumulator_default ((update_node id f a).(acc_nodes) !! n)
  = if id =? n then f (default NodeAccumulator_default (a.(acc_nodes) !! n))
    else default NodeAccumulator_default (a.(acc_nodes) !! n).
Proof.
  unfold update_node. cbn [acc_nodes]. destruct (Z.eqb_spec id n) as [->|Hne].
  - by rewrite lookup_insert_eq.
  - by rewrite lookup_insert_ne.
Qed.

(** Decides the equalities between events that are left in the goal. *)
Ltac decide_events :=
  repeat match goal with
  | |- context [bool_decide (?a = ?b)] =>
      first [rewrite (bool_decide_eq_true_2 (a = b)) by done
            |rewrite (bool_decide_eq_false_2 (a = b)) by congruence]
  end; rewrite ?orb_false_r, ?orb_true_r.

Lemma acc_summary evs n :
  default NodeAccumulator_default ((apply_all evs Accumulator_default).(acc_nodes) !! n)
  = node_summary n evs.
Proof.
  unfold apply_all. induction evs as [|e evs IH] using rev_ind; [done|].
  rewrite foldl_app. cbn [foldl]. unfold node_summary in *.
  rewrite !bool_decide_snoc, last_online_snoc.
  destruct e as [m|m| | | |m b|m]; cbn [acc_apply]; rewrite ?lookup_update, ?IH;
    try (destruct (Z.eqb_spec m n) as [->|?]); decide_events; try done;
    by destruct (bool_decide (NodeRemoved n ∈ evs)).
Qed.

Lemma acc_globals evs :
  (apply_all evs Accumulator_default).(acc_policy) = bool_decide (PolicyChanged ∈ evs)
  ∧ (apply_all evs Accumulator_default).(acc_dns) = bool_decide (DnsChanged ∈ evs)
  ∧ (apply_all evs Accumulator_default).(acc_derp) = bool_decide (DerpMapChanged ∈ evs).
Proof.
  unfold apply_all. induction evs as [|e evs (IH1 & IH2 & IH3)] using rev_ind; [done|].
  rewrite foldl_app. cbn [foldl]. rewrite !bool_decide_snoc, <- IH1, <- IH2, <- IH3.
  destruct e; decide_events; done.
Qed.

Lemma node_events_default id : node_events id NodeAccumulator_default = [].
Proof. done. Qed.

(** The batch a window of events drains to. *)
Definition batch_of (evs : list ChangeEvent) : ChangeBatch :=
  (drain_batch (apply_all evs Accumulator_default)).2.

Lemma elem_of_flat_nodes e evs :
  e ∈ flat_map (λ id, node_events id (default NodeAccumulator_default
         ((apply_all evs Accumulator_default).(acc_nodes) !! id)))
       (sorted_keys (apply_all evs Accumulator_default).(acc_nodes))
  ↔ ∃ id, e ∈ node_events id (node_summary id evs).
Proof.
  rewrite list_elem_of_In, in_flat_map. setoid_rewrite <- list_elem_of_In.
  setoid_rewrite acc_summary. setoid_rewrite elem_of_sorted_keys. split; [naive_solver|].
  intros [id Hid]. exists id. split; [|done].
  destruct (acc_nodes _ !! id) eqn:E; [by eexists|].
  rewrite <- acc_summary, E in Hid. cbn in Hid. set_solver.
Qed.

Lemma elem_of_if {A} (b : bool) (x y : A) : x ∈ (if b then [y] else []) ↔ b = true ∧ x = y.
Proof. destruct b; [rewrite list_elem_of_singleton|]; set_solver. Qed.

Lemma elem_of_node_events e id n :
  e ∈ node_events id n ↔
  if n.(acc_removed) then e = NodeRemoved id
  else (n.(acc_changed) = true ∧ e = NodeChanged id)
       ∨ (∃ on, n.(acc_online) = Some on ∧ e = OnlineChanged id on)
       ∨ (n.(acc_seen) = true ∧ e = PeerSeen id).
Proof.
  unfold node_events. destruct (acc_removed n); [apply list_elem_of_singleton|].
  rewrite !elem_of_app, !elem_of_if.
  destruct (acc_online n) as [on|]; [rewrite list_elem_of_singleton|rewrite elem_of_nil]; naive_solver.
Qed.

Lemma batch_of_net evs e : e ∈ (batch_of evs).(batch_events) ↔ net evs e.
Proof.
  unfold batch_of. cbn [drain_batch snd batch_events].
  destruct (acc_globals evs) as (-> & -> & ->).
  rewrite !elem_of_app, !elem_of_if, elem_of_flat_nodes, !bool_decide_eq_true.
  setoid_rewrite elem_of_node_events. unfold node_summary. split.
  - intros [[? ->]|[[? ->]|[[? ->]|[id Hid]]]]; try done.
    case_bool_decide; cbn in Hid; [by subst|].
    destruct Hid as [[?%bool_decide_eq_true ->]|[(on & ? & ->)|[?%bool_decide_eq_true ->]]]; done.
  - destruct e as [n|n| | | |n b|n]; cbn [net]; try naive_solver;
      (intros Hn; do 3 right; exists n; case_bool_decide; cbn; [naive_solver|]).
    + left. rewrite bool_decide_eq_true. naive_solver.
    + by exfalso.
    + right. left. exists b. naive_solver.
    + do 2 right. rewrite bool_decide_eq_true. naive_solver.
Qed.

Lemma zlen_if {A} (b : bool) (x : A) : zlen (if b then [x] else []) = b2z b.
Proof. by destruct b. Qed.

Lemma node_count_summary id evs :
  node_count (node_summary id evs) = zlen (node_events id (node_summary id evs)).
Proof.
  unfold node_summary, node_count, node_events. case_bool_decide; cbn; [done|].
  rewrite !zlen_app, !zlen_if. destruct (last_online id evs) as [b|]; cbn [orb].
  - change (zlen [OnlineChanged id b]) with 1. cbn [b2z]. lia.
  - change (zlen (@nil ChangeEvent)) with 0. cbn [b2z]. lia.
Qed.

(** [count] is the number of events a drain would emit. *)
Lemma acc_count_batch evs :
  acc_count (apply_all evs Accumulator_default) = zlen (batch_of evs).(batch_events).
Proof.
  unfold acc_count, batch_of. cbn [drain_batch snd batch_events]. rewrite !zlen_app, !zlen_if.
  cut (∀ keys, foldr (λ id t, node_count (default NodeAccumulator_default
            ((apply_all evs Accumulator_default).(acc_nodes) !! id)) + t) 0 keys
        = zlen (flat_map (λ id, node_events id (default NodeAccumulator_default
            ((apply_all evs Accumulator_default).(acc_nodes) !! id))) keys)); [intros ->; lia|].
  induction keys as [|k keys IH]; [done|]. cbn [foldr flat_map].
  by rewrite zlen_app, IH, acc_summary, node_count_summary.
Qed.

Lemma last_online_elem n b evs : OnlineChanged n b ∈ evs → is_Some (last_online n evs).
Proof.
  induction evs as [|e evs IH]; [set_solver|]. intros [<-|Hin]%elem_of_cons; cbn.
  - rewrite Z.eqb_refl. by destruct (last_online n evs); eexists.
  - destruct (IH Hin) as [b' ->]. by eexists.
Qed.

Lemma net_of_elem e evs : e ∈ evs → ∃ e', net evs e'.
Proof.
  intros He.
  assert (Hrem : ∀ n, (NodeRemoved n ∉ evs → ∃ e', net evs e') → ∃ e', net evs e').
  { intros n Hn. destruct (decide (NodeRemoved n ∈ evs)); [by exists (NodeRemoved n)|auto]. }
  destruct e as [n|n| | | |n b|n]; try (apply (Hrem n); intros).
  - by exists (NodeChanged n).
  - by exists (NodeRemoved n).
  - by exists PolicyChanged.
  - by exists DnsChanged.
  - by exists DerpMapChanged.
  - destruct (last_online_elem _ _ _ He) as [b' Hb]. by exists (OnlineChanged n b').
  - by exists (PeerSeen n).
Qed.

Lemma batch_of_nonempty evs : evs ≠ [] → batch_is_empty (batch_of evs) = false.
Proof.
  intros Hne. destruct evs as [|e evs]; [done|].
  destruct (net_of_elem e (e :: evs)) as [e' He'%batch_of_net]; [by left|].
  unfold batch_is_empty. destruct (batch_events _); [set_solver|done].
Qed.

(** ** Runs of the bus *)

Inductive bus_op : Type := Publish (e : ChangeEvent) | Flush.

Definition bus_step (bus : ChangeBus) (op : bus_op) : ChangeBus :=
  match op with Publish e => bus_publish e bus | Flush => bus_flush bus end.

Definition published (ops : list bus_op) : list ChangeEvent :=
  omap (λ op, match op with Publish e => Some e | Flush => None end) ops.

Lemma drain_broadcast evs bus :
  bus_broadcast (batch_of evs) (set_pending Accumulator_default bus)
  = {| bus_pending := Accumulator_default;
       bus_sent := bus.(bus_sent) ++ (if bool_decide (evs = []) then [] else [batch_of evs]);
       bus_max_events := bus.(bus_max_events) |}.
Proof.
  unfold bus_broadcast. case_bool_decide as Hn.
  - subst. cbn. by rewrite app_nil_r.
  - by rewrite batch_of_nonempty.
Qed.

Lemma acc_count_default : acc_count Accumulator_default = 0.
Proof. by vm_compute. Qed.

(** C30. Nothing published is lost, invented, reordered across batches or repeated:
    the published events split, in order, into the windows of the batches sent
    and the events still pending; each batch is exactly the net effect of its
    window (a removal dominates the node's other events, the last online state
    wins), and with a positive limit fewer than that many are ever pending. *)
Theorem bus_delivers_net_effect max_events ops :
  let bus := foldl bus_step (ChangeBus_new max_events) ops in
  ∃ windows rest,
    published ops = concat windows ++ rest
    ∧ bus.(bus_pending) = apply_all rest Accumulator_default
    ∧ Forall2 (λ w b, w ≠ [] ∧ ∀ e, e ∈ b.(batch_events) ↔ net w e) windows bus.(bus_sent)
    ∧ (1 ≤ max_events → pending_count bus < max_events).
Proof.
  cut (let bus := foldl bus_step (ChangeBus_new max_events) ops in
    bus.(bus_max_events) = max_events ∧ ∃ windows rest,
      published ops = concat windows ++ rest
      ∧ bus.(bus_pending) = apply_all rest Accumulator_default
      ∧ Forall2 (λ w b, w ≠ [] ∧ ∀ e, e ∈ b.(batch_events) ↔ net w e) windows bus.(bus_sent)
      ∧ (1 ≤ max_events → pending_count bus < max_events)).
  { by intros [_ ?]. }
  induction ops as [|op ops IH] using rev_ind.
  { split; [done|]. exists [], []. split_and!; try done. intros. change (acc_count Accumulator_default < max_events).
    rewrite acc_count_default. lia. }
  cbv zeta in *. rewrite foldl_app. cbn [foldl]. set (bus := foldl _ _ ops) in *.
  destruct IH as (Hm & windows & rest & Hpub & Hpend & Hsent & Hcnt).
  assert (Happ : published (ops ++ [op]) = published ops ++ published [op]) by apply omap_app.
  rewrite Happ, Hpub. destruct op as [e|]; cbn [bus_step].
  - assert (Ha : acc_apply (bus_pending bus) e = apply_all (rest ++ [e]) Accumulator_default).
    { unfold apply_all. by rewrite Hpend, foldl_app. }
    unfold bus_publish. rewrite Ha, Hm.
    destruct (Z.leb_spec max_events (acc_count (apply_all (rest ++ [e]) Accumulator_default))).
    + change (drain_batch _) with (Accumulator_default, batch_of (rest ++ [e])).
      cbv iota beta. rewrite drain_broadcast, bool_decide_eq_false_2 by (by destruct rest).
      split; [done|]. exists (windows ++ [rest ++ [e]]), [].
      cbn [bus_pending bus_sent published omap list_omap]. rewrite concat_app. cbn [concat].
      rewrite !app_nil_r, app_assoc. split_and!; try done; [|intros; unfold pending_count; cbn [bus_pending]; rewrite acc_count_default; lia].
      apply Forall2_app; [done|]. constructor; [|constructor].
      split; [by destruct rest|apply batch_of_net].
    + split; [done|]. exists windows, (rest ++ [e]). cbn [bus_pending bus_sent set_pending]. by rewrite app_assoc.
  - unfold bus_flush. rewrite Hpend.
    change (drain_batch _) with (Accumulator_default, batch_of rest).
    cbv iota beta. rewrite drain_broadcast. split; [done|].
    exists (windows ++ (if bool_decide (rest = []) then [] else [rest])), [].
    cbn [bus_pending bus_sent published omap list_omap].
    rewrite concat_app, !app_nil_r. split_and!; try done; [| |intros; unfold pending_count; cbn [bus_pending]; rewrite acc_count_default; lia].
    + f_equal. case_bool_decide as Hr; [by rewrite Hr|]. cbn. by rewrite app_nil_r.
    + apply Forall2_app; [done|]. case_bool_decide; [constructor|].
      constructor; [|constructor]. split; [done|apply batch_of_net].
Qed.

(** A batch has no duplicates, the global changes first and then the nodes in
    ascending order. *)
Lemma batch_sorted evs : Sorted Z.le (sorted_keys (apply_all evs Accumulator_default).(acc_nodes)).
Proof. unfold sorted_keys. apply (Sorted_merge_sort Z.le). Qed.
