(* ===== verification/IpAlloc.v ===== *)
(** * Tailnet address allocation ([crabscale-control/src/ip_allocator.rs])

    The random generator is the sequence of values [gen_range(0..count)] drew:
    any function into [0, count).  The arithmetic is that of [u32] and [u128],
    with the wrap-around written out. *)

From S2P Require Import Prelude Net.

Inductive IpAllocatorError : Type := NoAddresses | Exhausted.

Record IpAllocator : Type := {
  ipv4_prefix : Z; ipv4_prefix_len : Z; ipv6_prefix : Z; ipv6_prefix_len : Z }.

Definition ipv4_host_range (prefix prefix_len : Z) : result (Z * Z) IpAllocatorError :=
  fail_if (prefix_len =? 0) || (32 <? prefix_len) with NoAddresses ;;
  let mask := prefix_mask 32 prefix_len in
  let network := Z.land prefix mask in
  let host_bits := 32 - prefix_len in
  fail_if host_bits <? 2 with NoAddresses ;;
  let host_count := wrap 32 (Z.shiftl 1 host_bits) in
  let first := wrap 32 (network + 1) in
  let count := wrap 32 (host_count - 2) in
  fail_if count =? 0 with NoAddresses ;;
  Ok (first, count).

Definition ipv6_host_range (prefix prefix_len : Z) : result (Z * Z) IpAllocatorError :=
  fail_if (prefix_len =? 0) || (128 <? prefix_len) with NoAddresses ;;
  let mask := prefix_mask 128 prefix_len in
  let network := Z.land prefix mask in
  let host_bits := 128 - prefix_len in
  fail_if host_bits <? 1 with NoAddresses ;;
  let host_count := wrap 128 (Z.shiftl 1 host_bits) in
  let first := wrap 128 (network + 1) in
  let count := wrap 128 (host_count - 1) in
  fail_if count =? 0 with NoAddresses ;;
  Ok (first, count).

(** The loop [for _ in 0..tries]: the first drawn candidate not in use. *)
Fixpoint draw_loop (bits : Z) (tries : nat) (first : Z) (used : gset Z) (draws : nat → Z) (i : nat)
    : result Z IpAllocatorError :=
  match tries with
  | O => Err Exhausted
  | S tries =>
      let candidate := wrap bits (first + draws i) in
      if bool_decide (candidate ∉ used) then Ok candidate
      else draw_loop bits tries first used draws (S i)
  end.

Definition TRIES : nat := 1024.

Definition allocate_ipv4 (a : IpAllocator) (used : gset Z) (draws : Z → nat → Z)
    : result Z IpAllocatorError :=
  let? (first, count) := ipv4_host_range a.(ipv4_prefix) a.(ipv4_prefix_len) in
  draw_loop 32 TRIES first used (draws count) 0.

Definition allocate_ipv6 (a : IpAllocator) (used : gset Z) (draws : Z → nat → Z)
    : result Z IpAllocatorError :=
  let? (first, count) := ipv6_host_range a.(ipv6_prefix) a.(ipv6_prefix_len) in
  draw_loop 128 TRIES first used (draws count) 0.

Definition allocate (a : IpAllocator) (used4 used6 : gset Z) (draws4 draws6 : Z → nat → Z)
    : result (Z * Z) IpAllocatorError :=
  let? ipv4 := allocate_ipv4 a used4 draws4 in
  let? ipv6 := allocate_ipv6 a used6 draws6 in
  Ok (ipv4, ipv6).

(** [gen_range(0..count)] *)
Definition draws_ok (draws : Z → nat → Z) : Prop :=
  ∀ count i, 0 < count → 0 ≤ draws count i < count.

(** A [u8] prefix length and the two prefixes. *)
Definition allocator_wf (a : IpAllocator) : Prop :=
  0 ≤ a.(ipv4_prefix) < 2 ^ 32 ∧ 0 ≤ a.(ipv4_prefix_len)
  ∧ 0 ≤ a.(ipv6_prefix) < 2 ^ 128 ∧ 0 ≤ a.(ipv6_prefix_len).

(** ** Lemmas *)

(** The usable hosts of a prefix: [skip] addresses at the end are left out
    besides the first. *)
Lemma host_range_bounds bits prefix len skip :
  0 < bits → 0 ≤ prefix < 2 ^ bits → 0 < len ≤ bits → 0 ≤ skip ≤ 1 → skip + 1 ≤ bits - len →
  let net := Z.land prefix (prefix_mask bits len) in
  wrap bits (net + 1) = net + 1
  ∧ wrap bits (wrap bits (Z.shiftl 1 (bits - len)) - (1 + skip)) = 2 ^ (bits - len) - (1 + skip)
  ∧ 0 < 2 ^ (bits - len) - (1 + skip) ∧ 0 ≤ net ∧ net + 2 ^ (bits - len) ≤ 2 ^ bits.
Proof.
  intros Hb Hp Hl Hs Hh. cbv zeta.
  destruct (prefix_net_range bits len prefix) as [H0 H1]; [lia|done|].
  set (net := Z.land prefix (prefix_mask bits len)) in *.
  assert (H2 : 2 ^ 1 ≤ 2 ^ (bits - len)) by (apply Z.pow_le_mono_r; lia).
  assert (H3 : skip = 1 → 2 ^ 2 ≤ 2 ^ (bits - len)) by (intros; apply Z.pow_le_mono_r; lia).
  assert (H4 : 2 ^ (bits - len) < 2 ^ bits) by (apply Z.pow_lt_mono_r; lia).
  unfold wrap. rewrite Z.shiftl_mul_pow2, Z.mul_1_l by lia.
  rewrite (Z.mod_small (2 ^ (bits - len))) by lia.
  rewrite !Z.mod_small by lia. lia.
Qed.

Lemma draw_loop_Ok bits tries first used draws i a :
  draw_loop bits tries first used draws i = Ok a →
  a ∉ used ∧ ∃ j, (i ≤ j < i + tries)%nat ∧ a = wrap bits (first + draws j).
Proof.
  revert i. induction tries as [|n IH]; intros i; cbn; [done|].
  case_bool_decide as Hu.
  - intros [= <-]. split; [done|]. exists i. split; [lia|done].
  - intros (? & j & ? & ->)%IH. split; [done|]. exists j. split; [lia|done].
Qed.

(** The loop fails exactly when every draw was in use. *)
Lemma draw_loop_Err bits tries first used draws i e :
  draw_loop bits tries first used draws i = Err e ↔
  e = Exhausted ∧ ∀ j, (i ≤ j < i + tries)%nat → wrap bits (first + draws j) ∈ used.
Proof.
  revert i. induction tries as [|n IH]; intros i; cbn.
  { split; [intros [= <-]; split; [done|lia]|by intros [-> _]]. }
  case_bool_decide as Hu.
  - split; [done|]. intros [_ Hall]. exfalso. apply Hu, Hall. lia.
  - rewrite IH. apply and_iff_compat_l. split.
    + intros Hall j Hj. destruct (decide (j = i)) as [->|]; [|apply Hall; lia].
      by destruct (decide (wrap bits (first + draws i) ∈ used)).
    + intros Hall j Hj. apply Hall. lia.
Qed.

Lemma ipv4_host_range_Ok p l first count :
  0 ≤ p < 2 ^ 32 → 0 ≤ l → ipv4_host_range p l = Ok (first, count) →
  0 ≤ l ≤ 32 ∧ first = Z.land p (prefix_mask 32 l) + 1 ∧ count = 2 ^ (32 - l) - 2 ∧ 0 < count
  ∧ 0 ≤ Z.land p (prefix_mask 32 l) ∧ Z.land p (prefix_mask 32 l) + 2 ^ (32 - l) ≤ 2 ^ 32.
Proof.
  intros Hp Hl. unfold ipv4_host_range. destruct (_ || _) eqn:E; [done|].
  destruct (Z.ltb_spec (32 - l) 2); [done|]. cbv zeta.
  destruct (host_range_bounds 32 p l 1) as (F & C & P & N & M); [lia..|].
  change (1 + 1) with 2 in C, P. rewrite F, C.
  destruct (Z.eqb_spec (2 ^ (32 - l) - 2) 0); [done|].
  intros [= <- <-]. split_and!; try done; lia.
Qed.

Lemma ipv6_host_range_Ok p l first count :
  0 ≤ p < 2 ^ 128 → 0 ≤ l → ipv6_host_range p l = Ok (first, count) →
  0 ≤ l ≤ 128 ∧ first = Z.land p (prefix_mask 128 l) + 1 ∧ count = 2 ^ (128 - l) - 1 ∧ 0 < count
  ∧ 0 ≤ Z.land p (prefix_mask 128 l) ∧ Z.land p (prefix_mask 128 l) + 2 ^ (128 - l) ≤ 2 ^ 128.
Proof.
  intros Hp Hl. unfold ipv6_host_range. destruct (_ || _) eqn:E; [done|].
  destruct (Z.ltb_spec (128 - l) 1); [done|]. cbv zeta.
  destruct (host_range_bounds 128 p l 0) as (F & C & P & N & M); [lia..|].
  change (1 + 0) with 1 in C, P. rewrite F, C.
  destruct (Z.eqb_spec (2 ^ (128 - l) - 1) 0); [done|].
  intros [= <- <-]. split_and!; try done; lia.
Qed.

(** A draw stays inside the prefix, above its first address. *)
Lemma drawn_address bits p l net d :
  0 ≤ l ≤ bits → 0 ≤ p < 2 ^ bits → net = Z.land p (prefix_mask bits l) → 0 ≤ net →
  net + 2 ^ (bits - l) ≤ 2 ^ bits → 0 ≤ d < 2 ^ (bits - l) - 1 →
  wrap bits (net + 1 + d) = net + 1 + d
  ∧ Z.land (net + 1 + d) (prefix_mask bits l) = net.
Proof.
  intros Hl Hp -> H0 H1 Hd. split; [apply Z.mod_small; lia|].
  apply prefix_block; [lia..|]. lia.
Qed.

(** The allocated pair is free and routable: each address is unused, lies
    inside its configured prefix, and is none of the reserved addresses (the
    IPv4 network and broadcast addresses, the IPv6 subnet-router anycast
    address); no step of the computation overflows its machine integer. *)
Theorem allocate_fresh_in_prefix a used4 used6 draws4 draws6 x4 x6 :
  allocator_wf a → draws_ok draws4 → draws_ok draws6 →
  allocate a used4 used6 draws4 draws6 = Ok (x4, x6) →
  let net4 := Z.land a.(ipv4_prefix) (prefix_mask 32 a.(ipv4_prefix_len)) in
  let net6 := Z.land a.(ipv6_prefix) (prefix_mask 128 a.(ipv6_prefix_len)) in
  (x4 ∉ used4 ∧ Z.land x4 (prefix_mask 32 a.(ipv4_prefix_len)) = net4
   ∧ net4 < x4 < net4 + 2 ^ (32 - a.(ipv4_prefix_len)) - 1)
  ∧ (x6 ∉ used6 ∧ Z.land x6 (prefix_mask 128 a.(ipv6_prefix_len)) = net6
     ∧ net6 < x6 < net6 + 2 ^ (128 - a.(ipv6_prefix_len))).
Proof.
  intros (H4 & Hl4 & H6 & Hl6) Hd4 Hd6. unfold allocate, allocate_ipv4, allocate_ipv6.
  destruct (ipv4_host_range _ _) as [[f4 c4]|] eqn:R4; [|done]. cbn [rbind].
  destruct (draw_loop 32 TRIES f4 used4 (draws4 c4) 0) as [y4|] eqn:D4; [|done]. cbn [rbind].
  destruct (ipv6_host_range _ _) as [[f6 c6]|] eqn:R6; [|done]. cbn [rbind].
  destruct (draw_loop 128 TRIES f6 used6 (draws6 c6) 0) as [y6|] eqn:D6; [|done]. intros [= <- <-].
  apply ipv4_host_range_Ok in R4 as (L4 & -> & -> & P4 & N4 & M4); [|done..].
  apply ipv6_host_range_Ok in R6 as (L6 & -> & -> & P6 & N6 & M6); [|done..].
  apply draw_loop_Ok in D4 as (U4 & j4 & _ & ->), D6 as (U6 & j6 & _ & ->).
  specialize (Hd4 _ j4 P4). specialize (Hd6 _ j6 P6).
  destruct (drawn_address 32 _ _ _ (draws4 (2 ^ (32 - ipv4_prefix_len a) - 2) j4) L4 H4 eq_refl N4 M4) as [W4 B4]; [lia|].
  destruct (drawn_address 128 _ _ _ (draws6 (2 ^ (128 - ipv6_prefix_len a) - 1) j6) L6 H6 eq_refl N6 M6) as [W6 B6]; [lia|].
  rewrite W4, W6 in *. split_and!; try done; lia.
Qed.

Definition demo_allocator : IpAllocator :=
  {| ipv4_prefix := 0x64400000; ipv4_prefix_len := 10;
     ipv6_prefix := 0xfd7a115ca1e0 * 2 ^ 80; ipv6_prefix_len := 48 |}.

Lemma allocate_fresh_in_prefix_witness :
  let net4 := Z.land 0x64400000 (prefix_mask 32 10) in
  let net6 := Z.land (0xfd7a115ca1e0 * 2 ^ 80) (prefix_mask 128 48) in
  (0x64400002 ∉ ({[ 0x64400001 ]} : gset Z) ∧ Z.land 0x64400002 (prefix_mask 32 10) = net4
   ∧ net4 < 0x64400002 < net4 + 2 ^ (32 - 10) - 1)
  ∧ (0xfd7a115ca1e0 * 2 ^ 80 + 1 ∉ (∅ : gset Z)
     ∧ Z.land (0xfd7a115ca1e0 * 2 ^ 80 + 1) (prefix_mask 128 48) = net6
     ∧ net6 < 0xfd7a115ca1e0 * 2 ^ 80 + 1 < net6 + 2 ^ (128 - 48)).
Proof.
  apply (allocate_fresh_in_prefix demo_allocator {[ 0x64400001 ]} ∅
    (λ count i, Z.of_nat i mod count) (λ _ _, 0)).
  - by vm_compute.
  - intros count i Hc. by apply Z.mod_pos_bound.
  - intros count i Hc. lia.
  - by vm_compute.
Defined.

(** [Exhausted] does not mean that the prefix is exhausted: the allocator gives
    up after 1024 draws, so in every prefix with at least two host addresses
    there is a run in which it reports exhaustion with a free host left. *)
Theorem exhausted_with_free_address a first count :
  allocator_wf a → ipv4_host_range a.(ipv4_prefix) a.(ipv4_prefix_len) = Ok (first, count) →
  2 ≤ count →
  ∃ used draws free, draws_ok draws ∧ (free ∉ used) ∧ (first ≤ free < first + count)
    ∧ allocate_ipv4 a used draws = Err Exhausted.
Proof.
  intros (H4 & Hl4 & _) Hr Hc. exists {[ first ]}, (λ _ _, 0), (first + 1). split_and!.
  - intros ? ? ?. lia.
  - rewrite elem_of_singleton. lia.
  - lia.
  - lia.
  - unfold allocate_ipv4. rewrite Hr. cbn [rbind]. apply draw_loop_Err. split; [done|].
    apply ipv4_host_range_Ok in Hr as (? & -> & -> & ? & ? & ?); [|done..].
    intros j _. rewrite Z.add_0_r. unfold wrap. rewrite Z.mod_small by lia.
    by apply elem_of_singleton.
Qed.

Lemma exhausted_with_free_address_witness :
  ∃ used draws free, draws_ok draws ∧ (free ∉ used)
    ∧ (0x64400001 ≤ free < 0x64400001 + 4194302)
    ∧ allocate_ipv4 demo_allocator used draws = Err Exhausted.
Proof. apply exhausted_with_free_address; by vm_compute. Defined.
