(* ===== verification/Pending.v ===== *)
(** * The pending-registration cache ([crabscale-control/src/pending.rs])

    A bounded cache of interactive registrations, keyed by auth id, evicting
    the least recently used entry.  Strings are their bytes; the host metadata
    a client sends is carried along untouched and stays abstract. *)

From S2P Require Import Prelude.

Definition DEFAULT_PENDING_TTL_SECONDS : Z := 15 * 60.
Definition DEFAULT_PENDING_CACHE_LIMIT : Z := 1024.

Inductive PendingVerdict : Type :=
| VPending
| VApproved (user_id : Z) (tags : option (list bytes))
| VRejected.

#[global] Instance PendingVerdict_eq_dec : EqDecision PendingVerdict.
Proof. solve_decision. Defined.

Record PendingRegistration (Hostinfo : Type) : Type := {
  p_auth_id : bytes;
  p_machine_key : bytes;
  p_node_key : bytes;
  p_hostinfo : option Hostinfo;
  p_expiry : bytes;
  p_version : Z;
  p_ephemeral : bool;
  p_created_at : bytes;
  p_expires_at : bytes;
  p_verdict : PendingVerdict;
}.
Arguments p_auth_id {_}. Arguments p_machine_key {_}. Arguments p_node_key {_}.
Arguments p_hostinfo {_}. Arguments p_expiry {_}. Arguments p_version {_}.
Arguments p_ephemeral {_}. Arguments p_created_at {_}. Arguments p_expires_at {_}.
Arguments p_verdict {_}.

Record PendingCache (Hostinfo : Type) : Type := {
  pc_entries : gmap bytes (PendingRegistration Hostinfo);
  pc_order : list bytes;
  pc_limit : Z;
}.
Arguments pc_entries {_}. Arguments pc_order {_}. Arguments pc_limit {_}.
Arguments Build_PendingCache {_}.

Section cache.
  Context {Hostinfo : Type}.
  Implicit Types (c : PendingCache Hostinfo) (e : PendingRegistration Hostinfo).

Definition PendingCache_new (limit : Z) : PendingCache Hostinfo :=
  {| pc_entries := ∅; pc_order := []; pc_limit := limit |}.

(** [VecDeque::remove(position)] then [push_back]; [auth_id] occurs at most
    once in the order. *)
Fixpoint remove_first (auth_id : bytes) (order : list bytes) : option (list bytes) :=
  match order with
  | [] => None
  | id :: order =>
      if bool_decide (id = auth_id) then Some order
      else option_map (cons id) (remove_first auth_id order)
  end.

Definition pc_touch (auth_id : bytes) c : PendingCache Hostinfo :=
  match remove_first auth_id c.(pc_order) with
  | Some order => {| pc_entries := c.(pc_entries); pc_order := order ++ [auth_id];
                     pc_limit := c.(pc_limit) |}
  | None => c
  end.

Definition pc_insert e c : PendingCache Hostinfo :=
  let auth_id := e.(p_auth_id) in
  match c.(pc_entries) !! auth_id with
  | Some _ =>
      pc_touch auth_id {| pc_entries := <[auth_id := e]> c.(pc_entries);
                          pc_order := c.(pc_order); pc_limit := c.(pc_limit) |}
  | None =>
      let '(entries, order) :=
        if c.(pc_limit) <=? Z.of_nat (size c.(pc_entries)) then
          match c.(pc_order) with
          | oldest :: order => (delete oldest c.(pc_entries), order)
          | [] => (c.(pc_entries), [])
          end
        else (c.(pc_entries), c.(pc_order)) in
      {| pc_entries := <[auth_id := e]> entries; pc_order := order ++ [auth_id];
         pc_limit := c.(pc_limit) |}
  end.

Definition pc_get (auth_id : bytes) c : PendingCache Hostinfo * option (PendingRegistration Hostinfo) :=
  let c' := match c.(pc_entries) !! auth_id with Some _ => pc_touch auth_id c | None => c end in
  (c', c'.(pc_entries) !! auth_id).

(** [get_mut] with the update its caller makes through the reference. *)
Definition pc_update (auth_id : bytes)
    (f : PendingRegistration Hostinfo → PendingRegistration Hostinfo) c : PendingCache Hostinfo :=
  match c.(pc_entries) !! auth_id with
  | Some e =>
      let c' := pc_touch auth_id c in
      {| pc_entries := <[auth_id := f e]> c'.(pc_entries); pc_order := c'.(pc_order);
         pc_limit := c'.(pc_limit) |}
  | None => c
  end.

Definition pc_remove (auth_id : bytes) c
    : PendingCache Hostinfo * option (PendingRegistration Hostinfo) :=
  match c.(pc_entries) !! auth_id with
  | None => (c, None)
  | Some e =>
      ({| pc_entries := delete auth_id c.(pc_entries);
          pc_order := filter (λ id, id ≠ auth_id) c.(pc_order); pc_limit := c.(pc_limit) |}, Some e)
  end.

Definition pc_len c : Z := Z.of_nat (size c.(pc_entries)).

(** ** Specification: a list of entries, least recently used first *)

Abbreviation lru := (list (bytes * PendingRegistration Hostinfo)).

Definition lru_without (id : bytes) (l : lru) : lru := filter (λ p, p.1 ≠ id) l.

Fixpoint lru_find (id : bytes) (l : lru) : option (PendingRegistration Hostinfo) :=
  match l with
  | [] => None
  | (k, e) :: l => if bool_decide (k = id) then Some e else lru_find id l
  end.

Definition lru_insert (limit : Z) e (l : lru) : lru :=
  let id := e.(p_auth_id) in
  match lru_find id l with
  | Some _ => lru_without id l ++ [(id, e)]
  | None => (if limit <=? zlen l then tail l else l) ++ [(id, e)]
  end.

Definition lru_get (id : bytes) (l : lru) : lru :=
  match lru_find id l with
  | Some e => lru_without id l ++ [(id, e)]
  | None => l
  end.

(** The list a cache stands for. *)
Definition listing (m : gmap bytes (PendingRegistration Hostinfo)) (order : list bytes) : lru :=
  omap (λ id, (id,.) <$> m !! id) order.

Definition to_lru c : lru := listing c.(pc_entries) c.(pc_order).

Record cache_inv c : Prop := {
  ci_nodup : NoDup c.(pc_order);
  ci_dom id : id ∈ c.(pc_order) ↔ is_Some (c.(pc_entries) !! id);
}.
(** ** Lemmas *)

Lemma listing_app m o1 o2 : listing m (o1 ++ o2) = listing m o1 ++ listing m o2.
Proof. apply omap_app. Qed.

Lemma listing_cons m x o :
  listing m (x :: o) = match m !! x with Some e => (x, e) :: listing m o | None => listing m o end.
Proof. unfold listing. cbn. by destruct (m !! x). Qed.

Lemma listing_ext m m' order :
  (∀ id, id ∈ order → m !! id = m' !! id) → listing m order = listing m' order.
Proof.
  induction order as [|id order IH]; intros Hm; [done|]. rewrite !listing_cons.
  rewrite (Hm id) by (by left). rewrite IH; [done|]. intros. apply Hm. by right.
Qed.

Lemma listing_single m id e : m !! id = Some e → listing m [id] = [(id, e)].
Proof. intros Hm. by rewrite listing_cons, Hm. Qed.

Lemma listing_filter m order id :
  listing m (filter (λ x, x ≠ id) order) = lru_without id (listing m order).
Proof.
  unfold lru_without. induction order as [|x order IH]; [done|].
  rewrite filter_cons, (listing_cons m x). destruct (decide (x ≠ id)) as [Hne|Heq].
  - rewrite listing_cons, IH. destruct (m !! x); [|done]. by rewrite filter_cons, decide_True.
  - rewrite IH. destruct (m !! x); [|done]. rewrite filter_cons, decide_False; [done|].
    cbn. tauto.
Qed.

Lemma lru_find_listing m order id :
  lru_find id (listing m order) = if bool_decide (id ∈ order) then m !! id else None.
Proof.
  induction order as [|x order IH]; [done|]. rewrite listing_cons.
  destruct (decide (x = id)) as [->|Hne].
  - rewrite (bool_decide_eq_true_2 (id ∈ id :: order)) by (by left).
    destruct (m !! id) eqn:E; cbn [lru_find]; [by rewrite bool_decide_eq_true_2|].
    rewrite IH. by case_bool_decide.
  - rewrite (bool_decide_ext (id ∈ x :: order) (id ∈ order)) by (rewrite elem_of_cons; naive_solver).
    destruct (m !! x); cbn [lru_find]; [rewrite bool_decide_eq_false_2 by done|]; exact IH.
Qed.

Lemma remove_first_NoDup id order :
  NoDup order → id ∈ order → remove_first id order = Some (filter (λ x, x ≠ id) order).
Proof.
  induction 1 as [|x order Hx _ IH]; [set_solver|]. cbn [remove_first]. rewrite filter_cons.
  case_bool_decide as He.
  - subst. intros _. rewrite decide_False by tauto. f_equal. symmetry. apply filter_all.
    intros y Hy ->. done.
  - intros [->|Hin]%elem_of_cons; [done|]. rewrite IH by done. by rewrite decide_True.
Qed.

Lemma cache_size c : cache_inv c → Z.of_nat (size c.(pc_entries)) = zlen (to_lru c).
Proof.
  intros Hc. assert (Hl : length (to_lru c) = length c.(pc_order)).
  { assert (Hall : ∀ o, (∀ id, id ∈ o → is_Some (pc_entries c !! id)) →
                        length (listing (pc_entries c) o) = length o).
    { induction o as [|id o IH]; [done|]. intros Ho. rewrite listing_cons.
      destruct (Ho id) as [e ->]; [by left|]. cbn [length]. rewrite IH; [done|]. intros. apply Ho. by right. }
    apply Hall. intros id. apply (ci_dom c Hc). }
  unfold zlen. rewrite Hl. f_equal. rewrite <- size_dom.
  assert (dom (pc_entries c) = list_to_set (pc_order c)) as ->.
  { apply set_eq. intros id. rewrite elem_of_dom, elem_of_list_to_set. symmetry. apply (ci_dom c Hc). }
  apply size_list_to_set, Hc.
Qed.

Lemma lru_find_cache c id : cache_inv c → lru_find id (to_lru c) = c.(pc_entries) !! id.
Proof.
  intros Hc. unfold to_lru. rewrite (lru_find_listing (pc_entries c)).
  case_bool_decide as Hin; [done|]. destruct (pc_entries c !! id) eqn:E; [|done].
  exfalso. apply Hin, (ci_dom c Hc). by eexists.
Qed.

Lemma touch_spec id e c :
  cache_inv c → c.(pc_entries) !! id = Some e →
  cache_inv (pc_touch id c) ∧ (pc_touch id c).(pc_entries) = c.(pc_entries)
  ∧ (pc_touch id c).(pc_limit) = c.(pc_limit)
  ∧ (pc_touch id c).(pc_order) = filter (λ x, x ≠ id) c.(pc_order) ++ [id].
Proof.
  intros Hc He. assert (Hin : id ∈ c.(pc_order)) by (apply (ci_dom c Hc); eauto).
  unfold pc_touch. rewrite remove_first_NoDup by (done || apply Hc). cbn. split_and!; try done.
  constructor; cbn.
  - apply list.NoDup_app. split_and!; [by apply list.NoDup_filter, Hc| |apply NoDup_singleton].
    intros x [? ?]%list_elem_of_filter. by rewrite list_elem_of_singleton.
  - intros x. rewrite elem_of_app, list_elem_of_filter, list_elem_of_singleton, <- (ci_dom c Hc).
    destruct (decide (x = id)) as [->|]; naive_solver.
Qed.

Lemma insert_spec e c :
  cache_inv c →
  cache_inv (pc_insert e c) ∧ to_lru (pc_insert e c) = lru_insert c.(pc_limit) e (to_lru c)
  ∧ (pc_insert e c).(pc_limit) = c.(pc_limit).
Proof.
  intros Hc. unfold lru_insert. rewrite lru_find_cache, <- cache_size by done. unfold pc_insert.
  set (id := p_auth_id e). destruct (pc_entries c !! id) as [old|] eqn:Hid.
  - set (c1 := Build_PendingCache (<[id := e]> (pc_entries c)) (pc_order c) (pc_limit c)).
    assert (Hc1 : cache_inv c1).
    { constructor; [apply Hc|]. intros x. cbn. rewrite lookup_insert_is_Some, (ci_dom c Hc).
      destruct (decide (x = id)) as [->|]; [rewrite Hid; naive_solver|naive_solver]. }
    destruct (touch_spec id e c1 Hc1) as (Ht & He1 & Hl1 & Ho1); [apply lookup_insert_eq|].
    split; [done|]. split; [|done]. unfold to_lru. rewrite He1, Ho1.
    rewrite listing_app, (listing_single _ _ e) by apply lookup_insert_eq. f_equal.
    rewrite <- (listing_filter (pc_entries c)). apply listing_ext.
    intros x [Hx _]%list_elem_of_filter. cbn. by rewrite lookup_insert_ne.
  - assert (Hnin : id ∉ c.(pc_order)) by (rewrite (ci_dom c Hc), Hid; by intros [? ?]).
    (* the entries and the order that are kept *)
    assert (Hkeep : ∀ m o, NoDup o → (∀ x, x ∈ o ↔ is_Some (m !! x)) → m !! id = None →
      let c' := Build_PendingCache (<[id := e]> m) (o ++ [id]) (pc_limit c) in
      cache_inv c' ∧ to_lru c' = listing m o ++ [(id, e)]).
    { intros m o Hnd Hdom Hm. assert (Hno : id ∉ o) by (rewrite Hdom, Hm; by intros [? ?]).
      split; [constructor; cbn|].
      - apply list.NoDup_app. split_and!; [done| |apply NoDup_singleton].
        intros x Hx. rewrite list_elem_of_singleton. by intros ->.
      - intros x. rewrite elem_of_app, list_elem_of_singleton, lookup_insert_is_Some, Hdom.
        destruct (decide (x = id)); naive_solver.
      - unfold to_lru. cbn [pc_entries pc_order].
        rewrite listing_app, (listing_single _ _ e) by apply lookup_insert_eq. f_equal.
        apply listing_ext. intros x Hx. rewrite lookup_insert_ne; [done|]. by intros <-. }
    destruct (Z.leb_spec (pc_limit c) (Z.of_nat (size (pc_entries c)))) as [Hfull|Hroom].
    + destruct (pc_order c) as [|oldest order] eqn:Ho.
      * destruct (Hkeep (pc_entries c) []) as [H1 H2]; [constructor| |done|].
        { intros x. rewrite <- Ho. apply (ci_dom c Hc). }
        split; [done|]. split; [|done]. rewrite H2. unfold to_lru. by rewrite Ho.
      * pose proof (ci_nodup c Hc) as Hnd. rewrite Ho in Hnd. apply list.NoDup_cons in Hnd as [Hno Hnd].
        destruct (Hkeep (delete oldest (pc_entries c)) order) as [H1 H2]; [done| | |].
        { intros x. rewrite lookup_delete_is_Some, <- (ci_dom c Hc), Ho, elem_of_cons. naive_solver. }
        { by rewrite lookup_delete_None, Hid; right. }
        split; [done|]. split; [|done]. rewrite H2. f_equal.
        unfold to_lru. rewrite Ho, listing_cons.
        assert (Hsome : is_Some (pc_entries c !! oldest)) by (apply (ci_dom c Hc); rewrite Ho; by left).
        destruct Hsome as [eo ->]. apply listing_ext. intros x Hx.
        apply lookup_delete_ne. by intros ->.
    + destruct (Hkeep (pc_entries c) (pc_order c)) as [H1 H2]; [apply Hc|apply (ci_dom c Hc)|done|].
      split; [done|]. by split.
Qed.

Lemma get_spec id c :
  cache_inv c →
  cache_inv (pc_get id c).1 ∧ to_lru (pc_get id c).1 = lru_get id (to_lru c)
  ∧ (pc_get id c).2 = lru_find id (to_lru c).
Proof.
  intros Hc. unfold pc_get, lru_get. rewrite lru_find_cache by done.
  destruct (pc_entries c !! id) as [e|] eqn:He; [|by rewrite He].
  destruct (touch_spec id e c Hc He) as (Ht & He1 & _ & Ho1). cbn. rewrite He1.
  split; [done|]. split; [|done]. unfold to_lru. rewrite He1, Ho1.
  by rewrite listing_app, (listing_single _ _ e), listing_filter by done.
Qed.

Lemma remove_spec id c :
  cache_inv c →
  cache_inv (pc_remove id c).1 ∧ to_lru (pc_remove id c).1 = lru_without id (to_lru c)
  ∧ (pc_remove id c).2 = lru_find id (to_lru c).
Proof.
  intros Hc. unfold pc_remove. rewrite lru_find_cache by done.
  destruct (pc_entries c !! id) as [e|] eqn:He; cbn.
  - split; [|split; [|done]].
    + constructor; cbn; [by apply list.NoDup_filter, Hc|]. intros x.
      rewrite list_elem_of_filter, lookup_delete_is_Some, (ci_dom c Hc). naive_solver.
    + unfold to_lru. cbn. rewrite <- (listing_filter (pc_entries c)). apply listing_ext.
      intros x [Hx _]%list_elem_of_filter. by apply lookup_delete_ne.
  - split; [done|]. split; [|done]. unfold to_lru, lru_without. symmetry.
    apply filter_all. intros [k x] (y & Hy & (z & Hz & [= -> ->])%fmap_Some)%list_elem_of_omap.
    cbn. congruence.
Qed.

Lemma lru_without_length id e (l : lru) :
  lru_find id l = Some e → zlen (lru_without id l) + 1 ≤ zlen l.
Proof.
  unfold lru_without, zlen. induction l as [|[k x] l IH]; [done|]. cbn [lru_find length].
  rewrite filter_cons. case_bool_decide as Hk.
  - intros _. rewrite decide_False by (cbn; tauto).
    pose proof (length_filter (λ p : bytes * _, p.1 ≠ id) l). lia.
  - intros Hf%IH. rewrite decide_True by done. cbn [length]. lia.
Qed.

Lemma lru_insert_bounded limit e (l : lru) :
  zlen l ≤ Z.max 1 limit → zlen (lru_insert limit e l) ≤ Z.max 1 limit.
Proof.
  intros Hl. unfold lru_insert. destruct (lru_find (p_auth_id e) l) as [x|] eqn:Hf.
  - apply lru_without_length in Hf. rewrite zlen_app, zlen_cons, zlen_nil. lia.
  - rewrite zlen_app, zlen_cons, zlen_nil.
    destruct (Z.leb_spec limit (zlen l)); [|lia].
    assert (zlen (tail l) = Z.max 0 (zlen l - 1)) as ->; [|lia].
    unfold zlen. destruct l; cbn [tail length]; lia.
Qed.

End cache.

(** The cache is a bounded LRU list: each operation acts on the list of entries
    (least recently used first) that the map and the queue stand for as the
    specification says, answers as it says, and keeps the two in step; and the
    number of entries never exceeds the limit (or one, for a limit below one). *)
Theorem pending_cache_refines_lru {H} (c : PendingCache H) e id :
  cache_inv c → pc_len c ≤ Z.max 1 c.(pc_limit) →
  (cache_inv (pc_insert e c) ∧ to_lru (pc_insert e c) = lru_insert c.(pc_limit) e (to_lru c)
   ∧ pc_len (pc_insert e c) ≤ Z.max 1 c.(pc_limit))
  ∧ (cache_inv (pc_get id c).1 ∧ to_lru (pc_get id c).1 = lru_get id (to_lru c)
     ∧ (pc_get id c).2 = lru_find id (to_lru c))
  ∧ (cache_inv (pc_remove id c).1 ∧ to_lru (pc_remove id c).1 = lru_without id (to_lru c)
     ∧ (pc_remove id c).2 = lru_find id (to_lru c)).
Proof.
  intros Hc Hlen. destruct (insert_spec e c Hc) as (Hi & Hl & _).
  split; [|split; [by apply get_spec|by apply remove_spec]].
  split; [done|]. split; [done|]. unfold pc_len in *. rewrite cache_size, Hl in * by done.
  by apply lru_insert_bounded.
Qed.

Definition demo_entry (id : bytes) : PendingRegistration unit :=
  {| p_auth_id := id; p_machine_key := []; p_node_key := []; p_hostinfo := None; p_expiry := [];
     p_version := 130; p_ephemeral := false; p_created_at := []; p_expires_at := [];
     p_verdict := VPending |}.

Definition demo_cache : PendingCache unit :=
  pc_insert (demo_entry [2]) (pc_insert (demo_entry [1]) (PendingCache_new 2)).

Lemma demo_cache_inv : cache_inv demo_cache.
Proof.
  do 2 apply insert_spec. constructor; [constructor|]. intros id.
  cbn [PendingCache_new pc_order pc_entries]. rewrite lookup_empty, elem_of_nil.
  split; [done|by intros [? ?]].
Qed.

Lemma pending_cache_refines_lru_witness :
  (cache_inv (pc_insert (demo_entry [3]) demo_cache)
   ∧ to_lru (pc_insert (demo_entry [3]) demo_cache) = [([2], demo_entry [2]); ([3], demo_entry [3])]
   ∧ pc_len (pc_insert (demo_entry [3]) demo_cache) ≤ Z.max 1 2)
  ∧ (cache_inv (pc_get [1] demo_cache).1
     ∧ to_lru (pc_get [1] demo_cache).1 = [([2], demo_entry [2]); ([1], demo_entry [1])]
     ∧ (pc_get [1] demo_cache).2 = Some (demo_entry [1]))
  ∧ (cache_inv (pc_remove [1] demo_cache).1
     ∧ to_lru (pc_remove [1] demo_cache).1 = [([2], demo_entry [2])]
     ∧ (pc_remove [1] demo_cache).2 = Some (demo_entry [1])).
Proof.
  exact (pending_cache_refines_lru demo_cache (demo_entry [3]) [1] demo_cache_inv
           ltac:(by vm_compute)).
Defined.
