(* ===== verification/Text.v ===== *)
(** * Strings

    A [String] is the list of its code points.  The order of [str] is the
    order of the UTF-8 bytes, which is the lexicographic order of the code
    points.  The operations of [std::str] and the integer parsers the policy
    engine uses; [sort_dedup] is [v.sort(); v.dedup()] on a [Vec<String>]. *)

From S2P Require Import Prelude.

Abbreviation text := (list Z).

(** ** Order, sorting and removing duplicates *)

Fixpoint text_leb (a b : text) : bool :=
  match a, b with
  | [], _ => true
  | _ :: _, [] => false
  | x :: a', y :: b' => (x <? y) || ((x =? y) && text_leb a' b')
  end.

Definition text_le (a b : text) : Prop := text_leb a b = true.

#[global] Instance text_le_dec : RelDecision text_le.
Proof. intros a b. unfold text_le. apply _. Defined.

#[global] Instance text_le_total : Total text_le.
Proof.
  unfold text_le. intros a. induction a as [|x a IH]; intros [|y b]; cbn; [auto..|].
  destruct (IH b); destruct (Z.ltb_spec x y), (Z.ltb_spec y x), (Z.eqb_spec x y),
    (Z.eqb_spec y x); cbn; auto; lia.
Qed.

#[global] Instance text_le_trans : Transitive text_le.
Proof.
  unfold text_le. intros a. induction a as [|x a IH]; intros [|y b] [|z c]; cbn; [done..|].
  intros H1 H2. specialize (IH b c).
  destruct (Z.ltb_spec x y), (Z.ltb_spec y z), (Z.eqb_spec x y), (Z.eqb_spec y z),
    (Z.ltb_spec x z), (Z.eqb_spec x z); cbn in *; subst; try done; try lia; auto.
Qed.

#[global] Instance text_le_antisymm : AntiSymm (=) text_le.
Proof.
  unfold text_le. intros a. induction a as [|x a IH]; intros [|y b]; cbn; [done..|].
  intros H1 H2.
  destruct (Z.ltb_spec x y), (Z.ltb_spec y x), (Z.eqb_spec x y), (Z.eqb_spec y x);
    cbn in *; subst; try done; try lia. f_equal. by apply IH.
Qed.

(** [Vec::dedup]: one of each run of equal elements stays. *)
Fixpoint dedup {A} `{EqDecision A} (l : list A) : list A :=
  match l with
  | [] => []
  | x :: t =>
      match dedup t with
      | y :: t' => if decide (x = y) then y :: t' else x :: y :: t'
      | [] => [x]
      end
  end.

Definition sort_text (l : list text) : list text := merge_sort text_le l.
Definition sort_dedup (l : list text) : list text := dedup (sort_text l).

Lemma elem_of_dedup {A} `{EqDecision A} (x : A) l : x ∈ dedup l ↔ x ∈ l.
Proof.
  induction l as [|a l IH]; [done|]. cbn [dedup].
  destruct (dedup l) as [|y t] eqn:E.
  - rewrite list_elem_of_singleton, elem_of_cons, <- IH, elem_of_nil. tauto.
  - case_decide; subst; rewrite ?elem_of_cons in *; naive_solver.
Qed.

Lemma elem_of_sort_dedup x l : x ∈ sort_dedup l ↔ x ∈ l.
Proof.
  unfold sort_dedup, sort_text. by rewrite elem_of_dedup, (merge_sort_Permutation text_le l).
Qed.

Lemma dedup_head {A} `{EqDecision A} (x : A) l : head (dedup (x :: l)) = Some x.
Proof. cbn. destruct (dedup l); [done|]. case_decide; subst; done. Qed.

Definition text_lt (a b : text) : Prop := text_le a b ∧ a ≠ b.

(** The result of [sort(); dedup()] is strictly ascending. *)
Lemma sort_dedup_sorted l : StronglySorted text_lt (sort_dedup l).
Proof.
  unfold sort_dedup, sort_text.
  pose proof (StronglySorted_merge_sort text_le l) as Hs.
  induction Hs as [|x k Hk IH Hx]; [constructor|]. cbn [dedup].
  assert (Hin : Forall (text_le x) (dedup k)).
  { apply list.Forall_forall. intros y Hy. rewrite elem_of_dedup in Hy. rewrite list.Forall_forall in Hx. by apply Hx. }
  destruct (dedup k) as [|y t] eqn:E; [apply SSorted_cons; constructor|].
  case_decide; subst; [done|]. constructor; [done|].
  apply StronglySorted_inv in IH as [Ht Hy]. apply list.Forall_cons in Hin as [Hxy _].
  apply list.Forall_cons; split; [done|]. eapply list.Forall_impl; [exact Hy|].
  intros z [Hz Hyz]; cbn in *. split; [by etrans|]. intros ->.
  apply Hyz. by apply (anti_symm text_le).
Qed.

Lemma sorted_lt_unique (l k : list text) :
  StronglySorted text_lt l → StronglySorted text_lt k → (∀ x, x ∈ l ↔ x ∈ k) → l = k.
Proof.
  intros Hl. revert k. induction Hl as [|x l Hl IH Hx]; intros k Hk Hlk.
  { destruct k as [|y k]; [done|]. by destruct (not_elem_of_nil y); apply Hlk; left. }
  destruct Hk as [|y k Hk Hy]; [by destruct (not_elem_of_nil x); apply Hlk; left|].
  rewrite list.Forall_forall in Hx, Hy.
  assert (x = y) as ->.
  { assert (x ∈ y :: k) as [->|Hxk]%elem_of_cons by (apply Hlk; left); [done|].
    assert (y ∈ x :: l) as [->|Hyl]%elem_of_cons by (apply Hlk; left); [done|].
    apply (anti_symm text_le); [by apply Hx|by apply Hy]. }
  f_equal. apply IH; [done|]. intros z. specialize (Hlk z). rewrite !elem_of_cons in Hlk.
  split; intros Hz.
  - destruct (proj1 Hlk (or_intror Hz)) as [->|]; [|done]. by destruct (Hx _ Hz).
  - destruct (proj2 Hlk (or_intror Hz)) as [->|]; [|done]. by destruct (Hy _ Hz).
Qed.

(** [sort(); dedup()] is determined by the set of elements. *)
Lemma sort_dedup_ext l k : (∀ x, x ∈ l ↔ x ∈ k) → sort_dedup l = sort_dedup k.
Proof.
  intros H. apply sorted_lt_unique; [apply sort_dedup_sorted..|].
  intros x. by rewrite !elem_of_sort_dedup.
Qed.

(** ** Searching and splitting *)

(** [s.starts_with(p)] *)
Definition starts_with (p s : text) : bool :=
  match strip_prefix p s with Some _ => true | None => false end.

(** [s.split_once(c)] and [s.rsplit_once(c)] *)
Fixpoint split_once (c : Z) (s : text) : option (text * text) :=
  match s with
  | [] => None
  | x :: t =>
      if x =? c then Some ([], t)
      else match split_once c t with Some (a, b) => Some (x :: a, b) | None => None end
  end.

Fixpoint rsplit_once (c : Z) (s : text) : option (text * text) :=
  match s with
  | [] => None
  | x :: t =>
      match rsplit_once c t with
      | Some (a, b) => Some (x :: a, b)
      | None => if x =? c then Some ([], t) else None
      end
  end.

(** [s.split_once(p)] for a pattern string *)
Fixpoint split_once_str (p s : text) : option (text * text) :=
  match strip_prefix p s with
  | Some rest => Some ([], rest)
  | None =>
      match s with
      | [] => None
      | x :: t => match split_once_str p t with Some (a, b) => Some (x :: a, b) | None => None end
      end
  end.

(** [s.split(c)] *)
Fixpoint split (c : Z) (s : text) : list text :=
  match s with
  | [] => [[]]
  | x :: t =>
      if x =? c then [] :: split c t
      else match split c t with w :: ws => (x :: w) :: ws | [] => [[x]] end
  end.

(** [c.is_whitespace()], [c.is_ascii_alphanumeric()], [c.to_ascii_lowercase()] *)
Definition is_whitespace (c : Z) : bool :=
  ((0x9 <=? c) && (c <=? 0xD)) || (c =? 0x20) || (c =? 0x85) || (c =? 0xA0) || (c =? 0x1680)
  || ((0x2000 <=? c) && (c <=? 0x200A)) || (c =? 0x2028) || (c =? 0x2029) || (c =? 0x202F)
  || (c =? 0x205F) || (c =? 0x3000).

Definition is_ascii_digit (c : Z) : bool := (48 <=? c) && (c <=? 57).

Definition is_ascii_alphanumeric (c : Z) : bool :=
  is_ascii_digit c || ((65 <=? c) && (c <=? 90)) || ((97 <=? c) && (c <=? 122)).

Definition to_ascii_lowercase (c : Z) : Z :=
  if (65 <=? c) && (c <=? 90) then c + 32 else c.

(** [s.trim()] *)
Fixpoint trim_start (s : text) : text :=
  match s with
  | [] => []
  | c :: t => if is_whitespace c then trim_start t else s
  end.

Definition trim (s : text) : text := rev (trim_start (rev (trim_start s))).

Lemma split_once_spec c s a b :
  split_once c s = Some (a, b) ↔ s = a ++ c :: b ∧ c ∉ a.
Proof.
  revert a b. induction s as [|x s IH]; intros a b; cbn.
  { split; [done|]. intros [H _]. by destruct a. }
  destruct (Z.eqb_spec x c) as [->|Hx].
  - split; [intros [= <- <-]; split; [done|apply not_elem_of_nil]|].
    intros [H Hn]. destruct a as [|y a]; cbn in H; simplify_eq; [done|].
    exfalso. apply Hn. by left.
  - destruct (split_once c s) as [[a' b']|] eqn:E.
    + destruct (proj1 (IH a' b') eq_refl) as [-> Hn]. split.
      * intros [= <- <-]. split; [done|]. by apply not_elem_of_cons.
      * intros [H Hn']. destruct a as [|y a]; cbn in H; injection H as -> H; [done|].
        apply not_elem_of_cons in Hn' as [_ Hn'].
        specialize (proj2 (IH a b) (conj H Hn')) as [= -> ->]. done.
    + split; [done|]. intros [H Hn]. destruct a as [|y a]; cbn in H; simplify_eq.
      apply not_elem_of_cons in Hn as [_ Hn].
      by specialize (proj2 (IH a b) (conj eq_refl Hn)).
Qed.

Lemma split_once_None c s : split_once c s = None ↔ c ∉ s.
Proof.
  induction s as [|x s IH]; cbn; [split; [intros _; apply not_elem_of_nil|done]|].
  rewrite not_elem_of_cons. destruct (Z.eqb_spec x c) as [->|Hx]; [naive_solver|].
  destruct (split_once c s) as [[a b]|]; [|naive_solver].
  split; [done|]. intros [_ H]. by apply IH in H.
Qed.

Lemma split_none c s : c ∉ s → split c s = [s].
Proof.
  induction s as [|x s IH]; intros Hc; [done|]. apply not_elem_of_cons in Hc as [Hx Hc]. cbn [split].
  rewrite (proj2 (Z.eqb_neq x c)) by congruence. by rewrite IH.
Qed.

Lemma split_cons c a b : c ∉ a → split c (a ++ c :: b) = a :: split c b.
Proof.
  induction a as [|x a IH]; intros Hc; cbn [app split]; [by rewrite Z.eqb_refl|].
  apply not_elem_of_cons in Hc as [Hx Hc]. rewrite (proj2 (Z.eqb_neq x c)) by congruence.
  by rewrite IH.
Qed.

(** ** Numbers *)

(** [c.to_digit(radix)] for the radices 10 and 16 *)
Definition to_digit (radix c : Z) : option Z :=
  let d := if is_ascii_digit c then c - 48
           else if (65 <=? c) && (c <=? 90) then c - 55
           else if (97 <=? c) && (c <=? 122) then c - 87 else radix in
  if d <? radix then Some d else None.

(** The digit values at the front of [s] and what follows them. *)
Fixpoint span_digits (radix : Z) (s : text) : list Z * text :=
  match s with
  | [] => ([], [])
  | c :: t =>
      match to_digit radix c with
      | Some d => let '(ds, rest) := span_digits radix t in (d :: ds, rest)
      | None => ([], s)
      end
  end.

Definition digits_value (radix : Z) (ds : list Z) : Z := fold_left (λ a d, a * radix + d) ds 0.

(** A whole string of decimal digits. *)
Definition parse_digits (s : text) : option Z :=
  match span_digits 10 s with
  | ([], _) => None
  | (ds, []) => Some (digits_value 10 ds)
  | (_, _ :: _) => None
  end.

(** [s.parse::<uN>()] with [max = uN::MAX]: a leading [+] is accepted. *)
Definition parse_uint (max : Z) (s : text) : option Z :=
  match parse_digits (match s with 43 :: t => t | _ => s end) with
  | Some v => if v <=? max then Some v else None
  | None => None
  end.

(** [s.parse::<i32>()] *)
Definition parse_i32 (s : text) : option Z :=
  let '(sign, t) := match s with 43 :: t => (1, t) | 45 :: t => (-1, t) | _ => (1, s) end in
  match parse_digits t with
  | Some v =>
      let v := sign * v in
      if (- 2 ^ 31 <=? v) && (v <? 2 ^ 31) then Some v else None
  | None => None
  end.

(** [format!("{n}")] and [format!("{n:x}")] for an unsigned [n] below [2^64]. *)
Definition digit_char (d : Z) : Z := if d <? 10 then 48 + d else 87 + d.

Fixpoint show_loop (fuel : nat) (radix n : Z) (acc : text) : text :=
  match fuel with
  | O => acc
  | S f =>
      let acc := digit_char (n mod radix) :: acc in
      if n <? radix then acc else show_loop f radix (n / radix) acc
  end.

Definition show_uint (n : Z) : text := show_loop 20 10 n [].
Definition show_hex (n : Z) : text := show_loop 20 16 n [].

(** What follows a number: the end, or a character that is no digit. *)
Definition digit_end (radix : Z) (s : text) : Prop :=
  match s with [] => True | c :: _ => to_digit radix c = None end.

Lemma span_digits_app radix ds vs rest :
  span_digits radix ds = (vs, []) → digit_end radix rest →
  span_digits radix (ds ++ rest) = (vs, rest).
Proof.
  intros Hds Hrest. revert vs Hds. induction ds as [|c ds IH]; intros vs; cbn.
  - intros [= <-]. destruct rest as [|c rest]; [done|]. cbn in *. by rewrite Hrest.
  - destruct (to_digit radix c) as [d|]; [|done].
    destruct (span_digits radix ds) as [vs' r'] eqn:E. intros [= <- ->].
    by rewrite (IH vs' eq_refl).
Qed.

(** Evaluation of a test on every [k]-bit integer. *)
Fixpoint all_bits (k : nat) (v : Z) (P : Z → bool) : bool :=
  match k with
  | O => P v
  | S k' => all_bits k' (2 * v) P && all_bits k' (2 * v + 1) P
  end.

Lemma all_bits_cases k v P :
  all_bits k v P = true → ∀ x, v * 2 ^ Z.of_nat k ≤ x < (v + 1) * 2 ^ Z.of_nat k → P x = true.
Proof.
  revert v. induction k as [|k IH]; intros v H x Hx; cbn [all_bits] in H.
  { by replace x with v by (cbn in Hx; lia). }
  apply andb_true_iff in H as [H1 H2]. rewrite Nat2Z.inj_succ, Z.pow_succ_r in Hx by lia.
  destruct (Z.lt_ge_cases x ((2 * v + 1) * 2 ^ Z.of_nat k)); [apply (IH _ H1)|apply (IH _ H2)]; lia.
Qed.
