(* ===== verification/WebSocket.v ===== *)
(** * DERP over WebSocket ([crabscale-derp/src/websocket.rs])

    The RFC 6455 codec, which masks, unmasks and reassembles messages, and the
    byte stream the relay reads and writes through it.  The framed transport
    below the byte stream ([tokio_util]'s [Framed]) is what it answers: a
    script of what its polls return, and the list of frames it was handed. *)

From S2P Require Import Prelude Text StreamDecoder DerpFrame TransportStream.

Definition MAX_WEBSOCKET_MESSAGE_LEN : Z := MAX_FRAME_BODY_LEN.

Definition OP_CONTINUATION : Z := 0x0.
Definition OP_TEXT : Z := 0x1.
Definition OP_BINARY : Z := 0x2.
Definition OP_CLOSE : Z := 0x8.
Definition OP_PING : Z := 0x9.
Definition OP_PONG : Z := 0xA.

Inductive WsFrame : Type :=
| WsBinary (b : bytes)
| WsText (b : bytes)
| WsPing (b : bytes)
| WsPong (b : bytes)
| WsClose.

Inductive WebSocketRole : Type := Server | Client.

Inductive WsErrorKind : Type :=
| WrongMasking (what : text)
| UnexpectedContinuation
| MessageAlreadyOpen
| ControlFrameTooLong
| WsOversized
| RsvNotZero.

Definition WsError_display (k : WsErrorKind) : text :=
  match k with
  | WrongMasking what => what
  | UnexpectedContinuation => str "unexpected WebSocket continuation frame"
  | MessageAlreadyOpen => str "new data frame while a fragmented message is open"
  | ControlFrameTooLong => str "WebSocket control frame exceeds 125 bytes"
  | WsOversized => str "WebSocket message exceeds the size limit"
  | RsvNotZero => str "WebSocket RSV bits set without a negotiated extension"
  end.

(** The [io::Error] of the codec. *)
Inductive ws_error : Type :=
| WsErr (k : WsErrorKind)
| UnknownOpcode (opcode : Z).

#[global] Instance WsFrame_eq_dec : EqDecision WsFrame.
Proof. solve_decision. Defined.
#[global] Instance WsErrorKind_eq_dec : EqDecision WsErrorKind.
Proof. solve_decision. Defined.
#[global] Instance ws_error_eq_dec : EqDecision ws_error.
Proof. solve_decision. Defined.

(** From the frame errors of the relay protocol. *)
Definition WsError_from (_ : FrameError) : WsErrorKind := WsOversized.

Record WebSocketCodec : Type := { ws_role : WebSocketRole; open_message : option bytes }.

Definition WebSocketCodec_server : WebSocketCodec := {| ws_role := Server; open_message := None |}.
Definition WebSocketCodec_client : WebSocketCodec := {| ws_role := Client; open_message := None |}.
Definition WebSocketCodec_default : WebSocketCodec := WebSocketCodec_server.

Definition set_open (o : option bytes) (c : WebSocketCodec) : WebSocketCodec :=
  {| ws_role := c.(ws_role); open_message := o |}.

(** ** Decoding *)

(** The masking direction of a role. *)
Definition check_masking (role : WebSocketRole) (masked : bool) : result unit ws_error :=
  match role, masked with
  | Server, false => Err (WsErr (WrongMasking (str "client WebSocket frame was not masked")))
  | Client, true => Err (WsErr (WrongMasking (str "server WebSocket frame was masked")))
  | _, _ => Ok ()
  end.

(** The length field and the length of the header; [None] is not enough bytes. *)
Definition payload_length (src : bytes) (payload_len : Z) : option (Z * Z) :=
  if payload_len <=? 125 then Some (payload_len, 2)
  else if payload_len =? 126 then
    if zlen src <? 4 then None else Some (from_be (slice 2 4 src), 4)
  else
    if zlen src <? 10 then None else Some (from_be (slice 2 10 src), 10).

(** The loop that unmasks (and, in the encoder, masks) a payload. *)
Definition apply_mask (mask payload : bytes) : bytes :=
  imap (λ i byte, Z.lxor byte (byte_at mask (Z.land (Z.of_nat i) 3))) payload.

(** A continuation, and the first frame of a message. *)
Definition continue_message (c : WebSocketCodec) (fin : bool) (payload : bytes)
    : WebSocketCodec * result (option WsFrame) ws_error :=
  match c.(open_message) with
  | None => (c, Err (WsErr UnexpectedContinuation))
  | Some open =>
      if MAX_WEBSOCKET_MESSAGE_LEN <? zlen open + zlen payload then (c, Err (WsErr WsOversized))
      else
        let open := open ++ payload in
        if fin then (set_open None c, Ok (Some (WsBinary open)))
        else (set_open (Some open) c, Ok None)
  end.

Definition start_message (c : WebSocketCodec) (fin : bool) (payload : bytes) (frame : bytes → WsFrame)
    : WebSocketCodec * result (option WsFrame) ws_error :=
  match c.(open_message) with
  | Some _ => (c, Err (WsErr MessageAlreadyOpen))
  | None =>
      if fin then (c, Ok (Some (frame payload)))
      else (set_open (Some payload) c, Ok None)
  end.

(** The [match] on the opcode of a whole frame. *)
Definition handle_opcode (c : WebSocketCodec) (fin : bool) (opcode : Z) (payload : bytes)
    : WebSocketCodec * result (option WsFrame) ws_error :=
  if opcode =? OP_PING then (c, Ok (Some (WsPing payload)))
  else if opcode =? OP_PONG then (c, Ok (Some (WsPong payload)))
  else if opcode =? OP_CLOSE then (c, Ok (Some WsClose))
  else if opcode =? OP_CONTINUATION then continue_message c fin payload
  else if opcode =? OP_TEXT then start_message c fin payload WsText
  else if opcode =? OP_BINARY then start_message c fin payload WsBinary
  else (c, Err (UnknownOpcode opcode)).

(** The first part of [decode]: the frame at the front of the buffer, unmasked,
    with the bytes it takes; [None] is not enough bytes. *)
Definition ws_frame (role : WebSocketRole) (src : bytes)
    : option (result (bool * Z * bytes * Z) ws_error) :=
  if zlen src <? 2 then None
  else
    let first := byte_at src 0 in
    let second := byte_at src 1 in
    let fin := negb (Z.land first 0x80 =? 0) in
    let opcode := Z.land first 0x0F in
    let masked := negb (Z.land second 0x80 =? 0) in
    if negb (Z.land first 0x70 =? 0) then Some (Err (WsErr RsvNotZero))
    else
      match check_masking role masked with
      | Err e => Some (Err e)
      | Ok _ =>
          '(length, header_len) ← payload_length src (Z.land second 0x7F);
          if MAX_WEBSOCKET_MESSAGE_LEN <? length then Some (Err (WsErr WsOversized))
          else
            let mask_len := if masked then 4 else 0 in
            let total := header_len + mask_len + length in
            if zlen src <? total then None
            else
              let is_control := negb (Z.land opcode 0x08 =? 0) in
              if is_control && negb fin then Some (Err (WsErr MessageAlreadyOpen))
              else if is_control && (125 <? length) then Some (Err (WsErr ControlFrameTooLong))
              else
                let body := slice (header_len + mask_len) total src in
                let mask := slice header_len (header_len + mask_len) src in
                Some (Ok (fin, opcode, (if masked then apply_mask mask body else body), total))
      end.

(** [decode]: the codec and the buffer it leaves, and its answer. *)
Definition ws_decode (c : WebSocketCodec) (src : bytes)
    : (WebSocketCodec * bytes) * result (option WsFrame) ws_error :=
  match ws_frame c.(ws_role) src with
  | None => ((c, src), Ok None)
  | Some (Err e) => ((c, src), Err e)
  | Some (Ok (fin, opcode, payload, total)) =>
      let '(c', r) := handle_opcode c fin opcode payload in ((c', zdrop total src), r)
  end.

(** ** Encoding *)

Definition frame_opcode (item : WsFrame) : Z * bytes :=
  match item with
  | WsBinary b => (OP_BINARY, b)
  | WsText t => (OP_TEXT, t)
  | WsPing p => (OP_PING, p)
  | WsPong p => (OP_PONG, p)
  | WsClose => (OP_CLOSE, [])
  end.

(** The length field of a payload, with the mask bit. *)
Definition length_field (mask_bit len : Z) : bytes :=
  if len <=? 125 then [Z.lor mask_bit (wrap 8 len)]
  else if len <=? 0xFFFF then Z.lor mask_bit 126 :: to_be 2 (wrap 16 len)
  else Z.lor mask_bit 127 :: to_be 8 len.

(** [encode]: what is appended to the buffer. *)
Definition ws_encode (role : WebSocketRole) (item : WsFrame) : result bytes ws_error :=
  let '(opcode, payload) := frame_opcode item in
  fail_if MAX_WEBSOCKET_MESSAGE_LEN <? zlen payload with WsErr WsOversized ;;
  let mask := match role with Server => None | Client => Some (zeros 4) end in
  let mask_bit := match mask with Some _ => 0x80 | None => 0 end in
  Ok (Z.lor 0x80 opcode :: length_field mask_bit (zlen payload)
      ++ match mask with Some key => key ++ apply_mask key payload | None => payload end).

(** ** The byte stream *)

(** What the framed transport answers: to a read, a frame, an error, the end of
    the stream, or not yet; to [poll_ready], [poll_flush] and [poll_close],
    done, an error, or not yet. *)
Inductive frame_answer : Type := FItem (f : WsFrame) | FError (e : ws_error) | FEnd | FPending.
Inductive sink_answer : Type := SDone | SFail | SPending.

(** The errors of the byte stream. *)
Inductive ws_stream_error : Type := TransportFailed | CodecFailed (e : ws_error).

Record WebSocketByteStream : Type := {
  wi_role : WebSocketRole;
  wi_next : list frame_answer;
  wi_sink : list sink_answer;
  wi_sent : list WsFrame;
  wb_read_buf : bytes;
  pending_pongs : list bytes }.

Definition WebSocketByteStream_with_role (next : list frame_answer) (sink : list sink_answer)
    (role : WebSocketRole) : WebSocketByteStream :=
  {| wi_role := role; wi_next := next; wi_sink := sink; wi_sent := []; wb_read_buf := [];
     pending_pongs := [] |}.

Definition WebSocketByteStream_new next sink := WebSocketByteStream_with_role next sink Server.
Definition WebSocketByteStream_new_client next sink := WebSocketByteStream_with_role next sink Client.

Definition with_reading (s : WebSocketByteStream) (next : list frame_answer) (buf : bytes)
    (pongs : list bytes) : WebSocketByteStream :=
  {| wi_role := s.(wi_role); wi_next := next; wi_sink := s.(wi_sink); wi_sent := s.(wi_sent);
     wb_read_buf := buf; pending_pongs := pongs |}.

Definition with_sink (s : WebSocketByteStream) (sink : list sink_answer) (sent : list WsFrame)
    (pongs : list bytes) : WebSocketByteStream :=
  {| wi_role := s.(wi_role); wi_next := s.(wi_next); wi_sink := sink; wi_sent := sent;
     wb_read_buf := s.(wb_read_buf); pending_pongs := pongs |}.

(** The loop of [poll_read] once the buffer is empty, over the answers of the
    transport, with [remaining] bytes of room; no answer left is [Pending]. *)
Fixpoint read_loop (remaining : Z) (s : WebSocketByteStream) (next : list frame_answer) (pongs : list bytes)
    : WebSocketByteStream * poll (result bytes ws_stream_error) :=
  match next with
  | [] => (with_reading s [] [] pongs, Pending)
  | FPending :: rest => (with_reading s rest [] pongs, Pending)
  | FEnd :: rest => (with_reading s rest [] pongs, Ready (Ok []))
  | FError e :: rest => (with_reading s rest [] pongs, Ready (Err (CodecFailed e)))
  | FItem WsClose :: rest => (with_reading s rest [] pongs, Ready (Ok []))
  | FItem (WsPong _) :: rest => read_loop remaining s rest pongs
  | FItem (WsPing payload) :: rest => read_loop remaining s rest (pongs ++ [payload])
  | FItem (WsBinary data) :: rest | FItem (WsText data) :: rest =>
      match data with
      | [] => read_loop remaining s rest pongs
      | _ =>
          let n := Z.min (zlen data) remaining in
          (with_reading s rest (zdrop n data) pongs, Ready (Ok (ztake n data)))
      end
  end.

Definition ws_poll_read (remaining : Z) (s : WebSocketByteStream)
    : WebSocketByteStream * poll (result bytes ws_stream_error) :=
  match s.(wb_read_buf) with
  | [] => read_loop remaining s s.(wi_next) s.(pending_pongs)
  | buf =>
      let n := Z.min (zlen buf) remaining in
      (with_reading s s.(wi_next) (zdrop n buf) s.(pending_pongs), Ready (Ok (ztake n buf)))
  end.

(** One answer of the sink; none left is [Pending]. *)
Definition poll_sink (s : WebSocketByteStream) : WebSocketByteStream * poll (result unit ws_stream_error) :=
  match s.(wi_sink) with
  | [] => (s, Pending)
  | SPending :: r => (with_sink s r s.(wi_sent) s.(pending_pongs), Pending)
  | SFail :: r => (with_sink s r s.(wi_sent) s.(pending_pongs), Ready (Err TransportFailed))
  | SDone :: r => (with_sink s r s.(wi_sent) s.(pending_pongs), Ready (Ok ()))
  end.

(** [start_send]: the frame is encoded into the transport's buffer. *)
Definition start_send (item : WsFrame) (s : WebSocketByteStream)
    : WebSocketByteStream * result unit ws_stream_error :=
  match ws_encode s.(wi_role) item with
  | Err e => (s, Err (CodecFailed e))
  | Ok _ => (with_sink s s.(wi_sink) (s.(wi_sent) ++ [item]) s.(pending_pongs), Ok ())
  end.

(** [ready!(poll_ready)?; start_send(item)?; ready!(poll_flush)?] *)
Definition send_item (item : WsFrame) (s : WebSocketByteStream)
    : WebSocketByteStream * poll (result unit ws_stream_error) :=
  match poll_sink s with
  | (s, Ready (Ok _)) =>
      match start_send item s with
      | (s, Ok _) => poll_sink s
      | (s, Err e) => (s, Ready (Err e))
      end
  | other => other
  end.

(** The loop over the pongs owed; each is taken off before it is sent. *)
Fixpoint send_pongs (pongs : list bytes) (s : WebSocketByteStream)
    : WebSocketByteStream * poll (result unit ws_stream_error) :=
  match pongs with
  | [] => (s, Ready (Ok ()))
  | pong :: rest =>
      match send_item (WsPong pong) (with_sink s s.(wi_sink) s.(wi_sent) rest) with
      | (s, Ready (Ok _)) => send_pongs rest s
      | other => other
      end
  end.

Definition ws_poll_write (buf : bytes) (s : WebSocketByteStream)
    : WebSocketByteStream * poll (result Z ws_stream_error) :=
  match send_pongs s.(pending_pongs) s with
  | (s, Ready (Ok _)) =>
      match send_item (WsBinary buf) s with
      | (s, Ready (Ok _)) => (s, Ready (Ok (zlen buf)))
      | (s, Ready (Err e)) => (s, Ready (Err e))
      | (s, Pending) => (s, Pending)
      end
  | (s, Ready (Err e)) => (s, Ready (Err e))
  | (s, Pending) => (s, Pending)
  end.

(** [poll_flush] and [poll_shutdown] ask the sink. *)
Definition ws_poll_flush (s : WebSocketByteStream) := poll_sink s.
Definition ws_poll_shutdown (s : WebSocketByteStream) := poll_sink s.

(** ** Masks and headers *)

Lemma length_apply_mask mask p : zlen (apply_mask mask p) = zlen p.
Proof. unfold zlen, apply_mask. by rewrite length_imap. Qed.

Lemma apply_mask_twice mask p : apply_mask mask (apply_mask mask p) = p.
Proof.
  apply list_eq. intros i. unfold apply_mask. rewrite !list_lookup_imap.
  destruct (p !! i) as [b|]; [|done]. cbn. f_equal. apply lxor_twice.
Qed.

Lemma payload_length_app src more n x :
  payload_length src n = Some x → payload_length (src ++ more) n = Some x.
Proof.
  unfold payload_length. rewrite zlen_app. pose proof (zlen_nonneg more).
  destruct (n <=? 125); [done|]. destruct (n =? 126).
  - destruct (Z.ltb_spec (zlen src) 4); [done|]. pass_guard. intros <-. by rewrite slice_app_in by lia.
  - destruct (Z.ltb_spec (zlen src) 10); [done|]. pass_guard. intros <-. by rewrite slice_app_in by lia.
Qed.

Lemma payload_length_bounds src n l h :
  0 ≤ n → payload_length src n = Some (l, h) → 0 ≤ l ∧ 2 ≤ h.
Proof.
  unfold payload_length. intros Hn.
  pose proof (from_be_range (slice 2 4 src)). pose proof (from_be_range (slice 2 10 src)).
  destruct (n <=? 125); [intros [= <- <-]; lia|].
  destruct (n =? 126); [destruct (zlen src <? 4)|destruct (zlen src <? 10)];
    first [done|intros [= <- <-]; lia].
Qed.

(** Bytes that arrive later change neither a frame nor an error. *)
Lemma ws_frame_app role src more x :
  ws_frame role src = Some x → ws_frame role (src ++ more) = Some x.
Proof.
  unfold ws_frame. pose proof (zlen_nonneg more) as Hm. rewrite zlen_app.
  destruct (Z.ltb_spec (zlen src) 2) as [|Hl]; [done|]. pass_guard. rewrite !byte_at_app by lia. cbv zeta.
  destruct (negb (Z.land (byte_at src 0) 112 =? 0)); [done|].
  destruct (check_masking _ _) as [[]|e]; [|done].
  destruct (payload_length src _) as [[l h]|] eqn:Hp; [|done].
  rewrite (payload_length_app _ more _ _ Hp). cbn [mbind option_bind].
  apply payload_length_bounds in Hp as [Hl0 Hh]; [|apply Z.land_nonneg; by right].
  destruct (MAX_WEBSOCKET_MESSAGE_LEN <? l); [done|].
  set (k := if negb _ then 4 else 0). assert (Hk : 0 ≤ k) by (unfold k; by case_match).
  destruct (Z.ltb_spec (zlen src) (h + k + l)); [done|]. pass_guard.
  by rewrite !slice_app_in by lia.
Qed.

Lemma ws_frame_total role src fin op p total :
  ws_frame role src = Some (Ok (fin, op, p, total)) → 2 ≤ total ≤ zlen src.
Proof.
  unfold ws_frame. destruct (zlen src <? 2); [done|]. cbv zeta.
  destruct (negb (Z.land (byte_at src 0) 112 =? 0)); [done|].
  destruct (check_masking _ _) as [[]|e]; [|done].
  destruct (payload_length src _) as [[l h]|] eqn:Hp; [|done]. cbn [mbind option_bind].
  apply payload_length_bounds in Hp as [Hl0 Hh]; [|apply Z.land_nonneg; by right].
  destruct (MAX_WEBSOCKET_MESSAGE_LEN <? l); [done|].
  set (k := if negb _ then 4 else 0). assert (Hk : 0 ≤ k) by (unfold k; by case_match).
  destruct (Z.ltb_spec (zlen src) (h + k + l)); [done|].
  destruct (_ && negb _); [done|]. destruct (_ && _); [done|]. intros [= _ _ _ <-]. lia.
Qed.

(** ** The decoder as a stream decoder

    One call of [decode] that takes a frame off the buffer: the frame of a
    message that goes on yields no item. *)

Definition ws_decode1 (c : WebSocketCodec) (src : bytes) : step_result WebSocketCodec (option WsFrame) ws_error :=
  match ws_decode c src with
  | ((c', _), Err e) => Reject c' e
  | ((c', rest), Ok o) => if zlen rest =? zlen src then NeedMore else Produce c' o (zlen src - zlen rest)
  end.

Lemma ws_decode1_eq c src :
  ws_decode1 c src =
  match ws_frame c.(ws_role) src with
  | None => NeedMore
  | Some (Err e) => Reject c e
  | Some (Ok (fin, op, p, total)) =>
      match handle_opcode c fin op p with
      | (c', Ok o) => Produce c' o total
      | (c', Err e) => Reject c' e
      end
  end.
Proof.
  unfold ws_decode1, ws_decode.
  destruct (ws_frame _ src) as [[[[[fin op] p] total]|e]|] eqn:Hf; [|done|by rewrite Z.eqb_refl].
  apply ws_frame_total in Hf. destruct (handle_opcode c fin op p) as [c' [o|e]]; [|done].
  rewrite zlen_drop by lia. destruct (Z.eqb_spec (zlen src - total) (zlen src)); [lia|].
  f_equal. lia.
Qed.

#[global] Program Instance WsDecoder : StreamDecoder WebSocketCodec (option WsFrame) ws_error :=
  {| decode1 := ws_decode1 |}.
Next Obligation.
  intros c src c' o n. rewrite ws_decode1_eq.
  destruct (ws_frame _ src) as [[[[[fin op] p] total]|e]|] eqn:Hf; [|done..].
  apply ws_frame_total in Hf. destruct (handle_opcode c fin op p) as [c1 [o'|e]]; [|done].
  intros [= _ _ <-]. lia.
Qed.
Next Obligation.
  intros c src more c' o n. rewrite !ws_decode1_eq.
  destruct (ws_frame _ src) as [x|] eqn:Hf; [|done]. by rewrite (ws_frame_app _ _ more _ Hf).
Qed.
Next Obligation.
  intros c src more c' e. rewrite !ws_decode1_eq.
  destruct (ws_frame _ src) as [x|] eqn:Hf; [|done]. by rewrite (ws_frame_app _ _ more _ Hf).
Qed.

(** ** Messages on the wire *)

(** A frame as RFC 6455 lays it out, with the mask its sender chose. *)
Definition wire (fin : bool) (opcode : Z) (key : option bytes) (payload : bytes) : bytes :=
  Z.lor (if fin then 0x80 else 0) opcode
  :: length_field (match key with Some _ => 0x80 | None => 0 end) (zlen payload)
  ++ match key with Some k => k ++ apply_mask k payload | None => payload end.

(** The keys a role accepts: a server reads masked frames, a client does not. *)
Definition key_ok (role : WebSocketRole) (key : option bytes) : Prop :=
  match role, key with
  | Server, Some k => zlen k = 4
  | Client, None => True
  | _, _ => False
  end.

Lemma length_field_read m len first tail :
  m = 0 ∨ m = 0x80 → 0 ≤ len ≤ MAX_WEBSOCKET_MESSAGE_LEN →
  let src := first :: length_field m len ++ tail in
  payload_length src (Z.land (byte_at src 1) 0x7F) = Some (len, 1 + zlen (length_field m len))
  ∧ negb (Z.land (byte_at src 1) 0x80 =? 0) = bool_decide (m = 0x80)
  ∧ 1 ≤ zlen (length_field m len).
Proof.
  intros Hm Hlen. unfold MAX_WEBSOCKET_MESSAGE_LEN, MAX_FRAME_BODY_LEN in Hlen.
  assert (Hsmall : ∀ x, 0 ≤ x < 128 → Z.land (Z.lor m x) 0x7F = x
    ∧ negb (Z.land (Z.lor m x) 0x80 =? 0) = bool_decide (m = 0x80)).
  { intros x Hx. destruct Hm as [-> | ->]; by_range x Hx 128. }
  pose proof (zlen_nonneg tail). unfold length_field.
  destruct (Z.leb_spec len 125); [|destruct (Z.leb_spec len 0xFFFF)]; cbv zeta.
  - cbn [app]. change (byte_at _ 1) with (Z.lor m (wrap 8 len)).
    unfold wrap. rewrite Z.mod_small by lia. destruct (Hsmall len ltac:(lia)) as [-> ->].
    split; [|split; [done|by rewrite zlen_cons]]. unfold payload_length.
    by rewrite (proj2 (Z.leb_le len 125)).
  - cbn [app]. change (byte_at _ 1) with (Z.lor m 126). destruct (Hsmall 126 ltac:(lia)) as [-> ->].
    assert (Hz : zlen (Z.lor m 126 :: to_be 2 (wrap 16 len)) = 3) by by rewrite zlen_cons, zlen_to_be.
    rewrite Hz. split; [|by split]. unfold payload_length. change (126 <=? 125) with false.
    change (126 =? 126) with true. cbn iota. rewrite !zlen_cons, zlen_app, zlen_to_be. pass_guard.
    rewrite !slice_cons by lia. rewrite slice_app_l by by rewrite zlen_to_be.
    unfold wrap. rewrite Z.mod_small by lia. by rewrite from_to_be_small by (cbn; lia).
  - cbn [app]. change (byte_at _ 1) with (Z.lor m 127). destruct (Hsmall 127 ltac:(lia)) as [-> ->].
    assert (Hz : zlen (Z.lor m 127 :: to_be 8 len) = 9) by by rewrite zlen_cons, zlen_to_be.
    rewrite Hz. split; [|by split]. unfold payload_length. change (127 <=? 125) with false.
    change (127 =? 126) with false. cbn iota. rewrite !zlen_cons, zlen_app, zlen_to_be. pass_guard.
    rewrite !slice_cons by lia. rewrite slice_app_l by by rewrite zlen_to_be.
    by rewrite from_to_be_small by (cbn; lia).
Qed.

Lemma first_byte (fin : bool) op :
  0 ≤ op < 16 →
  negb (Z.land (Z.lor (if fin then 0x80 else 0) op) 0x80 =? 0) = fin
  ∧ Z.land (Z.lor (if fin then 0x80 else 0) op) 0x0F = op
  ∧ Z.land (Z.lor (if fin then 0x80 else 0) op) 0x70 = 0.
Proof. intros Hop. destruct fin; by_range op Hop 16. Qed.

(** The decoder reads a frame as it was written, whatever follows. *)
Lemma ws_frame_wire role fin op key p rest :
  key_ok role key → 0 ≤ op < 16 → zlen p ≤ MAX_WEBSOCKET_MESSAGE_LEN →
  (Z.land op 8 ≠ 0 → fin = true ∧ zlen p ≤ 125) →
  ws_frame role (wire fin op key p ++ rest) = Some (Ok (fin, op, p, zlen (wire fin op key p))).
Proof.
  intros Hk Hop Hmax Hctl. unfold ws_frame, wire. pose proof (zlen_nonneg rest). pose proof (zlen_nonneg p).
  set (m := match key with Some _ => 128 | None => 0 end).
  set (body := match key with Some k => k ++ apply_mask k p | None => p end).
  set (first := Z.lor (if fin then 128 else 0) op).
  destruct (first_byte fin op Hop) as (Hf1 & Hf2 & Hf3). fold first in Hf1, Hf2, Hf3.
  rewrite <- (app_comm_cons (length_field m (zlen p) ++ body) rest first), <- app_assoc.
  destruct (length_field_read m (zlen p) first (body ++ rest)) as (Hlen & Hmask & Hl1);
    [by unfold m; destruct key; auto|lia|]. cbv zeta in Hlen, Hmask.
  set (L := length_field m (zlen p)) in *. set (src := first :: L ++ body ++ rest) in *.
  assert (Hsrc : zlen src = 1 + zlen L + zlen body + zlen rest).
  { unfold src. rewrite zlen_cons, !zlen_app. lia. }
  pose proof (zlen_nonneg body). assert (Hbody : zlen body = (match key with Some _ => 4 | None => 0 end) + zlen p).
  { unfold body. destruct key as [k|]; [|lia]. rewrite zlen_app, length_apply_mask.
    destruct role; [|done]. cbn in Hk. lia. }
  assert (Hsplit : ∀ a b, 0 ≤ a ≤ b → slice (1 + zlen L + a) (1 + zlen L + b) src = slice a b (body ++ rest)).
  { intros a b Hab. unfold src. change (first :: L ++ body ++ rest) with ((first :: L) ++ body ++ rest).
    rewrite slice_app_r by (rewrite zlen_cons; lia). rewrite zlen_cons. f_equal; lia. }
  pass_guard. change (byte_at src 0) with first. cbv zeta. rewrite Hf1, Hf2, Hf3, Hmask.
  change (negb (0 =? 0)) with false. cbn iota.
  assert (Hchk : check_masking role (bool_decide (m = 128)) = Ok ()).
  { unfold m. by destruct role, key; cbn in Hk. }
  rewrite Hchk, Hlen. cbn [mbind option_bind]. pass_guard.
  assert (Hm : bool_decide (m = 128) = match key with Some _ => true | None => false end)
    by by unfold m; destruct key.
  rewrite Hm. set (k4 := if match key with Some _ => true | None => false end then 4 else 0).
  assert (Hk4 : k4 = match key with Some _ => 4 | None => 0 end) by by unfold k4; destruct key.
  assert (Hpay : (if match key with Some _ => true | None => false end
      then apply_mask (slice (1 + zlen L) (1 + zlen L + k4) src)
             (slice (1 + zlen L + k4) (1 + zlen L + k4 + zlen p) src)
      else slice (1 + zlen L + k4) (1 + zlen L + k4 + zlen p) src) = p).
  { pose proof (Hsplit 0 k4) as Hs1. pose proof (Hsplit k4 (k4 + zlen p)) as Hs2.
    rewrite Z.add_0_r in Hs1. rewrite Z.add_assoc in Hs2. rewrite Hs1, Hs2 by (destruct key; lia).
    unfold body. rewrite Hk4. destruct key as [k|].
    - destruct role; [|done]. cbn in Hk. rewrite <- app_assoc, slice_app_l by done.
      rewrite slice_app_mid by (rewrite ?length_apply_mask; lia). apply apply_mask_twice.
    - by apply slice_app_l. }
  rewrite zlen_cons, zlen_app. pass_guard. rewrite Hpay.
  assert (Ht : 1 + (zlen L + zlen body) = 1 + zlen L + k4 + zlen p) by lia. rewrite Ht.
  destruct (Z.eqb_spec (Z.land op 8) 0) as [|Hc]; cbn [negb andb]; [done|].
  destruct (Hctl Hc) as [-> Hle]. cbn [negb]. by pass_guard.
Qed.

(** An encoder writes such a frame, masked with zeros by a client. *)
Lemma ws_encode_wire role item :
  zlen (frame_opcode item).2 ≤ MAX_WEBSOCKET_MESSAGE_LEN →
  ws_encode role item
  = Ok (wire true (frame_opcode item).1 (match role with Server => None | Client => Some (zeros 4) end)
          (frame_opcode item).2).
Proof.
  intros Hle. unfold ws_encode, wire. destruct (frame_opcode item) as [op p]. cbn [fst snd] in *. pass_guard.
  by destruct role.
Qed.

Lemma ws_decode1_wire c fin op key p c' o rest :
  key_ok c.(ws_role) key → 0 ≤ op < 16 → zlen p ≤ MAX_WEBSOCKET_MESSAGE_LEN →
  (Z.land op 8 ≠ 0 → fin = true ∧ zlen p ≤ 125) → handle_opcode c fin op p = (c', Ok o) →
  ws_decode1 c (wire fin op key p ++ rest) = Produce c' o (zlen (wire fin op key p)).
Proof.
  intros Hk Hop Hmax Hctl Hh. by rewrite ws_decode1_eq, ws_frame_wire, Hh.
Qed.

(** A control frame, and a part of a message with the control frames that come
    before it. *)
Definition control := (WsFrame * option bytes)%type.
Definition part := (list control * option bytes * bytes)%type.

(** What a peer says: a control frame, or a message cut into parts. *)
Inductive utterance : Type :=
| Control (c : control)
| Message (is_text : bool) (key : option bytes) (first : bytes) (more : list part).

Definition control_wire (c : control) : bytes :=
  wire true (frame_opcode c.1).1 c.2 (frame_opcode c.1).2.

Fixpoint parts_wire (ps : list part) : bytes :=
  match ps with
  | [] => []
  | (cs, key, data) :: rest =>
      flat_map control_wire cs
      ++ wire (bool_decide (rest = [])) OP_CONTINUATION key data ++ parts_wire rest
  end.

Definition utter (u : utterance) : bytes :=
  match u with
  | Control c => control_wire c
  | Message is_text key first more =>
      wire (bool_decide (more = [])) (if is_text then OP_TEXT else OP_BINARY) key first ++ parts_wire more
  end.

(** What the other end is told of it: the control frames as they come, then the
    message; a text message in several parts is told as a binary one. *)
Definition part_controls (p : part) : list WsFrame := map fst p.1.1.

Definition heard (u : utterance) : list WsFrame :=
  match u with
  | Control c => [c.1]
  | Message is_text _ first [] => [if is_text then WsText first else WsBinary first]
  | Message _ _ first more => flat_map part_controls more ++ [WsBinary (first ++ flat_map snd more)]
  end.

Definition control_ok (role : WebSocketRole) (c : control) : Prop :=
  key_ok role c.2 ∧ zlen (frame_opcode c.1).2 ≤ 125
  ∧ match c.1 with WsPing _ | WsPong _ | WsClose => True | _ => False end.

Definition part_ok (role : WebSocketRole) (p : part) : Prop :=
  Forall (control_ok role) p.1.1 ∧ key_ok role p.1.2.

Definition utterance_ok (role : WebSocketRole) (u : utterance) : Prop :=
  match u with
  | Control c => control_ok role c
  | Message _ key first more =>
      key_ok role key ∧ Forall (part_ok role) more
      ∧ zlen (first ++ flat_map snd more) ≤ MAX_WEBSOCKET_MESSAGE_LEN
  end.

(** Frames that the codec decodes one after the other. *)
Definition says (c : WebSocketCodec) (told : list WsFrame) (bs : bytes) (c' : WebSocketCodec) : Prop :=
  ∃ items, encodes (SD := WsDecoder) c items bs c' ∧ omap id items = told.

Lemma says_nil c : says c [] [] c.
Proof. exists []. split; [constructor|done]. Qed.

Lemma says_app c t1 b1 c1 t2 b2 c2 :
  says c t1 b1 c1 → says c1 t2 b2 c2 → says c (t1 ++ t2) (b1 ++ b2) c2.
Proof.
  intros (i1 & H1 & <-) (i2 & H2 & <-). exists (i1 ++ i2). split; [by eapply encodes_app|]. apply omap_app.
Qed.

Lemma says_frame c fin op key p c' o :
  key_ok c.(ws_role) key → 0 ≤ op < 16 → zlen p ≤ MAX_WEBSOCKET_MESSAGE_LEN →
  (Z.land op 8 ≠ 0 → fin = true ∧ zlen p ≤ 125) → handle_opcode c fin op p = (c', Ok o) →
  says c (option_list o) (wire fin op key p) c'.
Proof.
  intros. exists [o]. split; [|by destruct o]. rewrite <- (app_nil_r (wire fin op key p)).
  econstructor; [|constructor]. intros rest. by apply ws_decode1_wire.
Qed.

Lemma says_control c k : control_ok c.(ws_role) k → says c [k.1] (control_wire k) c.
Proof.
  intros (Hk & Hl & Hc). destruct k as [f key]. cbn [fst snd] in *. unfold control_wire. cbn [fst snd].
  change [f] with (option_list (Some f)).
  assert (zlen (frame_opcode f).2 ≤ MAX_WEBSOCKET_MESSAGE_LEN)
    by (unfold MAX_WEBSOCKET_MESSAGE_LEN, MAX_FRAME_BODY_LEN; lia).
  apply says_frame; [done| |done|by intros _|]; by destruct f.
Qed.

Lemma says_controls c ks :
  Forall (control_ok c.(ws_role)) ks → says c (map fst ks) (flat_map control_wire ks) c.
Proof.
  induction 1 as [|k ks Hk _ IH]; [apply says_nil|]. cbn [map flat_map].
  change (k.1 :: map fst ks) with ([k.1] ++ map fst ks). eapply says_app; [by apply says_control|done].
Qed.

Lemma handle_part c open fin data :
  c.(open_message) = Some open → zlen (open ++ data) ≤ MAX_WEBSOCKET_MESSAGE_LEN →
  handle_opcode c fin OP_CONTINUATION data
  = if fin then (set_open None c, Ok (Some (WsBinary (open ++ data))))
    else (set_open (Some (open ++ data)) c, Ok None).
Proof.
  intros Ho Hle. unfold handle_opcode, continue_message. cbn. rewrite Ho. rewrite zlen_app in Hle. by pass_guard.
Qed.

(** The parts of an open message. *)
Lemma says_parts c open ps :
  c.(open_message) = Some open → ps ≠ [] → Forall (part_ok c.(ws_role)) ps →
  zlen (open ++ flat_map snd ps) ≤ MAX_WEBSOCKET_MESSAGE_LEN →
  says c (flat_map part_controls ps ++ [WsBinary (open ++ flat_map snd ps)]) (parts_wire ps) (set_open None c).
Proof.
  intros Ho Hne Hok. revert c open Ho Hok. induction ps as [|[[cs key] data] ps IH]; [done|].
  intros c open Ho [[Hcs Hk] Hps]%list.Forall_cons Hle. cbn [fst snd] in Hcs, Hk.
  cbn [flat_map snd] in Hle. rewrite app_assoc in Hle.
  assert (Hopen : zlen (open ++ data) ≤ MAX_WEBSOCKET_MESSAGE_LEN).
  { rewrite zlen_app in Hle. pose proof (zlen_nonneg (flat_map snd ps)). lia. }
  assert (Hdata : zlen data ≤ MAX_WEBSOCKET_MESSAGE_LEN).
  { rewrite zlen_app in Hopen. pose proof (zlen_nonneg open). lia. }
  cbn [flat_map parts_wire snd]. change (part_controls (cs, key, data)) with (map fst cs).
  rewrite <- (app_assoc (map fst cs)). eapply says_app; [by apply says_controls|].
  pose proof (handle_part c open (bool_decide (ps = [])) data Ho Hopen) as Hh.
  destruct ps as [|p ps].
  - cbn [flat_map parts_wire app]. rewrite !app_nil_r.
    by apply (says_frame _ _ _ _ _ _ (Some (WsBinary (open ++ data)))).
  - rewrite (app_assoc open). change (flat_map part_controls (p :: ps) ++ ?x)
      with (option_list None ++ (flat_map part_controls (p :: ps) ++ x)).
    eapply (says_app _ _ _ (set_open (Some (open ++ data)) c)); [by apply (says_frame _ _ _ _ _ _ None)|].
    change (set_open None c) with (set_open None (set_open (Some (open ++ data)) c)). by apply IH.
Qed.

Lemma says_utterance c u :
  c.(open_message) = None → utterance_ok c.(ws_role) u → says c (heard u) (utter u) c.
Proof.
  intros Ho. destruct u as [k|is_text key first more]; [by apply says_control|].
  intros (Hk & Hps & Hle). pose proof (zlen_nonneg (flat_map snd more)).
  assert (Hfirst : zlen first ≤ MAX_WEBSOCKET_MESSAGE_LEN) by (rewrite zlen_app in Hle; lia).
  assert (Hc : c = set_open None c) by (destruct c; cbn in Ho; by subst).
  destruct more as [|p ps]; cbn [utter].
  - rewrite app_nil_r. change [?x] with (option_list (Some x)).
    apply (says_frame c _ _ _ _ c (Some (if is_text then WsText first else WsBinary first)));
      [done|by destruct is_text|done|by destruct is_text|].
    unfold handle_opcode, start_message. rewrite Ho. by destruct is_text.
  - unfold heard. change (flat_map part_controls (p :: ps) ++ ?x)
      with (option_list None ++ (flat_map part_controls (p :: ps) ++ x)).
    eapply (says_app _ _ _ (set_open (Some first) c)).
    + apply (says_frame c _ _ _ _ _ None); [done|by destruct is_text|done|by destruct is_text|].
      unfold handle_opcode, start_message. rewrite Ho. by destruct is_text.
    + rewrite Hc at 2. change (set_open None c) with (set_open None (set_open (Some first) c)). by apply says_parts.
Qed.

(** Whatever a peer says, with the masks it likes, each message cut where it
    likes, control frames between the parts, and the bytes arriving in any
    pieces: the codec tells exactly the messages and control frames, and is
    left as it was. *)
Theorem ws_messages_reassembled c us chunks :
  c.(open_message) = None → Forall (utterance_ok c.(ws_role)) us → concat chunks = flat_map utter us →
  ∃ items, feed_all (SD := WsDecoder) (c, []) chunks = ((c, []), Ok items)
    ∧ omap id items = flat_map heard us.
Proof.
  intros Ho Hok Hc. assert (Hs : says c (flat_map heard us) (flat_map utter us) c).
  { clear Hc. induction Hok as [|u us Hu _ IH]; [apply says_nil|]. cbn [flat_map].
    eapply says_app; [by apply says_utterance|done]. }
  destruct Hs as (items & He & Hi). exists items. split; [|done]. by eapply feed_all_encoded.
Qed.

Lemma ws_messages_reassembled_witness :
  let key := Some [1; 2; 3; 4] in
  let us := [Message false key [10; 20] [([(WsPing [7], key)], key, [30]); ([], key, [40])]; Control (WsClose, key)] in
  (∃ items, feed_all (SD := WsDecoder) (WebSocketCodec_server, []) [flat_map utter us]
            = ((WebSocketCodec_server, []), Ok items) ∧ omap id items = flat_map heard us)
  ∧ flat_map heard us = [WsPing [7]; WsBinary [10; 20; 30; 40]; WsClose].
Proof.
  intros key us. split; [|done]. apply ws_messages_reassembled; [done| |apply app_nil_r].
  repeat first [apply list.Forall_nil; exact I|apply list.Forall_cons; split|split]; done.
Defined.

(** ** An answer that is not kept

    [Decoder::decode] answers [None] to ask for more bytes; its caller does not
    call again before some arrive. *)

(** The last part of a message that is already in the buffer is not looked at:
    the call that takes the first part asks for more bytes, and only another
    call, without any, tells the message. *)
Theorem buffered_message_not_told c k1 k2 d1 d2 :
  c.(open_message) = None → key_ok c.(ws_role) k1 → key_ok c.(ws_role) k2 →
  zlen (d1 ++ d2) ≤ MAX_WEBSOCKET_MESSAGE_LEN →
  let first := wire false OP_BINARY k1 d1 in
  let last := wire true OP_CONTINUATION k2 d2 in
  ws_decode c (first ++ last) = ((set_open (Some d1) c, last), Ok None)
  ∧ ws_decode (set_open (Some d1) c) last = ((set_open None c, []), Ok (Some (WsBinary (d1 ++ d2)))).
Proof.
  intros Ho H1 H2 Hle first last. pose proof (zlen_nonneg d1). pose proof (zlen_nonneg d2).
  pose proof Hle as Hle'. rewrite zlen_app in Hle'. split; unfold ws_decode.
  - rewrite (ws_frame_wire _ false OP_BINARY k1 d1) by (done || lia).
    rewrite zdrop_app by done. unfold handle_opcode, start_message. rewrite Ho. done.
  - rewrite <- (app_nil_r last) at 1. unfold last. rewrite ws_frame_wire by (done || lia).
    rewrite (handle_part (set_open (Some d1) c) d1) by done. cbn iota beta. by rewrite zdrop_all.
Qed.

Lemma buffered_message_not_told_witness :
  let key := Some [9; 8; 7; 6] in
  let last := wire true OP_CONTINUATION key [2] in
  ws_decode WebSocketCodec_server (wire false OP_BINARY key [1] ++ last)
  = (({| ws_role := Server; open_message := Some [1] |}, last), Ok None)
  ∧ ws_decode {| ws_role := Server; open_message := Some [1] |} last
    = ((WebSocketCodec_server, []), Ok (Some (WsBinary [1; 2]))).
Proof.
  intros key last.
  exact (buffered_message_not_told WebSocketCodec_server key key [1] [2] eq_refl eq_refl eq_refl
    ltac:(unfold MAX_WEBSOCKET_MESSAGE_LEN, MAX_FRAME_BODY_LEN; vm_compute; congruence)).
Defined.

(** ** Reading *)

(** The bytes the messages up to the end of the stream carry. *)
Fixpoint message_bytes (next : list frame_answer) : bytes :=
  match next with
  | FItem (WsBinary d) :: rest | FItem (WsText d) :: rest => d ++ message_bytes rest
  | FItem (WsPing _) :: rest | FItem (WsPong _) :: rest | FPending :: rest => message_bytes rest
  | _ => []
  end.

(** What a reader of the byte stream has yet to get. *)
Definition unread (s : WebSocketByteStream) : bytes := s.(wb_read_buf) ++ message_bytes s.(wi_next).

Lemma read_loop_spec remaining s next pongs s' r :
  0 < remaining → read_loop remaining s next pongs = (s', r) →
  match r with
  | Pending => unread s' = message_bytes next
  | Ready (Ok []) => message_bytes next = []
  | Ready (Ok out) => zlen out ≤ remaining ∧ message_bytes next = out ++ unread s'
  | Ready (Err _) => message_bytes next = []
  end.
Proof.
  intros Hr. revert pongs. induction next as [|a next IH]; intros pongs; [by intros [= <- <-]|].
  assert (Hdata : ∀ b, match b with
      | [] => read_loop remaining s next pongs
      | _ => (with_reading s next (zdrop (Z.min (zlen b) remaining) b) pongs,
              Ready (Ok (ztake (Z.min (zlen b) remaining) b)))
      end = (s', r) →
    match r with
    | Pending => unread s' = b ++ message_bytes next
    | Ready (Ok []) => b ++ message_bytes next = []
    | Ready (Ok out) => zlen out ≤ remaining ∧ b ++ message_bytes next = out ++ unread s'
    | Ready (Err _) => b ++ message_bytes next = []
    end).
  { intros [|x b]; [by apply IH|]. set (data := x :: b). set (n := Z.min _ _). intros [= <- <-].
    assert (Hn : 0 < n ≤ zlen data).
    { unfold n, data. rewrite zlen_cons. pose proof (zlen_nonneg b). lia. }
    pose proof (zlen_take n data ltac:(lia)) as Hlen. destruct (ztake n data) as [|y out] eqn:E.
    { rewrite zlen_nil in Hlen. lia. }
    split; [rewrite Hlen; unfold n; lia|]. unfold unread. cbn [with_reading wb_read_buf wi_next].
    by rewrite app_assoc, <- E, ztake_zdrop. }
  destruct a as [[d|d|p|p|]|e| |]; cbn [read_loop message_bytes];
    [exact (Hdata d)|exact (Hdata d)|apply IH|apply IH|..]; by intros [= <- <-].
Qed.

(** Reading loses nothing and adds nothing: what a poll delivers is the front of
    what was unread, an empty message is not taken for the end, and no bytes
    are delivered only when there are none left. *)
Theorem ws_poll_read_conserves remaining s s' r :
  0 < remaining → ws_poll_read remaining s = (s', r) →
  match r with
  | Pending => unread s' = unread s
  | Ready (Ok []) => unread s = []
  | Ready (Ok out) => zlen out ≤ remaining ∧ unread s = out ++ unread s'
  | Ready (Err _) => unread s = []
  end.
Proof.
  intros Hr. assert (Hun : unread s = wb_read_buf s ++ message_bytes (wi_next s)) by done.
  rewrite Hun. unfold ws_poll_read. destruct (wb_read_buf s) as [|x b] eqn:Hb.
  { cbn [app]. by apply read_loop_spec. }
  set (data := x :: b). set (n := Z.min _ _). intros [= <- <-].
  assert (Hn : 0 < n ≤ zlen data).
  { unfold n, data. rewrite zlen_cons. pose proof (zlen_nonneg b). lia. }
  pose proof (zlen_take n data ltac:(lia)) as Hlen. destruct (ztake n data) as [|y out] eqn:E.
  { rewrite zlen_nil in Hlen. lia. }
  split; [rewrite Hlen; unfold n; lia|]. unfold unread. cbn [with_reading wb_read_buf wi_next].
  by rewrite app_assoc, <- E, ztake_zdrop.
Qed.

Lemma ws_poll_read_conserves_witness :
  let s := WebSocketByteStream_new
    [FItem (WsBinary []); FItem (WsPing [5]); FItem (WsBinary [1; 2; 3]); FPending; FItem (WsBinary [4]); FItem WsClose] [] in
  ∃ s', ws_poll_read 2 s = (s', Ready (Ok [1; 2])) ∧ unread s = [1; 2] ++ unread s'
    ∧ s'.(pending_pongs) = [[5]] ∧ unread s' = [3; 4].
Proof.
  intros s. eexists. split; [reflexivity|]. split; [|done].
  by apply (ws_poll_read_conserves 2 s _ (Ready (Ok [1; 2]))).
Defined.

(** ** Writing *)

Lemma poll_sink_fields s s' r :
  poll_sink s = (s', r) →
  s'.(wi_role) = s.(wi_role) ∧ s'.(wi_next) = s.(wi_next) ∧ s'.(wb_read_buf) = s.(wb_read_buf)
  ∧ s'.(wi_sent) = s.(wi_sent) ∧ s'.(pending_pongs) = s.(pending_pongs).
Proof. unfold poll_sink. destruct (wi_sink s) as [|[]]; by intros [= <- _]. Qed.

Lemma send_item_ready item s s' u :
  send_item item s = (s', Ready (Ok u)) →
  s'.(wi_role) = s.(wi_role) ∧ unread s' = unread s
  ∧ s'.(wi_sent) = s.(wi_sent) ++ [item] ∧ s'.(pending_pongs) = s.(pending_pongs).
Proof.
  unfold send_item. destruct (poll_sink s) as [s1 [[[]|e]|]] eqn:H1; [|done..].
  apply poll_sink_fields in H1 as (R1 & N1 & B1 & S1 & P1).
  unfold start_send. destruct (ws_encode _ _); [|done].
  intros H2%poll_sink_fields. destruct H2 as (R2 & N2 & B2 & S2 & P2).
  unfold unread. cbn [with_sink wi_role wi_next wb_read_buf wi_sent pending_pongs] in *.
  rewrite R2, N2, B2, S2, P2. by rewrite R1, N1, B1, S1, P1.
Qed.

Lemma send_pongs_ready pongs s s' u :
  s.(pending_pongs) = pongs → send_pongs pongs s = (s', Ready (Ok u)) →
  unread s' = unread s ∧ s'.(wi_sent) = s.(wi_sent) ++ map WsPong pongs ∧ s'.(pending_pongs) = [].
Proof.
  revert s. induction pongs as [|p pongs IH]; intros s Hp; cbn [send_pongs map].
  { intros [= <- _]. by rewrite app_nil_r. }
  destruct (send_item _ _) as [s1 [[[]|e]|]] eqn:H1; [|done..].
  apply send_item_ready in H1 as (_ & Hu & Hs & Hq). cbn [with_sink pending_pongs wi_sent] in Hs, Hq.
  intros H2. destruct (IH s1 Hq H2) as (Hu2 & Hs2 & Hq2). rewrite Hu2, Hu, Hs2, Hs.
  by rewrite <- app_assoc.
Qed.

(** A write that completes has sent the pongs that were owed and then all of its
    bytes, in one message. *)
Theorem ws_poll_write_sends buf s s' n :
  ws_poll_write buf s = (s', Ready (Ok n)) →
  n = zlen buf ∧ s'.(wi_sent) = s.(wi_sent) ++ map WsPong s.(pending_pongs) ++ [WsBinary buf]
  ∧ s'.(pending_pongs) = [] ∧ unread s' = unread s.
Proof.
  unfold ws_poll_write. destruct (send_pongs _ s) as [s1 [[[]|e]|]] eqn:H1; [|done..].
  apply send_pongs_ready in H1 as (Hu & Hs & Hq); [|done].
  destruct (send_item _ s1) as [s2 [[[]|e]|]] eqn:H2; [|done..]. intros [= <- <-].
  apply send_item_ready in H2 as (_ & Hu2 & Hs2 & Hq2). rewrite Hs2, Hs, Hq2, Hu2, <- app_assoc. done.
Qed.

Lemma ws_poll_write_sends_witness :
  let s := with_reading (WebSocketByteStream_new [] (replicate 4 SDone)) [] [] [[5]] in
  ∃ s', ws_poll_write [1; 2] s = (s', Ready (Ok 2)) ∧ s'.(wi_sent) = [WsPong [5]; WsBinary [1; 2]].
Proof.
  intros s. eexists. split; [reflexivity|].
  exact (proj1 (proj2 (ws_poll_write_sends [1; 2] s _ 2 eq_refl))).
Defined.

(** A write whose flush is not done yet answers that it is pending although its
    message has been handed over; its caller calls again with the same bytes,
    and the peer gets them twice. *)
Theorem ws_pending_write_repeats buf s sink :
  s.(pending_pongs) = [] → zlen buf ≤ MAX_WEBSOCKET_MESSAGE_LEN →
  s.(wi_sink) = SDone :: SPending :: SDone :: SDone :: sink →
  ∃ s1 s2, ws_poll_write buf s = (s1, Pending)
    ∧ ws_poll_write buf s1 = (s2, Ready (Ok (zlen buf)))
    ∧ s2.(wi_sent) = s.(wi_sent) ++ [WsBinary buf; WsBinary buf].
Proof.
  intros Hp Hle Hs.
  assert (Hsend : ∀ t, start_send (WsBinary buf) t
    = (with_sink t t.(wi_sink) (t.(wi_sent) ++ [WsBinary buf]) t.(pending_pongs), Ok ())).
  { intros t. unfold start_send. by rewrite ws_encode_wire. }
  eexists (with_sink s (SDone :: SDone :: sink) (s.(wi_sent) ++ [WsBinary buf]) []),
    (with_sink s sink (s.(wi_sent) ++ [WsBinary buf; WsBinary buf]) []).
  split; [|split; [|done]].
  - unfold ws_poll_write. rewrite Hp. cbn [send_pongs]. unfold send_item, poll_sink. rewrite Hs, Hsend.
    cbn [with_sink wi_sink wi_sent pending_pongs]. by rewrite Hp.
  - unfold ws_poll_write. cbn [with_sink pending_pongs send_pongs]. unfold send_item, poll_sink.
    cbn [with_sink wi_sink wi_sent pending_pongs]. rewrite Hsend.
    cbn [with_sink wi_sink wi_sent pending_pongs]. by rewrite <- app_assoc.
Qed.

Lemma ws_pending_write_repeats_witness :
  let s := WebSocketByteStream_new [] [SDone; SPending; SDone; SDone] in
  ∃ s1 s2, ws_poll_write [1] s = (s1, Pending) ∧ ws_poll_write [1] s1 = (s2, Ready (Ok 1))
    ∧ s2.(wi_sent) = [WsBinary [1]; WsBinary [1]].
Proof.
  intros s. exact (ws_pending_write_repeats [1] s [] eq_refl
    ltac:(unfold MAX_WEBSOCKET_MESSAGE_LEN, MAX_FRAME_BODY_LEN; vm_compute; congruence) eq_refl).
Defined.

(** A pong is forgotten when the transport is not ready for it. *)
Theorem ws_pong_lost buf s pong pongs sink :
  s.(pending_pongs) = pong :: pongs → s.(wi_sink) = SPending :: sink →
  ∃ s', ws_poll_write buf s = (s', Pending) ∧ s'.(pending_pongs) = pongs ∧ s'.(wi_sent) = s.(wi_sent).
Proof.
  intros Hp Hs. eexists. unfold ws_poll_write. rewrite Hp. cbn [send_pongs]. unfold send_item, poll_sink.
  cbn [with_sink wi_sink]. rewrite Hs. done.
Qed.

Lemma ws_pong_lost_witness :
  let s := with_reading (WebSocketByteStream_new [] [SPending]) [] [] [[5]] in
  ∃ s', ws_poll_write [1] s = (s', Pending) ∧ s'.(pending_pongs) = [] ∧ s'.(wi_sent) = [].
Proof. intros s. exact (ws_pong_lost [1] s [5] [] [] eq_refl eq_refl). Defined.

(** ** The relay protocol over messages *)

(** The bytes a reader gets of a frame, and of what a peer says. *)
Definition data_of (f : WsFrame) : option bytes :=
  match f with WsBinary d | WsText d => Some d | _ => None end.

Definition said (u : utterance) : bytes :=
  match u with Control _ => [] | Message _ _ first more => first ++ flat_map snd more end.

Lemma data_of_controls role ps :
  Forall (part_ok role) ps → omap data_of (flat_map part_controls ps) = [].
Proof.
  induction 1 as [|p ps [Hcs _] _ IH]; [done|]. cbn [flat_map]. rewrite omap_app, IH, app_nil_r.
  unfold part_controls. induction Hcs as [|k ks (_ & _ & Hk) _ IHk]; [done|]. cbn [map omap list_omap].
  rewrite IHk. by destruct k as [[] ?].
Qed.

Lemma data_heard role us :
  Forall (utterance_ok role) us → concat (omap data_of (flat_map heard us)) = flat_map said us.
Proof.
  induction 1 as [|u us Hu _ IH]; [done|]. cbn [flat_map]. rewrite omap_app, concat_app, IH. f_equal.
  destruct u as [k|is_text key first [|p ps]]; cbn [heard said].
  - destruct Hu as (_ & _ & Hk). by destruct k as [[] ?].
  - destruct is_text; cbn; by rewrite !app_nil_r.
  - destruct Hu as (_ & Hps & _). rewrite omap_app, (data_of_controls _ _ Hps). cbn. by rewrite !app_nil_r.
Qed.


