(* ===== verification/IpText.v ===== *)
(** * Addresses and networks as text

    [IpAddr::from_str] and [Display] of [std::net], which the policy engine
    uses on every address of a node and of a policy document, and its own
    [parse_cidr], masks and membership test. *)

From S2P Require Import Prelude Text Net.

(** ** Parsing addresses *)

(** [Parser::read_number] with a digit limit. *)
Definition read_number (radix max_digits : Z) (allow_zero_prefix : bool) (max : Z) (s : text)
    : option (Z * text) :=
  let '(ds, rest) := span_digits radix s in
  match ds with
  | [] => None
  | d :: ds' =>
      if max_digits <? zlen ds then None
      else if negb allow_zero_prefix && (d =? 0) && (1 <? zlen ds) then None
      else let v := digits_value radix ds in
           if v <=? max then Some (v, rest) else None
  end.

Definition read_given_char (c : Z) (s : text) : option text :=
  match s with x :: t => if x =? c then Some t else None | [] => None end.

Definition read_octet (s : text) : option (Z * text) := read_number 10 3 false 255 s.

(** [Parser::read_ipv4_addr]: four octets separated by dots. *)
Definition read_ipv4_addr (s : text) : option (Z * text) :=
  '(a, s) ← read_octet s;
  s ← read_given_char 46 s;
  '(b, s) ← read_octet s;
  s ← read_given_char 46 s;
  '(c, s) ← read_octet s;
  s ← read_given_char 46 s;
  '(d, s) ← read_octet s;
  Some (from_be [a; b; c; d], s).

(** [Parser::read_separator]: a colon before every group but the first. *)
Definition read_separator {A} (first : bool) (inner : text → option A) (s : text) : option A :=
  if first then inner s else s ← read_given_char 58 s; inner s.

(** [read_groups]: up to [k] groups, the last two of them possibly an IPv4
    address; whether it was one, and what follows. *)
Fixpoint read_groups (k : nat) (first : bool) (s : text) : list Z * bool * text :=
  match k with
  | O => ([], false, s)
  | S k' =>
      match (if (0 <? Z.of_nat k') then read_separator first read_ipv4_addr s else None) with
      | Some (a, rest) => ([a / 65536; a mod 65536], true, rest)
      | None =>
          match read_separator first (read_number 16 4 true 65535) s with
          | Some (g, rest) =>
              let '(gs, v4, rest) := read_groups k' false rest in (g :: gs, v4, rest)
          | None => ([], false, s)
          end
      end
  end.

(** An IPv6 address from its eight 16-bit segments, and back. *)
Definition from_segments (gs : list Z) : Z := fold_left (λ a g, a * 65536 + g) gs 0.

Fixpoint low_segments (n : nat) (v : Z) : list Z :=
  match n with O => [] | S m => v mod 65536 :: low_segments m (v / 65536) end.

Definition segments (a : Z) : list Z := rev (low_segments 8 a).

(** [Parser::read_ipv6_addr]: the groups before and after [::]. *)
Definition read_ipv6_addr (s : text) : option (Z * text) :=
  let '(head, head_ipv4, s) := read_groups 8 true s in
  if zlen head =? 8 then Some (from_segments head, s)
  else if head_ipv4 : bool then None
  else
    s ← read_given_char 58 s;
    s ← read_given_char 58 s;
    let '(tail, _, s) := read_groups (7 - length head) true s in
    Some (from_segments (head ++ zeros (8 - zlen head - zlen tail) ++ tail), s).

(** [s.parse::<IpAddr>()] and [s.parse::<Ipv6Addr>()] *)
Definition parse_ip (s : text) : option IpAddr :=
  match read_ipv4_addr s with
  | Some (a, []) => Some (V4 a)
  | Some (_, _ :: _) => None
  | None => match read_ipv6_addr s with Some (a, []) => Some (V6 a) | _ => None end
  end.

Definition parse_ipv6 (s : text) : option Z :=
  match read_ipv6_addr s with Some (a, []) => Some a | _ => None end.

(** ** Printing addresses *)

Definition show_v4 (a : Z) : text :=
  match to_be 4 a with
  | [b0; b1; b2; b3] =>
      show_uint b0 ++ [46] ++ show_uint b1 ++ [46] ++ show_uint b2 ++ [46] ++ show_uint b3
  | _ => []
  end.

(** The first longest run of zero segments: its start and length. *)
Fixpoint zero_span (i : nat) (segs : list Z) (current longest : nat * nat) : nat * nat :=
  match segs with
  | [] => longest
  | g :: t =>
      if g =? 0 then
        let current := ((if (current.2 =? 0)%nat then i else current.1), S current.2) in
        zero_span (S i) t current (if (longest.2 <? current.2)%nat then current else longest)
      else zero_span (S i) t (0%nat, 0%nat) longest
  end.

Definition fmt_tail (gs : list Z) : text := flat_map (λ g, 58 :: show_hex g) gs.

Definition fmt_subslice (gs : list Z) : text :=
  match gs with [] => [] | g :: t => show_hex g ++ fmt_tail t end.

Definition is_ipv4_mapped (a : Z) : bool := a / 2 ^ 32 =? 0xffff.

Definition show_v6 (a : Z) : text :=
  if is_ipv4_mapped a then str "::ffff:" ++ show_v4 (a mod 2 ^ 32)
  else
    let segs := segments a in
    let '(start, len) := zero_span 0 segs (0%nat, 0%nat) (0%nat, 0%nat) in
    if (1 <? len)%nat
    then fmt_subslice (take start segs) ++ str "::" ++ fmt_subslice (drop (start + len) segs)
    else fmt_subslice segs.

Definition show_ip (a : IpAddr) : text := match a with V4 x => show_v4 x | V6 x => show_v6 x end.

(** ** Networks *)

(** [parse_cidr]: an address with its full length, or [addr/bits]. *)
Definition parse_cidr (s : text) : option (IpAddr * Z) :=
  match parse_ip s with
  | Some ip => Some (ip, addr_bits ip)
  | None =>
      '(addr, bits) ← split_once 47 s;
      ip ← parse_ip addr;
      bits ← parse_uint 255 bits;
      if addr_bits ip <? bits then None else Some (ip, bits)
  end.

(** [mask_u32] and [mask_u128] *)
Definition mask_bits (width bits : Z) : Z := if bits =? 0 then 0 else prefix_mask width bits.

Definition in_net (a n : IpAddr) (bits : Z) : bool :=
  match a, n with
  | V4 x, V4 y =>
      let mask := mask_bits 32 (Z.min bits 32) in Z.land x mask =? Z.land y mask
  | V6 x, V6 y =>
      let mask := mask_bits 128 (Z.min bits 128) in Z.land x mask =? Z.land y mask
  | _, _ => false
  end.

(** [addr_in_cidr]: the length of [addr] plays no part. *)
Definition addr_in_cidr (addr net : text) : bool :=
  match parse_cidr addr, parse_cidr net with
  | Some (a, _), Some (n, bits) => in_net a n bits
  | _, _ => false
  end.

(** [mask_addr] and [canonical_route] *)
Definition mask_addr (ip : IpAddr) (bits : Z) : IpAddr :=
  match ip with
  | V4 a => V4 (Z.land a (mask_bits 32 bits))
  | V6 a => V6 (Z.land a (mask_bits 128 bits))
  end.

Definition show_cidr (ip : IpAddr) (bits : Z) : text := show_ip ip ++ [47] ++ show_uint bits.

Definition canonical_route (s : text) : option text :=
  match parse_cidr s with
  | Some (ip, bits) => Some (show_cidr (mask_addr ip bits) bits)
  | None => None
  end.

Example parse_ip_v6 : parse_ip (str "2001:db8::1:0:5") = Some (V6 0x20010db8000000000000000100000005).
Proof. by vm_compute. Qed.
Example parse_ip_bad : parse_ip (str "1.2.3.04") = None ∧ parse_ip (str "1:2:3:4:5:6:7::8:9") = None.
Proof. by vm_compute. Qed.
Example show_ip_v6 : show_v6 0x20010db8000000000000000100000005 = str "2001:db8::1:0:5".
Proof. by vm_compute. Qed.
Example canonical_route_masks : canonical_route (str "2001:db8:0:1::5/64") = Some (str "2001:db8:0:1::/64").
Proof. by vm_compute. Qed.

(** ** Printing then parsing *)

Definition number_ok (radix max_digits : Z) (zero : bool) (shown : text) (n : Z) : bool :=
  let '(ds, r) := span_digits radix shown in
  match ds, r with
  | d :: _, [] =>
      negb (max_digits <? zlen ds) && negb (negb zero && (d =? 0) && (1 <? zlen ds))
      && (digits_value radix ds =? n)
  | _, _ => false
  end.

Lemma read_number_shown radix max_digits zero max shown n rest :
  number_ok radix max_digits zero shown n = true → n ≤ max → digit_end radix rest →
  read_number radix max_digits zero max (shown ++ rest) = Some (n, rest).
Proof.
  unfold number_ok. destruct (span_digits radix shown) as [ds r] eqn:E.
  destruct ds as [|d ds]; [done|]. destruct r as [|]; [|done].
  intros [[Hm Hz]%andb_true_iff Hv]%andb_true_iff Hmax Hrest. unfold read_number.
  rewrite (span_digits_app _ _ _ _ E Hrest).
  apply negb_true_iff in Hm, Hz. rewrite Hm, Hz. apply Z.eqb_eq in Hv. rewrite Hv.
  by destruct (Z.leb_spec n max); [|lia].
Qed.

Lemma read_octet_shown o rest :
  0 ≤ o < 256 → digit_end 10 rest → read_octet (show_uint o ++ rest) = Some (o, rest).
Proof.
  intros Ho Hr. apply read_number_shown; [|lia|done]. revert o Ho.
  apply (range_cases 256 (λ o, number_ok 10 3 false (show_uint o) o)). by vm_compute.
Qed.

Lemma read_group_shown g rest :
  0 ≤ g < 65536 → digit_end 16 rest →
  read_number 16 4 true 65535 (show_hex g ++ rest) = Some (g, rest).
Proof.
  intros Hg Hr. apply read_number_shown; [|lia|done].
  apply (all_bits_cases 16 0 (λ g, number_ok 16 4 true (show_hex g) g)); [by vm_compute|].
  cbn. lia.
Qed.

Lemma read_ipv4_shown a rest :
  0 ≤ a < 2 ^ 32 → digit_end 10 rest → read_ipv4_addr (show_v4 a ++ rest) = Some (a, rest).
Proof.
  intros Ha Hr. unfold show_v4. pose proof (wf_to_be 4 a) as Hw.
  pose proof (zlen_to_be 4 a) as Hl. pose proof (from_to_be_small 4 a ltac:(done)) as Hv.
  destruct (to_be 4 a) as [|b0 [|b1 [|b2 [|b3 [|]]]]]; try (unfold zlen in Hl; cbn [length] in Hl; lia).
  repeat (apply list.Forall_cons in Hw as [? Hw]). unfold read_ipv4_addr.
  rewrite <- !app_assoc. do 3 (rewrite read_octet_shown by done;
    cbn [mbind option_bind app read_given_char Z.eqb Pos.eqb]).
  rewrite read_octet_shown by done. cbn [mbind option_bind]. by rewrite Hv.
Qed.

(** An IPv4 address has a dot in it. *)
Lemma span_digits_suffix radix s ds r :
  span_digits radix s = (ds, r) → ∃ p, s = p ++ r.
Proof.
  revert ds r. induction s as [|c s IH]; intros ds r; cbn; [intros [= <- <-]; by exists []|].
  destruct (to_digit radix c); [|intros [= <- <-]; by exists []].
  destruct (span_digits radix s) as [ds' r'] eqn:E. intros [= <- <-].
  destruct (IH _ _ eq_refl) as [p ->]. by exists (c :: p).
Qed.

Lemma read_ipv4_dot s : 46 ∉ s → read_ipv4_addr s = None.
Proof.
  intros Hs. unfold read_ipv4_addr. destruct (read_octet s) as [[a r]|] eqn:E; [|done].
  cbn [mbind option_bind]. assert (46 ∉ r) as Hr.
  { unfold read_octet, read_number in E. destruct (span_digits 10 s) as [ds r'] eqn:Es.
    destruct (span_digits_suffix _ _ _ _ Es) as [p ->].
    destruct ds; [done|]. repeat case_match; simplify_eq. set_solver. }
  destruct r as [|x r]; [done|]. unfold read_given_char. destruct (Z.eqb_spec x 46); [|done].
  set_solver.
Qed.

(** ** IPv6 groups *)

Definition is_segment (g : Z) : Prop := 0 ≤ g < 65536.

(** What may follow the groups of one side: the end or the [::]. *)
Definition group_end (rest : text) : Prop := rest = [] ∨ ∃ r, rest = 58 :: 58 :: r.

Lemma show_hex_no_dot g : is_segment g → 46 ∉ show_hex g.
Proof.
  intros Hg. rewrite <- contains_char_spec. apply not_true_iff_false, negb_true_iff.
  apply (all_bits_cases 16 0 (λ g, negb (contains_char 46 (show_hex g)))); [by vm_compute|].
  unfold is_segment in Hg. cbn. lia.
Qed.

Lemma fmt_tail_no_dot gs : Forall is_segment gs → 46 ∉ fmt_tail gs.
Proof.
  induction 1 as [|g gs Hg Hgs IH]; [apply not_elem_of_nil|].
  cbn [fmt_tail flat_map app]. apply not_elem_of_cons. split; [done|].
  apply not_elem_of_app. split; [by apply show_hex_no_dot|done].
Qed.

Lemma fmt_subslice_no_dot gs : Forall is_segment gs → 46 ∉ fmt_subslice gs.
Proof.
  destruct 1; [apply not_elem_of_nil|]. apply not_elem_of_app.
  split; [by apply show_hex_no_dot|by apply fmt_tail_no_dot].
Qed.

Lemma digit_end_tail gs rest : group_end rest → digit_end 16 (fmt_tail gs ++ rest).
Proof. destruct gs as [|g gs]; [|done]. by intros [->|[r ->]]. Qed.

Lemma read_separator_no_dot first s :
  46 ∉ s → read_separator first read_ipv4_addr s = None.
Proof.
  intros Hs. destruct first; cbn; [by apply read_ipv4_dot|].
  destruct s as [|x s]; [done|]. cbn. destruct (x =? 58); [|done]. cbn.
  apply read_ipv4_dot. set_solver.
Qed.

Lemma read_groups_end k first rest :
  group_end rest → 46 ∉ rest → read_groups k first rest = ([], false, rest).
Proof.
  intros Hr Hd. destruct k as [|k]; [done|]. cbn [read_groups].
  rewrite read_separator_no_dot, Tauto.if_same by done. by destruct Hr as [->|[r ->]], first.
Qed.

Lemma read_groups_tail k gs rest :
  Forall is_segment gs → (length gs ≤ k)%nat → group_end rest → 46 ∉ rest →
  read_groups k false (fmt_tail gs ++ rest) = (gs, false, rest).
Proof.
  intros Hgs. revert k. induction Hgs as [|g gs Hg Hgs IH]; intros k Hk Hr Hd.
  { by apply read_groups_end. }
  cbn [length] in Hk. destruct k as [|k]; [lia|]. cbn [read_groups].
  rewrite read_separator_no_dot.
  2: { apply not_elem_of_app. split; [by apply fmt_tail_no_dot; constructor|done]. }
  rewrite Tauto.if_same.
  cbn [fmt_tail flat_map app read_separator read_given_char mbind option_bind].
  rewrite Z.eqb_refl. cbn [mbind option_bind]. rewrite <- app_assoc.
  rewrite read_group_shown by (done || by apply digit_end_tail).
  by rewrite IH by (done || lia).
Qed.

Lemma read_groups_shown k gs rest :
  Forall is_segment gs → (length gs ≤ k)%nat → group_end rest → 46 ∉ rest →
  read_groups k true (fmt_subslice gs ++ rest) = (gs, false, rest).
Proof.
  intros Hgs Hk Hr Hd. destruct Hgs as [|g gs Hg Hgs]; [by apply read_groups_end|].
  cbn [length] in Hk. destruct k as [|k]; [lia|]. cbn [read_groups fmt_subslice].
  rewrite read_separator_no_dot.
  2: { apply not_elem_of_app. split; [by apply (fmt_subslice_no_dot (g :: gs)); constructor|done]. }
  rewrite Tauto.if_same.
  cbn [read_separator]. rewrite <- app_assoc.
  rewrite read_group_shown by (done || by apply digit_end_tail).
  by rewrite read_groups_tail by (done || lia).
Qed.

(** ** The compressed run of zeros *)

Definition run_end (pre : list Z) (c : nat * nat) : Prop :=
  ∃ a, pre = a ++ replicate c.2 0 ∧ (c.2 ≠ 0%nat → length a = c.1).

Definition run_in (all : list Z) (r : nat * nat) : Prop :=
  ∃ a b, all = a ++ replicate r.2 0 ++ b ∧ length a = r.1.

Lemma run_in_snoc pre g r : run_in pre r → run_in (pre ++ [g]) r.
Proof. intros (a & b & -> & Ha). exists a, (b ++ [g]). by rewrite <- !app_assoc. Qed.

Lemma zero_span_run segs pre c l :
  run_end pre c → run_in pre l → run_in (pre ++ segs) (zero_span (length pre) segs c l).
Proof.
  revert pre c l. induction segs as [|g segs IH]; intros pre c l Hc Hl; cbn [zero_span].
  { by rewrite app_nil_r. }
  rewrite cons_middle, app_assoc.
  replace (S (length pre)) with (length (pre ++ [g])) by (rewrite length_app; cbn; lia).
  destruct (Z.eqb_spec g 0) as [->|Hg].
  - set (c' := ((if (c.2 =? 0)%nat then length pre else c.1), S c.2)).
    assert (Hc' : run_end (pre ++ [0]) c').
    { destruct Hc as (a & -> & Ha). destruct (Nat.eqb_spec c.2 0) as [E|E].
      - exists (a ++ replicate c.2 0). unfold c'. rewrite E. cbn. by rewrite !app_nil_r.
      - exists a. unfold c'. cbn [fst snd]. rewrite <- app_assoc, <- replicate_S_end.
        split; [done|]. intros _. destruct (Nat.eqb_spec c.2 0); [done|]. by apply Ha. }
    apply IH; [done|]. destruct (l.2 <? c'.2)%nat; [|by apply run_in_snoc].
    destruct Hc' as (a & -> & Ha). exists a, []. rewrite app_nil_r. by split; [|apply Ha].
  - apply IH; [|by apply run_in_snoc]. exists (pre ++ [g]). by rewrite app_nil_r.
Qed.

Lemma length_low_segments n v : length (low_segments n v) = n.
Proof. revert v. induction n; intros; cbn; auto. Qed.

Lemma low_segments_wf n v : Forall is_segment (low_segments n v).
Proof.
  revert v. induction n as [|n IH]; intros v; cbn; [constructor|].
  constructor; [apply Z.mod_pos_bound; lia|apply IH].
Qed.

Lemma from_segments_low n v :
  0 ≤ v < 65536 ^ Z.of_nat n → fold_right (λ g a, a * 65536 + g) 0 (low_segments n v) = v.
Proof.
  revert v. induction n as [|n IH]; intros v Hv.
  { cbn in *. lia. }
  cbn [low_segments fold_right]. rewrite Nat2Z.inj_succ, Z.pow_succ_r in Hv by lia.
  rewrite IH.
  - pose proof (Z.div_mod v 65536 ltac:(lia)). lia.
  - split; [apply Z.div_pos; lia|apply Z.div_lt_upper_bound; lia].
Qed.

Lemma from_segments_segments a : 0 ≤ a < 2 ^ 128 → from_segments (segments a) = a.
Proof.
  intros Ha. unfold from_segments, segments.
  rewrite <- fold_left_rev_right, rev_involutive. by apply from_segments_low.
Qed.

Lemma segments_wf a : Forall is_segment (segments a).
Proof. apply Forall_rev, low_segments_wf. Qed.

Lemma length_segments a : length (segments a) = 8%nat.
Proof. unfold segments. by rewrite length_rev, length_low_segments. Qed.

(** The two shapes of the printed segments, read back. *)
Lemma read_ipv6_full gs :
  Forall is_segment gs → length gs = 8%nat →
  read_ipv6_addr (fmt_subslice gs) = Some (from_segments gs, []).
Proof.
  intros Hgs Hl. unfold read_ipv6_addr. rewrite <- (app_nil_r (fmt_subslice gs)).
  rewrite read_groups_shown; [|done|lia|by left|apply not_elem_of_nil].
  unfold zlen. by rewrite Hl.
Qed.

Lemma read_ipv6_compressed a b n :
  Forall is_segment a → Forall is_segment b → (length a + n + length b = 8)%nat → (1 < n)%nat →
  read_ipv6_addr (fmt_subslice a ++ str "::" ++ fmt_subslice b)
  = Some (from_segments (a ++ replicate n 0 ++ b), []).
Proof.
  intros Ha Hb Hl Hn. unfold read_ipv6_addr. change (str "::") with [58; 58].
  rewrite read_groups_shown; [|done|lia|right; by eexists|].
  - destruct (Z.eqb_spec (zlen a) 8) as [E|_]; [unfold zlen in E; lia|].
    cbn [app read_given_char Z.eqb Pos.eqb mbind option_bind].
    rewrite <- (app_nil_r (fmt_subslice b)).
    rewrite read_groups_shown; [|done|lia|by left|apply not_elem_of_nil].
    replace (8 - zlen a - zlen b) with (Z.of_nat n) by (unfold zlen; lia).
    unfold zeros. by rewrite Nat2Z.id.
  - cbn [app]. rewrite !not_elem_of_cons. repeat split; [done..|by apply fmt_subslice_no_dot].
Qed.

Lemma read_groups_mapped x :
  0 ≤ x < 2 ^ 32 →
  read_groups 7 true (show_hex 0xffff ++ 58 :: show_v4 x)
  = ([0xffff; x / 65536; x mod 65536], true, []).
Proof.
  intros Hx. pose proof (read_ipv4_shown x [] Hx I) as Hs. rewrite app_nil_r in Hs.
  assert (Hr : read_ipv4_addr (show_hex 0xffff ++ 58 :: show_v4 x) = None) by done.
  assert (Hg : read_number 16 4 true 65535 (show_hex 0xffff ++ 58 :: show_v4 x)
               = Some (0xffff, 58 :: show_v4 x)) by by apply read_group_shown.
  generalize dependent (show_hex 0xffff ++ 58 :: show_v4 x). intros s Hr Hg.
  cbn [read_groups read_separator]. rewrite Hr, Hg, Tauto.if_same.
  change (0 <? Z.of_nat 5) with true.
  cbn [read_given_char Z.eqb Pos.eqb mbind option_bind]. by rewrite Hs.
Qed.

Lemma read_ipv6_mapped a :
  0 ≤ a < 2 ^ 128 → is_ipv4_mapped a = true →
  read_ipv6_addr (str "::ffff:" ++ show_v4 (a mod 2 ^ 32)) = Some (a, []).
Proof.
  intros Ha Hm. apply Z.eqb_eq in Hm. pose proof (Z.div_mod a (2 ^ 32) ltac:(lia)) as Hd.
  rewrite Hm in Hd. pose proof (Z.mod_pos_bound a (2 ^ 32) ltac:(lia)) as Hr.
  set (x := a mod 2 ^ 32) in *. clearbody x. subst a.
  unfold read_ipv6_addr.
  replace (str "::ffff:" ++ show_v4 x) with (58 :: 58 :: show_hex 0xffff ++ 58 :: show_v4 x) by done.
  pose proof (read_groups_mapped x Hr) as Hg.
  generalize dependent (show_hex 0xffff ++ 58 :: show_v4 x). intros s Hs.
  replace (read_groups 8 true (58 :: 58 :: s)) with (@nil Z, false, 58 :: 58 :: s) by done.
  cbn [zlen length Z.of_nat Z.eqb read_given_char Pos.eqb mbind option_bind Nat.sub].
  rewrite Hs. pose proof (Z.div_mod x 65536 ltac:(lia)).
  assert (2 ^ 32 * 65535 + x = (65535 * 65536 + x / 65536) * 65536 + x mod 65536) as -> by lia.
  done.
Qed.

Lemma read_ipv6_shown a : 0 ≤ a < 2 ^ 128 → read_ipv6_addr (show_v6 a) = Some (a, []).
Proof.
  intros Ha. unfold show_v6. destruct (is_ipv4_mapped a) eqn:Em; [by apply read_ipv6_mapped|].
  pose proof (segments_wf a) as Hw. pose proof (length_segments a) as Hl.
  pose proof (zero_span_run (segments a) [] (0%nat, 0%nat) (0%nat, 0%nat)) as Hz.
  rewrite <- (from_segments_segments a Ha) at 2.
  cbn [app length] in Hz.
  destruct (zero_span 0 (segments a) (0%nat, 0%nat) (0%nat, 0%nat)) as [start len].
  destruct Hz as (p & q & Hs & Hp); [by exists []|by exists [], []|]. cbn [fst snd] in *.
  destruct (Nat.ltb_spec 1 len); [|by rewrite read_ipv6_full].
  rewrite Hs in Hw |- *. rewrite Hs, !length_app, length_replicate in Hl.
  apply Forall_app in Hw as [Hw1 [_ Hw2]%Forall_app]. rewrite <- Hp.
  rewrite take_app_length, drop_app_add, (drop_app_length' (replicate len 0) q len)
    by by rewrite length_replicate.
  by apply read_ipv6_compressed; [..|lia|].
Qed.

(** The printer of addresses is inverted by the parser. *)
Lemma parse_show_ip ip : addr_wf ip → parse_ip (show_ip ip) = Some ip.
Proof.
  unfold addr_wf, parse_ip. destruct ip as [a|a]; cbn [addr_val addr_bits show_ip]; intros Ha.
  - rewrite <- (app_nil_r (show_v4 a)). by rewrite (read_ipv4_shown a [] Ha I).
  - replace (read_ipv4_addr (show_v6 a)) with (@None (Z * text)).
    { by rewrite read_ipv6_shown. }
    symmetry. unfold show_v6. destruct (is_ipv4_mapped a); [done|].
    apply read_ipv4_dot. pose proof (segments_wf a) as Hw.
    destruct (zero_span _ _ _ _) as [start len]. case_match; [|by apply fmt_subslice_no_dot].
    rewrite !not_elem_of_app. repeat split.
    + by apply fmt_subslice_no_dot, Forall_take.
    + change (str "::") with [58; 58]. rewrite !not_elem_of_cons.
      repeat split; [done..|apply not_elem_of_nil].
    + by apply fmt_subslice_no_dot, Forall_drop.
Qed.

(** ** What the parsers consume and return *)

(** The characters of an address: hexadecimal digits, colons and dots. *)
Definition addr_char (c : Z) : Prop := is_Some (to_digit 16 c) ∨ c = 58 ∨ c = 46.

(** [r] is what is left of [s] after a piece of an address. *)
Definition consumed (s r : text) : Prop := ∃ p, s = p ++ r ∧ Forall addr_char p.

Lemma consumed_refl s : consumed s s.
Proof. exists []. split; [done|constructor]. Qed.

Lemma consumed_trans s r t : consumed s r → consumed r t → consumed s t.
Proof.
  intros (p & -> & Hp) (q & -> & Hq). exists (p ++ q). rewrite <- app_assoc.
  split; [done|]. by apply Forall_app.
Qed.

Lemma consumed_char c s r : read_given_char c s = Some r → c = 58 ∨ c = 46 → consumed s r.
Proof.
  destruct s as [|x s]; [done|]. cbn. destruct (Z.eqb_spec x c) as [->|]; [|done].
  intros [= <-] Hc. exists [c]. split; [done|]. constructor; [by right|constructor].
Qed.

Lemma to_digit_widen radix c d : radix ≤ 16 → to_digit radix c = Some d → to_digit 16 c = Some d.
Proof.
  unfold to_digit. intros Hr. set (e := if is_ascii_digit c then _ else _).
  set (e' := if is_ascii_digit c then _ else _). destruct (Z.ltb_spec e radix); [|done]. intros [= <-].
  assert (e' = e) as ->.
  { unfold e', e in *. destruct (is_ascii_digit c); [done|]. destruct (_ && _); [done|].
    destruct (_ && _); [done|]. lia. }
  by destruct (Z.ltb_spec e 16); [|lia].
Qed.

Lemma span_digits_spec radix s ds r :
  0 < radix ≤ 16 → span_digits radix s = (ds, r) →
  consumed s r ∧ Forall (λ d, 0 ≤ d < radix) ds.
Proof.
  intros Hradix. revert ds r. induction s as [|c s IH]; intros ds r; cbn.
  { intros [= <- <-]. split; [apply consumed_refl|constructor]. }
  destruct (to_digit radix c) as [d|] eqn:Ed.
  2: { intros [= <- <-]. split; [apply consumed_refl|constructor]. }
  destruct (span_digits radix s) as [ds' r'] eqn:E. intros [= <- <-].
  destruct (IH _ _ eq_refl) as [(p & -> & Hp) Hds].
  assert (Hc : addr_char c) by (left; exists d; apply (to_digit_widen radix); [lia|done]).
  unfold to_digit, is_ascii_digit in Ed.
  destruct ((if (48 <=? c) && (c <=? 57) then _ else _) <? radix) eqn:El; [|done].
  injection Ed as <-. split.
  - exists (c :: p). split; [done|]. by constructor.
  - constructor; [|done]. split; [|by apply Z.ltb_lt].
    destruct ((48 <=? c) && (c <=? 57)) eqn:E1; [lia|].
    destruct ((65 <=? c) && (c <=? 90)) eqn:E2; [lia|].
    destruct ((97 <=? c) && (c <=? 122)) eqn:E3; lia.
Qed.

Lemma digits_value_nonneg radix ds a :
  0 ≤ a → Forall (λ d, 0 ≤ d < radix) ds → 0 ≤ fold_left (λ a d, a * radix + d) ds a.
Proof.
  intros Ha Hds. revert a Ha. induction Hds as [|d ds Hd _ IH]; intros a Ha; [done|].
  cbn. apply IH. nia.
Qed.

Lemma read_number_spec radix md z max s v r :
  0 < radix ≤ 16 → read_number radix md z max s = Some (v, r) → consumed s r ∧ 0 ≤ v ≤ max.
Proof.
  intros Hr. unfold read_number. destruct (span_digits radix s) as [ds r'] eqn:E.
  destruct (span_digits_spec _ _ _ _ Hr E) as [Hc Hds]. destruct ds as [|d ds]; [done|].
  destruct (md <? _); [done|]. destruct (_ && _)%bool; [done|].
  destruct (Z.leb_spec (digits_value radix (d :: ds)) max); [|done]. intros [= <- <-].
  split; [done|]. split; [|done]. by apply digits_value_nonneg.
Qed.

Lemma read_ipv4_spec s a r :
  read_ipv4_addr s = Some (a, r) → consumed s r ∧ 0 ≤ a < 2 ^ 32.
Proof.
  unfold read_ipv4_addr. intros H.
  destruct (read_octet s) as [[a0 s0]|] eqn:E0; [|done]. cbn [mbind option_bind] in H.
  destruct (read_given_char 46 s0) as [s1|] eqn:E1; [|done]. cbn [mbind option_bind] in H.
  destruct (read_octet s1) as [[a1 s2]|] eqn:E2; [|done]. cbn [mbind option_bind] in H.
  destruct (read_given_char 46 s2) as [s3|] eqn:E3; [|done]. cbn [mbind option_bind] in H.
  destruct (read_octet s3) as [[a2 s4]|] eqn:E4; [|done]. cbn [mbind option_bind] in H.
  destruct (read_given_char 46 s4) as [s5|] eqn:E5; [|done]. cbn [mbind option_bind] in H.
  destruct (read_octet s5) as [[a3 s6]|] eqn:E6; [|done]. cbn [mbind option_bind] in H.
  injection H as <- <-. split; [|apply (from_be_range [a0; a1; a2; a3])].
  apply read_number_spec in E0 as [E0 _], E2 as [E2 _], E4 as [E4 _], E6 as [E6 _]; try lia.
  apply consumed_char in E1, E3, E5; try by right.
  eauto 10 using consumed_trans.
Qed.

Lemma read_separator_consumed {A} first (inner : text → option (A * text)) s x r :
  (∀ s x r, inner s = Some (x, r) → consumed s r) →
  read_separator first inner s = Some (x, r) → consumed s r.
Proof.
  intros Hi. destruct first; cbn; [apply Hi|].
  destruct (read_given_char 58 s) as [s'|] eqn:E; [|done]. cbn. intros H.
  apply consumed_char in E; [|by left]. by eapply consumed_trans; [|eapply Hi].
Qed.

Lemma read_separator_result {A} first (inner : text → option (A * text)) s x r :
  read_separator first inner s = Some (x, r) → ∃ s', inner s' = Some (x, r).
Proof.
  destruct first; cbn; [eauto|]. destruct (read_given_char 58 s); [eauto|done].
Qed.

Lemma read_groups_spec k first s gs v4 r :
  read_groups k first s = (gs, v4, r) →
  consumed s r ∧ Forall is_segment gs ∧ (length gs ≤ k)%nat.
Proof.
  revert first s gs v4 r. induction k as [|k IH]; intros first s gs v4 r; cbn [read_groups].
  { intros [= <- <- <-]. split_and!; [apply consumed_refl|constructor|done]. }
  destruct (if 0 <? Z.of_nat k then _ else _) as [[a r']|] eqn:E4.
  - intros [= <- <- <-]. destruct (Z.ltb_spec 0 (Z.of_nat k)); [|done]. split_and!.
    + eapply read_separator_consumed; [|exact E4]. intros ? ? ? H'. by apply read_ipv4_spec in H' as [? _].
    + apply read_separator_result in E4 as [s' [_ Ha]%read_ipv4_spec].
      repeat constructor; try (apply Z.mod_pos_bound; lia); [apply Z.div_pos; lia|].
      apply Z.div_lt_upper_bound; lia.
    + cbn. lia.
  - destruct (read_separator first (read_number _ _ _ _) s) as [[g r']|] eqn:Eg.
    2: { intros [= <- <- <-]. split_and!; [apply consumed_refl|constructor|cbn; lia]. }
    destruct (read_groups k false r') as [[gs' v4'] r''] eqn:E. intros [= <- <- <-].
    destruct (IH _ _ _ _ _ E) as (Hc & Hgs & Hl). split_and!; [|constructor; [|done]|cbn; lia].
    + eapply consumed_trans; [|exact Hc]. eapply read_separator_consumed; [|exact Eg].
      intros ? ? ? H'. by apply read_number_spec in H' as [? _].
    + apply read_separator_result in Eg as [s' [_ Hg]%read_number_spec]; unfold is_segment; lia.
Qed.

Lemma from_segments_range gs :
  Forall is_segment gs → 0 ≤ from_segments gs < 65536 ^ zlen gs.
Proof.
  unfold from_segments. assert (Hgen : ∀ a, 0 ≤ a → Forall is_segment gs →
    0 ≤ fold_left (λ a g, a * 65536 + g) gs a < (a + 1) * 65536 ^ zlen gs); [|intros H; specialize (Hgen 0 ltac:(lia) H); lia].
  induction gs as [|g gs IH]; intros a Ha Hgs.
  { change (zlen (@nil Z)) with 0. rewrite Z.pow_0_r. cbn [fold_left]. lia. }
  apply list.Forall_cons in Hgs as [Hg Hgs]. cbn [fold_left].
  unfold is_segment in Hg. rewrite zlen_cons, Z.pow_add_r by (auto with crab; lia).
  specialize (IH (a * 65536 + g) ltac:(lia) Hgs).
  assert (0 < 65536 ^ zlen gs) by (apply Z.pow_pos_nonneg; auto with crab; lia). nia.
Qed.

Lemma read_ipv6_spec s a r :
  read_ipv6_addr s = Some (a, r) → consumed s r ∧ 0 ≤ a < 2 ^ 128.
Proof.
  unfold read_ipv6_addr. destruct (read_groups 8 true s) as [[head v4] r1] eqn:E1.
  apply read_groups_spec in E1 as (Hc & Hh & Hl).
  destruct (Z.eqb_spec (zlen head) 8) as [Eh|Eh].
  { intros [= <- <-]. split; [done|]. pose proof (from_segments_range head Hh) as Hr.
    by rewrite Eh in Hr. }
  destruct v4; [done|]. destruct (read_given_char 58 r1) as [r2|] eqn:E2; [|done].
  cbn [mbind option_bind]. destruct (read_given_char 58 r2) as [r3|] eqn:E3; [|done].
  cbn [mbind option_bind].
  destruct (read_groups (7 - length head) true r3) as [[tail v4] r4] eqn:E4.
  apply read_groups_spec in E4 as (Hc4 & Ht & Hlt). intros [= <- <-].
  apply consumed_char in E2, E3; [|by left..]. split; [by eauto 10 using consumed_trans|].
  unfold zlen in Eh.
  assert (Hz : 0 ≤ 8 - zlen head - zlen tail) by (unfold zlen; lia).
  pose proof (from_segments_range (head ++ zeros (8 - zlen head - zlen tail) ++ tail)) as Hr.
  rewrite !zlen_app, zlen_zeros in Hr by done.
  replace (zlen head + _) with 8 in Hr by lia. apply Hr.
  apply Forall_app. split; [done|]. apply Forall_app. split; [|done].
  apply Forall_replicate. unfold is_segment. lia.
Qed.

(** A parsed address is in the range of its family, and its text holds no
    slash. *)
Lemma consumed_all s : consumed s [] → Forall addr_char s.
Proof. intros (p & -> & Hp). by rewrite app_nil_r. Qed.

Lemma addr_char_not c s : Forall addr_char s → to_digit 16 c = None → c ≠ 58 → c ≠ 46 → c ∉ s.
Proof.
  intros Hs Hd H1 H2 Hc. rewrite list.Forall_forall in Hs. destruct (Hs c Hc) as [[d Hx]|[?|?]]; congruence.
Qed.

Lemma parse_ip_chars s ip : parse_ip s = Some ip → Forall addr_char s.
Proof.
  unfold parse_ip. intros H. destruct (read_ipv4_addr s) as [[a r]|] eqn:E4.
  - destruct r; [|done]. apply read_ipv4_spec in E4 as [Hc _]. by apply consumed_all.
  - destruct (read_ipv6_addr s) as [[a r]|] eqn:E6; [|done]. destruct r; [|done].
    apply read_ipv6_spec in E6 as [Hc _]. by apply consumed_all.
Qed.

Lemma parse_ip_spec s ip : parse_ip s = Some ip → addr_wf ip ∧ 47 ∉ s.
Proof.
  unfold parse_ip. intros H. assert (Hs : ∀ r, consumed s r → r = [] → 47 ∉ s).
  { intros r Hc ->. by apply addr_char_not; [apply consumed_all|..]. }
  destruct (read_ipv4_addr s) as [[a r]|] eqn:E4.
  - destruct r; [|done]. injection H as <-. apply read_ipv4_spec in E4 as [Hc Ha].
    split; [done|by eapply Hs].
  - destruct (read_ipv6_addr s) as [[a r]|] eqn:E6; [|done]. destruct r; [|done].
    injection H as <-. apply read_ipv6_spec in E6 as [Hc Ha]. split; [done|by eapply Hs].
Qed.

(** ** Networks *)

Lemma parse_uint_range max s v : parse_uint max s = Some v → 0 ≤ v ≤ max.
Proof.
  unfold parse_uint. destruct (parse_digits _) as [x|] eqn:E; [|done].
  destruct (Z.leb_spec x max); [|done]. intros [= <-]. split; [|done].
  unfold parse_digits in E. destruct (span_digits 10 _) as [ds r] eqn:Es.
  apply span_digits_spec in Es as [_ Hds]; [|lia]. destruct ds as [|d ds]; [done|].
  destruct r; [|done]. injection E as <-. by apply digits_value_nonneg.
Qed.

Lemma parse_cidr_range s ip bits :
  parse_cidr s = Some (ip, bits) → addr_wf ip ∧ 0 ≤ bits ≤ addr_bits ip.
Proof.
  unfold parse_cidr. destruct (parse_ip s) as [a|] eqn:E.
  { intros [= <- <-]. apply parse_ip_spec in E as [Hw _]. split; [done|]. by destruct a. }
  destruct (split_once 47 s) as [[addr bs]|]; [|done]. cbn [mbind option_bind].
  destruct (parse_ip addr) as [a|] eqn:Ea; [|done]. cbn [mbind option_bind].
  destruct (parse_uint 255 bs) as [b|] eqn:Eb; [|done]. cbn [mbind option_bind].
  destruct (Z.ltb_spec (addr_bits a) b); [done|]. intros [= <- <-].
  apply parse_ip_spec in Ea as [Hw _]. apply parse_uint_range in Eb. split; [done|lia].
Qed.

Lemma parse_uint_show n : 0 ≤ n < 129 → parse_uint 255 (show_uint n) = Some n.
Proof. intros Hn. by_range n Hn 129. Qed.

Lemma parse_show_cidr ip bits :
  addr_wf ip → 0 ≤ bits ≤ addr_bits ip → parse_cidr (show_cidr ip bits) = Some (ip, bits).
Proof.
  intros Hw Hb. pose proof (parse_show_ip ip Hw) as Hp.
  pose proof (parse_ip_spec _ _ Hp) as [_ Hs]. unfold parse_cidr, show_cidr.
  destruct (parse_ip (show_ip ip ++ _)) as [x|] eqn:E.
  { apply parse_ip_spec in E as [_ Hn]. exfalso. apply Hn. set_solver. }
  cbn [app]. rewrite (proj2 (split_once_spec 47 _ _ _) (conj eq_refl Hs)).
  cbn [mbind option_bind]. rewrite Hp. cbn [mbind option_bind].
  assert (addr_bits ip ≤ 128) by by destruct ip. rewrite parse_uint_show by lia.
  cbn [mbind option_bind]. by destruct (Z.ltb_spec (addr_bits ip) bits); [lia|].
Qed.

Lemma mask_bits_spec width bits x :
  0 ≤ bits ≤ width → 0 ≤ x < 2 ^ width →
  Z.land x (mask_bits width bits) = x / 2 ^ (width - bits) * 2 ^ (width - bits).
Proof.
  intros Hb Hx. unfold mask_bits. destruct (Z.eqb_spec bits 0) as [->|].
  - rewrite Z.land_0_r, Z.sub_0_r, Z.div_small by done. done.
  - by apply land_prefix_mask.
Qed.

Lemma land_mask_twice width bits x :
  Z.land (Z.land x (mask_bits width bits)) (mask_bits width bits) = Z.land x (mask_bits width bits).
Proof. by rewrite <- Z.land_assoc, Z.land_diag. Qed.

Lemma land_mask_range width bits x :
  0 ≤ bits ≤ width → 0 ≤ x < 2 ^ width → 0 ≤ Z.land x (mask_bits width bits) < 2 ^ width.
Proof.
  intros Hb Hx. rewrite mask_bits_spec by done.
  assert (0 < 2 ^ (width - bits)) by (apply Z.pow_pos_nonneg; lia).
  pose proof (Z.div_mod x (2 ^ (width - bits)) ltac:(lia)).
  pose proof (Z.mod_pos_bound x (2 ^ (width - bits)) ltac:(lia)).
  pose proof (Z.div_pos x (2 ^ (width - bits)) ltac:(lia) ltac:(lia)). nia.
Qed.

Lemma mask_addr_wf ip bits :
  addr_wf ip → 0 ≤ bits ≤ addr_bits ip → addr_wf (mask_addr ip bits) ∧ addr_bits (mask_addr ip bits) = addr_bits ip.
Proof.
  unfold addr_wf. destruct ip; cbn [addr_bits addr_val mask_addr]; intros; split; try done;
    by apply land_mask_range.
Qed.

(** Membership is equality of the masked addresses. *)
Lemma in_net_mask a n bits :
  0 ≤ bits ≤ addr_bits n → in_net a n bits = true ↔ mask_addr a bits = mask_addr n bits.
Proof.
  destruct a as [x|x], n as [y|y]; cbn [addr_bits in_net mask_addr]; intros Hb;
    rewrite ?Z.min_l by lia; rewrite ?Z.eqb_eq; split; congruence.
Qed.

Lemma canonical_route_parse s ip bits :
  parse_cidr s = Some (ip, bits) →
  canonical_route s = Some (show_cidr (mask_addr ip bits) bits)
  ∧ parse_cidr (show_cidr (mask_addr ip bits) bits) = Some (mask_addr ip bits, bits).
Proof.
  intros Hs. unfold canonical_route. rewrite Hs. split; [done|].
  apply parse_cidr_range in Hs as [Hw Hb]. destruct (mask_addr_wf ip bits Hw Hb) as [Hw' Hb'].
  apply parse_show_cidr; [done|lia].
Qed.

Lemma mask_addr_idem ip bits : mask_addr (mask_addr ip bits) bits = mask_addr ip bits.
Proof. destruct ip; cbn [mask_addr]; by rewrite land_mask_twice. Qed.

(** The canonical form of a route is a normal form: it is its own canonical
    form, and two routes have the same one exactly when they have the same
    length and cover the same addresses. *)
Theorem canonical_route_normal_form s1 s2 ip1 ip2 b1 b2 :
  parse_cidr s1 = Some (ip1, b1) → parse_cidr s2 = Some (ip2, b2) →
  ∃ c1 c2,
    canonical_route s1 = Some c1 ∧ canonical_route s2 = Some c2
    ∧ canonical_route c1 = Some c1
    ∧ (c1 = c2 ↔ b1 = b2 ∧ ∀ a, in_net a ip1 b1 = in_net a ip2 b2).
Proof.
  intros H1 H2. pose proof (parse_cidr_range _ _ _ H1) as [_ Hb1].
  pose proof (parse_cidr_range _ _ _ H2) as [_ Hb2].
  destruct (canonical_route_parse _ _ _ H1) as [Hc1 Hp1].
  destruct (canonical_route_parse _ _ _ H2) as [Hc2 Hp2].
  eexists _, _. split_and!; [done..| |split].
  - destruct (canonical_route_parse _ _ _ Hp1) as [-> _]. by rewrite mask_addr_idem.
  - intros E. rewrite E in Hp1. rewrite Hp2 in Hp1. injection Hp1 as E1 ->. split; [done|].
    intros a. apply eq_true_iff_eq. rewrite !in_net_mask by done. by rewrite E1.
  - intros [-> Hn]. specialize (Hn ip1). f_equal. apply in_net_mask; [done|].
    rewrite <- Hn. by apply in_net_mask.
Qed.

Lemma canonical_route_normal_form_witness :
  ∃ c1 c2,
    canonical_route (str "10.0.0.5/24") = Some c1 ∧ canonical_route (str "10.0.0.9/24") = Some c2
    ∧ canonical_route c1 = Some c1
    ∧ (c1 = c2 ↔ 24 = 24 ∧ ∀ a, in_net a (V4 0x0a000005) 24 = in_net a (V4 0x0a000009) 24).
Proof. apply canonical_route_normal_form; by vm_compute. Defined.
