(* ===== verification/Proxy.v ===== *)
(** * Client addresses behind proxies ([crabscale-server/src/proxy.rs])

    Which address a request is attributed to when it comes through a reverse
    proxy.  A network and its parser are those of the [ipnet] crate, the class
    [IpNetwork]; a header map is the list of its fields in the order they were
    sent, each with its value where that is text. *)

From S2P Require Import Prelude Text Net IpText.

Class IpNetwork (N : Type) : Type := {
  net_from_str : text → result N text;
  net_contains : N → IpAddr → bool }.

Definition X_FORWARDED_FOR : text := str "x-forwarded-for".
Definition X_REAL_IP : text := str "x-real-ip".

(** Header names are compared without case; they are stored in lower case. *)
Abbreviation HeaderMap := (list (text * option text)).

(** [headers.get_all(name)] and [headers.get(name)] *)
Definition get_all (name : text) (headers : HeaderMap) : list (option text) :=
  map snd (filter (λ h, h.1 = name) headers).

Definition get_header (name : text) (headers : HeaderMap) : option (option text) :=
  head (get_all name headers).

(** Every address in the [X-Forwarded-For] fields; what is not one is skipped. *)
Definition forwarded_value (value : option text) : list IpAddr :=
  match value with
  | Some value => omap (λ part, parse_ip (trim part)) (split 44 value)
  | None => []
  end.

Definition forwarded_chain (headers : HeaderMap) : list IpAddr :=
  flat_map forwarded_value (get_all X_FORWARDED_FOR headers).

Definition real_ip (headers : HeaderMap) : option IpAddr :=
  value ← get_header X_REAL_IP headers;
  value ← value;
  parse_ip (trim value).

Section proxy.
  Context {N : Type} `{!IpNetwork N}.

Definition TrustedProxies : Type := list N.

Definition TrustedProxies_empty : TrustedProxies := [].

(** [from_cidrs]: the first CIDR that does not parse is the error. *)
Fixpoint from_cidrs (cidrs : list text) : result TrustedProxies (text * text) :=
  match cidrs with
  | [] => Ok []
  | cidr :: rest =>
      let cidr := trim cidr in
      if bool_decide (cidr = []) then from_cidrs rest
      else
        match net_from_str cidr with
        | Err e => Err (cidr, e)
        | Ok net => rmap (cons net) (from_cidrs rest)
        end
  end.

Definition trusts (p : TrustedProxies) (ip : IpAddr) : bool := existsb (λ net, net_contains net ip) p.

Definition is_empty (p : TrustedProxies) : bool := bool_decide (length p = 0%nat).

Definition resolve_client_ip (p : TrustedProxies) (peer : IpAddr) (headers : HeaderMap) : IpAddr :=
  if is_empty p || negb (trusts p peer) then peer
  else
    let chain := forwarded_chain headers in
    match List.find (λ ip, negb (trusts p ip)) (rev chain) with
    | Some found => found
    | None =>
        match head chain with
        | Some ip => ip
        | None => default peer (real_ip headers)
        end
    end.

End proxy.

(** ** Who the client is *)

Section resolved.
  Context {N : Type} `{!IpNetwork N}.

Lemma find_last {A} (f : A → bool) (l1 l2 : list A) x :
  f x = true → Forall (λ y, f y = false) l2 → List.find f (rev (l1 ++ x :: l2)) = Some x.
Proof.
  intros Hx Hl. rewrite rev_app_distr. cbn [rev]. rewrite <- app_assoc. cbn [app].
  assert (Hr : Forall (λ y, f y = false) (rev l2)) by by apply List.Forall_rev.
  induction Hr as [|y l Hy _ IH]; cbn [app List.find]; [by rewrite Hx|by rewrite Hy].
Qed.

Lemma find_none {A} (f : A → bool) (l : list A) :
  Forall (λ y, f y = false) l → List.find f (rev l) = None.
Proof.
  intros Hl. assert (Hr : Forall (λ y, f y = false) (rev l)) by by apply List.Forall_rev.
  induction Hr as [|y k Hy _ IH]; cbn [List.find]; [done|by rewrite Hy].
Qed.

Lemma trusting_not_empty (p : TrustedProxies) peer : trusts p peer = true → is_empty p = false.
Proof. by destruct p. Qed.


(** An entry that is no address is passed over like a trusted proxy: when the
    nearest proxy reports the client in another form, with its port for one,
    the client is whoever stands before it, which the client itself wrote. *)
Theorem unreadable_hop_trusts_the_rest (p : TrustedProxies) peer claimed hop ip :
  trusts p peer = true → parse_ip (trim claimed) = Some ip → trusts p ip = false →
  44 ∉ claimed → 44 ∉ hop → parse_ip (trim hop) = None →
  resolve_client_ip p peer [(X_FORWARDED_FOR, Some (claimed ++ 44 :: hop))] = ip.
Proof.
  intros Ht Hip Hu Hc Hh Hn. unfold resolve_client_ip.
  rewrite Ht, (trusting_not_empty p peer) by done. cbn [negb orb]. cbv zeta.
  assert (Hchain : forwarded_chain [(X_FORWARDED_FOR, Some (claimed ++ 44 :: hop))] = [ip]).
  { unfold forwarded_chain. set (value := claimed ++ 44 :: hop).
    change (get_all X_FORWARDED_FOR [(X_FORWARDED_FOR, Some value)]) with [Some value].
    cbn [flat_map]. unfold forwarded_value, value. rewrite split_cons, (split_none 44 hop) by done. cbn [omap list_omap].
    by rewrite Hip, Hn. }
  rewrite Hchain. cbn [rev app List.find]. by rewrite Hu.
Qed.

End resolved.

(** A network of one address. *)
Definition single_network : IpNetwork IpAddr :=
  {| net_from_str s := ok_or (parse_ip s) []; net_contains a b := bool_decide (a = b) |}.

Definition demo_proxy : IpAddr := V4 0x0A000001.


Lemma unreadable_hop_trusts_the_rest_witness :
  resolve_client_ip (IpNetwork0 := single_network) [demo_proxy] demo_proxy
    [(X_FORWARDED_FOR, Some (str "127.0.0.1" ++ 44 :: str " 198.51.100.7:4711"))] = V4 0x7F000001.
Proof.
  apply (unreadable_hop_trusts_the_rest (IpNetwork0 := single_network));
    first [by vm_compute|apply (bool_decide_unpack _); by vm_compute].
Defined.
