(* ===== verification/RateLimit.v ===== *)
(** * The rate limiter ([crabscale-server/src/rate_limit.rs])

    A token bucket for each key, in a bounded table.  The tokens are doubles and
    are computed as IEEE 754 says, with [SpecFloat]; an [Instant] is its
    nanoseconds.  The order in which a hash map is walked is an argument. *)

From Stdlib Require Import SpecFloat.
From S2P Require Import Prelude Text.

Definition DEFAULT_TS2021_RATE_PER_MIN : Z := 60.
Definition DEFAULT_TS2021_BURST : Z := 10.
Definition DEFAULT_REGISTER_RATE_PER_MIN : Z := 30.
Definition DEFAULT_REGISTER_BURST : Z := 5.
Definition DEFAULT_MAX_RATE_KEYS : nat := Z.to_nat 4096.
Definition IDLE_TTL : Z := 10 * 60 * 10 ^ 9.

Record RateLimitConfig : Type := {
  ts2021_per_min : Z; ts2021_burst : Z; register_per_min : Z; register_burst : Z; cfg_max_entries : nat }.

Definition RateLimitConfig_default : RateLimitConfig :=
  {| ts2021_per_min := DEFAULT_TS2021_RATE_PER_MIN; ts2021_burst := DEFAULT_TS2021_BURST;
     register_per_min := DEFAULT_REGISTER_RATE_PER_MIN; register_burst := DEFAULT_REGISTER_BURST;
     cfg_max_entries := DEFAULT_MAX_RATE_KEYS |}.

(** ** Doubles *)

Abbreviation f64 := spec_float.

Definition f64_of (z : Z) : f64 := binary_normalize 53 1024 z 0 false.
Definition f64_add : f64 → f64 → f64 := SFadd 53 1024.
Definition f64_sub : f64 → f64 → f64 := SFsub 53 1024.
Definition f64_mul : f64 → f64 → f64 := SFmul 53 1024.
Definition f64_div : f64 → f64 → f64 := SFdiv 53 1024.
Definition f64_zero : f64 := S754_zero false.
Definition f64_one : f64 := f64_of 1.

(** [f64::min]: a NaN gives way. *)
Definition f64_min (a b : f64) : f64 :=
  match a, b with
  | S754_nan, _ => b
  | _, S754_nan => a
  | _, _ => if SFleb a b then a else b
  end.

(** [x.ceil() as u64]: the cast saturates and makes a NaN zero. *)
Definition ceil_as_u64 (x : f64) : Z :=
  match x with
  | S754_finite false m e => Z.min (2 ^ 64 - 1) (if 0 <=? e then Zpos m * 2 ^ e else (Zpos m + 2 ^ (- e) - 1) / 2 ^ (- e))
  | S754_infinity false => 2 ^ 64 - 1
  | _ => 0
  end.

(** [Duration::as_secs_f64] *)
Definition as_secs_f64 (nanos : Z) : f64 :=
  f64_add (f64_of (nanos / 10 ^ 9)) (f64_div (f64_of (nanos mod 10 ^ 9)) (f64_of (10 ^ 9))).

(** [now.duration_since(earlier)] saturates at zero. *)
Definition duration_since (now earlier : Z) : Z := Z.max 0 (now - earlier).

(** ** The limiter *)

Record Bucket : Type := { tokens : f64; updated : Z }.

Record RateLimiter : Type := {
  buckets : gmap text Bucket; rate_per_sec : f64; rl_burst : f64; max_entries : nat }.

Definition RateLimiter_new (per_min burst : Z) (max_entries : nat) : RateLimiter :=
  {| buckets := ∅; rate_per_sec := f64_div (f64_of per_min) (f64_of 60); rl_burst := f64_of burst;
     max_entries := max_entries |}.

Definition set_buckets (b : gmap text Bucket) (r : RateLimiter) : RateLimiter :=
  {| buckets := b; rate_per_sec := r.(rate_per_sec); rl_burst := r.(rl_burst); max_entries := r.(max_entries) |}.

Definition refill (bucket : Bucket) (rate burst : f64) (now : Z) : Bucket :=
  let elapsed := as_secs_f64 (duration_since now bucket.(updated)) in
  {| tokens := if SFltb f64_zero elapsed
               then f64_min (f64_add bucket.(tokens) (f64_mul elapsed rate)) burst
               else bucket.(tokens);
     updated := now |}.

Definition prune (now : Z) (r : RateLimiter) : RateLimiter :=
  if (size r.(buckets) <? r.(max_entries))%nat then r
  else
    set_buckets
      (filter (λ '(_, bucket),
         ((IDLE_TTL <=? duration_since now bucket.(updated)) && SFleb r.(rl_burst) bucket.(tokens)) = false)
         r.(buckets)) r.

(** [min_by_key]: the first of the least. *)
Fixpoint oldest_key (b : gmap text Bucket) (order : list text) : option (text * Z) :=
  match order with
  | [] => None
  | key :: order =>
      match b !! key with
      | None => oldest_key b order
      | Some bucket =>
          match oldest_key b order with
          | Some (key', t) => if bucket.(updated) <=? t then Some (key, bucket.(updated)) else Some (key', t)
          | None => Some (key, bucket.(updated))
          end
      end
  end.

Definition evict_oldest (order : list text) (r : RateLimiter) : RateLimiter :=
  match oldest_key r.(buckets) order with
  | Some (key, _) => set_buckets (delete key r.(buckets)) r
  | None => r
  end.

(** The table with a bucket for the key. *)
Definition admit_key (order : list text) (key : text) (now : Z) (r : RateLimiter) : RateLimiter :=
  match r.(buckets) !! key with
  | Some bucket => set_buckets (<[key := refill bucket r.(rate_per_sec) r.(rl_burst) now]> r.(buckets)) r
  | None =>
      let r := if (r.(max_entries) <=? size r.(buckets))%nat then prune now r else r in
      let r := if (r.(max_entries) <=? size r.(buckets))%nat then evict_oldest order r else r in
      set_buckets (<[key := {| tokens := r.(rl_burst); updated := now |}]> r.(buckets)) r
  end.

(** [check]: [None] admits, [Some retry] refuses. *)
Definition check (order : list text) (key : text) (now : Z) (r : RateLimiter) : RateLimiter * option Z :=
  if SFleb r.(rate_per_sec) f64_zero || SFleb r.(rl_burst) f64_zero then (r, None)
  else
    let r := admit_key order key now r in
    match r.(buckets) !! key with
    | None => (r, None)
    | Some bucket =>
        if SFleb f64_one bucket.(tokens)
        then (set_buckets (<[key := {| tokens := f64_sub bucket.(tokens) f64_one; updated := bucket.(updated) |}]>
                             r.(buckets)) r, None)
        else
          let need := f64_sub f64_one bucket.(tokens) in
          (r, Some (Z.max 1 (ceil_as_u64 (f64_div need r.(rate_per_sec)))))
    end.

(** ** Whole numbers of tokens

    A whole number below [2 ^ 53] is a double, and taking one off it is exact. *)

(** A positive number shifted to the left. *)
Definition shl_pos (n : positive) (k : Z) : positive := match k with Zpos p => Pos.iter xO n p | _ => n end.

(** The double of a positive whole number. *)
Definition whole (n : positive) : f64 :=
  S754_finite false (shl_pos n (53 - Zpos (digits2_pos n))) (Zpos (digits2_pos n) - 53).

Lemma digits_bounds n : 2 ^ (Zpos (digits2_pos n) - 1) ≤ Zpos n < 2 ^ Zpos (digits2_pos n).
Proof.
  induction n as [n IH|n IH|]; cbn [digits2_pos]; [..|done].
  all: rewrite Pos2Z.inj_succ, Z.pow_succ_r by lia; replace (Z.succ (Zpos (digits2_pos n)) - 1) with (Z.succ (Zpos (digits2_pos n) - 1)) by lia;
    rewrite Z.pow_succ_r by lia; lia.
Qed.

Lemma digits_le n k : 0 ≤ k → Zpos n < 2 ^ k → Zpos (digits2_pos n) ≤ k.
Proof.
  intros Hk Hn. destruct (digits_bounds n) as [Hl _]. destruct (Z.le_gt_cases (Zpos (digits2_pos n)) k) as [|Hgt]; [done|].
  assert (2 ^ k ≤ 2 ^ (Zpos (digits2_pos n) - 1)) by (apply Z.pow_le_mono_r; lia). lia.
Qed.

Lemma shl_pos_spec n k :
  0 ≤ k → Zpos (shl_pos n k) = Zpos n * 2 ^ k ∧ Zpos (digits2_pos (shl_pos n k)) = Zpos (digits2_pos n) + k.
Proof.
  intros Hk. destruct k as [|k|k]; [cbn [shl_pos]; lia| |lia]. cbn [shl_pos]. clear Hk.
  induction k as [|k [IH1 IH2]] using Pos.peano_ind; [cbn [Pos.iter digits2_pos]; lia|]. rewrite Pos.iter_succ. split.
  - rewrite Pos2Z.inj_succ, Z.pow_succ_r by lia. change (Zpos (xO (Pos.iter xO n k))) with (2 * Zpos (Pos.iter xO n k)). lia.
  - cbn [digits2_pos]. rewrite !Pos2Z.inj_succ, IH2. lia.
Qed.

(** Shifting out zeros loses nothing. *)
Lemma shr_zeros n k :
  SpecFloat.iter_pos shr_1 k {| shr_m := Zpos (Pos.iter xO n k); shr_r := false; shr_s := false |}
  = {| shr_m := Zpos n; shr_r := false; shr_s := false |}.
Proof.
  revert n. induction k as [k IH|k IH|]; intros n; cbn [SpecFloat.iter_pos]; [..|done].
  - assert (Hk : Pos.iter xO n (xI k) = xO (Pos.iter xO (Pos.iter xO n k) k)).
    { rewrite <- Pos.iter_add, <- Pos.iter_succ. f_equal. lia. }
    rewrite Hk. cbn [shr_1 orb]. by rewrite !IH.
  - assert (Hk : Pos.iter xO n (xO k) = Pos.iter xO (Pos.iter xO n k) k) by (rewrite <- Pos.iter_add; f_equal; lia).
    rewrite Hk. by rewrite !IH.
Qed.

Lemma fexp_53 e : -1000 ≤ e → fexp 53 1024 e = e - 53.
Proof. intros He. unfold fexp, emin. lia. Qed.

(** A number with 53 digits is kept as it is, one with more loses zeros. *)
Lemma round_kept m j e :
  Zpos (digits2_pos m) = 53 → 0 ≤ j → -900 ≤ e → e + j ≤ 900 →
  binary_round_aux 53 1024 false (Zpos (shl_pos m j)) e loc_Exact = S754_finite false m (e + j).
Proof.
  intros Hd Hj He He'. destruct (shl_pos_spec m j Hj) as [_ Hdj]. rewrite Hd in Hdj.
  unfold binary_round_aux, shr_fexp. cbn [Zdigits2 shr_record_of_loc]. rewrite Hdj, fexp_53 by lia.
  replace (53 + j + e - 53 - e) with j by lia.
  assert (Hs : shr {| shr_m := Zpos (shl_pos m j); shr_r := false; shr_s := false |} e j
               = ({| shr_m := Zpos m; shr_r := false; shr_s := false |}, e + j)).
  { destruct j as [|j|j]; [cbn [shr shl_pos]; f_equal; lia| |lia]. cbn [shr shl_pos]. by rewrite shr_zeros. }
  rewrite Hs. cbn [shr_m loc_of_shr_record round_nearest_even Zdigits2 shr_record_of_loc]. rewrite Hd, fexp_53 by lia.
  replace (53 + (e + j) - 53 - (e + j)) with 0 by lia. cbn [shr shr_m]. by rewrite (proj2 (Z.leb_le (e + j) (1024 - 53))) by lia.
Qed.

(** [n * 2 ^ k * 2 ^ (-k)] is [n]. *)
Lemma round_whole n k :
  Zpos n < 2 ^ 53 → 0 ≤ k ≤ 60 → binary_normalize 53 1024 (Zpos n * 2 ^ k) (- k) false = whole n.
Proof.
  intros Hn Hk. pose proof (digits_le n 53 ltac:(lia) Hn) as Hd. destruct (shl_pos_spec n k) as [Hm Hdm]; [lia|].
  rewrite <- Hm. cbn [binary_normalize]. unfold binary_round. rewrite Hdm, fexp_53 by lia. unfold shl_align.
  replace (Zpos (digits2_pos n) + k + - k - 53 - - k) with (Zpos (digits2_pos n) + k - 53) by lia.
  set (w := shl_pos n (53 - Zpos (digits2_pos n))). destruct (shl_pos_spec n (53 - Zpos (digits2_pos n))) as [Hw Hdw]; [lia|].
  assert (H53 : Zpos (digits2_pos w) = 53) by (unfold w; lia).
  assert (Hgoal : ∀ x e j, x = shl_pos w j → 0 ≤ j → e + j = Zpos (digits2_pos n) - 53 → -900 ≤ e →
    binary_round_aux 53 1024 false (Zpos x) e loc_Exact = whole n).
  { intros x e j -> Hj Hej He. rewrite round_kept by (done || lia). unfold whole. by rewrite Hej. }
  destruct (Z.lt_ge_cases (Zpos (digits2_pos n) + k) 53) as [Hlt|Hge].
  - destruct (Zpos (digits2_pos n) + k - 53) as [|p|p] eqn:Ep; [lia..|]. apply (Hgoal _ _ 0); [|lia..].
    apply Pos2Z.inj. cbn [shl_pos]. change (Pos.iter xO (shl_pos n k) p) with (shl_pos (shl_pos n k) (Zpos p)).
    destruct (shl_pos_spec (shl_pos n k) (Zpos p)) as [-> _]; [lia|]. unfold w. rewrite Hw, Hm, <- Z.mul_assoc, <- Z.pow_add_r by lia.
    do 2 f_equal. lia.
  - assert (Hx : shl_pos n k = shl_pos w (Zpos (digits2_pos n) + k - 53)).
    { apply Pos2Z.inj. destruct (shl_pos_spec w (Zpos (digits2_pos n) + k - 53)) as [-> _]; [lia|].
      unfold w. rewrite Hw, Hm, <- Z.mul_assoc, <- Z.pow_add_r by lia. do 2 f_equal. lia. }
    destruct (Zpos (digits2_pos n) + k - 53) as [|p|p] eqn:Ep; [| |lia].
    + apply (Hgoal _ _ 0); [done|lia..].
    + apply (Hgoal _ _ (Zpos p)); [done|lia..].
Qed.

Lemma f64_of_pos n : Zpos n < 2 ^ 53 → f64_of (Zpos n) = whole n.
Proof. intros Hn. pose proof (round_whole n 0 Hn ltac:(lia)) as H. by rewrite Z.mul_1_r in H. Qed.

(** Taking one off. *)
Lemma whole_minus_one n : 0 < n < 2 ^ 53 → f64_sub (f64_of n) f64_one = f64_of (n - 1).
Proof.
  intros Hn. destruct n as [|n|n]; [lia| |lia]. rewrite f64_of_pos by lia. unfold f64_one. rewrite (f64_of_pos 1) by lia.
  pose proof (digits_le n 53 ltac:(lia) ltac:(lia)) as Hd. unfold f64_sub, whole, SFsub.
  change (Zpos (digits2_pos 1)) with 1. replace (Z.min (Zpos (digits2_pos n) - 53) (1 - 53)) with (-52) by lia.
  assert (Hone : Zpos (shl_align (shl_pos 1 (53 - 1)) (1 - 53) (-52)).1 = 2 ^ 52) by done.
  assert (Hx : Zpos (shl_align (shl_pos n (53 - Zpos (digits2_pos n))) (Zpos (digits2_pos n) - 53) (-52)).1 = Zpos n * 2 ^ 52).
  { destruct (shl_pos_spec n (53 - Zpos (digits2_pos n))) as [Hw _]; [lia|]. unfold shl_align.
    destruct (-52 - (Zpos (digits2_pos n) - 53)) as [|p|p] eqn:Ep; cbn [fst]; [|lia|].
    - rewrite Hw. do 2 f_equal. lia.
    - set (w := shl_pos n (53 - Zpos (digits2_pos n))) in *. change (Pos.iter xO w p) with (shl_pos w (Zpos p)).
      destruct (shl_pos_spec w (Zpos p)) as [-> _]; [lia|].
      rewrite Hw, <- Z.mul_assoc, <- Z.pow_add_r by lia. do 2 f_equal. lia. }
  cbn [cond_Zopp]. rewrite Hone, Hx. replace (Zpos n * 2 ^ 52 - 2 ^ 52) with ((Zpos n - 1) * 2 ^ 52) by lia.
  destruct (Zpos n - 1) as [|q|q] eqn:Eq; [done| |lia]. change (-52) with (- (52)). rewrite round_whole by lia. by rewrite f64_of_pos by lia.
Qed.

(** Comparing with one. *)
Lemma one_le_whole n : 0 ≤ n < 2 ^ 53 → SFleb f64_one (f64_of n) = (1 <=? n).
Proof.
  intros Hn. destruct n as [|n|n]; [done| |lia]. rewrite f64_of_pos by lia. rewrite (proj2 (Z.leb_le 1 (Zpos n))) by lia.
  unfold f64_one. rewrite (f64_of_pos 1) by lia. unfold whole, SFleb, SFcompare. change (Zpos (digits2_pos 1)) with 1.
  destruct (Z.compare_spec (1 - 53) (Zpos (digits2_pos n) - 53)) as [E|E|E]; [|done|lia].
  assert (Hd : Zpos (digits2_pos n) = 1) by lia. destruct (digits_bounds n) as [_ Hb]. rewrite Hd in *.
  assert (n = 1%positive) as -> by lia. done.
Qed.

Lemma whole_positive n : 0 < n < 2 ^ 53 → SFleb (f64_of n) f64_zero = false.
Proof. intros Hn. destruct n as [|n|n]; [lia| |lia]. by rewrite f64_of_pos by lia. Qed.

(** ** The table *)

(** The checks of a list, in turn: each with the order the map is walked in, the
    key and the time. *)
Fixpoint checks (cs : list (list text * text * Z)) (r : RateLimiter) : RateLimiter * list (option Z) :=
  match cs with
  | [] => (r, [])
  | (order, key, now) :: cs =>
      let '(r, x) := check order key now r in
      let '(r, xs) := checks cs r in (r, x :: xs)
  end.

Lemma oldest_key_elem b order key t : oldest_key b order = Some (key, t) → ∃ x, b !! key = Some x.
Proof.
  revert key t. induction order as [|k order IH]; intros key t; [done|]. cbn [oldest_key].
  destruct (b !! k) as [x|] eqn:Hk; [|apply IH]. destruct (oldest_key b order) as [[k' t']|].
  - destruct (_ <=? _); intros [= <- <-]; [by exists x|by apply (IH k' t')].
  - intros [= <- <-]. by exists x.
Qed.

Lemma oldest_key_some b order : (∃ k, k ∈ order ∧ is_Some (b !! k)) → is_Some (oldest_key b order).
Proof.
  induction order as [|k order IH]; intros (k' & Hin & Hk'); [by apply elem_of_nil in Hin|]. cbn [oldest_key].
  destruct (b !! k) as [x|] eqn:Hk.
  - destruct (oldest_key b order) as [[k'' t]|]; [|done]. by destruct (_ <=? _).
  - apply IH. exists k'. split; [|done]. apply elem_of_cons in Hin as [->|?]; [|done]. rewrite Hk in Hk'. by destruct Hk'.
Qed.

Lemma size_insert_le {A} (m : gmap text A) k x : (size (<[k := x]> m) ≤ S (size m))%nat.
Proof. rewrite map_size_insert. destruct (m !! k); unfold id; lia. Qed.

Lemma prune_size now r : (size (prune now r).(buckets) ≤ size r.(buckets))%nat.
Proof.
  unfold prune. destruct (_ <? _)%nat; [done|]. cbn [set_buckets buckets].
  apply map_subseteq_size, map_filter_subseteq.
Qed.

Lemma prune_sub now r : (prune now r).(buckets) ⊆ r.(buckets).
Proof. unfold prune. destruct (_ <? _)%nat; [done|]. apply map_filter_subseteq. Qed.

Lemma evict_sub order r : (evict_oldest order r).(buckets) ⊆ r.(buckets).
Proof. unfold evict_oldest. destruct (oldest_key _ _) as [[k t]|]; [apply delete_subseteq|done]. Qed.

Lemma prune_config now r :
  (prune now r).(rate_per_sec) = r.(rate_per_sec) ∧ (prune now r).(rl_burst) = r.(rl_burst)
  ∧ (prune now r).(max_entries) = r.(max_entries).
Proof. unfold prune. by destruct (_ <? _)%nat. Qed.

Lemma evict_config order r :
  (evict_oldest order r).(rate_per_sec) = r.(rate_per_sec) ∧ (evict_oldest order r).(rl_burst) = r.(rl_burst)
  ∧ (evict_oldest order r).(max_entries) = r.(max_entries).
Proof. unfold evict_oldest. by destruct (oldest_key _ _) as [[k t]|]. Qed.

(** The table room is made in. *)
Definition make_room (order : list text) (now : Z) (r : RateLimiter) : RateLimiter :=
  let r := if (r.(max_entries) <=? size r.(buckets))%nat then prune now r else r in
  if (r.(max_entries) <=? size r.(buckets))%nat then evict_oldest order r else r.

Lemma make_room_spec order now r :
  (make_room order now r).(rate_per_sec) = r.(rate_per_sec) ∧ (make_room order now r).(rl_burst) = r.(rl_burst)
  ∧ (make_room order now r).(max_entries) = r.(max_entries) ∧ (make_room order now r).(buckets) ⊆ r.(buckets).
Proof.
  unfold make_room. set (r1 := if (_ <=? _)%nat then prune now r else r).
  assert (H1 : r1.(rate_per_sec) = r.(rate_per_sec) ∧ r1.(rl_burst) = r.(rl_burst) ∧ r1.(max_entries) = r.(max_entries)
               ∧ r1.(buckets) ⊆ r.(buckets)).
  { unfold r1. destruct (_ <=? _)%nat; [|done]. destruct (prune_config now r) as (? & ? & ?). split_and!; [done..|apply prune_sub]. }
  destruct H1 as (Hr & Hb & Hm & Hs). clearbody r1. destruct (_ <=? _)%nat; [|by rewrite Hr, Hb, Hm]. destruct (evict_config order r1) as (H2 & H3 & H4).
  rewrite H2, H3, H4. split_and!; [done..|]. etrans; [apply evict_sub|done].
Qed.

(** Room is there for one more, when the walk sees every key. *)
Lemma make_room_size order now r :
  (∀ k, is_Some (r.(buckets) !! k) → k ∈ order) → (size r.(buckets) ≤ Nat.max 1 r.(max_entries))%nat →
  (size (make_room order now r).(buckets) < Nat.max 1 r.(max_entries))%nat.
Proof.
  intros Ho Hs. unfold make_room. set (r1 := if (_ <=? _)%nat then prune now r else r).
  assert (H1 : r1.(max_entries) = r.(max_entries) ∧ r1.(buckets) ⊆ r.(buckets)).
  { unfold r1. destruct (_ <=? _)%nat; [|done]. destruct (prune_config now r) as (_ & _ & ?). split; [done|apply prune_sub]. }
  destruct H1 as (Hm & Hsub). assert (Hle : (size r1.(buckets) ≤ size r.(buckets))%nat) by by apply map_subseteq_size.
  destruct (Nat.leb_spec r1.(max_entries) (size r1.(buckets))) as [Hfull|]; [|lia].
  unfold evict_oldest. destruct (oldest_key _ order) as [[k t]|] eqn:Ek.
  - apply oldest_key_elem in Ek as [x Hx]. cbn [set_buckets buckets]. rewrite map_size_delete_Some by done.
    assert (size r1.(buckets) ≠ 0%nat); [|lia]. intros Hz%map_size_empty_iff. rewrite Hz in Hx. done.
  - assert (r1.(buckets) = ∅) as ->; [|rewrite map_size_empty; lia]. apply map_empty. intros k.
    destruct (r1.(buckets) !! k) as [x|] eqn:Hx; [|done]. exfalso.
    destruct (oldest_key_some r1.(buckets) order) as [y Hy]; [|congruence]. exists k. split; [|by exists x].
    apply Ho. exists x. by eapply lookup_weaken.
Qed.

(** What a check leaves. *)
Lemma check_config order key now r :
  (check order key now r).1.(rate_per_sec) = r.(rate_per_sec) ∧ (check order key now r).1.(rl_burst) = r.(rl_burst)
  ∧ (check order key now r).1.(max_entries) = r.(max_entries).
Proof.
  unfold check. destruct (_ || _); [done|]. set (r1 := admit_key order key now r).
  assert (H1 : r1.(rate_per_sec) = r.(rate_per_sec) ∧ r1.(rl_burst) = r.(rl_burst) ∧ r1.(max_entries) = r.(max_entries)).
  { unfold r1, admit_key. destruct (buckets r !! key); [done|]. fold (make_room order now r).
    destruct (make_room_spec order now r) as (? & ? & ? & _). done. }
  destruct (buckets r1 !! key); [|done]. by destruct (SFleb f64_one _).
Qed.

Lemma check_size order key now r :
  (∀ k, is_Some (r.(buckets) !! k) → k ∈ order) → (size r.(buckets) ≤ Nat.max 1 r.(max_entries))%nat →
  (size (check order key now r).1.(buckets) ≤ Nat.max 1 r.(max_entries))%nat.
Proof.
  intros Ho Hs. unfold check. destruct (_ || _); [done|]. set (r1 := admit_key order key now r).
  assert (H1 : (size r1.(buckets) ≤ Nat.max 1 r.(max_entries))%nat).
  { unfold r1, admit_key. destruct (buckets r !! key) as [b|] eqn:Hb; cbn [set_buckets buckets].
    - by rewrite map_size_insert, Hb.
    - fold (make_room order now r). pose proof (make_room_size order now r Ho Hs).
      pose proof (size_insert_le (make_room order now r).(buckets) key {| tokens := (make_room order now r).(rl_burst); updated := now |}). lia. }
  destruct (buckets r1 !! key) as [b|] eqn:Hb; [|done]. destruct (SFleb f64_one _); [|done].
  cbn [fst set_buckets buckets]. by rewrite map_size_insert, Hb.
Qed.

(** A check gives no other key anything. *)
Lemma check_others order key now r k b :
  k ≠ key → (check order key now r).1.(buckets) !! k = Some b → r.(buckets) !! k = Some b.
Proof.
  intros Hk. unfold check. destruct (_ || _); [done|]. set (r1 := admit_key order key now r).
  assert (H1 : r1.(buckets) !! k = Some b → r.(buckets) !! k = Some b).
  { unfold r1, admit_key. destruct (buckets r !! key); cbn [set_buckets buckets]; rewrite lookup_insert_ne by done; [done|].
    fold (make_room order now r). destruct (make_room_spec order now r) as (_ & _ & _ & Hs). intros Hb. by eapply lookup_weaken. }
  destruct (buckets r1 !! key); [|done]. destruct (SFleb f64_one _); [|done]. cbn [fst set_buckets buckets].
  by rewrite lookup_insert_ne.
Qed.

(** ** The theorems *)

(** Each walk sees every key of the table it walks. *)
Fixpoint walks (cs : list (list text * text * Z)) (r : RateLimiter) : Prop :=
  match cs with
  | [] => True
  | (order, key, now) :: cs =>
      (∀ k, is_Some (r.(buckets) !! k) → k ∈ order) ∧ walks cs (check order key now r).1
  end.

(** However many keys ask, the table holds no more buckets than it may (one, when
    that is none). *)
Theorem limiter_table_bounded per_min burst max cs :
  walks cs (RateLimiter_new per_min burst max) →
  (size (checks cs (RateLimiter_new per_min burst max)).1.(buckets) ≤ Nat.max 1 max)%nat.
Proof.
  assert (Hgen : ∀ cs r, walks cs r → (size r.(buckets) ≤ Nat.max 1 r.(max_entries))%nat →
    (size (checks cs r).1.(buckets) ≤ Nat.max 1 r.(max_entries))%nat).
  { clear. induction cs as [|[[order key] now] cs IH]; intros r; [done|]. cbn [walks checks]. intros [Ho Hw] Hs.
    pose proof (check_size order key now r Ho Hs) as H1. destruct (check_config order key now r) as (_ & _ & Hm).
    specialize (IH (check order key now r).1 Hw). rewrite Hm in IH. specialize (IH H1).
    destruct (check order key now r) as [r1 x]. cbn [fst] in *. by destruct (checks cs r1). }
  intros Hw. apply Hgen; [done|]. cbn [RateLimiter_new buckets]. rewrite map_size_empty. lia.
Qed.

(** The bucket of a key after some checks at one instant. *)
Lemma check_same_instant order key now r n :
  SFleb r.(rate_per_sec) f64_zero = false → SFleb r.(rl_burst) f64_zero = false → 0 ≤ n < 2 ^ 53 →
  r.(buckets) !! key = Some {| tokens := f64_of n; updated := now |} →
  check order key now r =
    if 0 <? n then (set_buckets (<[key := {| tokens := f64_of (n - 1); updated := now |}]> r.(buckets)) r, None)
    else (r, Some (Z.max 1 (ceil_as_u64 (f64_div f64_one r.(rate_per_sec))))).
Proof.
  intros Hr Hb Hn Hk. unfold check. rewrite Hr, Hb. cbn [orb]. unfold admit_key. rewrite Hk. unfold refill.
  cbn [updated tokens]. unfold duration_since. rewrite Z.sub_diag. change (SFltb f64_zero (as_secs_f64 (Z.max 0 0))) with false.
  cbv iota. rewrite insert_id by done. assert (Hsame : set_buckets r.(buckets) r = r) by by destruct r. rewrite Hsame, Hk.
  cbn [tokens updated]. rewrite one_le_whole by done. destruct (Z.leb_spec 1 n); destruct (Z.ltb_spec 0 n); try lia.
  - by rewrite whole_minus_one by lia.
  - assert (n = 0) as -> by lia. done.
Qed.

Lemma checks_same_instant order key now r n k :
  SFleb r.(rate_per_sec) f64_zero = false → SFleb r.(rl_burst) f64_zero = false → Z.of_nat n < 2 ^ 53 →
  r.(buckets) !! key = Some {| tokens := f64_of (Z.of_nat n); updated := now |} →
  (checks (replicate (n + k) (order, key, now)) r).2
  = replicate n None ++ replicate k (Some (Z.max 1 (ceil_as_u64 (f64_div f64_one r.(rate_per_sec))))).
Proof.
  revert r. induction n as [|n IH]; intros r Hr Hb Hn Hk.
  - cbn [Nat.add replicate app]. induction k as [|k IHk]; [done|]. cbn [replicate checks].
    rewrite (check_same_instant order key now r 0) by (done || lia). cbn [Z.ltb Z.compare].
    destruct (checks (replicate k (order, key, now)) r). cbn [snd] in *. by rewrite IHk.
  - cbn [Nat.add replicate checks app]. rewrite (check_same_instant order key now r (Z.of_nat (S n))) by (done || lia).
    rewrite (proj2 (Z.ltb_lt 0 (Z.of_nat (S n)))) by lia. replace (Z.of_nat (S n) - 1) with (Z.of_nat n) by lia.
    set (r1 := set_buckets _ r). specialize (IH r1 Hr Hb ltac:(lia) (lookup_insert_eq _ _ _)).
    destruct (checks (replicate (n + k) (order, key, now)) r1). cbn [snd] in *. by rewrite IH.
Qed.

(** C39. A key that has no bucket is admitted as many times at one instant as the burst
    says, and then refused, each time with the seconds one token takes; nothing is lost
    to rounding. *)
Theorem burst_then_refused order key now r burst k :
  SFleb r.(rate_per_sec) f64_zero = false → r.(rl_burst) = f64_of (Z.of_nat burst) → 0 < Z.of_nat burst < 2 ^ 32 →
  r.(buckets) !! key = None →
  (checks (replicate (burst + k) (order, key, now)) r).2
  = replicate burst None ++ replicate k (Some (Z.max 1 (ceil_as_u64 (f64_div f64_one r.(rate_per_sec))))).
Proof.
  intros Hr Hb Hburst Hk. assert (Hpos : SFleb r.(rl_burst) f64_zero = false) by (rewrite Hb; apply whole_positive; lia).
  destruct burst as [|n]; [lia|]. cbn [Nat.add replicate checks app].
  assert (Hfirst : ∃ r1, check order key now r = (r1, None) ∧ r1.(rate_per_sec) = r.(rate_per_sec) ∧ r1.(rl_burst) = r.(rl_burst)
    ∧ r1.(buckets) !! key = Some {| tokens := f64_of (Z.of_nat n); updated := now |}).
  { destruct (make_room_spec order now r) as (H1 & H2 & _). unfold check. rewrite Hr, Hpos. cbn [orb].
    unfold admit_key. rewrite Hk. fold (make_room order now r). cbn [set_buckets buckets]. rewrite lookup_insert_eq.
    cbn [tokens updated]. rewrite H2, Hb, one_le_whole, (proj2 (Z.leb_le 1 (Z.of_nat (S n)))) by lia.
    eexists. split; [done|]. cbn [set_buckets buckets rate_per_sec rl_burst]. split; [done|]. split; [by rewrite H2|].
    rewrite lookup_insert_eq. rewrite whole_minus_one by lia. do 3 f_equal. lia. }
  destruct Hfirst as (r1 & -> & H1 & H2 & H3).
  pose proof (checks_same_instant order key now r1 n k) as Hrest. rewrite H1, H2 in Hrest. specialize (Hrest Hr Hpos ltac:(lia) H3).
  destruct (checks (replicate (n + k) (order, key, now)) r1). cbn [snd] in *. by rewrite Hrest.
Qed.

(** An idle bucket is never pruned: the table keeps the tokens of its last use, which
    are fewer than the burst, and does not refill them before it asks whether the
    bucket is full. *)
Lemma idle_bucket_kept key used now :
  let r := (check [] key used (RateLimiter_new DEFAULT_TS2021_RATE_PER_MIN DEFAULT_TS2021_BURST 1)).1 in
  size r.(buckets) = 1%nat ∧ prune now r = r.
Proof.
  set (r := (check _ _ _ _).1).
  assert (Hr : r = {| buckets := {[key := {| tokens := f64_of 9; updated := used |}]};
    rate_per_sec := f64_one; rl_burst := f64_of 10; max_entries := 1 |}).
  { unfold r, check. cbn [RateLimiter_new rate_per_sec rl_burst].
    unfold admit_key, RateLimiter_new. cbn [buckets max_entries rate_per_sec rl_burst]. rewrite lookup_empty.
    cbn [set_buckets buckets]. change (size ∅) with 0%nat. cbn [Nat.leb]. cbn [set_buckets buckets].
    rewrite lookup_insert_eq. cbn [tokens updated]. rewrite insert_insert_eq. by vm_compute. }
  cbv zeta. rewrite Hr. cbn [buckets]. rewrite map_size_singleton. split; [done|]. unfold prune. cbn [buckets max_entries].
  rewrite map_size_singleton. cbn [Nat.ltb Nat.leb]. unfold set_buckets. f_equal.
  apply map_filter_id. intros k b [<- <-]%lookup_singleton_Some. cbn [tokens rl_burst].
  replace (SFleb (f64_of 10) (f64_of 9)) with false by done. by rewrite andb_false_r.
Qed.

Definition demo_checks : list (list text * text * Z) :=
  [([], str "a", 0); ([str "a"], str "b", 1); ([str "a"; str "b"], str "c", 2)].

Lemma limiter_table_bounded_witness :
  walks demo_checks (RateLimiter_new 60 10 2) ∧
  (size (checks demo_checks
           (RateLimiter_new 60 10 2)).1.(buckets) ≤ Nat.max 1 2)%nat.
Proof.
  assert (Hw : walks demo_checks (RateLimiter_new 60 10 2)).
  { unfold demo_checks. cbn [walks]. split_and!; [| | |done].
    - by intros k [x Hx].
    - intros k [x Hx]. revert Hx. destruct (decide (k = str "a")) as [->|Hk]; [by left|].
      assert (Hm : ∃ b, (check [] (str "a") 0 (RateLimiter_new 60 10 2)).1.(buckets) = <[str "a" := b]> ∅) by (eexists; by vm_compute).
      destruct Hm as [b ->]. by rewrite lookup_insert_ne.
    - intros k [x Hx]. revert Hx.
      assert (Hm : ∃ b c, (check [str "a"] (str "b") 1 (check [] (str "a") 0 (RateLimiter_new 60 10 2)).1).1.(buckets)
                          = <[str "a" := b]> (<[str "b" := c]> ∅)) by (eexists _, _; by vm_compute).
      destruct Hm as (b & c & ->). destruct (decide (k = str "a")) as [->|Ha]; [by left|].
      destruct (decide (k = str "b")) as [->|Hb]; [by right; left|]. by rewrite !lookup_insert_ne. }
  split; [exact Hw|]. exact (limiter_table_bounded 60 10 2 _ Hw).
Defined.

Lemma burst_then_refused_witness :
  (checks (replicate (10 + 2) ([], str "203.0.113.7", 5)) (RateLimiter_new DEFAULT_TS2021_RATE_PER_MIN DEFAULT_TS2021_BURST DEFAULT_MAX_RATE_KEYS)).2
  = replicate 10 None ++ replicate 2 (Some 1).
Proof.
  exact (burst_then_refused [] (str "203.0.113.7") 5
    (RateLimiter_new DEFAULT_TS2021_RATE_PER_MIN DEFAULT_TS2021_BURST DEFAULT_MAX_RATE_KEYS) 10 2
    ltac:(by vm_compute) eq_refl ltac:(lia) eq_refl).
Defined.
