(* ===== verification/Upgrade.v ===== *)
(** * Entering TS2021 ([crabscale-transport/src/upgrade.rs], [early.rs], [http2.rs])

    The checks of the HTTP upgrade that carries the first handshake message, the
    payload the server sends before HTTP/2, and the bounded read of a request body.
    Base64 and the JSON of the payload are libraries. *)

From S2P Require Import Prelude Text StreamDecoder TransportRecord.

Definition UPGRADE_HEADER_VALUE : text := str "tailscale-control-protocol".
Definition HANDSHAKE_HEADER : text := str "x-tailscale-handshake".

(** [STANDARD.decode] and [STANDARD.encode] *)
Class Base64 : Type := {
  b64_decode : text → option bytes;
  b64_encode : bytes → text;
  b64_decode_encode b : wf_bytes b → b64_decode (b64_encode b) = Some b;
  (** The alphabet has no white space. *)
  b64_trim b : wf_bytes b → trim (b64_encode b) = b64_encode b }.

(** [serde_json] on the [EarlyNoise] record, whose only field is the challenge. *)
Class EarlyJson : Type := {
  early_to_json : bytes → option bytes;
  early_from_json : bytes → option bytes;
  early_json_roundtrip c json : early_to_json c = Some json → early_from_json json = Some c }.

(** ** The upgrade *)

Section upgrade.
  Context `{Base64}.

Definition decode_handshake (encoded : text) : result bytes TransportError :=
  match b64_decode (trim encoded) with
  | None => Err InvalidUpgradeRequest
  | Some bytes => if negb (zlen bytes =? INIT_MESSAGE_LEN) then Err InvalidInitMessage else Ok bytes
  end.

(** [eq_ignore_ascii_case] *)
Definition eq_ignore_case (a b : text) : bool :=
  bool_decide (map to_ascii_lowercase a = map to_ascii_lowercase b).

Definition validate_native_upgrade (method : text) (upgrade connection handshake : option text)
    : result bytes TransportError :=
  fail_if negb (bool_decide (method = str "POST")) with InvalidUpgradeRequest ;;
  fail_if negb (bool_decide (map to_ascii_lowercase <$> upgrade = Some UPGRADE_HEADER_VALUE)) with InvalidUpgradeRequest ;;
  let connection_ok :=
    match connection with
    | Some v => existsb (λ part, eq_ignore_case (trim part) (str "upgrade")) (split 44 v)
    | None => false
    end in
  fail_if negb connection_ok with InvalidUpgradeRequest ;;
  match handshake with
  | None => Err InvalidUpgradeRequest
  | Some handshake => decode_handshake handshake
  end.

Definition validate_websocket_upgrade (subprotocol handshake : option text) : result bytes TransportError :=
  fail_if negb (bool_decide (subprotocol = Some UPGRADE_HEADER_VALUE)) with UnsupportedSubprotocol ;;
  match handshake with
  | None => Err InvalidUpgradeRequest
  | Some handshake => decode_handshake handshake
  end.

End upgrade.

(** ** The early payload *)

(** [0xFF 0xFF 0xFF 'T' 'S'] *)
Definition EARLY_PAYLOAD_MAGIC : bytes := [0xFF; 0xFF; 0xFF; 84; 83].

Section early.
  Context `{EarlyJson}.

Definition encode_early_payload (challenge : bytes) : result bytes TransportError :=
  match early_to_json challenge with
  | None => Err InvalidEarlyPayload
  | Some json =>
      fail_if MAX_EARLY_PAYLOAD_LEN <? zlen json with EarlyPayloadTooLarge ;;
      Ok (EARLY_PAYLOAD_MAGIC ++ to_be 4 (wrap 32 (zlen json)) ++ json)
  end.

Definition decode_early_payload (buf : bytes) : result bytes TransportError :=
  fail_if zlen buf <? 9 with TTruncated ;;
  fail_if negb (bool_decide (slice 0 5 buf = EARLY_PAYLOAD_MAGIC)) with InvalidEarlyPayload ;;
  let len := from_be (slice 5 9 buf) in
  fail_if MAX_EARLY_PAYLOAD_LEN <? len with EarlyPayloadTooLarge ;;
  fail_if zlen buf <? 9 + len with TTruncated ;;
  match early_from_json (slice 9 (9 + len) buf) with
  | None => Err InvalidEarlyPayload
  | Some challenge => Ok challenge
  end.

End early.

(** ** Request bodies *)

Definition MAX_INNER_BODY_LEN : Z := 1024 * 1024.

(** [read_body_limited] over the chunks the peer sends; a chunk that fails is an
    error of the library. *)
Fixpoint read_chunks (limit : Z) (chunks : list (option bytes)) (out : bytes) : result bytes TransportError :=
  match chunks with
  | [] => Ok out
  | None :: _ => Err Http2
  | Some chunk :: chunks =>
      if limit <? zlen out + zlen chunk then Err BodyTooLarge else read_chunks limit chunks (out ++ chunk)
  end.

Definition read_body_limited (chunks : list (option bytes)) (limit : Z) : result bytes TransportError :=
  read_chunks limit chunks [].

(** ** Lemmas *)

(** The requests that are let through: the header of a client and any other that says
    the same. *)
Lemma native_upgrade_ok `{Base64} method upgrade connection handshake init :
  validate_native_upgrade method upgrade connection handshake = Ok init ↔
  method = str "POST" ∧ (∃ u, upgrade = Some u ∧ map to_ascii_lowercase u = UPGRADE_HEADER_VALUE)
  ∧ (∃ c part, connection = Some c ∧ part ∈ split 44 c ∧ eq_ignore_case (trim part) (str "upgrade") = true)
  ∧ (∃ h, handshake = Some h ∧ b64_decode (trim h) = Some init ∧ zlen init = INIT_MESSAGE_LEN).
Proof.
  unfold validate_native_upgrade, decode_handshake. case_bool_decide as Hm; cbn [negb]; [|naive_solver].
  case_bool_decide as Hu; cbn [negb].
  2: { split; [done|]. intros (_ & (u & -> & Hl) & _). exfalso. apply Hu. cbn. by rewrite Hl. }
  apply fmap_Some in Hu as (u & -> & Hu).
  set (ok := match connection with Some v => _ | None => false end). destruct ok eqn:Hok; cbn [negb].
  2: { split; [done|]. intros (_ & _ & (c & part & -> & Hp & Hq) & _). unfold ok in Hok. rewrite <- not_true_iff_false in Hok.
       exfalso. apply Hok, existsb_exists. exists part. split; [by apply list_elem_of_In|done]. }
  assert (Hc : ∃ c part, connection = Some c ∧ part ∈ split 44 c ∧ eq_ignore_case (trim part) (str "upgrade") = true).
  { unfold ok in Hok. destruct connection as [c|]; [|done]. apply existsb_exists in Hok as (part & Hp & Hq).
    exists c, part. split; [done|]. split; [by apply list_elem_of_In|done]. }
  destruct handshake as [h|]; [|split; [done|]; by intros (_ & _ & _ & h & [=] & _)].
  destruct (b64_decode (trim h)) as [b|] eqn:Hb; [|split; [done|]; intros (_ & _ & _ & h' & [= <-] & Hx & _); congruence].
  destruct (Z.eqb_spec (zlen b) INIT_MESSAGE_LEN) as [Hl|Hl]; cbn [negb].
  - split.
    + intros [= <-]. split_and!; [done|by exists u|done|by exists h].
    + intros (_ & _ & _ & h' & [= <-] & Hx & _). congruence.
  - split; [done|]. intros (_ & _ & _ & h' & [= <-] & Hx & Hz). congruence.
Qed.

(** The early payload is read back, whatever follows it. *)
Lemma early_payload_roundtrip `{EarlyJson} challenge payload rest :
  encode_early_payload challenge = Ok payload → decode_early_payload (payload ++ rest) = Ok challenge.
Proof.
  unfold encode_early_payload. destruct (early_to_json challenge) as [json|] eqn:Hj; [|done].
  destruct (Z.ltb_spec MAX_EARLY_PAYLOAD_LEN (zlen json)) as [|Hl]; [done|]. intros Hp.
  assert (payload = EARLY_PAYLOAD_MAGIC ++ to_be 4 (wrap 32 (zlen json)) ++ json) as -> by congruence. clear Hp.
  pose proof (zlen_nonneg json) as Hn. pose proof (zlen_nonneg rest) as Hr.
  unfold MAX_EARLY_PAYLOAD_LEN in *. unfold decode_early_payload, wrap. rewrite (Z.mod_small (zlen json)) by (change (2 ^ 32) with 4294967296; lia).
  set (head := EARLY_PAYLOAD_MAGIC ++ to_be 4 (zlen json)).
  assert (Hhead : zlen head = 9) by (unfold head; by rewrite zlen_app, zlen_to_be).
  assert (Hbuf : (EARLY_PAYLOAD_MAGIC ++ to_be 4 (zlen json) ++ json) ++ rest = head ++ json ++ rest).
  { unfold head. by rewrite <- !app_assoc. }
  rewrite Hbuf. assert (Hlen : zlen (head ++ json ++ rest) = 9 + zlen json + zlen rest) by (rewrite (zlen_app head), (zlen_app json); lia).
  rewrite Hlen. rewrite (proj2 (Z.ltb_ge (9 + zlen json + zlen rest) 9)) by lia.
  assert (Hmagic : slice 0 5 (head ++ json ++ rest) = EARLY_PAYLOAD_MAGIC) by done.
  rewrite Hmagic, bool_decide_eq_true_2 by done. cbn [negb].
  assert (Hfield : slice 5 9 (head ++ json ++ rest) = to_be 4 (zlen json)) by (unfold head; by rewrite <- app_assoc).
  rewrite Hfield, from_to_be_small by (cbn; lia).
  rewrite (proj2 (Z.ltb_ge MAX_EARLY_PAYLOAD_LEN (zlen json))) by (unfold MAX_EARLY_PAYLOAD_LEN; lia).
  rewrite (proj2 (Z.ltb_ge (9 + zlen json + zlen rest) (9 + zlen json))) by lia.
  rewrite (slice_app_mid 9 (9 + zlen json) head json rest) by (rewrite ?Hhead; lia). by rewrite (early_json_roundtrip challenge json Hj).
Qed.

(** A body is read whole, or it is longer than the limit or broken. *)
Lemma read_body_exact chunks limit :
  0 ≤ limit →
  match read_body_limited chunks limit with
  | Ok body => Forall is_Some chunks ∧ body = concat (omap id chunks) ∧ zlen body ≤ limit
  | Err BodyTooLarge => ∃ before after, chunks = before ++ after ∧ limit < zlen (concat (omap id before))
  | Err _ => None ∈ chunks
  end.
Proof.
  intros Hlimit. unfold read_body_limited.
  assert (Hgen : ∀ chunks out, zlen out ≤ limit →
    match read_chunks limit chunks out with
    | Ok body => Forall is_Some chunks ∧ body = out ++ concat (omap id chunks) ∧ zlen body ≤ limit
    | Err BodyTooLarge => ∃ before after, chunks = before ++ after ∧ limit < zlen (out ++ concat (omap id before))
    | Err _ => None ∈ chunks
    end); [|by apply (Hgen chunks [])].
  clear chunks. induction chunks as [|[chunk|] chunks IH]; intros out Ho; cbn [read_chunks].
  - rewrite app_nil_r. split; [constructor|done].
  - destruct (Z.ltb_spec limit (zlen out + zlen chunk)) as [Hbig|Hfits].
    + exists [Some chunk], chunks. split; [done|]. cbn. by rewrite app_nil_r, zlen_app.
    + specialize (IH (out ++ chunk) ltac:(rewrite zlen_app; lia)). destruct (read_chunks limit chunks (out ++ chunk)) as [body|e].
      * destruct IH as (H1 & H2 & H3). split; [by constructor|]. split; [|done]. cbn. by rewrite H2, <- app_assoc.
      * assert (Hno : None ∈ chunks → None ∈ Some chunk :: chunks) by (intros; by right).
        destruct e; try (by apply Hno). destruct IH as (before & after & -> & Hl). exists (Some chunk :: before), after.
        split; [done|]. cbn. by rewrite <- app_assoc in Hl.
  - by left.
Qed.
