(* ===== verification/TransportAwait.v ===== *)
(** * The awaited calls of the Noise stream ([crabscale-transport/src/stream.rs], [http2.rs])

    [NoiseStream::write_all] and [read_exact] are methods of their own, beside the
    polls of [TransportStream]: a task that awaits one is polled again whenever the
    transport wakes it, so a [Pending] answer of the script is passed over, and a call
    that is still waiting when the script ends is [Pending].  [serve_http2] is the
    server's use of the stream. *)

From S2P Require Import Prelude Text StreamDecoder TransportRecord TransportStream Upgrade.

(** ** The transport, awaited *)

(** [inner.read(&mut chunk).await] *)
Fixpoint await_read (n : Z) (inp : list read_answer) : list read_answer * poll (option bytes) :=
  match inp with
  | [] => ([], Pending)
  | RPending :: r => await_read n r
  | RFail :: r => (r, Ready None)
  | RData b :: r => (if zlen b <=? n then r else RData (zdrop n b) :: r, Ready (Some (ztake n b)))
  end.

(** [inner.write_all(buf).await], as tokio documents it: writes until nothing is left,
    an error ends it, and so does a write that takes nothing.  What is on the wire is
    the second component. *)
Fixpoint await_write_all (acc : list write_answer) (out buf : bytes)
    : list write_answer * bytes * poll (result unit stream_error) :=
  match buf with
  | [] => (acc, out, Ready (Ok tt))
  | _ =>
      match acc with
      | [] => ([], out, Pending)
      | WPending :: acc => await_write_all acc out buf
      | WFail :: acc => (acc, out, Ready (Err InnerError))
      | WAccept k :: acc =>
          let n := Z.min (Z.max 0 k) (zlen buf) in
          if n =? 0 then (acc, out, Ready (Err WriteZero))
          else await_write_all acc (out ++ ztake n buf) (zdrop n buf)
      end
  end.

(** What bounds the reads of a script. *)
Fixpoint script_weight (inp : list read_answer) : nat :=
  match inp with
  | [] => 0
  | RData b :: r => S (length b) + script_weight r
  | _ :: r => S (script_weight r)
  end.

Section stream.
  Context `{Aead}.

Definition NoiseStream_write_all (data : bytes) (s : NoiseStream) : NoiseStream * poll (result unit stream_error) :=
  match RecordCipher_encode s.(writer) data with
  | None => (s, Ready (Err (Record_ Panicked)))
  | Some (w, framed) =>
      let '(acc, out, r) := await_write_all s.(inner_accepts) s.(inner_out) framed in
      (with_write s acc out w s.(write_buf) s.(write_pos) s.(write_acked), r)
  end.

(** The loop of [NoiseStream_read_exact]: [want] bytes are missing.  A turn hands out a byte or
    takes something off the script. *)
Fixpoint read_exact_loop (fuel : nat) (want : Z) (s : NoiseStream) : NoiseStream * poll (result bytes stream_error) :=
  match fuel with
  | O => (s, Pending)
  | S fuel =>
      if want <=? 0 then (s, Ready (Ok []))
      else if s.(read_pos) <? zlen s.(read_buf) then
        let '(s', out) := take_unread s want in
        let '(s'', r) := read_exact_loop fuel (want - zlen out) s' in
        (s'', match r with Ready (Ok more) => Ready (Ok (out ++ more)) | other => other end)
      else
        let '(inp, ans) := await_read READ_CHUNK s.(inner_in) in
        match ans with
        | Pending => (with_read s inp s.(reader) [] 0, Pending)
        | Ready None => (with_read s inp s.(reader) [] 0, Ready (Err InnerError))
        | Ready (Some chunk) =>
            if zlen chunk =? 0 then (with_read s inp s.(reader) [] 0, Ready (Err UnexpectedEof))
            else
              match RecordDecoder_feed s.(reader) chunk with
              | (rd, Err e) => (with_read s inp rd [] 0, Ready (Err (Record_ e)))
              | (rd, Ok plaintext) => read_exact_loop fuel want (with_read s inp rd plaintext 0)
              end
        end
  end.

Definition NoiseStream_read_exact (want : Z) (s : NoiseStream) : NoiseStream * poll (result bytes stream_error) :=
  read_exact_loop (S (Z.to_nat want + script_weight s.(inner_in))) want s.

(** Several calls in sequence. *)
Fixpoint write_alls (ws : list bytes) (s : NoiseStream) : NoiseStream * poll (result unit stream_error) :=
  match ws with
  | [] => (s, Ready (Ok tt))
  | w :: ws => match NoiseStream_write_all w s with (s', Ready (Ok tt)) => write_alls ws s' | other => other end
  end.

Fixpoint read_exacts (lens : list Z) (s : NoiseStream) : NoiseStream * poll (result (list bytes) stream_error) :=
  match lens with
  | [] => (s, Ready (Ok []))
  | n :: lens =>
      match NoiseStream_read_exact n s with
      | (s', Ready (Ok out)) =>
          let '(s'', r) := read_exacts lens s' in
          (s'', match r with Ready (Ok outs) => Ready (Ok (out :: outs)) | other => other end)
      | (s', Ready (Err e)) => (s', Ready (Err e))
      | (s', Pending) => (s', Pending)
      end
  end.

End stream.

(** ** The server *)

(** [serve_http2]: the early payload, the handshake of the h2 library, and the requests
    its connection gives; each that is accepted is handed to the handler, with the
    machine key of the connection, whatever comes after.  The requests handed over, and
    how it ends. *)
Fixpoint accept_loop {Req : Type} (machine_key : bytes) (accepts : list (option Req))
    : list (Req * bytes) * result unit TransportError :=
  match accepts with
  | [] => ([], Ok tt)
  | None :: _ => ([], Err Http2)
  | Some request :: accepts => let '(l, r) := accept_loop machine_key accepts in ((request, machine_key) :: l, r)
  end.

Definition serve_http2 `{Aead, EarlyJson} {Req : Type} (machine_key challenge : bytes)
    (connection : option (list (option Req))) (s : NoiseStream)
    : NoiseStream * poll (list (Req * bytes) * result unit TransportError) :=
  match encode_early_payload challenge with
  | Err e => (s, Ready ([], Err e))
  | Ok early =>
      match NoiseStream_write_all early s with
      | (s', Pending) => (s', Pending)
      | (s', Ready (Err _)) => (s', Ready ([], Err Http2))
      | (s', Ready (Ok tt)) =>
          (s', Ready (match connection with
                      | None => ([], Err Http2)
                      | Some accepts => accept_loop machine_key accepts
                      end))
      end
  end.

(** ** Lemmas *)

(** The bytes the transport is going to deliver: up to its end, or a failure. *)
Fixpoint script_bytes (inp : list read_answer) : bytes :=
  match inp with
  | RData (x :: b) :: r => (x :: b) ++ script_bytes r
  | RPending :: r => script_bytes r
  | _ => []
  end.

Lemma inner_poll_read_spec n inp inp' ans :
  0 < n → inner_poll_read n inp = (inp', ans) →
  match ans with
  | Ready (Some (x :: b)) =>
      script_bytes inp = (x :: b) ++ script_bytes inp' ∧ (script_weight inp' < script_weight inp)%nat ∧ zlen (x :: b) ≤ n
  | Pending => script_bytes inp' = script_bytes inp ∧ (inp = [] ∨ (script_weight inp' < script_weight inp)%nat)
  | _ => script_bytes inp = []
  end.
Proof.
  intros Hn. destruct inp as [|[b| |] inp]; cbn [inner_poll_read]; [by intros [= <- <-]; auto| |by intros [= <- <-]|].
  2: { intros [= <- <-]. split; [done|]. right. cbn. lia. }
  intros [= <- <-]. destruct b as [|x b]; [by unfold ztake; rewrite take_nil|].
  assert (Ht : ztake n (x :: b) = x :: ztake (n - 1) b).
  { unfold ztake. by replace (Z.to_nat n) with (S (Z.to_nat (n - 1))) by lia. }
  rewrite Ht. destruct (Z.leb_spec (zlen (x :: b)) n) as [Hle|Hgt].
  - assert (Ha : ztake n (x :: b) = x :: b) by (unfold ztake, zlen in *; apply firstn_all2; lia).
    rewrite <- Ht, Ha. cbn [script_bytes script_weight]. split_and!; [done|lia|done].
  - rewrite <- Ht, zlen_take by lia. destruct (zdrop n (x :: b)) as [|y d] eqn:Hd; pose proof Hd as Hl;
      apply (f_equal length) in Hl; unfold zdrop, zlen in Hl, Hgt; rewrite length_drop in Hl; cbn [length] in Hl, Hgt; [lia|].
    split_and!; [|cbn [script_weight length]; lia|done]. cbn [script_bytes]. by rewrite <- Hd, app_assoc, ztake_zdrop.
Qed.

Lemma await_read_spec n inp inp' ans :
  0 < n → await_read n inp = (inp', ans) →
  match ans with
  | Ready (Some (x :: b)) =>
      script_bytes inp = (x :: b) ++ script_bytes inp' ∧ (script_weight inp' < script_weight inp)%nat
  | _ => script_bytes inp = []
  end.
Proof.
  intros Hn. induction inp as [|a inp IH]; [by intros [= <- <-]|].
  assert (Hpoll : a ≠ RPending → await_read n (a :: inp) = inner_poll_read n (a :: inp)) by by destruct a.
  destruct a as [b| |].
  1,2: rewrite Hpoll by done; intros Ha; pose proof Ha as Hb; apply inner_poll_read_spec in Ha; [|done];
    destruct ans as [[[|y d]|]|]; try tauto; by injection Hb.
  intros Ha. apply IH in Ha. cbn [script_weight]. destruct ans as [[[|x b]|]|]; try done.
  destruct Ha as [? ?]. split; [done|lia].
Qed.

Section read.
  Context `{Aead}.

(** A decoder that is fed piece by piece. *)
Lemma RecordDecoder_feed_app st d1 d2 :
  (RecordDecoder_feed st (d1 ++ d2)).2
  = match RecordDecoder_feed st d1 with
    | (st1, Ok o1) => rmap (app o1) (RecordDecoder_feed st1 d2).2
    | (_, Err e) => Err e
    end.
Proof.
  unfold RecordDecoder_feed. rewrite feed_app. destruct (feed st d1) as [st1 [o1|e]]; [|done].
  cbn [rmap]. destruct (feed st1 d2) as [st2 [o2|e]]; [|done]. cbn. by rewrite concat_app.
Qed.

(** What is still to be read: the bytes at hand and the plaintext of all that comes. *)
Definition plaintext_left (s : NoiseStream) : result bytes fault :=
  rmap (app (unread s)) (RecordDecoder_feed s.(reader) (script_bytes s.(inner_in))).2.

Lemma rmap_nil (r : result bytes fault) : rmap (app []) r = r.
Proof. by destruct r. Qed.

Lemma rmap_app (a b : bytes) (r : result bytes fault) : rmap (app (a ++ b)) r = rmap (app a) (rmap (app b) r).
Proof. destruct r; [|done]. cbn. by rewrite app_assoc. Qed.

Lemma nothing_left s :
  drained (SD := RecordDecoder) s.(reader) → unread s = [] → script_bytes s.(inner_in) = [] → plaintext_left s = Ok [].
Proof.
  intros Hd Hu Hs. unfold plaintext_left, RecordDecoder_feed. by rewrite Hu, Hs, feed_nil.
Qed.

Lemma read_exact_loop_spec fuel want s s' r :
  read_inv s → drained (SD := RecordDecoder) s.(reader) → 0 ≤ want →
  (Z.to_nat want + script_weight s.(inner_in) < fuel)%nat → read_exact_loop fuel want s = (s', r) →
  match r with
  | Ready (Ok out) => zlen out = want ∧ plaintext_left s = rmap (app out) (plaintext_left s')
                      ∧ read_inv s' ∧ drained (SD := RecordDecoder) s'.(reader)
  | _ => ∀ pt, plaintext_left s = Ok pt → zlen pt < want
  end.
Proof.
  revert want s s' r. induction fuel as [|fuel IH]; intros want s s' r Hr Hd Hw Hf; [lia|]. cbn [read_exact_loop].
  destruct (Z.leb_spec want 0) as [Hz|Hz].
  { intros [= <- <-]. rewrite rmap_nil. split_and!; [unfold zlen; cbn; lia|done..]. }
  destruct (Z.ltb_spec (read_pos s) (zlen (read_buf s))) as [Hlt|Hge].
  - destruct (take_unread s want) as [s1 out] eqn:Ht.
    apply take_unread_spec in Ht as (Hr1 & Hu & Hlen & Hrd & Hin & Hne); [|done|lia].
    assert (Hout : out ≠ []).
    { apply Hne; [done|]. intros E%(f_equal zlen). unfold unread in E. unfold read_inv in Hr.
      rewrite zlen_drop in E by lia. change (zlen []) with 0 in E. lia. }
    assert (0 < zlen out) by (destruct out; [done|]; rewrite zlen_cons; pose proof (zlen_nonneg out); lia).
    destruct (read_exact_loop fuel (want - zlen out) s1) as [s2 r2] eqn:E. intros [= <- <-].
    apply IH in E; [|done|by rewrite Hrd|lia|rewrite Hin; lia].
    assert (Hp : plaintext_left s = rmap (app out) (plaintext_left s1)).
    { unfold plaintext_left. by rewrite Hrd, Hin, <- rmap_app, Hu. }
    rewrite Hp. destruct r2 as [[more|e]|].
    + destruct E as (El & -> & Er & Ed). rewrite zlen_app, <- rmap_app. split_and!; [lia|done..].
    + intros pt. destruct (plaintext_left s1) as [q|]; [|done]. intros [= <-]. specialize (E q eq_refl). rewrite zlen_app. lia.
    + intros pt. destruct (plaintext_left s1) as [q|]; [|done]. intros [= <-]. specialize (E q eq_refl). rewrite zlen_app. lia.
  - assert (Hu : unread s = []) by (unfold unread, read_inv in *; apply zdrop_all; lia).
    destruct (await_read READ_CHUNK (inner_in s)) as [inp ans] eqn:Ha. apply await_read_spec in Ha; [|done].
    destruct ans as [[[|x b]|]|]; cbn [zlen length Z.of_nat Z.eqb].
    + intros [= <- <-] pt. rewrite nothing_left by done. intros [= <-]. done.
    + destruct Ha as [Hs Hwt]. assert ((zlen (x :: b) =? 0) = false) as ->.
      { rewrite zlen_cons. pose proof (zlen_nonneg b). lia. }
      pose proof (RecordDecoder_feed_app (reader s) (x :: b) (script_bytes inp)) as Hfeed. rewrite <- Hs in Hfeed.
      destruct (RecordDecoder_feed (reader s) (x :: b)) as [rd [pt|e]] eqn:Hfd.
      * intros E.
        assert (Hd' : drained (SD := RecordDecoder) rd).
        { unfold RecordDecoder_feed in Hfd. destruct (feed (reader s) (x :: b)) as [st [o|]] eqn:Hx; [|done].
          injection Hfd as <- _. by eapply feed_drained. }
        apply IH in E; cbn [with_read reader inner_in]; [|split; [done|apply zlen_nonneg]|done..|lia].
        assert (Hp : plaintext_left s = plaintext_left (with_read s inp rd pt 0)).
        { unfold plaintext_left, unread at 2. cbn [with_read reader inner_in read_pos read_buf].
          by rewrite zdrop_0, Hu, rmap_nil, Hfeed. }
        by rewrite Hp.
      * intros [= <- <-] q. unfold plaintext_left. by rewrite Hfeed.
    + intros [= <- <-] pt. rewrite nothing_left by done. intros [= <-]. done.
    + intros [= <- <-] pt. rewrite nothing_left by done. intros [= <-]. done.
Qed.

(** A call hands out the next bytes and leaves the rest, or fewer are left than it
    asks for; so it returns as soon as the bytes are there. *)
Lemma read_exact_spec want s s' r :
  read_inv s → drained (SD := RecordDecoder) s.(reader) → 0 ≤ want → NoiseStream_read_exact want s = (s', r) →
  match r with
  | Ready (Ok out) => zlen out = want ∧ plaintext_left s = rmap (app out) (plaintext_left s')
                      ∧ read_inv s' ∧ drained (SD := RecordDecoder) s'.(reader)
  | _ => ∀ pt, plaintext_left s = Ok pt → zlen pt < want
  end.
Proof. intros Hr Hd Hw. apply read_exact_loop_spec; [done..|lia]. Qed.

(** [NoiseStream_read_exact] on a stream that has [pt] left. *)
Lemma read_exact_takes want s pt :
  read_inv s → drained (SD := RecordDecoder) s.(reader) → 0 ≤ want ≤ zlen pt → plaintext_left s = Ok pt →
  ∃ s', NoiseStream_read_exact want s = (s', Ready (Ok (ztake want pt))) ∧ plaintext_left s' = Ok (zdrop want pt)
        ∧ read_inv s' ∧ drained (SD := RecordDecoder) s'.(reader).
Proof.
  intros Hr Hd Hw Hp. destruct (NoiseStream_read_exact want s) as [s' r] eqn:E. pose proof E as E'.
  apply read_exact_spec in E; [|done..|lia]. exists s'.
  destruct r as [[out|e]|]; [|specialize (E pt Hp); lia..].
  destruct E as (Hl & Hpl & Hr' & Hd'). rewrite Hp in Hpl.
  destruct (plaintext_left s') as [q|]; [|done]. cbn in Hpl. injection Hpl as ->.
  rewrite <- Hl, ztake_app, zdrop_app by done. by split_and!.
Qed.

Lemma read_exacts_takes lens s pt :
  read_inv s → drained (SD := RecordDecoder) s.(reader) → Forall (λ n, 0 ≤ n) lens →
  foldr Z.add 0 lens = zlen pt → plaintext_left s = Ok pt →
  ∃ s' outs, read_exacts lens s = (s', Ready (Ok outs)) ∧ concat outs = pt ∧ map zlen outs = lens
             ∧ plaintext_left s' = Ok [].
Proof.
  intros Hr Hd Hl. revert s pt Hr Hd. induction Hl as [|n lens Hn Hl IH]; intros s pt Hr Hd Hs Hp; cbn [foldr] in Hs.
  { assert (pt = []) as -> by (destruct pt; [done|]; rewrite zlen_cons in Hs; pose proof (zlen_nonneg pt); lia).
    by exists s, []. }
  assert (0 ≤ foldr Z.add 0 lens) by (clear -Hl; induction Hl; cbn; lia).
  destruct (read_exact_takes n s pt) as (s1 & E & Hp1 & Hr1 & Hd1); [done..|lia|done|].
  destruct (IH s1 (zdrop n pt) Hr1 Hd1) as (s2 & outs & E2 & Hc & Hz & Hp2); [rewrite zlen_drop; lia|done|].
  exists s2, (ztake n pt :: outs). cbn [read_exacts]. rewrite E, E2. split; [done|]. cbn [concat map].
  rewrite Hc, ztake_zdrop, Hz, zlen_take by lia. done.
Qed.

(** *** Writing *)

Lemma await_write_all_spec acc out buf acc' out' r :
  await_write_all acc out buf = (acc', out', r) →
  ∃ written left, buf = written ++ left ∧ out' = out ++ written ∧ (r = Ready (Ok tt) ↔ left = []).
Proof.
  revert out buf. induction acc as [|a acc IH]; intros out buf; destruct buf as [|x buf]; cbn [await_write_all].
  1,3: intros [= <- <- <-]; exists [], []; rewrite !app_nil_r; by repeat split.
  - intros [= <- <- <-]. exists [], (x :: buf). by rewrite app_nil_r.
  - destruct a as [k| |].
    + set (n := Z.min _ _). destruct (Z.eqb_spec n 0) as [Hn|Hn].
      { intros [= <- <- <-]. exists [], (x :: buf). by rewrite app_nil_r. }
      intros (w & l & Hb & -> & Hr)%IH. exists (ztake n (x :: buf) ++ w), l.
      rewrite <- !app_assoc, <- Hb, ztake_zdrop. done.
    + intros [= <- <- <-]. exists [], (x :: buf). by rewrite app_nil_r.
    + apply IH.
Qed.

Lemma write_all_ok data s s' :
  NoiseStream_write_all data s = (s', Ready (Ok tt)) →
  ∃ framed, RecordCipher_encode s.(writer) data = Some (s'.(writer), framed) ∧ s'.(inner_out) = s.(inner_out) ++ framed.
Proof.
  unfold NoiseStream_write_all. destruct (RecordCipher_encode (writer s) data) as [[w framed]|]; [|done].
  destruct (await_write_all _ _ _) as [[acc out] r] eqn:E. intros [= <- ->].
  apply await_write_all_spec in E as (written & l & Hb & -> & Hr). rewrite (proj1 Hr eq_refl), app_nil_r in Hb.
  exists framed. by subst.
Qed.

Lemma write_alls_ok ws s s' :
  write_alls ws s = (s', Ready (Ok tt)) →
  ∃ framed, encode_all s.(writer) ws = Some (s'.(writer), framed) ∧ s'.(inner_out) = s.(inner_out) ++ framed.
Proof.
  revert s. induction ws as [|w ws IH]; intros s; cbn [write_alls].
  { intros [= <-]. exists []. by rewrite app_nil_r. }
  destruct (NoiseStream_write_all w s) as [s1 [[[]|]|]] eqn:E; try done.
  intros (f2 & E2 & Ho2)%IH. apply write_all_ok in E as (f1 & E1 & Ho1).
  exists (f1 ++ f2). cbn. rewrite E1. cbn. rewrite E2. cbn. split; [done|]. by rewrite Ho2, Ho1, app_assoc.
Qed.

(** The plaintext of what the other end wrote. *)
Lemma feed_of_writes c ws c' frames :
  encode_all c ws = Some (c', frames) → RecordDecoder_feed (c, []) frames = ((c', []), Ok (concat ws)).
Proof.
  intros (l & Hl & Hc)%encode_all_encodes. unfold RecordDecoder_feed, feed. cbn [fst snd app].
  assert (Hn : drain (SD := RecordDecoder) c' [] = ((c', []), Ok [])) by by rewrite drain_eq.
  rewrite <- (app_nil_r frames), (drain_encoded _ _ _ _ _ Hl), Hn. cbn [rmap snd]. by rewrite app_nil_r, Hc.
Qed.

Lemma feed_of_write c w c' frames :
  RecordCipher_encode c w = Some (c', frames) → RecordDecoder_feed (c, []) frames = ((c', []), Ok w).
Proof.
  intros He. rewrite <- (app_nil_r w). apply (feed_of_writes c [w]). cbn [encode_all mbind option_bind].
  rewrite He. cbn [mbind option_bind]. by rewrite app_nil_r.
Qed.

Lemma plaintext_of_writes c ws c' t :
  encode_all c ws = Some (c', script_bytes t.(inner_in)) → t.(reader) = (c, []) → unread t = [] →
  plaintext_left t = Ok (concat ws).
Proof. intros He Hr Hu. unfold plaintext_left. by rewrite Hu, Hr, rmap_nil, (feed_of_writes _ _ _ _ He). Qed.

End read.

(** ** A channel *)

(** What one end writes in awaited calls the other end reads in awaited calls, of other
    sizes: a reader that begins in the writer's cipher state, on a transport that
    delivers what the writer put on the wire, cut into any pieces and with any waits
    between them, gets every byte in order, each call as many as it asked for. *)
Theorem write_all_read_exact `{Aead} ws lens s s' t :
  write_alls ws s = (s', Ready (Ok tt)) → s'.(inner_out) = s.(inner_out) ++ script_bytes t.(inner_in) →
  read_inv t → unread t = [] → t.(reader) = (s.(writer), []) →
  Forall (λ n, 0 ≤ n) lens → foldr Z.add 0 lens = zlen (concat ws) →
  ∃ t' outs, read_exacts lens t = (t', Ready (Ok outs)) ∧ concat outs = concat ws ∧ map zlen outs = lens
             ∧ plaintext_left t' = Ok [].
Proof.
  intros (framed & He & Ho)%write_alls_ok Hw Hr Hu Hrd Hl Hs. rewrite Ho in Hw. apply app_inv_head in Hw as ->.
  apply read_exacts_takes; [done|by rewrite Hrd|done..|]. by eapply plaintext_of_writes.
Qed.

Lemma write_all_read_exact_witness :
  let s := NoiseStream_new [] [WPending; WAccept 5; WAccept 100; WAccept 100] [1] [9] in
  let s' := (write_alls (H := demo_aead) [[7; 8]; [5]] s).1 in
  let t := NoiseStream_new [RData [4; 0; 18; 7]; RPending; RData ([8; 0; 9] ++ zeros 14 ++ [4]);
                            RData ([0; 17; 5; 1; 9] ++ zeros 14)] [] [9] [1] in
  ∃ t' outs, read_exacts (H := demo_aead) [1; 0; 2] t = (t', Ready (Ok outs)) ∧ concat outs = [7; 8; 5]
             ∧ map zlen outs = [1; 0; 2] ∧ plaintext_left (H := demo_aead) t' = Ok [].
Proof.
  eapply (write_all_read_exact (H := demo_aead) [[7; 8]; [5]] [1; 0; 2]
    (NoiseStream_new [] [WPending; WAccept 5; WAccept 100; WAccept 100] [1] [9])).
  - vm_compute. reflexivity.
  - by vm_compute.
  - by split.
  - done.
  - done.
  - by repeat constructor.
  - done.
Defined.

(** A server that serves a request has the early payload on the wire first, and hands on
    each request with the machine key of the connection. *)
Lemma serve_http2_writes `{Aead, !EarlyJson} {Req : Type} mk challenge (connection : option (list (option Req)))
    s s' served ended :
  serve_http2 mk challenge connection s = (s', Ready (served, ended)) → served ≠ [] →
  Forall (λ q, q.2 = mk) served
  ∧ ∃ payload framed, encode_early_payload challenge = Ok payload
      ∧ RecordCipher_encode s.(writer) payload = Some (s'.(writer), framed) ∧ s'.(inner_out) = s.(inner_out) ++ framed.
Proof.
  unfold serve_http2. destruct (encode_early_payload challenge) as [payload|e]; [|by intros [= _ <- _]].
  destruct (NoiseStream_write_all payload s) as [s1 [[[]|e]|]] eqn:Ew; [|by intros [= _ <- _]|done].
  destruct connection as [accepts|]; [|by intros [= _ <- _]]. intros Hs Hne. injection Hs as <- Ha. split.
  - clear -Ha. revert served ended Ha. induction accepts as [|[q|] accepts IH]; cbn; intros served ended; [by intros [= <- _]| |by intros [= <- _]].
    destruct (accept_loop mk accepts) as [l r] eqn:E. intros [= <- _]. constructor; [done|]. by eapply IH.
  - apply write_all_ok in Ew as (framed & He & Ho). by exists payload, framed.
Qed.

(** From a connection that delivers what such a server wrote, in any pieces, a client
    that reads as many bytes as the payload has gets the challenge. *)
Lemma early_payload_received `{Aead, !EarlyJson} challenge payload c c' t :
  encode_early_payload challenge = Ok payload → RecordCipher_encode c payload = Some (c', script_bytes t.(inner_in)) →
  read_inv t → unread t = [] → t.(reader) = (c, []) →
  ∃ t', NoiseStream_read_exact (zlen payload) t = (t', Ready (Ok payload)) ∧ decode_early_payload payload = Ok challenge.
Proof.
  intros Ee He Hr Hu Hrd. pose proof (feed_of_write _ _ _ _ He) as Hf.
  assert (Hp : plaintext_left t = Ok payload) by (unfold plaintext_left; by rewrite Hu, Hrd, rmap_nil, Hf).
  destruct (read_exact_takes (zlen payload) t payload) as (t' & E & _);
    [done|by rewrite Hrd|pose proof (zlen_nonneg payload); lia|done|].
  exists t'. rewrite ztake_all in E by lia. split; [done|].
  rewrite <- (app_nil_r payload). by apply early_payload_roundtrip.
Qed.
