(* ===== verification/PolicyModel.v ===== *)
(** * The policy document

    The typed policy of [crabscale-policy/src/model.rs] after parsing, and a
    node as the policy engine sees it.  A [BTreeMap] keyed by strings is a
    finite map; [serde_json::Value] is [Json], whose numbers keep the three
    representations of [serde_json::Number]. *)

From S2P Require Import Prelude Text.

(** ** JSON values *)

Inductive JsonNumber : Type :=
| PosInt (n : Z)
| NegInt (n : Z)
| Float (bits : Z).

#[global] Instance JsonNumber_eq_dec : EqDecision JsonNumber.
Proof. solve_decision. Defined.

Inductive Json : Type :=
| JNull
| JBool (b : bool)
| JNumber (n : JsonNumber)
| JString (s : text)
| JArray (items : list Json)
| JObject (fields : list (text * Json)).

Fixpoint json_eq_dec (a b : Json) {struct a} : {a = b} + {a ≠ b}.
Proof.
  refine (match a, b with
  | JNull, JNull => left eq_refl
  | JBool x, JBool y => match decide (x = y) with left H => left _ | right H => right _ end
  | JNumber x, JNumber y => match decide (x = y) with left H => left _ | right H => right _ end
  | JString x, JString y => match decide (x = y) with left H => left _ | right H => right _ end
  | JArray xs, JArray ys =>
      match list_eq_dec json_eq_dec xs ys with left H => left _ | right H => right _ end
  | JObject xs, JObject ys =>
      match list_eq_dec (λ p q,
        match p, q with
        | (k, x), (l, y) =>
            match decide (k = l), json_eq_dec x y with
            | left H1, left H2 => left (f_equal2 pair H1 H2)
            | right H1, _ => right _
            | _, right H2 => right _
            end
        end) xs ys with left H => left _ | right H => right _ end
  | _, _ => right _
  end); congruence.
Defined.

#[global] Instance Json_eq_dec : EqDecision Json := json_eq_dec.

(** ** Rules *)

Record Acl : Type := {
  acl_action : text; acl_src : list text; acl_dst : list text; acl_proto : option text }.

Record Grant : Type := {
  grant_src : list text; grant_dst : list text; grant_ip : list text;
  grant_app : list (text * Json) }.

Record AutoApprovers : Type := {
  approver_routes : list (text * list text); approver_exit_node : list (text * list text) }.

Record SshRule : Type := {
  ssh_action : text; ssh_src : list text; ssh_dst : list text; ssh_users : list text;
  ssh_check_period : option text }.

Record NodeAttrGrant : Type := { attr_target : list text; attr_names : list text }.

Record PolicyTest : Type := {
  test_src : text; test_proto : option text; test_accept : list text; test_deny : list text }.

Record SshTest : Type := {
  sshtest_action : text; sshtest_src : text; sshtest_dst : text; sshtest_users : list text }.

(** The maps that are only looked up are finite maps; the ones that are
    iterated are listed by ascending key. *)
Record Policy : Type := {
  groups : gmap text (list text);
  hosts : gmap text text;
  acls : list Acl;
  grants : list Grant;
  tag_owners : gmap text (list text);
  auto_approvers : AutoApprovers;
  policy_ssh : list SshRule;
  node_attrs : list NodeAttrGrant;
  policy_tests : list PolicyTest;
  ssh_tests : list SshTest }.

Definition Policy_default : Policy :=
  {| groups := ∅; hosts := ∅; acls := []; grants := []; tag_owners := ∅;
     auto_approvers := {| approver_routes := []; approver_exit_node := [] |};
     policy_ssh := []; node_attrs := []; policy_tests := []; ssh_tests := [] |}.

(** A node as seen by the compiler. *)
Record CompileNode : Type := {
  cn_id : Z; cn_stable_id : text; cn_user_login : option text;
  cn_addresses : list text; cn_tags : list text }.

Definition CompileNode_with_addresses (id : Z) (addresses : list text) : CompileNode :=
  {| cn_id := id; cn_stable_id := []; cn_user_login := None;
     cn_addresses := addresses; cn_tags := [] |}.

#[global] Instance CompileNode_eq_dec : EqDecision CompileNode.
Proof. solve_decision. Defined.
