(* ===== verification/Hujson.v ===== *)
(** * The HUJSON parser ([crabscale-policy/src/hujson.rs], [error.rs])

    JSON with comments and trailing commas, parsed by hand.  The parser is the
    characters that are left with the position they start at, which is what the
    source's vector and index come to; a method is a function from a parser to
    its answer and the parser it leaves.  The methods call each other in a
    circle and carry fuel; [None] is fuel that ran out, which [parse_returns]
    shows never happens. *)

From Stdlib Require SpecFloat.
From S2P Require Import Prelude Text PolicyModel.

Record HujsonError : Type := { err_line : Z; err_column : Z; err_message : text }.

#[global] Instance HujsonError_eq_dec : EqDecision HujsonError.
Proof. solve_decision. Defined.

Definition HujsonError_at (line column : Z) (message : text) : HujsonError :=
  {| err_line := line; err_column := column; err_message := message |}.
Definition HujsonError_at_line (line : Z) (message : text) : HujsonError := HujsonError_at line 1 message.
Definition HujsonError_new (message : text) : HujsonError := HujsonError_at_line 1 message.

Definition HujsonError_display (e : HujsonError) : text :=
  str "line " ++ show_uint e.(err_line) ++ str " column " ++ show_uint e.(err_column)
  ++ str ": " ++ e.(err_message).

(** ** The parser's state *)

Definition MAX_DEPTH : Z := 128.

Record Parser : Type := { ps_rest : text; ps_line : Z; ps_col : Z; ps_depth : Z }.

Definition Parser_new (s : text) : Parser := {| ps_rest := s; ps_line := 1; ps_col := 1; ps_depth := 0 |}.

Definition parser (A : Type) : Type := Parser → option (result (A * Parser) HujsonError).

Definition pret {A} (a : A) : parser A := λ p, Some (Ok (a, p)).
Definition pfail {A} (e : HujsonError) : parser A := λ _, Some (Err e).
Definition pbind {A B} (m : parser A) (k : A → parser B) : parser B := λ p,
  match m p with
  | Some (Ok (a, p)) => k a p
  | Some (Err e) => Some (Err e)
  | None => None
  end.

Declare Scope parser_scope.
Notation "'let*' x ':=' m 'in' k" := (pbind m (λ x, k))
  (at level 10, x pattern, m at level 100, k at level 200) : parser_scope.
Open Scope parser_scope.

(** [err_here], and [err_at] a position taken earlier. *)
Definition err_here {A} (message : text) : parser A := λ p,
  pfail (HujsonError_at p.(ps_line) p.(ps_col) message) p.
Definition position : parser (Z * Z) := λ p, pret (p.(ps_line), p.(ps_col)) p.
Definition err_at {A} (pos : Z * Z) (message : text) : parser A := pfail (HujsonError_at pos.1 pos.2 message).

Definition with_depth (d : Z) (p : Parser) : Parser :=
  {| ps_rest := p.(ps_rest); ps_line := p.(ps_line); ps_col := p.(ps_col); ps_depth := d |}.

Definition enter_nested : parser unit := λ p,
  let p := with_depth (p.(ps_depth) + 1) p in
  if MAX_DEPTH <? p.(ps_depth)
  then err_here (str "maximum nesting depth of 128 exceeded") p
  else pret () p.

Definition leave_nested : parser unit := λ p, pret () (with_depth (p.(ps_depth) - 1) p).

Definition peek : parser (option Z) := λ p, pret (head p.(ps_rest)) p.
Definition peek_next : parser (option Z) := λ p, pret (head (tail p.(ps_rest))) p.

(** One character further. *)
Definition step (c : Z) (rest : text) (p : Parser) : Parser :=
  {| ps_rest := rest; ps_line := if c =? 10 then p.(ps_line) + 1 else p.(ps_line);
     ps_col := if c =? 10 then 1 else p.(ps_col) + 1; ps_depth := p.(ps_depth) |}.

Definition bump : parser (option Z) := λ p,
  match p.(ps_rest) with
  | [] => pret None p
  | c :: rest => pret (Some c) (step c rest p)
  end.

Definition expect (expected : Z) (context : text) : parser unit :=
  let* c := bump in
  match c with
  | None => err_here (str "unexpected end of input " ++ context)
  | Some c =>
      if c =? expected then pret ()
      else err_here (str "expected `" ++ [expected] ++ str "` " ++ context ++ str ", found `" ++ [c] ++ str "`")
  end.

(** ** Whitespace and comments *)

(** The loop over a line comment, up to its newline. *)
Fixpoint skip_line (s : text) (p : Parser) : Parser :=
  match s with
  | c :: t => if c =? 10 then p else skip_line t (step c t p)
  | [] => p
  end.

(** The loop over a block comment, past its end; [None] when it has none. *)
Fixpoint skip_block (s : text) (p : Parser) : option Parser :=
  match s with
  | [] => None
  | c :: t =>
      if (c =? 42) && bool_decide (head t = Some 47)
      then Some (step 47 (tail t) (step c t p)) else skip_block t (step c t p)
  end.

Fixpoint skip_ws_loop (fuel : nat) (p : Parser) : option (result (unit * Parser) HujsonError) :=
  match fuel with
  | O => None
  | S fuel =>
      match p.(ps_rest) with
      | [] => pret () p
      | c :: t =>
          if (c =? 32) || (c =? 9) || (c =? 10) || (c =? 13) then skip_ws_loop fuel (step c t p)
          else if (c =? 47) && bool_decide (head t = Some 47) then
            skip_ws_loop fuel (skip_line (tail t) (step 47 (tail t) (step c t p)))
          else if (c =? 47) && bool_decide (head t = Some 42) then
            match skip_block (tail t) (step 42 (tail t) (step c t p)) with
            | None => err_at (p.(ps_line), p.(ps_col)) (str "unterminated block comment") p
            | Some p => skip_ws_loop fuel p
            end
          else pret () p
      end
  end.

Definition skip_ws : parser unit := λ p, skip_ws_loop (S (length p.(ps_rest))) p.

(** ** Strings *)

(** [char::is_control] *)
Definition is_control (c : Z) : bool := (c <? 0x20) || ((0x7F <=? c) && (c <=? 0x9F)).

(** [char::from_u32] on sixteen bits: a surrogate is no character. *)
Definition char_from_u16 (v : Z) : option Z :=
  if (0xD800 <=? v) && (v <=? 0xDFFF) then None else Some v.

(** The loop over the four digits. *)
Fixpoint hex_loop (n : nat) (value : Z) : parser Z :=
  match n with
  | O => pret value
  | S n =>
      let* c := bump in
      match c with
      | None => err_here (str "truncated `\uXXXX` escape")
      | Some c =>
          match to_digit 16 c with
          | None => err_here (str "invalid hex digit `" ++ [c] ++ str "` in `\uXXXX`")
          | Some digit => hex_loop n (value * 16 + digit)
          end
      end
  end.

Definition parse_hex_quad : parser Z := hex_loop 4 0.

(** The characters an escape of sixteen bits adds to the string. *)
Definition parse_unicode_escape : parser text :=
  let* first := parse_hex_quad in
  if (0xD800 <=? first) && (first <=? 0xDBFF) then
    let* a := peek in
    let* b := peek_next in
    if bool_decide (a = Some 92) && bool_decide (b = Some 117) then
      let* _ := bump in
      let* _ := bump in
      let* second := parse_hex_quad in
      if (0xDC00 <=? second) && (second <=? 0xDFFF)
      then pret [0x10000 + Z.shiftl (first - 0xD800) 10 + (second - 0xDC00)]
      else pret (0xFFFD :: option_list (char_from_u16 second))
    else pret [0xFFFD]
  else if (0xDC00 <=? first) && (first <=? 0xDFFF) then pret [0xFFFD]
  else pret [first].

(** The escapes of one character. *)
Definition simple_escape (c : Z) : option Z :=
  if c =? 34 then Some 34
  else if c =? 92 then Some 92
  else if c =? 47 then Some 47
  else if c =? 98 then Some 8
  else if c =? 102 then Some 12
  else if c =? 110 then Some 10
  else if c =? 114 then Some 13
  else if c =? 116 then Some 9
  else None.

Definition parse_escape : parser text :=
  let* c := bump in
  match c with
  | None => err_here (str "unterminated string after escape")
  | Some c =>
      match simple_escape c with
      | Some v => pret [v]
      | None =>
          if c =? 117 then parse_unicode_escape
          else err_here (str "invalid escape sequence `\" ++ [c] ++ str "`")
      end
  end.

Fixpoint string_loop (fuel : nat) (out : text) : parser text :=
  match fuel with
  | O => λ _, None
  | S fuel =>
      let* c := peek in
      match c with
      | None => err_here (str "unterminated string")
      | Some c =>
          if c =? 34 then let* _ := bump in pret out
          else if c =? 92 then
            let* _ := bump in
            let* added := parse_escape in
            string_loop fuel (out ++ added)
          else if is_control c then err_here (str "unescaped control character in string")
          else let* _ := bump in string_loop fuel (out ++ [c])
      end
  end.

Definition parse_string : parser text := λ p,
  (let* _ := expect 34 (str "when starting a string") in
   string_loop (S (length p.(ps_rest))) []) p.

(** ** Literals and numbers *)

Fixpoint literal_loop (literal : text) (start : Z * Z) (message : text) : parser unit :=
  match literal with
  | [] => pret ()
  | expected :: rest =>
      let* c := bump in
      if bool_decide (c = Some expected) then literal_loop rest start message else err_at start message
  end.

Definition parse_literal (literal : text) (value : Json) : parser Json :=
  let* start := position in
  let message := str "invalid literal `" ++ literal ++ str "`" in
  let* _ := literal_loop literal start message in
  let* c := peek in
  match c with
  | Some c => if is_ascii_alphanumeric c || (c =? 95) then err_at start message else pret value
  | None => pret value
  end.

(** The loop over digits. *)
Fixpoint digits_loop (s : text) (p : Parser) : Parser :=
  match s with
  | c :: t => if is_ascii_digit c then digits_loop t (step c t p) else p
  | [] => p
  end.

Definition skip_digits : parser unit := λ p, pret () (digits_loop p.(ps_rest) p).

Definition is_digit_next (c : option Z) : bool := match c with Some c => is_ascii_digit c | None => false end.

(** The correctly rounded double of [m * 10^k], as [f64] parses it. *)
Definition round_f64 (negative : bool) (m k : Z) : SpecFloat.spec_float :=
  match m with
  | Zpos m =>
      if 0 <=? k
      then SpecFloat.binary_normalize 53 1024 ((if negative then -1 else 1) * Zpos m * 10 ^ k) 0 negative
      else SpecFloat.SFdiv 53 1024 (SpecFloat.S754_finite negative m 0)
             (SpecFloat.S754_finite false (Z.to_pos (10 ^ (- k))) 0)
  | _ => SpecFloat.S754_zero negative
  end.

(** [f64::to_bits] of a finite number. *)
Definition f64_bits (f : SpecFloat.spec_float) : option Z :=
  let sign (s : bool) := if s then 2 ^ 63 else 0 in
  match f with
  | SpecFloat.S754_zero s => Some (sign s)
  | SpecFloat.S754_finite s m e =>
      Some (sign s + (if Zpos m <? 2 ^ 52 then Zpos m else (e + 1075) * 2 ^ 52 + (Zpos m - 2 ^ 52)))
  | _ => None
  end.

(** [token.parse::<f64>()] of a JSON number, then [Number::from_f64], which
    refuses what is not finite. *)
Definition parse_f64 (token : text) : option Z :=
  let '(negative, s) := match token with 45 :: t => (true, t) | _ => (false, token) end in
  let '(int, s) := span_digits 10 s in
  let '(frac, s) := match s with 46 :: t => span_digits 10 t | _ => ([], s) end in
  let exp :=
    match s with
    | _ :: 45 :: t => - digits_value 10 (span_digits 10 t).1
    | _ :: 43 :: t => digits_value 10 (span_digits 10 t).1
    | _ :: t => digits_value 10 (span_digits 10 t).1
    | [] => 0
    end in
  f64_bits (round_f64 negative (digits_value 10 (int ++ frac)) (exp - zlen frac)).

(** [token.parse::<i64>()] *)
Definition parse_i64 (s : text) : option Z :=
  let '(sign, t) := match s with 43 :: t => (1, t) | 45 :: t => (-1, t) | _ => (1, s) end in
  match parse_digits t with
  | Some v => let v := sign * v in if (- 2 ^ 63 <=? v) && (v <? 2 ^ 63) then Some v else None
  | None => None
  end.

Definition parse_json_number (token : text) : result JsonNumber text :=
  let quoted := str "`" ++ token ++ str "`" in
  if contains_char 46 token || contains_char 101 token || contains_char 69 token then
    match parse_f64 token with
    | Some bits => Ok (Float bits)
    | None => Err (quoted ++ str " is not a valid number")
    end
  else
    match parse_i64 token with
    | Some v => Ok (if v <? 0 then NegInt v else PosInt v)
    | None =>
        match parse_uint (2 ^ 64 - 1) token with
        | Some v => Ok (PosInt v)
        | None => Err (quoted ++ str " is not a valid integer")
        end
    end.

Definition number_sign : parser unit :=
  let* c := peek in
  if bool_decide (c = Some 45) then let* _ := bump in pret () else pret ().

Definition number_int : parser unit :=
  let* c := peek in
  if bool_decide (c = Some 48) then let* _ := bump in pret ()
  else if is_digit_next c then let* _ := bump in skip_digits
  else err_here (str "invalid number: expected a digit").

Definition number_frac : parser unit :=
  let* c := peek in
  if bool_decide (c = Some 46) then
    let* _ := bump in
    let* c := peek in
    if is_digit_next c then skip_digits
    else err_here (str "invalid number: expected a digit after `.`")
  else pret ().

Definition number_exp : parser unit :=
  let* c := peek in
  if bool_decide (c = Some 101) || bool_decide (c = Some 69) then
    let* _ := bump in
    let* c := peek in
    let* _ := (if bool_decide (c = Some 43) || bool_decide (c = Some 45) then let* _ := bump in pret () else pret ()) in
    let* c := peek in
    if is_digit_next c then skip_digits
    else err_here (str "invalid number: expected a digit in exponent")
  else pret ().

(** The characters of a number, its value aside. *)
Definition number_token : parser unit :=
  let* _ := number_sign in
  let* _ := number_int in
  let* _ := number_frac in
  number_exp.

(** [chars[start_pos..pos]] *)
Definition taken_from (start : text) : parser text := λ p,
  pret (take (length start - length p.(ps_rest)) start) p.

Definition remaining : parser text := λ p, pret p.(ps_rest) p.

(** Junk glued to a number. *)
Definition glued (c : option Z) : bool :=
  match c with Some c => is_ascii_alphanumeric c || (c =? 46) | None => false end.

Definition parse_number : parser Json :=
  let* start := position in
  let* chars := remaining in
  let* _ := number_token in
  let* c := peek in
  if glued c then
    let* _ := bump in
    let* token := taken_from chars in
    err_at start (str "invalid number `" ++ token ++ str "`")
  else
    let* token := taken_from chars in
    match parse_json_number token with
    | Ok n => pret (JNumber n)
    | Err msg => err_at start (str "invalid number: " ++ msg)
    end.

(** ** Values *)

(** [Map::contains_key] and [Map::insert]: the fields are kept by ascending key. *)
Fixpoint contains_key (key : text) (m : list (text * Json)) : bool :=
  match m with
  | [] => false
  | (k, _) :: m => bool_decide (k = key) || contains_key key m
  end.

Fixpoint map_insert (key : text) (value : Json) (m : list (text * Json)) : list (text * Json) :=
  match m with
  | [] => [(key, value)]
  | (k, v) :: rest =>
      if bool_decide (k = key) then (key, value) :: rest
      else if text_leb key k then (key, value) :: m
      else (k, v) :: map_insert key value rest
  end.

Definition out_of_fuel {A} : parser A := λ _, None.

(** The key of a field; its position is taken before the blanks in front of it. *)
Definition object_key (m : list (text * Json)) : parser text :=
  let* start := position in
  let* _ := skip_ws in
  let* c := peek in
  match c with
  | Some c =>
      if c =? 34 then
        let* key := parse_string in
        if contains_key key m then err_at start (str "duplicate object key `" ++ key ++ str "`")
        else pret key
      else err_here (str "expected a quoted object key, found `" ++ [c] ++ str "`")
  | None => err_here (str "unexpected end of input in object")
  end.

(** After an item: [Some] is the end, with or without a comma before it. *)
Definition item_end (close : Z) (what : text) (expected : text) : parser bool :=
  let* _ := skip_ws in
  let* c := peek in
  match c with
  | Some c =>
      if c =? 44 then
        let* _ := bump in
        let* _ := skip_ws in
        let* c := peek in
        if bool_decide (c = Some close) then let* _ := bump in pret true else pret false
      else if c =? close then let* _ := bump in pret true
      else err_here (expected ++ str ", found `" ++ [c] ++ str "`")
  | None => err_here (str "unexpected end of input in " ++ what)
  end.

Definition object_end : parser bool := item_end 125 (str "object") (str "expected `,` or `}` in object").
Definition array_end : parser bool := item_end 93 (str "array") (str "expected `,` or `]` in array").

(** A container counts its depth; what its body fails with goes out. *)
Definition nested (inner : parser Json) : parser Json :=
  let* _ := enter_nested in
  let* value := inner in
  let* _ := leave_nested in
  pret value.

(** An object or an array from its opening character: at once its end, or the
    loop over its items. *)
Definition container (opening close : Z) (context : text) (empty : Json) (items : parser Json) : parser Json :=
  nested
    (let* _ := expect opening context in
     let* _ := skip_ws in
     let* c := peek in
     if bool_decide (c = Some close) then let* _ := bump in pret empty else items).

Fixpoint parse_value (fuel : nat) : parser Json :=
  match fuel with
  | O => out_of_fuel
  | S fuel =>
      let* _ := skip_ws in
      let* c := peek in
      match c with
      | Some c =>
          if c =? 123 then
            container 123 125 (str "when starting an object") (JObject []) (object_loop fuel [])
          else if c =? 91 then
            container 91 93 (str "when starting an array") (JArray []) (array_loop fuel [])
          else if c =? 34 then let* s := parse_string in pret (JString s)
          else if c =? 116 then parse_literal (str "true") (JBool true)
          else if c =? 102 then parse_literal (str "false") (JBool false)
          else if c =? 110 then parse_literal (str "null") JNull
          else if (c =? 45) || is_ascii_digit c then parse_number
          else err_here (str "unexpected character `" ++ [c] ++ str "`")
      | None => err_here (str "unexpected end of input")
      end
  end
with object_loop (fuel : nat) (m : list (text * Json)) : parser Json :=
  match fuel with
  | O => out_of_fuel
  | S fuel =>
      let* key := object_key m in
      let* _ := skip_ws in
      let* _ := expect 58 (str "after an object key") in
      let* _ := skip_ws in
      let* value := parse_value fuel in
      let m := map_insert key value m in
      let* done := object_end in
      if done : bool then pret (JObject m) else object_loop fuel m
  end
with array_loop (fuel : nat) (values : list Json) : parser Json :=
  match fuel with
  | O => out_of_fuel
  | S fuel =>
      let* value := parse_value fuel in
      let values := values ++ [value] in
      let* done := array_end in
      if done : bool then pret (JArray values) else array_loop fuel values
  end.

(** Every call consumes a character or hands its input on once: twice the
    length of the input is fuel enough. *)
Definition document (fuel : nat) : parser Json :=
  let* value := parse_value fuel in
  let* _ := skip_ws in
  let* c := peek in
  match c with
  | Some c => err_here (str "unexpected trailing content `" ++ [c] ++ str "` after the document")
  | None => pret value
  end.

Definition parse (s : text) : option (result Json HujsonError) :=
  match document (2 * length s + 2) (Parser_new s) with
  | Some (Ok (v, _)) => Some (Ok v)
  | Some (Err e) => Some (Err e)
  | None => None
  end.

