(* ===== verification/HujsonLang.v ===== *)
(** * The language the HUJSON parser reads

    What the parser of [Hujson] accepts, told apart from how: a grammar of JSON
    with comments and trailing commas, each word with the value it stands for.
    Behind it what the proofs about the methods share: the parser as far as a word
    of its input, positions in the input, and the judgement [runs], a method that
    returns. *)

From S2P Require Import Prelude Text PolicyModel Hujson.

(** Lengths of words put together. *)
Ltac lens := repeat (progress (rewrite ?length_app in *; cbn [length app] in *)); lia.

(** ** The language

    What the parser accepts, told apart from how: JSON with comments and
    trailing commas, each word with the value it stands for. *)

(** A block comment's body does not hold the end of a comment. *)
Definition no_end (body : text) : Prop := ∀ a b, body ++ [42] ≠ a ++ 42 :: 47 :: b.

(** Blanks: spaces, and comments that end.  A line comment may also run to the
    end of the document. *)
Inductive blank : text → Prop :=
| blank_nil : blank []
| blank_space c w : c ∈ [32; 9; 10; 13] → blank w → blank (c :: w)
| blank_line body w : 10 ∉ body → blank (10 :: w) → blank (47 :: 47 :: body ++ 10 :: w)
| blank_block body w : no_end body → blank w → blank (47 :: 42 :: body ++ 42 :: 47 :: w).

Definition trailing (w : text) : Prop :=
  blank w ∨ ∃ b body, w = b ++ 47 :: 47 :: body ∧ blank b ∧ 10 ∉ body.

(** Four hexadecimal digits and their value. *)
Definition hex4 (ds : text) (v : Z) : Prop :=
  length ds = 4%nat ∧ ∃ vs, span_digits 16 ds = (vs, []) ∧ v = digits_value 16 vs.

Definition high_surrogate (v : Z) : bool := (0xD800 <=? v) && (v <=? 0xDBFF).
Definition low_surrogate (v : Z) : bool := (0xDC00 <=? v) && (v <=? 0xDFFF).

(** What stands between the quotes of a string, and the string.  A surrogate
    that is not half of a pair becomes a replacement character; the second of
    two that are no pair is dropped when it is a surrogate too. *)
Inductive chars : text → text → Prop :=
| chars_nil : chars [] []
| chars_plain c w s : c ≠ 34 → c ≠ 92 → is_control c = false → chars w s → chars (c :: w) (c :: s)
| chars_escape e c w s : simple_escape e = Some c → chars w s → chars (92 :: e :: w) (c :: s)
| chars_unicode ds v w s :
    hex4 ds v → high_surrogate v = false → low_surrogate v = false → chars w s →
    chars (92 :: 117 :: ds ++ w) (v :: s)
| chars_pair ds hi es lo w s :
    hex4 ds hi → high_surrogate hi = true → hex4 es lo → low_surrogate lo = true → chars w s →
    chars (92 :: 117 :: ds ++ 92 :: 117 :: es ++ w) (0x10000 + Z.shiftl (hi - 0xD800) 10 + (lo - 0xDC00) :: s)
| chars_lone_low ds v w s :
    hex4 ds v → low_surrogate v = true → chars w s → chars (92 :: 117 :: ds ++ w) (0xFFFD :: s)
| chars_lone_high ds v w s :
    hex4 ds v → high_surrogate v = true → (∀ x, w ≠ 92 :: 117 :: x) → chars w s →
    chars (92 :: 117 :: ds ++ w) (0xFFFD :: s)
| chars_no_pair ds hi es v w s :
    hex4 ds hi → high_surrogate hi = true → hex4 es v → low_surrogate v = false → chars w s →
    chars (92 :: 117 :: ds ++ 92 :: 117 :: es ++ w) (0xFFFD :: option_list (char_from_u16 v) ++ s).

(** Digits, and the words that are numbers. *)
Definition digit_word (w : text) : Prop := w ≠ [] ∧ Forall (λ c, is_ascii_digit c = true) w.

Definition number_word (w : text) : Prop :=
  ∃ sign int frac exp, w = sign ++ int ++ frac ++ exp
    ∧ (sign = [] ∨ sign = [45])
    ∧ (int = [48] ∨ digit_word int ∧ head int ≠ Some 48)
    ∧ (frac = [] ∨ ∃ ds, frac = 46 :: ds ∧ digit_word ds)
    ∧ (exp = [] ∨ ∃ e s ds, exp = e :: s ++ ds ∧ (e = 101 ∨ e = 69) ∧ (s = [] ∨ s = [43] ∨ s = [45]) ∧ digit_word ds).

(** The end of an array or an object, with or without a comma before it. *)
Definition closing (close : Z) (w : text) : Prop := w = [close] ∨ ∃ b, blank b ∧ w = 44 :: b ++ [close].

(** The fields as the map keeps them. *)
Definition fields_of (m : list (text * Json)) (kvs : list (text * Json)) : list (text * Json) :=
  fold_left (λ m kv, map_insert kv.1 kv.2 m) kvs m.

(** [value d w v]: the word [w] stands for [v], nested at most [d] deep. *)
Inductive value : nat → text → Json → Prop :=
| value_null d : value d (str "null") JNull
| value_true d : value d (str "true") (JBool true)
| value_false d : value d (str "false") (JBool false)
| value_number d w n : number_word w → parse_json_number w = Ok n → value d w (JNumber n)
| value_string d w s : chars w s → value d (34 :: w ++ [34]) (JString s)
| value_empty_array d b : blank b → value (S d) (91 :: b ++ [93]) (JArray [])
| value_array d b w vs : blank b → elements d w vs → value (S d) (91 :: b ++ w) (JArray vs)
| value_empty_object d b : blank b → value (S d) (123 :: b ++ [125]) (JObject [])
| value_object d b w kvs :
    blank b → members d w kvs → NoDup (map fst kvs) → value (S d) (123 :: b ++ w) (JObject (fields_of [] kvs))
with elements : nat → text → list Json → Prop :=
| elements_last d w v b e : value d w v → blank b → closing 93 e → elements d (w ++ b ++ e) [v]
| elements_more d w v b c x vs :
    value d w v → blank b → blank c → elements d x vs → elements d (w ++ b ++ 44 :: c ++ x) (v :: vs)
with members : nat → text → list (text * Json) → Prop :=
| members_last d k s a b w v c e :
    chars k s → blank a → blank b → value d w v → blank c → closing 125 e →
    members d (34 :: k ++ 34 :: a ++ 58 :: b ++ w ++ c ++ e) [(s, v)]
| members_more d k s a b w v c f x kvs :
    chars k s → blank a → blank b → value d w v → blank c → blank f → members d x kvs →
    members d (34 :: k ++ 34 :: a ++ 58 :: b ++ w ++ c ++ 44 :: f ++ x) ((s, v) :: kvs).

(** A document: one value between blanks. *)
Definition hujson (s : text) (v : Json) : Prop :=
  ∃ b w t, s = b ++ w ++ t ∧ blank b ∧ value 128 w v ∧ trailing t.

(** ** Positions and termination *)

(** The parser past the characters [w] of its input. *)
Fixpoint advance (w : text) (p : Parser) : Parser :=
  match w with
  | [] => p
  | c :: w => advance w (step c (tail p.(ps_rest)) p)
  end.

Lemma advance_app w x p : advance (w ++ x) p = advance x (advance w p).
Proof. revert p. induction w as [|c w IH]; intros p; [done|]. apply IH. Qed.

Lemma advance_rest w r p : p.(ps_rest) = w ++ r → (advance w p).(ps_rest) = r.
Proof.
  revert p. induction w as [|c w IH]; intros p Hp; [done|]. cbn [advance]. apply IH. cbn [step ps_rest].
  by rewrite Hp.
Qed.

Lemma advance_depth w p : (advance w p).(ps_depth) = p.(ps_depth).
Proof. revert p. induction w as [|c w IH]; intros p; [done|]. cbn [advance]. by rewrite IH. Qed.

(** Line and column past [w], both counted from one. *)
Definition position_of (w : text) : Z * Z :=
  let p := advance w (Parser_new w) in (p.(ps_line), p.(ps_col)).

Section located.
  Context (input : text).

(** A position in the input, and a parser that is at one. *)
Definition located (pos : Z * Z) : Prop := ∃ w r, input = w ++ r ∧ pos = position_of w.

Definition inside (p : Parser) : Prop :=
  ∃ w, input = w ++ p.(ps_rest) ∧ (p.(ps_line), p.(ps_col)) = position_of w.

(** A method that returns, from parsers in the input: with an answer, in a
    parser in the input, or with an error at a position in the input. *)
Definition runs {A} (m : parser A) (p : Parser) (Q : A → Parser → Prop) : Prop :=
  inside p →
  match m p with
  | Some (Ok (a, p')) => inside p' ∧ Q a p'
  | Some (Err e) => located (e.(err_line), e.(err_column))
  | None => False
  end.

Lemma runs_bind {A B} (m : parser A) (k : A → parser B) p Q :
  runs m p (λ a p', runs (k a) p' Q) → runs (pbind m k) p Q.
Proof.
  unfold runs, pbind. intros H Hp. specialize (H Hp).
  destruct (m p) as [[[a p']|e]|]; [|done..]. destruct H as [Hi HQ]. by apply HQ.
Qed.

Lemma runs_weaken {A} (m : parser A) p (Q R : A → Parser → Prop) :
  runs m p Q → (∀ a p', Q a p' → R a p') → runs m p R.
Proof.
  unfold runs. intros H HR Hp. specialize (H Hp). destruct (m p) as [[[a p']|e]|]; [|done..].
  destruct H. auto.
Qed.

Lemma runs_ret {A} (a : A) p (Q : A → Parser → Prop) : Q a p → runs (pret a) p Q.
Proof. by intros HQ Hp. Qed.

Lemma inside_located p : inside p → located (p.(ps_line), p.(ps_col)).
Proof. intros (w & Hw & Hp). by exists w, p.(ps_rest). Qed.

Lemma runs_err_here {A} msg p (Q : A → Parser → Prop) : runs (err_here msg) p Q.
Proof. intros Hp. exact (inside_located p Hp). Qed.

Lemma runs_err_at {A} pos msg p (Q : A → Parser → Prop) : located pos → runs (err_at pos msg) p Q.
Proof. intros Hl _. by destruct pos. Qed.

Lemma runs_position p (Q : Z * Z → Parser → Prop) :
  (∀ pos, located pos → Q pos p) → runs position p Q.
Proof. intros HQ Hp. split; [done|]. by apply HQ, inside_located. Qed.

Lemma runs_peek p (Q : option Z → Parser → Prop) : Q (head p.(ps_rest)) p → runs peek p Q.
Proof. by intros HQ Hp. Qed.

Lemma runs_peek_next p (Q : option Z → Parser → Prop) : Q (head (tail p.(ps_rest))) p → runs peek_next p Q.
Proof. by intros HQ Hp. Qed.

Lemma line_col_step c r1 r2 p1 p2 :
  (p1.(ps_line), p1.(ps_col)) = (p2.(ps_line), p2.(ps_col)) →
  ((step c r1 p1).(ps_line), (step c r1 p1).(ps_col)) = ((step c r2 p2).(ps_line), (step c r2 p2).(ps_col)).
Proof. intros [= H1 H2]. cbn. by rewrite H1, H2. Qed.

Lemma line_col_advance w p1 p2 :
  (p1.(ps_line), p1.(ps_col)) = (p2.(ps_line), p2.(ps_col)) →
  ((advance w p1).(ps_line), (advance w p1).(ps_col)) = ((advance w p2).(ps_line), (advance w p2).(ps_col)).
Proof.
  revert p1 p2. induction w as [|c w IH]; intros p1 p2 H; [done|]. cbn [advance]. by apply IH, line_col_step.
Qed.

Lemma inside_step c r p : p.(ps_rest) = c :: r → inside p → inside (step c r p).
Proof.
  intros Hr (w & Hw & Hp). exists (w ++ [c]). split; [by rewrite <- app_assoc, Hw, Hr|].
  unfold position_of in *. rewrite advance_app. cbn [advance].
  rewrite (line_col_step c r (tail (ps_rest (advance w (Parser_new (w ++ [c]))))) p (advance w (Parser_new (w ++ [c])))); [done|].
  rewrite Hp. by apply line_col_advance.
Qed.

Lemma inside_depth d p : inside p → inside (with_depth d p).
Proof. done. Qed.

Lemma runs_depth {A} d (m : parser A) p Q : runs m (with_depth d p) Q → runs (λ p, m (with_depth d p)) p Q.
Proof. done. Qed.

(** A step past a character that is known or not. *)
Lemma runs_bump p (Q : option Z → Parser → Prop) :
  match p.(ps_rest) with [] => Q None p | c :: r => Q (Some c) (step c r p) end → runs bump p Q.
Proof.
  unfold runs, bump. intros HQ Hp. destruct (ps_rest p) as [|c r] eqn:Hr; [done|].
  split; [by apply inside_step|done].
Qed.

Lemma runs_expect c ctx p (Q : unit → Parser → Prop) :
  (∀ r, p.(ps_rest) = c :: r → Q () (step c r p)) → runs (expect c ctx) p Q.
Proof.
  intros HQ. apply runs_bind, runs_bump. destruct (ps_rest p) as [|x r]; [apply runs_err_here|].
  destruct (Z.eqb_spec x c) as [->|]; [by apply runs_ret, HQ|apply runs_err_here].
Qed.

(** What is left is no longer than before. *)
Definition shorter (p p' : Parser) : Prop := (length p'.(ps_rest) ≤ length p.(ps_rest))%nat.

Lemma inside_advance w r p : p.(ps_rest) = w ++ r → inside p → inside (advance w p).
Proof.
  revert p. induction w as [|c w IH]; intros p Hr Hp; [done|]. cbn [advance].
  assert (Hs : step c (tail (ps_rest p)) p = step c (w ++ r) p) by by rewrite Hr.
  rewrite Hs. apply IH; [done|]. by apply inside_step.
Qed.

End located.

(** ** Blanks *)

Lemma advance_cons c w r p : p.(ps_rest) = c :: r → advance w (step c r p) = advance (c :: w) p.
Proof. intros Hp. cbn [advance]. by rewrite Hp. Qed.

Lemma advance_two c d r p : p.(ps_rest) = c :: d :: r → step d r (step c (d :: r) p) = advance [c; d] p.
Proof. intros Hp. rewrite <- (advance_cons c [d] (d :: r) p Hp). done. Qed.

Lemma skip_line_spec s p :
  p.(ps_rest) = s →
  ∃ w r, s = w ++ r ∧ 10 ∉ w ∧ (r = [] ∨ head r = Some 10) ∧ skip_line s p = advance w p.
Proof.
  revert p. induction s as [|c t IH]; intros p Hp.
  { exists [], []. split; [done|]. split; [apply not_elem_of_nil|]. auto. }
  cbn [skip_line]. destruct (Z.eqb_spec c 10) as [->|Hc].
  { exists [], (10 :: t). split; [done|]. split; [apply not_elem_of_nil|]. auto. }
  destruct (IH (step c t p) eq_refl) as (w & r & -> & Hn & Hr & Hs). exists (c :: w), r.
  split; [done|]. split; [by apply not_elem_of_cons|]. split; [done|]. rewrite Hs. by apply advance_cons.
Qed.

Lemma skip_line_complete w r p :
  p.(ps_rest) = w ++ r → 10 ∉ w → (r = [] ∨ head r = Some 10) → skip_line (w ++ r) p = advance w p.
Proof.
  revert p. induction w as [|c w IH]; intros p Hp Hn Hr; cbn [app].
  { destruct Hr as [->|Hr]; [done|]. destruct r as [|x r]; [done|]. by injection Hr as ->. }
  apply not_elem_of_cons in Hn as [Hc Hn]. cbn [skip_line app].
  rewrite (proj2 (Z.eqb_neq c 10)) by congruence. rewrite IH; [by apply advance_cons|done..].
Qed.

Lemma skip_block_sound s p p' :
  p.(ps_rest) = s → skip_block s p = Some p' →
  ∃ body r, s = body ++ 42 :: 47 :: r ∧ no_end body ∧ p' = advance (body ++ [42; 47]) p.
Proof.
  revert p. induction s as [|c t IH]; intros p Hp; [done|]. cbn [skip_block].
  destruct ((c =? 42) && bool_decide (head t = Some 47)) eqn:E.
  - breflect. subst c. destruct t as [|x t]; [done|]. cbn [head tail] in *. simplify_eq.
    intros [= <-]. exists [], t. split; [done|]. split; [by intros [|? [|? ?]] ?|].
    cbn [app]. by rewrite <- (advance_cons 42 _ (47 :: t)), <- (advance_cons 47 [] t).
  - intros H. destruct (IH (step c t p) eq_refl H) as (body & r & -> & Hn & ->). exists (c :: body), r.
    split; [done|]. split; [|by apply advance_cons]. intros [|y a] b; cbn [app]; intros [= -> Heq].
    + destruct body as [|z body]; [done|]. cbn in Heq. injection Heq as -> _. by cbn in E.
    + by apply (Hn a b).
Qed.

Lemma skip_block_complete body r p :
  p.(ps_rest) = body ++ 42 :: 47 :: r → no_end body →
  skip_block (body ++ 42 :: 47 :: r) p = Some (advance (body ++ [42; 47]) p).
Proof.
  revert p. induction body as [|c body IH]; intros p Hp Hn; cbn [app skip_block].
  { cbn [head tail]. rewrite bool_decide_eq_true_2 by done. cbn [Z.eqb Pos.eqb andb].
    by rewrite <- (advance_cons 42 _ (47 :: r)), <- (advance_cons 47 [] r). }
  destruct ((c =? 42) && _) eqn:E.
  - exfalso. breflect. subst c. destruct body as [|z body]; [done|]. cbn in *. simplify_eq.
    by apply (Hn [] (body ++ [42])).
  - rewrite IH; [by rewrite (advance_cons c _ (body ++ 42 :: 47 :: r))|done|].
    intros a b Heq. apply (Hn (c :: a) b). cbn. by rewrite Heq.
Qed.

Lemma skip_block_shorter s p p' :
  skip_block s p = Some p' → p.(ps_rest) = s → (length p'.(ps_rest) < length s)%nat.
Proof.
  intros H Hp. destruct (skip_block_sound s p p' Hp H) as (body & r & Hs & _ & ->).
  rewrite (advance_rest _ r); [|by rewrite Hp, Hs, <- app_assoc]. rewrite Hs, length_app. cbn [length]. lia.
Qed.

(** What a parser has left after [skip_ws]. *)
Definition solid (r : text) : Prop :=
  match r with
  | [] => True
  | c :: t => c ∉ [32; 9; 10; 13] ∧ ¬ (c = 47 ∧ (head t = Some 47 ∨ head t = Some 42))
  end.

Lemma is_space c : (c =? 32) || (c =? 9) || (c =? 10) || (c =? 13) = bool_decide (c ∈ [32; 9; 10; 13]).
Proof.
  apply eq_true_iff_eq. rewrite !orb_true_iff, !Z.eqb_eq, bool_decide_eq_true, !elem_of_cons, elem_of_nil. tauto.
Qed.

Lemma trailing_space c w : c ∈ [32; 9; 10; 13] → trailing w → trailing (c :: w).
Proof.
  intros Hc [Hw|(b & body & -> & Hb & Hn)]; [by left; apply blank_space|].
  right. exists (c :: b), body. split; [done|]. split; [by apply blank_space|done].
Qed.

Lemma trailing_block body w : no_end body → trailing w → trailing (47 :: 42 :: body ++ 42 :: 47 :: w).
Proof.
  intros Hb [Hw|(b & bo & -> & Hb' & Hn)]; [by left; apply blank_block|].
  right. exists (47 :: 42 :: body ++ 42 :: 47 :: b), bo. split; [cbn; by rewrite <- app_assoc|].
  split; [by apply blank_block|done].
Qed.

Lemma trailing_line body w : 10 ∉ body → trailing (10 :: w) → trailing (47 :: 47 :: body ++ 10 :: w).
Proof.
  intros Hb [Hw|(b & bo & Heq & Hb' & Hn)]; [by left; apply blank_line|].
  right. destruct b as [|x b]; [done|]. injection Heq as <- ->.
  exists (47 :: 47 :: body ++ 10 :: b), bo. split; [cbn; by rewrite <- app_assoc|].
  split; [by apply blank_line|done].
Qed.

Definition blanks_then (w r : text) : Prop := (blank w ∧ solid r) ∨ (trailing w ∧ r = []).

Lemma blanks_then_line body w r :
  10 ∉ body → (w ++ r = [] ∨ head (w ++ r) = Some 10) → blanks_then w r → blanks_then (47 :: 47 :: body ++ w) r.
Proof.
  intros Hb Hh Hw. destruct w as [|x w].
  { cbn [app] in Hh. rewrite app_nil_r. assert (r = []) as ->.
    { destruct Hh as [->|Hh]; [done|]. destruct r as [|y r]; [done|]. injection Hh as ->.
      destruct Hw as [[_ [Hs _]]|[_ [=]]]. exfalso. apply Hs. set_solver. }
    right. split; [|done]. right. exists [], body. split; [done|]. split; [constructor|done]. }
  destruct Hh as [[=]|[= ->]].
  destruct Hw as [[Hw Hs]|[Hw ->]]; [left|right]; (split; [|done]); [by apply blank_line|by apply trailing_line].
Qed.

Lemma skip_ws_loop_runs input fuel p (Q : unit → Parser → Prop) :
  (length p.(ps_rest) < fuel)%nat →
  (∀ w r, p.(ps_rest) = w ++ r → blanks_then w r → Q () (advance w p)) →
  runs input (skip_ws_loop fuel) p Q.
Proof.
  revert p Q. induction fuel as [|fuel IH]; intros p Q Hlen HQ; [lia|]. intros Hi. cbn [skip_ws_loop].
  destruct (ps_rest p) as [|c t] eqn:Hp.
  { split; [done|]. apply (HQ [] []); [done|left; split; [constructor|done]]. }
  cbn [length] in Hlen. rewrite is_space. case_bool_decide as Hc.
  { refine (IH (step c t p) Q _ _ (inside_step _ _ _ _ Hp Hi)); [cbn; lia|]. intros w r Hr Hw.
    rewrite (advance_cons c w t) by done. apply (HQ (c :: w) r); [cbn in Hr; by subst|].
    destruct Hw as [[Hw Hs]|[Hw ->]]; [left|right]; (split; [|done]);
      [by apply blank_space|by apply trailing_space]. }
  destruct ((c =? 47) && bool_decide (head t = Some 47)) eqn:E1.
  { breflect. subst c. destruct t as [|x t]; [done|]. cbn [head tail] in *. simplify_eq.
    set (p2 := step 47 t (step 47 (47 :: t) p)).
    assert (H2 : p2 = advance [47; 47] p).
    { by apply advance_two. }
    destruct (skip_line_spec t p2 eq_refl) as (body & r0 & Ht & Hb & Hr0 & ->).
    assert (Hrest : (advance body p2).(ps_rest) = r0) by (by apply advance_rest).
    refine (IH (advance body p2) Q _ _ _).
    - rewrite Hrest. cbn [length] in Hlen. rewrite Ht, length_app in Hlen. lia.
    - intros w r Hr Hw. rewrite Hrest in Hr. rewrite Hr in *. rewrite H2, <- !advance_app.
      apply (HQ (47 :: 47 :: body ++ w) r); [rewrite Ht; cbn; by rewrite <- ?app_assoc|].
      by apply blanks_then_line.
    - apply (inside_advance _ body r0); [by cbn|]. do 2 (apply inside_step; [done|]). done. }
  destruct ((c =? 47) && bool_decide (head t = Some 42)) eqn:E2.
  { breflect. subst c. destruct t as [|x t]; [done|]. cbn [head tail] in *. simplify_eq.
    set (p2 := step 42 t (step 47 (42 :: t) p)).
    assert (H2 : p2 = advance [47; 42] p).
    { by apply advance_two. }
    destruct (skip_block t p2) as [p3|] eqn:Hs.
    2: { by apply inside_located. }
    pose proof (skip_block_shorter _ _ _ Hs eq_refl) as Hlt.
    destruct (skip_block_sound t p2 p3 eq_refl Hs) as (body & r0 & Ht & Hb & ->).
    assert (Hrest : (advance (body ++ [42; 47]) p2).(ps_rest) = r0).
    { apply advance_rest. change (ps_rest p2) with t. by rewrite Ht, <- app_assoc. }
    refine (IH _ Q _ _ _).
    - cbn [length] in Hlen. lia.
    - intros w r Hr Hw. rewrite Hrest in Hr. rewrite Hr in *. rewrite H2, <- !advance_app.
      apply (HQ (([47; 42] ++ body ++ [42; 47]) ++ w) r); [rewrite Ht; cbn; by rewrite <- !app_assoc|].
      replace (([47; 42] ++ body ++ [42; 47]) ++ w) with (47 :: 42 :: body ++ 42 :: 47 :: w)
        by (cbn; by rewrite <- app_assoc).
      destruct Hw as [[Hw Hs']|[Hw ->]]; [left|right]; (split; [|done]);
        [by apply blank_block|by apply trailing_block].
    - apply (inside_advance _ _ r0); [change (ps_rest p2) with t; by rewrite Ht, <- app_assoc|].
      do 2 (apply inside_step; [done|]). done. }
  split; [done|]. apply (HQ [] (c :: t)); [done|]. left. split; [constructor|]. split; [done|].
  intros [-> [Hh|Hh]]; rewrite Hh in *; by cbn in *.
Qed.

Lemma skip_ws_runs input p (Q : unit → Parser → Prop) :
  (∀ w r, p.(ps_rest) = w ++ r → blanks_then w r → Q () (advance w p)) → runs input skip_ws p Q.
Proof. intros HQ. apply skip_ws_loop_runs; [lia|done]. Qed.

(** The loop goes past blanks. *)
Lemma skip_ws_loop_past fuel p w r :
  blank w → p.(ps_rest) = w ++ r → (length p.(ps_rest) < fuel)%nat →
  ∃ fuel', (length r < fuel')%nat ∧ skip_ws_loop fuel p = skip_ws_loop fuel' (advance w p).
Proof.
  intros Hw. revert fuel p. induction Hw as [|c w Hc Hw IH|body w Hb Hw IH|body w Hb Hw IH];
    intros [|fuel] p Hp Hlen; try lia.
  - exists (S fuel). split; [by rewrite Hp in Hlen|done].
  - rewrite Hp in Hlen. destruct (IH fuel (step c (w ++ r) p) eq_refl) as (f & Hf & Heq); [cbn in *; lia|].
    exists f. split; [done|]. cbn [skip_ws_loop]. rewrite Hp. cbn [app]. rewrite is_space, bool_decide_eq_true_2 by done.
    rewrite Heq. by rewrite (advance_cons c w (w ++ r)).
  - set (p2 := advance [47; 47] p).
    assert (Hq : (advance body p2).(ps_rest) = (10 :: w) ++ r).
    { apply advance_rest, advance_rest. rewrite Hp. cbn. by rewrite <- app_assoc. }
    destruct (IH fuel _ Hq) as (f & Hf & Heq).
    { rewrite Hq. rewrite Hp in Hlen. cbn [app length] in *. rewrite <- app_assoc, !length_app in Hlen.
      cbn [app length] in Hlen. rewrite !length_app in *. lia. }
    exists f. split; [done|]. cbn [skip_ws_loop]. rewrite Hp. cbn [app head tail Z.eqb Pos.eqb orb andb].
    rewrite bool_decide_eq_true_2, <- app_assoc by done.
    rewrite advance_two by (rewrite Hp; cbn; by rewrite <- app_assoc).
    rewrite skip_line_complete; [|apply advance_rest; rewrite Hp; cbn; by rewrite <- app_assoc|done|by right].
    unfold p2 in Heq. rewrite Heq. by rewrite <- !advance_app.
  - set (p2 := advance [47; 42] p).
    assert (Hq : (advance (body ++ [42; 47]) p2).(ps_rest) = w ++ r).
    { apply advance_rest, advance_rest. rewrite Hp. cbn. by rewrite <- !app_assoc. }
    destruct (IH fuel _ Hq) as (f & Hf & Heq).
    { rewrite Hq. rewrite Hp in Hlen. cbn [app length] in *. rewrite <- app_assoc, !length_app in Hlen.
      cbn [app length] in Hlen. rewrite !length_app in *. lia. }
    exists f. split; [done|]. cbn [skip_ws_loop]. rewrite Hp. cbn [app head tail Z.eqb Pos.eqb orb andb].
    rewrite bool_decide_eq_false_2, bool_decide_eq_true_2, <- app_assoc by done. cbn [app].
    rewrite advance_two by (rewrite Hp; cbn; by rewrite <- app_assoc).
    rewrite skip_block_complete; [|apply advance_rest; rewrite Hp; cbn; by rewrite <- app_assoc|done].
    unfold p2 in Heq. rewrite Heq, <- !advance_app. cbn [app]. by rewrite <- app_assoc.
Qed.

Lemma skip_ws_loop_solid fuel p : solid p.(ps_rest) → skip_ws_loop (S fuel) p = Some (Ok ((), p)).
Proof.
  cbn [skip_ws_loop]. destruct (ps_rest p) as [|c t]; [done|]. intros [Hc Hn].
  rewrite is_space, bool_decide_eq_false_2 by done.
  destruct ((c =? 47) && bool_decide (head t = Some 47)) eqn:E1; [breflect; naive_solver|].
  destruct ((c =? 47) && bool_decide (head t = Some 42)) eqn:E2; [breflect; naive_solver|]. done.
Qed.

(** Blanks are skipped when something that is none follows, or the end. *)
Lemma skip_ws_blank p w r :
  blank w → p.(ps_rest) = w ++ r → solid r → skip_ws p = Some (Ok ((), advance w p)).
Proof.
  intros Hw Hp Hr. destruct (skip_ws_loop_past (S (length (ps_rest p))) p w r) as ([|f] & Hf & Heq); [done..|lia|lia|].
  unfold skip_ws. rewrite Heq. apply skip_ws_loop_solid. by rewrite (advance_rest w r).
Qed.

Lemma skip_ws_line fuel p body :
  p.(ps_rest) = 47 :: 47 :: body → 10 ∉ body → (1 < fuel)%nat →
  skip_ws_loop fuel p = Some (Ok ((), advance (47 :: 47 :: body) p)).
Proof.
  intros Hp Hb Hf. destruct fuel as [|[|fuel]]; [lia..|]. remember (S fuel) as f eqn:Hf'. cbn [skip_ws_loop].
  rewrite Hp. cbn [head tail Z.eqb Pos.eqb orb andb].
  assert (Hq : (advance [47; 47] p).(ps_rest) = body ++ []) by (rewrite app_nil_r; by apply advance_rest).
  rewrite bool_decide_eq_true_2, advance_two by done. rewrite <- (app_nil_r body) at 1.
  rewrite (skip_line_complete body []); [|done..|by left].
  rewrite Hf', skip_ws_loop_solid; [by rewrite <- advance_app|]. by rewrite (advance_rest body []).
Qed.

Lemma skip_ws_trailing p w : trailing w → p.(ps_rest) = w → skip_ws p = Some (Ok ((), advance w p)).
Proof.
  intros [Hw|(b & body & -> & Hb & Hn)] Hp; [by apply (skip_ws_blank p w []); [|rewrite app_nil_r|]|].
  destruct (skip_ws_loop_past (S (length (ps_rest p))) p b (47 :: 47 :: body)) as (f & Hf & Heq); [done..|lia|].
  unfold skip_ws. rewrite Heq, (skip_ws_line f _ body), advance_app; [done|by apply advance_rest|done|cbn in Hf; lia].
Qed.
