(* ===== verification/HujsonSound.v ===== *)
(** * The HUJSON parser reads its language

    Every method of [Hujson] returns, with an error at a position of the input or
    with an answer that its grammar in [HujsonLang] gives to the word it has read. *)

From S2P Require Import Prelude Text PolicyModel Hujson HujsonLang.

(** ** What a method reads

    [reads m p G]: the method returns; with an answer it has read a word [w] of
    its input, leaving [r], and [G w r] holds of the answer. *)
Section reads.
  Context (input : text).

Definition reads {A} (m : parser A) (p : Parser) (G : text → text → A → Prop) : Prop :=
  runs input m p (λ a p', ∃ w r, p.(ps_rest) = w ++ r ∧ p' = advance w p ∧ G w r a).

Lemma reads_weaken {A} (m : parser A) p (G H : text → text → A → Prop) :
  reads m p G → (∀ w r a, p.(ps_rest) = w ++ r → G w r a → H w r a) → reads m p H.
Proof.
  intros Hm HGH. eapply runs_weaken; [exact Hm|]. intros a p' (w & r & Hp & -> & HG).
  exists w, r. auto.
Qed.

Lemma reads_bind {A B} (m : parser A) (k : A → parser B) p G H :
  reads m p G →
  (∀ w r a, p.(ps_rest) = w ++ r → G w r a → reads (k a) (advance w p) (λ w' r' b, r = w' ++ r' → H (w ++ w') r' b)) →
  reads (pbind m k) p H.
Proof.
  intros Hm Hk. apply runs_bind. eapply runs_weaken; [exact Hm|]. intros a p' (w & r & Hp & -> & HG).
  eapply runs_weaken; [by apply (Hk w r a)|]. intros b p'' (w' & r' & Hp' & -> & HH).
  rewrite (advance_rest w r) in Hp' by done. exists (w ++ w'), r'.
  split; [by rewrite <- app_assoc, <- Hp'|]. split; [by rewrite advance_app|]. by apply HH.
Qed.

Lemma reads_ret {A} (a : A) p (G : text → text → A → Prop) : G [] p.(ps_rest) a → reads (pret a) p G.
Proof. intros HG. apply runs_ret. by exists [], (ps_rest p). Qed.

Lemma reads_err_here {A} msg p (G : text → text → A → Prop) : reads (err_here msg) p G.
Proof. apply runs_err_here. Qed.

Lemma reads_err_at {A} pos msg p (G : text → text → A → Prop) : located input pos → reads (err_at pos msg) p G.
Proof. apply runs_err_at. Qed.

Lemma reads_position {A} (k : Z * Z → parser A) p G :
  (∀ pos, located input pos → reads (k pos) p G) → reads (pbind position k) p G.
Proof. intros Hk. apply runs_bind, runs_position. exact Hk. Qed.

Lemma reads_peek {A} (k : option Z → parser A) p G :
  reads (k (head p.(ps_rest))) p G → reads (pbind peek k) p G.
Proof. intros Hk. by apply runs_bind, runs_peek. Qed.

Lemma reads_peek_next {A} (k : option Z → parser A) p G :
  reads (k (head (tail p.(ps_rest)))) p G → reads (pbind peek_next k) p G.
Proof. intros Hk. by apply runs_bind, runs_peek_next. Qed.

Lemma reads_remaining {A} (k : text → parser A) p G :
  reads (k p.(ps_rest)) p G → reads (pbind remaining k) p G.
Proof. intros Hk. apply runs_bind. intros Hi. by split. Qed.

Lemma reads_taken {A} s (k : text → parser A) p G :
  reads (k (take (length s - length p.(ps_rest)) s)) p G → reads (pbind (taken_from s) k) p G.
Proof. intros Hk. apply runs_bind. intros Hi. by split. Qed.

(** One character. *)
Lemma reads_bump {A} (k : option Z → parser A) p G :
  match p.(ps_rest) with
  | [] => reads (k None) p G
  | c :: r => reads (k (Some c)) (step c r p) (λ w r' a, r = w ++ r' → G (c :: w) r' a)
  end → reads (pbind bump k) p G.
Proof.
  intros Hk. apply runs_bind, runs_bump. destruct (ps_rest p) as [|c r] eqn:Hp.
  { unfold reads in Hk. by rewrite Hp in Hk. }
  eapply runs_weaken; [exact Hk|]. intros a p' (w & r' & Hr & -> & HG). cbn [step ps_rest] in Hr.
  exists (c :: w), r'. split; [cbn; by rewrite <- Hr|]. split; [by apply advance_cons|auto].
Qed.

Lemma reads_bump_some {A} c r (k : option Z → parser A) p G :
  p.(ps_rest) = c :: r →
  reads (k (Some c)) (step c r p) (λ w r' a, r = w ++ r' → G (c :: w) r' a) → reads (pbind bump k) p G.
Proof. intros Hp Hk. apply reads_bump. by rewrite Hp. Qed.

Lemma reads_expect {A} c ctx (k : unit → parser A) p G :
  (∀ r, p.(ps_rest) = c :: r → reads (k ()) (step c r p) (λ w r' a, r = w ++ r' → G (c :: w) r' a)) →
  reads (pbind (expect c ctx) k) p G.
Proof.
  intros Hk. apply runs_bind, runs_expect. intros r Hp. eapply runs_weaken; [exact (Hk r Hp)|].
  intros a p' (w & r' & Hr & -> & HG). cbn [step ps_rest] in Hr. exists (c :: w), r'.
  split; [rewrite Hp; cbn; by rewrite <- Hr|]. split; [by apply advance_cons|auto].
Qed.

(** Blanks, in front of something or at the end. *)
Lemma reads_ws {A} (k : unit → parser A) p G :
  (∀ w r, p.(ps_rest) = w ++ r → blanks_then w r →
          reads (k ()) (advance w p) (λ w' r' a, r = w' ++ r' → G (w ++ w') r' a)) →
  reads (pbind skip_ws k) p G.
Proof.
  intros Hk. apply (reads_bind _ _ _ (λ w r _, blanks_then w r)); [|intros w r []; apply Hk].
  apply skip_ws_runs. intros w r Hp Hw. by exists w, r.
Qed.

(** ** Strings *)

Lemma reads_hex n v p :
  reads (hex_loop n v) p (λ w _ v', length w = n ∧
    ∃ vs, span_digits 16 w = (vs, []) ∧ v' = fold_left (λ a d, a * 16 + d) vs v).
Proof.
  revert v p. induction n as [|n IH]; intros v p; cbn [hex_loop].
  { apply reads_ret. split; [done|]. by exists []. }
  apply reads_bump. destruct (ps_rest p) as [|c r]; [apply reads_err_here|].
  destruct (to_digit 16 c) as [d|] eqn:Hd; [|apply reads_err_here].
  eapply reads_weaken; [apply IH|]. intros w r' v' _ (Hl & vs & Hs & ->) _.
  split; [cbn; by rewrite Hl|]. exists (d :: vs). split; [|done]. cbn [span_digits]. by rewrite Hd, Hs.
Qed.

Lemma reads_hex_quad p : reads parse_hex_quad p (λ w _ v, hex4 w v).
Proof. apply reads_hex. Qed.

(** An escape adds to the string, whatever is read after it. *)
Definition escaped (w r added : text) : Prop :=
  ∀ x s r', r = x ++ 34 :: r' → chars x s → chars (92 :: w ++ x) (added ++ s).

Lemma reads_unicode p : reads parse_unicode_escape p (λ w r added, escaped (117 :: w) r added).
Proof.
  unfold parse_unicode_escape. eapply reads_bind; [apply reads_hex_quad|]. intros ds r hi Hp Hhi.
  destruct ((0xD800 <=? hi) && (hi <=? 0xDBFF)) eqn:Eh.
  2: { destruct ((0xDC00 <=? hi) && (hi <=? 0xDFFF)) eqn:El; apply reads_ret; intros _ x s r' _ Hx;
       rewrite app_nil_r; cbn [app]; [by apply chars_lone_low with hi|by apply chars_unicode]. }
  change (high_surrogate hi = true) in Eh. apply reads_peek, reads_peek_next. rewrite (advance_rest ds r p Hp).
  destruct (bool_decide _ && _) eqn:E.
  - breflect. destruct r as [|a [|b r]]; cbn in *; simplify_eq.
    apply (reads_bump_some 92 (117 :: r)); [by apply advance_rest|].
    apply (reads_bump_some 117 r); [done|]. eapply reads_bind; [apply reads_hex_quad|].
    intros es r2 lo Hr Hlo. cbn in Hr.
    destruct ((0xDC00 <=? lo) && (lo <=? 0xDFFF)) eqn:El; apply reads_ret; intros _ _ _ _ x s r' _ Hx;
      rewrite app_nil_r; cbn [app]; rewrite <- app_assoc; cbn [app].
    + by apply chars_pair.
    + by apply chars_no_pair with hi.
  - apply reads_ret. intros _ x s r' Hr Hx. rewrite app_nil_r. cbn. apply chars_lone_high with hi; [done..| |done].
    rewrite (advance_rest ds r p Hp) in Hr. intros y ->. cbn in Hr. rewrite Hr in E. done.
Qed.

Lemma reads_escape p : reads parse_escape p escaped.
Proof.
  unfold parse_escape. apply reads_bump. destruct (ps_rest p) as [|c r]; [apply reads_err_here|].
  destruct (simple_escape c) as [v|] eqn:Hv.
  { apply reads_ret. intros _ x s r' _ Hx. cbn. by apply chars_escape. }
  destruct (Z.eqb_spec c 117) as [->|]; [|apply reads_err_here].
  eapply reads_weaken; [apply reads_unicode|]. intros w r' a _ Ha _. exact Ha.
Qed.

Lemma reads_string_loop fuel out p :
  (length p.(ps_rest) < fuel)%nat →
  reads (string_loop fuel out) p (λ w _ s, ∃ x t, w = x ++ [34] ∧ chars x t ∧ s = out ++ t).
Proof.
  revert out p. induction fuel as [|fuel IH]; intros out p Hlen; [lia|]. cbn [string_loop].
  apply reads_peek. destruct (ps_rest p) as [|c r] eqn:Hp; cbn [head]; [apply reads_err_here|].
  cbn [length] in Hlen. destruct (Z.eqb_spec c 34) as [->|H34].
  { apply (reads_bump_some 34 r); [done|]. apply reads_ret. intros _. exists [], [].
    split; [done|]. split; [constructor|]. by rewrite app_nil_r. }
  destruct (Z.eqb_spec c 92) as [->|H92].
  - apply (reads_bump_some 92 r); [done|]. eapply reads_bind; [apply reads_escape|].
    intros w r1 added Hr Hw. cbn in Hr. eapply reads_weaken.
    { apply IH. rewrite (advance_rest w r1) by done. rewrite Hr, length_app in Hlen. lia. }
    intros w' r2 s Hr1 (x & t & -> & Hx & ->) Hr2 _. exists (92 :: w ++ x), (added ++ t).
    split; [cbn; by rewrite <- app_assoc|]. split; [|by rewrite <- app_assoc].
    apply (Hw x t r2); [|done]. rewrite Hr2, <- app_assoc. done.
  - destruct (is_control c) eqn:Hc; [apply reads_err_here|].
    apply (reads_bump_some c r); [done|]. eapply reads_weaken; [apply IH; cbn; lia|].
    intros w r1 s _ (x & t & -> & Hx & ->) _. exists (c :: x), (c :: t).
    split; [done|]. split; [by apply chars_plain|by rewrite <- app_assoc].
Qed.

Lemma reads_string p : reads parse_string p (λ w _ s, ∃ x, w = 34 :: x ++ [34] ∧ chars x s).
Proof.
  intros Hi. unfold parse_string. revert Hi. apply reads_expect. intros r Hp.
  eapply reads_weaken; [apply reads_string_loop; rewrite Hp; cbn; lia|].
  intros w r' s _ (x & t & -> & Hx & ->) _. by exists x.
Qed.

End reads.

(** ** Literals and numbers *)
Section scalars.
  Context (input : text).

Lemma reads_literal_loop literal start message p :
  located input start → reads input (literal_loop literal start message) p (λ w _ _, w = literal).
Proof.
  intros Hs. revert p. induction literal as [|e literal IH]; intros p; cbn [literal_loop].
  { by apply reads_ret. }
  apply reads_bump. destruct (ps_rest p) as [|c r]; [by apply reads_err_at|].
  case_bool_decide as E; [|by apply reads_err_at]. injection E as ->.
  eapply reads_weaken; [apply IH|]. by intros w r' _ _ -> _.
Qed.

Lemma reads_literal literal v p :
  reads input (parse_literal literal v) p (λ w _ a, w = literal ∧ a = v).
Proof.
  unfold parse_literal. apply reads_position. intros start Hs.
  eapply reads_bind; [by apply reads_literal_loop|]. intros w r [] _ ->. apply reads_peek.
  destruct (head _); [destruct (_ || _); [by apply reads_err_at|]|]; apply reads_ret; intros _;
    by rewrite app_nil_r.
Qed.

Lemma digits_loop_spec s p :
  p.(ps_rest) = s →
  ∃ w r, s = w ++ r ∧ digits_loop s p = advance w p
         ∧ Forall (λ c, is_ascii_digit c = true) w ∧ is_digit_next (head r) = false.
Proof.
  revert p. induction s as [|c t IH]; intros p Hp; cbn [digits_loop]; [by exists [], []|].
  destruct (is_ascii_digit c) eqn:Hc.
  - destruct (IH (step c t p) eq_refl) as (w & r & -> & -> & Hw & Hr). exists (c :: w), r.
    split; [done|]. split; [by apply advance_cons|]. split; [by constructor|done].
  - exists [], (c :: t). by repeat split.
Qed.

Lemma reads_skip_digits p :
  reads input skip_digits p (λ w _ _, Forall (λ c, is_ascii_digit c = true) w).
Proof.
  intros Hi. unfold skip_digits, pret.
  destruct (digits_loop_spec (ps_rest p) p eq_refl) as (w & r & Hp & -> & Hw & _).
  split; [by apply (inside_advance _ w r)|]. by exists w, r.
Qed.

(** A first digit that was seen. *)
Lemma reads_digits p :
  is_digit_next (head p.(ps_rest)) = true → reads input skip_digits p (λ w _ _, digit_word w).
Proof.
  intros Hd Hi. unfold skip_digits, pret.
  destruct (digits_loop_spec (ps_rest p) p eq_refl) as (w & r & Hp & -> & Hw & Hr).
  split; [by apply (inside_advance _ w r)|]. exists w, r. split; [done|]. split; [done|]. split; [|done].
  intros ->. rewrite Hp in Hd. cbn in Hd. by rewrite Hd in Hr.
Qed.

Lemma reads_sign p : reads input number_sign p (λ w _ _, w = [] ∨ w = [45]).
Proof.
  unfold number_sign. apply reads_peek. case_bool_decide as E; [|apply reads_ret; by left].
  destruct (ps_rest p) as [|c r] eqn:Hp; [done|]. injection E as ->.
  apply (reads_bump_some _ 45 r); [done|]. apply reads_ret. intros _. by right.
Qed.

Lemma reads_int p : reads input number_int p (λ w _ _, w = [48] ∨ digit_word w ∧ head w ≠ Some 48).
Proof.
  unfold number_int. apply reads_peek. destruct (ps_rest p) as [|c r] eqn:Hp; [apply reads_err_here|].
  cbn [head is_digit_next]. case_bool_decide as E.
  { injection E as ->. apply (reads_bump_some _ 48 r); [done|]. apply reads_ret. intros _. by left. }
  destruct (is_ascii_digit c) eqn:Hc; [|apply reads_err_here]. apply (reads_bump_some _ c r); [done|].
  eapply reads_weaken; [apply reads_skip_digits|]. intros w r' [] _ Hw _. right.
  split; [split; [done|by constructor]|done].
Qed.

Lemma reads_frac p : reads input number_frac p (λ w _ _, w = [] ∨ ∃ ds, w = 46 :: ds ∧ digit_word ds).
Proof.
  unfold number_frac. apply reads_peek. case_bool_decide as E; [|apply reads_ret; by left].
  destruct (ps_rest p) as [|c r] eqn:Hp; [done|]. injection E as ->.
  apply (reads_bump_some _ 46 r); [done|]. apply reads_peek. destruct (is_digit_next _) eqn:Hd; [|apply reads_err_here].
  eapply reads_weaken; [by apply reads_digits|]. intros w r' [] _ Hw _. right. by exists w.
Qed.

Lemma reads_exp p :
  reads input number_exp p (λ w _ _, w = [] ∨ ∃ e s ds, w = e :: s ++ ds ∧ (e = 101 ∨ e = 69)
                              ∧ (s = [] ∨ s = [43] ∨ s = [45]) ∧ digit_word ds).
Proof.
  unfold number_exp. apply reads_peek.
  destruct (bool_decide _ || bool_decide _) eqn:E; [|apply reads_ret; by left].
  destruct (ps_rest p) as [|e r] eqn:Hp; [done|]. cbn [head] in E.
  apply (reads_bump_some _ e r); [done|]. apply reads_peek.
  eapply (reads_bind _ _ _ _ (λ s _ _, s = [] ∨ s = [43] ∨ s = [45])).
  { cbn [step ps_rest]. destruct r as [|s r]; [apply reads_ret; by left|]. cbn [head].
    destruct (bool_decide (Some s = _) || _) eqn:Es; [|apply reads_ret; by left].
    apply (reads_bump_some _ s r); [done|]. apply reads_ret. intros _. right.
    apply orb_true_iff in Es as [Es|Es]; breflect; injection Es as ->; auto. }
  intros s r1 [] _ Hs. apply reads_peek. destruct (is_digit_next _) eqn:Hd; [|apply reads_err_here].
  eapply reads_weaken; [by apply reads_digits|]. intros ds r' [] _ Hw _ _. right. exists e, s, ds.
  split; [done|]. split; [|done]. apply orb_true_iff in E as [E|E]; breflect; injection E as ->; auto.
Qed.

Lemma reads_token p : reads input number_token p (λ w _ _, number_word w).
Proof.
  unfold number_token. eapply reads_bind; [apply reads_sign|]. intros sg r1 [] _ Hsg.
  eapply reads_bind; [apply reads_int|]. intros int r2 [] _ Hint.
  eapply reads_bind; [apply reads_frac|]. intros frac r3 [] _ Hfrac.
  eapply reads_weaken; [apply reads_exp|]. intros exp r4 [] _ Hexp _ _ _. exists sg, int, frac, exp. auto.
Qed.

Lemma reads_number p :
  reads input parse_number p (λ w _ v, ∃ n, v = JNumber n ∧ number_word w ∧ parse_json_number w = Ok n).
Proof.
  unfold parse_number. apply reads_position. intros start Hs. apply reads_remaining.
  eapply reads_bind; [apply reads_token|]. intros w r [] Hp Hw. apply reads_peek.
  destruct (glued _).
  { apply reads_bump. destruct (ps_rest (advance w p)); apply reads_taken; by apply reads_err_at. }
  apply reads_taken. rewrite (advance_rest w r), Hp, length_app, Nat.add_sub, take_app_length by done.
  destruct (parse_json_number w) as [n|] eqn:Hn; [|by apply reads_err_at].
  apply reads_ret. intros _. rewrite app_nil_r. by exists n.
Qed.
End scalars.

(** ** Values *)

Lemma contains_key_insert k k' v m :
  contains_key k (map_insert k' v m) = bool_decide (k' = k) || contains_key k m.
Proof.
  induction m as [|[k2 v2] m IH]; cbn [map_insert contains_key]; [done|].
  destruct (bool_decide_reflect (k2 = k')) as [->|_]; [cbn [contains_key]; by destruct (bool_decide (k' = k))|].
  destruct (text_leb k' k2); cbn [contains_key]; [done|]. rewrite IH.
  by destruct (bool_decide (k2 = k)), (bool_decide (k' = k)).
Qed.

Lemma blank_app w x : blank w → blank x → blank (w ++ x).
Proof.
  intros Hw Hx. induction Hw as [|c w Hc Hw IH|body w Hb Hw IH|body w Hb Hw IH]; cbn [app]; [done|..].
  - by apply blank_space.
  - rewrite <- app_assoc. by apply blank_line.
  - rewrite <- app_assoc. by apply blank_block.
Qed.

Lemma blanks_then_blank w r : blanks_then w r → r ≠ [] → blank w.
Proof. by intros [[? ?]|[? ->]]. Qed.

Lemma blanks_then_trailing w : blanks_then w [] → trailing w.
Proof. intros [[Hw _]|[Hw _]]; [by left|done]. Qed.

Lemma digit_word_head w : digit_word w → ∃ c t, w = c :: t ∧ is_ascii_digit c = true.
Proof. intros [Hn Hw]. destruct w as [|c w]; [done|]. apply list.Forall_cons in Hw as [Hc _]. by exists c, w. Qed.

Lemma number_word_head w : number_word w → ∃ c t, w = c :: t ∧ ((c =? 45) || is_ascii_digit c = true).
Proof.
  intros (sg & int & fr & ex & -> & Hs & Hi & _).
  destruct Hs as [->| ->]; [|by exists 45, (int ++ fr ++ ex)].
  destruct Hi as [->|[Hi _]]; [by exists 48, (fr ++ ex)|].
  destruct (digit_word_head _ Hi) as (c & t & -> & Hc). exists c, (t ++ fr ++ ex).
  split; [done|]. rewrite Hc. apply orb_true_r.
Qed.

Lemma behind_nonempty (b x r : text) : x ≠ [] → (b ++ x) ++ r ≠ [].
Proof. by destruct b, x. Qed.

Lemma value_nonempty d w v : value d w v → w ≠ [].
Proof.
  intros Hv. destruct Hv as [| | |d w n Hw| | | | |]; try done.
  destruct (number_word_head w Hw) as (c & t & -> & _). done.
Qed.

Lemma elements_nonempty d w vs : elements d w vs → w ≠ [].
Proof.
  intros He. destruct He as [d w v b e Hv|d w v b c x vs Hv]; pose proof (value_nonempty _ _ _ Hv); by destruct w.
Qed.

Lemma members_nonempty d w kvs : members d w kvs → w ≠ [].
Proof. by intros []. Qed.

Lemma advance_with_depth d w p : advance w (with_depth d p) = with_depth d (advance w p).
Proof. revert p. induction w as [|c w IH]; intros p; [done|]. cbn [advance]. by rewrite <- IH. Qed.

Lemma with_depth_back p : with_depth (p.(ps_depth) + 1 - 1) (with_depth (p.(ps_depth) + 1) p) = p.
Proof. destruct p. unfold with_depth. cbn. f_equal. lia. Qed.

Section values.
  Context (input : text).

Lemma reads_nested inner p G :
  (p.(ps_depth) + 1 ≤ MAX_DEPTH → reads input inner (with_depth (p.(ps_depth) + 1) p) G) →
  reads input (nested inner) p G.
Proof.
  intros Hin Hi. unfold nested, pbind, enter_nested. cbn [with_depth ps_depth].
  destruct (Z.ltb_spec MAX_DEPTH (ps_depth p + 1)) as [|Hd]; [exact (inside_located input p Hi)|].
  cbn [pret]. specialize (Hin Hd Hi). destruct (inner _) as [[[v p']|e]|]; [|done..].
  destruct Hin as (Hi' & w & r & Hp & -> & HG). unfold leave_nested, pret.
  split; [done|]. exists w, r. split; [done|]. split; [|done].
  rewrite advance_depth, <- advance_with_depth. cbn [with_depth ps_depth]. by rewrite with_depth_back.
Qed.

Lemma reads_item_end close what expected p :
  reads input (item_end close what expected) p (λ w r done, ∃ b e, w = b ++ e ∧ blank b
    ∧ if done : bool then closing close e else ∃ c, e = 44 :: c ∧ blanks_then c r).
Proof.
  unfold item_end. apply reads_ws. intros b r Hp Hb. apply reads_peek. rewrite (advance_rest b r p Hp).
  destruct r as [|c r]; [apply reads_err_here|]. cbn [head].
  apply blanks_then_blank in Hb; [|done]. pose proof (advance_rest b (c :: r) p Hp) as Hq.
  destruct (Z.eqb_spec c 44) as [->|H44].
  - apply (reads_bump_some _ 44 r); [done|]. apply reads_ws. intros b2 r2 Hp2 Hb2. apply reads_peek.
    rewrite (advance_rest b2 r2) by done. case_bool_decide as Hc.
    + destruct r2 as [|x r2]; [done|]. injection Hc as ->. apply (reads_bump_some _ close r2); [by apply advance_rest|].
      apply reads_ret. intros _ _ _ _. exists b, (44 :: b2 ++ [close]). split; [done|]. split; [done|].
      right. exists b2. split; [by apply (blanks_then_blank _ _ Hb2)|done].
    + apply reads_ret. intros _ _ _. exists b, (44 :: b2). split; [by rewrite app_nil_r|]. split; [done|].
      exists b2. split; [done|]. by rewrite (advance_rest b2 r2).
  - destruct (Z.eqb_spec c close) as [->|]; [|apply reads_err_here]. apply (reads_bump_some _ close r); [done|].
    apply reads_ret. intros _ _. exists b, [close]. split; [done|]. split; [done|]. by left.
Qed.

Lemma reads_key m p :
  reads input (object_key m) p (λ w _ k, ∃ b x, w = b ++ 34 :: x ++ [34] ∧ blank b ∧ chars x k ∧ contains_key k m = false).
Proof.
  unfold object_key. apply reads_position. intros start Hs. apply reads_ws. intros b r Hp Hb.
  apply reads_peek. rewrite (advance_rest b r p Hp). destruct r as [|c r]; [apply reads_err_here|]. cbn [head].
  apply blanks_then_blank in Hb; [|done]. destruct (c =? 34); [|apply reads_err_here].
  eapply reads_bind; [apply reads_string|]. intros w r' k _ (x & -> & Hx).
  destruct (contains_key k m) eqn:Hk; [by apply reads_err_at|]. apply reads_ret. intros _ _.
  rewrite app_nil_r. by exists b, x.
Qed.

Lemma reads_container opening close ctx empty items d p (H : text → Json → Prop) :
  p.(ps_depth) + Z.of_nat d = MAX_DEPTH → (∀ x v, H x v → x ≠ []) →
  (∀ d' q, d = S d' → q.(ps_depth) + Z.of_nat d' = MAX_DEPTH → (length q.(ps_rest) < length p.(ps_rest))%nat →
           reads input items q (λ w _ v, ∃ b x, w = b ++ x ∧ blank b ∧ H x v)) →
  reads input (container opening close ctx empty items) p (λ w _ v, ∃ d', d = S d' ∧
    ((∃ b, blank b ∧ w = opening :: b ++ [close] ∧ v = empty) ∨ (∃ b x, blank b ∧ w = opening :: b ++ x ∧ H x v))).
Proof.
  intros Hd Hne Hitems. apply reads_nested. intros Hmax. destruct d as [|d]; [lia|].
  apply reads_expect. intros r Hp. apply reads_ws. intros b r2 Hp2 Hb. apply reads_peek.
  pose proof (advance_rest b r2 _ Hp2) as Hq. cbn [step with_depth ps_rest] in Hp, Hp2.
  rewrite Hq. case_bool_decide as Hc.
  - destruct r2 as [|x r2]; [done|]. injection Hc as ->. apply (reads_bump_some _ close r2); [done|].
    apply reads_ret. intros _ _ _. exists d. split; [done|]. left. exists b.
    split; [by apply (blanks_then_blank _ _ Hb)|done].
  - eapply reads_weaken.
    + apply (Hitems d); [done|rewrite advance_depth; cbn; lia|].
      rewrite Hq, Hp, Hp2. cbn [length]. rewrite length_app. lia.
    + intros w r3 v Hw (b2 & x & -> & Hb2 & HH) _ _. exists d. split; [done|]. right. exists (b ++ b2), x.
      split; [|split; [by rewrite <- app_assoc|done]]. apply blank_app; [|done].
      apply (blanks_then_blank _ _ Hb). rewrite Hq in Hw. rewrite Hw. by apply behind_nonempty, (Hne x v).
Qed.

(** The words of the loops: blanks, then the items. *)
Definition array_word (d : nat) (values : list Json) (x : text) (v : Json) : Prop :=
  ∃ vs, elements d x vs ∧ v = JArray (values ++ vs).

Definition object_word (d : nat) (m : list (text * Json)) (x : text) (v : Json) : Prop :=
  ∃ kvs, members d x kvs ∧ v = JObject (fields_of m kvs) ∧ NoDup kvs.*1
         ∧ ∀ k, k ∈ kvs.*1 → contains_key k m = false.

Lemma reads_array_loop fuel d values p :
  (2 * length p.(ps_rest) + 1 < fuel)%nat → p.(ps_depth) + Z.of_nat d = MAX_DEPTH →
  (∀ f q, (f < fuel)%nat → (2 * length q.(ps_rest) < f)%nat → q.(ps_depth) + Z.of_nat d = MAX_DEPTH →
          reads input (parse_value f) q (λ w _ v, ∃ b x, w = b ++ x ∧ blank b ∧ value d x v)) →
  reads input (array_loop fuel values) p (λ w _ v, ∃ b x, w = b ++ x ∧ blank b ∧ array_word d values x v).
Proof.
  revert values p. induction fuel as [|fuel IH]; intros values p Hf Hd Hval; [lia|]. cbn [array_loop].
  eapply reads_bind; [apply Hval; [lia..|done]|]. intros w r v Hp (b & x & -> & Hb & Hv).
  pose proof (advance_rest _ r p Hp) as Hq.
  eapply reads_bind; [apply reads_item_end|]. intros w' r' done Hp' (b2 & e & -> & Hb2 & He).
  pose proof (advance_rest _ r' _ Hp') as Hq'. rewrite Hq in Hp'. destruct done.
  - apply reads_ret. intros _ _. exists b, (x ++ b2 ++ e). rewrite app_nil_r, <- app_assoc.
    split; [done|]. split; [done|]. exists [v]. split; [by constructor|done].
  - destruct He as (c & -> & Hc). eapply reads_weaken.
    + apply IH; [|by rewrite !advance_depth|].
      * rewrite Hq', Hp, Hp', !length_app in *. cbn [length] in *. rewrite ?length_app in *. lia.
      * intros f q Hf' Hq2 Hd'. apply Hval; [lia|done..].
    + intros w2 r2 v' Hw (b3 & y & -> & Hb3 & vs & Hvs & ->) _ _.
      rewrite Hq' in Hw. exists b, (x ++ b2 ++ 44 :: (c ++ b3) ++ y).
      split; [rewrite <- !app_assoc; cbn [app]; by rewrite <- ?app_assoc|]. split; [done|].
      exists (v :: vs). split; [|by rewrite <- app_assoc]. apply elements_more; [done..| |done].
      apply blank_app; [|done]. apply (blanks_then_blank _ _ Hc). rewrite Hw. by apply behind_nonempty, (elements_nonempty d y vs).
Qed.

Lemma reads_object_loop fuel d m p :
  (2 * length p.(ps_rest) + 1 < fuel)%nat → p.(ps_depth) + Z.of_nat d = MAX_DEPTH →
  (∀ f q, (f < fuel)%nat → (2 * length q.(ps_rest) < f)%nat → q.(ps_depth) + Z.of_nat d = MAX_DEPTH →
          reads input (parse_value f) q (λ w _ v, ∃ b x, w = b ++ x ∧ blank b ∧ value d x v)) →
  reads input (object_loop fuel m) p (λ w _ v, ∃ b x, w = b ++ x ∧ blank b ∧ object_word d m x v).
Proof.
  revert m p. induction fuel as [|fuel IH]; intros m p Hf Hd Hval; [lia|]. cbn [object_loop].
  eapply reads_bind; [apply reads_key|]. intros w0 r0 s Hp0 (b & k & -> & Hb & Hk & Hnew).
  pose proof (advance_rest _ r0 p Hp0) as Hq0.
  apply reads_ws. intros a r1 Hp1 Ha. pose proof (advance_rest _ r1 _ Hp1) as Hq1. rewrite Hq0 in Hp1.
  apply reads_expect. rewrite Hq1. intros r2 ->. apply blanks_then_blank in Ha; [|done].
  apply reads_ws. intros g r3 Hp3 Hg. pose proof (advance_rest _ r3 _ Hp3) as Hq3. cbn [step ps_rest] in Hp3.
  assert (Hl : (length r3 < length p.(ps_rest))%nat).
  { rewrite Hp0, Hp1, Hp3. lens. }
  eapply reads_bind.
  { apply Hval; [lia|rewrite Hq3; lia|]. by rewrite advance_depth; cbn [step ps_depth]; rewrite !advance_depth. }
  intros w r v Hp (b1 & x & -> & Hb1 & Hv). pose proof (advance_rest _ r _ Hp) as Hq. rewrite Hq3 in Hp.
  eapply reads_bind; [apply reads_item_end|]. intros w' r' done Hp' (b2 & e & -> & Hb2 & He).
  pose proof (advance_rest _ r' _ Hp') as Hq'. rewrite Hq in Hp'.
  assert (Hg' : blank (g ++ b1)).
  { apply blank_app; [|done]. apply (blanks_then_blank _ _ Hg). rewrite Hp.
    by apply behind_nonempty, (value_nonempty d x v). }
  destruct done.
  - apply reads_ret. do 6 intros _. exists b, (34 :: k ++ 34 :: a ++ 58 :: (g ++ b1) ++ x ++ b2 ++ e).
    split; [by repeat (cbn [app] || rewrite <- app_assoc || rewrite app_nil_r)|]. split; [done|]. exists [(s, v)].
    split; [by constructor|]. split; [done|]. split; [apply NoDup_singleton|].
    intros k'. change ([(s, v)].*1) with [s]. rewrite list_elem_of_singleton. by intros ->.
  - destruct He as (c & -> & Hc). eapply reads_weaken.
    + apply IH; [|by rewrite !advance_depth; cbn [step ps_depth]; rewrite !advance_depth|].
      * rewrite Hq'. rewrite Hp, Hp' in Hl. clear -Hl Hf. lens.
      * intros f q Hf' Hq2 Hd'. apply Hval; [lia|done..].
    + intros w2 r4 v' Hw (b3 & y & -> & Hb3 & kvs & Hkvs & -> & Hnd & Hfresh). do 6 intros _.
      rewrite Hq' in Hw. exists b, (34 :: k ++ 34 :: a ++ 58 :: (g ++ b1) ++ x ++ b2 ++ 44 :: (c ++ b3) ++ y).
      split; [by repeat (cbn [app] || rewrite <- app_assoc)|]. split; [done|].
      exists ((s, v) :: kvs). split.
      { apply members_more; [done..| |done]. apply blank_app; [|done]. apply (blanks_then_blank _ _ Hc).
        rewrite Hw. by apply behind_nonempty, (members_nonempty d y kvs). }
      split; [done|].
      assert (Hboth : ∀ k', k' ∈ kvs.*1 → s ≠ k' ∧ contains_key k' m = false).
      { intros k' Hk'. specialize (Hfresh k' Hk'). rewrite contains_key_insert in Hfresh. breflect. done. }
      split; [cbn; constructor; [|done]; intros Hin; by destruct (Hboth s Hin)|].
      intros k'. cbn. rewrite elem_of_cons. intros [->|Hin]; [done|by apply Hboth].
Qed.
End values.

Lemma reads_value input fuel d p :
  (2 * length p.(ps_rest) < fuel)%nat → p.(ps_depth) + Z.of_nat d = MAX_DEPTH →
  reads input (parse_value fuel) p (λ w _ v, ∃ b x, w = b ++ x ∧ blank b ∧ value d x v).
Proof.
  revert d p. induction fuel as [fuel IH] using lt_wf_ind. intros d p Hf Hd.
  destruct fuel as [|fuel]; [lia|]. cbn [parse_value].
  apply reads_ws. intros b r Hp Hb. pose proof (advance_rest b r p Hp) as Hq.
  apply reads_peek. rewrite Hq. destruct r as [|c r]; [apply reads_err_here|]. cbn [head].
  apply blanks_then_blank in Hb; [|done].
  assert (Hl : (length (c :: r) ≤ length p.(ps_rest))%nat) by (rewrite Hp; lens).
  assert (Hd' : (advance b p).(ps_depth) + Z.of_nat d = MAX_DEPTH) by (by rewrite advance_depth).
  enough (Hm : ∀ m, reads input m (advance b p) (λ w _ v, value d w v) →
            reads input m (advance b p) (λ w' r' v, c :: r = w' ++ r' →
              ∃ b0 x, b ++ w' = b0 ++ x ∧ blank b0 ∧ value d x v)).
  2: { intros m Hm. eapply reads_weaken; [exact Hm|]. intros w r' v _ Hv _. by exists b, w. }
  destruct (Z.eqb_spec c 123) as [->|_].
  { apply Hm. eapply reads_weaken.
    { apply (reads_container _ _ _ _ _ _ d _ (λ x v, ∃ d', d = S d' ∧ object_word d' [] x v)); [done|..].
      - intros x v (d' & _ & kvs & Hk & _). by apply (members_nonempty d' x kvs).
      - intros d' q -> Hdq Hlq. eapply reads_weaken.
        + apply (reads_object_loop _ fuel d'); [rewrite Hq in Hlq; lia|done|].
          intros f q' Hf' Hlq' Hdq'. by apply IH; [lia|..].
        + intros w r' v _ (b0 & x & -> & Hb0 & Hx). exists b0, x. eauto. }
    intros w r' v _ (d' & -> & [(b0 & Hb0 & -> & ->)|(b0 & x & Hb0 & -> & d2 & [= <-] & kvs & Hk & -> & Hnd & _)]).
    - by apply value_empty_object.
    - by apply value_object. }
  destruct (Z.eqb_spec c 91) as [->|_].
  { apply Hm. eapply reads_weaken.
    { apply (reads_container _ _ _ _ _ _ d _ (λ x v, ∃ d', d = S d' ∧ array_word d' [] x v)); [done|..].
      - intros x v (d' & _ & vs & Hk & _). by apply (elements_nonempty d' x vs).
      - intros d' q -> Hdq Hlq. eapply reads_weaken.
        + apply (reads_array_loop _ fuel d'); [rewrite Hq in Hlq; lia|done|].
          intros f q' Hf' Hlq' Hdq'. by apply IH; [lia|..].
        + intros w r' v _ (b0 & x & -> & Hb0 & Hx). exists b0, x. eauto. }
    intros w r' v _ (d' & -> & [(b0 & Hb0 & -> & ->)|(b0 & x & Hb0 & -> & d2 & [= <-] & vs & Hk & ->)]).
    - by apply value_empty_array.
    - by apply value_array. }
  destruct (c =? 34).
  { apply Hm. eapply reads_bind; [apply reads_string|]. intros w r' s _ (x & -> & Hx).
    apply reads_ret. intros _. rewrite app_nil_r. by constructor. }
  destruct (c =? 116).
  { apply Hm. eapply reads_weaken; [apply reads_literal|]. intros w r' v _ [-> ->]. constructor. }
  destruct (c =? 102).
  { apply Hm. eapply reads_weaken; [apply reads_literal|]. intros w r' v _ [-> ->]. constructor. }
  destruct (c =? 110).
  { apply Hm. eapply reads_weaken; [apply reads_literal|]. intros w r' v _ [-> ->]. constructor. }
  destruct (_ || _); [|apply reads_err_here].
  apply Hm. eapply reads_weaken; [apply reads_number|]. intros w r' v _ (n & -> & Hw & Hn). by constructor.
Qed.

Lemma reads_document s :
  reads s (document (2 * length s + 2)) (Parser_new s) (λ w r v, r = [] ∧ hujson w v).
Proof.
  unfold document. eapply reads_bind.
  { apply (reads_value _ _ 128); [cbn; lia|done]. }
  intros w r v Hp (b & x & -> & Hb & Hv). apply reads_ws. intros t r2 Hp2 Ht.
  apply reads_peek. rewrite (advance_rest t r2 _ Hp2). destruct r2 as [|c r2]; [|apply reads_err_here].
  apply reads_ret. intros _ _. rewrite (advance_rest t [] _ Hp2). split; [done|].
  exists b, x, t. rewrite app_nil_r, <- app_assoc. split; [done|]. split; [done|]. split; [done|].
  by apply blanks_then_trailing.
Qed.

(** What a run of the parser comes to. *)
Lemma parse_cases s :
  match parse s with
  | Some (Ok v) => hujson s v
  | Some (Err e) => located s (e.(err_line), e.(err_column))
  | None => False
  end.
Proof.
  assert (Hi : inside s (Parser_new s)) by (by exists []).
  pose proof (reads_document s Hi) as H. unfold parse.
  destruct (document _ _) as [[[v p']|e]|]; [|done..].
  destruct H as (_ & w & r & Hp & _ & -> & Hw). rewrite app_nil_r in Hp. cbn in Hp. by rewrite Hp.
Qed.
