(* ===== verification/HujsonAccept.v ===== *)
(** * The HUJSON parser accepts its language

    The words of the grammar in [HujsonLang] are parsed to their values, and with
    [HujsonSound] nothing else is: [parse] decides the language. *)

From S2P Require Import Prelude Text PolicyModel Hujson HujsonLang HujsonSound.

(** ** The parser accepts the language *)

Definition accepts {A} (m : parser A) (p : Parser) (w : text) (a : A) : Prop := m p = Some (Ok (a, advance w p)).

Lemma accepts_bind {A B} (m : parser A) (k : A → parser B) p w a x b :
  accepts m p w a → accepts (k a) (advance w p) x b → accepts (pbind m k) p (w ++ x) b.
Proof. unfold accepts, pbind. intros -> ->. by rewrite advance_app. Qed.

Lemma accepts_ret {A} (a : A) p : accepts (pret a) p [] a.
Proof. done. Qed.

Lemma accepts_bind_nil {A B} (m : parser A) (k : A → parser B) p w a b :
  accepts m p w a → accepts (k a) (advance w p) [] b → accepts (pbind m k) p w b.
Proof. intros Hm Hk. rewrite <- (app_nil_r w). by eapply accepts_bind. Qed.

Lemma accepts_peek {A} (k : option Z → parser A) p w a :
  accepts (k (head p.(ps_rest))) p w a → accepts (pbind peek k) p w a.
Proof. done. Qed.

Lemma accepts_bump {A} c (k : option Z → parser A) p w a r :
  p.(ps_rest) = c :: r → accepts (k (Some c)) (step c r p) w a → accepts (pbind bump k) p (c :: w) a.
Proof.
  unfold accepts, pbind, bump. intros Hp Hk. rewrite Hp. cbn [pret]. rewrite Hk. by rewrite (advance_cons c w r).
Qed.

Lemma accepts_expect {A} c ctx (k : unit → parser A) p w a r :
  p.(ps_rest) = c :: r → accepts (k ()) (step c r p) w a → accepts (pbind (expect c ctx) k) p (c :: w) a.
Proof.
  intros Hp Hk. apply (accepts_bind _ _ _ [c] () w a).
  - apply (accepts_bump c _ _ [] _ r Hp). rewrite Z.eqb_refl. apply accepts_ret.
  - rewrite <- (advance_cons c [] r p Hp). exact Hk.
Qed.

Lemma accepts_ws {A} (k : unit → parser A) p b w a r :
  blank b → p.(ps_rest) = b ++ r → solid r → accepts (k ()) (advance b p) w a →
  accepts (pbind skip_ws k) p (b ++ w) a.
Proof. intros Hb Hp Hr Hk. by apply (accepts_bind _ _ _ b ()); [apply (skip_ws_blank p b r)|]. Qed.

(** *** Strings *)

Lemma accepts_hex n w vs v p r :
  length w = n → span_digits 16 w = (vs, []) → p.(ps_rest) = w ++ r →
  accepts (hex_loop n v) p w (fold_left (λ a d, a * 16 + d) vs v).
Proof.
  intros <-. revert vs v p. induction w as [|c w IH]; intros vs v p Hs Hp; cbn [length hex_loop].
  { cbn in Hs. injection Hs as <-. apply accepts_ret. }
  cbn [span_digits] in Hs. destruct (to_digit 16 c) as [d|] eqn:Hd; [|done].
  destruct (span_digits 16 w) as [ds rest] eqn:Hw. injection Hs as <- ->.
  apply (accepts_bump c _ _ _ _ (w ++ r) Hp). rewrite Hd. by apply (IH ds (v * 16 + d)).
Qed.

Lemma accepts_hex4 w v p r : hex4 w v → p.(ps_rest) = w ++ r → accepts parse_hex_quad p w v.
Proof. intros (Hl & vs & Hs & ->) Hp. by apply (accepts_hex 4 w vs 0 p r). Qed.

Lemma accepts_pair ds hi es v p r :
  hex4 ds hi → high_surrogate hi = true → hex4 es v → p.(ps_rest) = ds ++ 92 :: 117 :: es ++ r →
  accepts parse_unicode_escape p (ds ++ 92 :: 117 :: es)
    (if low_surrogate v then [0x10000 + Z.shiftl (hi - 0xD800) 10 + (v - 0xDC00)]
     else 0xFFFD :: option_list (char_from_u16 v)).
Proof.
  intros Hd Hh He Hp. unfold parse_unicode_escape. eapply accepts_bind; [by eapply accepts_hex4|].
  unfold high_surrogate in Hh. rewrite Hh. pose proof (advance_rest ds _ p Hp) as Hq.
  apply accepts_peek. change (pbind peek_next ?k ?q) with (k (head (tail q.(ps_rest))) q).
  unfold accepts, pbind at 1, peek_next, pret at 1. rewrite Hq. cbn [head tail].
  rewrite !bool_decide_eq_true_2 by done. cbn [andb].
  apply (accepts_bump 92 _ _ _ _ (117 :: es ++ r) Hq). apply (accepts_bump 117 _ _ _ _ (es ++ r)); [done|].
  eapply accepts_bind_nil; [by eapply (accepts_hex4 es v _ r)|].
  unfold low_surrogate. by destruct ((0xDC00 <=? v) && _).
Qed.

Lemma accepts_single ds v p r :
  hex4 ds v → high_surrogate v = false → p.(ps_rest) = ds ++ r →
  accepts parse_unicode_escape p ds (if low_surrogate v then [0xFFFD] else [v]).
Proof.
  intros Hd Hh Hp. unfold parse_unicode_escape.
  eapply accepts_bind_nil; [by eapply accepts_hex4|]. unfold high_surrogate in Hh. rewrite Hh.
  unfold low_surrogate. by destruct ((0xDC00 <=? v) && _).
Qed.

Lemma accepts_lone ds v p r :
  hex4 ds v → high_surrogate v = true → (∀ x, r ≠ 92 :: 117 :: x) → p.(ps_rest) = ds ++ r →
  accepts parse_unicode_escape p ds [0xFFFD].
Proof.
  intros Hd Hh Hr Hp. unfold parse_unicode_escape.
  eapply accepts_bind_nil; [by eapply accepts_hex4|]. unfold high_surrogate in Hh. rewrite Hh.
  apply accepts_peek. unfold accepts, pbind at 1, peek_next, pret at 1. rewrite (advance_rest ds r p Hp).
  destruct (bool_decide _ && _) eqn:E; [|done]. exfalso. breflect.
  destruct r as [|a [|b r]]; cbn in *; simplify_eq. by apply (Hr r).
Qed.

(** An escape is read inside a string. *)
Lemma string_escape fuel out p w r added x s :
  p.(ps_rest) = 92 :: w ++ r → accepts parse_escape (step 92 (w ++ r) p) w added →
  (∀ q, q.(ps_rest) = r → accepts (string_loop fuel (out ++ added)) q x (out ++ added ++ s)) →
  accepts (string_loop (S fuel) out) p (92 :: w ++ x) (out ++ added ++ s).
Proof.
  intros Hp Hw Hx. cbn [string_loop]. apply accepts_peek. rewrite Hp. cbn [head Z.eqb Pos.eqb].
  apply (accepts_bump 92 _ _ _ _ (w ++ r) Hp). eapply accepts_bind; [exact Hw|]. apply Hx. by apply advance_rest.
Qed.

Lemma escape_unicode p w r added :
  p.(ps_rest) = 117 :: w ++ r → (∀ q, q.(ps_rest) = w ++ r → accepts parse_unicode_escape q w added) →
  accepts parse_escape p (117 :: w) added.
Proof. intros Hp Hw. apply (accepts_bump 117 _ _ _ _ (w ++ r) Hp). by apply Hw. Qed.

(** The characters of [\u] and what they add, in front of [x]. *)
Lemma unicode_step fuel out p w r added x s :
  p.(ps_rest) = 92 :: 117 :: w ++ r →
  (∀ q, q.(ps_rest) = w ++ r → accepts parse_unicode_escape q w added) →
  (∀ q, q.(ps_rest) = r → accepts (string_loop fuel (out ++ added)) q x ((out ++ added) ++ s)) →
  accepts (string_loop (S fuel) out) p (92 :: 117 :: w ++ x) (out ++ added ++ s).
Proof.
  intros Hp Hw Hx. apply (string_escape fuel out p (117 :: w) r added x s); [done| |].
  - by apply (escape_unicode _ w r).
  - intros q Hq. rewrite app_assoc. by apply Hx.
Qed.

Lemma string_loop_accepts w s : chars w s → ∀ fuel out p r,
  p.(ps_rest) = w ++ 34 :: r → (length w < fuel)%nat →
  accepts (string_loop fuel out) p (w ++ [34]) (out ++ s).
Proof.
  intros Hc. induction Hc as [|c w s H34 H92 Hctl Hc IH|e c w s He Hc IH|ds v w s Hd Hh Hl Hc IH
      |ds hi es lo w s Hd Hh He Hl Hc IH|ds v w s Hd Hl Hc IH|ds v w s Hd Hh Hn Hc IH
      |ds hi es v w s Hd Hh He Hl Hc IH]; intros [|fuel] out p r Hp Hf; try lia.
  - cbn [string_loop]. apply accepts_peek. rewrite Hp. cbn [app head Z.eqb Pos.eqb].
    apply (accepts_bump 34 _ _ _ _ r Hp). rewrite app_nil_r. apply accepts_ret.
  - cbn [string_loop]. apply accepts_peek. rewrite Hp. cbn [app head].
    rewrite (proj2 (Z.eqb_neq c 34)), (proj2 (Z.eqb_neq c 92)), Hctl by done.
    apply (accepts_bump c _ _ _ _ (w ++ 34 :: r) Hp). replace (out ++ c :: s) with ((out ++ [c]) ++ s) by by rewrite <- app_assoc.
    apply (IH _ _ _ r); [done|]. cbn in Hf. lia.
  - apply (string_escape _ _ _ [e] (w ++ 34 :: r) [c]); [done| |].
    + apply (accepts_bump e _ _ [] _ (w ++ 34 :: r)); [done|]. rewrite He. apply accepts_ret.
    + intros q Hq. rewrite app_assoc. apply (IH _ _ _ r); [done|]. cbn in Hf. lia.
  - cbn [app]. rewrite <- app_assoc.
    apply (unicode_step fuel out p ds (w ++ 34 :: r) [v]); [by rewrite Hp; cbn; rewrite <- app_assoc|..].
    + intros q Hq. pose proof (accepts_single ds v q _ Hd Hh Hq) as Ha. by rewrite Hl in Ha.
    + intros q Hq. apply (IH _ _ _ r); [done|]. lens.
  - cbn [app]. rewrite <- app_assoc. cbn [app]. rewrite <- app_assoc.
    replace (ds ++ 92 :: 117 :: es ++ w ++ [34]) with ((ds ++ 92 :: 117 :: es) ++ w ++ [34]) by by rewrite <- app_assoc.
    apply (unicode_step fuel out p _ (w ++ 34 :: r) [0x10000 + Z.shiftl (hi - 0xD800) 10 + (lo - 0xDC00)]).
    + rewrite Hp. cbn [app]. by repeat (rewrite <- app_assoc; cbn [app]).
    + intros q Hq. rewrite <- app_assoc in Hq. pose proof (accepts_pair ds hi es lo q _ Hd Hh He Hq) as Ha.
      by rewrite Hl in Ha.
    + intros q Hq. apply (IH _ _ _ r); [done|]. lens.
  - cbn [app]. rewrite <- app_assoc.
    apply (unicode_step fuel out p ds (w ++ 34 :: r) [0xFFFD]); [by rewrite Hp; cbn; rewrite <- app_assoc|..].
    + intros q Hq. assert (Hh : high_surrogate v = false).
      { unfold low_surrogate, high_surrogate in *. breflect. apply andb_false_iff. right. apply Z.leb_gt. lia. }
      pose proof (accepts_single ds v q _ Hd Hh Hq) as Ha. by rewrite Hl in Ha.
    + intros q Hq. apply (IH _ _ _ r); [done|]. lens.
  - cbn [app]. rewrite <- app_assoc.
    apply (unicode_step fuel out p ds (w ++ 34 :: r) [0xFFFD]); [by rewrite Hp; cbn; rewrite <- app_assoc|..].
    + intros q Hq. apply (accepts_lone ds v q (w ++ 34 :: r)); [done..| |done].
      intros x Hx. destruct w as [|a [|b w]]; cbn in Hx; simplify_eq. by apply (Hn w).
    + intros q Hq. apply (IH _ _ _ r); [done|]. lens.
  - cbn [app]. rewrite <- app_assoc. cbn [app]. rewrite <- app_assoc.
    replace (ds ++ 92 :: 117 :: es ++ w ++ [34]) with ((ds ++ 92 :: 117 :: es) ++ w ++ [34]) by by rewrite <- app_assoc.
    apply (unicode_step fuel out p _ (w ++ 34 :: r) (0xFFFD :: option_list (char_from_u16 v))).
    + rewrite Hp. cbn [app]. by repeat (rewrite <- app_assoc; cbn [app]).
    + intros q Hq. rewrite <- app_assoc in Hq. pose proof (accepts_pair ds hi es v q _ Hd Hh He Hq) as Ha.
      by rewrite Hl in Ha.
    + intros q Hq. apply (IH _ _ _ r); [done|]. lens.
Qed.

Lemma accepts_string w s p r :
  chars w s → p.(ps_rest) = 34 :: w ++ 34 :: r → accepts parse_string p (34 :: w ++ [34]) s.
Proof.
  intros Hc Hp. unfold accepts, parse_string.
  apply (accepts_expect 34 _ _ _ _ _ (w ++ 34 :: r) Hp).
  apply (string_loop_accepts w s Hc _ [] _ r); [done|]. rewrite Hp. lens.
Qed.

(** *** Literals and numbers *)

(** What may come behind a number or a literal. *)
Definition follow (r : text) : Prop := glued (head r) = false ∧ head r ≠ Some 95.

Lemma glued_digit o : glued o = false → is_digit_next o = false ∧ o ≠ Some 46.
Proof.
  destruct o as [c|]; [|done]. cbn [glued is_digit_next]. unfold is_ascii_alphanumeric. intros H. breflect.
  split; [done|congruence].
Qed.

Lemma accepts_literal_loop literal start message p r :
  p.(ps_rest) = literal ++ r → accepts (literal_loop literal start message) p literal ().
Proof.
  revert p. induction literal as [|e literal IH]; intros p Hp; cbn [literal_loop]; [apply accepts_ret|].
  apply (accepts_bump e _ _ _ _ (literal ++ r) Hp). rewrite bool_decide_eq_true_2 by done. by apply IH.
Qed.

Lemma accepts_literal literal v p r :
  p.(ps_rest) = literal ++ r → follow r → accepts (parse_literal literal v) p literal v.
Proof.
  intros Hp [Hg H95]. unfold parse_literal. change (pbind position ?k ?q) with (k (q.(ps_line), q.(ps_col)) q).
  unfold accepts, pbind at 1, position, pret at 1. eapply accepts_bind_nil; [by eapply accepts_literal_loop|].
  apply accepts_peek. rewrite (advance_rest literal r p Hp). destruct (head r) as [c|]; [|apply accepts_ret].
  cbn [glued] in Hg. breflect. rewrite H, (proj2 (Z.eqb_neq c 95)) by congruence. apply accepts_ret.
Qed.

Lemma digits_loop_all w r p :
  p.(ps_rest) = w ++ r → Forall (λ c, is_ascii_digit c = true) w → is_digit_next (head r) = false →
  digits_loop (w ++ r) p = advance w p.
Proof.
  intros Hp Hw Hr. revert p Hp. induction Hw as [|c w Hc Hw IH]; intros p Hp; cbn [app digits_loop].
  { destruct r as [|c r]; [done|]. cbn in Hr |- *. by rewrite Hr. }
  rewrite Hc, IH by done. by apply advance_cons.
Qed.

Lemma accepts_digits w r p :
  p.(ps_rest) = w ++ r → Forall (λ c, is_ascii_digit c = true) w → is_digit_next (head r) = false →
  accepts skip_digits p w ().
Proof. intros Hp Hw Hr. unfold accepts, skip_digits, pret. rewrite Hp. by rewrite (digits_loop_all w r). Qed.

Lemma accepts_sign w r p :
  p.(ps_rest) = w ++ r → (w = [] ∨ w = [45]) → (w = [] → head r ≠ Some 45) → accepts number_sign p w ().
Proof.
  intros Hp Hw Hr. apply accepts_peek. rewrite Hp. destruct Hw as [->| ->]; cbn [app head].
  - rewrite bool_decide_eq_false_2 by auto. apply accepts_ret.
  - rewrite bool_decide_eq_true_2 by done. apply (accepts_bump 45 _ _ _ _ r Hp), accepts_ret.
Qed.

Lemma accepts_int w r p :
  p.(ps_rest) = w ++ r → (w = [48] ∨ digit_word w ∧ head w ≠ Some 48) → is_digit_next (head r) = false →
  accepts number_int p w ().
Proof.
  intros Hp Hw Hr. apply accepts_peek. rewrite Hp. destruct Hw as [->|[Hw H48]]; cbn [app head].
  - rewrite bool_decide_eq_true_2 by done. apply (accepts_bump 48 _ _ _ _ r Hp), accepts_ret.
  - destruct Hw as [Hn Hw]. destruct w as [|c w]; [done|]. apply list.Forall_cons in Hw as [Hc Hw]. cbn [app head].
    rewrite bool_decide_eq_false_2 by done. cbn [is_digit_next]. rewrite Hc.
    apply (accepts_bump c _ _ _ _ (w ++ r) Hp). by apply (accepts_digits w r).
Qed.

Lemma digit_word_next w r : digit_word w → is_digit_next (head (w ++ r)) = true.
Proof. intros Hw. destruct (digit_word_head w Hw) as (c & t & -> & Hc). done. Qed.

Lemma accepts_frac w r p :
  p.(ps_rest) = w ++ r → (w = [] ∨ ∃ ds, w = 46 :: ds ∧ digit_word ds) →
  head r ≠ Some 46 → is_digit_next (head r) = false → accepts number_frac p w ().
Proof.
  intros Hp Hw H46 Hr. apply accepts_peek. rewrite Hp. destruct Hw as [->|(ds & -> & Hds)]; cbn [app head].
  - rewrite bool_decide_eq_false_2 by done. apply accepts_ret.
  - rewrite bool_decide_eq_true_2 by done. apply (accepts_bump 46 _ _ _ _ (ds ++ r) Hp). apply accepts_peek.
    cbn [step ps_rest]. rewrite digit_word_next by done. by apply (accepts_digits ds r); [|apply Hds|].
Qed.

Lemma accepts_exp w r p :
  p.(ps_rest) = w ++ r →
  (w = [] ∨ ∃ e s ds, w = e :: s ++ ds ∧ (e = 101 ∨ e = 69) ∧ (s = [] ∨ s = [43] ∨ s = [45]) ∧ digit_word ds) →
  glued (head r) = false → accepts number_exp p w ().
Proof.
  intros Hp Hw Hr. apply accepts_peek. rewrite Hp. destruct Hw as [->|(e & s & ds & -> & He & Hs & Hds)]; cbn [app head].
  - destruct (_ || _) eqn:E; [|apply accepts_ret]. exfalso.
    apply orb_true_iff in E as [E|E]; breflect; by rewrite E in Hr.
  - replace (_ || _) with true by (by destruct He as [->| ->]). cbn [app] in Hp. rewrite <- app_assoc in Hp.
    assert (Hn : is_digit_next (head r) = false).
    { by apply glued_digit. }
    apply (accepts_bump e _ _ _ _ (s ++ ds ++ r) Hp). apply accepts_peek. cbn [step ps_rest].
    destruct (digit_word_head ds Hds) as (c & t & Hds' & Hc).
    apply (accepts_bind _ _ _ s ()).
    + destruct Hs as [->|[->| ->]]; cbn [app head].
      * rewrite Hds'. cbn [app head]. rewrite !bool_decide_eq_false_2; [apply accepts_ret|..];
          intros [= ->]; by cbn in Hc.
      * apply (accepts_bump 43 _ _ _ _ (ds ++ r)); [done|]. apply accepts_ret.
      * apply (accepts_bump 45 _ _ _ _ (ds ++ r)); [done|]. apply accepts_ret.
    + apply accepts_peek. rewrite (advance_rest s (ds ++ r)), digit_word_next by done.
      apply (accepts_digits ds r); [by apply advance_rest|apply Hds|done].
Qed.

Lemma accepts_token w r p :
  number_word w → p.(ps_rest) = w ++ r → glued (head r) = false → accepts number_token p w ().
Proof.
  intros (sg & int & fr & ex & -> & Hsg & Hint & Hfr & Hex) Hp Hr. rewrite <- !app_assoc in Hp.
  assert (Hr' : is_digit_next (head r) = false ∧ head r ≠ Some 46).
  { by apply glued_digit. }
  assert (Hex' : is_digit_next (head (ex ++ r)) = false ∧ head (ex ++ r) ≠ Some 46).
  { destruct Hex as [->|(e & s & ds & -> & [->| ->] & _)]; done. }
  assert (Hfr' : is_digit_next (head (fr ++ ex ++ r)) = false).
  { destruct Hfr as [->|(ds & -> & _)]; [apply Hex'|done]. }
  pose proof (advance_rest sg _ p Hp) as H1. pose proof (advance_rest int _ _ H1) as H2.
  pose proof (advance_rest fr _ _ H2) as H3. unfold number_token.
  apply (accepts_bind _ _ _ sg ()).
  { apply (accepts_sign sg (int ++ fr ++ ex ++ r)); [done..|]. intros ->.
    destruct Hint as [->|[Hi _]]; [done|]. destruct (digit_word_head int Hi) as (c & t & -> & Hc).
    intros [= ->]. by cbn in Hc. }
  apply (accepts_bind _ _ _ int ()); [by apply (accepts_int int (fr ++ ex ++ r))|].
  apply (accepts_bind _ _ _ fr ()); [by apply (accepts_frac fr (ex ++ r)); [..|apply Hex'|apply Hex']|].
  by apply (accepts_exp ex r).
Qed.

Lemma accepts_number w n r p :
  number_word w → parse_json_number w = Ok n → p.(ps_rest) = w ++ r → follow r →
  accepts parse_number p w (JNumber n).
Proof.
  intros Hw Hn Hp [Hr _]. unfold parse_number.
  unfold accepts, pbind at 1, position, pret at 1. unfold pbind at 1, remaining, pret at 1.
  eapply accepts_bind_nil; [by eapply (accepts_token w r)|].
  apply accepts_peek. rewrite (advance_rest w r p Hp), Hr.
  unfold accepts, pbind, taken_from, pret at 1. rewrite (advance_rest w r p Hp), Hp, length_app.
  rewrite Nat.add_sub, take_app_length. by rewrite Hn.
Qed.

(** *** Values *)

Scheme value_mut := Induction for value Sort Prop
  with elements_mut := Induction for elements Sort Prop
  with members_mut := Induction for members Sort Prop.
Combined Scheme value_elements_members from value_mut, elements_mut, members_mut.

(** The characters a value starts with. *)
Definition starter (c : Z) : bool :=
  bool_decide (c ∈ [110; 116; 102; 34; 91; 123; 45]) || is_ascii_digit c.

Definition starts (w : text) : Prop := ∃ c t, w = c :: t ∧ starter c = true.

Lemma value_starts d w v : value d w v → starts w.
Proof.
  intros Hv. destruct Hv as [| | |d w n Hw| | | | |]; try (by eexists _, _).
  destruct (number_word_head w Hw) as (c & t & -> & Hc). exists c, t. split; [done|]. unfold starter.
  apply orb_true_iff in Hc as [Hc|Hc]; [|rewrite Hc; apply orb_true_r]. apply Z.eqb_eq in Hc as ->. done.
Qed.

Lemma elements_starts d w vs : elements d w vs → starts w.
Proof.
  intros He. destruct He as [d w v b e Hv|d w v b c x vs Hv];
    destruct (value_starts _ _ _ Hv) as (s & t & -> & Hs); by eexists s, _.
Qed.

Lemma members_starts d w kvs : members d w kvs → starts w.
Proof. intros []; by eexists _, _. Qed.

Lemma starter_range c : starter c = true → c ∉ [32; 9; 10; 13; 47; 44; 93; 125; 58].
Proof.
  unfold starter, is_ascii_digit. intros Hs Hc. repeat (apply elem_of_cons in Hc as [->|Hc]; [done|]).
  by apply elem_of_nil in Hc.
Qed.

Lemma solid_char c r : c ∉ [32; 9; 10; 13; 47] → solid (c :: r).
Proof. intros Hc. split; [set_solver|]. intros [-> _]. set_solver. Qed.

Lemma starts_solid w r : starts w → solid (w ++ r).
Proof.
  intros (c & t & -> & Hc). apply solid_char. pose proof (starter_range c Hc). set_solver.
Qed.

(** Blanks do not glue, nor what closes or separates. *)
Lemma follow_char c r : c ∈ [32; 9; 10; 13; 47; 44; 93; 125] → follow (c :: r).
Proof. intros Hc. repeat (apply elem_of_cons in Hc as [->|Hc]; [done|]). by apply elem_of_nil in Hc. Qed.

Lemma follow_blank b r : blank b → follow r → follow (b ++ r).
Proof.
  intros Hb Hr. destruct Hb as [|c w Hc Hw|body w|body w]; [done|..]; apply follow_char; set_solver.
Qed.

Lemma follow_trailing t : trailing t → follow t.
Proof.
  intros [Ht|(b & body & -> & Hb & _)]; [rewrite <- (app_nil_r t)|]; apply follow_blank; done.
Qed.

Lemma closing_follow close e r : close ∈ [93; 125] → closing close e → follow (e ++ r).
Proof. intros Hc [->|(b & _ & ->)]; apply follow_char; set_solver. Qed.

Lemma accepts_nested inner p w v :
  p.(ps_depth) + 1 ≤ MAX_DEPTH → accepts inner (with_depth (p.(ps_depth) + 1) p) w v → accepts (nested inner) p w v.
Proof.
  unfold accepts, nested, pbind, enter_nested. intros Hd Hin. cbn [with_depth ps_depth].
  destruct (Z.ltb_spec MAX_DEPTH (ps_depth p + 1)); [lia|]. cbn [pret]. rewrite Hin. unfold leave_nested, pret.
  rewrite advance_depth, <- advance_with_depth. cbn [with_depth ps_depth]. by rewrite with_depth_back.
Qed.

Lemma accepts_end close what expected p b e r :
  close ∈ [93; 125] → blank b → closing close e → p.(ps_rest) = b ++ e ++ r →
  accepts (item_end close what expected) p (b ++ e) true.
Proof.
  intros Hcl Hb He Hp. assert (Hs : ∀ x, solid (close :: x)) by (intros x; apply solid_char; set_solver).
  apply (accepts_ws _ _ b _ _ (e ++ r)); [done..|by destruct He as [->|(b2 & _ & ->)]; [apply Hs|apply solid_char; set_solver]|].
  pose proof (advance_rest b _ p Hp) as Hq. apply accepts_peek. rewrite Hq.
  destruct He as [->|(b2 & Hb2 & ->)]; cbn [app head].
  - rewrite (proj2 (Z.eqb_neq close 44)) by (intros ->; set_solver). rewrite Z.eqb_refl.
    apply (accepts_bump close _ _ _ _ r Hq), accepts_ret.
  - cbn [app] in Hq. rewrite <- app_assoc in Hq. cbn [Z.eqb Pos.eqb].
    apply (accepts_bump 44 _ _ _ _ _ Hq). apply (accepts_ws _ _ b2 _ _ ([close] ++ r)); [done..|apply Hs|].
    apply accepts_peek. rewrite (advance_rest b2 ([close] ++ r)) by done. cbn [app head].
    rewrite bool_decide_eq_true_2 by done. apply (accepts_bump close _ _ _ _ r); [by apply advance_rest|].
    apply accepts_ret.
Qed.

Lemma accepts_more close what expected p b c x r :
  close ∈ [93; 125] → blank b → blank c → starts x → p.(ps_rest) = b ++ 44 :: c ++ x ++ r →
  accepts (item_end close what expected) p (b ++ 44 :: c) false.
Proof.
  intros Hcl Hb Hc Hx Hp. apply (accepts_ws _ _ b _ _ (44 :: c ++ x ++ r)); [done..|apply solid_char; set_solver|].
  pose proof (advance_rest b _ p Hp) as Hq. apply accepts_peek. rewrite Hq. cbn [head Z.eqb Pos.eqb].
  apply (accepts_bump 44 _ _ _ _ _ Hq). rewrite <- (app_nil_r c).
  apply (accepts_ws _ _ c _ _ (x ++ r)); [done|by rewrite app_nil_r|by apply starts_solid|].
  apply accepts_peek. rewrite (advance_rest c (x ++ r)) by (by rewrite ?app_nil_r).
  destruct Hx as (s & t & -> & Hs). cbn [app head]. rewrite bool_decide_eq_false_2; [apply accepts_ret|].
  intros [= ->]. pose proof (starter_range close Hs). set_solver.
Qed.

(** An empty container, and one with items. *)
Lemma accepts_empty opening close ctx empty items p b r :
  p.(ps_depth) + 1 ≤ MAX_DEPTH → close ∈ [93; 125] → blank b → p.(ps_rest) = opening :: b ++ close :: r →
  accepts (container opening close ctx empty items) p (opening :: b ++ [close]) empty.
Proof.
  intros Hd Hcl Hb Hp. apply accepts_nested; [done|]. apply (accepts_expect opening _ _ _ _ _ (b ++ close :: r)); [done|].
  apply (accepts_ws _ _ b _ _ (close :: r)); [done..|apply solid_char; set_solver|].
  apply accepts_peek. rewrite (advance_rest b (close :: r)) by done. cbn [head].
  rewrite bool_decide_eq_true_2 by done. apply (accepts_bump close _ _ _ _ r); [by apply advance_rest|].
  apply accepts_ret.
Qed.

Lemma accepts_items opening close ctx empty items p b x v r :
  p.(ps_depth) + 1 ≤ MAX_DEPTH → close ∈ [93; 125] → blank b → starts x → p.(ps_rest) = opening :: b ++ x ++ r →
  (∀ q, q.(ps_rest) = x ++ r → q.(ps_depth) = p.(ps_depth) + 1 → accepts items q x v) →
  accepts (container opening close ctx empty items) p (opening :: b ++ x) v.
Proof.
  intros Hd Hcl Hb Hx Hp Hi. apply accepts_nested; [done|].
  apply (accepts_expect opening _ _ _ _ _ (b ++ x ++ r)); [done|].
  apply (accepts_ws _ _ b _ _ (x ++ r)); [done..|by apply starts_solid|].
  apply accepts_peek. rewrite (advance_rest b (x ++ r)) by done.
  rewrite bool_decide_eq_false_2.
  - apply Hi; [by apply advance_rest|by rewrite advance_depth].
  - destruct Hx as (s & t & -> & Hs). cbn. intros [= ->]. pose proof (starter_range close Hs). set_solver.
Qed.

Definition value_accepted (d : nat) (w : text) (v : Json) : Prop := ∀ fuel p r,
  p.(ps_rest) = w ++ r → follow r → p.(ps_depth) + Z.of_nat d ≤ MAX_DEPTH → (2 * length w < fuel)%nat →
  accepts (parse_value fuel) p w v.

Definition elements_accepted (d : nat) (w : text) (vs : list Json) : Prop := ∀ fuel values p r,
  p.(ps_rest) = w ++ r → p.(ps_depth) + Z.of_nat d ≤ MAX_DEPTH → (2 * length w + 1 < fuel)%nat →
  accepts (array_loop fuel values) p w (JArray (values ++ vs)).

Definition members_accepted (d : nat) (w : text) (kvs : list (text * Json)) : Prop := ∀ fuel m p r,
  p.(ps_rest) = w ++ r → p.(ps_depth) + Z.of_nat d ≤ MAX_DEPTH → (2 * length w + 1 < fuel)%nat →
  NoDup kvs.*1 → (∀ k, k ∈ kvs.*1 → contains_key k m = false) →
  accepts (object_loop fuel m) p w (JObject (fields_of m kvs)).

(** A value that starts at once. *)
Lemma accepts_at_once {A} (k : unit → parser A) p w v c r :
  p.(ps_rest) = c :: r → starter c = true → accepts (k ()) p w v → accepts (pbind skip_ws k) p w v.
Proof.
  intros Hp Hc Hk. apply (accepts_ws k p [] w v (c :: r)); [constructor|done| |done].
  by apply (starts_solid [c] r); exists c, [].
Qed.

Lemma array_last d w v b e :
  value d w v → value_accepted d w v → blank b → closing 93 e → elements_accepted d (w ++ b ++ e) [v].
Proof.
  intros _ IH Hb He [|fuel] values p r Hp Hd Hf; [lia|]. cbn [array_loop]. rewrite <- !app_assoc in Hp.
  eapply accepts_bind.
  { apply (IH _ _ (b ++ e ++ r)); [done| |done|lens]. apply follow_blank; [done|]. apply (closing_follow 93); [set_solver|done]. }
  eapply accepts_bind_nil.
  { apply (accepts_end 93 _ _ _ b e r); [set_solver|done..|]. by apply advance_rest. }
  apply accepts_ret.
Qed.

Lemma array_more d w v b c x vs :
  value_accepted d w v → blank b → blank c → elements d x vs → elements_accepted d x vs →
  elements_accepted d (w ++ b ++ 44 :: c ++ x) (v :: vs).
Proof.
  intros IH Hb Hc Hx IHx [|fuel] values p r Hp Hd Hf; [lia|]. cbn [array_loop].
  replace ((w ++ b ++ 44 :: c ++ x) ++ r) with (w ++ (b ++ 44 :: c) ++ x ++ r) in Hp
    by (repeat (rewrite <- app_assoc; cbn [app]); done).
  eapply accepts_bind.
  { apply (IH _ _ ((b ++ 44 :: c) ++ x ++ r)); [done| |done|lens]. rewrite <- app_assoc. apply follow_blank; [done|].
    apply follow_char. set_solver. }
  replace (b ++ 44 :: c ++ x) with ((b ++ 44 :: c) ++ x) by by rewrite <- app_assoc.
  pose proof (advance_rest w _ p Hp) as Hq. eapply accepts_bind.
  { apply (accepts_more 93 _ _ _ b c x r); [set_solver|done..|by eapply elements_starts|]. rewrite Hq.
    by rewrite <- app_assoc. }
  cbv beta. replace (values ++ v :: vs) with ((values ++ [v]) ++ vs) by by rewrite <- app_assoc.
  apply (IHx _ _ _ r); [by apply advance_rest|by rewrite !advance_depth|lens].
Qed.

(** The front of a field. *)
Lemma object_front m key a b w k v fuel p r s :
  chars key k → contains_key k m = false → blank a → blank b → starts w →
  p.(ps_rest) = 34 :: key ++ 34 :: a ++ 58 :: b ++ w ++ r →
  (∀ q, q.(ps_rest) = w ++ r → q.(ps_depth) = p.(ps_depth) →
        accepts (let* value := parse_value fuel in
                 let m := map_insert k value m in
                 let* done := object_end in
                 if done : bool then pret (JObject m) else object_loop fuel m) q s v) →
  accepts (object_loop (S fuel) m) p (34 :: key ++ 34 :: a ++ 58 :: b ++ s) v.
Proof.
  intros Hk Hm Ha Hb Hw Hp Hrest. cbn [object_loop].
  replace (34 :: key ++ 34 :: a ++ 58 :: b ++ s) with ((34 :: key ++ [34]) ++ a ++ 58 :: b ++ s)
    by (cbn [app]; by rewrite <- app_assoc).
  assert (Hp' : p.(ps_rest) = (34 :: key ++ [34]) ++ a ++ 58 :: b ++ w ++ r)
    by (rewrite Hp; cbn [app]; by rewrite <- app_assoc).
  apply (accepts_bind _ _ _ (34 :: key ++ [34]) k).
  { unfold object_key. unfold accepts, pbind at 1, position, pret at 1.
    apply (accepts_at_once _ _ _ _ 34 _ Hp); [done|]. apply accepts_peek. rewrite Hp. cbn [head Z.eqb Pos.eqb].
    eapply accepts_bind_nil; [by apply (accepts_string key k p (a ++ 58 :: b ++ w ++ r))|]. rewrite Hm. apply accepts_ret. }
  pose proof (advance_rest _ _ p Hp') as Hq.
  apply (accepts_ws _ _ a _ _ (58 :: b ++ w ++ r)); [done..|apply solid_char; set_solver|].
  apply (accepts_expect 58 _ _ _ _ _ (b ++ w ++ r)); [by apply advance_rest|].
  apply (accepts_ws _ _ b _ _ (w ++ r)); [done..|by apply starts_solid|].
  apply Hrest; [by apply advance_rest|]. rewrite advance_depth. cbn [step ps_depth]. by rewrite !advance_depth.
Qed.

Lemma object_last d k s a b w v c e :
  chars k s → blank a → blank b → value d w v → value_accepted d w v → blank c → closing 125 e →
  members_accepted d (34 :: k ++ 34 :: a ++ 58 :: b ++ w ++ c ++ e) [(s, v)].
Proof.
  intros Hk Ha Hb Hv IH Hc He [|fuel] m p r Hp Hd Hf _ Hnew; [lia|].
  apply (object_front m k a b w s _ fuel p (c ++ e ++ r)); [done|apply Hnew; set_solver|done..|by eapply value_starts| |].
  { rewrite Hp. cbn [app]. by repeat (rewrite <- app_assoc; cbn [app]). }
  intros q Hq Hqd. eapply accepts_bind.
  { apply (IH _ _ (c ++ e ++ r)); [done| |by rewrite Hqd|lens]. apply follow_blank; [done|].
    apply (closing_follow 125); [set_solver|done]. }
  eapply accepts_bind_nil.
  { apply (accepts_end 125 _ _ _ c e r); [set_solver|done..|]. by apply advance_rest. }
  apply accepts_ret.
Qed.

Lemma object_more d k s a b w v c f x kvs :
  chars k s → blank a → blank b → value d w v → value_accepted d w v → blank c → blank f →
  members d x kvs → members_accepted d x kvs →
  members_accepted d (34 :: k ++ 34 :: a ++ 58 :: b ++ w ++ c ++ 44 :: f ++ x) ((s, v) :: kvs).
Proof.
  intros Hk Ha Hb Hv IH Hc Hff Hx IHx [|fuel] m p r Hp Hd Hf Hnd Hnew; [lia|].
  cbn in Hnd. apply list.NoDup_cons in Hnd as [Hs Hnd].
  apply (object_front m k a b w s _ fuel p ((c ++ 44 :: f) ++ x ++ r)); [done|apply Hnew; cbn; set_solver|done..|by eapply value_starts| |].
  { rewrite Hp. cbn [app]. by repeat (rewrite <- app_assoc; cbn [app]). }
  intros q Hq Hqd. eapply accepts_bind.
  { apply (IH _ _ ((c ++ 44 :: f) ++ x ++ r)); [done| |by rewrite Hqd|lens]. rewrite <- app_assoc.
    apply follow_blank; [done|]. apply follow_char. set_solver. }
  replace (c ++ 44 :: f ++ x) with ((c ++ 44 :: f) ++ x) by by rewrite <- app_assoc.
  pose proof (advance_rest w _ q Hq) as Hq2. cbv zeta. eapply accepts_bind.
  { apply (accepts_more 125 _ _ _ c f x r); [set_solver|done..|by eapply members_starts|]. rewrite Hq2.
    by rewrite <- app_assoc. }
  cbv beta iota. apply (IHx _ _ _ r); [by apply advance_rest|by rewrite !advance_depth, Hqd|lens|done|].
  intros k' Hk'. rewrite contains_key_insert, bool_decide_eq_false_2 by (by intros <-).
  apply Hnew. cbn. set_solver.
Qed.

Lemma value_head fuel p c r w v :
  p.(ps_rest) = c :: r → starter c = true →
  accepts (if c =? 123 then container 123 125 (str "when starting an object") (JObject []) (object_loop fuel [])
           else if c =? 91 then container 91 93 (str "when starting an array") (JArray []) (array_loop fuel [])
           else if c =? 34 then let* s := parse_string in pret (JString s)
           else if c =? 116 then parse_literal (str "true") (JBool true)
           else if c =? 102 then parse_literal (str "false") (JBool false)
           else if c =? 110 then parse_literal (str "null") JNull
           else if (c =? 45) || is_ascii_digit c then parse_number
           else err_here (str "unexpected character `" ++ [c] ++ str "`")) p w v →
  accepts (parse_value (S fuel)) p w v.
Proof.
  intros Hp Hc Hv. cbn [parse_value]. apply (accepts_at_once _ p _ _ c _ Hp Hc). apply accepts_peek. by rewrite Hp.
Qed.

#[local] Ltac value_case c :=
  intros [|fuel] p r Hp Hr Hd Hf; [lia|]; apply (value_head fuel p c _ _ _ Hp); [done|]; cbn [Z.eqb Pos.eqb].

Lemma number_accepted d w n : number_word w → parse_json_number w = Ok n → value_accepted d w (JNumber n).
Proof.
  intros Hw Hn [|fuel] p r Hp Hr Hd Hf; [lia|]. destruct (number_word_head w Hw) as (c & t & -> & Hc).
  apply (value_head fuel p c _ _ _ Hp).
  { unfold starter. apply orb_true_iff in Hc as [Hc|Hc]; [|rewrite Hc; apply orb_true_r].
    by apply Z.eqb_eq in Hc as ->. }
  assert (Hr' : 45 ≤ c ≤ 57) by (unfold is_ascii_digit in Hc; apply orb_true_iff in Hc as [Hc|Hc]; breflect; lia).
  do 6 (rewrite (proj2 (Z.eqb_neq c _)) by lia). rewrite Hc. by apply (accepts_number _ n r).
Qed.

Lemma language_accepted :
  (∀ d w v, value d w v → value_accepted d w v)
  ∧ (∀ d w vs, elements d w vs → elements_accepted d w vs)
  ∧ (∀ d w kvs, members d w kvs → members_accepted d w kvs).
Proof.
  apply value_elements_members.
  - intros d. value_case 110. by apply (accepts_literal _ _ p r).
  - intros d. value_case 116. by apply (accepts_literal _ _ p r).
  - intros d. value_case 102. by apply (accepts_literal _ _ p r).
  - intros d w n. apply number_accepted.
  - intros d w s Hw. value_case 34. cbn [app] in Hp. rewrite <- app_assoc in Hp.
    eapply accepts_bind_nil; [by apply (accepts_string w s p r)|]. apply accepts_ret.
  - intros d b Hb. value_case 91. cbn [app] in Hp. rewrite <- app_assoc in Hp.
    apply (accepts_empty _ _ _ _ _ p b r); [lia|set_solver|done..].
  - intros d b w vs Hb Hw IH. value_case 91. cbn [app] in Hp. rewrite <- app_assoc in Hp.
    apply (accepts_items _ _ _ _ _ p b w _ r); [lia|set_solver|done|by eapply elements_starts|done|].
    intros q Hq Hqd. apply (IH _ [] q r); [done|lia|lens].
  - intros d b Hb. value_case 123. cbn [app] in Hp. rewrite <- app_assoc in Hp.
    apply (accepts_empty _ _ _ _ _ p b r); [lia|set_solver|done..].
  - intros d b w kvs Hb Hw IH Hnd. value_case 123. cbn [app] in Hp. rewrite <- app_assoc in Hp.
    apply (accepts_items _ _ _ _ _ p b w _ r); [lia|set_solver|done|by eapply members_starts|done|].
    intros q Hq Hqd. apply (IH _ [] q r); [done|lia|lens|done|done].
  - exact array_last.
  - intros d w v b c x vs _ IH Hb Hc Hx IHx. by apply array_more.
  - intros d k s a b w v c e Hk Ha Hb Hv IH. by apply object_last.
  - intros d k s a b w v c f x kvs Hk Ha Hb Hv IH Hc Hf Hx IHx. by apply object_more.
Qed.

Lemma accepts_after_blank {A} (k : unit → parser A) p b w v r :
  blank b → p.(ps_rest) = b ++ r → solid r → accepts (pbind skip_ws k) (advance b p) w v →
  accepts (pbind skip_ws k) p (b ++ w) v.
Proof.
  intros Hb Hp Hr Hk. apply (accepts_ws _ _ b _ _ r); [done..|]. unfold accepts in Hk. unfold pbind in Hk.
  rewrite (skip_ws_blank (advance b p) [] r) in Hk; [exact Hk|constructor|by apply advance_rest|done].
Qed.

Lemma document_accepts s v : hujson s v → accepts (document (2 * length s + 2)) (Parser_new s) s v.
Proof.
  intros (b & w & t & Hs & Hb & Hv & Ht). unfold document.
  assert (Hp : (Parser_new s).(ps_rest) = b ++ w ++ t) by done.
  pose proof (advance_rest b (w ++ t) _ Hp) as Hq. rewrite Hs at 3. rewrite app_assoc.
  eapply accepts_bind.
  { rewrite Nat.add_comm. apply accepts_after_blank with (r := w ++ t); [done..|by apply starts_solid, (value_starts 128 w v)|].
    apply (proj1 language_accepted 128%nat w v Hv (2 + 2 * length s)%nat (advance b (Parser_new s)) t Hq);
      [by apply follow_trailing|by rewrite advance_depth|]. rewrite Hs. lens. }
  rewrite advance_app. eapply accepts_bind_nil; [by apply skip_ws_trailing; [|apply advance_rest]|].
  apply accepts_peek. rewrite (advance_rest t []); [apply accepts_ret|]. rewrite app_nil_r. by apply advance_rest.
Qed.

(** ** What parsing comes to *)

Lemma no_newlines line : 10 ∉ line → filter (λ c, c = 10) line = [].
Proof.
  induction line as [|c line IH]; [done|]. intros Hn. apply not_elem_of_cons in Hn as [Hc Hn].
  rewrite filter_cons_False by congruence. by apply IH.
Qed.

(** The position behind [w]: whole lines, and the part of a line. *)
Lemma position_of_lines w : ∃ above line,
  w = above ++ line ∧ (above = [] ∨ ∃ a, above = a ++ [10]) ∧ 10 ∉ line
  ∧ position_of w = (1 + zlen (filter (λ c, c = 10) above), 1 + zlen line).
Proof.
  unfold position_of. enough (H : ∀ q, (q.(ps_line), q.(ps_col)) = (1, 1) → ∃ above line,
    w = above ++ line ∧ (above = [] ∨ ∃ a, above = a ++ [10]) ∧ 10 ∉ line
    ∧ ((advance w q).(ps_line), (advance w q).(ps_col)) = (1 + zlen (filter (λ c, c = 10) above), 1 + zlen line))
    by by apply H.
  intros q Hq. induction w as [|c w IH] using rev_ind.
  { exists [], []. split; [done|]. split; [by left|]. split; [apply not_elem_of_nil|done]. }
  destruct IH as (above & line & -> & Ha & Hl & [= H1 H2]). rewrite advance_app. cbn [advance step ps_line ps_col].
  rewrite H1, H2. destruct (Z.eqb_spec c 10) as [->|Hc].
  - exists (above ++ line ++ [10]), []. split; [by rewrite app_nil_r, <- app_assoc|].
    split; [right; exists (above ++ line); by rewrite <- app_assoc|]. split; [apply not_elem_of_nil|].
    rewrite !list.filter_app, !zlen_app, (no_newlines line) by done. change (filter _ [10]) with [10].
    unfold zlen. cbn [length]. f_equal. lia.
  - exists above, (line ++ [c]). split; [by rewrite <- app_assoc|]. split; [done|].
    split; [intros Hin; apply elem_of_app in Hin as [Hin|Hin]; [done|]; apply list_elem_of_singleton in Hin; congruence|].
    rewrite zlen_app. change (zlen [c]) with 1. f_equal. lia.
Qed.

Lemma hujson_parsed s v : hujson s v → parse s = Some (Ok v).
Proof. intros H. unfold parse. by rewrite (document_accepts s v H). Qed.

Lemma parsed_hujson s v : parse s = Some (Ok v) → hujson s v.
Proof. intros H. pose proof (parse_cases s) as Hc. by rewrite H in Hc. Qed.

Lemma parse_error_line s e :
  parse s = Some (Err e) → ∃ above line rest,
    s = above ++ line ++ rest ∧ (above = [] ∨ ∃ a, above = a ++ [10]) ∧ 10 ∉ line
    ∧ e.(err_line) = 1 + zlen (filter (λ c, c = 10) above) ∧ e.(err_column) = 1 + zlen line.
Proof.
  intros H. pose proof (parse_cases s) as Hc. rewrite H in Hc. destruct Hc as (w & r & -> & Hp).
  destruct (position_of_lines w) as (above & line & -> & Ha & Hl & Hpos). rewrite Hpos in Hp. injection Hp as -> ->.
  exists above, line, r. by rewrite <- app_assoc.
Qed.

(** C36. Parsing returns on every text: the fuel is never spent. *)
Theorem parse_returns s : ∃ r, parse s = Some r.
Proof. pose proof (parse_cases s) as H. destruct (parse s) as [r|]; [by exists r|done]. Qed.


(** A syntax error names a place in the document: its line is one more than the
    lines that end before it, its column one more than what stands before it in
    its line. *)
Theorem parse_error_located s e :
  parse s = Some (Err e) → ∃ above line rest,
    s = above ++ line ++ rest ∧ (above = [] ∨ ∃ a, above = a ++ [10]) ∧ 10 ∉ line
    ∧ e.(err_line) = 1 + zlen (filter (λ c, c = 10) above) ∧ e.(err_column) = 1 + zlen line.
Proof. apply parse_error_line. Qed.

Lemma parse_error_located_witness :
  ∃ above line rest,
    [123; 10; 32; 34; 97; 34; 32; 49; 125] = above ++ line ++ rest ∧ (above = [] ∨ ∃ a, above = a ++ [10]) ∧ 10 ∉ line
    ∧ 2 = 1 + zlen (filter (λ c, c = 10) above) ∧ 7 = 1 + zlen line.
Proof.
  exact (parse_error_located [123; 10; 32; 34; 97; 34; 32; 49; 125]
           (HujsonError_at 2 7 (str "expected `:` after an object key, found `1`")) ltac:(vm_compute; reflexivity)).
Defined.
