(* ===== verification/PolicyTags.v ===== *)
(** * Tag ownership

    [crabscale-policy/src/tags.rs]: who may approve a tag.  The recursion over
    groups has no cycle check in the source, so [principal_matches_user] takes
    fuel for its recursion depth and returns [None] when it runs out; the
    relation [designates] is what it decides.  The walk over tag owners keeps
    a visited set and always ends. *)

From S2P Require Import Prelude Text PolicyModel.

Definition is_valid_tag (tag : text) : bool :=
  match strip_prefix (str "tag:") tag with
  | None => false
  | Some rest =>
      negb (bool_decide (rest = [])) && forallb (λ c, is_ascii_alphanumeric c || (c =? 45)) rest
  end.

(** [iter().any(f)] where a call may not return. *)
Fixpoint any_opt {A} (f : A → option bool) (l : list A) : option bool :=
  match l with
  | [] => Some false
  | x :: t =>
      match f x with
      | Some true => Some true
      | Some false => any_opt f t
      | None => None
      end
  end.

Fixpoint principal_matches_user (fuel : nat) (p : Policy) (principal user_login : text)
    : option bool :=
  match fuel with
  | O => None
  | S fuel' =>
      if bool_decide (principal = user_login) then Some true
      else
        match strip_prefix (str "group:") principal with
        | None => Some false
        | Some group =>
            match p.(groups) !! group with
            | None => Some false
            | Some members =>
                any_opt (λ m, if bool_decide (m = principal) then Some false
                              else principal_matches_user fuel' p m user_login) members
            end
        end
  end.

Definition user_can_use_tag (fuel : nat) (p : Policy) (tag user_login : text) : option bool :=
  if negb (is_valid_tag tag) then Some false
  else
    match p.(tag_owners) !! tag with
    | None => Some false
    | Some owners => any_opt (λ owner, principal_matches_user fuel p owner user_login) owners
    end.

(** The nested [walk] of [tag_owned_by_tags] with its visited set; the loop
    over the owners is [walk_owners]. *)
Fixpoint walk_owners (walk : text → gset text → bool * gset text) (owner_tags : list text)
    (owners : list text) (visited : gset text) : bool * gset text :=
  match owners with
  | [] => (false, visited)
  | owner :: rest =>
      if bool_decide (owner ∈ owner_tags) then (true, visited)
      else if starts_with (str "tag:") owner then
        let '(found, visited) := walk owner visited in
        if found : bool then (true, visited) else walk_owners walk owner_tags rest visited
      else walk_owners walk owner_tags rest visited
  end.

Fixpoint walk (fuel : nat) (p : Policy) (owner_tags : list text) (tag : text)
    (visited : gset text) : bool * gset text :=
  match fuel with
  | O => (false, visited)
  | S fuel' =>
      if bool_decide (tag ∈ visited) then (false, visited)
      else
        let visited := {[tag]} ∪ visited in
        match p.(tag_owners) !! tag with
        | None => (false, visited)
        | Some owners => walk_owners (walk fuel' p owner_tags) owner_tags owners visited
        end
  end.

(** Every level of the recursion marks one more key of [tagOwners]. *)
Definition tag_owned_by_tags (p : Policy) (tag : text) (owner_tags : list text) : bool :=
  if bool_decide (tag ∈ owner_tags) then true
  else if negb (is_valid_tag tag) then false
  else (walk (S (size p.(tag_owners))) p owner_tags tag ∅).1.

Fixpoint filter_opt {A} (f : A → option bool) (l : list A) : option (list A) :=
  match l with
  | [] => Some []
  | x :: t =>
      b ← f x;
      r ← filter_opt f t;
      Some (if b : bool then x :: r else r)
  end.

Definition unauthorized_tags (fuel : nat) (p : Policy) (user_login : option text)
    (requested : list text) : option (list text) :=
  match user_login with
  | None => Some requested
  | Some login =>
      filter_opt (λ tag, negb <$> user_can_use_tag fuel p tag login) requested
  end.

(** ** Whom a principal designates *)

(** [m] is listed in the group that [principal] names. *)
Definition lists (p : Policy) (principal m : text) : Prop :=
  ∃ group members,
    strip_prefix (str "group:") principal = Some group
    ∧ p.(groups) !! group = Some members ∧ m ∈ members.

Inductive designates (p : Policy) (user_login : text) : text → Prop :=
| designates_self : designates p user_login user_login
| designates_member principal m :
    lists p principal m → m ≠ principal → designates p user_login m →
    designates p user_login principal.

(** The groups are acyclic, up to a group that lists itself: members rank
    below the groups that list them. *)
Definition ranked (p : Policy) (rank : text → nat) : Prop :=
  ∀ principal m, lists p principal m → m ≠ principal → (rank m < rank principal)%nat.

Lemma any_opt_Some {A} (f : A → option bool) l b :
  any_opt f l = Some b →
  if b then ∃ x, x ∈ l ∧ f x = Some true else ∀ x, x ∈ l → f x = Some false.
Proof.
  induction l as [|x l IH]; cbn.
  { intros [= <-] x Hx. by apply elem_of_nil in Hx. }
  destruct (f x) as [[]|] eqn:E; [intros [= <-]| |done].
  { exists x. split; [by left|done]. }
  intros H%IH. destruct b.
  - destruct H as (y & Hy & Hf). exists y. split; [by right|done].
  - intros y [->|Hy]%elem_of_cons; auto.
Qed.

Lemma any_opt_total {A} (f : A → option bool) l :
  (∀ x, x ∈ l → is_Some (f x)) → is_Some (any_opt f l).
Proof.
  induction l as [|x l IH]; intros H; cbn; [by eexists|].
  destruct (H x ltac:(by left)) as [[] ->]; [by eexists|]. apply IH. intros y Hy. apply H. by right.
Qed.

(** A verdict is the right one, whatever the groups. *)
Lemma principal_matches_user_exact fuel p principal login b :
  principal_matches_user fuel p principal login = Some b →
  b = true ↔ designates p login principal.
Proof.
  revert principal b. induction fuel as [|fuel IH]; intros principal b; [done|]. cbn [principal_matches_user].
  case_bool_decide as Hself.
  { intros [= <-]. subst. split; [constructor|done]. }
  assert (Hinv : designates p login principal →
    ∃ m, lists p principal m ∧ m ≠ principal ∧ designates p login m).
  { intros Hd. destruct Hd as [|? m]; [done|]. by exists m. }
  destruct (strip_prefix _ principal) as [group|] eqn:Eg.
  2: { intros [= <-]. split; [done|]. intros (m & (g & ms & Hg & _) & _)%Hinv. congruence. }
  destruct (p.(groups) !! group) as [members|] eqn:Em.
  2: { intros [= <-]. split; [done|]. intros (m & (g & ms & Hg & Hm & _) & _)%Hinv. congruence. }
  intros Hany%any_opt_Some. destruct b.
  - split; [intros _|done]. destruct Hany as (m & Hm & Hf). case_bool_decide; [done|].
    eapply designates_member; [by exists group, members|done|]. by apply (IH _ true).
  - split; [done|]. intros (m & (g & ms & Hg & Hms & Hm) & Hne & Hd)%Hinv. simplify_eq.
    specialize (Hany m Hm). cbv beta in Hany. rewrite bool_decide_eq_false_2 in Hany by done.
    by apply (IH _ false) in Hd.
Qed.

(** On acyclic groups the recursion ends: its depth is bounded by the rank. *)
Lemma principal_matches_user_total fuel p rank principal login :
  ranked p rank → (rank principal < fuel)%nat →
  is_Some (principal_matches_user fuel p principal login).
Proof.
  intros Hr. revert principal. induction fuel as [|fuel IH]; intros principal Hf; [lia|]. cbn [principal_matches_user].
  case_bool_decide; [by eexists|].
  destruct (strip_prefix _ principal) as [group|] eqn:Eg; [|by eexists].
  destruct (p.(groups) !! group) as [members|] eqn:Em; [|by eexists].
  apply any_opt_total. intros m Hm. case_bool_decide as Hne; [by eexists|].
  apply IH. assert (rank m < rank principal)%nat; [|lia].
  apply Hr; [by exists group, members|done].
Qed.

(** On acyclic groups the approval of a tag by a user returns, and approves
    exactly the well-formed tags one of whose owners designates the user,
    directly or through any depth of groups. *)
Theorem user_can_use_tag_decides p rank fuel tag login :
  ranked p rank → (∀ owner, (rank owner < fuel)%nat) →
  ∃ b, user_can_use_tag fuel p tag login = Some b
    ∧ (b = true ↔ is_valid_tag tag = true
        ∧ ∃ owners owner, p.(tag_owners) !! tag = Some owners
            ∧ owner ∈ owners ∧ designates p login owner).
Proof.
  intros Hr Hf. unfold user_can_use_tag. destruct (is_valid_tag tag); cbn [negb].
  2: { exists false. split; [done|]. by split; [|intros []]. }
  destruct (p.(tag_owners) !! tag) as [owners|].
  2: { exists false. split; [done|]. split; [done|]. by intros (_ & ? & ? & ? & _). }
  destruct (any_opt_total (λ owner, principal_matches_user fuel p owner login) owners) as [b Hb].
  { intros owner _. by eapply principal_matches_user_total. }
  exists b. split; [done|]. apply any_opt_Some in Hb. destruct b.
  - split; [intros _|done]. destruct Hb as (owner & Ho & Hd).
    apply principal_matches_user_exact in Hd. split; [done|].
    exists owners, owner. split_and!; [done..|]. by apply Hd.
  - split; [done|]. intros (_ & os & owner & [= <-] & Ho & Hd).
    specialize (Hb owner Ho). apply principal_matches_user_exact in Hb. by apply Hb in Hd.
Qed.

Definition demo_groups : Policy :=
  {| groups := {[ str "ops" := [str "bob@x"; str "group:eng"]; str "eng" := [str "eve@x"] ]};
     hosts := ∅; acls := []; grants := [];
     tag_owners := {[ str "tag:web" := [str "alice@x"; str "group:ops"] ]};
     auto_approvers := {| approver_routes := []; approver_exit_node := [] |};
     policy_ssh := []; node_attrs := []; policy_tests := []; ssh_tests := [] |}.

Definition demo_rank (t : text) : nat :=
  if bool_decide (t = str "group:ops") then 2 else if bool_decide (t = str "group:eng") then 1 else 0.

Lemma demo_groups_ranked : ranked demo_groups demo_rank.
Proof.
  intros principal m (g & ms & Hg & Hms & Hm) _. apply strip_prefix_Some in Hg as ->.
  unfold demo_groups in Hms. cbn [groups] in Hms.
  apply lookup_insert_Some in Hms as [[<- <-]|[_ [<- <-]%lookup_singleton_Some]];
    repeat (apply elem_of_cons in Hm as [->|Hm]); try (by apply elem_of_nil in Hm);
    vm_compute; lia.
Qed.

Lemma user_can_use_tag_decides_witness :
  ∃ b, user_can_use_tag 3 demo_groups (str "tag:web") (str "eve@x") = Some b
    ∧ (b = true ↔ is_valid_tag (str "tag:web") = true
        ∧ ∃ owners owner, demo_groups.(tag_owners) !! str "tag:web" = Some owners
            ∧ owner ∈ owners ∧ designates demo_groups (str "eve@x") owner).
Proof.
  apply (user_can_use_tag_decides _ demo_rank); [apply demo_groups_ranked|].
  intros owner. unfold demo_rank. repeat case_bool_decide; lia.
Defined.

Example demo_nested_group : user_can_use_tag 3 demo_groups (str "tag:web") (str "eve@x") = Some true.
Proof. by vm_compute. Qed.

(** Two groups that list each other make the recursion run for ever, for any
    user that they do not list: no amount of stack is enough. *)
Theorem group_cycle_diverges p tag a b login fuel :
  is_valid_tag tag = true → p.(tag_owners) !! tag = Some [str "group:" ++ a] →
  a ≠ b → p.(groups) !! a = Some [str "group:" ++ b] → p.(groups) !! b = Some [str "group:" ++ a] →
  login ≠ str "group:" ++ a → login ≠ str "group:" ++ b →
  user_can_use_tag fuel p tag login = None.
Proof.
  intros Hv Ho Hab Ha Hb Hla Hlb. unfold user_can_use_tag. rewrite Hv, Ho. cbn [negb any_opt].
  enough (H : principal_matches_user fuel p (str "group:" ++ a) login = None
              ∧ principal_matches_user fuel p (str "group:" ++ b) login = None)
    by by rewrite (proj1 H).
  assert (Hne : str "group:" ++ a ≠ str "group:" ++ b) by by intros ?%(inj (app _)).
  clear Hv Ho. induction fuel as [|fuel [IHa IHb]]; [done|]. cbn [principal_matches_user].
  rewrite !bool_decide_eq_false_2, !strip_prefix_app by congruence. rewrite Ha, Hb.
  cbn [any_opt]. rewrite !bool_decide_eq_false_2 by congruence. by rewrite IHa, IHb.
Qed.

Definition demo_cycle : Policy :=
  {| groups := {[ str "a" := [str "group:b"]; str "b" := [str "group:a"] ]};
     hosts := ∅; acls := []; grants := [];
     tag_owners := {[ str "tag:web" := [str "group:a"] ]};
     auto_approvers := {| approver_routes := []; approver_exit_node := [] |};
     policy_ssh := []; node_attrs := []; policy_tests := []; ssh_tests := [] |}.

Lemma group_cycle_diverges_witness :
  user_can_use_tag 500 demo_cycle (str "tag:web") (str "alice@x") = None.
Proof. by apply (group_cycle_diverges _ _ (str "a") (str "b")). Defined.

(** ** Ownership through tags *)

Section owned.
Context (p : Policy) (owner_tags : list text).

Inductive owned : text → Prop :=
| owned_direct tag owners owner :
    p.(tag_owners) !! tag = Some owners → owner ∈ owners → owner ∈ owner_tags → owned tag
| owned_chain tag owners owner :
    p.(tag_owners) !! tag = Some owners → owner ∈ owners →
    starts_with (str "tag:") owner = true → owned owner → owned tag.

(** Every owner of [t] was looked at, and those that are tags are in [v]. *)
Definition explored (v : gset text) (t : text) : Prop :=
  ∀ owners owner, p.(tag_owners) !! t = Some owners → owner ∈ owners →
    owner ∉ owner_tags ∧ (starts_with (str "tag:") owner = true → owner ∈ v).

Lemma explored_mono v v' t : v ⊆ v' → explored v t → explored v' t.
Proof. intros Hv H owners owner Hl Ho. destruct (H owners owner Hl Ho). auto. Qed.

(** A visited set that is explored and holds no direct owner shuts the owners
    out of everything in it. *)
Lemma explored_not_owned v :
  (∀ t, t ∈ v → explored v t) → ∀ t, owned t → t ∉ v.
Proof.
  intros Hv t Ht. induction Ht as [t owners owner Hl Ho Hin|t owners owner Hl Ho Hs Hw IH];
    intros Htv; destruct (Hv t Htv owners owner Hl Ho) as [Hn Hc]; [done|]. by apply IH, Hc.
Qed.

Definition walk_ok (tag : text) (v : gset text) (r : bool * gset text) : Prop :=
  v ⊆ r.2 ∧
  if r.1 then owned tag else tag ∈ r.2 ∧ ∀ t, t ∈ r.2 → t ∈ v ∨ explored r.2 t.

Lemma walk_owners_ok w owners v0 v :
  (∀ owner v, v0 ⊆ v → walk_ok owner v (w owner v)) → v0 ⊆ v →
  let r := walk_owners w owner_tags owners v in
  v ⊆ r.2 ∧
  if r.1
  then ∃ owner, owner ∈ owners ∧ (owner ∈ owner_tags ∨ starts_with (str "tag:") owner = true ∧ owned owner)
  else (∀ owner, owner ∈ owners →
          owner ∉ owner_tags ∧ (starts_with (str "tag:") owner = true → owner ∈ r.2))
       ∧ ∀ t, t ∈ r.2 → t ∈ v ∨ explored r.2 t.
Proof.
  intros Hw. revert v. induction owners as [|owner owners IH]; intros v Hv; cbn [walk_owners].
  { split; [done|]. cbn. split; [|auto]. intros owner Ho. by apply elem_of_nil in Ho. }
  case_bool_decide as Ho; cbn [fst snd].
  { split; [done|]. exists owner. split; [by left|auto]. }
  destruct (starts_with _ owner) eqn:Es.
  - destruct (Hw owner v Hv) as [Hsub Hok]. destruct (w owner v) as [[] v1]; cbn [fst snd] in *.
    { split; [done|]. exists owner. split; [by left|auto]. }
    destruct Hok as [Hin Hex]. destruct (IH v1 ltac:(set_solver)) as [Hsub' Hok].
    destruct (walk_owners w owner_tags owners v1) as [[] v2]; cbn [fst snd] in *.
    { split; [set_solver|]. destruct Hok as (o & Hoo & Hoc). exists o. split; [by right|done]. }
    destruct Hok as [Hos Hts]. split; [set_solver|]. split.
    + intros o [->|Hoo]%elem_of_cons; [split; [done|set_solver]|by apply Hos].
    + intros t [Ht|Ht]%Hts; [|by right]. destruct (Hex t Ht); [by left|right].
      by eapply explored_mono.
  - destruct (IH v Hv) as [Hsub Hok].
    destruct (walk_owners w owner_tags owners v) as [[] v2]; cbn [fst snd] in *.
    { split; [done|]. destruct Hok as (o & Hoo & Hoc). exists o. split; [by right|done]. }
    destruct Hok as [Hos Hts]. split; [done|]. split; [|done].
    intros o [->|Hoo]%elem_of_cons; [by rewrite Es|by apply Hos].
Qed.

(** The walk is a depth-first search; the fuel bounds the keys left to visit. *)
Lemma walk_spec fuel tag v :
  (size (dom p.(tag_owners) ∖ v) < fuel)%nat → walk_ok tag v (walk fuel p owner_tags tag v).
Proof.
  revert tag v. induction fuel as [|fuel IH]; intros tag v Hf; [lia|]. cbn [walk].
  case_bool_decide as Hv; [by split; cbn; [|auto]|].
  destruct (p.(tag_owners) !! tag) as [owners|] eqn:El.
  2: { split; cbn; [set_solver|]. split; [set_solver|].
       intros t [->%elem_of_singleton|]%elem_of_union; [|by left]. right.
       intros os o Hos. congruence. }
  pose proof (walk_owners_ok (walk fuel p owner_tags) owners ({[tag]} ∪ v) ({[tag]} ∪ v)) as Hw.
  destruct Hw as [Hsub Hok]; [|done|].
  { intros owner v' Hv'. apply IH. assert (Hd : tag ∈ dom p.(tag_owners)) by by apply elem_of_dom_2 in El.
    assert (size (dom p.(tag_owners) ∖ v') < size (dom p.(tag_owners) ∖ v))%nat; [|lia].
    apply subset_size. set_solver. }
  destruct (walk_owners _ _ _ _) as [[] v']; cbn [fst snd] in *; split; cbn [fst snd]; [set_solver| |set_solver|].
  - destruct Hok as (o & Ho & [Hin|[Hs Hw]]);
      [by eapply owned_direct|by eapply owned_chain].
  - destruct Hok as [Hos Hts]. split; [set_solver|]. intros t Ht.
    destruct (Hts t Ht) as [[->%elem_of_singleton|]%elem_of_union|]; [right|by left|by right].
    intros os o Hos' Ho. rewrite El in Hos'. injection Hos' as <-. by apply Hos.
Qed.
End owned.

(** [tag_owned_by_tags] returns, and reports exactly whether the credential
    holds the tag or a chain of tag owners leads from the tag to one the
    credential holds. *)
Theorem tag_owned_by_tags_exact p tag owner_tags :
  tag_owned_by_tags p tag owner_tags = true
  ↔ tag ∈ owner_tags ∨ is_valid_tag tag = true ∧ owned p owner_tags tag.
Proof.
  unfold tag_owned_by_tags. case_bool_decide as Hin; [by split; [left|]|].
  destruct (is_valid_tag tag); cbn [negb]; [|naive_solver].
  destruct (walk_spec p owner_tags (S (size p.(tag_owners))) tag ∅) as [_ Hok].
  { rewrite difference_empty_L, size_dom. lia. }
  destruct (walk _ _ _ _ _) as [[] v]; cbn [fst snd] in *; [naive_solver|].
  destruct Hok as [Htv Hex]. split; [done|]. intros [?|[_ Ho]]; [done|]. exfalso.
  revert Ho Htv. apply explored_not_owned. intros t Ht. destruct (Hex t Ht); [set_solver|done].
Qed.
