(* ===== verification/PolicyRoutes.v ===== *)
(** * Route approval

    [crabscale-policy/src/routes.rs]: which advertised routes the policy's
    [autoApprovers] approve for a node.  The fuel bounds the depth of the
    group recursion of [PolicyTags.principal_matches_user]. *)

From S2P Require Import Prelude Text Net IpText PolicyModel PolicyTags.

(** The [match rest] of an [autogroup:] principal. *)
Definition autogroup_matches (rest : text) (node : CompileNode) : bool :=
  if bool_decide (rest = str "self") then true
  else if bool_decide (rest = str "member") then bool_decide (node.(cn_tags) = [])
  else if bool_decide (rest = str "tagged") then negb (bool_decide (node.(cn_tags) = []))
  else false.

Definition approver_matches_node (fuel : nat) (p : Policy) (principal : text) (node : CompileNode)
    : option bool :=
  if bool_decide (principal = str "*") then Some true
  else
    match strip_prefix (str "autogroup:") principal with
    | Some rest => Some (autogroup_matches rest node)
    | None =>
        if starts_with (str "group:") principal then
          match node.(cn_user_login) with
          | Some login => principal_matches_user fuel p principal login
          | None => Some false
          end
        else if starts_with (str "tag:") principal then
          Some (bool_decide (principal ∈ node.(cn_tags)))
        else if bool_decide (node.(cn_user_login) = Some principal) then Some true
        else
          match canonical_route principal with
          | Some net => Some (existsb (λ addr, addr_in_cidr addr net) node.(cn_addresses))
          | None => Some false
          end
    end.

(** The closure [consider] on one entry of [autoApprovers]: the routes it
    pushes. *)
Fixpoint consider_routes (fuel : nat) (p : Policy) (node : CompileNode) (canon_prefix : text)
    (approvers : list text) (advertised : list text) : option (list text) :=
  match advertised with
  | [] => Some []
  | route :: rest =>
      match canonical_route route with
      | None => consider_routes fuel p node canon_prefix approvers rest
      | Some canon_route =>
          approved ←
            (if addr_in_cidr canon_route canon_prefix
             then any_opt (λ approver, approver_matches_node fuel p approver node) approvers
             else Some false);
          pushed ← consider_routes fuel p node canon_prefix approvers rest;
          Some (if approved : bool then canon_route :: pushed else pushed)
      end
  end.

Definition consider (fuel : nat) (p : Policy) (node : CompileNode) (advertised : list text)
    (entry : text * list text) : option (list text) :=
  match canonical_route entry.1 with
  | None => Some []
  | Some canon_prefix => consider_routes fuel p node canon_prefix entry.2 advertised
  end.

Fixpoint concat_opt {A B} (f : A → option (list B)) (l : list A) : option (list B) :=
  match l with
  | [] => Some []
  | x :: t => a ← f x; b ← concat_opt f t; Some (a ++ b)
  end.

Definition auto_approved_routes (fuel : nat) (p : Policy) (node : CompileNode)
    (advertised : list text) : option (list text) :=
  approved ← concat_opt (consider fuel p node advertised)
    (p.(auto_approvers).(approver_routes) ++ p.(auto_approvers).(approver_exit_node));
  Some (sort_dedup approved).

(** ** Exactness *)

Lemma concat_opt_Some {A B} (f : A → option (list B)) l r x :
  concat_opt f l = Some r → x ∈ r ↔ ∃ a b, a ∈ l ∧ f a = Some b ∧ x ∈ b.
Proof.
  revert r. induction l as [|a l IH]; intros r; cbn.
  { intros [= <-]. split; [by intros ?%elem_of_nil|]. by intros (? & ? & ?%elem_of_nil & _). }
  destruct (f a) as [b|] eqn:Ef; [|done]. cbn.
  destruct (concat_opt f l) as [r'|]; [|done]. intros [= <-].
  specialize (IH _ eq_refl). rewrite elem_of_app, IH. setoid_rewrite elem_of_cons. naive_solver.
Qed.

Lemma concat_opt_total {A B} (f : A → option (list B)) l :
  (∀ a, a ∈ l → is_Some (f a)) → is_Some (concat_opt f l).
Proof.
  induction l as [|a l IH]; intros H; [by eexists|]. cbn.
  destruct (H a ltac:(by left)) as [b ->]. cbn.
  destruct IH as [r ->]; [intros x Hx; apply H; by right|]. by eexists.
Qed.

Section approval.
Context (fuel : nat) (p : Policy) (node : CompileNode).

(** The node matches one of the approvers. *)
Definition approved_by (approvers : list text) : Prop :=
  ∃ approver, approver ∈ approvers ∧ approver_matches_node fuel p approver node = Some true.

Lemma any_opt_true {A} (f : A → option bool) l b :
  any_opt f l = Some b → b = true ↔ ∃ x, x ∈ l ∧ f x = Some true.
Proof.
  intros H%any_opt_Some. destruct b; [done|]. split; [done|].
  intros (x & Hx & Ht). specialize (H x Hx). congruence.
Qed.

Lemma consider_routes_elem cp approvers advertised r x :
  consider_routes fuel p node cp approvers advertised = Some r →
  x ∈ r ↔ ∃ route, route ∈ advertised ∧ canonical_route route = Some x
                   ∧ addr_in_cidr x cp = true ∧ approved_by approvers.
Proof.
  revert r. induction advertised as [|route rest IH]; intros r; cbn [consider_routes].
  { intros [= <-]. split; [by intros ?%elem_of_nil|]. by intros (? & ?%elem_of_nil & _). }
  setoid_rewrite elem_of_cons. destruct (canonical_route route) as [c|] eqn:Ec.
  2: { intros H%IH. rewrite H. naive_solver. }
  destruct (if addr_in_cidr c cp then _ else _) as [b|] eqn:Eb; [|done]. cbn [mbind option_bind].
  destruct (consider_routes _ _ _ _ _ rest) as [r'|]; [|done]. cbn [mbind option_bind].
  intros [= <-]. specialize (IH _ eq_refl).
  assert (Hb : b = true ↔ addr_in_cidr c cp = true ∧ approved_by approvers).
  { destruct (addr_in_cidr c cp); [|naive_solver]. apply any_opt_true in Eb. rewrite Eb.
    unfold approved_by. naive_solver. }
  destruct b; [rewrite elem_of_cons|]; rewrite IH; naive_solver.
Qed.

Lemma addr_in_cidr_canonical route prefix ip b ipp bp c cp :
  parse_cidr route = Some (ip, b) → parse_cidr prefix = Some (ipp, bp) →
  canonical_route route = Some c → canonical_route prefix = Some cp →
  addr_in_cidr c cp = in_net (mask_addr ip b) ipp bp.
Proof.
  intros Hr Hp Hc Hcp. destruct (canonical_route_parse _ _ _ Hr) as [Hc' Hpc].
  destruct (canonical_route_parse _ _ _ Hp) as [Hcp' Hpcp]. simplify_eq.
  unfold addr_in_cidr. rewrite Hpc, Hpcp. apply eq_true_iff_eq.
  pose proof (parse_cidr_range _ _ _ Hp) as [Hw Hb].
  pose proof (mask_addr_wf _ _ Hw Hb) as [_ Hb'].
  rewrite !in_net_mask by lia. by rewrite mask_addr_idem.
Qed.

(** [auto_approved_routes] lists, in ascending order without repetition, the
    canonical forms of exactly the advertised routes whose network address
    lies in a prefix of [autoApprovers] one of whose approvers is the node. *)
Theorem auto_approved_routes_exact advertised rs :
  auto_approved_routes fuel p node advertised = Some rs →
  StronglySorted text_lt rs
  ∧ ∀ r, r ∈ rs ↔
      ∃ prefix approvers route ip b ipp bp,
        (prefix, approvers) ∈ p.(auto_approvers).(approver_routes) ++ p.(auto_approvers).(approver_exit_node)
        ∧ route ∈ advertised ∧ canonical_route route = Some r
        ∧ parse_cidr route = Some (ip, b) ∧ parse_cidr prefix = Some (ipp, bp)
        ∧ in_net (mask_addr ip b) ipp bp = true ∧ approved_by approvers.
Proof.
  unfold auto_approved_routes. destruct (concat_opt _ _) as [l|] eqn:El; [|done].
  cbn [mbind option_bind]. intros [= <-]. split; [apply sort_dedup_sorted|]. intros r.
  rewrite elem_of_sort_dedup, (concat_opt_Some _ _ _ r El). split.
  - intros ([prefix approvers] & l' & Hin & Hc & Hr). unfold consider in Hc. cbn [fst snd] in Hc.
    destruct (canonical_route prefix) as [cp|] eqn:Ecp.
    2: { injection Hc as <-. by apply elem_of_nil in Hr. }
    eapply consider_routes_elem in Hc. apply Hc in Hr as (route & Hroute & Ecr & Ha & Happ).
    assert (∃ x, parse_cidr route = Some x) as [[ip b] Hip].
    { unfold canonical_route in Ecr. destruct (parse_cidr route); [eauto|done]. }
    assert (∃ x, parse_cidr prefix = Some x) as [[ipp bp] Hipp].
    { unfold canonical_route in Ecp. destruct (parse_cidr prefix); [eauto|done]. }
    exists prefix, approvers, route, ip, b, ipp, bp. split_and!; try done.
    by rewrite <- (addr_in_cidr_canonical _ _ _ _ _ _ _ _ Hip Hipp Ecr Ecp).
  - intros (prefix & approvers & route & ip & b & ipp & bp & Hin & Hroute & Ecr & Hip & Hipp & Hn & Happ).
    destruct (canonical_route_parse _ _ _ Hipp) as [Ecp _].
    assert (Hc : ∃ l', consider fuel p node advertised (prefix, approvers) = Some l').
    { clear -El Hin. revert l El. induction (_ ++ _) as [|e es IH]; intros l El; [by apply elem_of_nil in Hin|].
      cbn in El. destruct (consider _ _ _ _ e) as [a|] eqn:Ea; [|done]. cbn in El.
      destruct (concat_opt _ es) as [l'|]; [|done].
      apply elem_of_cons in Hin as [->|Hin]; [by exists a|by eapply IH]. }
    destruct Hc as [l' Hl']. exists (prefix, approvers), l'. split_and!; [done..|].
    unfold consider in Hl'. cbn [fst snd] in Hl'. rewrite Ecp in Hl'.
    apply (consider_routes_elem _ _ _ _ _ Hl'). exists route. split_and!; try done.
    by rewrite (addr_in_cidr_canonical _ _ _ _ _ _ _ _ Hip Hipp Ecr Ecp).
Qed.
End approval.

(** On acyclic groups the approval returns. *)
Lemma auto_approved_routes_total fuel p rank node advertised :
  ranked p rank → (∀ t, (rank t < fuel)%nat) →
  is_Some (auto_approved_routes fuel p node advertised).
Proof.
  intros Hr Hf. unfold auto_approved_routes.
  assert (Hm : ∀ a, is_Some (approver_matches_node fuel p a node)).
  { intros a. unfold approver_matches_node. case_bool_decide; [by eexists|].
    destruct (strip_prefix _ _); [by eexists|]. destruct (starts_with _ _).
    { destruct (cn_user_login node); [|by eexists]. by eapply principal_matches_user_total. }
    destruct (starts_with _ _); [by eexists|]. case_bool_decide; [by eexists|].
    destruct (canonical_route a); by eexists. }
  destruct (concat_opt_total (consider fuel p node advertised)
    (p.(auto_approvers).(approver_routes) ++ p.(auto_approvers).(approver_exit_node))) as [l ->];
    [|by eexists].
  intros [prefix approvers] _. unfold consider. cbn [fst snd].
  destruct (canonical_route prefix) as [cp|]; [|by eexists].
  induction advertised as [|route rest [r IH]]; cbn [consider_routes]; [by eexists|].
  destruct (canonical_route route) as [c|]; [|by exists r].
  destruct (any_opt_total (λ a, approver_matches_node fuel p a node) approvers) as [b Hb]; [auto|].
  rewrite Hb, IH. destruct (addr_in_cidr c cp); by eexists.
Qed.

Definition demo_approvers : Policy :=
  {| groups := ∅; hosts := ∅; acls := []; grants := []; tag_owners := ∅;
     auto_approvers := {| approver_routes := [(str "10.0.0.0/8", [str "tag:router"])];
                          approver_exit_node := [] |};
     policy_ssh := []; node_attrs := []; policy_tests := []; ssh_tests := [] |}.

Definition demo_router : CompileNode :=
  {| cn_id := 1; cn_stable_id := str "n1"; cn_user_login := None;
     cn_addresses := [str "100.64.0.1/32"]; cn_tags := [str "tag:router"] |}.

Lemma auto_approved_routes_exact_witness :
  StronglySorted text_lt [str "10.1.0.0/16"]
  ∧ ∀ r, r ∈ [str "10.1.0.0/16"] ↔
      ∃ prefix approvers route ip b ipp bp,
        (prefix, approvers) ∈ demo_approvers.(auto_approvers).(approver_routes)
                               ++ demo_approvers.(auto_approvers).(approver_exit_node)
        ∧ route ∈ [str "10.1.2.3/16"; str "192.168.0.0/24"; str "junk"]
        ∧ canonical_route route = Some r
        ∧ parse_cidr route = Some (ip, b) ∧ parse_cidr prefix = Some (ipp, bp)
        ∧ in_net (mask_addr ip b) ipp bp = true ∧ approved_by 1 demo_approvers demo_router approvers.
Proof. apply auto_approved_routes_exact. by vm_compute. Defined.

(** Approval looks at the network address of the route and not at its length:
    a node approved for [10.0.0.0/8] that advertises [10.0.0.0/7] gets it,
    and with it every address of [11.0.0.0/8], none of which is in the
    approved prefix. *)
Theorem supernet_auto_approved :
  auto_approved_routes 1 demo_approvers demo_router [str "10.0.0.0/7"] = Some [str "10.0.0.0/7"]
  ∧ addr_in_cidr (str "11.0.0.1") (str "10.0.0.0/7") = true
  ∧ addr_in_cidr (str "11.0.0.1") (str "10.0.0.0/8") = false.
Proof. by vm_compute. Qed.
