(* ===== verification/PolicyCompile.v ===== *)
(** * The policy compiler

    [crabscale-policy/src/compile.rs]: access rules and grants become the
    packet filter of each node and the set of peers each node may see.  The
    definitions are here, their theorems in [PolicyResolve] and
    [PolicyVisibility].  The recursion through groups carries the set of
    groups being resolved, so it is at most one level deeper than there are
    groups. *)

From S2P Require Import Prelude Text Net IpText PolicyModel PolicyTags PolicyRoutes.

(** ** Wire rules *)

Record NetPortRange : Type := { port_first : Z; port_last : Z }.

Record CapGrant : Type := { cg_dsts : list text; cg_cap_map : list (text * list Json) }.

Record FilterRule : Type := {
  src_ips : list text; dst_ports : list NetPortRange; src_bits : option (list Z);
  ip_proto : option (list Z); cap_grant : list CapGrant }.

#[global] Instance NetPortRange_eq_dec : EqDecision NetPortRange.
Proof. solve_decision. Defined.
#[global] Instance CapGrant_eq_dec : EqDecision CapGrant.
Proof. solve_decision. Defined.
#[global] Instance FilterRule_eq_dec : EqDecision FilterRule.
Proof. solve_decision. Defined.

Record CompiledPolicy : Type := {
  global_filter : list FilterRule;
  node_filters : gmap Z (list FilterRule);
  compiled_grants : gmap Z (list FilterRule);
  peer_visibility : gmap Z (gset Z) }.

Definition CompiledPolicy_default : CompiledPolicy :=
  {| global_filter := []; node_filters := ∅; compiled_grants := ∅; peer_visibility := ∅ |}.

(** ** Classifying targets *)

Definition is_bare_ipv6 (s : text) : bool :=
  contains_char 58 s && negb (starts_with (str "[") s)
  && match parse_ipv6 s with Some _ => true | None => false end.

Definition is_host_ident (s : text) : bool :=
  negb (bool_decide (s = []))
  && forallb (λ c, is_ascii_alphanumeric c || (c =? 45) || (c =? 46) || (c =? 95)) s.

Definition is_user_ident (s : text) : bool :=
  match split_once 64 s with
  | None => false
  | Some (user, host) =>
      negb (bool_decide (user = [])) && negb (bool_decide (host = []))
      && forallb (λ c, negb (is_whitespace c)) user
  end.

Definition is_ip_or_cidr_str (s : text) : bool :=
  match parse_ip s with
  | Some _ => true
  | None =>
      match split_once 47 s with
      | None => false
      | Some (addr, bits) =>
          match parse_ip addr, parse_uint 255 bits with
          | Some ip, Some bits => bits <=? addr_bits ip
          | _, _ => false
          end
      end
  end.

Definition normalize_cidr (s : text) : text :=
  match parse_ip s with
  | Some ip => show_ip ip ++ [47] ++ show_uint (addr_bits ip)
  | None => s
  end.

(** [s.trim_start_matches(p)] for a non-empty [p] *)
Fixpoint trim_start_loop (fuel : nat) (p s : text) : text :=
  match fuel with
  | O => s
  | S f => match strip_prefix p s with Some t => trim_start_loop f p t | None => s end
  end.

Definition trim_start_matches (p s : text) : text := trim_start_loop (length s) p s.

(** ** Ports and protocols *)

Definition all_ports : list NetPortRange := [{| port_first := 0; port_last := 65535 |}].

Definition parse_port_item (item : text) : list NetPortRange :=
  let item := trim item in
  if bool_decide (item = []) then []
  else
    match split_once 45 item with
    | Some (lo, hi) =>
        match parse_uint 65535 lo, parse_uint 65535 hi with
        | Some lo, Some hi =>
            if lo <=? hi then [{| port_first := lo; port_last := hi |}] else []
        | _, _ => []
        end
    | None =>
        match parse_uint 65535 item with
        | Some port => [{| port_first := port; port_last := port |}]
        | None => []
        end
    end.

Definition parse_ports (ports : text) : list NetPortRange :=
  if bool_decide (ports = str "*") then all_ports
  else flat_map parse_port_item (split 44 ports).

Definition parse_ip_proto (proto : option text) : option (list Z) :=
  proto ← proto;
  if bool_decide (proto = []) then None
  else
    let name := match split 58 proto with name :: _ => name | [] => proto end in
    match parse_i32 name with
    | Some num => Some [num]
    | None =>
        let lower := map to_ascii_lowercase name in
        if bool_decide (lower ∈ [str "icmp"; str "icmpv4"]) then Some [1]
        else if bool_decide (lower = str "tcp") then Some [6]
        else if bool_decide (lower = str "udp") then Some [17]
        else if bool_decide (lower = str "gre") then Some [47]
        else if bool_decide (lower ∈ [str "icmpv6"; str "icmp6"]) then Some [58]
        else None
    end.

Definition split_bracketed_ports (target : text) : option (text * text) :=
  '(rest, ports) ← split_once_str (str "]:") target;
  host ← strip_prefix (str "[") rest;
  if bool_decide (host = []) || bool_decide (ports = []) then None else Some (host, ports).

Definition split_ports_literal (target : text) : option (text * text) :=
  '(host, ports) ← rsplit_once 58 target;
  if bool_decide (host = []) || bool_decide (ports = []) then None
  else if is_bare_ipv6 host then None
  else if bool_decide (host = str "*") || is_ip_or_cidr_str host || is_host_ident host
          || starts_with (str "tag:") host || starts_with (str "group:") host
          || starts_with (str "autogroup:") host || is_user_ident host
       then Some (host, ports)
       else None.

Definition values_of (value : Json) : list Json :=
  match value with JArray items => items | other => [other] end.

Definition push_dedup (rules : list FilterRule) (rule : FilterRule) : list FilterRule :=
  if bool_decide (rule ∈ rules) then rules else rules ++ [rule].

(** ** Resolved targets *)

Record ResolvedTarget : Type := {
  wildcard : bool; self_match : bool; member_match : bool; tagged_match : bool;
  nets : list text; identities : gset text }.

Definition ResolvedTarget_default : ResolvedTarget :=
  {| wildcard := false; self_match := false; member_match := false; tagged_match := false;
     nets := []; identities := ∅ |}.

Definition resolved_wildcard : ResolvedTarget :=
  {| wildcard := true; self_match := false; member_match := false; tagged_match := false;
     nets := []; identities := ∅ |}.

Definition resolved_autogroup (rest : text) : ResolvedTarget :=
  {| wildcard := false;
     self_match := bool_decide (rest = str "self");
     member_match := bool_decide (rest = str "member");
     tagged_match := bool_decide (rest = str "tagged");
     nets := []; identities := ∅ |}.

Definition resolved_identity (target : text) : ResolvedTarget :=
  {| wildcard := false; self_match := false; member_match := false; tagged_match := false;
     nets := []; identities := {[target]} |}.

Definition resolved_net (net : text) : ResolvedTarget :=
  {| wildcard := false; self_match := false; member_match := false; tagged_match := false;
     nets := [net]; identities := ∅ |}.

(** What a group takes over from a resolved member: the autogroup markers of
    the member are not among it. *)
Definition add_member (r m : ResolvedTarget) : ResolvedTarget :=
  {| wildcard := r.(wildcard) || m.(wildcard); self_match := r.(self_match);
     member_match := r.(member_match); tagged_match := r.(tagged_match);
     nets := r.(nets) ++ m.(nets); identities := r.(identities) ∪ m.(identities) |}.

Definition add_target (r m : ResolvedTarget) : ResolvedTarget :=
  {| wildcard := r.(wildcard) || m.(wildcard); self_match := r.(self_match) || m.(self_match);
     member_match := r.(member_match) || m.(member_match);
     tagged_match := r.(tagged_match) || m.(tagged_match);
     nets := r.(nets) ++ m.(nets); identities := r.(identities) ∪ m.(identities) |}.

(** Users, addresses, networks and host aliases. *)
Definition resolve_named (p : Policy) (target : text) : ResolvedTarget :=
  if is_user_ident target then resolved_identity target
  else if is_ip_or_cidr_str target then resolved_net (normalize_cidr target)
  else
    match p.(hosts) !! target with
    | Some value =>
        if is_ip_or_cidr_str value then resolved_net (normalize_cidr value)
        else ResolvedTarget_default
    | None => ResolvedTarget_default
    end.

Fixpoint resolve_single (fuel : nat) (p : Policy) (resolving : gset text) (target : text)
    : ResolvedTarget :=
  match fuel with
  | O => ResolvedTarget_default
  | S fuel' =>
      if bool_decide (target = str "*") then resolved_wildcard
      else
        match strip_prefix (str "autogroup:") target with
        | Some rest => resolved_autogroup rest
        | None =>
            match strip_prefix (str "group:") target with
            | Some group =>
                if bool_decide (group ∈ resolving) then ResolvedTarget_default
                else
                  match p.(groups) !! group with
                  | Some members =>
                      fold_left
                        (λ r m, add_member r (resolve_single fuel' p ({[group]} ∪ resolving) m))
                        members ResolvedTarget_default
                  | None => ResolvedTarget_default
                  end
            | None =>
                if starts_with (str "tag:") target then resolved_identity target
                else resolve_named p target
            end
        end
  end.

Definition group_fuel (p : Policy) : nat := S (size p.(groups)).

Definition sort_nets (r : ResolvedTarget) : ResolvedTarget :=
  {| wildcard := r.(wildcard); self_match := r.(self_match); member_match := r.(member_match);
     tagged_match := r.(tagged_match); nets := sort_dedup r.(nets);
     identities := r.(identities) |}.

Definition resolve (p : Policy) (targets : list text) : ResolvedTarget :=
  sort_nets (fold_left (λ r t, add_target r (resolve_single (group_fuel p) p ∅ t))
    targets ResolvedTarget_default).

Definition resolve_bare (p : Policy) (host : text) : ResolvedTarget :=
  if bool_decide (host = str "*") then resolved_wildcard
  else
    match strip_prefix (str "autogroup:") host with
    | Some rest => resolved_autogroup rest
    | None =>
        if starts_with (str "tag:") host then resolved_identity host
        else if starts_with (str "group:") host then
          match p.(groups) !! trim_start_matches (str "group:") host with
          | Some members =>
              fold_left (λ r m, add_member r (resolve_single (group_fuel p) p ∅ m))
                members ResolvedTarget_default
          | None => ResolvedTarget_default
          end
        else resolve_named p host
    end.

Definition has_identity (r : ResolvedTarget) (node : CompileNode) : bool :=
  match node.(cn_user_login) with
  | Some login => bool_decide (login ∈ r.(identities))
  | None => false
  end || existsb (λ tag, bool_decide (tag ∈ r.(identities))) node.(cn_tags).

Definition matches_node (r : ResolvedTarget) (node : CompileNode) : bool :=
  r.(wildcard) || r.(self_match)
  || has_identity r node
  || (r.(member_match) && bool_decide (node.(cn_tags) = []))
  || (r.(tagged_match) && negb (bool_decide (node.(cn_tags) = [])))
  || existsb (λ net, existsb (λ addr, addr_in_cidr addr net) node.(cn_addresses)) r.(nets).

Definition autogroup_ips (r : ResolvedTarget) (nodes : list CompileNode) : list text :=
  flat_map (λ node,
    if r.(self_match) || (r.(member_match) && bool_decide (node.(cn_tags) = []))
       || (r.(tagged_match) && negb (bool_decide (node.(cn_tags) = [])))
    then node.(cn_addresses) else []) nodes.

Definition to_src_ips (r : ResolvedTarget) (nodes : list CompileNode) : list text :=
  if r.(wildcard) then [str "*"]
  else sort_dedup (r.(nets) ++ autogroup_ips r nodes
    ++ flat_map (λ node, if has_identity r node then node.(cn_addresses) else []) nodes).

Record DstTarget : Type := { dst_target : ResolvedTarget; dt_ports : list NetPortRange; dst_wildcard : bool }.

Definition dst_matches (d : DstTarget) (node : CompileNode) : bool :=
  d.(dst_wildcard) || matches_node d.(dst_target) node.

Definition parse_dst (p : Policy) (target : text) : option DstTarget :=
  if bool_decide (target = str "*") then
    Some {| dst_target := ResolvedTarget_default; dt_ports := all_ports; dst_wildcard := true |}
  else
    match split_bracketed_ports target with
    | Some (host, ports) =>
        Some {| dst_target := resolve_bare p host; dt_ports := parse_ports ports; dst_wildcard := false |}
    | None =>
        match split_ports_literal target with
        | Some (host, ports) =>
            Some {| dst_target := resolve_bare p host; dt_ports := parse_ports ports; dst_wildcard := false |}
        | None =>
            Some {| dst_target := resolve_bare p target; dt_ports := all_ports; dst_wildcard := false |}
        end
    end.

(** ** Compiling *)

(** [map.entry(id).or_default().push(f)] and [.or_default()] *)
Definition push_filter (id : Z) (f : FilterRule) (m : gmap Z (list FilterRule))
    : gmap Z (list FilterRule) := <[id := default [] (m !! id) ++ [f]]> m.

Definition or_default {A} (d : A) (id : Z) (m : gmap Z A) : gmap Z A :=
  <[id := default d (m !! id)]> m.

(** The compiled policy so far and the local [can_reach]. *)
Record Compiling : Type := {
  c_global : list FilterRule; c_filters : gmap Z (list FilterRule);
  c_grants : gmap Z (list FilterRule); can_reach : gmap Z (gset Z) }.

Definition Compiling_new : Compiling :=
  {| c_global := []; c_filters := ∅; c_grants := ∅; can_reach := ∅ |}.

Definition network_rule (src : list text) (ports : list NetPortRange) (proto : option (list Z))
    : FilterRule :=
  {| src_ips := src; dst_ports := ports; src_bits := None; ip_proto := proto; cap_grant := [] |}.

Definition capability_rule (src : list text) (app : list (text * Json)) (node : CompileNode)
    : FilterRule :=
  {| src_ips := src; dst_ports := []; src_bits := None; ip_proto := None;
     cap_grant := [{| cg_dsts := node.(cn_addresses);
                      cg_cap_map := map (λ '(name, value), (name, values_of value)) app |}] |}.

(** One destination of an access rule. *)
Definition compile_dst (p : Policy) (nodes : list CompileNode) (src : list text)
    (src_nodes : list CompileNode) (proto : option (list Z)) (c : Compiling) (dst : text)
    : Compiling :=
  match parse_dst p dst with
  | None => c
  | Some target =>
      let f := network_rule src target.(dt_ports) proto in
      let dst_nodes := filter (λ n, dst_matches target n = true) nodes in
      {| c_global := push_dedup c.(c_global) f;
         c_filters := fold_left (λ m n, push_filter n.(cn_id) f m) dst_nodes c.(c_filters);
         c_grants := c.(c_grants);
         can_reach := fold_left (λ m s,
             <[s.(cn_id) := list_to_set (cn_id <$> dst_nodes) ∪ default ∅ (m !! s.(cn_id))]> m)
           src_nodes c.(can_reach) |}
  end.

Definition compile_acl (p : Policy) (nodes : list CompileNode) (c : Compiling) (rule : Acl)
    : Compiling :=
  let resolved_src := resolve p rule.(acl_src) in
  let src := to_src_ips resolved_src nodes in
  if bool_decide (src = []) then c
  else
    let src_nodes := filter (λ n, matches_node resolved_src n = true) nodes in
    fold_left (compile_dst p nodes src src_nodes (parse_ip_proto rule.(acl_proto)))
      rule.(acl_dst) c.

Definition compile_grant (p : Policy) (nodes : list CompileNode) (c : Compiling) (g : Grant)
    : Compiling :=
  let src := to_src_ips (resolve p g.(grant_src)) nodes in
  if bool_decide (src = []) then c
  else
    let dst_targets := omap (parse_dst p) g.(grant_dst) in
    fold_left (λ c node,
      if existsb (λ t, dst_matches t node) dst_targets then
        let f := capability_rule src g.(grant_app) node in
        {| c_global := c.(c_global);
           c_filters := push_filter node.(cn_id) f c.(c_filters);
           c_grants := push_filter node.(cn_id) f c.(c_grants);
           can_reach := c.(can_reach) |}
      else c) nodes c.

(** The peers of [id]: those it reaches and those that reach it. *)
Definition visible_to (reach : gmap Z (gset Z)) (id : Z) : gset Z :=
  (default ∅ (reach !! id) ∪ dom (filter (λ '(from, tos), id ∈ tos ∧ from ≠ id) reach)) ∖ {[id]}.

Definition compile_policy (p : Policy) (nodes : list CompileNode) : CompiledPolicy :=
  let c := fold_left (compile_grant p nodes) p.(grants)
             (fold_left (compile_acl p nodes) p.(acls) Compiling_new) in
  {| global_filter := c.(c_global);
     node_filters := fold_left (λ m n, or_default [] n.(cn_id) m) nodes c.(c_filters);
     compiled_grants := c.(c_grants);
     peer_visibility :=
       fold_left (λ m n, <[n.(cn_id) := visible_to c.(can_reach) n.(cn_id)]> m) nodes ∅ |}.

(** ** Node attributes *)

Definition node_attr_target_matches (fuel : nat) (p : Policy) (target : text) (node : CompileNode)
    : option bool :=
  if bool_decide (target = str "*") then Some true
  else
    match strip_prefix (str "autogroup:") target with
    | Some rest => Some (autogroup_matches rest node)
    | None =>
        match strip_prefix (str "tag:") target with
        | Some tag =>
            Some (negb (bool_decide (tag = [])) && bool_decide (target ∈ node.(cn_tags)))
        | None =>
            if starts_with (str "group:") target then
              match node.(cn_user_login) with
              | Some login => principal_matches_user fuel p target login
              | None => Some false
              end
            else Some (bool_decide (node.(cn_user_login) = Some target))
        end
    end.

(** The keys of the capability map; each maps to an empty argument list. *)
Definition node_attributes (fuel : nat) (p : Policy) (node : CompileNode)
    : option (gmap text (list Json)) :=
  attrs ← concat_opt (λ g,
      b ← any_opt (λ t, node_attr_target_matches fuel p t node) g.(attr_target);
      Some (if b : bool then g.(attr_names) else []))
    p.(node_attrs);
  Some (list_to_map ((λ a, (a, [])) <$> attrs)).
