(* ===== verification/PolicyResolve.v ===== *)
(** * Group resolution

    The recursion of [Ctx::resolve_single] through nested groups, with its set
    of groups being resolved, computes the closure of the membership relation:
    [reaches] follows group members to any depth, and the resolved target is
    the union of the leaves it reaches. *)

From S2P Require Import Prelude Text Net IpText PolicyModel PolicyTags PolicyRoutes PolicyCompile.

Section closure.
Context (p : Policy).

(** What a target stands for by itself: a group stands for nothing. *)
Definition resolve_leaf (t : text) : ResolvedTarget :=
  if bool_decide (t = str "*") then resolved_wildcard
  else
    match strip_prefix (str "autogroup:") t with
    | Some rest => resolved_autogroup rest
    | None =>
        match strip_prefix (str "group:") t with
        | Some _ => ResolvedTarget_default
        | None => if starts_with (str "tag:") t then resolved_identity t else resolve_named p t
        end
    end.

(** From a target, through members of groups outside [avoid], to another. *)
Inductive reaches (avoid : gset text) : text → text → Prop :=
| reaches_refl t : reaches avoid t t
| reaches_member t group members m x :
    strip_prefix (str "group:") t = Some group → group ∉ avoid →
    p.(groups) !! group = Some members → m ∈ members →
    reaches avoid m x → reaches avoid t x.

Lemma reaches_mono a b t x : a ⊆ b → reaches b t x → reaches a t x.
Proof.
  intros Hab. induction 1 as [|t g ms m x Hg Hn Hl Hm _ IH]; [constructor|].
  eapply reaches_member; [done| |done..]. set_solver.
Qed.

(** A chain that goes through [group] can be cut after its last visit. *)
Lemma reaches_cut avoid group members t x :
  p.(groups) !! group = Some members → reaches avoid t x →
  reaches ({[group]} ∪ avoid) t x ∨ ∃ m, m ∈ members ∧ reaches ({[group]} ∪ avoid) m x.
Proof.
  intros Hl. induction 1 as [|t g ms m x Hg Hn Hl' Hm _ IH]; [left; constructor|].
  destruct IH as [IH|]; [|by right]. destruct (decide (g = group)) as [->|Hne].
  - right. simplify_eq. by exists m.
  - left. eapply reaches_member; [done| |done..]. set_solver.
Qed.

Lemma reaches_leaf avoid t x : strip_prefix (str "group:") t = None → reaches avoid t x → x = t.
Proof. intros Hn. destruct 1; [done|congruence]. Qed.

Lemma resolve_single_leaf fuel avoid t :
  strip_prefix (str "group:") t = None → resolve_single (S fuel) p avoid t = resolve_leaf t.
Proof. intros Hn. cbn [resolve_single]. unfold resolve_leaf. by rewrite Hn. Qed.

(** A target that names a group is neither [*] nor an autogroup. *)
Lemma group_target t group :
  strip_prefix (str "group:") t = Some group →
  t ≠ str "*" ∧ strip_prefix (str "autogroup:") t = None.
Proof. intros ->%strip_prefix_Some. by split. Qed.

Lemma resolve_leaf_group t group :
  strip_prefix (str "group:") t = Some group → resolve_leaf t = ResolvedTarget_default.
Proof.
  intros Hg. destruct (group_target _ _ Hg) as [Hs Ha]. unfold resolve_leaf.
  by rewrite bool_decide_eq_false_2, Ha, Hg.
Qed.

(** A part of a resolved target that is collected from the members. *)
Context (Q : ResolvedTarget → Prop).
Context (Q_default : ¬ Q ResolvedTarget_default).
Context (Q_member : ∀ r m, Q (add_member r m) ↔ Q r ∨ Q m).

Lemma fold_members (f : text → ResolvedTarget) ms r :
  Q (fold_left (λ r m, add_member r (f m)) ms r) ↔ Q r ∨ ∃ m, m ∈ ms ∧ Q (f m).
Proof.
  revert r. induction ms as [|m ms IH]; intros r; cbn.
  { split; [by left|]. intros [|(m & Hm & _)]; [done|]. by apply elem_of_nil in Hm. }
  rewrite IH, Q_member. setoid_rewrite elem_of_cons. naive_solver.
Qed.

Lemma resolve_single_closure fuel avoid t :
  (size (dom p.(groups) ∖ avoid) < fuel)%nat →
  Q (resolve_single fuel p avoid t) ↔ ∃ x, reaches avoid t x ∧ Q (resolve_leaf x).
Proof.
  revert avoid t. induction fuel as [|fuel IH]; intros avoid t Hf; [lia|].
  destruct (strip_prefix (str "group:") t) as [group|] eqn:Eg.
  2: { rewrite resolve_single_leaf by done. split.
       - intros H. exists t. split; [constructor|done].
       - intros (x & ->%reaches_leaf & H); done. }
  destruct (group_target _ _ Eg) as [Hs Ha]. cbn [resolve_single].
  rewrite bool_decide_eq_false_2, Ha, Eg by done.
  assert (Hstop : group ∈ avoid ∨ p.(groups) !! group = None →
    ∀ x, reaches avoid t x ∧ Q (resolve_leaf x) → False).
  { intros Hb x [Hr Hq]. destruct Hr as [|? g ms m x Hg Hn Hl].
    - by rewrite (resolve_leaf_group _ _ Eg) in Hq.
    - assert (g = group) as -> by congruence. destruct Hb; [done|congruence]. }
  case_bool_decide as Hin; [split; [done|intros [x Hx]; by destruct (Hstop (or_introl Hin) x)]|].
  destruct (p.(groups) !! group) as [members|] eqn:El.
  2: { split; [done|]. intros [x Hx]. by destruct (Hstop (or_intror eq_refl) x). }
  assert (Hf' : (size (dom p.(groups) ∖ ({[group]} ∪ avoid)) < fuel)%nat).
  { assert (group ∈ dom p.(groups)) by by apply elem_of_dom_2 in El.
    assert (size (dom p.(groups) ∖ ({[group]} ∪ avoid)) < size (dom p.(groups) ∖ avoid))%nat; [|lia].
    apply subset_size. set_solver. }
  rewrite fold_members. split.
  - intros [?|(m & Hm & (x & Hx & Hq)%IH)]; [done| |done]. exists x. split; [|done].
    eapply reaches_member; [done..|]. eapply reaches_mono; [|exact Hx]. set_solver.
  - intros (x & Hx & Hq). right. destruct Hx as [|? g ms m x Hg Hn Hl Hm Hx].
    { by rewrite (resolve_leaf_group _ _ Eg) in Hq. }
    simplify_eq. destruct (reaches_cut _ _ _ _ _ El Hx) as [Hc|(m' & Hm' & Hc)].
    + exists m. split; [done|]. apply IH; [done|]. by exists x.
    + exists m'. split; [done|]. apply IH; [done|]. by exists x.
Qed.

Context (Q_target : ∀ r m, Q (add_target r m) ↔ Q r ∨ Q m).
Context (Q_sort : ∀ r, Q (sort_nets r) ↔ Q r).

Lemma resolve_closure targets :
  Q (resolve p targets) ↔ ∃ t x, t ∈ targets ∧ reaches ∅ t x ∧ Q (resolve_leaf x).
Proof.
  unfold resolve. rewrite Q_sort.
  assert (Hf : (size (dom p.(groups) ∖ ∅) < group_fuel p)%nat).
  { rewrite difference_empty_L, size_dom. unfold group_fuel. lia. }
  assert (Hgen : ∀ r, Q (fold_left (λ r t, add_target r (resolve_single (group_fuel p) p ∅ t)) targets r)
    ↔ Q r ∨ ∃ t x, t ∈ targets ∧ reaches ∅ t x ∧ Q (resolve_leaf x)).
  { induction targets as [|t ts IH]; intros r; cbn [fold_left].
    - split; [by left|]. intros [|(? & ? & Hn & _)]; [done|]. by apply elem_of_nil in Hn.
    - rewrite IH, Q_target, resolve_single_closure by done.
      setoid_rewrite elem_of_cons. naive_solver. }
  rewrite Hgen. naive_solver.
Qed.
End closure.


Lemma matches_node_default node : matches_node ResolvedTarget_default node = false.
Proof.
  unfold matches_node, has_identity, ResolvedTarget_default.
  cbn [wildcard self_match member_match tagged_match nets identities orb andb existsb].
  rewrite !orb_false_r. apply orb_false_iff. split.
  - destruct (cn_user_login node); [|done]. apply bool_decide_eq_false. set_solver.
  - apply not_true_iff_false. intros (t & _ & Ht%bool_decide_eq_true)%existsb_exists. set_solver.
Qed.

(** The autogroup markers of the members of a group are lost: a group of
    autogroups matches no node at all, while [autogroup:self] named directly
    matches every one. *)
Theorem group_drops_autogroup p group members node :
  p.(groups) !! group = Some members →
  (∀ m, m ∈ members → m = str "autogroup:self" ∨ m = str "autogroup:member" ∨ m = str "autogroup:tagged") →
  matches_node (resolve p [str "group:" ++ group]) node = false
  ∧ matches_node (resolve p [str "autogroup:self"]) node = true.
Proof.
  intros Hl Hm. split; [|done]. unfold resolve, group_fuel. cbn [fold_left resolve_single].
  assert (Hg : strip_prefix (str "group:") (str "group:" ++ group) = Some group)
    by apply strip_prefix_app.
  destruct (group_target _ _ Hg) as [Hs Ha].
  rewrite bool_decide_eq_false_2, Ha, Hg, bool_decide_eq_false_2, Hl by (done || set_solver).
  assert (0 < size p.(groups))%nat as Hpos.
  { apply Nat.neq_0_lt_0. intros E%map_size_empty_inv. by rewrite E in Hl. }
  destruct (size p.(groups)) as [|k]; [lia|].
  replace (fold_left _ members ResolvedTarget_default) with ResolvedTarget_default.
  { unfold add_target, sort_nets, ResolvedTarget_default.
    cbn [wildcard self_match member_match tagged_match nets identities].
    rewrite union_empty_l_L. apply matches_node_default. }
  clear Hl Hpos. induction members as [|m ms IH]; [done|]. cbn [fold_left].
  replace (add_member ResolvedTarget_default (resolve_single (S k) p ({[group]} ∪ ∅) m))
    with ResolvedTarget_default.
  { apply IH. intros m' Hm'. apply Hm. by right. }
  unfold add_member, ResolvedTarget_default.
  destruct (Hm m ltac:(by left)) as [->|[->| ->]]; cbn; by rewrite union_empty_l_L.
Qed.

Lemma group_drops_autogroup_witness :
  let p := {| groups := {[ str "g" := [str "autogroup:member"] ]}; hosts := ∅; acls := [];
              grants := []; tag_owners := ∅;
              auto_approvers := {| approver_routes := []; approver_exit_node := [] |};
              policy_ssh := []; node_attrs := []; policy_tests := []; ssh_tests := [] |} in
  matches_node (resolve p [str "group:" ++ str "g"]) (CompileNode_with_addresses 1 []) = false
  ∧ matches_node (resolve p [str "autogroup:self"]) (CompileNode_with_addresses 1 []) = true.
Proof.
  intros p. apply (group_drops_autogroup p (str "g") [str "autogroup:member"]); [done|].
  intros m ->%list_elem_of_singleton. by right; left.
Defined.
