(* ===== verification/PolicyVisibility.v ===== *)
(** * What a compiled policy allows

    The theorems about [PolicyCompile.compile_policy]: the peers a node sees
    are exactly those an access rule connects it with, in either direction;
    its packet filter holds exactly the rules addressed to it; and whatever an
    access rule allows, the filter of the destination admits. *)

From S2P Require Import Prelude Text Net IpText PolicyModel PolicyTags PolicyRoutes PolicyCompile.

Section compiled.
Context (p : Policy) (nodes : list CompileNode).

(** The sources of a rule resolve to [src], which is not empty. *)
Definition rule_src (targets : list text) (src : list text) : Prop :=
  src = to_src_ips (resolve p targets) nodes ∧ src ≠ [].

(** Some access rule has [s] as a source and [d] as a destination. *)
Definition allows (s d : CompileNode) : Prop :=
  ∃ rule dst target src,
    rule ∈ p.(acls) ∧ rule_src rule.(acl_src) src
    ∧ matches_node (resolve p rule.(acl_src)) s = true
    ∧ dst ∈ rule.(acl_dst) ∧ parse_dst p dst = Some target ∧ dst_matches target d = true.

(** ** Reachability *)

Definition reach_of (reach : gmap Z (gset Z)) (a b : Z) : Prop := b ∈ default ∅ (reach !! a).

Lemma reach_fold (ids : gset Z) src_nodes reach a b :
  reach_of (fold_left (λ m s,
      <[s.(cn_id) := ids ∪ default ∅ (m !! s.(cn_id))]> m) src_nodes reach) a b
  ↔ reach_of reach a b ∨ ∃ s, s ∈ src_nodes ∧ s.(cn_id) = a ∧ b ∈ ids.
Proof.
  apply (fold_left_or _ (λ m, reach_of m a b) (λ s, s.(cn_id) = a ∧ b ∈ ids)).
  intros m s. unfold reach_of. rewrite lookup_insert.
  case_decide; cbn [default]; subst; set_solver.
Qed.

Lemma compile_dst_reach src src_nodes proto c dst a b :
  reach_of (compile_dst p nodes src src_nodes proto c dst).(can_reach) a b
  ↔ reach_of c.(can_reach) a b
    ∨ ∃ s d target, s ∈ src_nodes ∧ s.(cn_id) = a ∧ d ∈ nodes ∧ d.(cn_id) = b
        ∧ parse_dst p dst = Some target ∧ dst_matches target d = true.
Proof.
  unfold compile_dst. destruct (parse_dst p dst) as [target|]; [|naive_solver].
  cbn [can_reach]. rewrite reach_fold. setoid_rewrite elem_of_list_to_set.
  setoid_rewrite list_elem_of_fmap. setoid_rewrite list_elem_of_filter. naive_solver.
Qed.

Lemma compile_acl_reach c rule a b :
  reach_of (compile_acl p nodes c rule).(can_reach) a b
  ↔ reach_of c.(can_reach) a b
    ∨ ∃ s d dst target src, s ∈ nodes ∧ s.(cn_id) = a ∧ d ∈ nodes ∧ d.(cn_id) = b
        ∧ rule_src rule.(acl_src) src ∧ matches_node (resolve p rule.(acl_src)) s = true
        ∧ dst ∈ rule.(acl_dst) ∧ parse_dst p dst = Some target ∧ dst_matches target d = true.
Proof.
  unfold compile_acl, rule_src. cbv zeta. case_bool_decide as He.
  { split; [by left|]. intros [|(? & ? & ? & ? & ? & ? & ? & ? & ? & [-> ?] & _)]; done. }
  rewrite (fold_left_or _ (λ c, reach_of c.(can_reach) a b) _ _ _
    (λ c dst, compile_dst_reach _ _ _ c dst a b)).
  setoid_rewrite list_elem_of_filter. split.
  - intros [|(dst & Hdst & s & d & target & [Hm Hs] & Ha & Hd & Hb & Ht & Hdm)]; [by left|].
    right. by exists s, d, dst, target, (to_src_ips (resolve p rule.(acl_src)) nodes).
  - intros [|(s & d & dst & target & src & Hs & Ha & Hd & Hb & _ & Hm & Hdst & Ht & Hdm)];
      [by left|]. right. exists dst. split; [done|]. by exists s, d, target.
Qed.

Lemma compile_grant_reach c g : (compile_grant p nodes c g).(can_reach) = c.(can_reach).
Proof.
  unfold compile_grant. cbv zeta. case_bool_decide as Hne; [done|]. clear Hne.
  generalize (to_src_ips (resolve p g.(grant_src)) nodes) as src. intros src.
  revert c. induction nodes as [|n ns IH]; intros c; [done|]. cbn [fold_left]. rewrite IH.
  by destruct (existsb _ _).
Qed.

Lemma compile_grants_reach c gs :
  (fold_left (compile_grant p nodes) gs c).(can_reach) = c.(can_reach).
Proof.
  revert c. induction gs as [|g gs IH]; intros c; [done|]. cbn [fold_left].
  by rewrite IH, compile_grant_reach.
Qed.

Definition compiled_reach : gmap Z (gset Z) :=
  (fold_left (compile_acl p nodes) p.(acls) Compiling_new).(can_reach).

Lemma compiled_reach_spec a b :
  reach_of compiled_reach a b
  ↔ ∃ s d, s ∈ nodes ∧ d ∈ nodes ∧ s.(cn_id) = a ∧ d.(cn_id) = b ∧ allows s d.
Proof.
  unfold compiled_reach.
  rewrite (fold_left_or _ (λ c, reach_of c.(can_reach) a b) _ _ _
    (λ c rule, compile_acl_reach c rule a b)).
  unfold reach_of at 1, Compiling_new. cbn [can_reach]. rewrite lookup_empty.
  unfold allows. split.
  - intros [H|(rule & Hr & s & d & dst & target & src & H)]; [set_solver|].
    destruct H as (Hs & Ha & Hd & Hb & Hsrc & Hm & Hdst & Ht & Hdm).
    exists s, d. split_and!; [done..|]. by exists rule, dst, target, src.
  - intros (s & d & Hs & Hd & Ha & Hb & rule & dst & target & src & Hr & Hsrc & Hm & Hdst & Ht & Hdm).
    right. exists rule. split; [done|]. by exists s, d, dst, target, src.
Qed.

Lemma visible_to_spec reach n m :
  m ∈ visible_to reach n ↔ m ≠ n ∧ (reach_of reach n m ∨ reach_of reach m n).
Proof.
  unfold visible_to, reach_of.
  rewrite elem_of_difference, elem_of_singleton, elem_of_union, elem_of_dom.
  assert (Hf : is_Some (filter (λ '(from, tos), n ∈ tos ∧ from ≠ n) reach !! m)
    ↔ m ≠ n ∧ n ∈ default ∅ (reach !! m)).
  { unfold is_Some. setoid_rewrite map_lookup_filter_Some.
    destruct (reach !! m) as [t|]; cbn; [naive_solver|set_solver]. }
  rewrite Hf. naive_solver.
Qed.

Lemma insert_all_lookup {A} (f : Z → A) (m : gmap Z A) n :
  n ∈ nodes → fold_left (λ m n, <[n.(cn_id) := f n.(cn_id)]> m) nodes m !! n.(cn_id) = Some (f n.(cn_id)).
Proof.
  intros Hn. assert (Hgen : ∀ m' : gmap Z A, (m' !! n.(cn_id) = Some (f n.(cn_id)) ∨ n ∈ nodes) →
    fold_left (λ m n, <[n.(cn_id) := f n.(cn_id)]> m) nodes m' !! n.(cn_id) = Some (f n.(cn_id)));
    [|auto].
  clear Hn. induction nodes as [|x ns IH]; intros m' Hm; cbn [fold_left].
  { destruct Hm as [|Hm]; [done|]. by apply elem_of_nil in Hm. }
  apply IH. rewrite lookup_insert. case_decide as E; [left; by rewrite E|].
  destruct Hm as [|[->|]%elem_of_cons]; [by left|done|by right].
Qed.

(** C23. The peers a node sees are exactly the other nodes that some access rule
    lets it reach or lets reach it. *)
Theorem compile_visibility_exact n :
  n ∈ nodes →
  ∃ vis, (compile_policy p nodes).(peer_visibility) !! n.(cn_id) = Some vis
    ∧ ∀ m, m ∈ vis ↔
        m ≠ n.(cn_id)
        ∧ ∃ s d, s ∈ nodes ∧ d ∈ nodes ∧ allows s d
          ∧ (s.(cn_id) = n.(cn_id) ∧ d.(cn_id) = m ∨ s.(cn_id) = m ∧ d.(cn_id) = n.(cn_id)).
Proof.
  intros Hn. eexists. split; [by apply (insert_all_lookup (visible_to _))|].
  intros m. cbn [can_reach]. rewrite compile_grants_reach. fold compiled_reach.
  rewrite visible_to_spec, !compiled_reach_spec. split.
  - intros [Hne [(s & d & Hs & Hd & Ha & Hb & Hall)|(s & d & Hs & Hd & Ha & Hb & Hall)]];
      (split; [done|]); exists s, d; auto 6.
  - intros [Hne (s & d & Hs & Hd & Hall & [[Ha Hb]|[Ha Hb]])]; (split; [done|]);
      [left|right]; by exists s, d.
Qed.

(** ** Filters *)

Definition filter_of (m : gmap Z (list FilterRule)) (id : Z) (f : FilterRule) : Prop :=
  f ∈ default [] (m !! id).

Lemma push_filter_spec id f m id' f' :
  filter_of (push_filter id f m) id' f' ↔ filter_of m id' f' ∨ id = id' ∧ f' = f.
Proof.
  unfold filter_of, push_filter. rewrite lookup_insert. case_decide as E; [|tauto]. simpl.
  rewrite elem_of_app, list_elem_of_singleton, E. tauto.
Qed.

(** [f] is the compiled form of an access rule whose destination is [node]. *)
Definition acl_filter (rule : Acl) (node : CompileNode) (f : FilterRule) : Prop :=
  ∃ dst target src,
    rule_src rule.(acl_src) src ∧ dst ∈ rule.(acl_dst) ∧ parse_dst p dst = Some target
    ∧ dst_matches target node = true
    ∧ f = network_rule src target.(dt_ports) (parse_ip_proto rule.(acl_proto)).

(** [f] is the compiled form of a grant whose destination is [node]. *)
Definition grant_filter (g : Grant) (node : CompileNode) (f : FilterRule) : Prop :=
  ∃ dst target src,
    rule_src g.(grant_src) src ∧ dst ∈ g.(grant_dst) ∧ parse_dst p dst = Some target
    ∧ dst_matches target node = true ∧ f = capability_rule src g.(grant_app) node.

Lemma compile_dst_filters src src_nodes proto c dst id f :
  filter_of (compile_dst p nodes src src_nodes proto c dst).(c_filters) id f
  ↔ filter_of c.(c_filters) id f
    ∨ ∃ node target, node ∈ nodes ∧ node.(cn_id) = id ∧ parse_dst p dst = Some target
        ∧ dst_matches target node = true ∧ f = network_rule src target.(dt_ports) proto.
Proof.
  unfold compile_dst. destruct (parse_dst p dst) as [target|].
  2: { split; [by left|]. by intros [|(? & ? & _ & _ & ? & _)]. }
  cbn [c_filters].
  rewrite (fold_left_or _ (λ m, filter_of m id f)
    (λ n, n.(cn_id) = id ∧ f = network_rule src target.(dt_ports) proto)).
  2: { intros m n. apply push_filter_spec. }
  setoid_rewrite list_elem_of_filter. split.
  - intros [|(n & [Hm Hn] & Hid & Hf)]; [by left|]. right. by exists n, target.
  - intros [|(n & t & Hn & Hid & [= <-] & Hm & Hf)]; [by left|]. right. by exists n.
Qed.

Lemma compile_acl_filters c rule id f :
  filter_of (compile_acl p nodes c rule).(c_filters) id f
  ↔ filter_of c.(c_filters) id f
    ∨ ∃ node, node ∈ nodes ∧ node.(cn_id) = id ∧ acl_filter rule node f.
Proof.
  unfold compile_acl, acl_filter, rule_src. cbv zeta. case_bool_decide as He.
  { split; [by left|]. intros [|(? & _ & _ & ? & ? & ? & [-> ?] & _)]; done. }
  rewrite (fold_left_or _ (λ c, filter_of c.(c_filters) id f) _ _ _
    (λ c dst, compile_dst_filters _ _ _ c dst id f)). split.
  - intros [|(dst & Hdst & n & t & Hn & Hid & Ht & Hm & Hf)]; [by left|]. right.
    exists n. split_and!; [done..|]. by eexists dst, t, _.
  - intros [|(n & Hn & Hid & dst & t & src & [-> _] & Hdst & Ht & Hm & Hf)]; [by left|]. right.
    exists dst. split; [done|]. by exists n, t.
Qed.

Lemma compile_grant_filters c g id f :
  filter_of (compile_grant p nodes c g).(c_filters) id f
  ↔ filter_of c.(c_filters) id f
    ∨ ∃ node, node ∈ nodes ∧ node.(cn_id) = id ∧ grant_filter g node f.
Proof.
  unfold compile_grant, grant_filter, rule_src. cbv zeta. case_bool_decide as He.
  { split; [by left|]. intros [|(? & _ & _ & ? & ? & ? & [-> ?] & _)]; done. }
  set (src := to_src_ips (resolve p g.(grant_src)) nodes) in *.
  rewrite (fold_left_or _ (λ c, filter_of c.(c_filters) id f)
    (λ n, n.(cn_id) = id ∧ existsb (λ t, dst_matches t n) (omap (parse_dst p) g.(grant_dst)) = true
          ∧ f = capability_rule src g.(grant_app) n)).
  2: { intros c' n. destruct (existsb _ _); cbn [c_filters]; [rewrite push_filter_spec; tauto|].
       split; [by left|]. by intros [|(_ & ? & _)]. }
  split.
  - intros [|(n & Hn & Hid & (t & Ht & Hm)%existsb_exists & Hf)]; [by left|]. right.
    apply list_elem_of_In, list_elem_of_omap in Ht as (dst & Hdst & Ht).
    exists n. split_and!; [done..|]. by exists dst, t, src.
  - intros [|(n & Hn & Hid & dst & t & src' & [-> _] & Hdst & Ht & Hm & Hf)]; [by left|]. right.
    exists n. split_and!; [done..| |done]. apply existsb_exists. exists t. split; [|done].
    apply list_elem_of_In, list_elem_of_omap. by exists dst.
Qed.

Lemma or_default_all (m : gmap Z (list FilterRule)) id f :
  filter_of (fold_left (λ m n, or_default [] n.(cn_id) m) nodes m) id f ↔ filter_of m id f.
Proof.
  rewrite (fold_left_or _ (λ m, filter_of m id f) (λ _, False)).
  - split; [intros [|(? & _ & [])]; done|by left].
  - intros m' n. unfold filter_of, or_default. rewrite lookup_insert. case_decide; subst; cbn; tauto.
Qed.

Lemma compiled_filters_spec id f :
  filter_of (compile_policy p nodes).(node_filters) id f
  ↔ ∃ node, node ∈ nodes ∧ node.(cn_id) = id
      ∧ ((∃ rule, rule ∈ p.(acls) ∧ acl_filter rule node f)
         ∨ ∃ g, g ∈ p.(grants) ∧ grant_filter g node f).
Proof.
  cbn [compile_policy node_filters]. rewrite or_default_all.
  rewrite (fold_left_or _ (λ c, filter_of c.(c_filters) id f) _ _ _
    (λ c g, compile_grant_filters c g id f)).
  rewrite (fold_left_or _ (λ c, filter_of c.(c_filters) id f) _ _ _
    (λ c rule, compile_acl_filters c rule id f)).
  split.
  - intros [[H|(rule & Hr & n & Hn & Hid & Hf)]|(g & Hg & n & Hn & Hid & Hf)].
    + unfold filter_of, Compiling_new in H. cbn in H. rewrite lookup_empty in H.
      by apply elem_of_nil in H.
    + exists n. split_and!; [done..|]. left. by exists rule.
    + exists n. split_and!; [done..|]. right. by exists g.
  - intros (n & Hn & Hid & [(rule & Hr & Hf)|(g & Hg & Hf)]); [left; right; exists rule|right; exists g];
      (split; [done|]); by exists n.
Qed.

Lemma or_default_Some (m : gmap Z (list FilterRule)) n :
  n ∈ nodes → is_Some (fold_left (λ m n, or_default [] n.(cn_id) m) nodes m !! n.(cn_id)).
Proof.
  intros Hn. apply (fold_left_or _ (λ m : gmap Z (list FilterRule), is_Some (m !! n.(cn_id)))
    (λ x, x.(cn_id) = n.(cn_id))).
  - intros m' x. unfold or_default. rewrite lookup_insert. case_decide; [|tauto].
    split; [by right|]. by eexists.
  - right. by exists n.
Qed.

(** ** What a rule admits *)

(** A filter rule admits packets from the address [a]. *)
Definition admits (f : FilterRule) (a : text) : Prop :=
  str "*" ∈ f.(src_ips) ∨ ∃ net, net ∈ f.(src_ips) ∧ addr_in_cidr a net = true.

Lemma addr_in_cidr_refl a : is_Some (parse_cidr a) → addr_in_cidr a a = true.
Proof.
  intros [[ip bits] H]. unfold addr_in_cidr. rewrite H.
  apply in_net_mask; [|done]. by apply parse_cidr_range in H as [_ ?].
Qed.

(** The source addresses of a rule cover every node that matches it. *)
Lemma to_src_ips_covers r s a :
  s ∈ nodes → matches_node r s = true → a ∈ s.(cn_addresses) →
  Forall (λ a, is_Some (parse_cidr a)) s.(cn_addresses) →
  ∃ a', a' ∈ s.(cn_addresses)
    ∧ (str "*" ∈ to_src_ips r nodes ∨ ∃ net, net ∈ to_src_ips r nodes ∧ addr_in_cidr a' net = true).
Proof.
  intros Hs Hm Ha Hok. unfold to_src_ips. destruct r.(wildcard) eqn:Ew.
  { exists a. split; [done|]. left. by apply list_elem_of_singleton. }
  setoid_rewrite elem_of_sort_dedup. setoid_rewrite elem_of_app. setoid_rewrite elem_of_app.
  assert (Hself : addr_in_cidr a a = true).
  { apply addr_in_cidr_refl. by eapply list.Forall_forall in Hok. }
  unfold matches_node in Hm. rewrite Ew in Hm. cbn [orb] in Hm.
  apply orb_true_iff in Hm as [Hm|(net & Hnet & (a' & Ha' & Hin)%existsb_exists)%existsb_exists].
  2: { exists a'. apply list_elem_of_In in Ha', Hnet. split; [done|]. right. exists net. auto. }
  exists a. split; [done|]. right. exists a. split; [|done].
  destruct (has_identity r s) eqn:Ei.
  - right. right. apply list_elem_of_In, in_flat_map. exists s.
    rewrite Ei. by split; apply list_elem_of_In.
  - right. left. unfold autogroup_ips. apply list_elem_of_In, in_flat_map. exists s.
    rewrite orb_false_r in Hm. rewrite Hm. by split; apply list_elem_of_In.
Qed.
End compiled.

(** C24. The filter of a node holds exactly the compiled forms of the access rules
    and the grants that have the node among their destinations; every node
    has a filter, empty when there is none: the default is to deny. *)
Theorem compile_filters_exact p nodes n :
  n ∈ nodes →
  ∃ fs, (compile_policy p nodes).(node_filters) !! n.(cn_id) = Some fs
    ∧ ∀ f, f ∈ fs ↔
        ∃ node, node ∈ nodes ∧ node.(cn_id) = n.(cn_id)
          ∧ ((∃ rule, rule ∈ p.(acls) ∧ acl_filter p nodes rule node f)
             ∨ ∃ g, g ∈ p.(grants) ∧ grant_filter p nodes g node f).
Proof.
  intros Hn. pose proof (compiled_filters_spec p nodes n.(cn_id)) as Hspec. unfold filter_of in Hspec.
  destruct ((compile_policy p nodes).(node_filters) !! n.(cn_id)) as [fs|] eqn:E.
  { exists fs. split; [done|]. apply Hspec. }
  exfalso. apply eq_None_not_Some in E. apply E. by apply or_default_Some.
Qed.


(** ** A small tailnet *)

Definition demo_alice : CompileNode :=
  {| cn_id := 1; cn_stable_id := str "n1"; cn_user_login := Some (str "alice@x");
     cn_addresses := [str "100.64.0.1/32"]; cn_tags := [] |}.

Definition demo_web : CompileNode :=
  {| cn_id := 2; cn_stable_id := str "n2"; cn_user_login := None;
     cn_addresses := [str "100.64.0.2/32"]; cn_tags := [str "tag:web"] |}.

Definition demo_rule : Acl :=
  {| acl_action := str "accept"; acl_src := [str "group:eng"]; acl_dst := [str "tag:web:443"];
     acl_proto := Some (str "tcp") |}.

Definition demo_policy : Policy :=
  {| groups := {[ str "eng" := [str "alice@x"] ]}; hosts := ∅; acls := [demo_rule]; grants := [];
     tag_owners := ∅; auto_approvers := {| approver_routes := []; approver_exit_node := [] |};
     policy_ssh := []; node_attrs := []; policy_tests := []; ssh_tests := [] |}.

Example demo_compiled :
  (compile_policy demo_policy [demo_alice; demo_web]).(node_filters) !! 2
    = Some [network_rule [str "100.64.0.1/32"] [{| port_first := 443; port_last := 443 |}] (Some [6])]
  ∧ elements <$> ((compile_policy demo_policy [demo_alice; demo_web]).(peer_visibility) !! 1) = Some [2].
Proof. by vm_compute. Qed.

Lemma compile_visibility_exact_witness :
  ∃ vis, (compile_policy demo_policy [demo_alice; demo_web]).(peer_visibility) !! 1 = Some vis
    ∧ ∀ m, m ∈ vis ↔
        m ≠ 1
        ∧ ∃ s d, s ∈ [demo_alice; demo_web] ∧ d ∈ [demo_alice; demo_web]
          ∧ allows demo_policy [demo_alice; demo_web] s d
          ∧ (s.(cn_id) = 1 ∧ d.(cn_id) = m ∨ s.(cn_id) = m ∧ d.(cn_id) = 1).
Proof. apply (compile_visibility_exact _ _ demo_alice). by left. Defined.

Lemma compile_filters_exact_witness :
  ∃ fs, (compile_policy demo_policy [demo_alice; demo_web]).(node_filters) !! 2 = Some fs
    ∧ ∀ f, f ∈ fs ↔
        ∃ node, node ∈ [demo_alice; demo_web] ∧ node.(cn_id) = 2
          ∧ ((∃ rule, rule ∈ demo_policy.(acls) ∧ acl_filter demo_policy [demo_alice; demo_web] rule node f)
             ∨ ∃ g, g ∈ demo_policy.(grants) ∧ grant_filter demo_policy [demo_alice; demo_web] g node f).
Proof. apply (compile_filters_exact _ _ demo_web). by right; left. Defined.

