(* ===== verification/Validate.v ===== *)
(** * Loading a policy ([crabscale-policy/src/validate.rs], [lib.rs])

    A policy document is parsed ([Hujson]), searched for unknown keys, turned into
    the typed model and checked for meaning.  The third step is the code serde
    derives for [Policy]; it is the parameter [from_value].  A [BTreeMap] is walked
    by ascending key. *)

From S2P Require Import Prelude Net Text IpText PolicyModel Hujson PolicyTags PolicyCompile.

Section maps.
Context {A : Type}.

(** The entries of a [BTreeMap], in its order. *)
Definition entries (m : gmap text A) : list (text * A) :=
  omap (λ k, v ← m !! k; Some (k, v)) (sort_text (map fst (map_to_list m))).
End maps.

(** [for x in l { f(x)?; }], and the same with [enumerate()]. *)
Fixpoint each {A} (f : A → result unit HujsonError) (l : list A) : result unit HujsonError :=
  match l with
  | [] => Ok ()
  | x :: l => let? _ := f x in each f l
  end.

Fixpoint each_from {A} (i : Z) (f : Z → A → result unit HujsonError) (l : list A) : result unit HujsonError :=
  match l with
  | [] => Ok ()
  | x :: l => let? _ := f i x in each_from (i + 1) f l
  end.

(** ** Where an error is *)

(** [s.contains(needle)] *)
Definition contains_str (needle s : text) : bool :=
  match split_once_str needle s with Some _ => true | None => false end.

(** [line.strip_suffix('\r')], for a line that a newline ended *)
Definition strip_cr (line : text) : text :=
  match rev line with 13 :: l => rev l | _ => line end.

(** [s.lines()] *)
Fixpoint ended_lines (ls : list text) : list text :=
  match ls with
  | [] => []
  | [l] => if bool_decide (l = []) then [] else [l]
  | l :: ls => strip_cr l :: ended_lines ls
  end.

Definition lines (s : text) : list text := ended_lines (split 10 s).

Fixpoint locate_from (index : Z) (ls : list text) (needle : text) : Z :=
  match ls with
  | [] => 1
  | line :: ls => if contains_str needle line then index + 1 else locate_from (index + 1) ls needle
  end.

Definition locate_line (source needle : text) : Z := locate_from 0 (lines source) needle.

(** [Ctx::error_here]; the context is the source text. *)
Definition error_here (source needle message : text) : HujsonError :=
  HujsonError_at_line (locate_line source needle) message.

Definition quoted (s : text) : text := str "`" ++ s ++ str "`".

(** ** Unknown keys *)

Definition POLICY_KEYS : list text :=
  [str "groups"; str "hosts"; str "acls"; str "grants"; str "tagOwners"; str "autoApprovers"; str "ssh";
   str "nodeAttrs"; str "tests"; str "sshTests"].
Definition ACL_KEYS : list text := [str "action"; str "src"; str "dst"; str "proto"].
Definition GRANT_KEYS : list text := [str "src"; str "dst"; str "ip"; str "app"].
Definition AUTO_APPROVERS_KEYS : list text := [str "routes"; str "exitNode"].
Definition SSH_KEYS : list text := [str "action"; str "src"; str "dst"; str "users"; str "checkPeriod"].
Definition NODE_ATTR_KEYS : list text := [str "target"; str "attr"].
Definition TEST_KEYS : list text :=
  [str "src"; str "user"; str "proto"; str "accept"; str "deny"; str "allow"].
Definition SSH_TEST_KEYS : list text := [str "action"; str "src"; str "dst"; str "users"].

(** [Map::get] *)
Fixpoint get_field (key : text) (fields : list (text * Json)) : option Json :=
  match fields with
  | [] => None
  | (k, v) :: fields => if bool_decide (k = key) then Some v else get_field key fields
  end.

Section unknown_keys.
Context (source : text).

Definition check_keys (allowed : list text) (obj : list (text * Json)) (what : text) : result unit HujsonError :=
  each (λ kv,
    fail_if negb (bool_decide (kv.1 ∈ allowed))
      with error_here source kv.1 (str "unknown key " ++ quoted kv.1 ++ str " in " ++ what) ;;
    Ok ()) obj.

Definition as_object (value : Json) (what : text) : result (list (text * Json)) HujsonError :=
  match value with
  | JObject fields => Ok fields
  | _ => Err (error_here source [] (what ++ str " must be a JSON object"))
  end.

Definition walk_array (value : Json) (what : text) (item : Json → result unit HujsonError)
    : result unit HujsonError :=
  match value with
  | JArray items => each item items
  | _ => Err (error_here source [] (what ++ str " must be a JSON array"))
  end.

(** [walk_acl], [walk_grant] and the like *)
Definition walk_object (keys : list text) (what : text) (value : Json) : result unit HujsonError :=
  let? obj := as_object value what in check_keys keys obj what.

Definition walk_acl := walk_object ACL_KEYS (str "ACL rule").
Definition walk_grant := walk_object GRANT_KEYS (str "grant").
Definition walk_auto_approvers := walk_object AUTO_APPROVERS_KEYS (str "autoApprovers").
Definition walk_ssh := walk_object SSH_KEYS (str "SSH rule").
Definition walk_node_attr := walk_object NODE_ATTR_KEYS (str "nodeAttrs grant").
Definition walk_test := walk_object TEST_KEYS (str "test").
Definition walk_ssh_test := walk_object SSH_TEST_KEYS (str "sshTest").

(** [if let Some(v) = root.get(key) { f(v)?; }] *)
Definition if_present (root : list (text * Json)) (key : text) (f : Json → result unit HujsonError)
    : result unit HujsonError :=
  match get_field key root with Some v => f v | None => Ok () end.

Definition validate_unknown_keys (value : Json) : result unit HujsonError :=
  match value with
  | JObject root =>
      let? _ := check_keys POLICY_KEYS root (str "policy") in
      let? _ := if_present root (str "acls") (λ v, walk_array v (str "acls") walk_acl) in
      let? _ := if_present root (str "grants") (λ v, walk_array v (str "grants") walk_grant) in
      let? _ := if_present root (str "autoApprovers") walk_auto_approvers in
      let? _ := if_present root (str "ssh") (λ v, walk_array v (str "ssh") walk_ssh) in
      let? _ := if_present root (str "nodeAttrs") (λ v, walk_array v (str "nodeAttrs") walk_node_attr) in
      let? _ := if_present root (str "tests") (λ v, walk_array v (str "tests") walk_test) in
      if_present root (str "sshTests") (λ v, walk_array v (str "sshTests") walk_ssh_test)
  | _ => Err (HujsonError_at_line (locate_line source (str "{")) (str "policy must be a top-level JSON object"))
  end.
End unknown_keys.

(** ** Targets *)

Definition is_ip_or_cidr (s : text) : bool :=
  match parse_ip s with
  | Some _ => true
  | None =>
      match split_once 47 s with
      | None => false
      | Some (addr, prefix) =>
          match parse_ip addr with
          | None => false
          | Some ip =>
              match parse_uint 255 prefix with
              | None => false
              | Some bits => (bits <=? addr_bits ip) && negb (bool_decide (prefix = []))
              end
          end
      end
  end.

(** A bare hostname or alias. *)
Definition valid_host_ident (s : text) : bool :=
  negb (bool_decide (s = []))
  && forallb (λ c, is_ascii_alphanumeric c || (c =? 45) || (c =? 46) || (c =? 95)) s.

Definition is_plain_ipv4_or_cidr (s : text) : bool :=
  negb (contains_char 58 s) && contains_char 46 s && is_ip_or_cidr s.

(** The suffix behind the first of the reference prefixes. *)
Definition reference (target : text) : option text :=
  match strip_prefix (str "autogroup:") target with
  | Some rest => Some rest
  | None =>
      match strip_prefix (str "group:") target with
      | Some rest => Some rest
      | None => strip_prefix (str "tag:") target
      end
  end.

Definition is_principal (target : text) : bool :=
  if bool_decide (target = str "*") then true
  else
    match reference target with
    | Some rest => negb (bool_decide (rest = []))
    | None =>
        match split_once 64 target with
        | Some (user, host) =>
            negb (bool_decide (user = [])) && negb (bool_decide (host = []))
            && forallb (λ c, negb (is_whitespace c)) user
        | None => is_ip_or_cidr target
        end
    end.

Definition split_ports (target : text) : option (text * text) :=
  match rsplit_once 58 target with
  | None => None
  | Some (host, ports) =>
      if bool_decide (host = []) || bool_decide (ports = []) then None
      else if starts_with (str "[") host || is_plain_ipv4_or_cidr host || bool_decide (host = str "*")
              || valid_host_ident host
           then Some (host, ports) else None
  end.

(** [s.ends_with(']')] *)
Definition ends_with_bracket (s : text) : bool := bool_decide (head (rev s) = Some 93).

(** [&s[1..s.len() - 1]] *)
Definition inner (s : text) : text := removelast (tail s).

Definition strip_brackets (host : text) : text :=
  if starts_with (str "[") host && ends_with_bracket host && (2 <=? zlen host) then inner host else host.

Definition valid_port_item (item : text) : bool :=
  let item := trim item in
  if bool_decide (item = []) then false
  else
    match split_once 45 item with
    | Some (lo, hi) =>
        match parse_uint 65535 lo, parse_uint 65535 hi with
        | Some a, Some b => (0 <? a) && (0 <? b) && (a <=? b)
        | _, _ => false
        end
    | None => match parse_uint 65535 item with Some port => 0 <? port | None => false end
    end.

Definition valid_portlist (ports : text) : bool :=
  if bool_decide (ports = str "*") then true
  else if bool_decide (ports = []) then false
  else forallb valid_port_item (split 44 ports).

Definition is_dst (target : text) : bool :=
  if bool_decide (target = str "*") then true
  else
    match reference target with
    | Some rest => negb (bool_decide (rest = []))
    | None =>
        match split_once 64 target with
        | Some (user, host) => negb (bool_decide (user = [])) && negb (bool_decide (host = []))
        | None =>
            match split_ports target with
            | Some (host, ports) =>
                let host := strip_brackets host in
                (bool_decide (host = str "*") || is_ip_or_cidr host || valid_host_ident host)
                && valid_portlist ports
            | None =>
                if starts_with (str "[") target && ends_with_bracket target
                then is_ip_or_cidr (inner target)
                else is_ip_or_cidr target || valid_host_ident target
            end
        end
    end.

(** ** The typed policy *)

Section policy.
Context (source : text).

(** Every target in order; the message names the first bad one. *)
Definition check_targets (good : text → bool) (what : text → text) (targets : list text) : result unit HujsonError :=
  each (λ t, fail_if negb (good t) with error_here source t (what t) ;; Ok ()) targets.

Definition at_index (what : text) (i : Z) : text := str " (" ++ what ++ str " " ++ show_uint i ++ str ")".

Definition bad_target (kind : text) (what : text) (i : Z) (t : text) : text :=
  str "invalid " ++ kind ++ str " target " ++ quoted t ++ at_index what i.

Definition is_nil {A} (l : list A) : bool := match l with [] => true | _ => false end.

Definition validate_group (group : text * list text) : result unit HujsonError :=
  fail_if is_nil (trim group.1) with error_here source group.1 (str "group name must not be empty") ;;
  check_targets is_principal
    (λ m, str "invalid member " ++ quoted m ++ str " in group " ++ quoted group.1) group.2.

Definition validate_host (host : text * text) : result unit HujsonError :=
  fail_if is_nil (trim host.1) with error_here source host.1 (str "host alias must not be empty") ;;
  fail_if negb (is_ip_or_cidr host.2)
    with error_here source host.2
           (str "host " ++ quoted host.1 ++ str " maps to invalid target " ++ quoted host.2) ;;
  Ok ().

Definition validate_acl (i : Z) (rule : Acl) : result unit HujsonError :=
  fail_if negb (bool_decide (rule.(acl_action) = str "accept"))
    with error_here source rule.(acl_action)
           (str "unsupported ACL action " ++ quoted rule.(acl_action) ++ at_index (str "rule") i) ;;
  fail_if is_nil rule.(acl_src) || is_nil rule.(acl_dst)
    with error_here source []
           (str "ACL rule " ++ show_uint i ++ str " must have at least one src and one dst") ;;
  let? _ := check_targets is_principal (bad_target (str "ACL source") (str "rule") i) rule.(acl_src) in
  check_targets is_dst (bad_target (str "ACL destination") (str "rule") i) rule.(acl_dst).

Definition validate_grant (i : Z) (grant : Grant) : result unit HujsonError :=
  fail_if is_nil grant.(grant_src) || is_nil grant.(grant_dst)
    with error_here source []
           (str "grant " ++ show_uint i ++ str " must have at least one src and one dst") ;;
  let? _ := check_targets is_principal (bad_target (str "grant source") (str "grant") i) grant.(grant_src) in
  check_targets is_dst (bad_target (str "grant destination") (str "grant") i) grant.(grant_dst).

Definition validate_tag_owners (entry : text * list text) : result unit HujsonError :=
  fail_if negb (starts_with (str "tag:") entry.1) || (zlen entry.1 =? 4)
    with error_here source entry.1
           (str "tagOwner key " ++ quoted entry.1 ++ str " must start with `tag:` and be non-empty") ;;
  check_targets is_principal
    (λ o, str "invalid tag owner " ++ quoted o ++ str " for " ++ quoted entry.1) entry.2.

Definition validate_approvers (what : text) (entry : text * list text) : result unit HujsonError :=
  fail_if negb (is_ip_or_cidr entry.1)
    with error_here source entry.1
           (str "autoApprovers " ++ what ++ str " " ++ quoted entry.1 ++ str " must be an IP or CIDR") ;;
  check_targets is_principal
    (λ a, str "invalid autoApprovers " ++ what ++ str " approver " ++ quoted a) entry.2.

Definition validate_ssh (i : Z) (rule : SshRule) : result unit HujsonError :=
  fail_if negb (bool_decide (rule.(ssh_action) = str "accept")) && negb (bool_decide (rule.(ssh_action) = str "check"))
    with error_here source rule.(ssh_action)
           (str "unsupported SSH action " ++ quoted rule.(ssh_action) ++ at_index (str "rule") i) ;;
  fail_if is_nil rule.(ssh_src) || is_nil rule.(ssh_dst)
    with error_here source []
           (str "SSH rule " ++ show_uint i ++ str " must have at least one src and one dst") ;;
  let? _ := check_targets is_principal (bad_target (str "SSH source") (str "rule") i) rule.(ssh_src) in
  let? _ := check_targets is_dst (bad_target (str "SSH destination") (str "rule") i) rule.(ssh_dst) in
  check_targets (λ u, negb (is_nil (trim u))) (λ _, str "SSH rule " ++ show_uint i ++ str " has an empty user")
    rule.(ssh_users).

Definition validate_node_attr (i : Z) (grant : NodeAttrGrant) : result unit HujsonError :=
  fail_if is_nil grant.(attr_target) || is_nil grant.(attr_names)
    with error_here source []
           (str "nodeAttrs grant " ++ show_uint i ++ str " must have at least one target and one attr") ;;
  check_targets is_principal (bad_target (str "nodeAttrs") (str "grant") i) grant.(attr_target).

Definition validate_test (i : Z) (test : PolicyTest) : result unit HujsonError :=
  fail_if negb (is_principal test.(test_src))
    with error_here source test.(test_src)
           (str "invalid test source " ++ quoted test.(test_src) ++ at_index (str "test") i) ;;
  Ok ().

Definition validate_ssh_test (i : Z) (test : SshTest) : result unit HujsonError :=
  fail_if negb (bool_decide (test.(sshtest_action) = str "accept"))
          && negb (bool_decide (test.(sshtest_action) = str "check"))
    with error_here source test.(sshtest_action)
           (str "unsupported SSH test action " ++ quoted test.(sshtest_action) ++ at_index (str "test") i) ;;
  fail_if negb (is_principal test.(sshtest_src)) || negb (is_dst test.(sshtest_dst))
    with error_here source test.(sshtest_src)
           (str "invalid SSH test target `" ++ test.(sshtest_src) ++ str " -> " ++ test.(sshtest_dst) ++ str "`"
            ++ at_index (str "test") i) ;;
  Ok ().

Definition validate_policy (p : Policy) : result unit HujsonError :=
  let? _ := each validate_group (entries p.(groups)) in
  let? _ := each validate_host (entries p.(hosts)) in
  let? _ := each_from 0 validate_acl p.(acls) in
  let? _ := each_from 0 validate_grant p.(grants) in
  let? _ := each validate_tag_owners (entries p.(tag_owners)) in
  let? _ := each (validate_approvers (str "route")) p.(auto_approvers).(approver_routes) in
  let? _ := each (validate_approvers (str "exitNode")) p.(auto_approvers).(approver_exit_node) in
  let? _ := each_from 0 validate_ssh p.(policy_ssh) in
  let? _ := each_from 0 validate_node_attr p.(node_attrs) in
  let? _ := each_from 0 validate_test p.(policy_tests) in
  each_from 0 validate_ssh_test p.(ssh_tests).
End policy.

(** [parse_policy] of the crate; [from_value] is serde's deserializer, with the
    text of its error. *)
Definition parse_policy (from_value : Json → result Policy text) (source : text) : option (result Policy HujsonError) :=
  match parse source with
  | None => None
  | Some (Err e) => Some (Err e)
  | Some (Ok value) =>
      Some
        (let? _ := validate_unknown_keys source value in
         let? policy := match from_value value with
                        | Ok p => Ok p
                        | Err err => Err (HujsonError_at_line 1 (str "invalid policy value: " ++ err))
                        end in
         let? _ := validate_policy source policy in
         Ok policy)
  end.
