(* ===== verification/PolicyLoad.v ===== *)
(** * What a loaded policy is

    The theorems about [Validate]: which documents load, what a loaded policy then
    satisfies, and that the compiler reads a checked destination as it was checked. *)

From S2P Require Import Prelude Net Text IpText PolicyModel Hujson HujsonLang HujsonSound HujsonAccept PolicyTags PolicyCompile Validate.

(** ** What the checks stand for *)

Definition object_with (keys : list text) (v : Json) : Prop :=
  ∃ fields, v = JObject fields ∧ Forall (λ kv, kv.1 ∈ keys) fields.

Definition array_of (P : Json → Prop) (v : Json) : Prop := ∃ items, v = JArray items ∧ Forall P items.

(** A document with no key the policy does not know. *)
Definition known_document (v : Json) : Prop :=
  ∃ root, v = JObject root ∧ Forall (λ kv, kv.1 ∈ POLICY_KEYS) root
    ∧ (∀ x, get_field (str "acls") root = Some x → array_of (object_with ACL_KEYS) x)
    ∧ (∀ x, get_field (str "grants") root = Some x → array_of (object_with GRANT_KEYS) x)
    ∧ (∀ x, get_field (str "autoApprovers") root = Some x → object_with AUTO_APPROVERS_KEYS x)
    ∧ (∀ x, get_field (str "ssh") root = Some x → array_of (object_with SSH_KEYS) x)
    ∧ (∀ x, get_field (str "nodeAttrs") root = Some x → array_of (object_with NODE_ATTR_KEYS) x)
    ∧ (∀ x, get_field (str "tests") root = Some x → array_of (object_with TEST_KEYS) x)
    ∧ (∀ x, get_field (str "sshTests") root = Some x → array_of (object_with SSH_TEST_KEYS) x).

Definition principals (l : list text) : Prop := Forall (λ t, is_principal t = true) l.
Definition destinations (l : list text) : Prop := Forall (λ t, is_dst t = true) l.

Definition acl_ok (r : Acl) : Prop :=
  r.(acl_action) = str "accept" ∧ r.(acl_src) ≠ [] ∧ r.(acl_dst) ≠ []
  ∧ principals r.(acl_src) ∧ destinations r.(acl_dst).

Definition grant_ok (g : Grant) : Prop :=
  g.(grant_src) ≠ [] ∧ g.(grant_dst) ≠ [] ∧ principals g.(grant_src) ∧ destinations g.(grant_dst).

Definition approvers_ok (entry : text * list text) : Prop := is_ip_or_cidr entry.1 = true ∧ principals entry.2.

Definition ssh_rule_ok (r : SshRule) : Prop :=
  (r.(ssh_action) = str "accept" ∨ r.(ssh_action) = str "check") ∧ r.(ssh_src) ≠ [] ∧ r.(ssh_dst) ≠ []
  ∧ principals r.(ssh_src) ∧ destinations r.(ssh_dst) ∧ Forall (λ u, trim u ≠ []) r.(ssh_users).

Definition ssh_test_ok (t : SshTest) : Prop :=
  (t.(sshtest_action) = str "accept" ∨ t.(sshtest_action) = str "check")
  ∧ is_principal t.(sshtest_src) = true ∧ is_dst t.(sshtest_dst) = true.

(** A policy that means something. *)
Definition policy_ok (p : Policy) : Prop :=
  (∀ name members, p.(groups) !! name = Some members → trim name ≠ [] ∧ principals members)
  ∧ (∀ alias target, p.(hosts) !! alias = Some target → trim alias ≠ [] ∧ is_ip_or_cidr target = true)
  ∧ Forall acl_ok p.(acls)
  ∧ Forall grant_ok p.(grants)
  ∧ (∀ tag owners, p.(tag_owners) !! tag = Some owners → (∃ rest, tag = str "tag:" ++ rest ∧ rest ≠ []) ∧ principals owners)
  ∧ Forall approvers_ok p.(auto_approvers).(approver_routes)
  ∧ Forall approvers_ok p.(auto_approvers).(approver_exit_node)
  ∧ Forall ssh_rule_ok p.(policy_ssh)
  ∧ Forall (λ g, g.(attr_target) ≠ [] ∧ g.(attr_names) ≠ [] ∧ principals g.(attr_target)) p.(node_attrs)
  ∧ Forall (λ t, is_principal t.(test_src) = true) p.(policy_tests)
  ∧ Forall ssh_test_ok p.(ssh_tests).

(** ** The loops *)

Lemma rbind_ok {B E} (r : result unit E) (k : unit → result B E) b :
  rbind r k = Ok b ↔ r = Ok () ∧ k () = Ok b.
Proof. destruct r as [[]|e]; cbn; split; [by intros ?|by intros [_ ?]|done|by intros [[=] _]]. Qed.

Lemma each_ok {A} (f : A → result unit HujsonError) l : each f l = Ok () ↔ Forall (λ x, f x = Ok ()) l.
Proof.
  induction l as [|x l IH]; cbn [each]; [split; [constructor|done]|].
  rewrite rbind_ok, IH, list.Forall_cons. done.
Qed.

Lemma each_from_ok {A} (f : Z → A → result unit HujsonError) (P : A → Prop) i l :
  (∀ i x, f i x = Ok () ↔ P x) → each_from i f l = Ok () ↔ Forall P l.
Proof.
  intros HP. revert i. induction l as [|x l IH]; intros i; cbn [each_from]; [split; [constructor|done]|].
  rewrite rbind_ok, IH, list.Forall_cons, HP. done.
Qed.

Lemma each_iff {A} (f : A → result unit HujsonError) (P : A → Prop) l :
  (∀ x, f x = Ok () ↔ P x) → each f l = Ok () ↔ Forall P l.
Proof. intros HP. rewrite each_ok. split; intros H; (eapply list.Forall_impl; [exact H|]); intros x; apply HP. Qed.

Lemma fail_if_ok {E} (b : bool) (e : E) (k : result unit E) :
  (fail_if b with e ;; k) = Ok () ↔ b = false ∧ k = Ok ().
Proof. destruct b; split; [done|by intros [[=] _]|done|by intros [_ ?]]. Qed.

Lemma check_targets_ok source good what l :
  check_targets source good what l = Ok () ↔ Forall (λ t, good t = true) l.
Proof. apply each_iff. intros t. rewrite fail_if_ok, negb_false_iff. tauto. Qed.

Lemma is_nil_false {A} (l : list A) : is_nil l = false ↔ l ≠ [].
Proof. by destruct l. Qed.

Lemma entries_elem {A} (m : gmap text A) k v : (k, v) ∈ entries m ↔ m !! k = Some v.
Proof.
  unfold entries. rewrite list_elem_of_omap. split.
  - intros (x & _ & Hx). apply bind_Some in Hx as (y & Hy & [= <- <-]). done.
  - intros Hm. exists k. split; [|by rewrite Hm]. unfold sort_text. rewrite merge_sort_Permutation.
    apply list_elem_of_fmap. exists (k, v). split; [done|]. by apply elem_of_map_to_list.
Qed.

Lemma entries_forall {A} (m : gmap text A) (P : text * A → Prop) :
  Forall P (entries m) ↔ ∀ k v, m !! k = Some v → P (k, v).
Proof.
  rewrite list.Forall_forall. split.
  - intros H k v Hm. apply H. by apply entries_elem.
  - intros H [k v] Hin. apply H. by apply entries_elem.
Qed.

(** ** The checks are exact *)

Lemma validate_acl_ok source i r : validate_acl source i r = Ok () ↔ acl_ok r.
Proof.
  unfold validate_acl, acl_ok. rewrite !fail_if_ok, rbind_ok, !check_targets_ok, orb_false_iff, !is_nil_false,
    negb_false_iff, bool_decide_eq_true. unfold principals, destinations. tauto.
Qed.

Lemma validate_grant_ok source i g : validate_grant source i g = Ok () ↔ grant_ok g.
Proof.
  unfold validate_grant, grant_ok. rewrite !fail_if_ok, rbind_ok, !check_targets_ok, orb_false_iff, !is_nil_false.
  unfold principals, destinations. tauto.
Qed.

Lemma validate_approvers_ok source what x : validate_approvers source what x = Ok () ↔ approvers_ok x.
Proof.
  unfold validate_approvers, approvers_ok. by rewrite !fail_if_ok, check_targets_ok, negb_false_iff.
Qed.

Lemma two_actions (a x y : text) :
  negb (bool_decide (a = x)) && negb (bool_decide (a = y)) = false ↔ a = x ∨ a = y.
Proof. rewrite andb_false_iff, !negb_false_iff, !bool_decide_eq_true. done. Qed.

Lemma validate_ssh_ok source i r : validate_ssh source i r = Ok () ↔ ssh_rule_ok r.
Proof.
  unfold validate_ssh, ssh_rule_ok. rewrite !fail_if_ok, !rbind_ok, !check_targets_ok, orb_false_iff, !is_nil_false, two_actions.
  assert (Hu : Forall (λ u, negb (is_nil (trim u)) = true) r.(ssh_users) ↔ Forall (λ u, trim u ≠ []) r.(ssh_users)).
  { split; intros H; (eapply list.Forall_impl; [exact H|]); intros u; cbn; rewrite negb_true_iff; apply is_nil_false. }
  rewrite Hu. unfold principals, destinations. tauto.
Qed.

Lemma validate_ssh_test_ok source i t : validate_ssh_test source i t = Ok () ↔ ssh_test_ok t.
Proof.
  unfold validate_ssh_test, ssh_test_ok. rewrite !fail_if_ok, two_actions, orb_false_iff, !negb_false_iff. tauto.
Qed.

Lemma tag_key tag :
  negb (starts_with (str "tag:") tag) || (zlen tag =? 4) = false ↔ ∃ rest, tag = str "tag:" ++ rest ∧ rest ≠ [].
Proof.
  rewrite orb_false_iff, negb_false_iff, Z.eqb_neq. unfold starts_with. split.
  - intros [Hs Hl]. destruct (strip_prefix (str "tag:") tag) as [rest|] eqn:E; [|done].
    apply strip_prefix_Some in E as ->. exists rest. split; [done|]. intros ->. by rewrite app_nil_r in Hl.
  - intros (rest & -> & Hr). rewrite (strip_prefix_app (str "tag:") rest). split; [done|].
    rewrite zlen_app. change (zlen (str "tag:")) with 4. destruct rest; [done|]. rewrite zlen_cons.
    pose proof (zlen_nonneg rest). lia.
Qed.

Lemma validate_policy_ok source p : validate_policy source p = Ok () ↔ policy_ok p.
Proof.
  unfold validate_policy, policy_ok. rewrite !rbind_ok.
  assert (Hg : each (validate_group source) (entries p.(groups)) = Ok ()
    ↔ ∀ name members, p.(groups) !! name = Some members → trim name ≠ [] ∧ principals members).
  { rewrite each_ok, entries_forall. unfold validate_group. cbn [fst snd].
    setoid_rewrite fail_if_ok. setoid_rewrite check_targets_ok. setoid_rewrite is_nil_false. done. }
  assert (Hh : each (validate_host source) (entries p.(hosts)) = Ok ()
    ↔ ∀ alias target, p.(hosts) !! alias = Some target → trim alias ≠ [] ∧ is_ip_or_cidr target = true).
  { rewrite each_ok, entries_forall. unfold validate_host. cbn [fst snd].
    setoid_rewrite fail_if_ok. setoid_rewrite fail_if_ok. setoid_rewrite is_nil_false. setoid_rewrite negb_false_iff.
    naive_solver. }
  assert (Ht : each (validate_tag_owners source) (entries p.(tag_owners)) = Ok ()
    ↔ ∀ tag owners, p.(tag_owners) !! tag = Some owners → (∃ rest, tag = str "tag:" ++ rest ∧ rest ≠ []) ∧ principals owners).
  { rewrite each_ok, entries_forall. unfold validate_tag_owners. cbn [fst snd].
    setoid_rewrite fail_if_ok. setoid_rewrite check_targets_ok. setoid_rewrite tag_key. done. }
  rewrite Hg, Hh, Ht.
  rewrite (each_from_ok (validate_acl source) acl_ok) by apply validate_acl_ok.
  rewrite (each_from_ok (validate_grant source) grant_ok) by apply validate_grant_ok.
  rewrite !(each_iff _ approvers_ok) by apply validate_approvers_ok.
  rewrite (each_from_ok (validate_ssh source) ssh_rule_ok) by apply validate_ssh_ok.
  rewrite (each_from_ok (validate_node_attr source) (λ g, g.(attr_target) ≠ [] ∧ g.(attr_names) ≠ [] ∧ principals g.(attr_target))).
  2: { intros i g. unfold validate_node_attr. rewrite fail_if_ok, check_targets_ok, orb_false_iff, !is_nil_false.
       unfold principals. tauto. }
  rewrite (each_from_ok (validate_test source) (λ t, is_principal t.(test_src) = true)).
  2: { intros i t. unfold validate_test. rewrite fail_if_ok, negb_false_iff. tauto. }
  rewrite (each_from_ok (validate_ssh_test source) ssh_test_ok) by apply validate_ssh_test_ok.
  tauto.
Qed.

Lemma walk_object_ok source keys what v : walk_object source keys what v = Ok () ↔ object_with keys v.
Proof.
  unfold walk_object, object_with, check_keys. destruct v; cbn [as_object rbind];
    try (split; [done|by intros (? & [=] & _)]).
  rewrite (each_iff _ (λ kv, kv.1 ∈ keys)).
  - split; [intros H; by exists fields|by intros (? & [= <-] & H)].
  - intros kv. rewrite fail_if_ok, negb_false_iff, bool_decide_eq_true. tauto.
Qed.

Lemma walk_array_ok source what keys k v :
  walk_array source v what (walk_object source keys k) = Ok () ↔ array_of (object_with keys) v.
Proof.
  unfold walk_array, array_of. destruct v; try (split; [done|by intros (? & [=] & _)]).
  rewrite (each_iff _ (object_with keys)) by apply walk_object_ok.
  split; [intros H; by exists items|by intros (? & [= <-] & H)].
Qed.

Lemma if_present_ok root key f (P : Json → Prop) :
  (∀ v, f v = Ok () ↔ P v) → if_present root key f = Ok () ↔ ∀ x, get_field key root = Some x → P x.
Proof.
  intros HP. unfold if_present. destruct (get_field key root) as [v|]; [|done]. rewrite HP.
  split; [by intros ? ? [= <-]|auto].
Qed.

Lemma present_array source root key what keys k :
  if_present root key (λ v, walk_array source v what (walk_object source keys k)) = Ok ()
  ↔ ∀ x, get_field key root = Some x → array_of (object_with keys) x.
Proof. apply if_present_ok. intros v. apply walk_array_ok. Qed.

Lemma validate_unknown_keys_ok source v : validate_unknown_keys source v = Ok () ↔ known_document v.
Proof.
  unfold validate_unknown_keys, known_document. destruct v; try (split; [done|by intros (? & [=] & _)]).
  rewrite !rbind_ok. unfold walk_auto_approvers, walk_acl, walk_grant, walk_ssh, walk_node_attr, walk_test, walk_ssh_test.
  rewrite !present_array.
  rewrite (if_present_ok _ _ _ (object_with AUTO_APPROVERS_KEYS)) by (intros; apply walk_object_ok).
  unfold check_keys. rewrite (each_iff _ (λ kv, kv.1 ∈ POLICY_KEYS)).
  - split; [intros H; by exists fields|by intros (? & [= <-] & H)].
  - intros kv. rewrite fail_if_ok, negb_false_iff, bool_decide_eq_true. tauto.
Qed.

(** ** Where errors point *)

Definition newlines (s : text) : Z := zlen (filter (λ c, c = 10) s).

Lemma newlines_app a b : newlines (a ++ b) = newlines a + newlines b.
Proof. unfold newlines. by rewrite list.filter_app, zlen_app. Qed.

Lemma newlines_nonneg s : 0 ≤ newlines s.
Proof. apply zlen_nonneg. Qed.

Lemma split_pieces s : zlen (split 10 s) = 1 + newlines s.
Proof.
  unfold newlines. induction s as [|c s IH]; [done|]. cbn [split].
  destruct (Z.eqb_spec c 10) as [->|Hc].
  - rewrite filter_cons_True, !zlen_cons by done. lia.
  - rewrite filter_cons_False by done. destruct (split 10 s) as [|w ws]; [|rewrite zlen_cons in *; lia].
    rewrite zlen_nil in IH. pose proof (zlen_nonneg (filter (λ c, c = 10) s)). lia.
Qed.

Lemma ended_lines_len ls : zlen (ended_lines ls) ≤ zlen ls.
Proof.
  induction ls as [|l ls IH]; [done|]. destruct ls as [|l2 ls].
  - cbn [ended_lines]. case_bool_decide; [done|]. lia.
  - change (ended_lines (l :: l2 :: ls)) with (strip_cr l :: ended_lines (l2 :: ls)). rewrite !(zlen_cons l), !(zlen_cons (strip_cr l)). lia.
Qed.

Lemma locate_from_bounds i ls needle :
  0 ≤ i → 1 ≤ locate_from i ls needle ≤ Z.max 1 (i + zlen ls).
Proof.
  revert i. induction ls as [|l ls IH]; intros i Hi; cbn [locate_from]; [lia|]. rewrite zlen_cons.
  pose proof (zlen_nonneg ls). destruct (contains_str needle l); [lia|]. specialize (IH (i + 1)). lia.
Qed.

Lemma locate_line_bounds s needle : 1 ≤ locate_line s needle ≤ 1 + newlines s.
Proof.
  unfold locate_line. pose proof (locate_from_bounds 0 (lines s) needle ltac:(lia)) as H.
  pose proof (ended_lines_len (split 10 s)) as Hl. rewrite split_pieces in Hl. unfold lines in *.
  pose proof (newlines_nonneg s). lia.
Qed.

(** An answer whose error, if it is one, names a line of the document. *)
Definition error_in (s : text) {A} (r : result A HujsonError) : Prop :=
  ∀ e, r = Err e → 1 ≤ e.(err_line) ≤ 1 + newlines s.

Lemma error_in_ok s {A} (a : A) : error_in s (Ok a).
Proof. by intros e. Qed.

Lemma error_in_here s {A} needle msg : error_in s (Err (A := A) (error_here s needle msg)).
Proof. intros e [= <-]. apply locate_line_bounds. Qed.

Lemma error_in_bind s {A B} (r : result A HujsonError) (k : A → result B HujsonError) :
  error_in s r → (∀ a, error_in s (k a)) → error_in s (rbind r k).
Proof. intros Hr Hk. destruct r as [a|e]; [apply Hk|]. intros e' [= <-]. by apply Hr. Qed.

Lemma error_in_if s {A} (b : bool) (r k : result A HujsonError) : error_in s r → error_in s k → error_in s (if b then r else k).
Proof. by destruct b. Qed.

Lemma error_in_each s {A} (f : A → result unit HujsonError) l : (∀ x, error_in s (f x)) → error_in s (each f l).
Proof. intros Hf. induction l as [|x l IH]; [apply error_in_ok|]. by apply error_in_bind. Qed.

Lemma error_in_each_from s {A} (f : Z → A → result unit HujsonError) i l :
  (∀ i x, error_in s (f i x)) → error_in s (each_from i f l).
Proof. intros Hf. revert i. induction l as [|x l IH]; intros i; [apply error_in_ok|]. by apply error_in_bind. Qed.

Lemma error_in_present s root key f : (∀ v, error_in s (f v)) → error_in s (if_present root key f).
Proof. intros Hf. unfold if_present. destruct (get_field key root); [apply Hf|apply error_in_ok]. Qed.

Create HintDb located discriminated.
#[local] Hint Resolve error_in_ok error_in_here error_in_bind error_in_if error_in_each error_in_each_from
  error_in_present : located.
#[local] Hint Extern 1 (error_in _ (check_targets _ _ _ _)) => unfold check_targets : located.

Lemma walk_object_located s keys what v : error_in s (walk_object s keys what v).
Proof. unfold walk_object, check_keys, as_object. apply error_in_bind; [destruct v|]; auto with located. Qed.
#[local] Hint Resolve walk_object_located : located.

Lemma walk_array_located s v what f : (∀ x, error_in s (f x)) → error_in s (walk_array s v what f).
Proof. intros Hf. unfold walk_array. destruct v; auto with located. Qed.
#[local] Hint Resolve walk_array_located : located.

Lemma unknown_keys_located s v : error_in s (validate_unknown_keys s v).
Proof.
  unfold validate_unknown_keys, check_keys, walk_auto_approvers, walk_acl, walk_grant, walk_ssh, walk_node_attr,
    walk_test, walk_ssh_test.
  destruct v; try (intros e [= <-]; apply locate_line_bounds). auto 15 with located.
Qed.

Lemma validate_policy_located s p : error_in s (validate_policy s p).
Proof.
  unfold validate_policy, validate_group, validate_host, validate_acl, validate_grant, validate_tag_owners,
    validate_approvers, validate_ssh, validate_node_attr, validate_test, validate_ssh_test.
  repeat first [apply error_in_bind; [|intros _] | apply error_in_each; intros ? | apply error_in_each_from; intros ? ?
    | apply error_in_if | apply error_in_here | apply error_in_ok | unfold check_targets].
Qed.

(** ** Loading *)

(** C16. A document loads exactly when it is in the language of the parser, holds no
    unknown key, has the types of the model and means something; the policy is then
    the typed value of the document. *)
Theorem parse_policy_exact from_value s p :
  parse_policy from_value s = Some (Ok p) ↔
  ∃ v, hujson s v ∧ known_document v ∧ from_value v = Ok p ∧ policy_ok p.
Proof.
  unfold parse_policy. split.
  - destruct (parse s) as [[v|e]|] eqn:Hp; [|done..]. intros [= Hr].
    apply rbind_ok in Hr as [Hk%validate_unknown_keys_ok Hr]. destruct (from_value v) as [q|] eqn:Hf; [|done]. cbn [rbind] in Hr.
    apply rbind_ok in Hr as [Hv%validate_policy_ok [= <-]]. exists v. split; [by apply parsed_hujson|done].
  - intros (v & Hs%hujson_parsed & Hk & Hf & Hv). rewrite Hs, Hf.
    rewrite (proj2 (validate_unknown_keys_ok s v) Hk). cbn [rbind].
    by rewrite (proj2 (validate_policy_ok s p) Hv).
Qed.


(** ** Destinations, checked and compiled *)

Lemma is_ip_or_cidr_same s : is_ip_or_cidr s = is_ip_or_cidr_str s.
Proof.
  unfold is_ip_or_cidr, is_ip_or_cidr_str. destruct (parse_ip s); [done|].
  destruct (split_once 47 s) as [[addr bits]|]; [|done]. destruct (parse_ip addr); [|done].
  destruct (parse_uint 255 bits) as [b|] eqn:Hb; [|done]. rewrite bool_decide_eq_false_2; [by rewrite andb_true_r|].
  intros ->. done.
Qed.

(** The characters of an address or a network. *)
Definition net_char (c : Z) : Prop := addr_char c ∨ c = 43 ∨ c = 47.

Lemma parse_uint_chars max s v : parse_uint max s = Some v → Forall net_char s.
Proof.
  assert (Hd : ∀ t x, parse_digits t = Some x → Forall net_char t).
  { intros t x. unfold parse_digits. destruct (span_digits 10 t) as [ds r] eqn:E.
    apply span_digits_spec in E as [Hc _]; [|lia]. destruct ds; [done|]. destruct r; [|done]. intros _.
    apply consumed_all in Hc. eapply list.Forall_impl; [exact Hc|]. intros c ?. by left. }
  assert (Hs : ∃ t, match s with 43 :: t => t | _ => s end = t ∧ (s = t ∨ s = 43 :: t)).
  { destruct s as [|[|c|c] s]; try (eexists; split; [done|by left]).
    do 6 (destruct c as [c|c|]; try (eexists; split; [done|by left])). by eexists; split; [|right]. }
  destruct Hs as (t & Ht & Hs). unfold parse_uint. rewrite Ht. destruct (parse_digits t) as [x|] eqn:E; [|done].
  intros _. apply Hd in E. destruct Hs as [-> | ->]; [done|]. constructor; [by right; left|done].
Qed.

Lemma split_once_eq c s a b : split_once c s = Some (a, b) → s = a ++ c :: b ∧ c ∉ a.
Proof.
  revert a. induction s as [|x s IH]; intros a; cbn; [done|]. destruct (Z.eqb_spec x c) as [->|Hx].
  { intros [= <- <-]. split; [done|apply not_elem_of_nil]. }
  destruct (split_once c s) as [[a' b']|]; [|done]. intros [= <- <-]. destruct (IH a' eq_refl) as [-> Hn].
  split; [done|]. by apply not_elem_of_cons.
Qed.

Lemma ip_or_cidr_chars s : is_ip_or_cidr s = true → Forall net_char s.
Proof.
  assert (Hip : ∀ t ip, parse_ip t = Some ip → Forall net_char t).
  { intros t ip H%parse_ip_chars. eapply list.Forall_impl; [exact H|]. intros c ?. by left. }
  unfold is_ip_or_cidr. destruct (parse_ip s) as [ip|] eqn:E; [intros _; by eapply Hip|].
  destruct (split_once 47 s) as [[addr bits]|] eqn:Es; [|done]. destruct (parse_ip addr) as [ip|] eqn:Ea; [|done].
  destruct (parse_uint 255 bits) as [b|] eqn:Eb; [|done]. intros _. apply split_once_eq in Es as [-> _].
  apply Forall_app. split; [by eapply Hip|]. constructor; [by right; right|]. by eapply parse_uint_chars.
Qed.

Lemma net_char_not c s : Forall net_char s → to_digit 16 c = None → c ∉ [58; 46; 43; 47] → c ∉ s.
Proof.
  intros Hs Hd Hc Hin. rewrite list.Forall_forall in Hs. destruct (Hs c Hin) as [[[d Hx]|[->| ->]]|[->| ->]]; set_solver.
Qed.

Lemma host_ident_chars s c : valid_host_ident s = true → is_ascii_alphanumeric c = false → c ∉ [45; 46; 95] → c ∉ s.
Proof.
  unfold valid_host_ident. intros [_ H]%andb_true_iff Ha Hc Hin. rewrite forallb_forall in H.
  specialize (H c (proj1 (list_elem_of_In _ _) Hin)). rewrite Ha in H. cbn in H.
  apply orb_true_iff in H as [H|H]; [apply orb_true_iff in H as [H|H]|]; apply Z.eqb_eq in H; subst; set_solver.
Qed.

(** What a checked host may not hold. *)
Lemma good_host_chars host c :
  bool_decide (host = str "*") || is_ip_or_cidr host || valid_host_ident host = true → c ∈ [64; 91; 93] → c ∉ host.
Proof.
  intros H Hc. assert (Hx : to_digit 16 c = None ∧ c ∉ [58; 46; 43; 47] ∧ is_ascii_alphanumeric c = false ∧ c ∉ [45; 46; 95] ∧ c ≠ 42).
  { repeat (apply elem_of_cons in Hc as [->|Hc]; [repeat split; try done; set_solver|]). by apply elem_of_nil in Hc. }
  destruct Hx as (H1 & H2 & H3 & H4 & H5). apply orb_true_iff in H as [H|H]; [apply orb_true_iff in H as [H|H]|].
  - breflect. subst host. change (str "*") with [42]. set_solver.
  - by apply net_char_not; [apply ip_or_cidr_chars|..].
  - by apply host_ident_chars.
Qed.

(** *** Ports *)

(** The ranges a checked port list stands for, one for each of its items. *)
Definition port_item (item : text) (r : NetPortRange) : Prop :=
  parse_port_item item = [r] ∧ 1 ≤ r.(port_first) ≤ r.(port_last) ∧ r.(port_last) ≤ 65535.

Lemma valid_port_item_parses item : valid_port_item item = true → ∃ r, port_item item r.
Proof.
  unfold valid_port_item, port_item, parse_port_item. case_bool_decide; [done|].
  destruct (split_once 45 (trim item)) as [[lo hi]|].
  - destruct (parse_uint 65535 lo) as [a|] eqn:Ea; [|done]. destruct (parse_uint 65535 hi) as [b|] eqn:Eb; [|done].
    intros H0. breflect. rewrite (proj2 (Z.leb_le a b)) by done. eexists. split; [done|]. cbn.
    apply parse_uint_range in Ea, Eb. lia.
  - destruct (parse_uint 65535 (trim item)) as [a|] eqn:Ea; [|done]. intros H0. breflect. eexists. split; [done|]. cbn.
    apply parse_uint_range in Ea. lia.
Qed.

Lemma valid_portlist_parses ports :
  valid_portlist ports = true →
  ports = str "*" ∧ parse_ports ports = all_ports ∨ Forall2 port_item (split 44 ports) (parse_ports ports).
Proof.
  unfold valid_portlist, parse_ports. case_bool_decide; [by left|]. case_bool_decide; [done|]. intros Hp. right.
  induction (split 44 ports) as [|item items IH]; [constructor|]. cbn [forallb] in Hp. apply andb_true_iff in Hp as [Hi Hp].
  destruct (valid_port_item_parses item Hi) as (r & Hr). cbn [flat_map]. rewrite (proj1 Hr). constructor; [done|by apply IH].
Qed.

(** *** Hosts *)

Lemma rsplit_once_eq c s a b : rsplit_once c s = Some (a, b) → s = a ++ c :: b ∧ c ∉ b.
Proof.
  revert a b. induction s as [|x s IH]; intros a b; cbn; [done|].
  assert (Hnone : rsplit_once c s = None → c ∉ s).
  { clear. induction s as [|y s IH]; [intros; apply not_elem_of_nil|]. cbn.
    destruct (rsplit_once c s) as [[? ?]|]; [done|]. destruct (Z.eqb_spec y c); [done|]. intros _.
    apply not_elem_of_cons. split; [done|by apply IH]. }
  destruct (rsplit_once c s) as [[a' b']|] eqn:E.
  - intros [= <- <-]. destruct (IH a' b' eq_refl) as [-> Hn]. done.
  - destruct (Z.eqb_spec x c) as [->|]; [|done]. intros [= <- <-]. split; [done|]. by apply Hnone.
Qed.

Lemma split_bracket_colon x rest :
  93 ∉ x → split_once_str (str "]:") (x ++ 93 :: 58 :: rest) = Some (x, rest).
Proof.
  change (str "]:") with [93; 58]. induction x as [|c x IH]; intros Hx; [done|]. apply not_elem_of_cons in Hx as [Hc Hx].
  cbn [app split_once_str strip_prefix]. rewrite (proj2 (Z.eqb_neq 93 c)) by done. by rewrite IH.
Qed.

Lemma split_once_str_front p s a b : split_once_str p s = Some (a, b) → ∃ r, s = a ++ r.
Proof.
  revert a. induction s as [|x s IH]; intros a; cbn [split_once_str].
  { destruct (strip_prefix p []) as [r|]; [|done]. intros [= <- <-]. by exists []. }
  destruct (strip_prefix p (x :: s)) as [r|]; [intros [= <- <-]; by exists (x :: s)|].
  destruct (split_once_str p s) as [[a' b']|]; [|done]. intros [= <- <-].
  destruct (IH a' eq_refl) as (r & ->). by exists r.
Qed.

Lemma starts_with_bracket s : starts_with (str "[") s = true ↔ ∃ r, s = 91 :: r.
Proof.
  unfold starts_with. destruct (strip_prefix (str "[") s) as [r|] eqn:E.
  - apply strip_prefix_Some in E as ->. split; [intros _; by exists r|done].
  - split; [done|]. intros (r & ->). done.
Qed.

(** A host in brackets, or none. *)
Lemma strip_brackets_cases host :
  (∃ x, host = 91 :: x ++ [93] ∧ strip_brackets host = x) ∨ strip_brackets host = host.
Proof.
  unfold strip_brackets. destruct (starts_with (str "[") host) eqn:Hs; [|by right].
  destruct (proj1 (starts_with_bracket _) Hs) as (r & ->). unfold ends_with_bracket.
  destruct (bool_decide _) eqn:He; [|by right]. apply bool_decide_eq_true in He.
  destruct r as [|c r] using rev_ind; [done|]. change (91 :: r ++ [c]) with ((91 :: r) ++ [c]) in *.
  rewrite rev_app_distr in He. cbn [rev app head] in He. assert (c = 93) as -> by congruence. cbn [andb].
  destruct (2 <=? zlen ((91 :: r) ++ [93])); cbn [andb]; [|by right]. left. exists r. split; [done|]. unfold inner. cbn [app tail]. by rewrite removelast_last.
Qed.

Lemma split_ports_Some target host ports :
  split_ports target = Some (host, ports) →
  rsplit_once 58 target = Some (host, ports) ∧ host ≠ [] ∧ ports ≠ [] ∧ target = host ++ 58 :: ports ∧
  (starts_with (str "[") host = false → 58 ∉ host).
Proof.
  unfold split_ports. destruct (rsplit_once 58 target) as [[h ps]|] eqn:E; [|done].
  destruct (bool_decide (h = []) || _) eqn:Hn; [done|]. apply orb_false_iff in Hn as [Hh Hp]. breflect.
  destruct (starts_with (str "[") h) eqn:Hb; cbn [orb].
  { intros [= <- <-]. split_and!; try done; [by apply rsplit_once_eq in E as [-> _]|congruence]. }
  destruct (is_plain_ipv4_or_cidr h || _ || _) eqn:Hg; [|done]. intros [= <- <-].
  split_and!; try done; [by apply rsplit_once_eq in E as [-> _]|]. intros _.
  apply orb_true_iff in Hg as [Hg|Hg]; [apply orb_true_iff in Hg as [Hg|Hg]|].
  - unfold is_plain_ipv4_or_cidr in Hg. apply andb_true_iff in Hg as [Hg _]. apply andb_true_iff in Hg as [Hg _].
    apply negb_true_iff in Hg. intros Hin. unfold contains_char in Hg. rewrite <- not_true_iff_false in Hg. apply Hg.
    apply existsb_exists. exists 58. split; [by apply list_elem_of_In|done].
  - breflect. subst h. change (str "*") with [42]. set_solver.
  - by apply host_ident_chars; [..|set_solver].
Qed.

Lemma contains_char_false c s : c ∉ s → contains_char c s = false.
Proof.
  intros Hc. apply not_true_is_false. unfold contains_char. rewrite existsb_exists. intros (x & Hx & ->%Z.eqb_eq).
  by apply Hc, list_elem_of_In.
Qed.

(** A destination with ports that the validation accepts compiles to that host, out of
    its brackets, and to those ports: [*] is every port, and any other list gives one
    non-empty range of ports for each of its items. *)
Theorem checked_destination_is_compiled p target host ports :
  is_dst target = true → reference target = None → 64 ∉ target → split_ports target = Some (host, ports) →
  parse_dst p target = Some {| dst_target := resolve_bare p (strip_brackets host);
                               dt_ports := parse_ports ports; dst_wildcard := false |} ∧
  (ports = str "*" ∧ parse_ports ports = all_ports ∨ Forall2 port_item (split 44 ports) (parse_ports ports)).
Proof.
  intros Hd Hr Hu Hs. destruct (split_ports_Some target host ports Hs) as (Hc & Hh & Hp & Ht & Hcolon).
  unfold is_dst in Hd. rewrite Hr, Hs in Hd. rewrite (proj2 (split_once_None 64 target) Hu) in Hd.
  assert (Hstar : target ≠ str "*") by by intros ->. rewrite bool_decide_eq_false_2 in Hd by done.
  apply andb_true_iff in Hd as [Hgood Hports]. split; [|by apply valid_portlist_parses].
  unfold parse_dst. rewrite bool_decide_eq_false_2 by done. unfold split_bracketed_ports, split_ports_literal.
  destruct (strip_brackets_cases host) as [(x & Hx & Ex)|Ex]; rewrite Ex in *; subst target.
  - rewrite Hx. change ((91 :: x ++ [93]) ++ 58 :: ports) with (91 :: (x ++ [93]) ++ 58 :: ports).
    rewrite <- app_assoc. change (91 :: x ++ [93] ++ 58 :: ports) with ((91 :: x) ++ 93 :: 58 :: ports).
    rewrite split_bracket_colon; [|apply not_elem_of_cons; split; [done|]; apply good_host_chars; [done|set_solver]].
    change (91 :: x) with (str "[" ++ x). cbn [mbind option_bind]. rewrite strip_prefix_app. cbn [mbind option_bind].
    rewrite bool_decide_eq_false_2 by (intros ->; done). by rewrite bool_decide_eq_false_2.
  - assert (Hb : starts_with (str "[") host = false).
    { apply not_true_is_false. rewrite starts_with_bracket. intros (r & ->).
      apply (good_host_chars (91 :: r) 91) in Hgood; set_solver. }
    specialize (Hcolon Hb). replace (_ ← split_once_str _ _; _) with (@None (text * text)).
    2: { destruct (split_once_str (str "]:") (host ++ 58 :: ports)) as [[a b]|] eqn:Ea; [|done]. cbn [mbind option_bind].
         destruct (strip_prefix (str "[") a) as [r|] eqn:Er; [|done]. apply strip_prefix_Some in Er as ->.
         apply split_once_str_front in Ea as (r' & Ea). destruct host as [|c host]; [done|]. injection Ea as -> _. done. }
    rewrite Hc. cbn [mbind option_bind]. rewrite !bool_decide_eq_false_2 by done. cbn [orb].
    unfold is_bare_ipv6. rewrite contains_char_false by done. cbn [andb].
    rewrite <- is_ip_or_cidr_same. change (is_host_ident host) with (valid_host_ident host). by rewrite Hgood.
Qed.

Lemma checked_destination_witness :
  is_dst (str "[fd7a::1]:22,80-90") = true ∧
  parse_dst Policy_default (str "[fd7a::1]:22,80-90") = Some {| dst_target := resolve_bare Policy_default (str "fd7a::1");
     dt_ports := parse_ports (str "22,80-90"); dst_wildcard := false |}.
Proof.
  split; [by vm_compute|].
  exact (proj1 (checked_destination_is_compiled Policy_default (str "[fd7a::1]:22,80-90") (str "[fd7a::1]") (str "22,80-90")
    ltac:(by vm_compute) ltac:(by vm_compute) ltac:(vm_compute; set_solver) ltac:(by vm_compute))).
Defined.

(** An IPv6 address has a colon. *)
Lemma read_groups_no_colon k s : 58 ∉ s → read_groups k false s = ([], false, s).
Proof.
  intros Hs. destruct k as [|k]; [done|]. cbn [read_groups]. unfold read_separator.
  assert (Hr : read_given_char 58 s = None).
  { destruct s as [|c s]; [done|]. cbn. destruct (Z.eqb_spec c 58) as [->|]; [set_solver|done]. }
  rewrite Hr. by destruct (0 <? Z.of_nat k).
Qed.

Lemma consumed_not_in c s r : c ∉ s → consumed s r → c ∉ r.
Proof. intros Hs (p & -> & _) Hr. apply Hs. apply elem_of_app. by right. Qed.

Lemma parse_ipv6_colon addr w : parse_ipv6 addr = Some w → 58 ∈ addr.
Proof.
  intros H. destruct (decide (58 ∈ addr)) as [|Hn]; [done|]. exfalso. revert H. unfold parse_ipv6, read_ipv6_addr.
  change 8%nat with (S 7) at 1. assert (∃ k, k = 7%nat) as [k Ek] by eauto.
  rewrite <- Ek at 1. assert (Hk : (0 <? Z.of_nat k) = true) by (by rewrite Ek).
  cbn [read_groups]. rewrite Hk. unfold read_separator at 1 2.
  destruct (read_ipv4_addr addr) as [[a r]|] eqn:E4; [done|]. cbv beta iota.
  assert (Hg : ∀ t, 58 ∉ t → read_given_char 58 t = None).
  { intros [|c t]; [done|]. intros Ht. cbn. destruct (Z.eqb_spec c 58) as [->|]; [set_solver|done]. }
  destruct (read_number 16 4 true 65535 addr) as [[g r]|] eqn:Eg.
  - apply read_number_spec in Eg as [Hc _]; [|lia]. rewrite read_groups_no_colon by by eapply consumed_not_in.
    change (zlen [g] =? 8) with false. cbv beta iota. rewrite Hg by by eapply consumed_not_in. done.
  - change (zlen (@nil Z) =? 8) with false. cbv beta iota. by rewrite Hg.
Qed.

Lemma parse_ipv6_chars addr w : parse_ipv6 addr = Some w → Forall addr_char addr.
Proof.
  unfold parse_ipv6. destruct (read_ipv6_addr addr) as [[a r]|] eqn:E; [|done]. destruct r; [|done]. intros _.
  apply read_ipv6_spec in E as [Hc _]. by apply consumed_all.
Qed.

Lemma rsplit_once_in c s : c ∈ s → ∃ a b, rsplit_once c s = Some (a, b).
Proof.
  induction s as [|x s IH]; intros Hc; [by apply elem_of_nil in Hc|]. cbn.
  destruct (rsplit_once c s) as [[a b]|] eqn:E; [by eexists _, _|].
  apply elem_of_cons in Hc as [->|Hc]; [rewrite Z.eqb_refl; by eexists _, _|]. by destruct (IH Hc) as (? & ? & ?).
Qed.

(** An IPv6 address in brackets and without ports is refused as a destination: the
    last colon inside the brackets is taken to start the ports. *)
Theorem bracketed_ipv6_refused addr w :
  parse_ipv6 addr = Some w → is_dst (str "[" ++ addr ++ str "]") = false.
Proof.
  intros Hw. pose proof (parse_ipv6_colon _ _ Hw) as Hcolon. pose proof (parse_ipv6_chars _ _ Hw) as Hc.
  change (str "[" ++ addr ++ str "]") with (91 :: addr ++ [93]).
  assert (Hno : 93 ∉ addr) by (by apply addr_char_not).
  unfold is_dst. rewrite bool_decide_eq_false_2 by done. change (reference (91 :: addr ++ [93])) with (@None text). cbv iota.
  rewrite (proj2 (split_once_None 64 _)).
  2: { intros [He|[He|He]%elem_of_app]%elem_of_cons; [done|by revert He; apply addr_char_not|set_solver]. }
  destruct (rsplit_once_in 58 (91 :: addr ++ [93])) as (host & ports & Hr); [set_solver|].
  pose proof Hr as Ht. apply rsplit_once_eq in Ht as [Ht _].
  destruct host as [|c host]; [done|]. injection Ht as <- Ht.
  destruct ports as [|q ports _] using rev_ind.
  { change (host ++ [58]) with (host ++ [58]) in Ht. apply app_inj_tail in Ht as [_ ?]. done. }
  assert (Ht' : addr ++ [93] = (host ++ 58 :: ports) ++ [q]) by (by rewrite Ht, <- app_assoc).
  apply app_inj_tail in Ht' as [-> <-]. unfold split_ports. rewrite Hr, bool_decide_eq_false_2 by done.
  rewrite bool_decide_eq_false_2 by (by destruct ports). cbn [orb].
  change (starts_with (str "[") (91 :: host)) with true. cbn [orb].
  assert (Hs : strip_brackets (91 :: host) = 91 :: host).
  { destruct (strip_brackets_cases (91 :: host)) as [(x & Hx & _)|Hs]; [|done]. injection Hx as ->.
    exfalso. apply Hno. set_solver. }
  rewrite Hs. destruct (_ || _ || _) eqn:Hg; [|done]. exfalso.
  apply (good_host_chars (91 :: host) 91 Hg); set_solver.
Qed.

Lemma bracketed_ipv6_refused_witness :
  parse_ipv6 (str "fd7a:115c:a1e0::53") = Some 0xfd7a115ca1e000000000000000000053
  ∧ is_dst (str "[fd7a:115c:a1e0::53]") = false.
Proof.
  split; [by vm_compute|].
  exact (bracketed_ipv6_refused (str "fd7a:115c:a1e0::53") 0xfd7a115ca1e000000000000000000053 ltac:(by vm_compute)).
Defined.
