(* ===== verification/NetMap.v ===== *)
(** * Nodes: the stored record and the wire object

    The node of the control plane's store ([crabscale-control/src/model.rs]),
    the node and the patch of the network map
    ([crabscale-proto/src/netmap.rs], [hostinfo.rs]), and the conversion
    between them.  Keys are their bytes, timestamps their text; an [i64] id
    becomes a [u64] on the wire. *)

From S2P Require Import Prelude Text PolicyModel.

(** [x as u64] *)
Definition as_u64 (x : Z) : Z := wrap 64 x.

Record NetInfo : Type := {
  ni_mapping_varies_by_dest_ip : option bool; ni_working_ipv6 : option bool;
  ni_os_has_ipv6 : option bool; ni_working_udp : option bool; ni_working_icmpv4 : option bool;
  ni_have_port_map : bool; ni_upnp : option bool; ni_pmp : option bool; ni_pcp : option bool;
  ni_preferred_derp : Z; ni_link_type : text }.

#[global] Instance NetInfo_eq_dec : EqDecision NetInfo.
Proof. solve_decision. Defined.

Record Hostinfo : Type := {
  hi_ipn_version : text; hi_frontend_log_id : text; hi_backend_log_id : text; hi_os : text;
  hi_os_version : text; hi_container : option bool; hi_env : text; hi_distro : text;
  hi_distro_version : text; hi_distro_code_name : text; hi_app : text; hi_desktop : option bool;
  hi_package : text; hi_device_model : text; hi_push_device_token : text; hi_hostname : text;
  hi_shields_up : bool; hi_sharee_node : bool; hi_no_logs_no_support : bool;
  hi_wire_ingress : bool; hi_ingress_enabled : bool; hi_allows_update : bool; hi_machine : text;
  hi_go_arch : text; hi_go_arch_var : text; hi_go_version : text;
  hi_routable_ips : option (list text); hi_request_tags : option (list text);
  hi_wol_macs : option (list text); hi_net_info : option NetInfo;
  hi_ssh_host_keys : option (list text); hi_cloud : text; hi_userspace : option bool;
  hi_userspace_router : option bool; hi_app_connector : option bool; hi_services_hash : text;
  hi_exit_node_id : text; hi_state_encrypted : option bool }.

#[global] Instance Hostinfo_eq_dec : EqDecision Hostinfo.
Proof. solve_decision. Defined.

Record User : Type := {
  user_id : Z; user_login_name : text; user_display_name : text; user_created_at : text }.

#[global] Instance User_eq_dec : EqDecision User.
Proof. solve_decision. Defined.

Record Login : Type := {
  login_id : Z; login_user_id : Z; login_provider : text; login_name : text;
  login_created_at : text }.

Record PreAuthKey : Type := {
  ak_id : Z; ak_prefix : text; ak_secret_hash : text; ak_reusable : bool; ak_ephemeral : bool;
  ak_expiration : option text; ak_revoked : bool; ak_used : bool; ak_tags : option (list text);
  ak_user_id : Z; ak_created_at : text }.

#[global] Instance PreAuthKey_eq_dec : EqDecision PreAuthKey.
Proof. solve_decision. Defined.

(** A stored policy document and a stored map session. *)
Record PolicyDoc : Type := {
  doc_id : Z; doc_name : text; doc_body : text; doc_created_at : text }.

Record SessionRow : Type := {
  sr_id : Z; sr_node_id : Z; sr_machine_key : bytes; sr_created_at : text; sr_last_seen : text;
  sr_closed_at : option text }.

(** A check-mode record of an SSH connection ([crabscale-control/src/ssh.rs]). *)
Inductive SshVerdict : Type :=
| SshPending
| SshAccepted (last_auth_at : text)
| SshRejected.

Record SshAuth : Type := {
  sh_auth_id : text; sh_src_node_id : Z; sh_dst_node_id : Z; sh_ssh_user : text;
  sh_local_user : text; sh_machine_key : bytes; sh_created_at : text; sh_expires_at : text;
  sh_verdict : SshVerdict }.

#[global] Instance SshVerdict_eq_dec : EqDecision SshVerdict.
Proof. solve_decision. Defined.
#[global] Instance SshAuth_eq_dec : EqDecision SshAuth.
Proof. solve_decision. Defined.

(** The stored node. *)
Record DomainNode : Type := {
  dn_id : Z; dn_stable_id : text; dn_name : text; dn_user_id : option Z; dn_node_key : bytes;
  dn_machine_key : bytes; dn_disco_key : bytes; dn_addresses : list text;
  dn_allowed_ips : option (list text); dn_endpoints : list text; dn_endpoint_types : list Z;
  dn_home_derp : Z; dn_hostinfo : option Hostinfo; dn_created : text; dn_cap : Z;
  dn_tags : option (list text); dn_advertised_routes : list text; dn_approved_routes : list text;
  dn_machine_authorized : bool; dn_ephemeral : bool; dn_last_seen : option text;
  dn_key_expiry : option text }.

#[global] Instance DomainNode_eq_dec : EqDecision DomainNode.
Proof. solve_decision. Defined.

(** The field assignments the control plane makes to a stored node. *)
Definition set_dn_id (id : Z) (n : DomainNode) : DomainNode :=
  {| dn_id := id; dn_stable_id := n.(dn_stable_id); dn_name := n.(dn_name);
     dn_user_id := n.(dn_user_id); dn_node_key := n.(dn_node_key);
     dn_machine_key := n.(dn_machine_key); dn_disco_key := n.(dn_disco_key);
     dn_addresses := n.(dn_addresses); dn_allowed_ips := n.(dn_allowed_ips);
     dn_endpoints := n.(dn_endpoints); dn_endpoint_types := n.(dn_endpoint_types);
     dn_home_derp := n.(dn_home_derp); dn_hostinfo := n.(dn_hostinfo);
     dn_created := n.(dn_created); dn_cap := n.(dn_cap); dn_tags := n.(dn_tags);
     dn_advertised_routes := n.(dn_advertised_routes);
     dn_approved_routes := n.(dn_approved_routes);
     dn_machine_authorized := n.(dn_machine_authorized); dn_ephemeral := n.(dn_ephemeral);
     dn_last_seen := n.(dn_last_seen); dn_key_expiry := n.(dn_key_expiry) |}.

Definition set_dn_stable_id (sid : text) (n : DomainNode) : DomainNode :=
  {| dn_id := n.(dn_id); dn_stable_id := sid; dn_name := n.(dn_name);
     dn_user_id := n.(dn_user_id); dn_node_key := n.(dn_node_key);
     dn_machine_key := n.(dn_machine_key); dn_disco_key := n.(dn_disco_key);
     dn_addresses := n.(dn_addresses); dn_allowed_ips := n.(dn_allowed_ips);
     dn_endpoints := n.(dn_endpoints); dn_endpoint_types := n.(dn_endpoint_types);
     dn_home_derp := n.(dn_home_derp); dn_hostinfo := n.(dn_hostinfo);
     dn_created := n.(dn_created); dn_cap := n.(dn_cap); dn_tags := n.(dn_tags);
     dn_advertised_routes := n.(dn_advertised_routes);
     dn_approved_routes := n.(dn_approved_routes);
     dn_machine_authorized := n.(dn_machine_authorized); dn_ephemeral := n.(dn_ephemeral);
     dn_last_seen := n.(dn_last_seen); dn_key_expiry := n.(dn_key_expiry) |}.

Definition set_dn_owner (user_id : option Z) (tags : option (list text)) (n : DomainNode) : DomainNode :=
  {| dn_id := n.(dn_id); dn_stable_id := n.(dn_stable_id); dn_name := n.(dn_name);
     dn_user_id := user_id; dn_node_key := n.(dn_node_key); dn_machine_key := n.(dn_machine_key);
     dn_disco_key := n.(dn_disco_key); dn_addresses := n.(dn_addresses);
     dn_allowed_ips := n.(dn_allowed_ips); dn_endpoints := n.(dn_endpoints);
     dn_endpoint_types := n.(dn_endpoint_types); dn_home_derp := n.(dn_home_derp);
     dn_hostinfo := n.(dn_hostinfo); dn_created := n.(dn_created); dn_cap := n.(dn_cap);
     dn_tags := tags; dn_advertised_routes := n.(dn_advertised_routes);
     dn_approved_routes := n.(dn_approved_routes);
     dn_machine_authorized := n.(dn_machine_authorized); dn_ephemeral := n.(dn_ephemeral);
     dn_last_seen := n.(dn_last_seen); dn_key_expiry := n.(dn_key_expiry) |}.

Definition set_dn_authorized (b : bool) (n : DomainNode) : DomainNode :=
  {| dn_id := n.(dn_id); dn_stable_id := n.(dn_stable_id); dn_name := n.(dn_name);
     dn_user_id := n.(dn_user_id); dn_node_key := n.(dn_node_key);
     dn_machine_key := n.(dn_machine_key); dn_disco_key := n.(dn_disco_key);
     dn_addresses := n.(dn_addresses); dn_allowed_ips := n.(dn_allowed_ips);
     dn_endpoints := n.(dn_endpoints); dn_endpoint_types := n.(dn_endpoint_types);
     dn_home_derp := n.(dn_home_derp); dn_hostinfo := n.(dn_hostinfo);
     dn_created := n.(dn_created); dn_cap := n.(dn_cap); dn_tags := n.(dn_tags);
     dn_advertised_routes := n.(dn_advertised_routes);
     dn_approved_routes := n.(dn_approved_routes); dn_machine_authorized := b;
     dn_ephemeral := n.(dn_ephemeral); dn_last_seen := n.(dn_last_seen);
     dn_key_expiry := n.(dn_key_expiry) |}.

Definition set_dn_ephemeral (b : bool) (n : DomainNode) : DomainNode :=
  {| dn_id := n.(dn_id); dn_stable_id := n.(dn_stable_id); dn_name := n.(dn_name);
     dn_user_id := n.(dn_user_id); dn_node_key := n.(dn_node_key);
     dn_machine_key := n.(dn_machine_key); dn_disco_key := n.(dn_disco_key);
     dn_addresses := n.(dn_addresses); dn_allowed_ips := n.(dn_allowed_ips);
     dn_endpoints := n.(dn_endpoints); dn_endpoint_types := n.(dn_endpoint_types);
     dn_home_derp := n.(dn_home_derp); dn_hostinfo := n.(dn_hostinfo);
     dn_created := n.(dn_created); dn_cap := n.(dn_cap); dn_tags := n.(dn_tags);
     dn_advertised_routes := n.(dn_advertised_routes);
     dn_approved_routes := n.(dn_approved_routes);
     dn_machine_authorized := n.(dn_machine_authorized); dn_ephemeral := b;
     dn_last_seen := n.(dn_last_seen); dn_key_expiry := n.(dn_key_expiry) |}.

Definition set_dn_approved_routes (rs : list text) (n : DomainNode) : DomainNode :=
  {| dn_id := n.(dn_id); dn_stable_id := n.(dn_stable_id); dn_name := n.(dn_name);
     dn_user_id := n.(dn_user_id); dn_node_key := n.(dn_node_key);
     dn_machine_key := n.(dn_machine_key); dn_disco_key := n.(dn_disco_key);
     dn_addresses := n.(dn_addresses); dn_allowed_ips := n.(dn_allowed_ips);
     dn_endpoints := n.(dn_endpoints); dn_endpoint_types := n.(dn_endpoint_types);
     dn_home_derp := n.(dn_home_derp); dn_hostinfo := n.(dn_hostinfo);
     dn_created := n.(dn_created); dn_cap := n.(dn_cap); dn_tags := n.(dn_tags);
     dn_advertised_routes := n.(dn_advertised_routes); dn_approved_routes := rs;
     dn_machine_authorized := n.(dn_machine_authorized); dn_ephemeral := n.(dn_ephemeral);
     dn_last_seen := n.(dn_last_seen); dn_key_expiry := n.(dn_key_expiry) |}.

(** The node of a [MapResponse]. *)
Record WireNode : Type := {
  wn_id : Z; wn_stable_id : text; wn_name : text; wn_user : Z; wn_key : bytes;
  wn_machine : bytes; wn_disco_key : bytes; wn_addresses : list text;
  wn_allowed_ips : option (list text); wn_endpoints : list text; wn_home_derp : Z;
  wn_hostinfo : option Hostinfo; wn_created : text; wn_cap : Z; wn_tags : option (list text);
  wn_cap_map : gmap text (list Json); wn_primary_routes : list text; wn_last_seen : option text;
  wn_online : option bool; wn_machine_authorized : bool; wn_capabilities : list text }.

#[global] Instance WireNode_eq_dec : EqDecision WireNode.
Proof. solve_decision. Defined.

(** A patch: the fields that are [Some] are new. *)
Record PeerChange : Type := {
  ch_node_id : Z; ch_derp_region : option Z; ch_endpoints : option (list text);
  ch_key : option bytes; ch_disco_key : option bytes; ch_online : option bool;
  ch_last_seen : option text; ch_key_expiry : option text; ch_cap : option Z }.

#[global] Instance PeerChange_eq_dec : EqDecision PeerChange.
Proof. solve_decision. Defined.

Definition to_proto (n : DomainNode) : WireNode :=
  {| wn_id := as_u64 n.(dn_id); wn_stable_id := n.(dn_stable_id); wn_name := n.(dn_name);
     wn_user := as_u64 (default 0 n.(dn_user_id)); wn_key := n.(dn_node_key);
     wn_machine := n.(dn_machine_key); wn_disco_key := n.(dn_disco_key);
     wn_addresses := n.(dn_addresses); wn_allowed_ips := n.(dn_allowed_ips);
     wn_endpoints := n.(dn_endpoints); wn_home_derp := n.(dn_home_derp);
     wn_hostinfo := n.(dn_hostinfo); wn_created := n.(dn_created); wn_cap := n.(dn_cap);
     wn_tags := n.(dn_tags); wn_cap_map := ∅; wn_primary_routes := [];
     wn_last_seen := n.(dn_last_seen); wn_online := None;
     wn_machine_authorized := n.(dn_machine_authorized); wn_capabilities := [] |}.

(** The struct updates of [peer_node] and of the map builders. *)
Definition set_online (o : option bool) (w : WireNode) : WireNode :=
  {| wn_id := w.(wn_id); wn_stable_id := w.(wn_stable_id); wn_name := w.(wn_name);
     wn_user := w.(wn_user); wn_key := w.(wn_key); wn_machine := w.(wn_machine);
     wn_disco_key := w.(wn_disco_key); wn_addresses := w.(wn_addresses);
     wn_allowed_ips := w.(wn_allowed_ips); wn_endpoints := w.(wn_endpoints);
     wn_home_derp := w.(wn_home_derp); wn_hostinfo := w.(wn_hostinfo);
     wn_created := w.(wn_created); wn_cap := w.(wn_cap); wn_tags := w.(wn_tags);
     wn_cap_map := w.(wn_cap_map); wn_primary_routes := w.(wn_primary_routes);
     wn_last_seen := w.(wn_last_seen); wn_online := o;
     wn_machine_authorized := w.(wn_machine_authorized); wn_capabilities := w.(wn_capabilities) |}.

Definition set_routes (allowed : option (list text)) (primary : list text) (w : WireNode) : WireNode :=
  {| wn_id := w.(wn_id); wn_stable_id := w.(wn_stable_id); wn_name := w.(wn_name);
     wn_user := w.(wn_user); wn_key := w.(wn_key); wn_machine := w.(wn_machine);
     wn_disco_key := w.(wn_disco_key); wn_addresses := w.(wn_addresses);
     wn_allowed_ips := allowed; wn_endpoints := w.(wn_endpoints);
     wn_home_derp := w.(wn_home_derp); wn_hostinfo := w.(wn_hostinfo);
     wn_created := w.(wn_created); wn_cap := w.(wn_cap); wn_tags := w.(wn_tags);
     wn_cap_map := w.(wn_cap_map); wn_primary_routes := primary;
     wn_last_seen := w.(wn_last_seen); wn_online := w.(wn_online);
     wn_machine_authorized := w.(wn_machine_authorized); wn_capabilities := w.(wn_capabilities) |}.

(** What a client does with a patch: every field it carries replaces the
    node's; the wire node has no key expiry to replace. *)
Definition apply_patch (c : PeerChange) (w : WireNode) : WireNode :=
  {| wn_id := w.(wn_id); wn_stable_id := w.(wn_stable_id); wn_name := w.(wn_name);
     wn_user := w.(wn_user); wn_key := default w.(wn_key) c.(ch_key); wn_machine := w.(wn_machine);
     wn_disco_key := default w.(wn_disco_key) c.(ch_disco_key); wn_addresses := w.(wn_addresses);
     wn_allowed_ips := w.(wn_allowed_ips);
     wn_endpoints := default w.(wn_endpoints) c.(ch_endpoints);
     wn_home_derp := default w.(wn_home_derp) c.(ch_derp_region); wn_hostinfo := w.(wn_hostinfo);
     wn_created := w.(wn_created); wn_cap := default w.(wn_cap) c.(ch_cap); wn_tags := w.(wn_tags);
     wn_cap_map := w.(wn_cap_map); wn_primary_routes := w.(wn_primary_routes);
     wn_last_seen := match c.(ch_last_seen) with Some t => Some t | None => w.(wn_last_seen) end;
     wn_online := match c.(ch_online) with Some b => Some b | None => w.(wn_online) end;
     wn_machine_authorized := w.(wn_machine_authorized); wn_capabilities := w.(wn_capabilities) |}.
