(* ===== verification/PreAuth.v ===== *)
(** * Pre-auth keys and time stamps

    [crabscale-control/src/preauth.rs] and [time.rs].  Hexadecimal text, the
    BLAKE2b digest and the RFC 3339 parser belong to libraries: they are the
    operations of a class, and what the code relies on are the laws of
    another. *)

From S2P Require Import Prelude Text.

Class KeyCrypto : Type := {
  hex_encode : bytes → text;
  hex_decode : text → option bytes;
  (** The digest of a salt followed by the secret's bytes. *)
  blake2b512 : bytes → text → bytes;
}.

Class KeyCryptoLaws (C : KeyCrypto) : Prop := {
  hex_decode_encode b : wf_bytes b → hex_decode (hex_encode b) = Some b;
  hex_encode_length b : zlen (hex_encode b) = 2 * zlen b;
  (** Hexadecimal digits only: no separator of the formats below. *)
  hex_encode_plain b c : wf_bytes b → c ∈ hex_encode b → is_ascii_alphanumeric c = true;
  blake2b512_wf salt secret : wf_bytes (blake2b512 salt secret);
}.

(** [DateTime::parse_from_rfc3339(s)], as Unix seconds. *)
Class Rfc3339 : Type := { parse_from_rfc3339 : text → option Z }.

Definition AUTH_KEY_PREFIX : text := str "hskey-auth-".
Definition SECRET_BYTES : Z := 32.

Section preauth.
  Context `{C : KeyCrypto}.

(** [random] is what the generator filled in: [SECRET_BYTES] bytes. *)
Definition generate_secret (random : bytes) : text := hex_encode random.

Definition format_auth_key (prefix secret : text) : text :=
  AUTH_KEY_PREFIX ++ prefix ++ [45] ++ secret.

Definition parse_auth_key (key : text) : option (text * text) :=
  rest ← strip_prefix AUTH_KEY_PREFIX key;
  '(prefix, secret) ← split_once 45 rest;
  if bool_decide (prefix = []) || bool_decide (secret = []) then None else Some (prefix, secret).

Definition hash_secret (salt : bytes) (secret : text) : text :=
  hex_encode salt ++ [36] ++ hex_encode (blake2b512 salt secret).

Definition verify_secret (secret stored : text) : bool :=
  match split_once 36 stored with
  | None => false
  | Some (salt_hex, hash_hex) =>
      match hex_decode salt_hex with
      | None => false
      | Some salt => bool_decide (hex_encode (blake2b512 salt secret) = hash_hex)
      end
  end.

(** ** Lemmas *)

(** A key splits at its first dash: it is read back whatever its secret is. *)
Lemma parse_auth_key_spec key prefix secret :
  parse_auth_key key = Some (prefix, secret) ↔
  key = format_auth_key prefix secret ∧ 45 ∉ prefix ∧ prefix ≠ [] ∧ secret ≠ [].
Proof.
  unfold parse_auth_key, format_auth_key. split.
  - intros (rest & ->%strip_prefix_Some & Hs)%bind_Some.
    apply bind_Some in Hs as ([p s] & [-> Hp]%split_once_spec & Hs).
    do 2 case_bool_decide; simplify_eq/=; done.
  - intros (-> & Hp & Hn & Hs). rewrite strip_prefix_app. cbn [mbind option_bind].
    rewrite (proj2 (split_once_spec 45 (prefix ++ [45] ++ secret) prefix secret)) by done.
    cbn [mbind option_bind]. by rewrite !bool_decide_eq_false_2.
Qed.

Context `{!KeyCryptoLaws C}.

Lemma hex_no_dollar b : wf_bytes b → 36 ∉ hex_encode b.
Proof. intros Hb Hc. by apply (hex_encode_plain _ 36 Hb) in Hc. Qed.

Lemma hex_encode_inj a b : wf_bytes a → wf_bytes b → hex_encode a = hex_encode b → a = b.
Proof.
  intros Ha Hb E. apply (f_equal hex_decode) in E.
  rewrite !hex_decode_encode in E by done. by simplify_eq.
Qed.

(** A stored hash accepts the secrets with the same digest under its salt, the
    hashed one among them. *)
Lemma verify_hash salt secret secret' :
  wf_bytes salt →
  verify_secret secret' (hash_secret salt secret) = true ↔
  blake2b512 salt secret' = blake2b512 salt secret.
Proof.
  intros Hsalt. unfold verify_secret, hash_secret.
  rewrite (proj2 (split_once_spec 36 (hex_encode salt ++ [36] ++ hex_encode (blake2b512 salt secret))
                   (hex_encode salt) _)) by (split; [done|by apply hex_no_dollar]).
  rewrite hex_decode_encode, bool_decide_eq_true by done.
  split; [apply hex_encode_inj; apply blake2b512_wf|by intros ->].
Qed.

Lemma generate_secret_nonempty random : zlen random = SECRET_BYTES → generate_secret random ≠ [].
Proof.
  intros Hr E. pose proof (hex_encode_length random) as Hl. unfold generate_secret in E.
  rewrite E, Hr in Hl. done.
Qed.

End preauth.

(** ** Time *)

Section time.
  Context `{Rfc3339}.

Definition parse_rfc3339 (s : text) : option Z := parse_from_rfc3339 (trim s).

Definition is_past (ts now : text) : bool :=
  match parse_rfc3339 ts, parse_rfc3339 now with
  | Some a, Some b => a <? b
  | _, _ => false
  end.

Definition is_future (ts now : text) : bool :=
  match parse_rfc3339 ts, parse_rfc3339 now with
  | Some a, Some b => b <? a
  | _, _ => false
  end.

End time.
