(* ===== verification/Store.v ===== *)
(** * The store ([crabscale-control/src/store.rs])

    The tables of the SQLite store as finite maps from row ids to rows, and
    one definition per operation of the [Store] trait, translated from its SQL
    statement and from the schema: primary keys, [UNIQUE] columns, foreign
    keys, [ON CONFLICT .. DO UPDATE], [ORDER BY], and the connection's
    [last_insert_rowid], which only an [INSERT] that adds a row changes.  A
    column holds the value whose text form the code writes and reads back (key
    strings, JSON).  How SQLite picks a row id is the class [Sqlite], with the
    documented laws in [SqliteLaws].

    Each operation runs under the connection's lock: it is one step. *)

From S2P Require Import Prelude Text NetMap Pending.

Inductive SqliteError : Type := UniqueConstraint | ForeignKeyConstraint | DatabaseFull.

Inductive StoreError : Type :=
| StoreNotFound
| AlreadyExists
| SqliteErr (e : SqliteError)
| JsonErr
| IoErr.

#[global] Instance SqliteError_eq_dec : EqDecision SqliteError.
Proof. solve_decision. Defined.
#[global] Instance StoreError_eq_dec : EqDecision StoreError.
Proof. solve_decision. Defined.

Class Sqlite : Type := {
  (** The row id of an insertion that names none, from the ids in use. *)
  next_rowid : gset Z → option Z;
  (** The text of an error. *)
  sqlite_text : SqliteError → text;
}.

(** "If no ROWID is specified on the insert [...] the ROWID is one more than
    the largest ROWID in use; if the table is empty, 1; if the largest ROWID
    is the largest possible integer, unused ROWIDs are tried at random."  A
    ROWID is a 64-bit signed integer. *)
Class SqliteLaws (S : Sqlite) : Prop := {
  next_rowid_empty : next_rowid ∅ = Some 1;
  next_rowid_largest u m :
    m ∈ u → (∀ i, i ∈ u → i ≤ m) → 0 ≤ m < 2 ^ 63 - 1 → next_rowid u = Some (m + 1);
  next_rowid_unused u i : next_rowid u = Some i → i ∉ u;
  next_rowid_positive u i : (∀ j, j ∈ u → 0 < j) → next_rowid u = Some i → 0 < i;
  next_rowid_range u i : next_rowid u = Some i → - 2 ^ 63 ≤ i < 2 ^ 63;
}.

Abbreviation PendingRow := (PendingRegistration Hostinfo).

Record Store : Type := {
  st_users : gmap Z User;
  st_logins : gmap Z Login;
  st_nodes : gmap Z DomainNode;
  st_keys : gmap Z PreAuthKey;
  st_policies : gmap Z PolicyDoc;
  st_sessions : gmap Z SessionRow;
  st_pending : gmap Z PendingRow;
  st_ssh : gmap Z SshAuth;
  st_last_rowid : Z;
}.

Definition Store_empty : Store :=
  {| st_users := ∅; st_logins := ∅; st_nodes := ∅; st_keys := ∅; st_policies := ∅;
     st_sessions := ∅; st_pending := ∅; st_ssh := ∅; st_last_rowid := 0 |}.

Definition with_users t s : Store :=
  {| st_users := t; st_logins := s.(st_logins); st_nodes := s.(st_nodes); st_keys := s.(st_keys);
     st_policies := s.(st_policies); st_sessions := s.(st_sessions); st_pending := s.(st_pending);
     st_ssh := s.(st_ssh); st_last_rowid := s.(st_last_rowid) |}.
Definition with_logins t s : Store :=
  {| st_users := s.(st_users); st_logins := t; st_nodes := s.(st_nodes); st_keys := s.(st_keys);
     st_policies := s.(st_policies); st_sessions := s.(st_sessions); st_pending := s.(st_pending);
     st_ssh := s.(st_ssh); st_last_rowid := s.(st_last_rowid) |}.
Definition with_nodes t s : Store :=
  {| st_users := s.(st_users); st_logins := s.(st_logins); st_nodes := t; st_keys := s.(st_keys);
     st_policies := s.(st_policies); st_sessions := s.(st_sessions); st_pending := s.(st_pending);
     st_ssh := s.(st_ssh); st_last_rowid := s.(st_last_rowid) |}.
Definition with_keys t s : Store :=
  {| st_users := s.(st_users); st_logins := s.(st_logins); st_nodes := s.(st_nodes); st_keys := t;
     st_policies := s.(st_policies); st_sessions := s.(st_sessions); st_pending := s.(st_pending);
     st_ssh := s.(st_ssh); st_last_rowid := s.(st_last_rowid) |}.
Definition with_policies t s : Store :=
  {| st_users := s.(st_users); st_logins := s.(st_logins); st_nodes := s.(st_nodes);
     st_keys := s.(st_keys); st_policies := t; st_sessions := s.(st_sessions);
     st_pending := s.(st_pending); st_ssh := s.(st_ssh); st_last_rowid := s.(st_last_rowid) |}.
Definition with_sessions t s : Store :=
  {| st_users := s.(st_users); st_logins := s.(st_logins); st_nodes := s.(st_nodes);
     st_keys := s.(st_keys); st_policies := s.(st_policies); st_sessions := t;
     st_pending := s.(st_pending); st_ssh := s.(st_ssh); st_last_rowid := s.(st_last_rowid) |}.
Definition with_pending t s : Store :=
  {| st_users := s.(st_users); st_logins := s.(st_logins); st_nodes := s.(st_nodes);
     st_keys := s.(st_keys); st_policies := s.(st_policies); st_sessions := s.(st_sessions);
     st_pending := t; st_ssh := s.(st_ssh); st_last_rowid := s.(st_last_rowid) |}.
Definition with_ssh t s : Store :=
  {| st_users := s.(st_users); st_logins := s.(st_logins); st_nodes := s.(st_nodes);
     st_keys := s.(st_keys); st_policies := s.(st_policies); st_sessions := s.(st_sessions);
     st_pending := s.(st_pending); st_ssh := t; st_last_rowid := s.(st_last_rowid) |}.
Definition with_rowid i s : Store :=
  {| st_users := s.(st_users); st_logins := s.(st_logins); st_nodes := s.(st_nodes);
     st_keys := s.(st_keys); st_policies := s.(st_policies); st_sessions := s.(st_sessions);
     st_pending := s.(st_pending); st_ssh := s.(st_ssh); st_last_rowid := i |}.

(** ** Statements *)

(** [SELECT .. FROM t ORDER BY id] *)
Definition rows {A} (t : gmap Z A) : list A := omap (λ i, t !! i) (sorted_keys t).

(** [SELECT .. FROM t WHERE p] and the first row of it ([query_row]). *)
Definition select {A} (p : A → bool) (t : gmap Z A) : list A := List.filter p (rows t).
Definition query_row {A} (p : A → bool) (t : gmap Z A) : option A := head (select p t).

(** The id of the row a [UNIQUE] column identifies. *)
Definition row_id {A} (p : A → bool) (t : gmap Z A) : option Z :=
  head (List.filter (λ i, match t !! i with Some r => p r | None => false end) (sorted_keys t)).

(** Some row other than [except] satisfies [p]. *)
Definition taken {A} (p : A → bool) (except : option Z) (t : gmap Z A) : bool :=
  existsb (λ i, negb (bool_decide (except = Some i))
                && match t !! i with Some r => p r | None => false end) (sorted_keys t).

(** What a statement returns: the store is unchanged when it fails. *)
Abbreviation sql A := (Store → Store * result A StoreError).

(** [ORDER BY created_at] of the SSH records *)
Definition created_le (a b : SshAuth) : Prop := text_le a.(sh_created_at) b.(sh_created_at).

#[global] Instance created_le_dec : RelDecision created_le.
Proof. intros a b. unfold created_le. apply _. Defined.

Section store.
  Context `{Q : Sqlite}.

(** [INSERT INTO t (id, ..)]: the row id given or chosen. *)
Definition insert_row {A} (t : gmap Z A) (id : option Z) (row : Z → A)
    : result (Z * gmap Z A) SqliteError :=
  match id with
  | Some i => match t !! i with
              | Some _ => Err UniqueConstraint
              | None => Ok (i, <[i := row i]> t)
              end
  | None => match next_rowid (dom t) with
            | Some i => Ok (i, <[i := row i]> t)
            | None => Err DatabaseFull
            end
  end.

Definition id_param (id : Z) : option Z := if id =? 0 then None else Some id.

(** ** Users and logins *)

Definition create_user (u : User) : sql User := λ s,
  if taken (λ r, bool_decide (r.(user_login_name) = u.(user_login_name))) None s.(st_users)
  then (s, Err (SqliteErr UniqueConstraint))
  else
    let row i := {| user_id := i; user_login_name := u.(user_login_name);
                    user_display_name := u.(user_display_name);
                    user_created_at := u.(user_created_at) |} in
    match insert_row s.(st_users) (id_param u.(user_id)) row with
    | Err e => (s, Err (SqliteErr e))
    | Ok (i, t) => (with_rowid i (with_users t s), Ok (row i))
    end.

Definition get_user (id : Z) (s : Store) : option User := s.(st_users) !! id.

Definition get_user_by_login_name (name : text) (s : Store) : option User :=
  query_row (λ r, bool_decide (r.(user_login_name) = name)) s.(st_users).

Definition create_login (l : Login) : sql Login := λ s,
  if taken (λ r, bool_decide (r.(login_provider) = l.(login_provider))
                 && bool_decide (r.(login_name) = l.(login_name))) None s.(st_logins)
  then (s, Err (SqliteErr UniqueConstraint))
  else
    let row i := {| login_id := i; login_user_id := l.(login_user_id);
                    login_provider := l.(login_provider); login_name := l.(login_name);
                    login_created_at := l.(login_created_at) |} in
    match insert_row s.(st_logins) (id_param l.(login_id)) row with
    | Err e => (s, Err (SqliteErr e))
    | Ok (i, t) =>
        match s.(st_users) !! l.(login_user_id) with
        | None => (s, Err (SqliteErr ForeignKeyConstraint))
        | Some _ => (with_rowid i (with_logins t s), Ok (row i))
        end
    end.

Definition get_login (id : Z) (s : Store) : option Login := s.(st_logins) !! id.

Definition get_login_by_provider_subject (provider subject : text) (s : Store) : option Login :=
  query_row (λ r, bool_decide (r.(login_provider) = provider)
                  && bool_decide (r.(login_name) = subject)) s.(st_logins).

Definition update_user_display_name (id : Z) (display_name : text) : sql unit := λ s,
  match s.(st_users) !! id with
  | None => (s, Err StoreNotFound)
  | Some u =>
      let u' := {| user_id := u.(user_id); user_login_name := u.(user_login_name);
                   user_display_name := display_name; user_created_at := u.(user_created_at) |} in
      (with_users (<[id := u']> s.(st_users)) s, Ok ())
  end.

(** ** Nodes *)

Definition by_node_key (k : bytes) (n : DomainNode) : bool := bool_decide (n.(dn_node_key) = k).
Definition by_stable_id (sid : text) (n : DomainNode) : bool := bool_decide (n.(dn_stable_id) = sid).

(** [format!("n{id:023}")]: the sign counts in the width. *)
Definition show_stable_id (id : Z) : text :=
  let digits := show_uint (Z.abs id) in
  let sign := if id <? 0 then [45] else [] in
  str "n" ++ sign ++ replicate (23 - length sign - length digits) 48 ++ digits.

Definition owner_exists (n : DomainNode) (s : Store) : bool :=
  match n.(dn_user_id) with
  | None => true
  | Some u => match s.(st_users) !! u with Some _ => true | None => false end
  end.

(** The [INSERT .. ON CONFLICT(node_key) DO UPDATE]: the conflict target is
    looked at first, and the updated row keeps its id. *)
Definition upsert_statement (n : DomainNode) : sql unit := λ s,
  match row_id (by_node_key n.(dn_node_key)) s.(st_nodes) with
  | Some i =>
      if taken (by_stable_id n.(dn_stable_id)) (Some i) s.(st_nodes)
      then (s, Err (SqliteErr UniqueConstraint))
      else if negb (owner_exists n s) then (s, Err (SqliteErr ForeignKeyConstraint))
      else (with_nodes (<[i := set_dn_id i n]> s.(st_nodes)) s, Ok ())
  | None =>
      if taken (by_stable_id n.(dn_stable_id)) None s.(st_nodes)
      then (s, Err (SqliteErr UniqueConstraint))
      else
        match insert_row s.(st_nodes) None (λ i, set_dn_id i n) with
        | Err e => (s, Err (SqliteErr e))
        | Ok (i, t) =>
            if negb (owner_exists n s) then (s, Err (SqliteErr ForeignKeyConstraint))
            else (with_rowid i (with_nodes t s), Ok ())
        end
  end.

(** [UPDATE nodes SET stable_id = sid WHERE id = id] *)
Definition update_stable_id (sid : text) (id : Z) : sql unit := λ s,
  match s.(st_nodes) !! id with
  | None => (s, Ok ())
  | Some r =>
      if taken (by_stable_id sid) (Some id) s.(st_nodes)
      then (s, Err (SqliteErr UniqueConstraint))
      else (with_nodes (<[id := set_dn_stable_id sid r]> s.(st_nodes)) s, Ok ())
  end.

Definition upsert_node (n : DomainNode) : sql DomainNode := λ s,
  match upsert_statement n s with
  | (s, Err e) => (s, Err e)
  | (s, Ok _) =>
      let id := if n.(dn_id) =? 0 then s.(st_last_rowid) else n.(dn_id) in
      if bool_decide (n.(dn_stable_id) = []) then
        let sid := show_stable_id id in
        match update_stable_id sid id s with
        | (s, Err e) => (s, Err e)
        | (s, Ok _) => (s, Ok (set_dn_stable_id sid (set_dn_id id n)))
        end
      else (s, Ok (set_dn_id id n))
  end.

Definition get_node_by_node_key (k : bytes) (s : Store) : option DomainNode :=
  query_row (by_node_key k) s.(st_nodes).

Definition get_node_by_machine_key (k : bytes) (s : Store) : option DomainNode :=
  query_row (λ n, bool_decide (n.(dn_machine_key) = k)) s.(st_nodes).

Definition get_node_by_id (id : Z) (s : Store) : option DomainNode := s.(st_nodes) !! id.

Definition list_nodes (s : Store) : list DomainNode := rows s.(st_nodes).

(** A row that a session references cannot be deleted. *)
Definition delete_node (k : bytes) : sql unit := λ s,
  match row_id (by_node_key k) s.(st_nodes) with
  | None => (s, Err StoreNotFound)
  | Some i =>
      if taken (λ r, bool_decide (r.(sr_node_id) = i)) None s.(st_sessions)
      then (s, Err (SqliteErr ForeignKeyConstraint))
      else (with_nodes (delete i s.(st_nodes)) s, Ok ())
  end.

(** ** Pre-auth keys *)

Definition by_prefix (p : text) (k : PreAuthKey) : bool := bool_decide (k.(ak_prefix) = p).

Definition set_ak_id (i : Z) (k : PreAuthKey) : PreAuthKey :=
  {| ak_id := i; ak_prefix := k.(ak_prefix); ak_secret_hash := k.(ak_secret_hash);
     ak_reusable := k.(ak_reusable); ak_ephemeral := k.(ak_ephemeral);
     ak_expiration := k.(ak_expiration); ak_revoked := k.(ak_revoked); ak_used := k.(ak_used);
     ak_tags := k.(ak_tags); ak_user_id := k.(ak_user_id); ak_created_at := k.(ak_created_at) |}.

Definition set_ak_flags (revoked used : bool) (k : PreAuthKey) : PreAuthKey :=
  {| ak_id := k.(ak_id); ak_prefix := k.(ak_prefix); ak_secret_hash := k.(ak_secret_hash);
     ak_reusable := k.(ak_reusable); ak_ephemeral := k.(ak_ephemeral);
     ak_expiration := k.(ak_expiration); ak_revoked := revoked; ak_used := used;
     ak_tags := k.(ak_tags); ak_user_id := k.(ak_user_id); ak_created_at := k.(ak_created_at) |}.

Definition insert_pre_auth_key (k : PreAuthKey) : sql PreAuthKey := λ s,
  if taken (by_prefix k.(ak_prefix)) None s.(st_keys)
  then (s, Err (SqliteErr UniqueConstraint))
  else
    match insert_row s.(st_keys) None (λ i, set_ak_id i k) with
    | Err e => (s, Err (SqliteErr e))
    | Ok (i, t) =>
        match s.(st_users) !! k.(ak_user_id) with
        | None => (s, Err (SqliteErr ForeignKeyConstraint))
        | Some _ => (with_rowid i (with_keys t s), Ok (set_ak_id i k))
        end
    end.

Definition get_pre_auth_key (prefix : text) (s : Store) : option PreAuthKey :=
  query_row (by_prefix prefix) s.(st_keys).

Definition mark_pre_auth_key_used (id : Z) : sql unit := λ s,
  match s.(st_keys) !! id with
  | None => (s, Err StoreNotFound)
  | Some k => (with_keys (<[id := set_ak_flags k.(ak_revoked) true k]> s.(st_keys)) s, Ok ())
  end.

Definition list_pre_auth_keys (s : Store) : list PreAuthKey := rows s.(st_keys).

Definition revoke_pre_auth_key (prefix : text) : sql unit := λ s,
  match row_id (by_prefix prefix) s.(st_keys) with
  | None => (s, Err StoreNotFound)
  | Some i =>
      (with_keys (alter (λ k, set_ak_flags true k.(ak_used) k) i s.(st_keys)) s, Ok ())
  end.

(** ** Policies and sessions *)

Definition by_name (n : text) (d : PolicyDoc) : bool := bool_decide (d.(doc_name) = n).

Definition set_doc_id (i : Z) (d : PolicyDoc) : PolicyDoc :=
  {| doc_id := i; doc_name := d.(doc_name); doc_body := d.(doc_body);
     doc_created_at := d.(doc_created_at) |}.

Definition save_policy (d : PolicyDoc) : sql PolicyDoc := λ s,
  let finish s := (s, Ok (set_doc_id (if d.(doc_id) =? 0 then s.(st_last_rowid) else d.(doc_id)) d)) in
  match row_id (by_name d.(doc_name)) s.(st_policies) with
  | Some i => finish (with_policies (<[i := set_doc_id i d]> s.(st_policies)) s)
  | None =>
      match insert_row s.(st_policies) None (λ i, set_doc_id i d) with
      | Err e => (s, Err (SqliteErr e))
      | Ok (i, t) => finish (with_rowid i (with_policies t s))
      end
  end.

Definition get_policy (name : text) (s : Store) : option PolicyDoc :=
  query_row (by_name name) s.(st_policies).

Definition create_session (r : SessionRow) : sql SessionRow := λ s,
  let row i := {| sr_id := i; sr_node_id := r.(sr_node_id); sr_machine_key := r.(sr_machine_key);
                  sr_created_at := r.(sr_created_at); sr_last_seen := r.(sr_last_seen);
                  sr_closed_at := r.(sr_closed_at) |} in
  match insert_row s.(st_sessions) None row with
  | Err e => (s, Err (SqliteErr e))
  | Ok (i, t) =>
      match s.(st_nodes) !! r.(sr_node_id) with
      | None => (s, Err (SqliteErr ForeignKeyConstraint))
      | Some _ => (with_rowid i (with_sessions t s), Ok (row i))
      end
  end.

Definition get_session (id : Z) (s : Store) : option SessionRow := s.(st_sessions) !! id.

Definition delete_session (id : Z) : sql unit := λ s,
  match s.(st_sessions) !! id with
  | None => (s, Err StoreNotFound)
  | Some _ => (with_sessions (delete id s.(st_sessions)) s, Ok ())
  end.

(** ** Pending registrations *)

Definition by_auth_id (a : text) (p : PendingRow) : bool := bool_decide (p.(p_auth_id) = a).

Definition save_pending (p : PendingRow) : sql unit := λ s,
  match row_id (by_auth_id p.(p_auth_id)) s.(st_pending) with
  | Some i => (with_pending (<[i := p]> s.(st_pending)) s, Ok ())
  | None =>
      match insert_row s.(st_pending) None (λ _, p) with
      | Err e => (s, Err (SqliteErr e))
      | Ok (i, t) => (with_rowid i (with_pending t s), Ok ())
      end
  end.

Definition get_pending (auth_id : text) (s : Store) : option PendingRow :=
  query_row (by_auth_id auth_id) s.(st_pending).

Definition delete_pending (auth_id : text) : sql unit := λ s,
  match row_id (by_auth_id auth_id) s.(st_pending) with
  | Some i => (with_pending (delete i s.(st_pending)) s, Ok ())
  | None => (s, Ok ())
  end.

(** ** SSH records *)

Definition by_ssh_id (a : text) (r : SshAuth) : bool := bool_decide (r.(sh_auth_id) = a).

Definition save_ssh_auth (r : SshAuth) : sql unit := λ s,
  match row_id (by_ssh_id r.(sh_auth_id)) s.(st_ssh) with
  | Some i => (with_ssh (<[i := r]> s.(st_ssh)) s, Ok ())
  | None =>
      match insert_row s.(st_ssh) None (λ _, r) with
      | Err e => (s, Err (SqliteErr e))
      | Ok (i, t) => (with_rowid i (with_ssh t s), Ok ())
      end
  end.

Definition get_ssh_auth (auth_id : text) (s : Store) : option SshAuth :=
  query_row (by_ssh_id auth_id) s.(st_ssh).

(** SQL leaves the order of equal times open. *)
Definition list_ssh_auths (s : Store) : list SshAuth := merge_sort created_le (rows s.(st_ssh)).

Definition delete_ssh_auth (auth_id : text) : sql unit := λ s,
  match row_id (by_ssh_id auth_id) s.(st_ssh) with
  | Some i => (with_ssh (delete i s.(st_ssh)) s, Ok ())
  | None => (s, Ok ())
  end.

End store.

(** ** Rows and conditions *)

Lemma elem_of_rows {A} (t : gmap Z A) r : r ∈ rows t ↔ ∃ i, t !! i = Some r.
Proof.
  unfold rows. rewrite list_elem_of_omap. split.
  - intros (i & _ & Hi). by exists i.
  - intros [i Hi]. exists i. split; [|done]. apply elem_of_sorted_keys. by exists r.
Qed.

Lemma query_row_id {A} p (t : gmap Z A) : query_row p t = i ← row_id p t; t !! i.
Proof.
  unfold query_row, select, row_id, rows.
  assert (Hk : ∀ i, i ∈ sorted_keys t → is_Some (t !! i)) by (intros i; apply elem_of_sorted_keys).
  induction (sorted_keys t) as [|i l IH]; [done|]. cbn [omap list_omap List.filter].
  destruct (Hk i) as [r Hr]; [by left|]. rewrite Hr. cbn [List.filter].
  destruct (p r); [by cbn; rewrite Hr|]. apply IH. intros j Hj. apply Hk. by right.
Qed.

Lemma row_id_Some {A} p (t : gmap Z A) i :
  row_id p t = Some i → ∃ r, t !! i = Some r ∧ p r = true.
Proof.
  unfold row_id. intros Hh. apply head_Some_elem_of in Hh.
  apply list_elem_of_In, filter_In in Hh as [_ Hp]. destruct (t !! i) as [r|]; [by exists r|done].
Qed.

Lemma row_id_None {A} p (t : gmap Z A) :
  row_id p t = None ↔ ∀ i r, t !! i = Some r → p r = false.
Proof.
  unfold row_id. split.
  - intros Hh i r Hi. apply not_true_is_false. intros Hp.
    assert (Hin : In i (List.filter (λ i, match t !! i with Some r => p r | None => false end)
                          (sorted_keys t))).
    { apply filter_In. split; [|by rewrite Hi]. apply list_elem_of_In, elem_of_sorted_keys. by exists r. }
    by destruct (List.filter _ _).
  - intros Ha. destruct (List.filter _ _) as [|i l] eqn:E; [done|].
    assert (Hin : In i (i :: l)) by (by left). rewrite <- E in Hin. apply filter_In in Hin as [_ Hp].
    destruct (t !! i) as [r|] eqn:Hi; [|done]. by rewrite (Ha i r Hi) in Hp.
Qed.

Lemma taken_false {A} p ex (t : gmap Z A) :
  taken p ex t = false ↔ ∀ i r, ex ≠ Some i → t !! i = Some r → p r = false.
Proof.
  unfold taken. rewrite <- not_true_iff_false, existsb_exists. split.
  - intros Hn i r Hex Hi. apply not_true_is_false. intros Hp. apply Hn. exists i. split.
    + apply list_elem_of_In, elem_of_sorted_keys. by exists r.
    + by rewrite bool_decide_eq_false_2, Hi.
  - intros Ha (i & _ & [Hex Hp]%andb_true_iff). apply negb_true_iff, bool_decide_eq_false in Hex.
    destruct (t !! i) as [r|] eqn:Hi; [|done]. by rewrite (Ha i r Hex Hi) in Hp.
Qed.

Lemma alter_row {A} (f : A → A) (t : gmap Z A) i a :
  t !! i = Some a → alter f i t = <[i := f a]> t.
Proof.
  intros Ha. apply map_eq. intros j. destruct (decide (i = j)) as [<-|Hj].
  - by rewrite lookup_alter_eq, lookup_insert_eq, Ha.
  - by rewrite lookup_alter_ne, lookup_insert_ne.
Qed.

(** ** Integrity *)

(** A column whose values identify the row. *)
Definition unique_on {A B} (f : A → B) (t : gmap Z A) : Prop :=
  ∀ i j a b, t !! i = Some a → t !! j = Some b → f a = f b → i = j.

(** The rows of a table carry their row id. *)
Definition ids_ok {A} (f : A → Z) (t : gmap Z A) : Prop := ∀ i a, t !! i = Some a → f a = i.

Lemma unique_on_insert {A B} (f : A → B) (t : gmap Z A) i a :
  unique_on f t → (∀ j b, i ≠ j → t !! j = Some b → f b ≠ f a) → unique_on f (<[i := a]> t).
Proof.
  intros Hu Hn x y b c. rewrite !lookup_insert_Some. intros [[<- <-]|[Hx Hb]] [[<- <-]|[Hy Hc]] E.
  - done.
  - by destruct (Hn y c Hy Hc).
  - by destruct (Hn x b Hx Hb).
  - by apply (Hu x y b c).
Qed.

Lemma unique_on_delete {A B} (f : A → B) (t : gmap Z A) i : unique_on f t → unique_on f (delete i t).
Proof. intros Hu x y a b [_ Ha]%lookup_delete_Some [_ Hb]%lookup_delete_Some. by apply Hu. Qed.

Lemma ids_ok_insert {A} (f : A → Z) (t : gmap Z A) i a :
  ids_ok f t → f a = i → ids_ok f (<[i := a]> t).
Proof. intros Ht Ha j b [[<- <-]|[_ Hb]]%lookup_insert_Some; [done|by apply Ht]. Qed.

Lemma ids_ok_delete {A} (f : A → Z) (t : gmap Z A) i : ids_ok f t → ids_ok f (delete i t).
Proof. intros Ht j b [_ Hb]%lookup_delete_Some. by apply Ht. Qed.

Lemma unique_row_id {A B} `{EqDecision B} (f : A → B) (t : gmap Z A) v i :
  unique_on f t →
  row_id (λ r, bool_decide (f r = v)) t = Some i ↔ ∃ r, t !! i = Some r ∧ f r = v.
Proof.
  intros Hu. split.
  - intros (r & Hr & Hp%bool_decide_eq_true)%row_id_Some. by exists r.
  - intros (r & Hr & Hv). destruct (row_id _ t) as [j|] eqn:E.
    + apply row_id_Some in E as (r' & Hr' & Hp%bool_decide_eq_true). f_equal.
      apply (Hu j i r' r); [done..|by rewrite Hp].
    + apply (proj1 (row_id_None _ t) E) in Hr. by rewrite bool_decide_eq_true_2 in Hr.
Qed.

Lemma unique_query_row {A B} `{EqDecision B} (f : A → B) (t : gmap Z A) v r :
  unique_on f t →
  query_row (λ r, bool_decide (f r = v)) t = Some r ↔ ∃ i, t !! i = Some r ∧ f r = v.
Proof.
  intros Hu. rewrite query_row_id, bind_Some. split.
  - intros (i & (r' & Hr' & Hv)%unique_row_id & Hr); [|done]. exists i. split; [done|].
    by simplify_eq.
  - intros (i & Hr & Hv). exists i. split; [|done]. apply unique_row_id; [done|]. by exists r.
Qed.

Record store_inv (s : Store) : Prop := {
  si_user_ids : ids_ok user_id s.(st_users);
  si_node_ids : ids_ok dn_id s.(st_nodes);
  si_key_ids : ids_ok ak_id s.(st_keys);
  si_login_ids : ids_ok login_id s.(st_logins);
  si_policy_ids : ids_ok doc_id s.(st_policies);
  si_session_ids : ids_ok sr_id s.(st_sessions);
  si_user_names : unique_on user_login_name s.(st_users);
  si_logins : unique_on (λ l, (l.(login_provider), l.(login_name))) s.(st_logins);
  si_node_keys : unique_on dn_node_key s.(st_nodes);
  si_stable_ids : unique_on dn_stable_id s.(st_nodes);
  si_prefixes : unique_on ak_prefix s.(st_keys);
  si_policies : unique_on doc_name s.(st_policies);
  si_auth_ids : unique_on p_auth_id s.(st_pending);
  si_ssh_ids : unique_on sh_auth_id s.(st_ssh);
  si_owners i n u : s.(st_nodes) !! i = Some n → n.(dn_user_id) = Some u → is_Some (s.(st_users) !! u);
  si_key_users i k : s.(st_keys) !! i = Some k → is_Some (s.(st_users) !! k.(ak_user_id));
  si_login_users i l : s.(st_logins) !! i = Some l → is_Some (s.(st_users) !! l.(login_user_id));
  si_session_nodes i r : s.(st_sessions) !! i = Some r → is_Some (s.(st_nodes) !! r.(sr_node_id));
}.

(** Every operation of the trait that writes, as one type. *)
Inductive store_op : Type :=
| CreateUser (u : User) | CreateLogin (l : Login)
| UpdateDisplayName (id : Z) (name : text)
| UpsertNode (n : DomainNode) | DeleteNode (k : bytes)
| CreateKey (k : PreAuthKey) | MarkUsed (id : Z) | RevokeKey (prefix : text)
| SavePolicy (d : PolicyDoc) | CreateSession (r : SessionRow) | DeleteSession (id : Z)
| SavePending (p : PendingRow) | DeletePending (auth_id : text)
| SaveSsh (r : SshAuth) | DeleteSsh (auth_id : text).

Definition store_step `{Sqlite} (op : store_op) (s : Store) : Store :=
  match op with
  | CreateUser u => (create_user u s).1
  | CreateLogin l => (create_login l s).1
  | UpdateDisplayName i n => (update_user_display_name i n s).1
  | UpsertNode n => (upsert_node n s).1
  | DeleteNode k => (delete_node k s).1
  | CreateKey k => (insert_pre_auth_key k s).1
  | MarkUsed i => (mark_pre_auth_key_used i s).1
  | RevokeKey p => (revoke_pre_auth_key p s).1
  | SavePolicy d => (save_policy d s).1
  | CreateSession r => (create_session r s).1
  | DeleteSession i => (delete_session i s).1
  | SavePending p => (save_pending p s).1
  | DeletePending a => (delete_pending a s).1
  | SaveSsh r => (save_ssh_auth r s).1
  | DeleteSsh a => (delete_ssh_auth a s).1
  end.

Lemma store_inv_empty : store_inv Store_empty.
Proof.
  split; cbn [Store_empty st_users st_logins st_nodes st_keys st_policies st_sessions st_pending st_ssh];
    repeat intros ?; done.
Qed.

(** The choice SQLite documents, refusing rather than trying at random. *)
Definition max_id (u : gset Z) : Z := foldr Z.max 0 (elements u).

#[global] Instance sqlite_max : Sqlite := {|
  next_rowid u := if max_id u <? 2 ^ 63 - 1 then Some (max_id u + 1) else None;
  sqlite_text e := str "constraint failed" |}.

Lemma max_id_le u i : i ∈ u → i ≤ max_id u.
Proof.
  unfold max_id. rewrite <- elem_of_elements. induction (elements u) as [|x l IH]; [by rewrite elem_of_nil|].
  cbn [foldr]. intros [->|Hi]%elem_of_cons; [lia|]. specialize (IH Hi). lia.
Qed.

(** Row ids are positive. *)
Lemma max_id_in u m : m ∈ u → (∀ i, i ∈ u → i ≤ m) → 0 ≤ m → max_id u = m.
Proof.
  intros Hm Hle Hpos. apply Z.le_antisymm; [|by apply max_id_le]. unfold max_id.
  assert (Hall : Forall (λ i, i ≤ m) (elements u)).
  { apply list.Forall_forall. intros i Hi. by apply Hle, elem_of_elements. }
  induction Hall as [|x l Hx _ IH]; cbn [foldr]; lia.
Qed.

Lemma max_id_nonneg u : 0 ≤ max_id u.
Proof. unfold max_id. induction (elements u); cbn [foldr]; lia. Qed.

#[global] Instance sqlite_max_laws : SqliteLaws sqlite_max.
Proof.
  split; cbn [next_rowid sqlite_max].
  - done.
  - intros u m Hm Hle Hr. rewrite (max_id_in u m) by (done || lia).
    by destruct (Z.ltb_spec m (2 ^ 63 - 1)); [|lia].
  - intros u i. destruct (_ <? _); [|done]. intros [= <-] Hin%max_id_le. lia.
  - intros u i Hpos. destruct (_ <? _); [|done]. intros [= <-].
    pose proof (max_id_nonneg u). lia.
  - intros u i. destruct (Z.ltb_spec (max_id u) (2 ^ 63 - 1)); [|done]. intros [= <-].
    pose proof (max_id_nonneg u). lia.
Qed.

Section integrity.
  Context `{Q : Sqlite, !SqliteLaws Q}.

Lemma insert_row_Ok {A} (t t' : gmap Z A) id row i :
  insert_row t id row = Ok (i, t') → t !! i = None ∧ t' = <[i := row i]> t.
Proof.
  unfold insert_row. destruct id as [j|].
  - destruct (t !! j) eqn:E; [done|]. by intros [= <- <-].
  - destruct (next_rowid (dom t)) as [j|] eqn:E; [|done]. intros [= <- <-]. split; [|done].
    apply next_rowid_unused in E. by apply not_elem_of_dom.
Qed.

(** One table at a time. *)
Lemma inv_users s i u :
  store_inv s → u.(user_id) = i →
  (∀ j v, i ≠ j → s.(st_users) !! j = Some v → v.(user_login_name) ≠ u.(user_login_name)) →
  store_inv (with_users (<[i := u]> s.(st_users)) s).
Proof.
  intros Hs Hi Hn.
  assert (Hk : ∀ k, is_Some (s.(st_users) !! k) → is_Some (<[i := u]> s.(st_users) !! k)).
  { intros k Hk. rewrite lookup_insert_is_Some'. by right. }
  split; cbn [with_users st_users st_logins st_nodes st_keys st_policies st_sessions st_pending st_ssh];
    try apply Hs.
  - by apply ids_ok_insert; [apply Hs|].
  - by apply unique_on_insert; [apply Hs|].
  - intros j n v Hj Hv. by apply Hk, (si_owners s Hs j n).
  - intros j k Hj. by apply Hk, (si_key_users s Hs j).
  - intros j l Hj. by apply Hk, (si_login_users s Hs j).
Qed.

Lemma inv_nodes s i n :
  store_inv s → n.(dn_id) = i →
  (∀ j m, i ≠ j → s.(st_nodes) !! j = Some m → m.(dn_node_key) ≠ n.(dn_node_key)) →
  (∀ j m, i ≠ j → s.(st_nodes) !! j = Some m → m.(dn_stable_id) ≠ n.(dn_stable_id)) →
  owner_exists n s = true →
  store_inv (with_nodes (<[i := n]> s.(st_nodes)) s).
Proof.
  intros Hs Hi Hk Hsid Ho.
  split; cbn [with_nodes st_users st_logins st_nodes st_keys st_policies st_sessions st_pending st_ssh];
    try apply Hs.
  - by apply ids_ok_insert; [apply Hs|].
  - by apply unique_on_insert; [apply Hs|].
  - by apply unique_on_insert; [apply Hs|].
  - intros j m u [[<- <-]|[_ Hm]]%lookup_insert_Some Hu; [|by apply (si_owners s Hs j m)].
    unfold owner_exists in Ho. rewrite Hu in Ho. destruct (st_users s !! u); [by eexists|done].
  - intros j r Hr. rewrite lookup_insert_is_Some'. right. by apply (si_session_nodes s Hs j).
Qed.

Lemma inv_keys s i k :
  store_inv s → k.(ak_id) = i →
  (∀ j m, i ≠ j → s.(st_keys) !! j = Some m → m.(ak_prefix) ≠ k.(ak_prefix)) →
  is_Some (s.(st_users) !! k.(ak_user_id)) →
  store_inv (with_keys (<[i := k]> s.(st_keys)) s).
Proof.
  intros Hs Hi Hp Hu.
  split; cbn [with_keys st_users st_logins st_nodes st_keys st_policies st_sessions st_pending st_ssh];
    try apply Hs.
  - by apply ids_ok_insert; [apply Hs|].
  - by apply unique_on_insert; [apply Hs|].
  - intros j m [[<- <-]|[_ Hm]]%lookup_insert_Some; [done|by apply (si_key_users s Hs j)].
Qed.

Lemma inv_rowid s i : store_inv s → store_inv (with_rowid i s).
Proof. intros Hs. split; apply Hs. Qed.

Lemma taken_ne {A B} `{EqDecision B} (f : A → B) v ex (t : gmap Z A) :
  taken (λ r, bool_decide (f r = v)) ex t = false →
  ∀ j r, ex ≠ Some j → t !! j = Some r → f r ≠ v.
Proof.
  intros Ht j r Hj Hr. apply taken_false with (i := j) (r := r) in Ht; [|done..].
  by apply bool_decide_eq_false in Ht.
Qed.

Lemma inv_create_user u s : store_inv s → store_inv (create_user u s).1.
Proof.
  intros Hs. unfold create_user. destruct (taken _ _ _) eqn:Ht; [done|].
  destruct (insert_row _ _ _) as [[i t]|] eqn:Hi; [|done].
  apply insert_row_Ok in Hi as [_ ->]. cbn [fst]. apply inv_rowid, inv_users; [done..|].
  intros j v _ Hv. by apply (taken_ne user_login_name _ None (st_users s) Ht j v).
Qed.

Lemma inv_create_login l s : store_inv s → store_inv (create_login l s).1.
Proof.
  intros Hs. unfold create_login. destruct (taken _ _ _) eqn:Ht; [done|].
  destruct (insert_row _ _ _) as [[i t]|] eqn:Hi; [|done].
  apply insert_row_Ok in Hi as [_ ->].
  destruct (st_users s !! login_user_id l) eqn:Hu; [|done]. cbn [fst]. apply inv_rowid.
  split; cbn [with_logins st_users st_logins st_nodes st_keys st_policies st_sessions st_pending st_ssh];
    try apply Hs.
  - by apply ids_ok_insert; [apply Hs|].
  - apply unique_on_insert; [apply Hs|]. intros j r _ Hr [= E1 E2].
    apply taken_false with (i := j) (r := r) in Ht; [|done..].
    by rewrite !bool_decide_eq_true_2 in Ht.
  - intros j r [[<- <-]|[_ Hr]]%lookup_insert_Some; [by eexists|by apply (si_login_users s Hs j)].
Qed.

Lemma inv_update_display i n s : store_inv s → store_inv (update_user_display_name i n s).1.
Proof.
  intros Hs. unfold update_user_display_name. destruct (st_users s !! i) as [u|] eqn:Hu; [|done].
  cbn [fst]. apply inv_users; [done|apply (si_user_ids s Hs i u Hu)|]. cbn [user_login_name].
  intros j v Hj Hv E. by destruct Hj, (si_user_names s Hs i j u v).
Qed.

Lemma inv_upsert_statement n s : store_inv s → store_inv (upsert_statement n s).1.
Proof.
  intros Hs. unfold upsert_statement.
  destruct (row_id _ _) as [i|] eqn:Hrow.
  - destruct (taken _ _ _) eqn:Ht; [done|]. destruct (owner_exists n s) eqn:Ho; [|done]. cbn [negb fst].
    apply (unique_row_id dn_node_key) in Hrow as (r & Hr & Hk); [|apply Hs].
    apply inv_nodes; cbn [set_dn_id dn_id dn_node_key dn_stable_id]; try done.
    + intros j m Hj Hm E. apply Hj, (si_node_keys s Hs i j r m); congruence.
    + intros j m Hj. apply (taken_ne dn_stable_id _ (Some i) (st_nodes s) Ht). congruence.
  - destruct (taken _ _ _) eqn:Ht; [done|].
    destruct (insert_row _ _ _) as [[i t]|] eqn:Hi; [|done].
    apply insert_row_Ok in Hi as [Hfree ->]. destruct (owner_exists n s) eqn:Ho; [|done].
    cbn [negb fst]. apply inv_rowid, inv_nodes; cbn [set_dn_id dn_id dn_node_key dn_stable_id]; try done.
    + intros j m _ Hm. apply (proj1 (row_id_None _ _) Hrow) in Hm. by apply bool_decide_eq_false in Hm.
    + intros j m _. by apply (taken_ne dn_stable_id _ None (st_nodes s) Ht).
Qed.

Lemma inv_update_stable_id sid i s : store_inv s → store_inv (update_stable_id sid i s).1.
Proof.
  intros Hs. unfold update_stable_id. destruct (st_nodes s !! i) as [r|] eqn:Hr; [|done].
  destruct (taken _ _ _) eqn:Ht; [done|]. cbn [fst].
  apply inv_nodes; cbn [set_dn_stable_id dn_id dn_node_key dn_stable_id]; try done.
  - exact (si_node_ids s Hs i r Hr).
  - intros j m Hj Hm E. by apply Hj, (si_node_keys s Hs i j r m).
  - intros j m Hj. apply (taken_ne dn_stable_id _ (Some i) (st_nodes s) Ht). congruence.
  - unfold owner_exists. cbn [set_dn_stable_id dn_user_id].
    destruct (dn_user_id r) as [u|] eqn:Hu; [|done].
    by destruct (si_owners s Hs i r u Hr Hu) as [? ->].
Qed.

Lemma inv_upsert_node n s : store_inv s → store_inv (upsert_node n s).1.
Proof.
  intros Hs. pose proof (inv_upsert_statement n s Hs) as H1. unfold upsert_node.
  destruct (upsert_statement n s) as [s1 [[]|e]]; [|done]. cbn [fst] in *.
  case_bool_decide; [|done]. set (i := if dn_id n =? 0 then _ else _).
  pose proof (inv_update_stable_id (show_stable_id i) i s1 H1) as H2.
  by destruct (update_stable_id (show_stable_id i) i s1) as [s2 [[]|e]].
Qed.

Lemma inv_delete_node k s : store_inv s → store_inv (delete_node k s).1.
Proof.
  intros Hs. unfold delete_node. destruct (row_id _ _) as [i|]; [|done].
  destruct (taken _ _ _) eqn:Ht; [done|]. cbn [fst].
  split; cbn [with_nodes st_users st_logins st_nodes st_keys st_policies st_sessions st_pending st_ssh];
    try apply Hs.
  - apply ids_ok_delete, Hs.
  - apply unique_on_delete, Hs.
  - apply unique_on_delete, Hs.
  - intros j m u [_ Hm]%lookup_delete_Some. by apply (si_owners s Hs j m).
  - intros j r Hr. rewrite lookup_delete_is_Some. split; [|by apply (si_session_nodes s Hs j)].
    intros E. by apply (taken_ne sr_node_id _ None (st_sessions s) Ht j r).
Qed.

Lemma inv_insert_key k s : store_inv s → store_inv (insert_pre_auth_key k s).1.
Proof.
  intros Hs. unfold insert_pre_auth_key. destruct (taken _ _ _) eqn:Ht; [done|].
  destruct (insert_row _ _ _) as [[i t]|] eqn:Hi; [|done].
  apply insert_row_Ok in Hi as [_ ->].
  destruct (st_users s !! ak_user_id k) eqn:Hu; [|done]. cbn [fst].
  apply inv_rowid, inv_keys; [done..| |by eexists].
  intros j v _ Hv. by apply (taken_ne ak_prefix _ None (st_keys s) Ht j v).
Qed.

Lemma inv_set_flags i k r u s :
  store_inv s → s.(st_keys) !! i = Some k →
  store_inv (with_keys (<[i := set_ak_flags r u k]> s.(st_keys)) s).
Proof.
  intros Hs Hk. apply inv_keys; [done|exact (si_key_ids s Hs i k Hk)| |exact (si_key_users s Hs i k Hk)].
  intros j m Hj Hm E. by apply Hj, (si_prefixes s Hs i j k m).
Qed.

Lemma inv_revoke p s : store_inv s → store_inv (revoke_pre_auth_key p s).1.
Proof.
  intros Hs. unfold revoke_pre_auth_key. destruct (row_id _ _) as [i|] eqn:Hi; [|done].
  apply row_id_Some in Hi as (k & Hk & _). cbn [fst].
  rewrite (alter_row _ _ i k) by done.
  by apply inv_set_flags.
Qed.

Lemma inv_save_policy d s : store_inv s → store_inv (save_policy d s).1.
Proof.
  intros Hs. unfold save_policy. destruct (row_id _ _) as [i|] eqn:Hrow.
  - apply (unique_row_id doc_name) in Hrow as (r & Hr & Hk); [|apply Hs]. cbn [fst].
    split; cbn [with_policies st_users st_logins st_nodes st_keys st_policies st_sessions st_pending st_ssh];
      try apply Hs; [by apply ids_ok_insert; [apply Hs|]|].
    apply unique_on_insert; [apply Hs|]. cbn [set_doc_id doc_name]. intros j m Hj Hm E.
    apply Hj, (si_policies s Hs i j r m); congruence.
  - destruct (insert_row _ _ _) as [[i t]|] eqn:Hi; [|done].
    apply insert_row_Ok in Hi as [_ ->]. cbn [fst]. apply inv_rowid.
    split; cbn [with_policies st_users st_logins st_nodes st_keys st_policies st_sessions st_pending st_ssh];
      try apply Hs; [by apply ids_ok_insert; [apply Hs|]|].
    apply unique_on_insert; [apply Hs|]. cbn [set_doc_id doc_name]. intros j m _ Hm.
    apply (proj1 (row_id_None _ _) Hrow) in Hm. by apply bool_decide_eq_false in Hm.
Qed.

Lemma inv_create_session r s : store_inv s → store_inv (create_session r s).1.
Proof.
  intros Hs. unfold create_session. destruct (insert_row _ _ _) as [[i t]|] eqn:Hi; [|done].
  apply insert_row_Ok in Hi as [_ ->].
  destruct (st_nodes s !! sr_node_id r) eqn:Hu; [|done]. cbn [fst]. apply inv_rowid.
  split; cbn [with_sessions st_users st_logins st_nodes st_keys st_policies st_sessions st_pending st_ssh];
    try apply Hs; [by apply ids_ok_insert; [apply Hs|]|].
  intros j m [[<- <-]|[_ Hm]]%lookup_insert_Some; [by eexists|by apply (si_session_nodes s Hs j)].
Qed.

Lemma inv_delete_session i s : store_inv s → store_inv (delete_session i s).1.
Proof.
  intros Hs. unfold delete_session. destruct (st_sessions s !! i); [|done]. cbn [fst].
  split; cbn [with_sessions st_users st_logins st_nodes st_keys st_policies st_sessions st_pending st_ssh];
    try apply Hs; [apply ids_ok_delete, Hs|].
  intros j m [_ Hm]%lookup_delete_Some. by apply (si_session_nodes s Hs j).
Qed.

Lemma inv_pending t s : store_inv s → unique_on p_auth_id t → store_inv (with_pending t s).
Proof. intros Hs Ht. split; try apply Hs. exact Ht. Qed.

Lemma inv_save_pending p s : store_inv s → store_inv (save_pending p s).1.
Proof.
  intros Hs. unfold save_pending. destruct (row_id _ _) as [i|] eqn:Hrow.
  - apply (unique_row_id p_auth_id) in Hrow as (r & Hr & Hk); [|apply Hs]. cbn [fst].
    apply inv_pending; [done|]. apply unique_on_insert; [apply Hs|]. intros j m Hj Hm E.
    apply Hj, (si_auth_ids s Hs i j r m); congruence.
  - destruct (insert_row _ _ _) as [[i t]|] eqn:Hi; [|done].
    apply insert_row_Ok in Hi as [_ ->]. cbn [fst]. apply inv_rowid, inv_pending; [done|].
    apply unique_on_insert; [apply Hs|]. intros j m _ Hm.
    apply (proj1 (row_id_None _ _) Hrow) in Hm. by apply bool_decide_eq_false in Hm.
Qed.

Lemma inv_delete_pending a s : store_inv s → store_inv (delete_pending a s).1.
Proof.
  intros Hs. unfold delete_pending. destruct (row_id _ _) as [i|]; [|done]. cbn [fst].
  apply inv_pending; [done|]. apply unique_on_delete, Hs.
Qed.

Lemma inv_ssh t s : store_inv s → unique_on sh_auth_id t → store_inv (with_ssh t s).
Proof. intros Hs Ht. split; try apply Hs. exact Ht. Qed.

Lemma inv_save_ssh r s : store_inv s → store_inv (save_ssh_auth r s).1.
Proof.
  intros Hs. unfold save_ssh_auth. destruct (row_id _ _) as [i|] eqn:Hrow.
  - apply (unique_row_id sh_auth_id) in Hrow as (r' & Hr & Hk); [|apply Hs]. cbn [fst].
    apply inv_ssh; [done|]. apply unique_on_insert; [apply Hs|]. intros j m Hj Hm E.
    apply Hj, (si_ssh_ids s Hs i j r' m); congruence.
  - destruct (insert_row _ _ _) as [[i t]|] eqn:Hi; [|done].
    apply insert_row_Ok in Hi as [_ ->]. cbn [fst]. apply inv_rowid, inv_ssh; [done|].
    apply unique_on_insert; [apply Hs|]. intros j m _ Hm.
    apply (proj1 (row_id_None _ _) Hrow) in Hm. by apply bool_decide_eq_false in Hm.
Qed.

Lemma inv_delete_ssh a s : store_inv s → store_inv (delete_ssh_auth a s).1.
Proof.
  intros Hs. unfold delete_ssh_auth. destruct (row_id _ _) as [i|]; [|done]. cbn [fst].
  apply inv_ssh; [done|]. apply unique_on_delete, Hs.
Qed.

Lemma store_step_inv op s : store_inv s → store_inv (store_step op s).
Proof.
  intros Hs. destruct op; cbn [store_step].
  - by apply inv_create_user.
  - by apply inv_create_login.
  - by apply inv_update_display.
  - by apply inv_upsert_node.
  - by apply inv_delete_node.
  - by apply inv_insert_key.
  - unfold mark_pre_auth_key_used. destruct (st_keys s !! id) eqn:Hk; [|done]. by apply inv_set_flags.
  - by apply inv_revoke.
  - by apply inv_save_policy.
  - by apply inv_create_session.
  - by apply inv_delete_session.
  - by apply inv_save_pending.
  - by apply inv_delete_pending.
  - by apply inv_save_ssh.
  - by apply inv_delete_ssh.
Qed.

(** ** Nodes: what an upsert leaves *)

Lemma insert_free_lookup {A} p (t : gmap Z A) (i : Z) (a : A) :
  row_id p t = None → t !! i = None → p a = true → row_id p (<[i := a]> t) = Some i.
Proof.
  intros Hn Hi Ha. destruct (row_id p (<[i := a]> t)) as [j|] eqn:E.
  - apply row_id_Some in E as (r & [[<- <-]|[_ Hr]]%lookup_insert_Some & Hp); [done|].
    by rewrite (proj1 (row_id_None p t) Hn j r Hr) in Hp.
  - by rewrite (proj1 (row_id_None p _) E i a (lookup_insert_eq _ _ _)) in Ha.
Qed.

(** A new node gets a free row, whose id and stable id are those returned. *)
Lemma upsert_new n s s' n' :
  row_id (by_node_key n.(dn_node_key)) s.(st_nodes) = None →
  n.(dn_id) = 0 → n.(dn_stable_id) = [] →
  upsert_node n s = (s', Ok n') →
  ∃ i, next_rowid (dom s.(st_nodes)) = Some i ∧ s.(st_nodes) !! i = None
    ∧ n' = set_dn_stable_id (show_stable_id i) (set_dn_id i n)
    ∧ s' = with_rowid i (with_nodes (<[i := n']> s.(st_nodes)) s).
Proof.
  intros Hnew Hid Hsid. unfold upsert_node, upsert_statement. rewrite Hnew, Hid, Hsid.
  destruct (taken _ _ _); [done|]. unfold insert_row.
  destruct (next_rowid _) as [i|] eqn:Hi; [|done].
  destruct (owner_exists n s); [|done]. cbn [negb].
  rewrite Z.eqb_refl, bool_decide_eq_true_2 by done.
  assert (Hfree : st_nodes s !! i = None) by (apply not_elem_of_dom; by apply next_rowid_unused).
  unfold update_stable_id. cbn [with_rowid with_nodes st_nodes st_last_rowid].
  rewrite lookup_insert_eq. destruct (taken _ _ _); [done|]. intros [= <- <-].
  exists i. split_and!; try done. by rewrite insert_insert_eq.
Qed.

(** The room for a new row: its id, and no stable id in its way. *)
Definition row_free (i : Z) (s : Store) : Prop :=
  next_rowid (dom s.(st_nodes)) = Some i
  ∧ ∀ j r, s.(st_nodes) !! j = Some r → r.(dn_stable_id) ≠ [] ∧ r.(dn_stable_id) ≠ show_stable_id i.

Lemma upsert_new_ok n s i :
  row_id (by_node_key n.(dn_node_key)) s.(st_nodes) = None →
  n.(dn_id) = 0 → n.(dn_stable_id) = [] → row_free i s → owner_exists n s = true →
  upsert_node n s =
    (with_rowid i (with_nodes (<[i := set_dn_stable_id (show_stable_id i) (set_dn_id i n)]> s.(st_nodes)) s),
     Ok (set_dn_stable_id (show_stable_id i) (set_dn_id i n))).
Proof.
  intros Hnew Hid Hsid [Hi Hfree] Ho. unfold upsert_node, upsert_statement. rewrite Hnew, Hid, Hsid.
  assert (taken (by_stable_id []) None (st_nodes s) = false) as ->.
  { apply taken_false. intros j r _ Hr. by apply bool_decide_eq_false, (Hfree j r). }
  unfold insert_row. rewrite Hi, Ho. cbn [negb]. rewrite Z.eqb_refl, bool_decide_eq_true_2 by done.
  unfold update_stable_id. cbn [with_rowid with_nodes st_nodes st_last_rowid]. rewrite lookup_insert_eq.
  assert (taken (by_stable_id (show_stable_id i)) (Some i) (<[i := set_dn_id i n]> (st_nodes s)) = false) as ->.
  { apply taken_false. intros j r Hj [[<- _]|[_ Hr]]%lookup_insert_Some; [done|].
    by apply bool_decide_eq_false, (Hfree j r). }
  by rewrite insert_insert_eq.
Qed.

(** A node read from the store and written back keeps its row. *)
Lemma upsert_known n s i r :
  store_inv s → s.(st_nodes) !! i = Some r → r.(dn_node_key) = n.(dn_node_key) →
  n.(dn_id) = i → i ≠ 0 → n.(dn_stable_id) = r.(dn_stable_id) → n.(dn_stable_id) ≠ [] →
  owner_exists n s = true →
  upsert_node n s = (with_nodes (<[i := n]> s.(st_nodes)) s, Ok n).
Proof.
  intros Hs Hr Hk Hid H0 Hsid Hne Ho. unfold upsert_node, upsert_statement.
  assert (row_id (by_node_key (dn_node_key n)) (st_nodes s) = Some i) as ->.
  { apply (unique_row_id dn_node_key); [apply Hs|]. by exists r. }
  assert (taken (by_stable_id (dn_stable_id n)) (Some i) (st_nodes s) = false) as ->.
  { apply taken_false. intros j m Hj Hm. apply bool_decide_eq_false. intros E. apply Hj. f_equal.
    apply (si_stable_ids s Hs i j r m); congruence. }
  rewrite Ho. cbn [negb]. rewrite Hid. destruct (Z.eqb_spec i 0); [done|].
  rewrite bool_decide_eq_false_2 by done.
  assert (set_dn_id i n = n) as ->; [|done]. rewrite <- Hid. by destruct n.
Qed.

End integrity.

(** Whatever the operations, from the empty store. *)
Lemma store_inv_run `{Q : Sqlite, !SqliteLaws Q} (ops : list store_op) :
  store_inv (fold_left (λ s op, store_step op s) ops Store_empty).
Proof.
  generalize store_inv_empty. generalize Store_empty.
  induction ops as [|op ops IH]; intros s Hs; [done|]. by apply IH, store_step_inv.
Qed.

(** C18. The store keeps its keys and references: whatever the
    sequence of operations, row ids and unique columns identify their rows and
    every reference has its target. *)
Theorem store_integrity `{Q : Sqlite, !SqliteLaws Q} (ops : list store_op) :
  store_inv (fold_left (λ s op, store_step op s) ops Store_empty).
Proof. apply store_inv_run. Qed.

Definition demo_user : User :=
  {| user_id := 1; user_login_name := str "a@b"; user_display_name := str "A"; user_created_at := [] |}.

Definition demo_node (key : bytes) : DomainNode :=
  {| dn_id := 0; dn_stable_id := []; dn_name := str "n"; dn_user_id := Some 1; dn_node_key := key;
     dn_machine_key := [7]; dn_disco_key := []; dn_addresses := []; dn_allowed_ips := None;
     dn_endpoints := []; dn_endpoint_types := []; dn_home_derp := 1; dn_hostinfo := None;
     dn_created := []; dn_cap := 130; dn_tags := None; dn_advertised_routes := [];
     dn_approved_routes := []; dn_machine_authorized := true; dn_ephemeral := false;
     dn_last_seen := None; dn_key_expiry := None |}.

Lemma store_integrity_witness :
  let s := fold_left (λ s op, store_step op s)
             [CreateUser demo_user; UpsertNode (demo_node [1]); UpsertNode (demo_node [2]);
              UpsertNode (demo_node [1]); DeleteNode [2]] Store_empty in
  store_inv s ∧ map dn_node_key (rows s.(st_nodes)) = [[1]].
Proof. cbv zeta. split; [apply store_integrity|by vm_compute]. Defined.

(** A node that is built anew (no id, no stable id) under a key
    the store knows is written over the old row, but the id taken for it is the
    connection's last inserted row id, whatever table that was for: the row
    ends without a stable id, and the caller is told another id. *)
Theorem upsert_on_conflict_loses_stable_id `{Q : Sqlite} n s s' n' i :
  row_id (by_node_key n.(dn_node_key)) s.(st_nodes) = Some i →
  n.(dn_id) = 0 → n.(dn_stable_id) = [] → s.(st_last_rowid) ≠ i →
  upsert_node n s = (s', Ok n') →
  n'.(dn_id) = s.(st_last_rowid) ∧ n'.(dn_stable_id) = show_stable_id s.(st_last_rowid)
  ∧ ∃ r, s'.(st_nodes) !! i = Some r ∧ r.(dn_stable_id) = [] ∧ r.(dn_node_key) = n.(dn_node_key).
Proof.
  intros Hrow Hid Hsid Hlast. unfold upsert_node, upsert_statement. rewrite Hrow, Hid, Hsid.
  destruct (taken _ _ _); [done|]. destruct (owner_exists n s); [|done]. cbn [negb].
  rewrite Z.eqb_refl, bool_decide_eq_true_2 by done. cbn [with_nodes st_last_rowid].
  unfold update_stable_id. cbn [with_nodes st_nodes]. rewrite lookup_insert_ne by done.
  destruct (st_nodes s !! st_last_rowid s) as [r|]; [destruct (taken _ _ _); [done|]|];
    intros [= <- <-]; (split; [done|]; split; [done|]); exists (set_dn_id i n);
    cbn [with_nodes st_nodes]; rewrite ?lookup_insert_ne, lookup_insert_eq by done; done.
Qed.

Lemma upsert_on_conflict_loses_stable_id_witness :
  let s := fold_left (λ s op, store_step op s)
             [CreateUser demo_user; UpsertNode (demo_node [1]); UpsertNode (demo_node [2])] Store_empty in
  let '(s', r) := upsert_node (demo_node [1]) s in
  ∃ n', r = Ok n' ∧ n'.(dn_id) = 2 ∧ ∃ r, s'.(st_nodes) !! 1 = Some r ∧ r.(dn_stable_id) = [].
Proof.
  cbv zeta. set (s := fold_left _ _ _). destruct (upsert_node (demo_node [1]) s) as [s' r] eqn:E.
  destruct r as [n'|e]; [|exfalso; revert E; by vm_compute].
  destruct (upsert_on_conflict_loses_stable_id (demo_node [1]) s s' n' 1) as (H1 & _ & r & Hr & Hs & _);
    [by vm_compute|done|done|by vm_compute|done|].
  exists n'. split; [done|]. split; [by rewrite H1; vm_compute|by exists r].
Defined.
