(* ===== verification/Backup.v ===== *)
(** * Backups of the store ([crabscale-control/src/backup.rs], the schema of [store.rs])

    Here the database is what SQLite holds: a list of rows per table, a row being
    the values of its columns.  The schema is the one the migrations end in
    ([Migrate]), and an [INSERT] checks what it declares.  Compression, the text of
    JSON and the conversion of a value to the type of its column are parameters with
    the laws a round trip needs. *)

From S2P Require Import Prelude Text PolicyModel Hujson Validate Pending Store.

Inductive SqlValue : Type :=
| SNull
| SInteger (i : Z)
| SReal (bits : Z)
| SText (t : text)
| SBadText (b : bytes)   (** a TEXT value that is not UTF-8 *)
| SBlob (b : bytes).

#[global] Instance SqlValue_eq_dec : EqDecision SqlValue.
Proof. solve_decision. Defined.

Abbreviation Row := (gmap text SqlValue).
Abbreviation Db := (gmap text (list Row)).

(** ** The schema *)

(** [INTEGER PRIMARY KEY], [INTEGER], [TEXT] *)
Inductive ColType : Type := RowId | IntegerType | TextType.

Record Column : Type := { col : text; ty : ColType; not_null : bool }.

(** A table: its columns, the sets of columns that are unique together, and the
    columns that refer to the row ids of another table. *)
Record Table : Type := {
  columns : list Column; uniques : list (list text); references : list (text * text) }.

Definition nn (name : string) (ty : ColType) : Column := {| col := str name; ty := ty; not_null := true |}.
Definition opt (name : string) (ty : ColType) : Column := {| col := str name; ty := ty; not_null := false |}.

(** What [run_migrations] ends in. *)
Definition users_table : Table :=
  {| columns := [opt "id" RowId; nn "login_name" TextType; nn "display_name" TextType; nn "created_at" TextType];
     uniques := [[str "id"]; [str "login_name"]]; references := [] |}.

Definition logins_table : Table :=
  {| columns := [opt "id" RowId; nn "user_id" IntegerType; nn "provider" TextType; nn "login_name" TextType;
                 nn "created_at" TextType];
     uniques := [[str "id"]; [str "provider"; str "login_name"]]; references := [(str "user_id", str "users")] |}.

Definition nodes_table : Table :=
  {| columns := [opt "id" RowId; nn "stable_id" TextType; nn "name" TextType; opt "user_id" IntegerType;
                 nn "node_key" TextType; nn "machine_key" TextType; nn "disco_key" TextType; nn "addresses" TextType;
                 opt "allowed_ips" TextType; nn "endpoints" TextType; nn "endpoint_types" TextType;
                 nn "home_derp" IntegerType; opt "hostinfo" TextType; nn "created" TextType; nn "cap" IntegerType;
                 opt "tags" TextType; nn "machine_authorized" IntegerType; nn "ephemeral" IntegerType;
                 nn "advertised_routes" TextType; nn "approved_routes" TextType; opt "last_seen" TextType;
                 opt "key_expiry" TextType];
     uniques := [[str "id"]; [str "stable_id"]; [str "node_key"]]; references := [(str "user_id", str "users")] |}.

Definition pre_auth_keys_table : Table :=
  {| columns := [opt "id" RowId; nn "prefix" TextType; nn "secret_hash" TextType; nn "reusable" IntegerType;
                 nn "ephemeral" IntegerType; opt "expiration" TextType; nn "revoked" IntegerType;
                 nn "used" IntegerType; opt "tags" TextType; nn "user_id" IntegerType; nn "created_at" TextType];
     uniques := [[str "id"]; [str "prefix"]]; references := [(str "user_id", str "users")] |}.

Definition policies_table : Table :=
  {| columns := [opt "id" RowId; nn "name" TextType; nn "body" TextType; nn "created_at" TextType];
     uniques := [[str "id"]; [str "name"]]; references := [] |}.

Definition sessions_table : Table :=
  {| columns := [opt "id" RowId; nn "node_id" IntegerType; nn "machine_key" TextType; nn "created_at" TextType;
                 nn "last_seen" TextType; opt "closed_at" TextType];
     uniques := [[str "id"]]; references := [(str "node_id", str "nodes")] |}.

Definition pending_table : Table :=
  {| columns := [opt "auth_id" TextType; nn "machine_key" TextType; nn "node_key" TextType; opt "hostinfo" TextType;
                 nn "expiry" TextType; nn "version" IntegerType; nn "ephemeral" IntegerType; nn "created_at" TextType;
                 nn "expires_at" TextType; nn "verdict" TextType];
     uniques := [[str "auth_id"]]; references := [] |}.

Definition ssh_auths_table : Table :=
  {| columns := [opt "auth_id" TextType; nn "src_node_id" IntegerType; nn "dst_node_id" IntegerType;
                 nn "ssh_user" TextType; nn "local_user" TextType; nn "machine_key" TextType;
                 nn "created_at" TextType; nn "expires_at" TextType; nn "verdict" TextType];
     uniques := [[str "auth_id"]]; references := [] |}.

Definition SCHEMA : list (text * Table) :=
  [(str "users", users_table); (str "logins", logins_table); (str "nodes", nodes_table);
   (str "pre_auth_keys", pre_auth_keys_table); (str "policies", policies_table); (str "sessions", sessions_table);
   (str "pending_registrations", pending_table); (str "ssh_auths", ssh_auths_table)].

Definition schema_of (table : text) : option Table :=
  snd <$> List.find (λ nt, bool_decide (nt.1 = table)) SCHEMA.

(** ** Libraries *)

Class BackupLibrary : Type := {
  (** [serde_json::to_vec], the [Display] of a value, and [from_slice] *)
  json_to_vec : Json → bytes;
  json_display : Json → text;
  json_from_slice : bytes → option Json;
  zstd_encode_all : bytes → option bytes;
  zstd_decode_all : bytes → option bytes;
  (** SQLite's type affinity and strictness: the value a column of the type stores *)
  convert : ColType → SqlValue → option SqlValue }.

(** A value that its column stores as it is. *)
Definition stored (ty : ColType) (v : SqlValue) : bool :=
  match ty, v with
  | (IntegerType | TextType), SNull => true
  | (RowId | IntegerType), SInteger i => (- 2 ^ 63 <=? i) && (i <? 2 ^ 63)
  | TextType, SText _ => true
  | _, _ => false
  end.

(** Documents that are what their text says: no doubles, and the fields of an object
    in the order of its map. *)
Fixpoint plain (v : Json) : bool :=
  match v with
  | JNull | JBool _ | JString _ => true
  | JNumber (PosInt n) => (0 <=? n) && (n <? 2 ^ 64)
  | JNumber (NegInt n) => (- 2 ^ 63 <=? n) && (n <? 0)
  | JNumber (Float _) => false
  | JArray items => forallb plain items
  | JObject fields =>
      forallb (λ f, plain f.2) fields
      && (fix ascending l := match l with a :: ((b :: _) as t) => text_leb a b && negb (bool_decide (a = b)) && ascending t | _ => true end)
           (map fst fields)
  end.

Class BackupLaws (L : BackupLibrary) : Prop := {
  json_roundtrip v : plain v = true → json_from_slice (json_to_vec v) = Some v;
  zstd_roundtrip b z : zstd_encode_all b = Some z → zstd_decode_all z = Some b;
  convert_stored ty v : stored ty v = true → convert ty v = Some v }.

Inductive BackupError : Type :=
| BackupFormat (e : text)
| UnknownTable (t : text)
| UnsupportedValue (v : text)
| BackupSqlite (e : option SqliteError)   (** [None]: another error of SQLite *)
| BackupJson
| BackupIo.

(** ** Statements *)

Definition column_value (c : text) (row : Row) : SqlValue := default SNull (row !! c).

Definition row_id_of (row : Row) : option Z :=
  match column_value (str "id") row with SInteger i => Some i | _ => None end.

(** Whether two rows agree on columns that are all set. *)
Definition same_on (cols : list text) (a b : Row) : bool :=
  forallb (λ c, negb (bool_decide (column_value c a = SNull)) && bool_decide (column_value c a = column_value c b)) cols.

Definition has_row_id (t : Table) : bool := existsb (λ c, match c.(ty) with RowId => true | _ => false end) t.(columns).

(** A row at its place in a scan: by ascending row id, behind the others where the
    row id is not a column. *)
Fixpoint place_by_id (row : Row) (rows : list Row) : list Row :=
  match rows with
  | [] => [row]
  | r :: rest =>
      match row_id_of row, row_id_of r with
      | Some i, Some j => if i <? j then row :: rows else r :: place_by_id row rest
      | _, _ => r :: place_by_id row rest
      end
  end.

Definition place (t : Table) (row : Row) (rows : list Row) : list Row :=
  if has_row_id t then place_by_id row rows else rows ++ [row].

Section backup.
  Context `{Q : Sqlite, L : BackupLibrary}.

(** The values the columns store; a row id that is not given is chosen. *)
Fixpoint converted (cols : list Column) (row : Row) (rows : list Row) : option Row :=
  match cols with
  | [] => Some ∅
  | c :: cols =>
      stored_row ← converted cols row rows;
      v ← match c.(ty), column_value c.(col) row with
          | RowId, SNull => SInteger <$> next_rowid (list_to_set (omap row_id_of rows))
          | ty, v => convert ty v
          end;
      Some (<[c.(col) := v]> stored_row)
  end.

(** [INSERT INTO table], with the constraints it checks at once. *)
Definition insert_sql (t : Table) (row : Row) (rows : list Row) : result (list Row) BackupError :=
  match converted t.(columns) row rows with
  | None => Err (BackupSqlite None)
  | Some row =>
      if existsb (λ c, c.(not_null) && bool_decide (column_value c.(col) row = SNull)) t.(columns)
      then Err (BackupSqlite None)
      else if existsb (λ cols, existsb (same_on cols row) rows) t.(uniques)
      then Err (BackupSqlite (Some UniqueConstraint))
      else Ok (place t row rows)
  end.

(** The references of a table hold, as a commit checks it. *)
Definition references_hold (db : Db) (t : Table) (rows : list Row) : bool :=
  forallb (λ r, forallb (λ row,
    bool_decide (column_value r.1 row = SNull)
    || existsb (λ parent, bool_decide (column_value (str "id") parent = column_value r.1 row)) (default [] (db !! r.2)))
    rows) t.(references).

Definition commit (db : Db) : result Db BackupError :=
  if forallb (λ nt, references_hold db nt.2 (default [] (db !! nt.1))) SCHEMA then Ok db
  else Err (BackupSqlite (Some ForeignKeyConstraint)).

(** ** The backup *)

Definition BACKUP_FORMAT : text := str "crabscale-backup/v1".

Definition BACKUP_TABLES : list (text * list text) :=
  [(str "users", map str ["id"; "login_name"; "display_name"; "created_at"]%string);
   (str "logins", map str ["id"; "user_id"; "provider"; "login_name"; "created_at"]%string);
   (str "nodes", map str ["id"; "stable_id"; "name"; "user_id"; "node_key"; "machine_key"; "disco_key"; "addresses";
      "allowed_ips"; "endpoints"; "endpoint_types"; "home_derp"; "hostinfo"; "created"; "cap"; "tags";
      "machine_authorized"; "ephemeral"; "advertised_routes"; "approved_routes"; "last_seen"; "key_expiry"]%string);
   (str "pre_auth_keys", map str ["id"; "prefix"; "secret_hash"; "reusable"; "ephemeral"; "expiration"; "revoked"; "used";
      "tags"; "user_id"; "created_at"]%string);
   (str "policies", map str ["id"; "name"; "body"; "created_at"]%string);
   (str "sessions", map str ["id"; "node_id"; "machine_key"; "created_at"; "last_seen"; "closed_at"]%string);
   (str "pending_registrations", map str ["auth_id"; "machine_key"; "node_key"; "hostinfo"; "expiry"; "version";
      "ephemeral"; "created_at"; "expires_at"; "verdict"]%string);
   (str "ssh_auths", map str ["auth_id"; "src_node_id"; "dst_node_id"; "ssh_user"; "local_user"; "machine_key";
      "created_at"; "expires_at"; "verdict"]%string)].

Definition sqlite_to_json (v : SqlValue) : result Json BackupError :=
  match v with
  | SNull => Ok JNull
  | SInteger i => Ok (JNumber (if 0 <=? i then PosInt i else NegInt i))
  | SReal bits => Ok (JNumber (Float bits))
  | SText t => Ok (JString t)
  | SBadText _ => Err (UnsupportedValue (str "text column is not valid UTF-8"))
  | SBlob _ => Err (UnsupportedValue (str "blob columns are not supported by the v0.1 backup allowlist"))
  end.

(** The error is the text of [UnsupportedValue]. *)
Definition json_to_sqlite (v : Json) : result SqlValue text :=
  match v with
  | JNull => Ok SNull
  | JBool b => Ok (SInteger (if b then 1 else 0))
  | JNumber (PosInt n) =>
      if n <? 2 ^ 63 then Ok (SInteger n)
      else Err (str "integer " ++ show_uint n ++ str " exceeds the i64 range supported by the backup schema")
  | JNumber (NegInt n) => Ok (SInteger n)
  | JNumber (Float bits) => Ok (SReal bits)
  | JString t => Ok (SText t)
  | other => Err (str "unsupported JSON type " ++ json_display other)
  end.

(** One row as an object. *)
Fixpoint export_row (cols : list text) (row : Row) (obj : list (text * Json)) : result (list (text * Json)) BackupError :=
  match cols with
  | [] => Ok obj
  | c :: cols =>
      let? value := sqlite_to_json (column_value c row) in
      export_row cols row (map_insert c value obj)
  end.

Fixpoint export_rows (cols : list text) (rows : list Row) : result (list Json) BackupError :=
  match rows with
  | [] => Ok []
  | row :: rows =>
      let? obj := export_row cols row [] in
      let? rest := export_rows cols rows in
      Ok (JObject obj :: rest)
  end.

(** A table or a column that is not there fails the statement. *)
Definition export_table (db : Db) (table : text) (cols : list text) : result (list Json) BackupError :=
  match db !! table, schema_of table with
  | Some rows, Some t =>
      if forallb (λ c, bool_decide (c ∈ map col t.(columns))) cols then export_rows cols rows
      else Err (BackupSqlite None)
  | _, _ => Err (BackupSqlite None)
  end.

Fixpoint export_tables (db : Db) (tables : list (text * list text)) (out : list (text * Json))
    : result (list (text * Json)) BackupError :=
  match tables with
  | [] => Ok out
  | (table, cols) :: tables =>
      let? rows := export_table db table cols in
      export_tables db tables (map_insert table (JArray rows) out)
  end.

Definition backup_document (created_at : text) (tables : list (text * Json)) : Json :=
  JObject (map_insert (str "tables") (JObject tables)
             (map_insert (str "created_at") (JString created_at) (map_insert (str "format") (JString BACKUP_FORMAT) []))).

(** [write_backup] to a writer that takes everything. *)
Definition write_backup (created_at : text) (db : Db) : result bytes BackupError :=
  let? tables := export_tables db BACKUP_TABLES [] in
  match zstd_encode_all (json_to_vec (backup_document created_at tables)) with
  | Some compressed => Ok compressed
  | None => Err BackupIo
  end.

(** ** The restore *)

Fixpoint import_row (table : text) (cols : list text) (obj : list (text * Json)) : result Row BackupError :=
  match cols with
  | [] => Ok ∅
  | c :: cols =>
      match get_field c obj with
      | None => Err (BackupFormat (str "backup row for `" ++ table ++ str "` is missing column `" ++ c ++ str "`"))
      | Some value =>
          let? v := map_err UnsupportedValue (json_to_sqlite value) in
          let? row := import_row table cols obj in
          Ok (<[c := v]> row)
      end
  end.

Fixpoint import_rows (name : text) (t : Table) (cols : list text) (values : list Json) (rows : list Row)
    : result (list Row) BackupError :=
  match values with
  | [] => Ok rows
  | JObject obj :: values =>
      let? row := import_row name cols obj in
      let? rows := insert_sql t row rows in
      import_rows name t cols values rows
  | _ :: _ => Err (BackupFormat (str "backup table row is not an object"))
  end.

Fixpoint import_tables (tables : list (text * Json)) (names : list (text * list text)) (db : Db) : result Db BackupError :=
  match names with
  | [] => Ok db
  | (name, cols) :: names =>
      match get_field name tables, db !! name, schema_of name with
      | Some (JArray values), Some rows, Some t =>
          let? rows := import_rows name t cols values rows in
          import_tables tables names (<[name := rows]> db)
      | Some (JArray []), _, _ => import_tables tables names db
      | Some (JArray _), _, _ => Err (BackupSqlite None)
      | _, _, _ => Err (BackupFormat (str "backup is missing table `" ++ name ++ str "`"))
      end
  end.

(** [DELETE FROM], for every table. *)
Fixpoint delete_tables (names : list (text * list text)) (db : Db) : result Db BackupError :=
  match names with
  | [] => Ok db
  | (name, _) :: names =>
      match db !! name with
      | Some _ => delete_tables names (<[name := []]> db)
      | None => Err (BackupSqlite None)
      end
  end.

Definition known_tables (tables : list (text * Json)) : result unit BackupError :=
  match List.find (λ kv, negb (existsb (λ nt, bool_decide (nt.1 = kv.1)) BACKUP_TABLES)) tables with
  | Some (table, _) => Err (UnknownTable table)
  | None => Ok ()
  end.

(** What a restore makes of the database, should it commit. *)
Definition restored (compressed : bytes) (db : Db) : result Db BackupError :=
  match zstd_decode_all compressed with
  | None => Err BackupIo
  | Some json =>
      match json_from_slice json with
      | None => Err BackupJson
      | Some document =>
          let fields := match document with JObject fields => fields | _ => [] end in
          match get_field (str "format") fields with
          | Some (JString format) =>
              fail_if negb (bool_decide (format = BACKUP_FORMAT))
                with BackupFormat (str "unsupported format `" ++ format ++ str "` (expected `" ++ BACKUP_FORMAT ++ str "`)") ;;
              match get_field (str "tables") fields with
              | Some (JObject tables) =>
                  let? _ := known_tables tables in
                  let? db := delete_tables (rev BACKUP_TABLES) db in
                  let? db := import_tables tables BACKUP_TABLES db in
                  commit db
              | _ => Err (BackupFormat (str "missing `tables` object"))
              end
          | _ => Err (BackupFormat (str "missing `format` field"))
          end
      end
  end.

(** [restore_backup]: a transaction that is dropped is rolled back. *)
Definition restore_backup (compressed : bytes) (db : Db) : Db * result unit BackupError :=
  match restored compressed db with
  | Ok db => (db, Ok ())
  | Err e => (db, Err e)
  end.

End backup.

(** ** What a sound database is *)

(** A row has a value its column stores in every column of the table. *)
Definition row_typed (t : Table) (row : Row) : bool :=
  bool_decide (dom row = (list_to_set (map col t.(columns)) : gset text))
  && forallb (λ c, stored c.(ty) (column_value c.(col) row)
                   && negb (c.(not_null) && bool_decide (column_value c.(col) row = SNull))) t.(columns).

Definition id_before (a b : Row) : bool :=
  match row_id_of a, row_id_of b with Some i, Some j => i <? j | _, _ => false end.

(** The rows of a scan, behind those of [pre]. *)
Fixpoint rows_ok (t : Table) (pre rows : list Row) : bool :=
  match rows with
  | [] => true
  | row :: rows =>
      row_typed t row
      && forallb (λ cols, negb (existsb (same_on cols row) pre)) t.(uniques)
      && (negb (has_row_id t) || forallb (λ r, id_before r row) pre)
      && rows_ok t (pre ++ [row]) rows
  end.

Definition table_ok (db : Db) (nt : text * Table) : bool :=
  match db !! nt.1 with Some rows => rows_ok nt.2 [] rows | None => false end.

(** Every table is there, its rows are typed, unique and in order, and what they
    refer to exists. *)
Definition db_ok (db : Db) : bool :=
  forallb (table_ok db) SCHEMA && forallb (λ nt, references_hold db nt.2 (default [] (db !! nt.1))) SCHEMA.

(** The allowlist has every table and every column: a backup leaves nothing out. *)
Lemma allowlist_complete : BACKUP_TABLES = map (λ nt, (nt.1, map col nt.2.(columns))) SCHEMA.
Proof. done. Qed.

(** ** Lemmas *)

Lemma get_field_map_insert c k v m :
  get_field c (map_insert k v m) = if bool_decide (k = c) then Some v else get_field c m.
Proof.
  induction m as [|[k' v'] m IH]; cbn [map_insert get_field]; [done|].
  destruct (decide (k' = k)) as [->|H1].
  - rewrite (bool_decide_eq_true_2 (k = k)) by done. cbn [get_field]. by destruct (bool_decide (k = c)).
  - rewrite (bool_decide_eq_false_2 (k' = k)) by done. destruct (text_leb k k'); cbn [get_field]; [done|]. rewrite IH.
    repeat case_bool_decide; congruence.
Qed.

Lemma map_insert_In kv k v m : kv ∈ map_insert k v m → kv = (k, v) ∨ kv ∈ m.
Proof.
  induction m as [|[k' v'] m IH]; cbn [map_insert].
  - intros ->%list_elem_of_singleton. by left.
  - destruct (bool_decide (k' = k)); [|destruct (text_leb k k')].
    + intros [->|Hin]%elem_of_cons; [by left|]. right. by right.
    + intros [->|Hin]%elem_of_cons; [by left|]. by right.
    + intros [->|[?|?]%IH]%elem_of_cons; [right; by left|by left|right; by right].
Qed.

Section ascending.
Fixpoint ascending (l : list text) : bool :=
  match l with
  | a :: ((b :: _) as t) => text_leb a b && negb (bool_decide (a = b)) && ascending t
  | _ => true
  end.

Lemma plain_object fields : plain (JObject fields) = forallb (λ f, plain f.2) fields && ascending (map fst fields).
Proof. done. Qed.

Lemma ascending_insert k v m :
  ascending (map fst m) = true → ascending (map fst (map_insert k v m)) = true.
Proof.
  induction m as [|[k1 v1] m IH]; [done|]. cbn [map_insert map fst]. destruct (decide (k1 = k)) as [->|H1].
  { by rewrite bool_decide_eq_true_2. }
  rewrite bool_decide_eq_false_2 by done.
  destruct (text_leb k k1) eqn:Hle.
  - intros Ha. cbn [map fst ascending] in *. by rewrite Hle, bool_decide_eq_false_2 by congruence.
  - intros Ha. cbn [map fst]. assert (Hk1 : text_leb k1 k = true).
    { destruct (total text_le k k1) as [Hx|Hx]; unfold text_le in Hx; congruence. }
    assert (Htl : ascending (map fst m) = true).
    { destruct m as [|[k2 v2] m]; [done|]. cbn [map fst ascending] in Ha. by apply andb_true_iff in Ha as [_ Ha]. }
    specialize (IH Htl). destruct m as [|[k2 v2] m].
    + cbn. by rewrite Hk1, bool_decide_eq_false_2.
    + cbn [map_insert map fst] in *. cbn [ascending] in Ha. apply andb_true_iff in Ha as [Ha _].
      destruct (bool_decide (k2 = k)) eqn:E2; [|destruct (text_leb k k2)]; cbn [map fst ascending] in *.
      * by rewrite IH, Hk1, bool_decide_eq_false_2.
      * by rewrite IH, Hk1, bool_decide_eq_false_2.
      * by rewrite IH, Ha.
Qed.

Lemma plain_insert k v m :
  plain v = true → plain (JObject m) = true → plain (JObject (map_insert k v m)) = true.
Proof.
  rewrite !plain_object, !andb_true_iff, !forallb_forall. intros Hv [Hm Ha]. split; [|by apply ascending_insert].
  intros kv Hin. apply list_elem_of_In in Hin.
  apply map_insert_In in Hin as [->|Hm']; [done|]. apply Hm. by apply list_elem_of_In.
Qed.
End ascending.

Section roundtrip.
  Context `{Q : Sqlite, L : BackupLibrary, !BackupLaws L}.

(** A stored value crosses JSON. *)
Lemma value_crosses t v :
  stored t v = true → ∃ j, sqlite_to_json v = Ok j ∧ json_to_sqlite j = Ok v ∧ plain j = true.
Proof.
  destruct v as [|i|?|x|?|?]; try (by destruct t); intros Hs; cbn [sqlite_to_json]; eexists; (split; [done|]); try done.
  assert (Hi : - 2 ^ 63 ≤ i < 2 ^ 63) by (destruct t; cbn in Hs; lia || done).
  destruct (Z.leb_spec 0 i); cbn [json_to_sqlite plain].
  - rewrite (proj2 (Z.ltb_lt i (2 ^ 63))) by lia. split; [done|]. apply andb_true_iff. split; apply Z.leb_le || apply Z.ltb_lt; lia.
  - split; [done|]. apply andb_true_iff. split; apply Z.leb_le || apply Z.ltb_lt; lia.
Qed.

(** An object that holds the values of a row. *)
Definition holds (obj : list (text * Json)) (row : Row) (cols : list text) : Prop :=
  ∀ c, c ∈ cols → ∃ j, get_field c obj = Some j ∧ json_to_sqlite j = Ok (column_value c row).

Lemma export_row_holds cols row obj done_cols :
  (∀ c, c ∈ cols → ∃ t, stored t (column_value c row) = true) → plain (JObject obj) = true → holds obj row done_cols →
  ∃ obj', export_row cols row obj = Ok obj' ∧ plain (JObject obj') = true ∧ holds obj' row (done_cols ++ cols).
Proof.
  revert obj done_cols. induction cols as [|c cols IH]; intros obj dc Hs Hp Hh; cbn [export_row].
  { exists obj. by rewrite app_nil_r. }
  destruct (Hs c) as [t Ht]; [by left|]. destruct (value_crosses t _ Ht) as (j & -> & Hj & Hpj). cbn [rbind].
  destruct (IH (map_insert c j obj) (dc ++ [c])) as (obj' & H1 & H2 & H3).
  - intros c' Hc. apply Hs. by right.
  - by apply plain_insert.
  - intros c' Hc. rewrite get_field_map_insert. destruct (decide (c = c')) as [->|Hne].
    + rewrite bool_decide_eq_true_2 by done. by exists j.
    + rewrite bool_decide_eq_false_2 by done. apply Hh. apply elem_of_app in Hc as [?|Hc%list_elem_of_singleton]; [done|congruence].
  - exists obj'. by rewrite <- app_assoc in H3.
Qed.

(** The row that has the values of [row] in some columns. *)
Definition restricted (row : Row) (cols : list text) : Row := list_to_map (map (λ c, (c, column_value c row)) cols).

Lemma restricted_all row cols : dom row = (list_to_set cols : gset text) → restricted row cols = row.
Proof.
  intros Hd. apply map_eq. intros c. unfold restricted.
  assert (Hc : c ∈ cols ↔ is_Some (row !! c)) by (by rewrite <- elem_of_dom, Hd, elem_of_list_to_set).
  assert (Hl : (list_to_map (map (λ c, (c, column_value c row)) cols) : Row) !! c
               = if decide (c ∈ cols) then Some (column_value c row) else None).
  { clear. induction cols as [|c' cols IH]; [done|]. cbn [map list_to_map foldr uncurry].
    change (foldr _ _ _) with (list_to_map (map (λ c, (c, column_value c row)) cols) : Row).
    destruct (decide (c' = c)) as [->|Hne].
    - rewrite lookup_insert_eq. by rewrite decide_True by left.
    - rewrite lookup_insert_ne, IH by done. destruct (decide (c ∈ cols)).
      + by rewrite decide_True by (by right).
      + rewrite decide_False; [done|]. by intros [->|?]%elem_of_cons. }
  rewrite Hl. destruct (decide (c ∈ cols)) as [Hin|Hin].
  - apply Hc in Hin as [v Hv]. unfold column_value. by rewrite Hv.
  - destruct (row !! c) eqn:E; [|done]. exfalso. apply Hin, Hc. by eexists.
Qed.

Lemma import_row_holds name cols obj row : holds obj row cols → import_row name cols obj = Ok (restricted row cols).
Proof.
  induction cols as [|c cols IH]; intros Hh; [done|]. cbn [import_row]. destruct (Hh c) as (j & -> & ->); [by left|].
  cbn [map_err rbind]. rewrite IH; [done|]. intros c' Hc. apply Hh. by right.
Qed.

Lemma row_typed_spec t row :
  row_typed t row = true ↔ dom row = (list_to_set (map col t.(columns)) : gset text)
  ∧ ∀ c, c ∈ t.(columns) → stored c.(ty) (column_value c.(col) row) = true
      ∧ (c.(not_null) = true → column_value c.(col) row ≠ SNull).
Proof.
  unfold row_typed. rewrite andb_true_iff, bool_decide_eq_true, forallb_forall. split; intros [Hd Hc]; (split; [done|]).
  - intros c Hin. apply list_elem_of_In in Hin. specialize (Hc c Hin). apply andb_true_iff in Hc as [Hs Hn].
    split; [done|]. intros Hnn. rewrite Hnn in Hn. cbn in Hn. by apply negb_true_iff, bool_decide_eq_false in Hn.
  - intros c Hin. apply list_elem_of_In in Hin. destruct (Hc c Hin) as [-> Hn]. destruct (not_null c); [|done].
    cbn. by rewrite bool_decide_eq_false_2 by by apply Hn.
Qed.

Lemma converted_typed cols row rows :
  (∀ c, c ∈ cols → stored c.(ty) (column_value c.(col) row) = true) →
  converted cols row rows = Some (restricted row (map col cols)).
Proof.
  induction cols as [|c cols IH]; intros Hs; [done|]. cbn [converted]. rewrite IH by (intros c' Hc; apply Hs; by right).
  assert (Hc := Hs c ltac:(by left)). cbn. destruct (ty c) eqn:Et; destruct (column_value (col c) row) eqn:Ev; try done;
    rewrite convert_stored by done; cbn; by rewrite <- Ev.
Qed.

Lemma place_behind row rows : forallb (λ r, id_before r row) rows = true → place_by_id row rows = rows ++ [row].
Proof.
  induction rows as [|r rows IH]; [done|]. cbn [forallb place_by_id app]. intros [Hr Hrs]%andb_true_iff.
  unfold id_before in Hr. destruct (row_id_of r) as [i|]; [|done]. destruct (row_id_of row) as [j|]; [|done].
  rewrite (proj2 (Z.ltb_ge j i)) by lia. by rewrite IH.
Qed.

Lemma insert_ok t pre row rest :
  rows_ok t pre (row :: rest) = true → insert_sql t row pre = Ok (pre ++ [row]) ∧ rows_ok t (pre ++ [row]) rest = true.
Proof.
  cbn [rows_ok]. rewrite !andb_true_iff. intros [[[Ht Hu] Ho] Hr]. split; [|done].
  apply row_typed_spec in Ht as [Hd Hc]. unfold insert_sql. rewrite converted_typed by (intros c Hin; by apply Hc).
  rewrite restricted_all by done.
  replace (existsb _ t.(columns)) with false.
  2: { symmetry. apply not_true_iff_false. intros (c & Hin%list_elem_of_In & Hx)%existsb_exists.
       apply andb_true_iff in Hx as [Hn Hx%bool_decide_eq_true]. by destruct (Hc c Hin) as [_ Hno]; apply Hno. }
  replace (existsb _ t.(uniques)) with false.
  2: { symmetry. apply not_true_iff_false. intros (cs & Hin & Hx)%existsb_exists.
       rewrite forallb_forall in Hu. specialize (Hu cs Hin). by rewrite Hx in Hu. }
  unfold place. destruct (has_row_id t); [|done]. by rewrite place_behind.
Qed.

(** A table crosses: what is exported imports behind the rows that are there. *)
Lemma rows_cross name t rows pre :
  rows_ok t pre rows = true →
  ∃ js, export_rows (map col t.(columns)) rows = Ok js ∧ forallb plain js = true
    ∧ import_rows name t (map col t.(columns)) js pre = Ok (pre ++ rows).
Proof.
  revert pre. induction rows as [|row rows IH]; intros pre Hok.
  { exists []. by rewrite app_nil_r. }
  destruct (insert_ok _ _ _ _ Hok) as [Hins Hrest]. destruct (IH _ Hrest) as (js & Hjs & Hp & Himp).
  cbn [rows_ok] in Hok. rewrite !andb_true_iff in Hok. destruct Hok as [[[Ht _] _] _].
  apply row_typed_spec in Ht as [Hd Hc].
  destruct (export_row_holds (map col t.(columns)) row [] []) as (obj & Ho & Hpo & Hh); [|done|by intros c []%not_elem_of_nil|].
  { intros c (c0 & -> & Hin)%list_elem_of_fmap. exists c0.(ty). by apply Hc. }
  exists (JObject obj :: js). cbn [export_rows]. rewrite Ho. cbn [rbind]. rewrite Hjs. cbn [rbind]. split; [done|].
  split; [by cbn [forallb]; rewrite Hpo|]. cbn [import_rows]. rewrite (import_row_holds _ _ _ row Hh). cbn [rbind].
  rewrite restricted_all by done. rewrite Hins. cbn [rbind]. by rewrite Himp, <- app_assoc.
Qed.

(** The columns of the allowlist, for tables of a schema. *)
Definition listed (nts : list (text * Table)) : list (text * list text) := map (λ nt, (nt.1, map col nt.2.(columns))) nts.

(** What the document says of the tables that have been exported. *)
Definition carries (tables : list (text * Json)) (db : Db) (nt : text * Table) : Prop :=
  ∃ rows js, db !! nt.1 = Some rows ∧ get_field nt.1 tables = Some (JArray js)
    ∧ import_rows nt.1 nt.2 (map col nt.2.(columns)) js [] = Ok rows.

Lemma export_tables_carry db nts out before :
  NoDup (map fst (before ++ nts)) →
  (∀ nt, nt ∈ nts → table_ok db nt = true ∧ schema_of nt.1 = Some nt.2) →
  plain (JObject out) = true → (∀ nt, nt ∈ before → carries out db nt) → (∀ kv, kv ∈ out → kv.1 ∈ map fst before) →
  ∃ tables, export_tables db (listed nts) out = Ok tables ∧ plain (JObject tables) = true
    ∧ (∀ nt, nt ∈ before ++ nts → carries tables db nt) ∧ ∀ kv, kv ∈ tables → kv.1 ∈ map fst (before ++ nts).
Proof.
  revert out before. induction nts as [|[name t] nts IH]; intros out before Hnd Hok Hp Hb Hk.
  { exists out. rewrite app_nil_r. done. }
  destruct (Hok (name, t)) as [Ht Hs]; [by left|]. cbn [fst snd] in *. unfold table_ok in Ht. cbn [fst snd] in Ht.
  destruct (db !! name) as [rows|] eqn:Hrows; [|done].
  destruct (rows_cross name t rows [] Ht) as (js & Hjs & Hpj & Himp). cbn [listed map export_tables fst snd].
  unfold export_table. rewrite Hrows, Hs. replace (forallb _ _) with true.
  2: { symmetry. apply forallb_forall. intros c Hin. by apply bool_decide_eq_true_2, list_elem_of_In. }
  rewrite Hjs. cbn [rbind].
  assert (Hnot : name ∉ map fst before).
  { rewrite map_app in Hnd. cbn [map fst] in Hnd. apply list.NoDup_app in Hnd as (_ & Hx & _). intros Hin.
    apply (Hx name Hin). by left. }
  destruct (IH (map_insert name (JArray js) out) (before ++ [(name, t)])) as (tables & H1 & H2 & H3 & H4).
  - by rewrite <- app_assoc.
  - intros nt Hin. apply Hok. by right.
  - by apply plain_insert.
  - intros nt [Hin|Hin%list_elem_of_singleton]%elem_of_app.
    + destruct (Hb nt Hin) as (r & j & Hr & Hj & Hi). exists r, j. split; [done|]. split; [|done].
      rewrite get_field_map_insert, bool_decide_eq_false_2; [done|]. intros ->. apply Hnot. apply list_elem_of_fmap.
      by exists nt.
    + subst nt. exists rows, js. cbn [fst snd]. by rewrite get_field_map_insert, bool_decide_eq_true_2.
  - intros kv [->|Hin]%map_insert_In; rewrite map_app; apply elem_of_app; [right; by left|left; by apply Hk].
  - exists tables. rewrite <- app_assoc in H3, H4. done.
Qed.

(** Importing them brings the tables to what they were. *)
Lemma import_tables_carried tables db nts target :
  NoDup (map fst nts) →
  (∀ nt, nt ∈ nts → carries tables db nt ∧ schema_of nt.1 = Some nt.2 ∧ target !! nt.1 = Some []) →
  ∃ result, import_tables tables (listed nts) target = Ok result
    ∧ ∀ name, result !! name = if decide (name ∈ map fst nts) then db !! name else target !! name.
Proof.
  revert target. induction nts as [|[name t] nts IH]; intros target Hnd Hc.
  { exists target. done. }
  destruct (Hc (name, t)) as ((rows & js & Hr & Hj & Hi) & Hs & Ht); [by left|]. cbn [fst snd] in *.
  apply list.NoDup_cons in Hnd as [Hn Hnd]. cbn [listed map import_tables fst snd]. rewrite Hj, Ht, Hs.
  assert (Hstep : ∃ target', (match js with [] => import_tables tables (listed nts) target
      | _ => let? rows := import_rows name t (map col (columns t)) js [] in import_tables tables (listed nts) (<[name := rows]> target) end)
      = import_tables tables (listed nts) target' ∧ target' !! name = Some rows
      ∧ ∀ n, n ≠ name → target' !! n = target !! n).
  { destruct js as [|j js].
    - exists target. cbn in Hi. injection Hi as <-. done.
    - exists (<[name := rows]> target). rewrite Hi. cbn [rbind]. split; [done|]. split; [by rewrite lookup_insert_eq|].
      intros n Hne. by rewrite lookup_insert_ne. }
  destruct Hstep as (target' & He & Ht1 & Ht2).
  destruct (IH target' Hnd) as (res & H1 & H2).
  { intros nt Hin. destruct (Hc nt) as (H1 & H2 & H3); [by right|]. split; [done|]. split; [done|]. rewrite Ht2; [done|].
    intros E. apply Hn. rewrite <- E. apply list_elem_of_fmap. by exists nt. }
  exists res. split.
  - rewrite <- H1, <- He. destruct js as [|j js]; [|done]. cbn [import_rows]. unfold rbind.
    assert (rows = []) as -> by (cbn in Hi; congruence). by rewrite insert_id.
  - intros n. rewrite H2. cbn [map fst]. destruct (decide (n = name)) as [->|Hne].
    + rewrite decide_False by done. rewrite decide_True by left. by rewrite Ht1, Hr.
    + rewrite Ht2 by done. destruct (decide (n ∈ map fst nts)) as [Hin|Hin].
      * by rewrite decide_True by (by right).
      * rewrite decide_False; [done|]. by intros [?|?]%elem_of_cons.
Qed.

Lemma delete_tables_ok names db :
  (∀ n, n ∈ map fst names → is_Some (db !! n)) →
  ∃ db', delete_tables names db = Ok db' ∧ (∀ n, n ∈ map fst names → db' !! n = Some [])
    ∧ ∀ n, n ∉ map fst names → db' !! n = db !! n.
Proof.
  revert db. induction names as [|[name cols] names IH]; intros db Hs.
  { exists db. split_and!; [done|by intros n []%not_elem_of_nil|done]. }
  cbn [delete_tables].
  destruct (Hs name) as [rows Hr]; [by left|]. rewrite Hr. destruct (IH (<[name := []]> db)) as (db' & H1 & H2 & H3).
  { intros n Hin. destruct (decide (n = name)) as [->|Hne]; [by rewrite lookup_insert_eq|].
    rewrite lookup_insert_ne by done. apply Hs. by right. }
  exists db'. split; [done|]. split.
  - intros n Hin. destruct (decide (n ∈ map fst names)) as [Hin'|Hin']; [by apply H2|]. rewrite H3 by done.
    apply elem_of_cons in Hin as [->|?]; [by rewrite lookup_insert_eq|done].
  - intros n [Hne Hin]%not_elem_of_cons. rewrite H3 by done. by rewrite lookup_insert_ne.
Qed.

(** A commit only looks at the tables of the schema. *)
Lemma commit_same db res :
  forallb (λ nt, references_hold db nt.2 (default [] (db !! nt.1))) SCHEMA = true →
  (∀ nt, nt ∈ SCHEMA → res !! nt.1 = db !! nt.1) → commit res = Ok res.
Proof.
  intros Hrefs Hsame. unfold commit.
  assert (Hc : forallb (λ nt, references_hold res nt.2 (default [] (res !! nt.1))) SCHEMA = true); [|by rewrite Hc].
  apply forallb_forall. intros nt Hin. rewrite forallb_forall in Hrefs. specialize (Hrefs nt Hin).
  apply list_elem_of_In in Hin. rewrite (Hsame nt Hin). unfold references_hold in *. rewrite forallb_forall in *.
  intros r Hr. specialize (Hrefs r Hr).
  assert (Hall : forallb (λ nt, forallb (λ r, bool_decide (r.2 ∈ map fst SCHEMA)) nt.2.(references)) SCHEMA = true) by by vm_compute.
  pose proof (proj1 (forallb_forall _ _) Hall nt (proj1 (list_elem_of_In _ _) Hin)) as Hnt.
  pose proof (proj1 (forallb_forall _ _) Hnt r Hr) as Hr2. apply bool_decide_eq_true, list_elem_of_fmap in Hr2 as (parent & E & Hp).
  rewrite E in *. by rewrite (Hsame parent Hp).
Qed.

(** A document of listed tables has no other. *)
Lemma known_tables_listed tables :
  (∀ kv, kv ∈ tables → kv.1 ∈ map fst SCHEMA) → known_tables tables = Ok ().
Proof.
  intros Hk. unfold known_tables. destruct (List.find _ _) as [[k v]|] eqn:Hf; [|done]. exfalso.
  apply find_some in Hf as [Hin Hno]. apply list_elem_of_In, Hk, list_elem_of_fmap in Hin as (nt & Hn & Hin).
  cbn [fst] in *. apply negb_true_iff, not_true_iff_false in Hno. apply Hno, existsb_exists.
  exists (nt.1, map col nt.2.(columns)). split; [|by apply bool_decide_eq_true_2].
  rewrite allowlist_complete. apply in_map_iff. exists nt. split; [done|]. by apply list_elem_of_In.
Qed.

(** The document of a backup, as a restore reads it. *)
Lemma restored_document created_at tables z target :
  plain (JObject tables) = true → zstd_encode_all (json_to_vec (backup_document created_at tables)) = Some z →
  restored z target =
    let? _ := known_tables tables in
    let? db := delete_tables (rev BACKUP_TABLES) target in
    let? db := import_tables tables BACKUP_TABLES db in
    commit db.
Proof.
  intros Hp Hz. assert (Hdoc : plain (backup_document created_at tables) = true).
  { unfold backup_document. repeat apply plain_insert; done. }
  unfold restored. rewrite (zstd_roundtrip _ _ Hz), (json_roundtrip _ Hdoc).
  unfold backup_document. rewrite !get_field_map_insert.
  change (bool_decide (str "tables" = str "format")) with false. change (bool_decide (str "created_at" = str "format")) with false.
  change (bool_decide (str "format" = str "format")) with true. change (bool_decide (str "tables" = str "tables")) with true.
  cbv iota. by rewrite bool_decide_eq_true_2.
Qed.

End roundtrip.

(** A backup restores the database it was made of.  Whatever a second database of
    the same schema holds, after the restore every table of the backup is row for row
    what it was, every other table is what it was there, and the references hold; the
    backup of a sound database can only fail in the compression. *)
Theorem backup_restores `{Q : Sqlite, L : BackupLibrary, !BackupLaws L} created_at db target :
  db_ok db = true → Forall (λ nt, is_Some (target !! nt.1)) SCHEMA →
  match write_backup created_at db with
  | Ok compressed => ∃ db', restore_backup compressed target = (db', Ok ())
      ∧ ∀ name, db' !! name = if decide (name ∈ map fst BACKUP_TABLES) then db !! name else target !! name
  | Err e => e = BackupIo
  end.
Proof.
  unfold db_ok. rewrite andb_true_iff. intros [Hok Hrefs] Htarget. rewrite forallb_forall in Hok.
  assert (Hnd : NoDup (map fst SCHEMA)) by (apply (bool_decide_eq_true_1 (NoDup (map fst SCHEMA))); by vm_compute).
  assert (Hschema : ∀ nt, nt ∈ SCHEMA → schema_of nt.1 = Some nt.2).
  { intros nt Hin. apply list_elem_of_In in Hin. repeat (destruct Hin as [<-|Hin]; [done|]). done. }
  destruct (export_tables_carry db SCHEMA [] []) as (tables & He & Hp & Hc & Hk); [done| |done|..].
  { intros nt Hin. split; [|by apply Hschema]. apply Hok. by apply list_elem_of_In. }
  { by intros nt []%not_elem_of_nil. }
  { by intros kv []%not_elem_of_nil. }
  unfold write_backup. change BACKUP_TABLES with (listed SCHEMA). rewrite He. cbn [rbind].
  destruct (zstd_encode_all _) as [z|] eqn:Hz; [|done].
  destruct (delete_tables_ok (rev BACKUP_TABLES) target) as (cleared & Hdel & Hd1 & Hd2).
  { intros n Hin. rewrite map_rev in Hin. apply list_elem_of_In, in_rev, list_elem_of_In in Hin.
    rewrite allowlist_complete, map_map in Hin. apply list_elem_of_fmap in Hin as (nt & -> & Hin).
    rewrite list.Forall_forall in Htarget. by apply Htarget. }
  assert (Hrev : ∀ n, n ∈ map fst (rev BACKUP_TABLES) ↔ n ∈ map fst SCHEMA).
  { intros n. rewrite map_rev. rewrite !list_elem_of_In, <- in_rev. by rewrite allowlist_complete, map_map. }
  destruct (import_tables_carried tables db SCHEMA cleared Hnd) as (res & Hi & Hres).
  { intros nt Hin. split; [by apply Hc|]. split; [by apply Hschema|]. apply Hd1, Hrev, list_elem_of_fmap. by exists nt. }
  exists res. split.
  - unfold restore_backup. rewrite (restored_document created_at tables z target Hp Hz), known_tables_listed by done.
    cbn [rbind]. rewrite Hdel. cbn [rbind]. change BACKUP_TABLES with (listed SCHEMA). rewrite Hi. cbn [rbind].
    rewrite (commit_same db res Hrefs); [done|]. intros nt Hin. rewrite Hres, decide_True; [done|].
    apply list_elem_of_fmap. by exists nt.
  - intros name. rewrite Hres. change (map fst BACKUP_TABLES) with (map fst SCHEMA).
    destruct (decide (name ∈ map fst SCHEMA)) as [Hin|Hin]; [|rewrite Hd2 by (by rewrite Hrev)]; by destruct (decide _).
Qed.

(** ** A library *)

(** A document as a tree of its leaves, to have a text for it. *)
Abbreviation leaf := (unit + bool + (Z + Z + Z) + text)%type.

Definition number_leaf (n : JsonNumber) : Z + Z + Z :=
  match n with PosInt z => inl (inl z) | NegInt z => inl (inr z) | Float z => inr z end.

Fixpoint to_tree (v : Json) : gen_tree leaf :=
  match v with
  | JNull => GenLeaf (inl (inl (inl ())))
  | JBool b => GenLeaf (inl (inl (inr b)))
  | JNumber n => GenLeaf (inl (inr (number_leaf n)))
  | JString s => GenLeaf (inr s)
  | JArray items => GenNode 0 (map to_tree items)
  | JObject fields => GenNode 1 (map (λ f, GenNode 2 [GenLeaf (inr f.1); to_tree f.2]) fields)
  end.

Fixpoint of_tree (t : gen_tree leaf) : Json :=
  match t with
  | GenLeaf (inl (inl (inl _))) => JNull
  | GenLeaf (inl (inl (inr b))) => JBool b
  | GenLeaf (inl (inr (inl (inl z)))) => JNumber (PosInt z)
  | GenLeaf (inl (inr (inl (inr z)))) => JNumber (NegInt z)
  | GenLeaf (inl (inr (inr z))) => JNumber (Float z)
  | GenLeaf (inr s) => JString s
  | GenNode 0 items => JArray (map of_tree items)
  | GenNode _ fields =>
      JObject (map (λ f, match f with GenNode _ [GenLeaf (inr k); v] => (k, of_tree v) | _ => ([], JNull) end) fields)
  end.

Lemma of_to_tree v : of_tree (to_tree v) = v.
Proof.
  revert v. fix IH 1. intros [|b|n|s|items|fields]; cbn [to_tree of_tree]; try done.
  - by destruct n.
  - f_equal. rewrite map_map. induction items as [|v items IHi]; [done|]. cbn [map]. by rewrite IH, IHi.
  - f_equal. rewrite map_map. induction fields as [|[k v] fields IHf]; [done|]. cbn [map fst snd]. by rewrite IH, IHf.
Qed.

#[local] Instance demo_backup : BackupLibrary := {|
  json_to_vec v := [Zpos (encode (to_tree v))];
  json_display _ := [];
  json_from_slice b := match b with [Zpos p] => of_tree <$> decode p | _ => None end;
  zstd_encode_all b := Some b; zstd_decode_all b := Some b;
  convert _ v := Some v |}.

#[local] Instance demo_backup_laws : BackupLaws demo_backup.
Proof.
  split; cbn [json_to_vec json_from_slice zstd_encode_all zstd_decode_all convert demo_backup].
  - intros v _. rewrite decode_encode. cbn. by rewrite of_to_tree.
  - by intros b z [= ->].
  - done.
Qed.

#[local] Instance demo_rowids : Sqlite := {| next_rowid _ := Some 1; sqlite_text _ := [] |}.

Definition text_row (id : Z) (values : list (string * string)) : Row :=
  <[str "id" := SInteger id]> (list_to_map (map (λ kv, (str kv.1, SText (str kv.2))) values)).

(** Two users; one has a login. *)
Definition demo_db : Db :=
  <[str "users" := [text_row 1 [("login_name", "ana"); ("display_name", "Ana"); ("created_at", "t0")];
                    text_row 4 [("login_name", "bob"); ("display_name", "Bob"); ("created_at", "t1")]]]>
  (<[str "logins" := [<[str "user_id" := SInteger 4]>
                        (text_row 1 [("provider", "oidc"); ("login_name", "sub-1"); ("created_at", "t1")])]]>
     (list_to_map (map (λ nt, (nt.1, [])) SCHEMA))).

Definition demo_target : Db := list_to_map (map (λ nt, (nt.1, [])) SCHEMA).

Lemma backup_restores_witness :
  db_ok demo_db = true ∧
  match write_backup (str "now") demo_db with
  | Ok compressed => ∃ db', restore_backup compressed demo_target = (db', Ok ())
      ∧ ∀ name, db' !! name = if decide (name ∈ map fst BACKUP_TABLES) then demo_db !! name else demo_target !! name
  | Err e => e = BackupIo
  end.
Proof.
  assert (Hok : db_ok demo_db = true) by by vm_compute. split; [done|].
  apply (backup_restores (str "now") demo_db demo_target Hok).
  apply list.Forall_forall. intros nt Hin. apply (bool_decide_eq_true_1 (is_Some (demo_target !! nt.1))).
  apply list_elem_of_In in Hin. repeat (destruct Hin as [<-|Hin]; [by vm_compute|]). destruct Hin.
Defined.
