(* ===== verification/StoreRows.v ===== *)
(** * The rows of the store ([crabscale-control/src/store.rs])

    [Store] holds the records of the control plane; here is the text and the
    integers SQLite holds for them: the parameters each [INSERT] binds, and how
    the columns a [SELECT] names are read back.  A database of [Backup] made of
    such rows is what a store is on disk. *)

From S2P Require Import Prelude Text ProtoKey NetMap Pending Store PolicyModel Hujson Validate Backup.

(** ** Libraries *)

(** [serde_json::to_string] and [serde_json::from_str] at a type. *)
Record TextCodec (A : Type) : Type := { to_json : A → text; of_json : text → option A }.
Arguments to_json {A}. Arguments of_json {A}.

Class StoreJson : Type := {
  json_strings : TextCodec (list text);
  json_u8s : TextCodec (list Z);
  json_hostinfo : TextCodec Hostinfo;
  json_pending : TextCodec PendingVerdict;
  json_ssh : TextCodec SshVerdict }.

(** A value whose text is read back as the value. *)
Definition reads_back {A} (c : TextCodec A) (v : A) : Prop := c.(of_json) (c.(to_json) v) = Some v.

(** ** Columns of a result row ([rusqlite::Row::get]) *)

Inductive RowError : Type :=
| InvalidColumnIndex (i : nat)
| InvalidColumnType (i : nat)
| IntegralValueOutOfRange (i : nat)
| FromSqlConversionFailure (i : nat).

(** [FromSql::column_result], given the index for its error. *)
Abbreviation from_sql A := (nat → SqlValue → result A RowError).

Definition sql_text : from_sql text := λ i v,
  match v with
  | SText t => Ok t
  | SBadText _ => Err (FromSqlConversionFailure i)
  | _ => Err (InvalidColumnType i)
  end.

Definition sql_i64 : from_sql Z := λ i v,
  match v with SInteger z => Ok z | _ => Err (InvalidColumnType i) end.

Definition sql_u32 : from_sql Z := λ i v,
  let? z := sql_i64 i v in
  if (0 <=? z) && (z <? 2 ^ 32) then Ok z else Err (IntegralValueOutOfRange i).

Definition sql_opt {A} (f : from_sql A) : from_sql (option A) := λ i v,
  match v with SNull => Ok None | v => rmap Some (f i v) end.

Definition get {A} (f : from_sql A) (i : nat) (row : list SqlValue) : result A RowError :=
  match row !! i with Some v => f i v | None => Err (InvalidColumnIndex i) end.

(** [T::from_str(&row.get::<_, String>(i)?)], the error mapped. *)
Definition get_key (t : KeyType) (i : nat) (row : list SqlValue) : result bytes RowError :=
  let? s := get sql_text i row in map_err (λ _, InvalidColumnType i) (from_str t s).

(** [serde_json::from_str(&s)], the error mapped. *)
Definition parse_json {A} (c : TextCodec A) (i : nat) (s : text) : result A RowError :=
  ok_or (c.(of_json) s) (FromSqlConversionFailure i).

(** [s.map(..).transpose()] *)
Definition parse_json_opt {A} (c : TextCodec A) (i : nat) (s : option text) : result (option A) RowError :=
  match s with None => Ok None | Some s => rmap Some (parse_json c i s) end.

(** [row.get::<_, i64>(i)? != 0] *)
Definition get_flag (i : nat) (row : list SqlValue) : result bool RowError :=
  let? z := get sql_i64 i row in Ok (negb (z =? 0)).

(** ** Casts *)

(** [x as i64], [x as u64], [x as u32] *)
Definition cast_i64 (x : Z) : Z := let w := wrap 64 x in if w <? 2 ^ 63 then w else w - 2 ^ 64.
Definition as_u32 (x : Z) : Z := wrap 32 x.

(** ** Statements *)

(** The row an [INSERT] names the columns of. *)
Definition row_of (cols : list text) (params : list SqlValue) : Row := list_to_map (zip cols params).

(** What a [SELECT] of [cols] returns for a row. *)
Definition select_cols (cols : list text) (row : Row) : list SqlValue := map (λ c, column_value c row) cols.

Definition text_opt (o : option text) : SqlValue := match o with Some t => SText t | None => SNull end.
Definition int_opt (o : option Z) : SqlValue := match o with Some z => SInteger z | None => SNull end.
Definition flag (b : bool) : SqlValue := SInteger (if b then 1 else 0).

Section rows.
  Context `{J : StoreJson}.

(** *** Users and logins *)

Definition USER_COLUMNS : list text := map str ["id"; "login_name"; "display_name"; "created_at"]%string.

Definition user_params (id : option Z) (u : User) : list SqlValue :=
  [int_opt id; SText u.(user_login_name); SText u.(user_display_name); SText u.(user_created_at)].

Definition row_to_user (row : list SqlValue) : result User RowError :=
  let? id := get sql_i64 0 row in
  let? login_name := get sql_text 1 row in
  let? display_name := get sql_text 2 row in
  let? created_at := get sql_text 3 row in
  Ok {| user_id := id; user_login_name := login_name; user_display_name := display_name;
        user_created_at := created_at |}.

Definition LOGIN_COLUMNS : list text := map str ["id"; "user_id"; "provider"; "login_name"; "created_at"]%string.

Definition login_params (id : option Z) (l : Login) : list SqlValue :=
  [int_opt id; SInteger l.(login_user_id); SText l.(login_provider); SText l.(login_name); SText l.(login_created_at)].

Definition row_to_login (row : list SqlValue) : result Login RowError :=
  let? id := get sql_i64 0 row in
  let? user_id := get sql_i64 1 row in
  let? provider := get sql_text 2 row in
  let? name := get sql_text 3 row in
  let? created_at := get sql_text 4 row in
  Ok {| login_id := id; login_user_id := user_id; login_provider := provider; login_name := name;
        login_created_at := created_at |}.

(** *** Nodes *)

(** The columns [upsert_node] inserts. *)
Definition NODE_INSERT : list text := map str
  ["stable_id"; "name"; "user_id"; "node_key"; "machine_key"; "disco_key"; "addresses"; "allowed_ips"; "endpoints";
   "endpoint_types"; "home_derp"; "hostinfo"; "created"; "cap"; "tags"; "advertised_routes"; "approved_routes";
   "machine_authorized"; "ephemeral"; "last_seen"; "key_expiry"]%string.

Definition node_params (n : DomainNode) : list SqlValue :=
  [SText n.(dn_stable_id); SText n.(dn_name); int_opt n.(dn_user_id);
   SText (to_key_string NodeKey n.(dn_node_key)); SText (to_key_string MachineKey n.(dn_machine_key));
   SText (to_key_string DiscoKey n.(dn_disco_key)); SText (json_strings.(to_json) n.(dn_addresses));
   text_opt (json_strings.(to_json) <$> n.(dn_allowed_ips)); SText (json_strings.(to_json) n.(dn_endpoints));
   SText (json_u8s.(to_json) n.(dn_endpoint_types)); SInteger (cast_i64 n.(dn_home_derp));
   text_opt (json_hostinfo.(to_json) <$> n.(dn_hostinfo)); SText n.(dn_created); SInteger (cast_i64 n.(dn_cap));
   text_opt (json_strings.(to_json) <$> n.(dn_tags)); SText (json_strings.(to_json) n.(dn_advertised_routes));
   SText (json_strings.(to_json) n.(dn_approved_routes)); flag n.(dn_machine_authorized); flag n.(dn_ephemeral);
   text_opt n.(dn_last_seen); text_opt n.(dn_key_expiry)].

(** The columns the queries on nodes select. *)
Definition NODE_SELECT : list text := map str
  ["id"; "stable_id"; "name"; "user_id"; "node_key"; "machine_key"; "disco_key"; "addresses"; "allowed_ips"; "endpoints";
   "endpoint_types"; "home_derp"; "hostinfo"; "created"; "cap"; "tags"; "advertised_routes"; "approved_routes";
   "machine_authorized"; "ephemeral"; "last_seen"; "key_expiry"]%string.

Definition row_to_node (row : list SqlValue) : result DomainNode RowError :=
  let? addresses := get sql_text 7 row in
  let? allowed_ips := get (sql_opt sql_text) 8 row in
  let? endpoints := get sql_text 9 row in
  let? endpoint_types := get sql_text 10 row in
  let? hostinfo := get (sql_opt sql_text) 12 row in
  let? tags := get (sql_opt sql_text) 15 row in
  let? advertised_routes := get sql_text 16 row in
  let? approved_routes := get sql_text 17 row in
  let? id := get sql_i64 0 row in
  let? stable_id := get sql_text 1 row in
  let? name := get sql_text 2 row in
  let? user_id := get (sql_opt sql_i64) 3 row in
  let? node_key := get_key NodeKey 4 row in
  let? machine_key := get_key MachineKey 5 row in
  let? disco_key := get_key DiscoKey 6 row in
  let? addresses := parse_json json_strings 7 addresses in
  let? allowed_ips := parse_json_opt json_strings 8 allowed_ips in
  let? endpoints := parse_json json_strings 9 endpoints in
  let? endpoint_types := parse_json json_u8s 10 endpoint_types in
  let? home_derp := get sql_i64 11 row in
  let? hostinfo := parse_json_opt json_hostinfo 12 hostinfo in
  let? created := get sql_text 13 row in
  let? cap := get sql_u32 14 row in
  let? tags := parse_json_opt json_strings 15 tags in
  let? advertised_routes := parse_json json_strings 16 advertised_routes in
  let? approved_routes := parse_json json_strings 17 approved_routes in
  let? machine_authorized := get_flag 18 row in
  let? ephemeral := get_flag 19 row in
  let? last_seen := get (sql_opt sql_text) 20 row in
  let? key_expiry := get (sql_opt sql_text) 21 row in
  Ok {| dn_id := id; dn_stable_id := stable_id; dn_name := name; dn_user_id := user_id; dn_node_key := node_key;
        dn_machine_key := machine_key; dn_disco_key := disco_key; dn_addresses := addresses;
        dn_allowed_ips := allowed_ips; dn_endpoints := endpoints; dn_endpoint_types := endpoint_types;
        dn_home_derp := as_u64 home_derp; dn_hostinfo := hostinfo; dn_created := created; dn_cap := cap;
        dn_tags := tags; dn_advertised_routes := advertised_routes; dn_approved_routes := approved_routes;
        dn_machine_authorized := machine_authorized; dn_ephemeral := ephemeral; dn_last_seen := last_seen;
        dn_key_expiry := key_expiry |}.

(** *** Pre-auth keys *)

Definition KEY_INSERT : list text := map str
  ["prefix"; "secret_hash"; "reusable"; "ephemeral"; "expiration"; "revoked"; "used"; "tags"; "user_id"; "created_at"]%string.

Definition key_params (k : PreAuthKey) : list SqlValue :=
  [SText k.(ak_prefix); SText k.(ak_secret_hash); flag k.(ak_reusable); flag k.(ak_ephemeral);
   text_opt k.(ak_expiration); flag k.(ak_revoked); flag k.(ak_used);
   text_opt (json_strings.(to_json) <$> k.(ak_tags)); SInteger k.(ak_user_id); SText k.(ak_created_at)].

Definition KEY_SELECT : list text := str "id" :: KEY_INSERT.

Definition row_to_pre_auth_key (row : list SqlValue) : result PreAuthKey RowError :=
  let? tags := get (sql_opt sql_text) 8 row in
  let? id := get sql_i64 0 row in
  let? prefix := get sql_text 1 row in
  let? secret_hash := get sql_text 2 row in
  let? reusable := get_flag 3 row in
  let? ephemeral := get_flag 4 row in
  let? expiration := get (sql_opt sql_text) 5 row in
  let? revoked := get_flag 6 row in
  let? used := get_flag 7 row in
  let? tags := parse_json_opt json_strings 8 tags in
  let? user_id := get sql_i64 9 row in
  let? created_at := get sql_text 10 row in
  Ok {| ak_id := id; ak_prefix := prefix; ak_secret_hash := secret_hash; ak_reusable := reusable;
        ak_ephemeral := ephemeral; ak_expiration := expiration; ak_revoked := revoked; ak_used := used;
        ak_tags := tags; ak_user_id := user_id; ak_created_at := created_at |}.

(** *** Policies and sessions *)

Definition POLICY_INSERT : list text := map str ["name"; "body"; "created_at"]%string.

Definition policy_params (d : PolicyDoc) : list SqlValue :=
  [SText d.(doc_name); SText d.(doc_body); SText d.(doc_created_at)].

Definition row_to_policy (row : list SqlValue) : result PolicyDoc RowError :=
  let? id := get sql_i64 0 row in
  let? name := get sql_text 1 row in
  let? body := get sql_text 2 row in
  let? created_at := get sql_text 3 row in
  Ok {| doc_id := id; doc_name := name; doc_body := body; doc_created_at := created_at |}.

Definition SESSION_INSERT : list text := map str ["node_id"; "machine_key"; "created_at"; "last_seen"; "closed_at"]%string.

Definition session_params (r : SessionRow) : list SqlValue :=
  [SInteger r.(sr_node_id); SText (to_key_string MachineKey r.(sr_machine_key)); SText r.(sr_created_at);
   SText r.(sr_last_seen); text_opt r.(sr_closed_at)].

Definition row_to_session (row : list SqlValue) : result SessionRow RowError :=
  let? id := get sql_i64 0 row in
  let? node_id := get sql_i64 1 row in
  let? machine_key := get_key MachineKey 2 row in
  let? created_at := get sql_text 3 row in
  let? last_seen := get sql_text 4 row in
  let? closed_at := get (sql_opt sql_text) 5 row in
  Ok {| sr_id := id; sr_node_id := node_id; sr_machine_key := machine_key; sr_created_at := created_at;
        sr_last_seen := last_seen; sr_closed_at := closed_at |}.

(** *** Pending registrations and SSH records *)

Definition PENDING_COLUMNS : list text := map str
  ["auth_id"; "machine_key"; "node_key"; "hostinfo"; "expiry"; "version"; "ephemeral"; "created_at"; "expires_at";
   "verdict"]%string.

Definition pending_params (p : PendingRow) : list SqlValue :=
  [SText p.(p_auth_id); SText (to_key_string MachineKey p.(p_machine_key));
   SText (to_key_string NodeKey p.(p_node_key)); text_opt (json_hostinfo.(to_json) <$> p.(p_hostinfo));
   SText p.(p_expiry); SInteger (cast_i64 p.(p_version)); flag p.(p_ephemeral); SText p.(p_created_at);
   SText p.(p_expires_at); SText (json_pending.(to_json) p.(p_verdict))].

Definition row_to_pending (row : list SqlValue) : result PendingRow RowError :=
  let? hostinfo := get (sql_opt sql_text) 3 row in
  let? verdict := get sql_text 9 row in
  let? auth_id := get sql_text 0 row in
  let? machine_key := get_key MachineKey 1 row in
  let? node_key := get_key NodeKey 2 row in
  let? hostinfo := parse_json_opt json_hostinfo 3 hostinfo in
  let? expiry := get sql_text 4 row in
  let? version := get sql_i64 5 row in
  let? ephemeral := get_flag 6 row in
  let? created_at := get sql_text 7 row in
  let? expires_at := get sql_text 8 row in
  let? verdict := parse_json json_pending 9 verdict in
  Ok {| p_auth_id := auth_id; p_machine_key := machine_key; p_node_key := node_key; p_hostinfo := hostinfo;
        p_expiry := expiry; p_version := as_u32 version; p_ephemeral := ephemeral; p_created_at := created_at;
        p_expires_at := expires_at; p_verdict := verdict |}.

Definition SSH_COLUMNS : list text := map str
  ["auth_id"; "src_node_id"; "dst_node_id"; "ssh_user"; "local_user"; "machine_key"; "created_at"; "expires_at";
   "verdict"]%string.

Definition ssh_params (a : SshAuth) : list SqlValue :=
  [SText a.(sh_auth_id); SInteger (cast_i64 a.(sh_src_node_id)); SInteger (cast_i64 a.(sh_dst_node_id));
   SText a.(sh_ssh_user); SText a.(sh_local_user); SText (to_key_string MachineKey a.(sh_machine_key));
   SText a.(sh_created_at); SText a.(sh_expires_at); SText (json_ssh.(to_json) a.(sh_verdict))].

Definition row_to_ssh_auth (row : list SqlValue) : result SshAuth RowError :=
  let? verdict := get sql_text 8 row in
  let? auth_id := get sql_text 0 row in
  let? src_node_id := get sql_i64 1 row in
  let? dst_node_id := get sql_i64 2 row in
  let? ssh_user := get sql_text 3 row in
  let? local_user := get sql_text 4 row in
  let? machine_key := get_key MachineKey 5 row in
  let? created_at := get sql_text 6 row in
  let? expires_at := get sql_text 7 row in
  let? verdict := parse_json json_ssh 8 verdict in
  Ok {| sh_auth_id := auth_id; sh_src_node_id := as_u64 src_node_id; sh_dst_node_id := as_u64 dst_node_id;
        sh_ssh_user := ssh_user; sh_local_user := local_user; sh_machine_key := machine_key;
        sh_created_at := created_at; sh_expires_at := expires_at; sh_verdict := verdict |}.

(** *** The rows a store keeps *)

Definition user_row (u : User) : Row := row_of USER_COLUMNS (user_params (Some u.(user_id)) u).
Definition login_row (l : Login) : Row := row_of LOGIN_COLUMNS (login_params (Some l.(login_id)) l).

(** The column [id] that SQLite fills in. *)
Definition node_row (n : DomainNode) : Row := row_of (str "id" :: NODE_INSERT) (SInteger n.(dn_id) :: node_params n).
Definition key_row (k : PreAuthKey) : Row := row_of (str "id" :: KEY_INSERT) (SInteger k.(ak_id) :: key_params k).
Definition policy_row (d : PolicyDoc) : Row := row_of (str "id" :: POLICY_INSERT) (SInteger d.(doc_id) :: policy_params d).
Definition session_row (r : SessionRow) : Row := row_of (str "id" :: SESSION_INSERT) (SInteger r.(sr_id) :: session_params r).
Definition pending_row (p : PendingRow) : Row := row_of PENDING_COLUMNS (pending_params p).
Definition ssh_row (a : SshAuth) : Row := row_of SSH_COLUMNS (ssh_params a).

(** The database of a store. *)
Definition store_db (s : Store) : Db := list_to_map
  [(str "users", map user_row (rows s.(st_users))); (str "logins", map login_row (rows s.(st_logins)));
   (str "nodes", map node_row (rows s.(st_nodes))); (str "pre_auth_keys", map key_row (rows s.(st_keys)));
   (str "policies", map policy_row (rows s.(st_policies))); (str "sessions", map session_row (rows s.(st_sessions)));
   (str "pending_registrations", map pending_row (rows s.(st_pending))); (str "ssh_auths", map ssh_row (rows s.(st_ssh)))].

(** The records of every table. *)
Record Records : Type := {
  r_users : list User; r_logins : list Login; r_nodes : list DomainNode; r_keys : list PreAuthKey;
  r_policies : list PolicyDoc; r_sessions : list SessionRow; r_pending : list PendingRow; r_ssh : list SshAuth }.

Definition store_records (s : Store) : Records :=
  {| r_users := rows s.(st_users); r_logins := rows s.(st_logins); r_nodes := rows s.(st_nodes);
     r_keys := rows s.(st_keys); r_policies := rows s.(st_policies); r_sessions := rows s.(st_sessions);
     r_pending := rows s.(st_pending); r_ssh := rows s.(st_ssh) |}.

(** [stmt.query_map([], f)], collected. *)
Fixpoint query_map {A} (f : list SqlValue → result A RowError) (cols : list text) (rows : list Row) : result (list A) RowError :=
  match rows with
  | [] => Ok []
  | row :: rows =>
      let? a := f (select_cols cols row) in
      let? rest := query_map f cols rows in
      Ok (a :: rest)
  end.

(** Every record of a database, each table by its own query. *)
Definition read_records (db : Db) : result Records RowError :=
  let table name := default [] (db !! str name) in
  let? users := query_map row_to_user USER_COLUMNS (table "users") in
  let? logins := query_map row_to_login LOGIN_COLUMNS (table "logins") in
  let? nodes := query_map row_to_node NODE_SELECT (table "nodes") in
  let? keys := query_map row_to_pre_auth_key KEY_SELECT (table "pre_auth_keys") in
  let? policies := query_map row_to_policy (str "id" :: POLICY_INSERT) (table "policies") in
  let? sessions := query_map row_to_session (str "id" :: SESSION_INSERT) (table "sessions") in
  let? pending := query_map row_to_pending PENDING_COLUMNS (table "pending_registrations") in
  let? ssh := query_map row_to_ssh_auth SSH_COLUMNS (table "ssh_auths") in
  Ok {| r_users := users; r_logins := logins; r_nodes := nodes; r_keys := keys; r_policies := policies;
        r_sessions := sessions; r_pending := pending; r_ssh := ssh |}.

(** ** What a record must be to be stored

    Integers have the width of their Rust types, keys are keys, and the text of a
    value is read back as the value. *)

Definition i64 (z : Z) : Prop := - 2 ^ 63 ≤ z < 2 ^ 63.

Definition user_ok (u : User) : Prop := i64 u.(user_id).
Definition login_ok (l : Login) : Prop := i64 l.(login_id) ∧ i64 l.(login_user_id).

Record node_ok (n : DomainNode) : Prop := {
  no_id : i64 n.(dn_id);
  no_user : ∀ u, n.(dn_user_id) = Some u → i64 u;
  no_node_key : key_wf n.(dn_node_key);
  no_machine_key : key_wf n.(dn_machine_key);
  no_disco_key : key_wf n.(dn_disco_key);
  no_home_derp : 0 ≤ n.(dn_home_derp) < 2 ^ 64;
  no_cap : 0 ≤ n.(dn_cap) < 2 ^ 32;
  no_addresses : reads_back json_strings n.(dn_addresses);
  no_allowed_ips : ∀ l, n.(dn_allowed_ips) = Some l → reads_back json_strings l;
  no_endpoints : reads_back json_strings n.(dn_endpoints);
  no_endpoint_types : reads_back json_u8s n.(dn_endpoint_types);
  no_hostinfo : ∀ h, n.(dn_hostinfo) = Some h → reads_back json_hostinfo h;
  no_tags : ∀ l, n.(dn_tags) = Some l → reads_back json_strings l;
  no_advertised : reads_back json_strings n.(dn_advertised_routes);
  no_approved : reads_back json_strings n.(dn_approved_routes) }.

Definition pre_auth_key_ok (k : PreAuthKey) : Prop :=
  i64 k.(ak_id) ∧ i64 k.(ak_user_id) ∧ ∀ l, k.(ak_tags) = Some l → reads_back json_strings l.
Definition policy_ok (d : PolicyDoc) : Prop := i64 d.(doc_id).
Definition session_ok (r : SessionRow) : Prop := i64 r.(sr_id) ∧ i64 r.(sr_node_id) ∧ key_wf r.(sr_machine_key).

Record pending_ok (p : PendingRow) : Prop := {
  po_machine_key : key_wf p.(p_machine_key);
  po_node_key : key_wf p.(p_node_key);
  po_version : 0 ≤ p.(p_version) < 2 ^ 32;
  po_hostinfo : ∀ h, p.(p_hostinfo) = Some h → reads_back json_hostinfo h;
  po_verdict : reads_back json_pending p.(p_verdict) }.

Record ssh_ok (a : SshAuth) : Prop := {
  so_src : 0 ≤ a.(sh_src_node_id) < 2 ^ 64;
  so_dst : 0 ≤ a.(sh_dst_node_id) < 2 ^ 64;
  so_machine_key : key_wf a.(sh_machine_key);
  so_verdict : reads_back json_ssh a.(sh_verdict) }.

Record records_ok (s : Store) : Prop := {
  ro_users : map_Forall (λ _, user_ok) s.(st_users);
  ro_logins : map_Forall (λ _, login_ok) s.(st_logins);
  ro_nodes : map_Forall (λ _, node_ok) s.(st_nodes);
  ro_keys : map_Forall (λ _, pre_auth_key_ok) s.(st_keys);
  ro_policies : map_Forall (λ _, policy_ok) s.(st_policies);
  ro_sessions : map_Forall (λ _, session_ok) s.(st_sessions);
  ro_pending : map_Forall (λ _, pending_ok) s.(st_pending);
  ro_ssh : map_Forall (λ _, ssh_ok) s.(st_ssh) }.

End rows.

(** ** Lemmas: rows and their columns *)

Lemma wrap_as_i64 x w : (0 < w ≤ 64) → 0 ≤ x < 2 ^ w → wrap w (cast_i64 x) = x.
Proof.
  intros Hw Hx. unfold cast_i64, wrap.
  assert (2 ^ w ≤ 2 ^ 64) by (apply Z.pow_le_mono_r; lia).
  rewrite (Z.mod_small x) by lia.
  destruct (Z.ltb_spec x (2 ^ 63)); [by apply Z.mod_small|].
  replace 64 with (w + (64 - w)) by lia. rewrite Z.pow_add_r by lia.
  replace (x - 2 ^ w * 2 ^ (64 - w)) with (x + (- 2 ^ (64 - w)) * 2 ^ w) by ring.
  rewrite Z.mod_add by lia. by apply Z.mod_small.
Qed.

Lemma as_i64_i64 x : i64 (cast_i64 x).
Proof.
  unfold cast_i64, i64, wrap. pose proof (Z.mod_pos_bound x (2 ^ 64) ltac:(done)).
  destruct (Z.ltb_spec (x mod 2 ^ 64) (2 ^ 63)); lia.
Qed.

(** Where a column is among those of a row. *)
Fixpoint index_of (c : text) (cols : list text) : option nat :=
  match cols with
  | [] => None
  | c' :: cols => if bool_decide (c = c') then Some O else S <$> index_of c cols
  end.

Definition picked (params : list SqlValue) (i : option nat) : SqlValue :=
  match i with Some i => default SNull (params !! i) | None => SNull end.

Lemma column_value_row_of c cols params :
  length params = length cols → column_value c (row_of cols params) = picked params (index_of c cols).
Proof.
  unfold column_value, row_of. revert params.
  induction cols as [|c' cols IH]; intros [|v params] Hl; [done..|].
  change (zip (c' :: cols) (v :: params)) with ((c', v) :: zip cols params).
  rewrite list_to_map_cons. cbn [index_of]. injection Hl as Hl. case_bool_decide as Hc.
  - subst. by rewrite lookup_insert_eq.
  - rewrite lookup_insert_ne, IH by (done || congruence). by destruct (index_of c cols).
Qed.

Lemma select_row_of cs cols params :
  length params = length cols →
  select_cols cs (row_of cols params) = map (picked params) (map (λ c, index_of c cols) cs).
Proof.
  intros Hl. unfold select_cols. rewrite map_map. apply map_ext. intros c. by apply column_value_row_of.
Qed.

(** A [SELECT] of known columns, evaluated. *)
Ltac selected :=
  rewrite select_row_of by done;
  match goal with
  | |- context [map (picked ?ps) ?l] =>
      let l' := eval vm_compute in l in replace l with l' by (vm_compute; reflexivity)
  end;
  cbn [map picked lookup list_lookup default from_option node_params user_params login_params key_params policy_params
       session_params pending_params ssh_params]; unfold id.

(** One column of a row that is read back. *)
Lemma get_eq {A} (f : from_sql A) i row v : row !! i = Some v → get f i row = f i v.
Proof. unfold get. by intros ->. Qed.

Lemma get_key_eq t i row k :
  row !! i = Some (SText (to_key_string t k)) → key_wf k → get_key t i row = Ok k.
Proof.
  intros Hr Hk. unfold get_key, get. rewrite Hr. cbn [sql_text rbind].
  by rewrite to_key_string_roundtrip, decide_True.
Qed.

Lemma get_flag_eq i row b : row !! i = Some (flag b) → get_flag i row = Ok b.
Proof. intros Hr. unfold get_flag, get. rewrite Hr. by destruct b. Qed.

Lemma sql_opt_text i o : sql_opt sql_text i (text_opt o) = Ok o.
Proof. by destruct o. Qed.

Lemma sql_opt_i64 i o : sql_opt sql_i64 i (int_opt o) = Ok o.
Proof. by destruct o. Qed.

Lemma parse_json_eq {A} (c : TextCodec A) i v : reads_back c v → parse_json c i (c.(to_json) v) = Ok v.
Proof. unfold reads_back, parse_json. by intros ->. Qed.

Lemma parse_json_opt_eq {A} (c : TextCodec A) i o :
  (∀ v, o = Some v → reads_back c v) → parse_json_opt c i (c.(to_json) <$> o) = Ok o.
Proof.
  intros Ho. destruct o as [v|]; [|done]. cbn. by rewrite parse_json_eq by by apply Ho.
Qed.

Lemma sql_u32_eq i z : 0 ≤ z < 2 ^ 32 → sql_u32 i (SInteger (cast_i64 z)) = Ok z.
Proof.
  intros Hz. unfold sql_u32. cbn [sql_i64 rbind]. unfold cast_i64, wrap. rewrite Z.mod_small by lia.
  destruct (Z.ltb_spec z (2 ^ 63)); [|lia].
  by destruct (Z.leb_spec 0 z), (Z.ltb_spec z (2 ^ 32)); try lia.
Qed.

(** Reads the columns of a row in the order of the code. *)
Ltac read_columns :=
  repeat (cbn [get lookup list_lookup sql_text sql_i64 rbind];
    first [ rewrite sql_opt_text | rewrite sql_opt_i64
          | erewrite get_flag_eq by reflexivity
          | erewrite get_key_eq by first [reflexivity | done]
          | rewrite parse_json_eq by done
          | rewrite parse_json_opt_eq by done
          | rewrite sql_u32_eq by done ]).

Section read.
  Context `{J : StoreJson}.

Lemma read_user u : row_to_user (select_cols USER_COLUMNS (user_row u)) = Ok u.
Proof. unfold user_row. selected. by destruct u. Qed.

Lemma read_login l : row_to_login (select_cols LOGIN_COLUMNS (login_row l)) = Ok l.
Proof. unfold login_row. selected. by destruct l. Qed.

Lemma read_policy d : row_to_policy (select_cols (str "id" :: POLICY_INSERT) (policy_row d)) = Ok d.
Proof. unfold policy_row. selected. by destruct d. Qed.

Lemma read_session r :
  session_ok r → row_to_session (select_cols (str "id" :: SESSION_INSERT) (session_row r)) = Ok r.
Proof.
  intros (_ & _ & Hk). unfold session_row. selected. unfold row_to_session. read_columns. by destruct r.
Qed.

Lemma read_key k : pre_auth_key_ok k → row_to_pre_auth_key (select_cols KEY_SELECT (key_row k)) = Ok k.
Proof.
  intros (_ & _ & Ht). unfold key_row. selected. unfold row_to_pre_auth_key. read_columns. by destruct k.
Qed.

Lemma read_node n : node_ok n → row_to_node (select_cols NODE_SELECT (node_row n)) = Ok n.
Proof.
  intros []. unfold node_row. selected. unfold row_to_node. read_columns.
  unfold as_u64. rewrite wrap_as_i64 by done. by destruct n.
Qed.

Lemma read_pending p : pending_ok p → row_to_pending (select_cols PENDING_COLUMNS (pending_row p)) = Ok p.
Proof.
  intros []. unfold pending_row. selected. unfold row_to_pending. read_columns.
  unfold as_u32. rewrite wrap_as_i64 by done. by destruct p.
Qed.

Lemma read_ssh a : ssh_ok a → row_to_ssh_auth (select_cols SSH_COLUMNS (ssh_row a)) = Ok a.
Proof.
  intros []. unfold ssh_row. selected. unfold row_to_ssh_auth. read_columns.
  unfold as_u64. rewrite !wrap_as_i64 by done. by destruct a.
Qed.

Lemma query_map_rows {A} (f : list SqlValue → result A RowError) (cols : list text) (enc : A → Row) (m : gmap Z A) :
  map_Forall (λ _ a, f (select_cols cols (enc a)) = Ok a) m →
  query_map f cols (map enc (rows m)) = Ok (rows m).
Proof.
  intros Hm. assert (Hall : Forall (λ a, f (select_cols cols (enc a)) = Ok a) (rows m)).
  { apply list.Forall_forall. intros a [i Hi]%elem_of_rows. by apply (Hm i). }
  induction Hall as [|a l Ha _ IH]; [done|]. cbn [map query_map]. by rewrite Ha, IH.
Qed.

(** The tables of the database of a store. *)
Lemma store_db_tables s :
  store_db s !! str "users" = Some (map user_row (rows s.(st_users)))
  ∧ store_db s !! str "logins" = Some (map login_row (rows s.(st_logins)))
  ∧ store_db s !! str "nodes" = Some (map node_row (rows s.(st_nodes)))
  ∧ store_db s !! str "pre_auth_keys" = Some (map key_row (rows s.(st_keys)))
  ∧ store_db s !! str "policies" = Some (map policy_row (rows s.(st_policies)))
  ∧ store_db s !! str "sessions" = Some (map session_row (rows s.(st_sessions)))
  ∧ store_db s !! str "pending_registrations" = Some (map pending_row (rows s.(st_pending)))
  ∧ store_db s !! str "ssh_auths" = Some (map ssh_row (rows s.(st_ssh))).
Proof.
  unfold store_db. rewrite !list_to_map_cons. split_and!;
    repeat (rewrite lookup_insert_ne by (vm_compute; congruence)); apply lookup_insert_eq.
Qed.

(** The rows of a store are read back as its records, every one of them. *)
Lemma read_store_db db s :
  records_ok s → (∀ nt, nt ∈ SCHEMA → db !! nt.1 = store_db s !! nt.1) →
  read_records db = Ok (store_records s).
Proof.
  intros [] Hdb. unfold read_records.
  destruct (store_db_tables s) as (H1 & H2 & H3 & H4 & H5 & H6 & H7 & H8).
  assert (Ht : ∀ name t rs, In (name, t) SCHEMA → store_db s !! name = Some rs → db !! name = Some rs).
  { intros name t rs Hin <-. by apply (Hdb (name, t)), list_elem_of_In. }
  apply (Ht _ users_table) in H1; [|cbn; tauto].
  apply (Ht _ logins_table) in H2; [|cbn; tauto].
  apply (Ht _ nodes_table) in H3; [|cbn; tauto].
  apply (Ht _ pre_auth_keys_table) in H4; [|cbn; tauto].
  apply (Ht _ policies_table) in H5; [|cbn; tauto].
  apply (Ht _ sessions_table) in H6; [|cbn; tauto].
  apply (Ht _ pending_table) in H7; [|cbn; tauto].
  apply (Ht _ ssh_auths_table) in H8; [|cbn; tauto].
  rewrite H1, H2, H3, H4, H5, H6, H7, H8. cbn [default from_option]. unfold id.
  rewrite (query_map_rows row_to_user) by (intros i u _; apply read_user). cbn [rbind].
  rewrite (query_map_rows row_to_login) by (intros i u _; apply read_login). cbn [rbind].
  rewrite (query_map_rows row_to_node) by (intros i u Hu; by eapply read_node, ro_nodes0). cbn [rbind].
  rewrite (query_map_rows row_to_pre_auth_key) by (intros i u Hu; by eapply read_key, ro_keys0). cbn [rbind].
  rewrite (query_map_rows row_to_policy) by (intros i u _; apply read_policy). cbn [rbind].
  rewrite (query_map_rows row_to_session) by (intros i u Hu; by eapply read_session, ro_sessions0). cbn [rbind].
  rewrite (query_map_rows row_to_pending) by (intros i u Hu; by eapply read_pending, ro_pending0). cbn [rbind].
  rewrite (query_map_rows row_to_ssh_auth) by (intros i u Hu; by eapply read_ssh, ro_ssh0). done.
Qed.

End read.
