(* ===== verification/StoreBackup.v ===== *)
(** * Backups of a store ([crabscale-control/src/store.rs], [backup.rs])

    The database of a store that keeps its invariant is one [Backup] calls sound:
    typed, unique, in order, with its references.  What [StoreRows] reads back
    after a restore is therefore the store that was saved. *)

From S2P Require Import Prelude Text ProtoKey NetMap Pending Store PolicyModel Hujson Validate Backup StoreRows.

(** ** Lemmas: the database of a store is sound *)

(** A value of a column, as [row_typed] tests it. *)
Definition typed_value (c : Column) (v : SqlValue) : bool :=
  stored c.(ty) v && negb (c.(not_null) && bool_decide (v = SNull)).

Lemma row_typed_row_of t cols params :
  length params = length cols →
  (list_to_set cols : gset text) = list_to_set (map col t.(columns)) →
  Forall2 (λ c v, typed_value c v = true) t.(columns)
    (map (picked params) (map (λ c, index_of c.(col) cols) t.(columns))) →
  row_typed t (row_of cols params) = true.
Proof.
  intros Hl Hd Hv. unfold row_typed. apply andb_true_intro. split.
  { apply bool_decide_eq_true. unfold row_of. rewrite dom_list_to_map_L, fst_zip by lia. exact Hd. }
  rewrite map_map in Hv. revert Hv. generalize t.(columns) as cs. intros cs Hv. induction cs as [|c cs IH]; [done|].
  cbn [map forallb] in *.
  apply list.Forall2_cons in Hv as [Hc Hv]. rewrite column_value_row_of by done. unfold typed_value in Hc.
  rewrite Hc. by apply IH.
Qed.

Lemma typed_text name nn t : typed_value {| col := name; ty := TextType; not_null := nn |} (SText t) = true.
Proof. by destruct nn. Qed.

Lemma stored_i64 ct z : i64 z → match ct with TextType => False | _ => True end → stored ct (SInteger z) = true.
Proof.
  unfold i64, stored. intros Hz Hct. destruct ct; [..|done];
    by destruct (Z.leb_spec (- 2 ^ 63) z), (Z.ltb_spec z (2 ^ 63)); try lia.
Qed.

Lemma typed_int name ct nn z :
  i64 z → match ct with TextType => False | _ => True end →
  typed_value {| col := name; ty := ct; not_null := nn |} (SInteger z) = true.
Proof. intros Hz Hct. unfold typed_value. cbn [ty not_null]. rewrite stored_i64 by done. by destruct nn. Qed.

Lemma typed_text_opt name o : typed_value {| col := name; ty := TextType; not_null := false |} (text_opt o) = true.
Proof. by destruct o. Qed.

Lemma typed_int_opt name o :
  (∀ z, o = Some z → i64 z) → typed_value {| col := name; ty := IntegerType; not_null := false |} (int_opt o) = true.
Proof. intros Ho. destruct o as [z|]; [|done]. by apply typed_int; [apply Ho|]. Qed.

Lemma typed_flag name nn b : typed_value {| col := name; ty := IntegerType; not_null := nn |} (flag b) = true.
Proof. by destruct nn, b. Qed.

(** The columns of a row against those of its table, one by one. *)
Ltac typed_columns :=
  apply row_typed_row_of; [done|by apply (bool_decide_eq_true_1 (_ = _)); vm_compute|];
  match goal with
  | |- context [map (picked ?ps) ?l] =>
      let l' := eval vm_compute in l in replace l with l' by (vm_compute; reflexivity)
  end;
  cbn [map picked lookup list_lookup default from_option node_params user_params login_params key_params policy_params
       session_params pending_params ssh_params]; unfold id;
  repeat first [apply List.Forall2_nil | apply List.Forall2_cons];
  unfold nn, opt;
  first [ apply typed_text | apply typed_text_opt | apply typed_flag
        | apply typed_int_opt; assumption | apply typed_int; [first [apply as_i64_i64 | assumption]|done] ].

Section sound.
  Context `{J : StoreJson}.

Lemma user_row_typed u : user_ok u → row_typed users_table (user_row u) = true.
Proof. intros Hi. unfold user_ok in Hi. unfold user_row, users_table. typed_columns. Qed.

Lemma login_row_typed l : login_ok l → row_typed logins_table (login_row l) = true.
Proof. intros [H1 H2]. unfold login_row. typed_columns. Qed.

Lemma node_row_typed n : node_ok n → row_typed nodes_table (node_row n) = true.
Proof. intros []. unfold node_row. typed_columns. Qed.

Lemma key_row_typed k : pre_auth_key_ok k → row_typed pre_auth_keys_table (key_row k) = true.
Proof. intros (H1 & H2 & _). unfold key_row. typed_columns. Qed.

Lemma policy_row_typed d : policy_ok d → row_typed policies_table (policy_row d) = true.
Proof. intros Hi. unfold policy_ok in Hi. unfold policy_row. typed_columns. Qed.

Lemma session_row_typed r : session_ok r → row_typed sessions_table (session_row r) = true.
Proof. intros (H1 & H2 & _). unfold session_row. typed_columns. Qed.

Lemma pending_row_typed p : row_typed pending_table (pending_row p) = true.
Proof. unfold pending_row. typed_columns. Qed.

Lemma ssh_row_typed a : row_typed ssh_auths_table (ssh_row a) = true.
Proof. unfold ssh_row. typed_columns. Qed.

(** *** Order and uniqueness *)

(** [b] may come behind [a] in a scan. *)
Definition may_follow (t : Table) (a b : Row) : bool :=
  forallb (λ cols, negb (same_on cols b a)) t.(uniques) && (negb (has_row_id t) || id_before a b).

Lemma rows_ok_sorted t pre rs :
  Forall (λ r, row_typed t r = true) rs →
  (∀ p r, p ∈ pre → r ∈ rs → may_follow t p r = true) →
  StronglySorted (λ a b, may_follow t a b = true) rs → rows_ok t pre rs = true.
Proof.
  intros Ht. revert pre. induction Ht as [|r rs Hr _ IH]; intros pre Hpre Hs; [done|].
  apply StronglySorted_inv in Hs as [Hs Hhd]. rewrite list.Forall_forall in Hhd. cbn [rows_ok].
  rewrite Hr, IH; [|intros p r' [Hp|<-%list_elem_of_singleton]%elem_of_app Hr'; [apply Hpre; [done|by right]|by apply Hhd]|done].
  assert (Hm : ∀ p, p ∈ pre → may_follow t p r = true) by (intros p Hp; apply Hpre; [done|by left]).
  rewrite andb_true_r. cbn [andb]. apply andb_true_intro. split.
  - apply forallb_forall. intros cols Hcols. apply negb_true_iff, not_true_iff_false.
    intros (p & Hp & Hsame)%existsb_exists. specialize (Hm p ltac:(by apply list_elem_of_In)).
    unfold may_follow in Hm. apply andb_true_iff in Hm as [Hu _]. rewrite forallb_forall in Hu.
    specialize (Hu cols Hcols). by rewrite Hsame in Hu.
  - destruct (has_row_id t) eqn:Hid; [|done]. cbn [negb orb]. apply forallb_forall. intros p Hp%list_elem_of_In.
    specialize (Hm p Hp). unfold may_follow in Hm. apply andb_true_iff in Hm as [_ Hb]. by rewrite Hid in Hb.
Qed.

Lemma sorted_keys_sorted {A : Type} (m : gmap Z A) : StronglySorted Z.lt (sorted_keys m).
Proof.
  pose proof (NoDup_sorted_keys m) as Hnd. pose proof (StronglySorted_merge_sort Z.le (elements (dom m))) as Hs.
  unfold sorted_keys in *. induction Hs as [|x l _ IH Hx]; [constructor|].
  apply list.NoDup_cons in Hnd as [Hin Hnd]. constructor; [by apply IH|].
  rewrite list.Forall_forall in *. intros y Hy. specialize (Hx y Hy).
  assert (x ≠ y) by congruence. lia.
Qed.

Lemma rows_sorted {A : Type} (R : Row → Row → Prop) (enc : A → Row) (m : gmap Z A) :
  (∀ i j a b, m !! i = Some a → m !! j = Some b → i < j → R (enc a) (enc b)) →
  StronglySorted R (map enc (rows m)).
Proof.
  intros HR. unfold rows. pose proof (sorted_keys_sorted m) as Hs.
  assert (Hk : ∀ i, i ∈ sorted_keys m → is_Some (m !! i)) by (intros i; apply elem_of_sorted_keys).
  induction Hs as [|i l _ IH Hi]; [constructor|]. cbn [omap list_omap].
  destruct (Hk i ltac:(by left)) as [a Ha]. rewrite Ha. cbn [map]. constructor.
  { apply IH. intros j Hj. apply Hk. by right. }
  rewrite list.Forall_forall in Hi. apply list.Forall_forall. intros r (b & -> & (j & Hj & Hb)%list_elem_of_omap)%list_elem_of_fmap.
  apply (HR i j); [done..|by apply Hi].
Qed.

Lemma same_on_differs cols a b :
  ¬ (∀ c, c ∈ cols → column_value c a = column_value c b) → same_on cols b a = false.
Proof.
  intros Hn. apply not_true_iff_false. intros Hs. apply Hn. intros c Hc. unfold same_on in Hs.
  rewrite forallb_forall in Hs. apply list_elem_of_In in Hc. specialize (Hs c Hc).
  apply andb_true_iff in Hs as [_ Hs]. by apply bool_decide_eq_true in Hs.
Qed.

(** The rows of a table are in order, typed and unique when its records are: every
    unique set of columns identifies the row, and the column [id] is the row id. *)
Lemma table_sound {A : Type} (t : Table) (enc : A → Row) (m : gmap Z A) :
  (∀ i a, m !! i = Some a → row_typed t (enc a) = true) →
  (has_row_id t = true → ∀ i a, m !! i = Some a → column_value (str "id") (enc a) = SInteger i) →
  Forall (λ cols, ∀ i j a b, m !! i = Some a → m !! j = Some b →
    (∀ c, c ∈ cols → column_value c (enc a) = column_value c (enc b)) → i = j) t.(uniques) →
  rows_ok t [] (map enc (rows m)) = true.
Proof.
  intros Ht Hid Hu. apply rows_ok_sorted; [|by intros p r []%not_elem_of_nil|].
  { apply list.Forall_forall. intros r (a & -> & [i Hi]%elem_of_rows)%list_elem_of_fmap. by apply (Ht i). }
  apply rows_sorted. intros i j a b Ha Hb Hij. unfold may_follow. apply andb_true_intro. split.
  - apply forallb_forall. intros cols Hc%list_elem_of_In. rewrite list.Forall_forall in Hu.
    rewrite same_on_differs; [done|]. intros Hall. pose proof (Hu cols Hc i j a b Ha Hb Hall). lia.
  - destruct (has_row_id t); [|done]. unfold id_before, row_id_of.
    rewrite (Hid eq_refl i a Ha), (Hid eq_refl j b Hb). by apply Z.ltb_lt.
Qed.

Lemma to_key_string_inj t a b : key_wf a → key_wf b → to_key_string t a = to_key_string t b → a = b.
Proof.
  intros Ha Hb E. pose proof (to_key_string_roundtrip t t a Ha) as H1.
  rewrite E, to_key_string_roundtrip, decide_True in H1 by done. rewrite decide_True in H1 by done. congruence.
Qed.

(** *** Each table *)

Lemma id_identifies {A : Type} (enc : A → Row) (m : gmap Z A) :
  (∀ i a, m !! i = Some a → column_value (str "id") (enc a) = SInteger i) →
  ∀ i j a b, m !! i = Some a → m !! j = Some b →
    (∀ c, c ∈ [str "id"] → column_value c (enc a) = column_value c (enc b)) → i = j.
Proof.
  intros Hid i j a b Ha Hb Hall. specialize (Hall (str "id") ltac:(by left)).
  rewrite (Hid i a Ha), (Hid j b Hb) in Hall. by injection Hall.
Qed.

(** The column [id] of a row, from the identity of the record. *)
Ltac id_column ids :=
  intros i a Ha; unfold user_row, login_row, node_row, key_row, policy_row, session_row;
  rewrite column_value_row_of by done; rewrite <- (ids i a Ha); reflexivity.

(** Two records of the store that agree on the column [c]. *)
Ltac same_column c Ha Hb Hall E :=
  intros i j a b Ha Hb Hall; pose proof (Hall (str c) ltac:(set_solver)) as E;
  unfold user_row, login_row, node_row, key_row, policy_row, session_row, pending_row, ssh_row in E;
  rewrite !column_value_row_of in E by done.

Ltac each_unique := repeat apply list.Forall_cons_2; [..|by apply list.Forall_nil_2].

Lemma SText_inj a b : SText a = SText b → a = b.
Proof. by intros [=]. Qed.

Lemma users_sound s : store_inv s → records_ok s → rows_ok users_table [] (map user_row (rows s.(st_users))) = true.
Proof.
  intros Hs Hr.
  assert (Hid : ∀ i u, s.(st_users) !! i = Some u → column_value (str "id") (user_row u) = SInteger i)
    by id_column (si_user_ids s Hs).
  apply table_sound; [|done|each_unique].
  - intros i u Hu. by eapply user_row_typed, (ro_users s Hr).
  - by apply id_identifies.
  - same_column "login_name"%string Ha Hb Hall E. apply (si_user_names s Hs i j a b Ha Hb). by injection E.
Qed.

Lemma logins_sound s : store_inv s → records_ok s → rows_ok logins_table [] (map login_row (rows s.(st_logins))) = true.
Proof.
  intros Hs Hr.
  assert (Hid : ∀ i u, s.(st_logins) !! i = Some u → column_value (str "id") (login_row u) = SInteger i)
    by id_column (si_login_ids s Hs).
  apply table_sound; [|done|each_unique].
  - intros i u Hu. by eapply login_row_typed, (ro_logins s Hr).
  - by apply id_identifies.
  - same_column "provider"%string Ha Hb Hall E. pose proof (Hall (str "login_name") ltac:(set_solver)) as E'.
    unfold login_row in E'. rewrite !column_value_row_of in E' by done.
    apply (si_logins s Hs i j a b Ha Hb). injection E as E. injection E' as E'. by f_equal.
Qed.

Lemma nodes_sound s : store_inv s → records_ok s → rows_ok nodes_table [] (map node_row (rows s.(st_nodes))) = true.
Proof.
  intros Hs Hr.
  assert (Hid : ∀ i u, s.(st_nodes) !! i = Some u → column_value (str "id") (node_row u) = SInteger i)
    by id_column (si_node_ids s Hs).
  apply table_sound; [|done|each_unique].
  - intros i u Hu. by eapply node_row_typed, (ro_nodes s Hr).
  - by apply id_identifies.
  - same_column "stable_id"%string Ha Hb Hall E. apply (si_stable_ids s Hs i j a b Ha Hb). by injection E.
  - same_column "node_key"%string Ha Hb Hall E. apply (si_node_keys s Hs i j a b Ha Hb).
    apply (to_key_string_inj NodeKey); [by eapply no_node_key, (ro_nodes s Hr)..|by apply SText_inj].
Qed.

Lemma keys_sound s : store_inv s → records_ok s → rows_ok pre_auth_keys_table [] (map key_row (rows s.(st_keys))) = true.
Proof.
  intros Hs Hr.
  assert (Hid : ∀ i u, s.(st_keys) !! i = Some u → column_value (str "id") (key_row u) = SInteger i)
    by id_column (si_key_ids s Hs).
  apply table_sound; [|done|each_unique].
  - intros i u Hu. by eapply key_row_typed, (ro_keys s Hr).
  - by apply id_identifies.
  - same_column "prefix"%string Ha Hb Hall E. apply (si_prefixes s Hs i j a b Ha Hb). by injection E.
Qed.

Lemma policies_sound s :
  store_inv s → records_ok s → rows_ok policies_table [] (map policy_row (rows s.(st_policies))) = true.
Proof.
  intros Hs Hr.
  assert (Hid : ∀ i u, s.(st_policies) !! i = Some u → column_value (str "id") (policy_row u) = SInteger i)
    by id_column (si_policy_ids s Hs).
  apply table_sound; [|done|each_unique].
  - intros i u Hu. by eapply policy_row_typed, (ro_policies s Hr).
  - by apply id_identifies.
  - same_column "name"%string Ha Hb Hall E. apply (si_policies s Hs i j a b Ha Hb). by injection E.
Qed.

Lemma sessions_sound s :
  store_inv s → records_ok s → rows_ok sessions_table [] (map session_row (rows s.(st_sessions))) = true.
Proof.
  intros Hs Hr.
  assert (Hid : ∀ i u, s.(st_sessions) !! i = Some u → column_value (str "id") (session_row u) = SInteger i)
    by id_column (si_session_ids s Hs).
  apply table_sound; [|done|each_unique].
  - intros i u Hu. by eapply session_row_typed, (ro_sessions s Hr).
  - by apply id_identifies.
Qed.

Lemma pending_sound s : store_inv s → rows_ok pending_table [] (map pending_row (rows s.(st_pending))) = true.
Proof.
  intros Hs. apply table_sound; [|done|each_unique].
  - intros i u _. apply pending_row_typed.
  - same_column "auth_id"%string Ha Hb Hall E. apply (si_auth_ids s Hs i j a b Ha Hb). by injection E.
Qed.

Lemma ssh_sound s : store_inv s → rows_ok ssh_auths_table [] (map ssh_row (rows s.(st_ssh))) = true.
Proof.
  intros Hs. apply table_sound; [|done|each_unique].
  - intros i u _. apply ssh_row_typed.
  - same_column "auth_id"%string Ha Hb Hall E. apply (si_ssh_ids s Hs i j a b Ha Hb). by injection E.
Qed.

(** *** References *)

Lemma references_single (db : Db) (t : Table) (c parent : text) (rs prs : list Row) {B : Type} (enc : B → Row) (m : gmap Z B) :
  t.(references) = [(c, parent)] → db !! parent = Some prs → prs = map enc (rows m) →
  (∀ i b, m !! i = Some b → column_value (str "id") (enc b) = SInteger i) →
  (∀ r, r ∈ rs → column_value c r = SNull ∨ ∃ i, column_value c r = SInteger i ∧ is_Some (m !! i)) →
  references_hold db t rs = true.
Proof.
  intros Ht Hp -> Hid Hr. unfold references_hold. rewrite Ht. cbn [forallb fst snd]. rewrite Hp, andb_true_r.
  cbn [default from_option]. unfold id. apply forallb_forall. intros r Hin%list_elem_of_In.
  apply orb_true_iff. destruct (Hr r Hin) as [Hn|(i & Hi & [b Hb])].
  - left. by apply bool_decide_eq_true.
  - right. apply existsb_exists. exists (enc b). split.
    + apply list_elem_of_In, list_elem_of_fmap. exists b. split; [done|]. apply elem_of_rows. by exists i.
    + apply bool_decide_eq_true. by rewrite (Hid i b Hb), Hi.
Qed.

Lemma references_none db t rs : t.(references) = [] → references_hold db t rs = true.
Proof. unfold references_hold. by intros ->. Qed.

(** The rows that refer to users: those of logins, nodes and keys. *)
Lemma user_reference db t rs s :
  db !! str "users" = Some (map user_row (rows s.(st_users))) → store_inv s →
  t.(references) = [(str "user_id", str "users")] →
  (∀ r, r ∈ rs → column_value (str "user_id") r = SNull
     ∨ ∃ i, column_value (str "user_id") r = SInteger i ∧ is_Some (s.(st_users) !! i)) →
  references_hold db t rs = true.
Proof.
  intros Hu Hs Ht. apply (references_single _ _ _ _ _ _ user_row s.(st_users) Ht Hu eq_refl).
  id_column (si_user_ids s Hs).
Qed.

(** The database of a store whose keys and references hold, and whose records fit
    their columns, is a sound database of the schema. *)
Lemma store_db_ok s : store_inv s → records_ok s → db_ok (store_db s) = true.
Proof.
  intros Hs Hr. destruct (store_db_tables s) as (H1 & H2 & H3 & H4 & H5 & H6 & H7 & H8).
  unfold db_ok, SCHEMA. cbn [forallb]. unfold table_ok. cbn [fst snd].
  rewrite H1, H2, H3, H4, H5, H6, H7, H8. cbn [default from_option]. unfold id.
  rewrite users_sound, logins_sound, nodes_sound, keys_sound, policies_sound, sessions_sound, pending_sound, ssh_sound by done.
  rewrite !(references_none _ users_table), !(references_none _ policies_table), !(references_none _ pending_table),
    !(references_none _ ssh_auths_table) by done.
  rewrite (user_reference _ logins_table _ s H1 Hs eq_refl), (user_reference _ nodes_table _ s H1 Hs eq_refl),
    (user_reference _ pre_auth_keys_table _ s H1 Hs eq_refl).
  - cbn [andb]. rewrite andb_true_r.
    apply (references_single _ sessions_table (str "node_id") (str "nodes") _ _ node_row s.(st_nodes) eq_refl H3 eq_refl).
    + id_column (si_node_ids s Hs).
    + intros r (a & -> & [i Ha]%elem_of_rows)%list_elem_of_fmap. right. exists a.(sr_node_id).
      unfold session_row. rewrite column_value_row_of by done. split; [done|exact (si_session_nodes s Hs i a Ha)].
  - intros r (a & -> & [i Ha]%elem_of_rows)%list_elem_of_fmap. right. exists a.(ak_user_id).
    unfold key_row. rewrite column_value_row_of by done. split; [done|exact (si_key_users s Hs i a Ha)].
  - intros r (a & -> & [i Ha]%elem_of_rows)%list_elem_of_fmap. unfold node_row. rewrite column_value_row_of by done.
    change (picked _ _) with (int_opt a.(dn_user_id)). destruct a.(dn_user_id) as [u|] eqn:Hu; [|by left].
    right. exists u. split; [done|exact (si_owners s Hs i a u Ha Hu)].
  - intros r (a & -> & [i Ha]%elem_of_rows)%list_elem_of_fmap. right. exists a.(login_user_id).
    unfold login_row. rewrite column_value_row_of by done. split; [done|exact (si_login_users s Hs i a Ha)].
Qed.

End sound.

(** ** A store, its database, its backup *)

(** C37. A backup restores the store.  Whatever operations a store has been through, as
    long as its records fit their columns, reading every table of its database gives
    back its records; and a backup of that database, restored over any database of the
    schema, gives one from which the same records are read, or it failed in the
    compression. *)
Theorem store_backup_restores `{Q : Sqlite, !SqliteLaws Q, L : BackupLibrary, !BackupLaws L, J : StoreJson}
    (ops : list store_op) created_at target :
  let s := fold_left (λ s op, store_step op s) ops Store_empty in
  records_ok s → Forall (λ nt, is_Some (target !! nt.1)) SCHEMA →
  read_records (store_db s) = Ok (store_records s)
  ∧ match write_backup created_at (store_db s) with
    | Ok compressed => ∃ db, restore_backup compressed target = (db, Ok ()) ∧ read_records db = Ok (store_records s)
    | Err e => e = BackupIo
    end.
Proof.
  intros s Hr Ht. split; [by apply read_store_db|].
  assert (Hs : store_inv s) by apply store_inv_run.
  pose proof (backup_restores created_at (store_db s) target (store_db_ok s Hs Hr) Ht) as Hb.
  destruct (write_backup created_at (store_db s)) as [z|e]; [|done].
  destruct Hb as (db & Hrestore & Hsame). exists db. split; [done|]. apply read_store_db; [done|].
  intros nt Hin. rewrite Hsame, decide_True; [done|].
  rewrite allowlist_complete, map_map. apply list_elem_of_fmap. by exists nt.
Qed.

(** ** A store *)

Lemma map_Forall_rows {A : Type} (P : A → Prop) (m : gmap Z A) : Forall P (rows m) → map_Forall (λ _, P) m.
Proof. rewrite list.Forall_forall. intros H i a Ha. apply H, elem_of_rows. by exists i. Qed.

#[local] Existing Instance demo_backup_laws.

#[local] Instance demo_codecs : StoreJson := {|
  json_strings := {| to_json l := [Zpos (encode l)]; of_json t := match t with [Zpos p] => decode p | _ => None end |};
  json_u8s := {| to_json l := l; of_json := Some |};
  json_hostinfo := {| to_json _ := []; of_json _ := None |};
  json_pending := {| to_json _ := []; of_json _ := Some VRejected |};
  json_ssh := {| to_json _ := []; of_json _ := Some SshRejected |} |}.

Definition demo_stored (k : Z) : DomainNode :=
  {| dn_id := 0; dn_stable_id := []; dn_name := str "n"; dn_user_id := Some 1; dn_node_key := replicate 32 k;
     dn_machine_key := replicate 32 7; dn_disco_key := replicate 32 8; dn_addresses := [str "100.64.0.1/32"];
     dn_allowed_ips := Some []; dn_endpoints := []; dn_endpoint_types := [1]; dn_home_derp := 2 ^ 64 - 1;
     dn_hostinfo := None; dn_created := str "now"; dn_cap := 130; dn_tags := None; dn_advertised_routes := [];
     dn_approved_routes := []; dn_machine_authorized := true; dn_ephemeral := false; dn_last_seen := Some (str "now");
     dn_key_expiry := None |}.

Definition demo_ops : list store_op :=
  [CreateUser demo_user; UpsertNode (demo_stored 1); UpsertNode (demo_stored 2); DeleteNode (replicate 32 1);
   SaveSsh {| sh_auth_id := str "a"; sh_src_node_id := 2 ^ 64 - 1; sh_dst_node_id := 2; sh_ssh_user := str "root";
              sh_local_user := str "me"; sh_machine_key := replicate 32 7; sh_created_at := str "now";
              sh_expires_at := str "then"; sh_verdict := SshRejected |}].

Definition demo_run : Store := fold_left (λ s op, store_step op s) demo_ops Store_empty.

Lemma demo_key_wf k : 0 ≤ k < 256 → key_wf (replicate 32 k).
Proof. intros Hk. split; [by apply Forall_replicate|done]. Qed.

Lemma demo_records_ok : records_ok demo_run.
Proof.
  split; apply map_Forall_rows.
  - assert (rows (st_users demo_run) = [demo_user]) as -> by (by vm_compute). by repeat constructor.
  - assert (rows (st_logins demo_run) = []) as -> by (by vm_compute). constructor.
  - assert (rows (st_nodes demo_run) = [set_dn_id 2 (set_dn_stable_id (show_stable_id 2) (demo_stored 2))]) as ->
      by (by vm_compute).
    constructor; [|constructor]. split; try done; try by apply demo_key_wf.
    + by intros u [= <-].
    + by intros l [= <-].
  - assert (rows (st_keys demo_run) = []) as -> by (by vm_compute). constructor.
  - assert (rows (st_policies demo_run) = []) as -> by (by vm_compute). constructor.
  - assert (rows (st_sessions demo_run) = []) as -> by (by vm_compute). constructor.
  - assert (rows (st_pending demo_run) = []) as -> by (by vm_compute). constructor.
  - assert (zlen (rows (st_ssh demo_run)) = 1) by (by vm_compute).
    destruct (rows (st_ssh demo_run)) as [|a l] eqn:E; [done|]. vm_compute in E. injection E as <- <-.
    constructor; [|constructor]. split; try done. by apply (demo_key_wf 7).
Qed.

Lemma store_backup_restores_witness :
  read_records (store_db demo_run) = Ok (store_records demo_run)
  ∧ match write_backup (L := demo_backup) (str "now") (store_db demo_run) with
    | Ok compressed => ∃ db, restore_backup (L := demo_backup) compressed demo_target = (db, Ok ())
                             ∧ read_records db = Ok (store_records demo_run)
    | Err e => e = BackupIo
    end.
Proof.
  apply (store_backup_restores (Q := sqlite_max) (L := demo_backup) demo_ops (str "now") demo_target).
  - exact demo_records_ok.
  - by repeat constructor; eexists.
Defined.
