(* ===== verification/Migrate.v ===== *)
(** * Migrations of the store ([run_migrations] of [crabscale-control/src/store.rs])

    A database file is its tables, their rows and [user_version].  A migration is a
    batch of statements: [execute_batch] runs them one after the other, each a
    transaction of its own unless the batch opens one.  So a start that stops in the
    middle of a batch leaves what the statements before it did; [interrupted] is
    that. *)

From S2P Require Import Prelude Text PolicyModel Hujson Validate Pending Store Backup.

(** ** Statements *)

Record Disk : Type := { d_schema : gmap text Table; d_rows : Db; d_version : Z }.

Inductive MigrateError : Type :=
| TableExists (t : text)
| NoSuchTable (t : text)
| DuplicateColumn (c : text)
| ConstraintFailed (e : BackupError)
| ForeignKeyFailed.

(** What the batches are made of.  An index that is not unique changes no result. *)
Inductive Stmt : Type :=
| CreateTable (if_not_exists : bool) (name : text) (t : Table)
| AddColumn (table : text) (c : Column) (initial : SqlValue)
| CreateIndex (table : text)
| CreateUniqueIndex (table : text) (cols : list text)
| InsertSelect (into : text) (cols : list text) (from : text)
| DropTable (name : text)
| RenameTable (from to : text)
| SetUserVersion (v : Z).

Definition set_rows (r : Db) (d : Disk) : Disk := {| d_schema := d.(d_schema); d_rows := r; d_version := d.(d_version) |}.
Definition set_table (name : text) (t : Table) (rs : list Row) (d : Disk) : Disk :=
  {| d_schema := <[name := t]> d.(d_schema); d_rows := <[name := rs]> d.(d_rows); d_version := d.(d_version) |}.

(** No row agrees on the columns with one before it, those of [pre] included. *)
Fixpoint no_duplicates (cols : list text) (pre rs : list Row) : bool :=
  match rs with
  | [] => true
  | r :: rs => negb (existsb (same_on cols r) pre) && no_duplicates cols (pre ++ [r]) rs
  end.

Section migrate.
  Context `{Q : Sqlite, L : BackupLibrary}.

(** [INSERT INTO .. SELECT cols FROM ..] *)
Fixpoint insert_rows (t : Table) (cols : list text) (from : list Row) (rs : list Row) : result (list Row) BackupError :=
  match from with
  | [] => Ok rs
  | r :: from =>
      let? rs := insert_sql t (list_to_map (map (λ c, (c, column_value c r)) cols)) rs in
      insert_rows t cols from rs
  end.

Definition exec (s : Stmt) (d : Disk) : result Disk MigrateError :=
  match s with
  | CreateTable if_not_exists name t =>
      match d.(d_schema) !! name with
      | Some _ => if if_not_exists then Ok d else Err (TableExists name)
      | None => Ok (set_table name t [] d)
      end
  | AddColumn name c initial =>
      match d.(d_schema) !! name, d.(d_rows) !! name with
      | Some t, Some rs =>
          if bool_decide (c.(col) ∈ map col t.(columns)) then Err (DuplicateColumn c.(col))
          else Ok (set_table name
                     {| columns := t.(columns) ++ [c]; uniques := t.(uniques); references := t.(references) |}
                     (map (<[c.(col) := initial]>) rs) d)
      | _, _ => Err (NoSuchTable name)
      end
  | CreateIndex name => match d.(d_schema) !! name with Some _ => Ok d | None => Err (NoSuchTable name) end
  | CreateUniqueIndex name cols =>
      match d.(d_schema) !! name, d.(d_rows) !! name with
      | Some t, Some rs =>
          if bool_decide (cols ∈ t.(uniques)) then Ok d
          else if no_duplicates cols [] rs then
            Ok (set_table name {| columns := t.(columns); uniques := t.(uniques) ++ [cols]; references := t.(references) |} rs d)
          else Err (ConstraintFailed (BackupSqlite (Some UniqueConstraint)))
      | _, _ => Err (NoSuchTable name)
      end
  | InsertSelect into cols from =>
      match d.(d_schema) !! into, d.(d_rows) !! into, d.(d_rows) !! from with
      | Some t, Some rs, Some from =>
          let? rs := map_err ConstraintFailed (insert_rows t cols from rs) in
          Ok (set_table into t rs d)
      | _, _, _ => Err (NoSuchTable from)
      end
  | DropTable name =>
      match d.(d_schema) !! name with
      | Some _ => Ok {| d_schema := delete name d.(d_schema); d_rows := delete name d.(d_rows); d_version := d.(d_version) |}
      | None => Err (NoSuchTable name)
      end
  | RenameTable from to =>
      match d.(d_schema) !! from, d.(d_rows) !! from, d.(d_schema) !! to with
      | Some t, Some rs, None =>
          Ok {| d_schema := <[to := t]> (delete from d.(d_schema)); d_rows := <[to := rs]> (delete from d.(d_rows));
                d_version := d.(d_version) |}
      | Some _, _, Some _ => Err (TableExists to)
      | _, _, _ => Err (NoSuchTable from)
      end
  | SetUserVersion v => Ok {| d_schema := d.(d_schema); d_rows := d.(d_rows); d_version := v |}
  end.

(** What is on the disk after each statement, and how the run ends. *)
Fixpoint exec_all (ss : list Stmt) (d : Disk) : Disk * result unit MigrateError :=
  match ss with
  | [] => (d, Ok ())
  | s :: ss => match exec s d with Ok d => exec_all ss d | Err e => (d, Err e) end
  end.

(** The check of a commit with [foreign_keys = ON]. *)
Definition foreign_keys_hold (d : Disk) : bool :=
  forallb (λ nt, references_hold d.(d_rows) nt.2 (default [] (d.(d_rows) !! nt.1))) (map_to_list d.(d_schema)).

(** A batch: whether it is one transaction, its statements, and the value it gives the
    variable [version] of the code. *)
Record Batch : Type := { below : Z; transaction : bool; stmts : list Stmt; sets : option Z }.

(** A transaction that does not commit is rolled back. *)
Definition exec_batch (b : Batch) (d : Disk) : Disk * result unit MigrateError :=
  match exec_all b.(stmts) d with
  | (d', Ok _) => if b.(transaction) && negb (foreign_keys_hold d') then (d, Err ForeignKeyFailed) else (d', Ok ())
  | (d', Err e) => (if b.(transaction) then d else d', Err e)
  end.

(** ** The batches *)

Definition names : list string → list text := map str.

(** The node table before and after its columns were added, the login table before its
    second index. *)
Definition nodes_before (n : nat) : Table :=
  {| columns := take n nodes_table.(columns); uniques := nodes_table.(uniques); references := nodes_table.(references) |}.

Definition logins_v1 : Table :=
  {| columns := logins_table.(columns); uniques := [[str "id"]]; references := logins_table.(references) |}.

Definition NODE_COLUMNS_V5 : list text := names
  ["id"; "stable_id"; "name"; "user_id"; "node_key"; "machine_key"; "disco_key"; "addresses"; "allowed_ips"; "endpoints";
   "endpoint_types"; "home_derp"; "hostinfo"; "created"; "cap"; "tags"; "machine_authorized"; "ephemeral"]%string.

Definition BATCHES_TO_5 : list Batch :=
  [ {| below := 1; transaction := true; sets := Some 3; stmts :=
         [CreateTable true (str "users") users_table; CreateTable true (str "logins") logins_v1;
          CreateTable true (str "nodes") (nodes_before 18); CreateIndex (str "nodes");
          CreateTable true (str "pre_auth_keys") pre_auth_keys_table; CreateTable true (str "policies") policies_table;
          CreateTable true (str "sessions") sessions_table; SetUserVersion 3] |};
    {| below := 2; transaction := false; sets := None; stmts :=
         [AddColumn (str "nodes") (nn "ephemeral" IntegerType) (SInteger 0); SetUserVersion 2] |};
    {| below := 3; transaction := false; sets := None; stmts :=
         [AddColumn (str "nodes") (nn "endpoint_types" TextType) (SText (str "[]")); SetUserVersion 3] |};
    {| below := 4; transaction := false; sets := Some 4; stmts :=
         [CreateTable true (str "pending_registrations") pending_table; SetUserVersion 4] |};
    {| below := 5; transaction := true; sets := None; stmts :=
         [CreateTable false (str "nodes_v5") (nodes_before 18);
          InsertSelect (str "nodes_v5") NODE_COLUMNS_V5 (str "nodes"); DropTable (str "nodes");
          RenameTable (str "nodes_v5") (str "nodes"); CreateIndex (str "nodes"); SetUserVersion 5] |} ].

Definition BATCHES_TO_9 : list Batch :=
  [ {| below := 6; transaction := false; sets := None; stmts :=
         [AddColumn (str "nodes") (nn "advertised_routes" TextType) (SText (str "[]"));
          AddColumn (str "nodes") (nn "approved_routes" TextType) (SText (str "[]")); SetUserVersion 6] |};
    {| below := 7; transaction := false; sets := None; stmts :=
         [CreateTable true (str "ssh_auths") ssh_auths_table; CreateIndex (str "ssh_auths"); SetUserVersion 7] |};
    {| below := 8; transaction := false; sets := None; stmts :=
         [CreateUniqueIndex (str "logins") (names ["provider"; "login_name"]%string); SetUserVersion 8] |};
    {| below := 9; transaction := false; sets := None; stmts :=
         [AddColumn (str "nodes") (opt "last_seen" TextType) SNull; AddColumn (str "nodes") (opt "key_expiry" TextType) SNull;
          SetUserVersion 9] |} ].

Definition MIGRATIONS : list Batch := BATCHES_TO_5 ++ BATCHES_TO_9.

(** The [if version < ..] of the code, one after the other. *)
Fixpoint run_batches (bs : list Batch) (version : Z) (d : Disk) : Disk * result unit MigrateError :=
  match bs with
  | [] => (d, Ok ())
  | b :: bs =>
      if version <? b.(below) then
        match exec_batch b d with
        | (d, Ok _) => run_batches bs (default version b.(sets)) d
        | (d, Err e) => (d, Err e)
        end
      else run_batches bs version d
  end.

Definition run_migrations (d : Disk) : Disk * result unit MigrateError := run_batches MIGRATIONS d.(d_version) d.

(** A file SQLite has just created. *)
Definition Disk_empty : Disk := {| d_schema := ∅; d_rows := ∅; d_version := 0 |}.

(** What a start that is cut off leaves: [n] statements of a batch that is no
    transaction are done, one that is a transaction is rolled back. *)
Definition interrupted (n : nat) (b : Batch) (d : Disk) : Disk :=
  if b.(transaction) then d else (exec_all (take n b.(stmts)) d).1.

End migrate.

(** ** What a sound file is *)

(** Every table has its rows, typed, unique and in order, and what they refer to
    exists. *)
Record disk_ok (d : Disk) : Prop := {
  dk_dom name : d.(d_schema) !! name = None → d.(d_rows) !! name = None;
  dk_tables name t : d.(d_schema) !! name = Some t →
    ∃ rs, d.(d_rows) !! name = Some rs ∧ rows_ok t [] rs = true ∧ references_hold d.(d_rows) t rs = true }.

(** The tables of a file of version [v], from 3 on. *)
Definition schema_at (v : Z) : gmap text Table := list_to_map
  ([(str "users", users_table); (str "logins", if v <? 8 then logins_v1 else logins_table);
    (str "nodes", nodes_before (if v <? 6 then 18 else if v <? 9 then 20 else 22));
    (str "pre_auth_keys", pre_auth_keys_table); (str "policies", policies_table); (str "sessions", sessions_table)]
   ++ (if v <? 4 then [] else [(str "pending_registrations", pending_table)])
   ++ (if v <? 7 then [] else [(str "ssh_auths", ssh_auths_table)])).

(** The columns a node of version [v] gets. *)
Definition added_columns (v : Z) : list (text * SqlValue) :=
  (if v <? 6 then [(str "advertised_routes", SText (str "[]")); (str "approved_routes", SText (str "[]"))] else [])
  ++ (if v <? 9 then [(str "last_seen", SNull); (str "key_expiry", SNull)] else []).

Definition with_columns (cols : list (text * SqlValue)) (r : Row) : Row := foldl (λ r cv, <[cv.1 := cv.2]> r) r cols.

Definition upgraded (v : Z) (name : text) (r : Row) : Row :=
  if bool_decide (name = str "nodes") then with_columns (added_columns v) r else r.

(** ** Lemmas: rows *)

Lemma column_value_insert (c n : text) (v : SqlValue) (r : Row) : c ≠ n → column_value c (<[n := v]> r) = column_value c r.
Proof. intros Hne. unfold column_value. by rewrite lookup_insert_ne. Qed.

Lemma column_value_inserted (n : text) (v : SqlValue) (r : Row) : column_value n (<[n := v]> r) = v.
Proof. unfold column_value. by rewrite lookup_insert_eq. Qed.

Lemma forallb_ext_In {A : Type} (f g : A → bool) l : (∀ a, a ∈ l → f a = g a) → forallb f l = forallb g l.
Proof.
  induction l as [|a l IH]; intros H; [done|]. cbn. rewrite (H a) by (by left). f_equal. apply IH. intros b Hb.
  apply H. by right.
Qed.

Lemma same_on_insert (cols : list text) (n : text) (v : SqlValue) (a b : Row) : n ∉ cols → same_on cols (<[n := v]> a) (<[n := v]> b) = same_on cols a b.
Proof.
  intros Hn. unfold same_on. apply forallb_ext_In. intros c Hc.
  rewrite !column_value_insert by (intros ->; done). done.
Qed.

Lemma existsb_map {A B : Type} (f : A → B) (p : B → bool) l : existsb p (map f l) = existsb (λ a, p (f a)) l.
Proof. induction l as [|a l IH]; [done|]. cbn. by rewrite IH. Qed.

Lemma forallb_map {A B : Type} (f : A → B) (p : B → bool) l : forallb p (map f l) = forallb (λ a, p (f a)) l.
Proof. induction l as [|a l IH]; [done|]. cbn. by rewrite IH. Qed.

(** A table with one more column. *)
Definition add_column (t : Table) (c : Column) : Table :=
  {| columns := t.(columns) ++ [c]; uniques := t.(uniques); references := t.(references) |}.

(** A column that may be added: new, no row id, in no index and no reference, and with
    a value it stores. *)
Record addable (t : Table) (c : Column) (v : SqlValue) : Prop := {
  ad_new : c.(col) ∉ map col t.(columns);
  ad_id : c.(col) ≠ str "id" ∧ c.(ty) ≠ RowId;
  ad_uniques : Forall (λ cols, c.(col) ∉ cols) t.(uniques);
  ad_references : c.(col) ∉ map fst t.(references);
  ad_stored : stored c.(ty) v = true;
  ad_not_null : c.(not_null) = true → v ≠ SNull }.

Lemma row_typed_add (t : Table) (c : Column) (v : SqlValue) (r : Row) : addable t c v → row_typed t r = true → row_typed (add_column t c) (<[c.(col) := v]> r) = true.
Proof.
  intros [] [Hd Hc]%row_typed_spec. apply row_typed_spec. split.
  - cbn [add_column columns]. rewrite dom_insert_L, Hd, map_app, list_to_set_app_L. cbn. set_solver.
  - cbn [add_column columns]. intros c' [Hin|Hin%list_elem_of_singleton]%elem_of_app.
    + rewrite column_value_insert; [by apply Hc|]. intros E. apply ad_new0. rewrite <- E.
      apply list_elem_of_fmap. by exists c'.
    + subst c'. by rewrite column_value_inserted.
Qed.

Lemma id_before_insert (n : text) (v : SqlValue) (a b : Row) : n ≠ str "id" → id_before (<[n := v]> a) (<[n := v]> b) = id_before a b.
Proof. intros Hn. unfold id_before, row_id_of. by rewrite !column_value_insert. Qed.

Lemma has_row_id_add t c : c.(ty) ≠ RowId → has_row_id (add_column t c) = has_row_id t.
Proof. intros Hc. unfold has_row_id, add_column. cbn [columns]. rewrite existsb_app. cbn. destruct (ty c); [done|..]; by rewrite orb_false_r. Qed.

Lemma rows_ok_add (t : Table) (c : Column) (v : SqlValue) (pre rs : list Row) :
  addable t c v → rows_ok t pre rs = true →
  rows_ok (add_column t c) (map (<[c.(col) := v]>) pre) (map (<[c.(col) := v]>) rs) = true.
Proof.
  intros Ha. pose proof Ha as []. revert pre. induction rs as [|r rs IH]; intros pre; [done|]. cbn [map rows_ok].
  rewrite !andb_true_iff. intros [[[Ht Hu] Ho] Hr]. split_and!.
  - by apply row_typed_add.
  - cbn [add_column uniques]. rewrite <- Hu. apply forallb_ext_In. intros cols Hin.
    rewrite list.Forall_forall in ad_uniques0. rewrite existsb_map. f_equal. induction pre as [|p pre IHp]; [done|].
    cbn [existsb]. f_equal; [by apply same_on_insert, ad_uniques0|]. clear -ad_uniques0 Hin.
    induction pre as [|q pre IHp]; [done|]. cbn [existsb]. f_equal; [by apply same_on_insert, ad_uniques0|done].
  - rewrite has_row_id_add by apply ad_id0. rewrite <- Ho. f_equal. rewrite forallb_map. apply forallb_ext_In.
    intros p _. apply id_before_insert, ad_id0.
  - specialize (IH (pre ++ [r]) Hr). by rewrite map_app in IH.
Qed.

Lemma rows_ok_unique (t : Table) (cols : list text) (pre rs : list Row) :
  no_duplicates cols pre rs = true → rows_ok t pre rs = true →
  rows_ok {| columns := t.(columns); uniques := t.(uniques) ++ [cols]; references := t.(references) |} pre rs = true.
Proof.
  revert pre. induction rs as [|r rs IH]; intros pre; [done|]. cbn [rows_ok no_duplicates].
  rewrite !andb_true_iff. intros [Hn Hrest] [[[Ht Hu] Ho] Hr]. split_and!; [exact Ht| |exact Ho|by apply IH].
  cbn [uniques]. rewrite forallb_app, Hu. cbn [forallb]. by rewrite Hn.
Qed.

Lemma insert_rows_ok `{Q : Sqlite, L : BackupLibrary, !BackupLaws L} t pre rs :
  rows_ok t pre rs = true → insert_rows t (map col t.(columns)) rs pre = Ok (pre ++ rs).
Proof.
  revert pre. induction rs as [|r rs IH]; intros pre Hok; [by rewrite app_nil_r|]. cbn [insert_rows].
  destruct (insert_ok _ _ _ _ Hok) as [Hins Hrest]. cbn [rows_ok] in Hok. rewrite !andb_true_iff in Hok.
  destruct Hok as [[[[Hd _]%row_typed_spec _] _] _].
  change (list_to_map (map (λ c, (c, column_value c r)) (map col t.(columns)))) with (restricted r (map col t.(columns))).
  rewrite restricted_all, Hins by done. cbn [rbind]. by rewrite IH, <- app_assoc.
Qed.

(** ** Lemmas: references *)

(** References only look at the ids of the rows they refer to. *)
Lemma references_ext (db db' : Db) (t : Table) (rs : list Row) :
  (∀ p, map (column_value (str "id")) (default [] (db !! p)) = map (column_value (str "id")) (default [] (db' !! p))) →
  references_hold db t rs = references_hold db' t rs.
Proof.
  intros Hp. unfold references_hold. apply forallb_ext_In. intros ref _. apply forallb_ext_In. intros r _. f_equal.
  specialize (Hp ref.2).
  trans (existsb (λ v, bool_decide (v = column_value ref.1 r)) (map (column_value (str "id")) (default [] (db !! ref.2)))).
  - symmetry. apply existsb_map.
  - rewrite Hp. apply existsb_map.
Qed.

Lemma references_insert (db : Db) (t : Table) (n : text) (v : SqlValue) (rs : list Row) :
  n ∉ map fst t.(references) → references_hold db t (map (<[n := v]>) rs) = references_hold db t rs.
Proof.
  intros Hn. unfold references_hold. apply forallb_ext_In. intros ref Hr. rewrite forallb_map. apply forallb_ext_In.
  intros r _. rewrite column_value_insert; [done|]. intros <-. apply Hn, list_elem_of_fmap. by exists ref.
Qed.

(** ** Lemmas: statements *)

(** A table that is created, or replaced by one whose rows keep their ids. *)
Lemma set_table_ok name t rs d :
  disk_ok d → rows_ok t [] rs = true → references_hold d.(d_rows) t rs = true →
  map (column_value (str "id")) rs = map (column_value (str "id")) (default [] (d.(d_rows) !! name)) →
  disk_ok (set_table name t rs d).
Proof.
  intros [Hd Ht] Hok Href Hids.
  assert (Hext : ∀ t' rs', references_hold (<[name := rs]> d.(d_rows)) t' rs' = references_hold d.(d_rows) t' rs').
  { intros t' rs'. apply references_ext. intros p. destruct (decide (name = p)) as [<-|Hne].
    - by rewrite lookup_insert_eq.
    - by rewrite lookup_insert_ne. }
  split; cbn [set_table d_schema d_rows].
  - intros n. rewrite lookup_insert_None. intros [Hn Hne]. rewrite lookup_insert_ne by done. by apply Hd.
  - intros n t'. rewrite lookup_insert_Some. intros [[<- <-]|[Hne Hn]].
    + exists rs. by rewrite lookup_insert_eq, Hext.
    + destruct (Ht n t' Hn) as (rs' & H1 & H2 & H3). exists rs'. by rewrite lookup_insert_ne, Hext.
Qed.

Lemma version_ok v d :
  disk_ok d → disk_ok {| d_schema := d.(d_schema); d_rows := d.(d_rows); d_version := v |}.
Proof. intros [Hd Ht]. by split. Qed.

Section statements.
  Context `{Q : Sqlite, L : BackupLibrary, !BackupLaws L}.

Lemma exec_create b name t d :
  disk_ok d → d.(d_schema) !! name = None →
  exec (CreateTable b name t) d = Ok (set_table name t [] d) ∧ disk_ok (set_table name t [] d).
Proof.
  intros Hd Hn. cbn [exec]. rewrite Hn. split; [done|]. apply set_table_ok; [done|done| |].
  - unfold references_hold. by apply forallb_forall.
  - by rewrite (dk_dom d Hd name Hn).
Qed.

Lemma exec_add name t c v d :
  disk_ok d → d.(d_schema) !! name = Some t → addable t c v →
  ∃ rs, d.(d_rows) !! name = Some rs
  ∧ exec (AddColumn name c v) d = Ok (set_table name (add_column t c) (map (<[c.(col) := v]>) rs) d)
  ∧ disk_ok (set_table name (add_column t c) (map (<[c.(col) := v]>) rs) d).
Proof.
  intros Hd Hn Ha. destruct (dk_tables d Hd name t Hn) as (rs & Hr & Hok & Href). exists rs. split; [done|].
  cbn [exec]. rewrite Hn, Hr, bool_decide_eq_false_2 by exact (ad_new _ _ _ Ha). split; [done|]. apply set_table_ok; [done|..].
  - by apply (rows_ok_add t c v [] rs).
  - cbn [add_column]. rewrite <- Href. apply (references_insert _ t), (ad_references _ _ _ Ha).
  - rewrite Hr. cbn [default from_option]. unfold id. rewrite map_map. apply map_ext. intros r.
    apply column_value_insert. destruct (ad_id _ _ _ Ha). congruence.
Qed.

Lemma exec_unique name t cols rs d :
  disk_ok d → d.(d_schema) !! name = Some t → d.(d_rows) !! name = Some rs → cols ∉ t.(uniques) →
  no_duplicates cols [] rs = true →
  let t' := {| columns := t.(columns); uniques := t.(uniques) ++ [cols]; references := t.(references) |} in
  exec (CreateUniqueIndex name cols) d = Ok (set_table name t' rs d) ∧ disk_ok (set_table name t' rs d).
Proof.
  intros Hd Hn Hr Hc Hu. destruct (dk_tables d Hd name t Hn) as (rs' & Hr' & Hok & Href). simplify_eq.
  cbn [exec]. rewrite Hn, Hr, bool_decide_eq_false_2, Hu by done. split; [done|]. apply set_table_ok; [done| |done|].
  - by apply rows_ok_unique.
  - by rewrite Hr.
Qed.

Lemma foreign_keys_ok d : disk_ok d → foreign_keys_hold d = true.
Proof.
  intros Hd. apply forallb_forall. intros [name t] Hin%list_elem_of_In. apply elem_of_map_to_list in Hin.
  destruct (dk_tables d Hd name t Hin) as (rs & Hr & _ & Href). cbn [fst snd]. by rewrite Hr.
Qed.

Lemma put_back {A : Type} (m : gmap text A) a b x y z :
  a ≠ b → m !! a = Some x → m !! b = None → <[a := x]> (delete b (delete a (<[b := y]> (<[b := z]> m)))) = m.
Proof.
  intros Hab Ha Hb. apply map_eq. intros n. destruct (decide (n = a)) as [->|H1]; [by rewrite lookup_insert_eq|].
  rewrite lookup_insert_ne by congruence. destruct (decide (n = b)) as [->|H2]; [by rewrite lookup_delete_eq|].
  rewrite !lookup_delete_ne by congruence. by rewrite !lookup_insert_ne by congruence.
Qed.

(** The table [nodes] copied, dropped and put back under its name. *)
Lemma exec_recreate t d :
  disk_ok d → d.(d_schema) !! str "nodes" = Some t → d.(d_schema) !! str "nodes_v5" = None →
  map col t.(columns) = NODE_COLUMNS_V5 →
  exec_all [CreateTable false (str "nodes_v5") t; InsertSelect (str "nodes_v5") NODE_COLUMNS_V5 (str "nodes");
            DropTable (str "nodes"); RenameTable (str "nodes_v5") (str "nodes"); CreateIndex (str "nodes");
            SetUserVersion 5] d
  = ({| d_schema := d.(d_schema); d_rows := d.(d_rows); d_version := 5 |}, Ok ()).
Proof.
  intros Hd Hn H5 Hcols. destruct (dk_tables d Hd _ t Hn) as (rs & Hr & Hok & _).
  pose proof (dk_dom d Hd _ H5) as Hr5.
  assert (Hne : str "nodes_v5" ≠ str "nodes") by (by apply (bool_decide_eq_true_1 (_ ≠ _)); vm_compute).
  cbn [exec_all exec]. rewrite H5. cbn [set_table d_schema d_rows d_version].
  rewrite !lookup_insert_eq, lookup_insert_ne, Hr by done. rewrite <- Hcols, insert_rows_ok by done.
  cbn [map_err rbind app set_table d_schema d_rows d_version].
  rewrite (lookup_insert_ne _ _ (str "nodes")), (lookup_insert_ne _ _ (str "nodes")), Hn by done.
  cbn [d_schema d_rows d_version].
  rewrite (lookup_delete_ne _ (str "nodes") (str "nodes_v5")), lookup_insert_eq by done.
  rewrite (lookup_delete_ne _ (str "nodes") (str "nodes_v5")), lookup_insert_eq, lookup_delete_eq by done.
  cbn [d_schema d_rows d_version]. rewrite lookup_insert_eq. f_equal. f_equal.
  - by apply put_back.
  - by apply put_back.
Qed.

End statements.

(** ** The migrations of the code, one by one *)

(** A file that this code left at version [v]. *)
Record at_version (v : Z) (d : Disk) : Prop := {
  av_version : d.(d_version) = v;
  av_schema : d.(d_schema) = schema_at v;
  av_ok : disk_ok d;
  (** The index of version 8 finds no two logins of one subject. *)
  av_logins : v < 8 → ∀ rs, d.(d_rows) !! str "logins" = Some rs →
    no_duplicates (names ["provider"; "login_name"]%string) [] rs = true;
  (** Nothing in the program creates a session; SQLite would count the sessions that
      lose their node while version 5 puts the table anew. *)
  av_sessions : v < 5 → d.(d_rows) !! str "sessions" = Some [] }.

(** What a migration does to the rows there were. *)
Definition rows_become (f : text → Row → Row) (d d' : Disk) : Prop :=
  ∀ name, is_Some (d.(d_schema) !! name) → d'.(d_rows) !! name = map (f name) <$> d.(d_rows) !! name.

Lemma map_same {A : Type} (o : option (list A)) : o = map (λ a, a) <$> o.
Proof. destruct o as [l|]; [|done]. cbn. by rewrite map_id. Qed.

(** The conditions of a column, evaluated. *)
Ltac addable_column :=
  split; [by apply (bool_decide_eq_true_1 (_ ∉ _)); vm_compute
         |split; [by apply (bool_decide_eq_true_1 (_ ≠ _)); vm_compute|done]
         |repeat apply list.Forall_cons_2; [..|by apply list.Forall_nil_2];
          by apply (bool_decide_eq_true_1 (_ ∉ _)); vm_compute
         |by apply (bool_decide_eq_true_1 (_ ∉ _)); vm_compute
         |done|done].

Section batches.
  Context `{Q : Sqlite, L : BackupLibrary, !BackupLaws L}.

Definition batch (i : nat) : Batch := nth i MIGRATIONS {| below := 0; transaction := false; stmts := []; sets := None |}.

(** A batch that only creates a table. *)
Lemma create_batch v v' b name t rest d :
  at_version v d → b.(transaction) = false → b.(stmts) = CreateTable true name t :: rest ++ [SetUserVersion v'] →
  (rest = [] ∨ rest = [CreateIndex name]) →
  d.(d_schema) !! name = None → name ≠ str "logins" → name ≠ str "sessions" → <[name := t]> (schema_at v) = schema_at v' → v ≤ v' → (v' < 8 → v < 8) →
  ∃ d', exec_batch b d = (d', Ok ()) ∧ at_version v' d' ∧ rows_become (λ _ r, r) d d'.
Proof.
  intros [Hv Hs Hd Hl Hse] Ht Hst Hrest Hn Hne Hne' Hs' Hle Hv'. destruct (exec_create true name t d Hd Hn) as [He Hok].
  unfold exec_batch. rewrite Ht, Hst. cbn [exec_all andb].
  exists {| d_schema := <[name := t]> d.(d_schema); d_rows := <[name := []]> d.(d_rows); d_version := v' |}. split; [|split].
  - destruct Hrest as [->| ->]; cbn [app exec_all]; rewrite He; cbn [exec set_table d_schema]; [done|].
    by rewrite lookup_insert_eq.
  - split; [done|by rewrite <- Hs', <- Hs|by apply (version_ok v' (set_table name t [] d))|..].
    + intros Hlt rs. cbn [d_rows]. rewrite lookup_insert_ne by done. by apply Hl, Hv'.
    + intros Hlt. cbn [d_rows]. rewrite lookup_insert_ne by done. apply Hse. lia.
  - intros n Hin. cbn [d_rows]. rewrite lookup_insert_ne by (intros <-; by rewrite Hn in Hin; destruct Hin). apply map_same.
Qed.

Lemma batch_4 d : at_version 3 d → ∃ d', exec_batch (batch 3) d = (d', Ok ()) ∧ at_version 4 d' ∧ rows_become (λ _ r, r) d d'.
Proof.
  intros Ha. apply (create_batch 3 4 (batch 3) (str "pending_registrations") pending_table [] d Ha); try done;
    first [by left|rewrite (av_schema 3 d Ha); reflexivity|reflexivity].
Qed.

Lemma batch_7 d : at_version 6 d → ∃ d', exec_batch (batch 6) d = (d', Ok ()) ∧ at_version 7 d' ∧ rows_become (λ _ r, r) d d'.
Proof.
  intros Ha. apply (create_batch 6 7 (batch 6) (str "ssh_auths") ssh_auths_table [CreateIndex (str "ssh_auths")] d Ha); try done;
    first [by right|rewrite (av_schema 6 d Ha); reflexivity|reflexivity].
Qed.

Lemma batch_5 d : at_version 4 d → ∃ d', exec_batch (batch 4) d = (d', Ok ()) ∧ at_version 5 d' ∧ rows_become (λ _ r, r) d d'.
Proof.
  intros [Hv Hs Hd Hl Hse]. exists {| d_schema := d.(d_schema); d_rows := d.(d_rows); d_version := 5 |}.
  assert (Hd' := version_ok 5 d Hd). split; [|split].
  - unfold exec_batch. change (batch 4).(stmts) with
      [CreateTable false (str "nodes_v5") (nodes_before 18); InsertSelect (str "nodes_v5") NODE_COLUMNS_V5 (str "nodes");
       DropTable (str "nodes"); RenameTable (str "nodes_v5") (str "nodes"); CreateIndex (str "nodes"); SetUserVersion 5].
    rewrite exec_recreate; [|done|rewrite Hs; reflexivity..|done]. by rewrite foreign_keys_ok, andb_false_r.
  - split; [reflexivity|cbn [d_schema]; rewrite Hs; reflexivity|exact Hd'| |lia]. cbn [d_rows]. intros _. by apply Hl.
  - intros n _. apply map_same.
Qed.

(** A batch that adds two columns to [nodes]. *)
Lemma add_batch v v' b t c1 i1 c2 i2 d :
  at_version v d → b.(transaction) = false →
  b.(stmts) = [AddColumn (str "nodes") c1 i1; AddColumn (str "nodes") c2 i2; SetUserVersion v'] →
  schema_at v !! str "nodes" = Some t → addable t c1 i1 → addable (add_column t c1) c2 i2 →
  <[str "nodes" := add_column (add_column t c1) c2]> (schema_at v) = schema_at v' → 5 ≤ v' → (v' < 8 → v < 8) →
  ∃ d', exec_batch b d = (d', Ok ()) ∧ at_version v' d'
  ∧ rows_become (λ n r, if bool_decide (n = str "nodes") then <[c2.(col) := i2]> (<[c1.(col) := i1]> r) else r) d d'.
Proof.
  intros [Hv Hs Hd Hl Hse] Ht Hst Hn H1 H2 Hs' Hle Hv'. rewrite <- Hs in Hn.
  assert (Hlog : str "nodes" ≠ str "logins") by (by apply (bool_decide_eq_true_1 (_ ≠ _)); vm_compute).
  destruct (exec_add _ t c1 i1 d Hd Hn H1) as (rs & Hr & E1 & Hd1). set (d1 := set_table _ _ _ d) in *.
  assert (Hn1 : d1.(d_schema) !! str "nodes" = Some (add_column t c1)) by apply lookup_insert_eq.
  assert (Hr1 : d1.(d_rows) !! str "nodes" = Some (map (<[c1.(col) := i1]>) rs)) by apply lookup_insert_eq.
  destruct (exec_add _ _ c2 i2 d1 Hd1 Hn1 H2) as (rs2 & Hr2 & E2 & Hd2). rewrite Hr1 in Hr2. injection Hr2 as <-.
  set (d2 := set_table _ _ _ d1) in *.
  exists {| d_schema := d2.(d_schema); d_rows := d2.(d_rows); d_version := v' |}. split; [|split].
  - unfold exec_batch. rewrite Ht, Hst. cbn [exec_all andb]. rewrite E1, E2. done.
  - split; [done| |by apply version_ok| |lia].
    + cbn [d_schema d2 d1 set_table]. by rewrite insert_insert_eq, Hs.
    + intros Hlt rs'. cbn [d_rows d2 d1 set_table]. rewrite !lookup_insert_ne by done. by apply Hl, Hv'.
  - intros n _. cbn [d_rows d2 d1 set_table]. case_bool_decide as Hnn.
    + subst n. rewrite lookup_insert_eq, Hr. cbn [fmap option_fmap option_map]. by rewrite map_map.
    + rewrite !lookup_insert_ne by congruence. apply map_same.
Qed.

Lemma batch_6 d : at_version 5 d → ∃ d', exec_batch (batch 5) d = (d', Ok ()) ∧ at_version 6 d'
  ∧ rows_become (λ n r, if bool_decide (n = str "nodes")
                        then with_columns [(str "advertised_routes", SText (str "[]")); (str "approved_routes", SText (str "[]"))] r
                        else r) d d'.
Proof.
  intros Ha. apply (add_batch 5 6 (batch 5) (nodes_before 18) (nn "advertised_routes" TextType) (SText (str "[]"))
    (nn "approved_routes" TextType) (SText (str "[]")) d Ha); first [done|reflexivity|addable_column].
Qed.

Lemma batch_9 d : at_version 8 d → ∃ d', exec_batch (batch 8) d = (d', Ok ()) ∧ at_version 9 d'
  ∧ rows_become (λ n r, if bool_decide (n = str "nodes")
                        then with_columns [(str "last_seen", SNull); (str "key_expiry", SNull)] r else r) d d'.
Proof.
  intros Ha. apply (add_batch 8 9 (batch 8) (nodes_before 20) (opt "last_seen" TextType) SNull
    (opt "key_expiry" TextType) SNull d Ha); first [done|reflexivity|addable_column].
Qed.

Lemma batch_8 d : at_version 7 d → ∃ d', exec_batch (batch 7) d = (d', Ok ()) ∧ at_version 8 d' ∧ rows_become (λ _ r, r) d d'.
Proof.
  intros [Hv Hs Hd Hl Hse]. assert (Hn : d.(d_schema) !! str "logins" = Some logins_v1) by (rewrite Hs; reflexivity).
  destruct (dk_tables d Hd _ _ Hn) as (rs & Hr & _).
  destruct (exec_unique (str "logins") logins_v1 (names ["provider"; "login_name"]%string) rs d) as [E Hok]; [done..| | |].
  { by apply (bool_decide_eq_true_1 (_ ∉ _)); vm_compute. }
  { by apply Hl. }
  set (d1 := set_table _ _ _ d) in *.
  exists {| d_schema := d1.(d_schema); d_rows := d1.(d_rows); d_version := 8 |}. split; [|split].
  - unfold exec_batch. change (batch 7).(stmts) with
      [CreateUniqueIndex (str "logins") (names ["provider"; "login_name"]%string); SetUserVersion 8].
    cbn [exec_all]. rewrite E. done.
  - split; [done| |by apply version_ok|lia|lia]. cbn [d_schema d1 set_table]. rewrite Hs. reflexivity.
  - intros n _. cbn [d_rows d1 set_table]. destruct (decide (str "logins" = n)) as [<-|Hne].
    + rewrite lookup_insert_eq, Hr. apply (map_same (Some rs)).
    + rewrite lookup_insert_ne by done. apply map_same.
Qed.

End batches.

(** ** All of them *)

Lemma become_trans (f g : text → Row → Row) d d1 d2 :
  disk_ok d → disk_ok d1 → rows_become f d d1 → rows_become g d1 d2 → rows_become (λ n r, g n (f n r)) d d2.
Proof.
  intros Hd Hd1 Hf Hg n [t Hn]. destruct (dk_tables d Hd n t Hn) as (rs & Hr & _).
  assert (H1 : d1.(d_rows) !! n = Some (map (f n) rs)) by (rewrite (Hf n), Hr; [done|by eexists]).
  rewrite (Hg n), H1, Hr.
  - cbn. by rewrite map_map.
  - destruct (d1.(d_schema) !! n) eqn:E; [by eexists|]. by rewrite (dk_dom d1 Hd1 n E) in H1.
Qed.

Lemma become_ext (f g : text → Row → Row) d d' : (∀ n r, f n r = g n r) → rows_become f d d' → rows_become g d d'.
Proof.
  intros Hfg Hf n Hn. rewrite (Hf n Hn). destruct (d.(d_rows) !! n); [|done]. cbn. f_equal. apply map_ext. intros r. apply Hfg.
Qed.

Lemma db_ok_at_9 d : at_version 9 d → db_ok d.(d_rows) = true.
Proof.
  intros [_ Hs Hd _ _].
  assert (Hall : ∀ nt, In nt SCHEMA → ∃ rs, d.(d_rows) !! nt.1 = Some rs ∧ rows_ok nt.2 [] rs = true
                                        ∧ references_hold d.(d_rows) nt.2 rs = true).
  { intros [n t] Hin. apply (dk_tables d Hd n t). rewrite Hs.
    repeat (destruct Hin as [[= <- <-]|Hin]; [reflexivity|]). destruct Hin. }
  unfold db_ok. apply andb_true_intro. split; apply forallb_forall; intros nt Hin;
    destruct (Hall nt Hin) as (rs & Hr & Hok & Href).
  - unfold table_ok. by rewrite Hr.
  - by rewrite Hr.
Qed.

Section run.
  Context `{Q : Sqlite, L : BackupLibrary, !BackupLaws L}.

(** A batch that is due, and what comes behind it. *)
Lemma run_due b bs ver v1 f g d :
  ver < b.(below) → disk_ok d →
  (∃ d1, exec_batch b d = (d1, Ok ()) ∧ at_version v1 d1 ∧ rows_become f d d1) →
  (∀ d1, at_version v1 d1 →
     ∃ d2, run_batches bs (default ver b.(sets)) d1 = (d2, Ok ()) ∧ at_version 9 d2 ∧ rows_become g d1 d2) →
  ∃ d2, run_batches (b :: bs) ver d = (d2, Ok ()) ∧ at_version 9 d2 ∧ rows_become (λ n r, g n (f n r)) d d2.
Proof.
  intros Hver Hd (d1 & He & Ha & Hf) Hrest. destruct (Hrest d1 Ha) as (d2 & Hrun & H9 & Hg). exists d2.
  cbn [run_batches]. rewrite (proj2 (Z.ltb_lt ver b.(below)) Hver), He. split; [done|]. split; [done|].
  apply (become_trans f g d d1 d2 Hd (av_ok _ _ Ha) Hf Hg).
Qed.

Lemma run_9 bs ver d : run_batches bs ver d = (d, Ok ()) → at_version 9 d →
  ∃ d', run_batches bs ver d = (d', Ok ()) ∧ at_version 9 d' ∧ rows_become (upgraded 9) d d'.
Proof.
  intros Hrun Ha. exists d. split; [done|]. split; [done|]. apply (become_ext (λ _ r, r)).
  - intros n r. unfold upgraded. by case_bool_decide.
  - intros n _. apply map_same.
Qed.

Lemma run_8 ver d : ver < 9 → at_version 8 d →
  ∃ d', run_batches (drop 8 MIGRATIONS) ver d = (d', Ok ()) ∧ at_version 9 d' ∧ rows_become (upgraded 8) d d'.
Proof.
  intros Hv Ha.
  destruct (run_due (batch 8) [] ver 9 _ (upgraded 9) d Hv (av_ok _ _ Ha) (batch_9 d Ha)) as (d' & H1 & H2 & H3).
  { intros d1. by apply run_9. }
  exists d'. split; [done|]. split; [done|]. refine (become_ext _ _ d d' _ H3). intros n r. unfold upgraded.
  by case_bool_decide.
Qed.

Lemma run_7 ver d : ver < 8 → at_version 7 d →
  ∃ d', run_batches (drop 7 MIGRATIONS) ver d = (d', Ok ()) ∧ at_version 9 d' ∧ rows_become (upgraded 7) d d'.
Proof.
  intros Hv Ha.
  apply (run_due (batch 7) (drop 8 MIGRATIONS) ver 8 (λ _ r, r) (upgraded 7) d Hv (av_ok _ _ Ha) (batch_8 d Ha)).
  intros d1. apply (run_8 ver). lia.
Qed.

Lemma run_6 ver d : ver < 7 → at_version 6 d →
  ∃ d', run_batches (drop 6 MIGRATIONS) ver d = (d', Ok ()) ∧ at_version 9 d' ∧ rows_become (upgraded 6) d d'.
Proof.
  intros Hv Ha.
  apply (run_due (batch 6) (drop 7 MIGRATIONS) ver 7 (λ _ r, r) (upgraded 6) d Hv (av_ok _ _ Ha) (batch_7 d Ha)).
  intros d1. apply (run_7 ver). lia.
Qed.

Lemma run_5 ver d : ver < 6 → at_version 5 d →
  ∃ d', run_batches (drop 5 MIGRATIONS) ver d = (d', Ok ()) ∧ at_version 9 d' ∧ rows_become (upgraded 5) d d'.
Proof.
  intros Hv Ha.
  destruct (run_due (batch 5) (drop 6 MIGRATIONS) ver 6 _ (upgraded 6) d Hv (av_ok _ _ Ha) (batch_6 d Ha)) as (d' & H1 & H2 & H3).
  { intros d1. apply (run_6 ver). lia. }
  exists d'. split; [done|]. split; [done|]. refine (become_ext _ _ d d' _ H3). intros n r. unfold upgraded.
  by case_bool_decide.
Qed.

Lemma run_4 ver d : ver < 5 → at_version 4 d →
  ∃ d', run_batches (drop 4 MIGRATIONS) ver d = (d', Ok ()) ∧ at_version 9 d' ∧ rows_become (upgraded 4) d d'.
Proof.
  intros Hv Ha.
  apply (run_due (batch 4) (drop 5 MIGRATIONS) ver 5 (λ _ r, r) (upgraded 4) d Hv (av_ok _ _ Ha) (batch_5 d Ha)).
  intros d1. apply (run_5 ver). lia.
Qed.

Lemma run_3 ver d : ver < 4 → at_version 3 d →
  ∃ d', run_batches (drop 3 MIGRATIONS) ver d = (d', Ok ()) ∧ at_version 9 d' ∧ rows_become (upgraded 3) d d'.
Proof.
  intros Hv Ha.
  apply (run_due (batch 3) (drop 4 MIGRATIONS) ver 4 (λ _ r, r) (upgraded 3) d Hv (av_ok _ _ Ha) (batch_4 d Ha)).
  intros d1. apply (run_4 4). lia.
Qed.

Lemma run_at v d :
  3 ≤ v ≤ 9 → at_version v d → ∃ d', run_migrations d = (d', Ok ()) ∧ at_version 9 d' ∧ rows_become (upgraded v) d d'.
Proof.
  intros Hv Ha. unfold run_migrations. rewrite (av_version v d Ha).
  assert (Hc : v = 3 ∨ v = 4 ∨ v = 5 ∨ v = 6 ∨ v = 7 ∨ v = 8 ∨ v = 9) by lia.
  destruct Hc as [->|[->|[->|[->|[->|[->| ->]]]]]].
  - by apply (run_3 3).
  - by apply (run_4 4).
  - by apply (run_5 5).
  - by apply (run_6 6).
  - by apply (run_7 7).
  - by apply (run_8 8).
  - by apply run_9.
Qed.

End run.

(** A new file gets the schema of version 9, with empty tables, in the one start. *)
Theorem fresh_database_migrated `{Q : Sqlite, L : BackupLibrary} :
  run_migrations Disk_empty
  = ({| d_schema := list_to_map SCHEMA; d_rows := list_to_map (map (λ nt, (nt.1, [])) SCHEMA); d_version := 9 |}, Ok ()).
Proof. vm_compute. reflexivity. Qed.


(** The batches of versions 6 and 9 add two columns in two transactions: a start that
    stops between them leaves a file no later start opens. *)
Theorem interrupted_migration_stuck `{Q : Sqlite, L : BackupLibrary, !BackupLaws L} d :
  (at_version 5 d → let d' := interrupted 1 (batch 5) d in
     d'.(d_version) = 5 ∧ run_migrations d' = (d', Err (DuplicateColumn (str "advertised_routes"))))
  ∧ (at_version 8 d → let d' := interrupted 1 (batch 8) d in
     d'.(d_version) = 8 ∧ run_migrations d' = (d', Err (DuplicateColumn (str "last_seen")))).
Proof.
  split; intros [Hv Hs Hd _ _].
  - destruct (exec_add (str "nodes") (nodes_before 18) (nn "advertised_routes" TextType) (SText (str "[]")) d Hd)
      as (rs & Hr & E & _); [rewrite Hs; reflexivity|addable_column|].
    unfold interrupted. change (transaction (batch 5)) with false.
    change (take 1 (stmts (batch 5))) with [AddColumn (str "nodes") (nn "advertised_routes" TextType) (SText (str "[]"))].
    cbn [exec_all]. rewrite E. cbn [fst]. split; [done|]. unfold run_migrations. cbn [d_version set_table]. rewrite Hv.
    change (run_batches MIGRATIONS 5) with (run_batches (batch 5 :: drop 6 MIGRATIONS) 5). cbn [run_batches].
    unfold exec_batch. change (stmts (batch 5)) with
      [AddColumn (str "nodes") (nn "advertised_routes" TextType) (SText (str "[]"));
       AddColumn (str "nodes") (nn "approved_routes" TextType) (SText (str "[]")); SetUserVersion 6].
    cbn [exec_all]. unfold exec at 1. cbn [set_table d_schema d_rows]. rewrite !lookup_insert_eq. done.
  - destruct (exec_add (str "nodes") (nodes_before 20) (opt "last_seen" TextType) SNull d Hd)
      as (rs & Hr & E & _); [rewrite Hs; reflexivity|addable_column|].
    unfold interrupted. change (transaction (batch 8)) with false.
    change (take 1 (stmts (batch 8))) with [AddColumn (str "nodes") (opt "last_seen" TextType) SNull].
    cbn [exec_all]. rewrite E. cbn [fst]. split; [done|]. unfold run_migrations. cbn [d_version set_table]. rewrite Hv.
    change (run_batches MIGRATIONS 8) with (run_batches (batch 8 :: drop 9 MIGRATIONS) 8). cbn [run_batches].
    unfold exec_batch. change (stmts (batch 8)) with
      [AddColumn (str "nodes") (opt "last_seen" TextType) SNull;
       AddColumn (str "nodes") (opt "key_expiry" TextType) SNull; SetUserVersion 9].
    cbn [exec_all]. unfold exec at 1. cbn [set_table d_schema d_rows]. rewrite !lookup_insert_eq. done.
Qed.

(** ** A file of version 5 *)

Definition old_node : Row := list_to_map (zip NODE_COLUMNS_V5
  [SInteger 1; SText (str "n1"); SText (str "host"); SNull; SText (str "nodekey:01"); SText (str "mkey:01");
   SText (str "discokey:01"); SText (str "[]"); SNull; SText (str "[]"); SText (str "[]"); SInteger 1; SNull;
   SText (str "now"); SInteger 130; SText (str "[]"); SInteger 1; SInteger 0]).

Definition demo_old : Disk :=
  {| d_schema := schema_at 5;
     d_rows := <[str "nodes" := [old_node]]> (list_to_map (map (λ nt, (nt.1, [])) (map_to_list (schema_at 5))));
     d_version := 5 |}.

Lemma demo_old_at : at_version 5 demo_old.
Proof.
  split; [done|done| | |lia].
  - split.
    + intros name. rewrite <- !not_elem_of_dom.
      assert (dom demo_old.(d_schema) = dom demo_old.(d_rows)) as ->; [|done].
      by apply (bool_decide_eq_true_1 (_ = _)); vm_compute.
    + assert (Hall : Forall (λ nt : text * Table, match demo_old.(d_rows) !! nt.1 with
        | Some rs => rows_ok nt.2 [] rs && references_hold demo_old.(d_rows) nt.2 rs | None => false end = true)
        (map_to_list demo_old.(d_schema))).
      { apply List.Forall_forall, forallb_forall. by vm_compute. }
      intros name t Hin%elem_of_map_to_list. rewrite list.Forall_forall in Hall. specialize (Hall _ Hin). cbn [fst snd] in Hall.
      destruct (demo_old.(d_rows) !! name) as [rs|]; [|done]. apply andb_true_iff in Hall as [H1 H2]. by exists rs.
  - intros _ rs. assert (demo_old.(d_rows) !! str "logins" = Some []) as -> by (by vm_compute). by intros [= <-].
Qed.

#[local] Existing Instance demo_backup_laws.
#[local] Existing Instance demo_rowids.


Lemma interrupted_migration_stuck_witness :
  let d' := interrupted (L := demo_backup) 1 (batch 5) demo_old in
  d'.(d_version) = 5 ∧ run_migrations (L := demo_backup) d' = (d', Err (DuplicateColumn (str "advertised_routes"))).
Proof. apply (proj1 (interrupted_migration_stuck (L := demo_backup) demo_old) demo_old_at). Defined.
