(* ===== verification/Dns.v ===== *)
(** * DNS configuration and DERP map state

    [crabscale-control/src/dns.rs] and [derp.rs], with their wire objects
    ([crabscale-proto/src/dns.rs], [derp.rs]): the settings, the configuration
    built from them for a tailnet, the resolver addresses derived from the
    prefixes in the arithmetic of [u32] and [u128], extra records, and the two
    snapshots with their revisions.  The broadcast of a revision only wakes
    tasks and is left out; the JSON codec of the records file is the class
    [RecordsJson]. *)

From S2P Require Import Prelude Text Net IpText PolicyModel PolicyCompile NetMap IpAlloc.

(** ** Wire objects *)

Record DnsResolver : Type := { res_addr : text; res_bootstrap_resolution : list text }.

#[global] Instance DnsResolver_eq_dec : EqDecision DnsResolver.
Proof. solve_decision. Defined.

Record DnsRecord : Type := {
  rec_name : text; rec_type : text; rec_class : Z; rec_ttl : Z; rec_value : text }.

#[global] Instance DnsRecord_eq_dec : EqDecision DnsRecord.
Proof. solve_decision. Defined.

Record DnsConfig : Type := {
  dns_resolvers : list DnsResolver; dns_routes : gmap text (list DnsResolver);
  dns_search_domains : list text; dns_domains : list text; dns_proxied : bool;
  dns_magic_dns_suffix : text; dns_extra_records : list DnsRecord }.

#[global] Instance DnsConfig_eq_dec : EqDecision DnsConfig.
Proof. solve_decision. Defined.

Record DerpNode : Type := {
  dpn_name : text; dpn_region_id : Z; dpn_host_name : text; dpn_cert_name : text;
  dpn_ipv4 : text; dpn_ipv6 : text; dpn_stun_port : Z; dpn_stun_only : bool; dpn_derp_port : Z;
  dpn_insecure_for_tests : bool; dpn_stun_test_ip : text; dpn_can_port_80 : bool }.

#[global] Instance DerpNode_eq_dec : EqDecision DerpNode.
Proof. solve_decision. Defined.

Record DerpRegion : Type := {
  dpr_region_id : Z; dpr_region_code : text; dpr_region_name : text; dpr_avoid : bool;
  dpr_nodes : list DerpNode }.

#[global] Instance DerpRegion_eq_dec : EqDecision DerpRegion.
Proof. solve_decision. Defined.

Record DerpMap : Type := { dpm_regions : gmap text DerpRegion; dpm_omit_default_regions : bool }.

#[global] Instance DerpMap_eq_dec : EqDecision DerpMap.
Proof. solve_decision. Defined.

(** ** Settings *)

Definition DEFAULT_MAGIC_DNS_IPV4 : Z := 0x64646464.
Definition DEFAULT_MAGIC_DNS_IPV6 : Z := 0xfd7a115ca1e000000000000000000100.
Definition DEFAULT_EXTRA_RECORD_TTL : Z := 300.

(** [extra_records_path] only says where [reload_dns_extra_records] reads. *)
Record DnsSettings : Type := {
  ds_magic_dns : bool; ds_magic_dns_ipv4 : option Z; ds_magic_dns_ipv6 : option Z;
  ds_search_domains : list text; ds_split_dns : gmap text (list text);
  ds_extra_records_path : option text }.

Definition DnsSettings_default : DnsSettings :=
  {| ds_magic_dns := true; ds_magic_dns_ipv4 := None; ds_magic_dns_ipv6 := None;
     ds_search_domains := []; ds_split_dns := ∅; ds_extra_records_path := None |}.

Inductive DnsError : Type := DnsIo (e : text) | DnsParse (e : text).

Definition DnsError_display (e : DnsError) : text :=
  match e with
  | DnsIo e => str "failed to read DNS extra records: " ++ e
  | DnsParse e => str "invalid DNS extra records: " ++ e
  end.

(** ** The configuration *)

Definition split_address (address : text) : option (text * text) :=
  ip_literal ← head (split 47 address);
  ip ← parse_ip ip_literal;
  Some (ip_literal, match ip with V4 _ => str "A" | V6 _ => str "AAAA" end).

Definition ends_with_dot (s : text) : bool :=
  match rev s with 46 :: _ => true | _ => false end.

Definition node_name (n : WireNode) : text :=
  if bool_decide (n.(wn_name) = []) then n.(wn_name)
  else if ends_with_dot n.(wn_name) then n.(wn_name)
  else n.(wn_name) ++ [46].

Definition node_record (n : WireNode) (address : text) : option DnsRecord :=
  '(ip_str, family) ← split_address address;
  Some {| rec_name := node_name n; rec_type := family; rec_class := 1;
          rec_ttl := DEFAULT_EXTRA_RECORD_TTL; rec_value := ip_str |}.

Definition resolver (addr : text) : DnsResolver :=
  {| res_addr := addr; res_bootstrap_resolution := [] |}.

(** The loop that adds the configured search domains. *)
Definition add_domain (ds : list text) (d : text) : list text :=
  if existsb (λ x, bool_decide (x = d)) ds then ds else ds ++ [d].

Definition DnsSettings_build (s : DnsSettings) (tailnet_domain : text) (magic_dns_ipv4 magic_dns_ipv6 : Z)
    (nodes : list WireNode) (extra_records : list DnsRecord) : DnsConfig :=
  let suffix := tailnet_domain ++ [46] in
  let routes := map resolver <$> s.(ds_split_dns) in
  let search_domains :=
    fold_left add_domain s.(ds_search_domains) (if s.(ds_magic_dns) then [tailnet_domain] else []) in
  if s.(ds_magic_dns) then
    let magic_resolvers := [resolver (show_v4 magic_dns_ipv4); resolver (show_v6 magic_dns_ipv6)] in
    {| dns_resolvers := magic_resolvers;
       dns_routes := <[suffix := default [] (routes !! suffix) ++ magic_resolvers]> routes;
       dns_search_domains := search_domains; dns_domains := search_domains; dns_proxied := true;
       dns_magic_dns_suffix := suffix;
       dns_extra_records :=
         flat_map (λ n, omap (node_record n) n.(wn_addresses)) nodes ++ extra_records |}
  else
    {| dns_resolvers := []; dns_routes := routes; dns_search_domains := search_domains;
       dns_domains := search_domains; dns_proxied := false; dns_magic_dns_suffix := [];
       dns_extra_records := [] |}.

(** ** Resolver addresses *)

(** [ipv4_contains] and [ipv6_contains] *)
Definition ip_contains (bits prefix prefix_len ip : Z) : bool :=
  if prefix_len =? 0 then true
  else if bits <? prefix_len then false
  else
    let mask := if prefix_len =? bits then 2 ^ bits - 1 else prefix_mask bits prefix_len in
    Z.land prefix mask =? Z.land ip mask.

Definition ipv4_last_host (prefix prefix_len : Z) : Z :=
  if (prefix_len =? 0) || (31 <=? prefix_len) then prefix
  else
    let mask := prefix_mask 32 prefix_len in
    let network := Z.land prefix mask in
    let host_bits := 32 - prefix_len in
    let host_count := wrap 32 (Z.shiftl 1 host_bits) in
    wrap 32 (wrap 32 (network + host_count) - 2).

Definition ipv6_last_host (prefix prefix_len : Z) : Z :=
  if (prefix_len =? 0) || (128 <=? prefix_len) then prefix
  else
    let mask := prefix_mask 128 prefix_len in
    let network := Z.land prefix mask in
    let host_bits := 128 - prefix_len in
    let host_count := wrap 128 (Z.shiftl 1 host_bits) in
    wrap 128 (wrap 128 (network + host_count) - 1).

Definition derive_magic_dns_ipv4 (prefix prefix_len : Z) : Z :=
  if ip_contains 32 prefix prefix_len DEFAULT_MAGIC_DNS_IPV4 then DEFAULT_MAGIC_DNS_IPV4
  else ipv4_last_host prefix prefix_len.

Definition derive_magic_dns_ipv6 (prefix prefix_len : Z) : Z :=
  if ip_contains 128 prefix prefix_len DEFAULT_MAGIC_DNS_IPV6 then DEFAULT_MAGIC_DNS_IPV6
  else ipv6_last_host prefix prefix_len.

(** ** Extra records *)

Record ExtraRecordFile : Type := {
  erf_name : text; erf_rec_type : text; erf_class : Z; erf_ttl : Z; erf_value : text }.

(** [serde_json::from_slice] of a list of records: its error has a text. *)
Class RecordsJson : Type := { records_from_json : bytes → result (list ExtraRecordFile) text }.

Definition infer_record_type (explicit value : text) : text :=
  if negb (bool_decide (explicit = [])) then explicit
  else match read_ipv4_addr value with
       | Some (_, []) => str "A"
       | _ => match parse_ipv6 value with Some _ => str "AAAA" | None => [] end
       end.

Definition extra_record (r : ExtraRecordFile) : result DnsRecord DnsError :=
  fail_if bool_decide (r.(erf_name) = []) with
    DnsParse (str "an extra record must have a non-empty name") ;;
  fail_if bool_decide (r.(erf_value) = []) with
    DnsParse (str "an extra record must have a non-empty value") ;;
  Ok {| rec_name := r.(erf_name); rec_type := infer_record_type r.(erf_rec_type) r.(erf_value);
        rec_class := (if r.(erf_class) =? 0 then 1 else r.(erf_class)); rec_ttl := r.(erf_ttl);
        rec_value := r.(erf_value) |}.

(** [collect] into a [Result]: the first error wins. *)
Fixpoint collect_records (rs : list ExtraRecordFile) : result (list DnsRecord) DnsError :=
  match rs with
  | [] => Ok []
  | r :: rest => let? x := extra_record r in let? xs := collect_records rest in Ok (x :: xs)
  end.

Section records.
  Context `{J : RecordsJson}.

Definition parse_extra_records (body : bytes) : result (list DnsRecord) DnsError :=
  let? records := map_err DnsParse (records_from_json body) in
  collect_records records.

(** The file is what reading it gave. *)
Definition load_extra_records (file : result bytes text) : result (list DnsRecord) DnsError :=
  let? body := map_err DnsIo file in
  parse_extra_records body.

End records.

(** ** Snapshots *)

Record DnsState : Type := { dst_extra_records : list DnsRecord; dst_revision : Z }.

Definition DnsState_new (records : list DnsRecord) : DnsState :=
  {| dst_extra_records := records; dst_revision := 0 |}.

Definition set_extra_records (records : list DnsRecord) (s : DnsState) : DnsState * Z :=
  let revision := wrap 64 (s.(dst_revision) + 1) in
  ({| dst_extra_records := records; dst_revision := revision |}, revision).

Record DerpMapState : Type := { dms_map : DerpMap; dms_revision : Z }.

Definition DerpMapState_new (m : DerpMap) : DerpMapState := {| dms_map := m; dms_revision := 0 |}.

Definition set_map (m : DerpMap) (s : DerpMapState) : DerpMapState * Z :=
  let revision := wrap 64 (s.(dms_revision) + 1) in
  ({| dms_map := m; dms_revision := revision |}, revision).

(** ** The resolver lies in the prefix *)

Lemma ip_contains_spec bits prefix len ip :
  0 < bits → 0 ≤ len ≤ bits → 0 ≤ prefix < 2 ^ bits → 0 ≤ ip < 2 ^ bits →
  let net := Z.land prefix (prefix_mask bits len) in
  ip_contains bits prefix len ip = true ↔ net ≤ ip < net + 2 ^ (bits - len).
Proof.
  intros Hb Hl Hp Hi. cbv zeta. rewrite <- (prefix_block bits len prefix ip) by done. unfold ip_contains.
  destruct (Z.eqb_spec len 0) as [->|Hne].
  { split; [intros _|done]. by rewrite !land_prefix_mask, !Z.sub_0_r, !Z.div_small by lia. }
  rewrite (proj2 (Z.ltb_ge bits len)) by lia.
  assert (Hmask : (if len =? bits then 2 ^ bits - 1 else prefix_mask bits len) = prefix_mask bits len).
  { destruct (Z.eqb_spec len bits) as [->|]; [|done]. unfold prefix_mask, wrap.
    rewrite Z.sub_diag, Z.shiftl_0_r, Z.mod_small; lia. }
  rewrite Hmask, Z.eqb_eq. by split.
Qed.

(** The sums of the last-host computation, which may pass [2^bits] on the way. *)
Lemma last_host_value bits net n skip :
  0 ≤ net → net + n ≤ 2 ^ bits → 1 ≤ skip ≤ n →
  wrap bits (wrap bits (net + n) - skip) = net + n - skip.
Proof.
  intros H0 H1 H2. unfold wrap. destruct (decide (net + n = 2 ^ bits)) as [E|E].
  - rewrite E, Z.mod_same by lia. rewrite <- (Z.mod_small (2 ^ bits - skip) (2 ^ bits)) by lia.
    rewrite <- (Z.mod_add (0 - skip) 1) by lia. f_equal. lia.
  - rewrite (Z.mod_small (net + n)) by lia. by rewrite Z.mod_small by lia.
Qed.

Lemma wrap_host_count bits len :
  0 < len ≤ bits → wrap bits (Z.shiftl 1 (bits - len)) = 2 ^ (bits - len).
Proof.
  intros Hl. unfold wrap. rewrite Z.shiftl_mul_pow2, Z.mul_1_l by lia.
  rewrite Z.mod_small; [done|]. split; [apply Z.pow_nonneg; lia|apply Z.pow_lt_mono_r; lia].
Qed.

Lemma ipv4_last_host_value prefix len :
  0 ≤ prefix < 2 ^ 32 → 0 < len < 31 →
  ipv4_last_host prefix len = Z.land prefix (prefix_mask 32 len) + 2 ^ (32 - len) - 2.
Proof.
  intros Hp Hl. unfold ipv4_last_host.
  rewrite (proj2 (Z.eqb_neq len 0)), (proj2 (Z.leb_gt 31 len)) by lia. cbn [orb]. cbv zeta.
  rewrite wrap_host_count by lia. destruct (prefix_net_range 32 len prefix); [lia|done|].
  assert (2 ^ 2 ≤ 2 ^ (32 - len)) by (apply Z.pow_le_mono_r; lia). apply last_host_value; lia.
Qed.

Lemma ipv6_last_host_value prefix len :
  0 ≤ prefix < 2 ^ 128 → 0 < len < 128 →
  ipv6_last_host prefix len = Z.land prefix (prefix_mask 128 len) + 2 ^ (128 - len) - 1.
Proof.
  intros Hp Hl. unfold ipv6_last_host.
  rewrite (proj2 (Z.eqb_neq len 0)), (proj2 (Z.leb_gt 128 len)) by lia. cbn [orb]. cbv zeta.
  rewrite wrap_host_count by lia. destruct (prefix_net_range 128 len prefix); [lia|done|].
  assert (2 ^ 1 ≤ 2 ^ (128 - len)) by (apply Z.pow_le_mono_r; lia). apply last_host_value; lia.
Qed.

Lemma prefix_own_block bits prefix len :
  0 ≤ len ≤ bits → 0 ≤ prefix < 2 ^ bits →
  let net := Z.land prefix (prefix_mask bits len) in
  net ≤ prefix < net + 2 ^ (bits - len).
Proof. intros Hl Hp. cbv zeta. by rewrite <- (prefix_block bits len prefix prefix). Qed.

(** The derived resolver addresses lie in the configured prefixes,
    although the sums of the last-host computation may wrap around; the IPv4
    one is the well-known address exactly when the prefix covers it, and
    otherwise neither the network's own address nor its broadcast address,
    when the prefix has room for another. *)
Theorem magic_dns_in_prefix prefix4 len4 prefix6 len6 :
  0 ≤ prefix4 < 2 ^ 32 → 0 ≤ len4 ≤ 32 → 0 ≤ prefix6 < 2 ^ 128 → 0 ≤ len6 ≤ 128 →
  let net4 := Z.land prefix4 (prefix_mask 32 len4) in
  let net6 := Z.land prefix6 (prefix_mask 128 len6) in
  let r4 := derive_magic_dns_ipv4 prefix4 len4 in
  let r6 := derive_magic_dns_ipv6 prefix6 len6 in
  net4 ≤ r4 < net4 + 2 ^ (32 - len4) ∧ net6 ≤ r6 < net6 + 2 ^ (128 - len6)
  ∧ (r4 = DEFAULT_MAGIC_DNS_IPV4 ∨ (len4 ≤ 30 → net4 < r4 < net4 + 2 ^ (32 - len4) - 1))
  ∧ (net4 ≤ DEFAULT_MAGIC_DNS_IPV4 < net4 + 2 ^ (32 - len4) → r4 = DEFAULT_MAGIC_DNS_IPV4).
Proof.
  intros Hp4 Hl4 Hp6 Hl6. cbv zeta. unfold derive_magic_dns_ipv4, derive_magic_dns_ipv6.
  pose proof (prefix_own_block 32 prefix4 len4 Hl4 Hp4) as Hown4.
  pose proof (prefix_own_block 128 prefix6 len6 Hl6 Hp6) as Hown6. cbv zeta in Hown4, Hown6.
  assert (H4 : ipv4_last_host prefix4 len4 = prefix4 ∧ 31 <= len4 ∨ len4 = 0 ∨ 0 < len4 < 31
    ∧ ipv4_last_host prefix4 len4 = Z.land prefix4 (prefix_mask 32 len4) + 2 ^ (32 - len4) - 2
    ∧ 2 ^ 2 ≤ 2 ^ (32 - len4)).
  { destruct (decide (len4 = 0)); [by right; left|]. destruct (decide (31 ≤ len4)).
    - left. unfold ipv4_last_host. split; [|lia]. by rewrite (proj2 (Z.leb_le 31 len4)), orb_true_r by done.
    - right; right. split_and!; [lia|lia|apply ipv4_last_host_value; lia|apply Z.pow_le_mono_r; lia]. }
  assert (H6 : ipv6_last_host prefix6 len6 = prefix6 ∨ len6 = 0
    ∨ ipv6_last_host prefix6 len6 = Z.land prefix6 (prefix_mask 128 len6) + 2 ^ (128 - len6) - 1
    ∧ 2 ^ 0 ≤ 2 ^ (128 - len6)).
  { destruct (decide (len6 = 0)); [by right; left|]. destruct (decide (128 ≤ len6)).
    - left. unfold ipv6_last_host. by rewrite (proj2 (Z.leb_le 128 len6)), orb_true_r by done.
    - right; right. split; [apply ipv6_last_host_value; lia|apply Z.pow_le_mono_r; lia]. }
  pose proof (ip_contains_spec 32 prefix4 len4 DEFAULT_MAGIC_DNS_IPV4 ltac:(lia) Hl4 Hp4 ltac:(done)) as C4.
  pose proof (ip_contains_spec 128 prefix6 len6 DEFAULT_MAGIC_DNS_IPV6 ltac:(lia) Hl6 Hp6 ltac:(done)) as C6.
  cbv zeta in C4, C6.
  assert (Z4 : len4 = 0 → ip_contains 32 prefix4 len4 DEFAULT_MAGIC_DNS_IPV4 = true) by by intros ->.
  assert (Z6 : len6 = 0 → ip_contains 128 prefix6 len6 DEFAULT_MAGIC_DNS_IPV6 = true) by by intros ->.
  split; [|split; [|split]].
  - destruct (ip_contains 32 _ _ _); [by apply C4|]. destruct H4 as [[-> _]|[E|(_ & -> & ?)]]; [done|by specialize (Z4 E)|lia].
  - destruct (ip_contains 128 _ _ _); [by apply C6|]. destruct H6 as [->|[E|(-> & ?)]]; [done|by specialize (Z6 E)|lia].
  - destruct (ip_contains 32 _ _ _); [by left|right]. intros ?.
    destruct H4 as [[_ ?]|[E|(_ & -> & ?)]]; [lia|by specialize (Z4 E)|lia].
  - intros Hin. by rewrite (proj2 C4 Hin).
Qed.

Lemma magic_dns_in_prefix_witness :
  derive_magic_dns_ipv4 0x0a000000 8 = 0x0afffffe
  ∧ (0 ≤ derive_magic_dns_ipv6 0 1 < 0 + 2 ^ (128 - 1)).
Proof.
  destruct (magic_dns_in_prefix 0x0a000000 8 0 1) as (_ & H6 & _); [done..|]. split; [by vm_compute|exact H6].
Defined.

(** The allocator does not set the resolver's address aside: unless
    it is the first or the last of the prefix, some draw gives it to a node. *)
Theorem resolver_allocatable a used :
  allocator_wf a → 0 < a.(ipv4_prefix_len) ≤ 30 →
  let r := derive_magic_dns_ipv4 a.(ipv4_prefix) a.(ipv4_prefix_len) in
  let net := Z.land a.(ipv4_prefix) (prefix_mask 32 a.(ipv4_prefix_len)) in
  r ∉ used → r ≠ net → r ≠ net + 2 ^ (32 - a.(ipv4_prefix_len)) - 1 →
  ∃ draws, draws_ok draws ∧ allocate_ipv4 a used draws = Ok r.
Proof.
  intros (Hp & _) Hl. cbv zeta. intros Hused Hnet Hbc.
  set (r := derive_magic_dns_ipv4 _ _) in *. set (p := a.(ipv4_prefix)) in *. set (l := a.(ipv4_prefix_len)) in *.
  assert (Hr : Z.land p (prefix_mask 32 l) ≤ r < Z.land p (prefix_mask 32 l) + 2 ^ (32 - l)).
  { unfold r, derive_magic_dns_ipv4.
    pose proof (ip_contains_spec 32 p l DEFAULT_MAGIC_DNS_IPV4 ltac:(lia) ltac:(lia) Hp ltac:(done)) as C.
    cbv zeta in C. destruct (ip_contains 32 _ _ _); [by apply C|]. rewrite ipv4_last_host_value by lia.
    assert (2 ^ 2 ≤ 2 ^ (32 - l)) by (apply Z.pow_le_mono_r; lia). lia. }
  destruct (host_range_bounds 32 p l 1) as (F & C & P & N & M); [lia..|].
  change (1 + 1) with 2 in C, P. set (net := Z.land p (prefix_mask 32 l)) in *.
  set (k := r - (net + 1)). assert (Hk : 0 ≤ k < 2 ^ (32 - l) - 2) by (unfold k; lia).
  exists (λ c _, if (0 <=? k) && (k <? c) then k else 0). split.
  { intros c i Hc. destruct (Z.leb_spec 0 k), (Z.ltb_spec k c); cbn [andb]; lia. }
  unfold allocate_ipv4, ipv4_host_range. fold p l.
  rewrite (proj2 (Z.eqb_neq l 0)), (proj2 (Z.ltb_ge 32 l)), (proj2 (Z.ltb_ge (32 - l) 2)) by lia.
  cbn [orb]. cbv zeta. fold net. rewrite F, C, (proj2 (Z.eqb_neq (2 ^ (32 - l) - 2) 0)) by lia.
  cbn [rbind TRIES draw_loop].
  rewrite (proj2 (Z.leb_le 0 k)), (proj2 (Z.ltb_lt k (2 ^ (32 - l) - 2))) by lia. cbn [andb].
  replace (wrap 32 (net + 1 + k)) with r by (unfold k, wrap; rewrite Z.mod_small; lia).
  by rewrite bool_decide_eq_true_2.
Qed.

Lemma resolver_allocatable_witness :
  let a := {| ipv4_prefix := 0x64400000; ipv4_prefix_len := 10; ipv6_prefix := 0; ipv6_prefix_len := 64 |} in
  ∃ draws, draws_ok draws ∧ allocate_ipv4 a ∅ draws = Ok DEFAULT_MAGIC_DNS_IPV4.
Proof.
  intros a. destruct (resolver_allocatable a ∅) as (draws & Hd & E).
  - by split_and!.
  - by vm_compute.
  - apply not_elem_of_empty.
  - by vm_compute.
  - by vm_compute.
  - exists draws. split; [exact Hd|]. exact E.
Defined.

(** ** Records *)

(** Every stored node has a record for each of its addresses, whatever
    the policy lets the reader of the configuration see of it. *)
Lemma dns_names_nodes s domain r4 r6 nodes extra n address record :
  s.(ds_magic_dns) = true → n ∈ nodes → address ∈ n.(wn_addresses) →
  node_record n address = Some record →
  record ∈ (DnsSettings_build s domain r4 r6 nodes extra).(dns_extra_records).
Proof.
  intros Hm Hn Ha Hr. unfold DnsSettings_build. rewrite Hm. cbn [dns_extra_records].
  apply elem_of_app. left. apply list_elem_of_In, in_flat_map. exists n.
  split; [by apply list_elem_of_In|]. apply list_elem_of_In, list_elem_of_omap. by exists address.
Qed.
