(* ===== verification/SshPolicy.v ===== *)
(** * SSH rules

    [crabscale-policy/src/ssh.rs] and the wire objects of
    [crabscale-proto/src/ssh.rs]: the policy's SSH rules reduced to each
    destination node, the first rule that decides a connection, the form in
    which clients get the rules, and the period strings of check mode.  A
    [Duration] is its whole seconds. *)

From S2P Require Import Prelude Text Net IpText PolicyModel PolicyTags PolicyRoutes PolicyCompile PolicyResolve.

(** ** Periods *)

Definition DEFAULT_SSH_CHECK_PERIOD : Z := 12 * 60 * 60.

Definition U64_MAX : Z := 2 ^ 64 - 1.

Definition checked_below (max x : Z) : option Z := if x <=? max then Some x else None.
Definition checked (x : Z) : option Z := checked_below U64_MAX x.

(** The seconds of a unit letter, in either case. *)
Definition unit_seconds (c : Z) : option Z :=
  let c := to_ascii_lowercase c in
  if c =? 115 then Some 1
  else if c =? 109 then Some 60
  else if c =? 104 then Some 3600
  else if c =? 100 then Some 86400
  else None.

(** The loop over the characters, with [number] and [total]. *)
Fixpoint duration_loop (s number : text) (total : Z) : option Z :=
  match s with
  | [] => if bool_decide (number = []) then Some total else None
  | c :: rest =>
      if is_ascii_digit c then duration_loop rest (number ++ [c]) total
      else
        amount ← parse_uint U64_MAX number;
        unit ← unit_seconds c;
        seconds ← checked (amount * unit);
        total ← checked (total + seconds);
        duration_loop rest [] total
  end.

Definition parse_ssh_duration (input : text) : option Z :=
  if bool_decide (input = []) then None else duration_loop input [] 0.

(** ** Compiled rules *)

Inductive SshRuleAction : Type :=
| SshAccept
| SshCheck (check_period : Z).

#[global] Instance SshRuleAction_eq_dec : EqDecision SshRuleAction.
Proof. solve_decision. Defined.

Record CompiledSshRule : Type := {
  cr_src : list text; cr_src_nodes : gset Z; cr_src_all : bool; cr_users : list text;
  cr_action : SshRuleAction }.

#[global] Instance CompiledSshRule_eq_dec : EqDecision CompiledSshRule.
Proof. solve_decision. Defined.

Record CompiledSshPolicy : Type := { node_rules : gmap Z (list CompiledSshRule) }.

Definition ssh_rule_action (rule : SshRule) : SshRuleAction :=
  if bool_decide (rule.(ssh_action) = str "accept") then SshAccept
  else SshCheck (default DEFAULT_SSH_CHECK_PERIOD (c ← rule.(ssh_check_period); parse_ssh_duration c)).

Definition matching_ids (r : ResolvedTarget) (nodes : list CompileNode) : gset Z :=
  fold_left (λ s n, if matches_node r n then {[n.(cn_id)]} ∪ s else s) nodes ∅.

Definition compile_ssh_rule (p : Policy) (nodes : list CompileNode) (rule : SshRule)
    : CompiledSshRule :=
  let src := resolve p rule.(ssh_src) in
  {| cr_src := rule.(ssh_src); cr_src_nodes := matching_ids src nodes;
     cr_src_all := src.(wildcard) || src.(self_match); cr_users := rule.(ssh_users);
     cr_action := ssh_rule_action rule |}.

Definition push_rule (r : CompiledSshRule) (m : gmap Z (list CompiledSshRule)) (id : Z)
    : gmap Z (list CompiledSshRule) :=
  <[id := default [] (m !! id) ++ [r]]> m.

Definition add_ssh_rule (p : Policy) (nodes : list CompileNode) (m : gmap Z (list CompiledSshRule))
    (rule : SshRule) : gmap Z (list CompiledSshRule) :=
  let dst := resolve p rule.(ssh_dst) in
  let compiled_rule := compile_ssh_rule p nodes rule in
  fold_left (λ m n, if matches_node dst n then push_rule compiled_rule m n.(cn_id) else m) nodes m.

Definition compile_ssh_policy (p : Policy) (nodes : list CompileNode) : CompiledSshPolicy :=
  {| node_rules := fold_left (add_ssh_rule p nodes) p.(policy_ssh)
       (fold_left (λ m n, or_default [] n.(cn_id) m) nodes ∅) |}.

Definition ssh_rule_matches (rule : CompiledSshRule) (src_id : Z) (ssh_user : text) : bool :=
  let src_ok := rule.(cr_src_all) || bool_decide (src_id ∈ rule.(cr_src_nodes)) in
  let user_ok := bool_decide (rule.(cr_users) = [])
                 || existsb (λ u, bool_decide (u = ssh_user) || bool_decide (u = str "*")) rule.(cr_users) in
  src_ok && user_ok.

Definition first_matching_ssh_rule (policy : CompiledSshPolicy) (src_id dst_id : Z) (ssh_user : text)
    : option CompiledSshRule :=
  rules ← policy.(node_rules) !! dst_id;
  List.find (λ rule, ssh_rule_matches rule src_id ssh_user) rules.

(** ** Wire rules *)

Record SshAction : Type := {
  sa_message : text; sa_reject : bool; sa_accept : bool; sa_hold_and_delegate : text;
  sa_allow_agent_forwarding : bool; sa_allow_local_port_forwarding : bool;
  sa_allow_remote_port_forwarding : bool }.

#[global] Instance SshAction_eq_dec : EqDecision SshAction.
Proof. solve_decision. Defined.

Record SshPrincipal : Type := { pr_node : text; pr_user_login : text; pr_any : bool }.

#[global] Instance SshPrincipal_eq_dec : EqDecision SshPrincipal.
Proof. solve_decision. Defined.

Record WireSshRule : Type := {
  wr_principals : list SshPrincipal; wr_ssh_users : gmap text text; wr_action : option SshAction }.

Record WireSshPolicy : Type := { wire_rules : list WireSshRule }.

#[global] Instance WireSshRule_eq_dec : EqDecision WireSshRule.
Proof. solve_decision. Defined.
#[global] Instance WireSshPolicy_eq_dec : EqDecision WireSshPolicy.
Proof. solve_decision. Defined.

Definition any_principal : SshPrincipal := {| pr_node := []; pr_user_login := []; pr_any := true |}.
Definition node_principal (stable_id : text) : SshPrincipal :=
  {| pr_node := stable_id; pr_user_login := []; pr_any := false |}.
Definition user_principal (login : text) : SshPrincipal :=
  {| pr_node := []; pr_user_login := login; pr_any := false |}.

(** The loop that adds the [user@host] selectors. *)
Definition add_user (ps : list SshPrincipal) (selector : text) : list SshPrincipal :=
  if contains_char 64 selector
     && negb (existsb (λ p, bool_decide (p.(pr_user_login) = selector)) ps)
  then ps ++ [user_principal selector] else ps.

(** The loop over the source nodes, with [seen_nodes]. *)
Definition add_source (nodes : list CompileNode) (acc : list SshPrincipal * gset text) (id : Z)
    : list SshPrincipal * gset text :=
  match List.find (λ n, n.(cn_id) =? id) nodes with
  | Some n =>
      if negb (bool_decide (n.(cn_stable_id) = [])) && negb (bool_decide (n.(cn_stable_id) ∈ acc.2))
      then (acc.1 ++ [node_principal n.(cn_stable_id)], {[n.(cn_stable_id)]} ∪ acc.2)
      else acc
  | None => acc
  end.

Definition sorted_ids (s : gset Z) : list Z := merge_sort Z.le (elements s).

Definition role_principals (rule : CompiledSshRule) (nodes : list CompileNode) : list SshPrincipal :=
  if rule.(cr_src_all) then fold_left add_user rule.(cr_src) [any_principal]
  else
    let '(ps, _) := fold_left (add_source nodes) (sorted_ids rule.(cr_src_nodes)) ([], ∅) in
    fold_left add_user rule.(cr_src) ps.

Definition wire_ssh_action (server_url : text) (action : SshRuleAction) : SshAction :=
  match action with
  | SshAccept =>
      {| sa_message := str "SSH connection accepted"; sa_reject := false; sa_accept := true;
         sa_hold_and_delegate := []; sa_allow_agent_forwarding := true;
         sa_allow_local_port_forwarding := true; sa_allow_remote_port_forwarding := true |}
  | SshCheck _ =>
      {| sa_message := str "approval required"; sa_reject := false; sa_accept := false;
         sa_hold_and_delegate := server_url
           ++ str "/machine/ssh/action/$SRC_NODE_ID/to/$DST_NODE_ID?ssh_user=$SSH_USER&local_user=$LOCAL_USER";
         sa_allow_agent_forwarding := true; sa_allow_local_port_forwarding := true;
         sa_allow_remote_port_forwarding := true |}
  end.

Definition wire_ssh_rule (server_url : text) (nodes : list CompileNode) (rule : CompiledSshRule)
    : WireSshRule :=
  {| wr_principals := role_principals rule nodes;
     wr_ssh_users := fold_left (λ m u, <[u := str "="]> m) rule.(cr_users) ∅;
     wr_action := Some (wire_ssh_action server_url rule.(cr_action)) |}.

Definition build_wire_ssh_policy (compiled : CompiledSshPolicy) (dst_id : Z) (server_url : text)
    (nodes : list CompileNode) : option WireSshPolicy :=
  match compiled.(node_rules) !! dst_id with
  | Some (r :: rs) => Some {| wire_rules := map (wire_ssh_rule server_url nodes) (r :: rs) |}
  | _ => None
  end.

(** ** The first matching rule *)

Section first_match.
Context (p : Policy) (nodes : list CompileNode).

(** A list found in a map, with more elements at its end. *)
Definition appended {A} (o : option (list A)) (l : list A) : option (list A) :=
  match l with [] => o | _ => Some (default [] o ++ l) end.

Lemma appended_app {A} (o : option (list A)) l k : appended (appended o l) k = appended o (l ++ k).
Proof. destruct l, k; cbn; rewrite ?app_nil_r; [done..|]. by rewrite <- app_assoc. Qed.

Lemma default_appended {A} (o : option (list A)) l : default [] (appended o l) = default [] o ++ l.
Proof. destruct l; cbn; [by rewrite app_nil_r|done]. Qed.

(** What a rule adds to the list of a destination. *)
Definition rule_entries (dst : Z) (rule : SshRule) (ns : list CompileNode) : list CompiledSshRule :=
  flat_map (λ n, if (n.(cn_id) =? dst) && matches_node (resolve p rule.(ssh_dst)) n
                 then [compile_ssh_rule p nodes rule] else []) ns.

Lemma add_ssh_rule_lookup m rule dst :
  add_ssh_rule p nodes m rule !! dst = appended (m !! dst) (rule_entries dst rule nodes).
Proof.
  unfold add_ssh_rule. cbv zeta. set (c := compile_ssh_rule p nodes rule).
  assert (H : ∀ ns m', fold_left (λ m n, if matches_node (resolve p rule.(ssh_dst)) n
      then push_rule c m n.(cn_id) else m) ns m' !! dst = appended (m' !! dst) (rule_entries dst rule ns)).
  { intros ns. induction ns as [|n ns IH]; intros m'; [done|]. cbn [fold_left rule_entries flat_map].
    rewrite IH. fold (rule_entries dst rule ns). rewrite <- appended_app. f_equal.
    destruct (matches_node _ n); [|by rewrite andb_false_r].
    rewrite andb_true_r. unfold push_rule. destruct (Z.eqb_spec n.(cn_id) dst) as [->|Hne].
    - by rewrite lookup_insert_eq.
    - by rewrite lookup_insert_ne. }
  apply H.
Qed.

Lemma compile_ssh_lookup dst :
  default [] ((compile_ssh_policy p nodes).(node_rules) !! dst)
  = flat_map (λ rule, rule_entries dst rule nodes) p.(policy_ssh).
Proof.
  unfold compile_ssh_policy. cbn [node_rules].
  assert (H : ∀ rs m, fold_left (add_ssh_rule p nodes) rs m !! dst
      = appended (m !! dst) (flat_map (λ rule, rule_entries dst rule nodes) rs)).
  { intros rs. induction rs as [|r rs IH]; intros m; [done|]. cbn [fold_left flat_map].
    by rewrite IH, add_ssh_rule_lookup, appended_app. }
  rewrite H, default_appended.
  assert (H0 : ∀ ns m, default [] (m !! dst) = [] →
      default [] (fold_left (λ m n, or_default [] n.(cn_id) m) ns m !! dst) = @nil CompiledSshRule).
  { intros ns. induction ns as [|n ns IH]; intros m Hm; [done|]. apply IH. unfold or_default.
    destruct (decide (n.(cn_id) = dst)) as [->|Hne]; [by rewrite lookup_insert_eq|].
    by rewrite lookup_insert_ne. }
  by rewrite H0.
Qed.

Lemma elem_of_matching_ids r i :
  i ∈ matching_ids r nodes ↔ ∃ n, n ∈ nodes ∧ matches_node r n = true ∧ n.(cn_id) = i.
Proof.
  unfold matching_ids.
  rewrite (fold_left_or _ (λ s : gset Z, i ∈ s) (λ n, matches_node r n = true ∧ n.(cn_id) = i)).
  - setoid_rewrite elem_of_empty. naive_solver.
  - intros s n. destruct (matches_node r n); set_solver.
Qed.

(** A list whose members are all [g x]. *)
Lemma find_flat_map {A B} (f : A → list B) (g : A → B) (P : B → bool) l :
  (∀ x y, y ∈ f x → y = g x) →
  List.find P (flat_map f l)
  = g <$> List.find (λ x, negb (bool_decide (f x = [])) && P (g x)) l.
Proof.
  intros Hf. induction l as [|x l IH]; [done|]. cbn [flat_map List.find].
  assert (Hfind : ∀ ys rest, (∀ y, y ∈ ys → y = g x) →
    List.find P (ys ++ rest)
    = if negb (bool_decide (ys = [])) && P (g x) then Some (g x) else List.find P rest).
  { intros ys rest. induction ys as [|y ys IHy]; intros Hy; [done|]. cbn [app List.find].
    rewrite (Hy y) by by left. rewrite IHy by (intros z Hz; apply Hy; by right).
    destruct (P (g x)); [by cbn|by rewrite !andb_false_r]. }
  rewrite Hfind by apply Hf. case_match; [done|apply IH].
Qed.

Lemma rule_entries_spec dst rule y :
  y ∈ rule_entries dst rule nodes → y = compile_ssh_rule p nodes rule.
Proof.
  unfold rule_entries. rewrite list_elem_of_In, in_flat_map. intros (n & _ & Hn).
  destruct (_ && _); [|done]. by destruct Hn as [<-|[]].
Qed.

(** The rule concerns the destination. *)
Definition rule_has_dst (dst : Z) (rule : SshRule) : bool :=
  existsb (λ n, (n.(cn_id) =? dst) && matches_node (resolve p rule.(ssh_dst)) n) nodes.

Lemma rule_entries_nil dst rule :
  negb (bool_decide (rule_entries dst rule nodes = [])) = rule_has_dst dst rule.
Proof.
  unfold rule_entries, rule_has_dst. generalize (compile_ssh_rule p nodes rule). intros c.
  induction nodes as [|n ns IH]; [done|]. cbn [flat_map existsb].
  destruct (_ && _); cbn [app orb]; [done|exact IH].
Qed.

(** The policy's own reading of a connection: the first of its rules with the
    destination, the source and the user. *)
Definition rule_admits (src dst : Z) (user : text) (rule : SshRule) : bool :=
  let r := resolve p rule.(ssh_src) in
  rule_has_dst dst rule
  && (r.(wildcard) || r.(self_match)
      || existsb (λ n, (n.(cn_id) =? src) && matches_node r n) nodes)
  && (bool_decide (rule.(ssh_users) = [])
      || bool_decide (user ∈ rule.(ssh_users)) || bool_decide (str "*" ∈ rule.(ssh_users))).

Lemma ssh_rule_matches_compiled rule src user :
  ssh_rule_matches (compile_ssh_rule p nodes rule) src user
  = (let r := resolve p rule.(ssh_src) in
     r.(wildcard) || r.(self_match) || existsb (λ n, (n.(cn_id) =? src) && matches_node r n) nodes)
    && (bool_decide (rule.(ssh_users) = [])
        || bool_decide (user ∈ rule.(ssh_users)) || bool_decide (str "*" ∈ rule.(ssh_users))).
Proof.
  unfold ssh_rule_matches, compile_ssh_rule. cbv zeta. cbn [cr_src_all cr_src_nodes cr_users]. f_equal.
  - f_equal. apply eq_true_iff_eq. rewrite bool_decide_eq_true, elem_of_matching_ids, existsb_exists.
    setoid_rewrite list_elem_of_In. setoid_rewrite andb_true_iff. setoid_rewrite Z.eqb_eq. naive_solver.
  - rewrite <- orb_assoc. f_equal. apply eq_true_iff_eq.
    rewrite existsb_exists, orb_true_iff, !bool_decide_eq_true. setoid_rewrite orb_true_iff.
    setoid_rewrite bool_decide_eq_true. setoid_rewrite <- list_elem_of_In. naive_solver.
Qed.

End first_match.

(** The compiled policy decides a connection by the first rule of the
    policy, in the order it is written, whose destination, source and users
    include the connection's; no rule, no access. *)
Theorem ssh_first_match_exact p nodes src dst user :
  first_matching_ssh_rule (compile_ssh_policy p nodes) src dst user
  = compile_ssh_rule p nodes <$> List.find (rule_admits p nodes src dst user) p.(policy_ssh).
Proof.
  unfold first_matching_ssh_rule.
  transitivity (List.find (λ rule, ssh_rule_matches rule src user)
    (default [] ((compile_ssh_policy p nodes).(node_rules) !! dst))).
  { by destruct (_ !! dst). }
  rewrite compile_ssh_lookup.
  rewrite (find_flat_map _ (compile_ssh_rule p nodes)) by apply rule_entries_spec.
  f_equal. induction p.(policy_ssh) as [|r rs IH]; [done|]. cbn [List.find]. rewrite IH.
  rewrite rule_entries_nil, ssh_rule_matches_compiled. unfold rule_admits. cbv zeta.
  by rewrite <- andb_assoc.
Qed.

(** ** Two evaluations of the rules

    A node evaluates the wire rules by itself; check mode evaluates the
    compiled ones on the server.  [principal_admits] and [wire_rule_admits]
    are the evaluation the wire types document: any one field of a principal
    matches, and an SSH user that maps to an empty name does not. *)

Definition principal_admits (s : CompileNode) (pr : SshPrincipal) : bool :=
  pr.(pr_any)
  || (negb (bool_decide (pr.(pr_node) = [])) && bool_decide (pr.(pr_node) = s.(cn_stable_id)))
  || (negb (bool_decide (pr.(pr_user_login) = []))
      && bool_decide (Some pr.(pr_user_login) = s.(cn_user_login))).

Definition user_maps (users : gmap text text) (user : text) : bool :=
  match users !! user with
  | Some local => negb (bool_decide (local = []))
  | None => match users !! str "*" with Some local => negb (bool_decide (local = [])) | None => false end
  end.

Definition wire_rule_admits (s : CompileNode) (user : text) (r : WireSshRule) : bool :=
  existsb (principal_admits s) r.(wr_principals) && user_maps r.(wr_ssh_users) user.

Section wire.
Context (nodes : list CompileNode) (s : CompileNode).
Context (Hs : s ∈ nodes) (Hids : ∀ a b, a ∈ nodes → b ∈ nodes → cn_id a = cn_id b → a = b)
  (Hsid : s.(cn_stable_id) ≠ [])
  (Hstable : ∀ a, a ∈ nodes → a.(cn_stable_id) = s.(cn_stable_id) → a = s).

Lemma admits_snoc ps pr :
  existsb (principal_admits s) (ps ++ [pr]) = existsb (principal_admits s) ps || principal_admits s pr.
Proof. rewrite existsb_app. cbn [existsb]. by rewrite orb_false_r. Qed.

Lemma node_principal_admits sid :
  sid ≠ [] → principal_admits s (node_principal sid) = bool_decide (sid = s.(cn_stable_id)).
Proof.
  intros Hn. unfold principal_admits, node_principal. cbn [pr_any pr_node pr_user_login orb].
  rewrite (bool_decide_eq_false_2 (sid = [])), (bool_decide_eq_true_2 ([] = [])) by done. cbn.
  by rewrite orb_false_r.
Qed.

Lemma user_principal_admits u :
  u ≠ [] → principal_admits s (user_principal u) = bool_decide (Some u = s.(cn_user_login)).
Proof.
  intros Hn. unfold principal_admits, user_principal. cbn [pr_any pr_node pr_user_login orb].
  by rewrite (bool_decide_eq_false_2 (u = [])), (bool_decide_eq_true_2 ([] = [])) by done.
Qed.

(** The [user@host] loop admits the nodes of the users named, besides. *)
Lemma add_user_admits src ps :
  existsb (principal_admits s) (fold_left add_user src ps)
  = existsb (principal_admits s) ps
    || existsb (λ u, contains_char 64 u && bool_decide (Some u = s.(cn_user_login))) src.
Proof.
  revert ps. induction src as [|u src IH]; intros ps; cbn [fold_left existsb]; [by rewrite orb_false_r|].
  rewrite IH, orb_assoc. f_equal. unfold add_user.
  destruct (contains_char 64 u) eqn:Eu; cbn [andb]; [|by rewrite orb_false_r].
  assert (Hu : u ≠ []) by by intros ->.
  destruct (existsb (λ p, bool_decide (pr_user_login p = u)) ps) eqn:Ep; cbn [negb].
  - apply existsb_exists in Ep as (pr & Hpr & Heq%bool_decide_eq_true).
    destruct (bool_decide (Some u = _)) eqn:El; [|by rewrite orb_false_r].
    rewrite orb_true_r. apply existsb_exists. exists pr. split; [done|]. unfold principal_admits.
    rewrite Heq, El, (bool_decide_eq_false_2 (u = [])) by done. by rewrite orb_true_r.
  - by rewrite admits_snoc, user_principal_admits.
Qed.

Lemma find_id a : a ∈ nodes → List.find (λ n, n.(cn_id) =? a.(cn_id)) nodes = Some a.
Proof.
  intros Ha. destruct (List.find _ nodes) as [b|] eqn:E.
  - apply find_some in E as [Hb Hi%Z.eqb_eq]. f_equal. apply Hids; [by apply list_elem_of_In|done|done].
  - apply list_elem_of_In in Ha. pose proof (find_none _ _ E a Ha) as Hn. cbv beta in Hn.
    by rewrite Z.eqb_refl in Hn.
Qed.

(** The node loop admits [s] when its id is among the sources. *)
Lemma add_source_admits ids ps seen :
  (∀ i, i ∈ ids → ∃ a, a ∈ nodes ∧ a.(cn_id) = i) →
  existsb (principal_admits s) ps = bool_decide (s.(cn_stable_id) ∈ seen) →
  existsb (principal_admits s) (fold_left (add_source nodes) ids (ps, seen)).1
  = existsb (principal_admits s) ps || bool_decide (s.(cn_id) ∈ ids).
Proof.
  revert ps seen. induction ids as [|i ids IH]; intros ps seen Hi Hseen; cbn [fold_left fst].
  { rewrite (bool_decide_eq_false_2 (_ ∈ [])) by apply not_elem_of_nil. by rewrite orb_false_r. }
  destruct (Hi i) as (a & Ha & <-); [by left|].
  assert (Hstep : ∃ ps' seen', add_source nodes (ps, seen) a.(cn_id) = (ps', seen')
    ∧ existsb (principal_admits s) ps' = existsb (principal_admits s) ps || bool_decide (s.(cn_id) = a.(cn_id))
    ∧ existsb (principal_admits s) ps' = bool_decide (s.(cn_stable_id) ∈ seen')).
  { unfold add_source. rewrite (find_id a Ha). cbn [fst snd].
    assert (Hsa : s.(cn_id) = a.(cn_id) ↔ a.(cn_stable_id) = s.(cn_stable_id)).
    { split; [intros E; by rewrite (Hids s a Hs Ha E)|intros E; by rewrite (Hstable a Ha E)]. }
    destruct (decide (a.(cn_stable_id) = [])) as [E|E].
    { rewrite (bool_decide_eq_true_2 _ E). cbn [negb andb]. eexists _, _. split; [done|].
      rewrite (bool_decide_eq_false_2 (cn_id s = _)), orb_false_r by (rewrite Hsa; congruence). by split. }
    rewrite (bool_decide_eq_false_2 _ E). cbn [negb andb].
    destruct (decide (a.(cn_stable_id) ∈ seen)) as [E'|E'].
    - rewrite (bool_decide_eq_true_2 _ E'). cbn [negb]. eexists _, _. split; [done|]. split; [|done].
      destruct (decide (cn_id s = cn_id a)) as [Ei|Ei];
        [|by rewrite (bool_decide_eq_false_2 _ Ei), orb_false_r].
      rewrite Hseen, (bool_decide_eq_true_2 (_ ∈ seen)); [done|]. apply Hsa in Ei. by rewrite <- Ei.
    - rewrite (bool_decide_eq_false_2 _ E'). cbn [negb]. eexists _, _. split; [done|].
      rewrite admits_snoc, (node_principal_admits _ E). split.
      + f_equal. apply bool_decide_ext. by rewrite Hsa.
      + rewrite Hseen. apply eq_true_iff_eq. rewrite orb_true_iff, !bool_decide_eq_true. set_solver. }
  destruct Hstep as (ps' & seen' & -> & Hps & Hseen').
  rewrite IH by (done || intros j Hj; apply Hi; by right).
  rewrite Hps, <- orb_assoc. f_equal. apply eq_true_iff_eq.
  rewrite orb_true_iff, !bool_decide_eq_true, elem_of_cons. done.
Qed.

(** The users of a rule, as the map a client looks them up in. *)
Lemma user_maps_users users user :
  user_maps (fold_left (λ m u, <[u := str "="]> m) users ∅) user
  = bool_decide (user ∈ users) || bool_decide (str "*" ∈ users).
Proof.
  assert (H : ∀ us (m : gmap text text) u, fold_left (λ m u, <[u := str "="]> m) us m !! u
      = if bool_decide (u ∈ us) then Some (str "=") else m !! u).
  { intros us. induction us as [|x us IH]; intros m u; cbn [fold_left].
    { by rewrite bool_decide_eq_false_2 by apply not_elem_of_nil. }
    rewrite IH. destruct (decide (u ∈ us)) as [Hu|Hu].
    { by rewrite !bool_decide_eq_true_2 by (done || by right). }
    rewrite (bool_decide_eq_false_2 _ Hu). destruct (decide (u = x)) as [->|Hne].
    - by rewrite lookup_insert_eq, bool_decide_eq_true_2 by by left.
    - rewrite lookup_insert_ne, bool_decide_eq_false_2; [done| |done]. by intros [|]%elem_of_cons. }
  unfold user_maps. rewrite !H, !lookup_empty.
  destruct (bool_decide (user ∈ users)), (bool_decide (str "*" ∈ users)); done.
Qed.

Lemma elem_of_sorted_ids (ids : gset Z) i : i ∈ sorted_ids ids ↔ i ∈ ids.
Proof. unfold sorted_ids. by rewrite (merge_sort_Permutation Z.le _), elem_of_elements. Qed.

(** A login that a selector names as it is. *)
Definition plain_login (l : text) : Prop :=
  is_user_ident l = true ∧ strip_prefix (str "autogroup:") l = None
  ∧ strip_prefix (str "group:") l = None.

Lemma resolve_login p src l :
  plain_login l → l ∈ src → l ∈ (resolve p src).(identities).
Proof.
  intros (Hu & Ha & Hg) Hl.
  apply (resolve_closure p (λ r, l ∈ r.(identities))); cbn; try done.
  - intros r m. set_solver.
  - intros r m. set_solver.
  - exists l, l. split_and!; [done|constructor|]. unfold resolve_leaf.
    rewrite bool_decide_eq_false_2, Ha, Hg by (intros ->; done).
    destruct (starts_with _ l); [cbn; set_solver|]. unfold resolve_named. rewrite Hu. cbn. set_solver.
Qed.

Lemma role_principals_admits p rule :
  (∀ l, s.(cn_user_login) = Some l → plain_login l) →
  existsb (principal_admits s) (role_principals (compile_ssh_rule p nodes rule) nodes)
  = (compile_ssh_rule p nodes rule).(cr_src_all)
    || bool_decide (s.(cn_id) ∈ (compile_ssh_rule p nodes rule).(cr_src_nodes)).
Proof.
  intros Hlogin. unfold role_principals. set (c := compile_ssh_rule p nodes rule).
  destruct c.(cr_src_all) eqn:Eall; cbn [orb].
  { rewrite add_user_admits. by rewrite orb_true_l. }
  pose proof (add_source_admits (sorted_ids c.(cr_src_nodes)) [] ∅) as Hsrc.
  destruct (fold_left _ (sorted_ids _) _) as [ps seen]. cbn [fst] in Hsrc.
  rewrite add_user_admits, Hsrc; [|..].
  - cbn [existsb orb]. rewrite (bool_decide_ext _ _ (elem_of_sorted_ids _ _)).
    destruct (existsb _ (cr_src c)) eqn:Eu; [|by rewrite orb_false_r]. rewrite orb_true_r. symmetry.
    apply bool_decide_eq_true. apply existsb_exists in Eu as (u & Hu & [_ Hl]%andb_true_iff).
    apply bool_decide_eq_true in Hl. apply list_elem_of_In in Hu.
    apply elem_of_matching_ids. exists s. split_and!; [done| |done].
    unfold matches_node, has_identity. rewrite <- Hl.
    rewrite (bool_decide_eq_true_2 (u ∈ _)) by (apply resolve_login; [by apply Hlogin|done]).
    by rewrite !orb_true_r.
  - intros i Hi%elem_of_sorted_ids. apply elem_of_matching_ids in Hi as (n & ? & _ & ?). by exists n.
  - by rewrite bool_decide_eq_false_2 by apply not_elem_of_empty.
Qed.

End wire.

(** C21. A node that evaluates the rules it is sent and a server that
    evaluates its own come to the same verdict on every connection from a
    known node, when each rule names its users. *)
Theorem wire_ssh_agrees p nodes s dst user url :
  s ∈ nodes → (∀ a b, a ∈ nodes → b ∈ nodes → cn_id a = cn_id b → a = b) →
  s.(cn_stable_id) ≠ [] → (∀ a, a ∈ nodes → a.(cn_stable_id) = s.(cn_stable_id) → a = s) →
  (∀ l, s.(cn_user_login) = Some l → plain_login l) →
  (∀ rule, rule ∈ p.(policy_ssh) → rule.(ssh_users) ≠ []) →
  (w ← build_wire_ssh_policy (compile_ssh_policy p nodes) dst url nodes;
   List.find (wire_rule_admits s user) w.(wire_rules))
  = wire_ssh_rule url nodes
    <$> first_matching_ssh_rule (compile_ssh_policy p nodes) s.(cn_id) dst user.
Proof.
  intros Hs Hids Hsid Hstable Hlogin Husers. unfold build_wire_ssh_policy, first_matching_ssh_rule.
  assert (Hcomp : ∀ r, r ∈ default [] ((compile_ssh_policy p nodes).(node_rules) !! dst) →
    wire_rule_admits s user (wire_ssh_rule url nodes r) = ssh_rule_matches r s.(cn_id) user).
  { intros r Hr. rewrite compile_ssh_lookup in Hr. apply list_elem_of_In, in_flat_map in Hr as (rule & Hrule & Hr).
    apply list_elem_of_In in Hr, Hrule. rewrite (rule_entries_spec _ _ _ _ _ Hr).
    unfold wire_rule_admits, wire_ssh_rule. cbn [wr_principals wr_ssh_users].
    rewrite role_principals_admits, user_maps_users by done. unfold ssh_rule_matches. cbv zeta. f_equal.
    unfold compile_ssh_rule. cbv zeta. cbn [cr_users].
    rewrite (bool_decide_eq_false_2 (ssh_users rule = [])) by by apply Husers. cbn [orb].
    apply eq_true_iff_eq. rewrite existsb_exists, orb_true_iff, !bool_decide_eq_true.
    setoid_rewrite orb_true_iff. setoid_rewrite bool_decide_eq_true. setoid_rewrite <- list_elem_of_In.
    naive_solver. }
  destruct ((compile_ssh_policy p nodes).(node_rules) !! dst) as [rs|]; [|done].
  cbn [mbind option_bind default from_option id] in *.
  transitivity (List.find (wire_rule_admits s user) (map (wire_ssh_rule url nodes) rs)).
  { by destruct rs. }
  induction rs as [|r rs IH]; [done|]. cbn [map List.find]. rewrite (Hcomp r) by by left.
  destruct (ssh_rule_matches r _ _); [done|]. apply IH. intros r' Hr'. apply Hcomp. by right.
Qed.

(** Two nodes of one user, and a rule between them. *)
Definition demo_ssh_node (id : Z) : CompileNode :=
  {| cn_id := id; cn_stable_id := [110; id]; cn_user_login := Some (str "a@b");
     cn_addresses := []; cn_tags := [] |}.

Definition demo_ssh_policy (users : list text) : Policy :=
  {| groups := ∅; hosts := ∅; acls := []; grants := []; tag_owners := ∅;
     auto_approvers := {| approver_routes := []; approver_exit_node := [] |};
     policy_ssh := [{| ssh_action := str "check"; ssh_src := [str "a@b"]; ssh_dst := [str "a@b"];
                       ssh_users := users; ssh_check_period := Some (str "1h30m") |}];
     node_attrs := []; policy_tests := []; ssh_tests := [] |}.

Lemma wire_ssh_agrees_witness :
  let p := demo_ssh_policy [str "root"] in
  let nodes := [demo_ssh_node 1; demo_ssh_node 2] in
  (w ← build_wire_ssh_policy (compile_ssh_policy p nodes) 2 (str "u") nodes;
   List.find (wire_rule_admits (demo_ssh_node 1) (str "root")) w.(wire_rules))
  = wire_ssh_rule (str "u") nodes
    <$> first_matching_ssh_rule (compile_ssh_policy p nodes) 1 2 (str "root")
  ∧ (cr_action <$> first_matching_ssh_rule (compile_ssh_policy p nodes) 1 2 (str "root"))
    = Some (SshCheck 5400).
Proof.
  intros p nodes. split; [|by vm_compute].
  apply (wire_ssh_agrees p nodes (demo_ssh_node 1) 2 (str "root") (str "u")).
  - by left.
  - by intros a b [->|[->|[]%elem_of_nil]%elem_of_cons]%elem_of_cons [->|[->|[]%elem_of_nil]%elem_of_cons]%elem_of_cons.
  - done.
  - by intros a [->|[->|[]%elem_of_nil]%elem_of_cons]%elem_of_cons.
  - intros l [= <-]. by split_and!; vm_compute.
  - by intros rule [->|[]%elem_of_nil]%elem_of_cons.
Defined.

(** A rule that names no users admits every user on the server and
    none on the node that is sent it. *)
Theorem wire_rule_without_users p nodes rule s user url :
  rule.(ssh_users) = [] →
  wire_rule_admits s user (wire_ssh_rule url nodes (compile_ssh_rule p nodes rule)) = false
  ∧ ssh_rule_matches (compile_ssh_rule p nodes rule) s.(cn_id) user
    = (let r := resolve p rule.(ssh_src) in
       r.(wildcard) || r.(self_match)
       || existsb (λ n, (n.(cn_id) =? s.(cn_id)) && matches_node r n) nodes).
Proof.
  intros Hu. split.
  - unfold wire_rule_admits, wire_ssh_rule, compile_ssh_rule. cbv zeta. cbn [wr_principals wr_ssh_users cr_users].
    rewrite user_maps_users, Hu, !bool_decide_eq_false_2 by apply not_elem_of_nil. by rewrite andb_false_r.
  - rewrite ssh_rule_matches_compiled, Hu. cbv zeta. by rewrite andb_true_r.
Qed.

Lemma wire_rule_without_users_witness :
  let p := demo_ssh_policy [] in let nodes := [demo_ssh_node 1; demo_ssh_node 2] in
  let rule := {| ssh_action := str "check"; ssh_src := [str "a@b"]; ssh_dst := [str "a@b"];
                 ssh_users := []; ssh_check_period := Some (str "1h30m") |} in
  wire_rule_admits (demo_ssh_node 1) (str "root") (wire_ssh_rule [] nodes (compile_ssh_rule p nodes rule)) = false
  ∧ ssh_rule_matches (compile_ssh_rule p nodes rule) 1 (str "root") = true.
Proof.
  intros p nodes rule.
  destruct (wire_rule_without_users p nodes rule (demo_ssh_node 1) (str "root") [] eq_refl) as [H1 H2].
  split; [exact H1|]. etrans; [exact H2|]. by vm_compute.
Defined.

(** ** Period strings *)

Definition item_text (i : text * Z) : text := i.1 ++ [i.2].

Definition item_ok (i : text * Z) : Prop :=
  i.1 ≠ [] ∧ Forall (λ c, is_ascii_digit c = true) i.1 ∧ is_Some (unit_seconds i.2).

(** The seconds of one amount with its unit. *)
Definition item_seconds (i : text * Z) : Z :=
  digits_value 10 (map (λ c, c - 48) i.1) * default 0 (unit_seconds i.2).

Definition total_seconds (items : list (text * Z)) : Z :=
  fold_right (λ i t, item_seconds i + t) 0 items.

Lemma is_ascii_digit_spec c : is_ascii_digit c = true ↔ 48 ≤ c ≤ 57.
Proof. unfold is_ascii_digit. rewrite andb_true_iff, !Z.leb_le. lia. Qed.

Lemma is_ascii_digit_to_digit c : is_ascii_digit c = true → to_digit 10 c = Some (c - 48).
Proof.
  intros Hc. unfold to_digit. rewrite Hc. apply is_ascii_digit_spec in Hc.
  by rewrite (proj2 (Z.ltb_lt (c - 48) 10)) by lia.
Qed.

Lemma span_digits_all ds :
  Forall (λ c, is_ascii_digit c = true) ds → span_digits 10 ds = (map (λ c, c - 48) ds, []).
Proof.
  induction 1 as [|c ds Hc _ IH]; [done|]. cbn [span_digits map].
  by rewrite (is_ascii_digit_to_digit c Hc), IH.
Qed.

Lemma unit_not_digit u : is_Some (unit_seconds u) → is_ascii_digit u = false.
Proof.
  intros [k Hk]. apply not_true_is_false. intros Hd%is_ascii_digit_spec. revert Hk.
  unfold unit_seconds, to_ascii_lowercase. repeat case_match; breflect; try done; lia.
Qed.

Lemma not_digit_end c rest : is_ascii_digit c = false → digit_end 10 (c :: rest).
Proof. intros Hc. unfold digit_end, to_digit. rewrite Hc. repeat case_match; breflect; try done; lia. Qed.

(** Digits and the character that ends them are found again. *)
Lemma digits_split ds ds' c c' rest rest' :
  Forall (λ c, is_ascii_digit c = true) ds → Forall (λ c, is_ascii_digit c = true) ds' →
  is_ascii_digit c = false → is_ascii_digit c' = false →
  ds ++ c :: rest = ds' ++ c' :: rest' → ds = ds' ∧ c = c' ∧ rest = rest'.
Proof.
  intros Hds Hds' Hc Hc' E. revert ds' Hds' E. induction Hds as [|d ds Hd _ IH]; intros ds' Hds' E.
  - destruct Hds' as [|d' ds' Hd' _]; [by injection E as -> ->|]. injection E as -> _. congruence.
  - destruct Hds' as [|d' ds' Hd' Hds']; injection E as -> E; [congruence|].
    by destruct (IH ds' Hds' E) as (-> & -> & ->).
Qed.

Lemma parse_uint_digits max ds :
  ds ≠ [] → Forall (λ c, is_ascii_digit c = true) ds →
  parse_uint max ds = checked_below max (digits_value 10 (map (λ c, c - 48) ds)).
Proof.
  intros Hn Hd. unfold parse_uint, parse_digits, checked_below.
  replace (match ds with 43 :: t => t | _ => ds end) with ds.
  2: { destruct ds as [|c ds]; [done|]. apply list.Forall_cons in Hd as [Hc%is_ascii_digit_spec _].
       repeat (case_match; try done; try lia). }
  rewrite span_digits_all by done. by destruct ds.
Qed.

Lemma total_seconds_nonneg items : Forall item_ok items → 0 ≤ total_seconds items.
Proof.
  induction 1 as [|i items (Hn & Hd & [k Hk]) _ IH]; [done|]. cbn [total_seconds fold_right].
  fold (total_seconds items). unfold item_seconds. rewrite Hk. cbn [default from_option id].
  assert (0 ≤ digits_value 10 (map (λ c, c - 48) i.1)).
  { unfold digits_value. apply digits_value_nonneg.
    + done.
    + clear -Hd. induction Hd as [|c ds Hc%is_ascii_digit_spec _ IH]; constructor; [lia|done]. }
  assert (0 ≤ k) by (unfold unit_seconds in Hk; repeat case_match; simplify_eq; lia). nia.
Qed.

Lemma checked_spec x y : checked x = Some y ↔ y = x ∧ x ≤ U64_MAX.
Proof. unfold checked, checked_below. destruct (Z.leb_spec x U64_MAX); split; intros; destruct_and?; simplify_eq; (done || lia). Qed.

Lemma flat_items_nil items : Forall item_ok items → flat_map item_text items = [] → items = [].
Proof. intros [|[ds u] its (Hn & _) _]; [done|]. by destruct ds. Qed.

(** One complete item is read off the front. *)
Lemma duration_item number c rest total t :
  Forall (λ c, is_ascii_digit c = true) number → is_ascii_digit c = false →
  0 ≤ total →
  duration_loop (c :: rest) number total = Some t ↔
  item_ok (number, c) ∧ total + item_seconds (number, c) ≤ U64_MAX
  ∧ duration_loop rest [] (total + item_seconds (number, c)) = Some t.
Proof.
  intros Hnum Hc Htot. cbn [duration_loop]. rewrite Hc. unfold item_ok, item_seconds. cbn [fst snd].
  destruct (decide (number = [])) as [->|Hne].
  { split; [done|]. by intros [(? & _) _]. }
  rewrite parse_uint_digits by done. set (v := digits_value 10 _).
  assert (Hv : 0 ≤ v).
  { unfold v, digits_value. apply digits_value_nonneg; [done|].
    clear -Hnum. induction Hnum as [|d ds Hd%is_ascii_digit_spec _ IH]; constructor; [lia|done]. }
  destruct (unit_seconds c) as [k|] eqn:Hk.
  2: { split; [|by intros [(_ & _ & [? ?]) _]]. by destruct (checked_below U64_MAX v). }
  assert (Hkpos : 1 ≤ k) by (unfold unit_seconds in Hk; repeat case_match; simplify_eq; lia).
  cbn [default from_option id]. fold (checked v). destruct (checked v) as [v'|] eqn:Ev.
  - apply checked_spec in Ev as [-> Hle]. cbn [mbind option_bind].
    destruct (checked (v * k)) as [w|] eqn:Ew.
    + apply checked_spec in Ew as [-> Hlew]. cbn [mbind option_bind].
      destruct (checked (total + v * k)) as [w|] eqn:Et.
      * apply checked_spec in Et as [-> Het]. cbn [mbind option_bind]. by naive_solver.
      * split; [done|]. intros (_ & Hle' & _). assert (Hs : checked (total + v * k) = Some (total + v * k))
          by by apply checked_spec. congruence.
    + split; [done|]. intros (_ & Hle' & _).
      assert (Hs : checked (v * k) = Some (v * k)) by (apply checked_spec; split; [done|lia]). congruence.
  - split; [done|]. intros (_ & Hle' & _).
    assert (Hs : checked v = Some v) by (apply checked_spec; split; [done|nia]). congruence.
Qed.

Lemma duration_loop_spec s number total t :
  Forall (λ c, is_ascii_digit c = true) number → 0 ≤ total ≤ U64_MAX →
  duration_loop s number total = Some t ↔
  ∃ items, number ++ s = flat_map item_text items ∧ Forall item_ok items
    ∧ t = total + total_seconds items ∧ t ≤ U64_MAX.
Proof.
  revert number total. induction s as [|c s IH]; intros number total Hnum Htot.
  - cbn [duration_loop]. rewrite app_nil_r. split.
    + case_bool_decide as E; [|done]. intros [= <-]. exists []. split_and!; [done|done|cbn; lia|lia].
    + intros (items & E & Hok & -> & _). assert (Hnil : number = []).
      { destruct number as [|d number]; [done|]. destruct Hok as [|[ds u] its (Hn & Hd & Hu) _]; [done|].
        exfalso. assert (Hin : u ∈ d :: number).
        { rewrite E. cbn [flat_map]. apply elem_of_app. left. apply elem_of_app. right. by left. }
        cbn [snd] in Hu. apply unit_not_digit in Hu. rewrite list.Forall_forall in Hnum. rewrite (Hnum u Hin) in Hu. done. }
      rewrite Hnil in E |- *. rewrite bool_decide_eq_true_2 by done. symmetry in E.
      apply flat_items_nil in E; [|done]. rewrite E. cbn. f_equal. lia.
  - destruct (is_ascii_digit c) eqn:Hc.
    + cbn [duration_loop]. rewrite Hc, IH; [|apply Forall_app; split; [done|by repeat constructor]|done].
      by rewrite <- app_assoc.
    + rewrite duration_item by (done || lia).
      assert (Hsec : item_ok (number, c) → 0 ≤ item_seconds (number, c)).
      { intros Hok. pose proof (total_seconds_nonneg [(number, c)]) as H. cbn in H.
        specialize (H (list.Forall_cons_2 _ _ _ Hok (list.Forall_nil_2 _))). lia. }
      split.
      * intros (Hok & Hle & E). apply IH in E as (items & Es & Hits & -> & Hb); [|constructor|specialize (Hsec Hok); lia].
        exists ((number, c) :: items). split_and!; [|by constructor| |done].
        -- cbn [flat_map]. rewrite <- Es. unfold item_text. cbn [fst snd app]. by rewrite <- app_assoc.
        -- cbn [total_seconds fold_right]. fold (total_seconds items). lia.
      * intros (items & E & Hits & -> & Hb).
        destruct Hits as [|[ds u] its Hok Hits]; [by destruct number|].
        cbn [flat_map] in E. unfold item_text at 1 in E. cbn [fst snd] in E. rewrite <- app_assoc in E.
        pose proof Hok as (_ & Hds & Hu). cbn [fst snd] in Hds, Hu.
        apply digits_split in E as (<- & <- & ->); [|done|done|done|by apply unit_not_digit].
        pose proof (total_seconds_nonneg its Hits). specialize (Hsec Hok).
        assert (Ht : total_seconds ((number, c) :: its) = item_seconds (number, c) + total_seconds its) by done.
        rewrite Ht in Hb |- *.
        split_and!; [done|lia|]. apply IH; [constructor|lia|]. exists its. split_and!; [done|done|lia|lia].
Qed.

(** A period string parses to [t] exactly when it is a non-empty
    sequence of amounts with the units s, m, h and d, in either case, whose
    seconds add up to [t] and fit 64 bits; anything else, an overflow
    included, is refused. *)
Theorem parse_ssh_duration_exact s t :
  parse_ssh_duration s = Some t ↔
  ∃ items, items ≠ [] ∧ s = flat_map item_text items ∧ Forall item_ok items
    ∧ t = total_seconds items ∧ t < 2 ^ 64.
Proof.
  unfold parse_ssh_duration. destruct (decide (s = [])) as [->|Hne].
  { rewrite bool_decide_eq_true_2 by done. split; [done|]. intros (items & Hn & E & Hok & _).
    symmetry in E. by apply flat_items_nil in E. }
  rewrite bool_decide_eq_false_2 by done. rewrite duration_loop_spec; [|constructor|done].
  change U64_MAX with (2 ^ 64 - 1). setoid_rewrite Z.add_0_l. cbn [app]. split.
  - intros (items & -> & Hok & -> & Hb). exists items. split_and!; [by intros ->|done|done|done|lia].
  - intros (items & _ & -> & Hok & -> & Hb). exists items. split_and!; [done|done|done|lia].
Qed.
