(* ===== verification/Delta.v ===== *)
(** * Incremental network maps

    [crabscale-control/src/delta.rs]: the peers a session should see now are
    compared with the ones it was last sent, and only the difference goes out:
    removed ids, whole nodes, or patches.  [Plane] is what the comparison
    reads of the control plane: the stored nodes and users, the live sessions
    and the policy, whose compiler gives the visible peers and the approved
    routes.  [None] stands for the group recursion of [PolicyTags] not
    returning, with [pl_stack] its depth. *)

From S2P Require Import Prelude ProtoFrame Text Net IpText PolicyModel PolicyTags PolicyRoutes PolicyCompile Sessions NetMap.

Record Plane : Type := {
  pl_policy : Policy; pl_nodes : list DomainNode; pl_users : gmap Z User;
  pl_sessions : SessionRegistry; pl_stack : nat }.

(** ** Routes and addresses of a node *)

Definition compile_node (pl : Plane) (n : DomainNode) : CompileNode :=
  {| cn_id := as_u64 n.(dn_id); cn_stable_id := n.(dn_stable_id);
     cn_user_login := u ← n.(dn_user_id); user_login_name <$> (pl.(pl_users) !! u);
     cn_addresses := n.(dn_addresses); cn_tags := default [] n.(dn_tags) |}.

Definition compile_nodes (pl : Plane) : list CompileNode := compile_node pl <$> pl.(pl_nodes).

Definition effective_approved_routes (pl : Plane) (n : DomainNode) : option (list text) :=
  auto ← auto_approved_routes pl.(pl_stack) pl.(pl_policy) (compile_node pl n) n.(dn_advertised_routes);
  let approved := filter (λ r, r ∈ n.(dn_advertised_routes)) n.(dn_approved_routes) in
  Some (sort_dedup (sort_dedup approved ++ auto)).

Definition non_address_routes (routes addresses : list text) : list text :=
  filter (λ r, r ∉ addresses) routes.

Definition allowed_ips_for (version : Z) (addresses : list text) (allowed : option (list text))
    : option (list text) :=
  let effective := match allowed with Some a => a | None => addresses end in
  if CapVer.allowed_ips_null_means_addresses version && bool_decide (effective = addresses)
  then None else Some effective.

Definition peer_node (pl : Plane) (stored : DomainNode) (version : Z) : option WireNode :=
  let node := set_online (Some (session_is_online pl.(pl_sessions) stored.(dn_id))) (to_proto stored) in
  routes ← effective_approved_routes pl stored;
  let node :=
    if bool_decide (routes = []) then node
    else set_routes (Some (sort_dedup (stored.(dn_addresses) ++ routes)))
           (non_address_routes routes stored.(dn_addresses)) node in
  Some (set_routes (allowed_ips_for version stored.(dn_addresses) node.(wn_allowed_ips))
          node.(wn_primary_routes) node).

(** ** What a session was sent *)

Record SessionPeers : Type := {
  sent_peers : gmap Z WireNode; sent_expiry : gmap Z (option text) }.

Definition SessionPeers_new : SessionPeers := {| sent_peers := ∅; sent_expiry := ∅ |}.

Definition from_peers (nodes : list WireNode) : SessionPeers :=
  {| sent_peers := fold_left (λ m n, <[n.(wn_id) := n]> m) nodes ∅; sent_expiry := ∅ |}.

Record PeerDeltas : Type := {
  d_removed : list Z; d_changed : list WireNode; d_patches : list PeerChange;
  d_current : list WireNode; d_visible : gset Z }.

Inductive PeerDiff : Type :=
| Unchanged
| Patch (c : PeerChange)
| Full.

Definition structural_equal (prev next : WireNode) : bool :=
  bool_decide (prev.(wn_stable_id) = next.(wn_stable_id))
  && bool_decide (prev.(wn_name) = next.(wn_name))
  && bool_decide (prev.(wn_user) = next.(wn_user))
  && bool_decide (prev.(wn_machine) = next.(wn_machine))
  && bool_decide (prev.(wn_addresses) = next.(wn_addresses))
  && bool_decide (prev.(wn_allowed_ips) = next.(wn_allowed_ips))
  && bool_decide (prev.(wn_hostinfo) = next.(wn_hostinfo))
  && bool_decide (prev.(wn_created) = next.(wn_created))
  && bool_decide (prev.(wn_tags) = next.(wn_tags))
  && bool_decide (prev.(wn_cap_map) = next.(wn_cap_map))
  && bool_decide (prev.(wn_primary_routes) = next.(wn_primary_routes))
  && bool_decide (prev.(wn_machine_authorized) = next.(wn_machine_authorized))
  && bool_decide (prev.(wn_capabilities) = next.(wn_capabilities)).

Definition diff_peers (prev next : WireNode) (prev_expiry next_expiry : option text) : PeerDiff :=
  if negb (structural_equal prev next) then Full
  else
    let same {A} `{EqDecision A} (a b : A) := bool_decide (a = b) in
    let patch :=
      {| ch_node_id := next.(wn_id);
         ch_derp_region := if same prev.(wn_home_derp) next.(wn_home_derp) then None
                           else Some next.(wn_home_derp);
         ch_endpoints := if same prev.(wn_endpoints) next.(wn_endpoints) then None
                         else Some next.(wn_endpoints);
         ch_key := if same prev.(wn_key) next.(wn_key) then None else Some next.(wn_key);
         ch_disco_key := if same prev.(wn_disco_key) next.(wn_disco_key) then None
                         else Some next.(wn_disco_key);
         ch_online := if same prev.(wn_online) next.(wn_online) then None else next.(wn_online);
         ch_last_seen := if same prev.(wn_last_seen) next.(wn_last_seen) then None
                         else next.(wn_last_seen);
         ch_key_expiry := if same prev_expiry next_expiry then None else next_expiry;
         ch_cap := if same prev.(wn_cap) next.(wn_cap) then None else Some next.(wn_cap) |} in
    let has_patch :=
      negb (same prev.(wn_endpoints) next.(wn_endpoints))
      || negb (same prev.(wn_home_derp) next.(wn_home_derp))
      || negb (same prev.(wn_key) next.(wn_key))
      || negb (same prev.(wn_disco_key) next.(wn_disco_key))
      || negb (same prev.(wn_online) next.(wn_online))
      || negb (same prev.(wn_last_seen) next.(wn_last_seen))
      || negb (same prev.(wn_cap) next.(wn_cap))
      || negb (same prev_expiry next_expiry) in
    if has_patch then Patch patch else Unchanged.

(** ** The difference *)

Abbreviation next_map := (gmap Z (WireNode * option text)).

(** The loop that collects the current peers. *)
Fixpoint collect_next (pl : Plane) (self_key : bytes) (visible : gset Z) (version : Z)
    (stored : list DomainNode) (next : next_map) : option next_map :=
  match stored with
  | [] => Some next
  | n :: rest =>
      if bool_decide (n.(dn_node_key) = self_key) || negb n.(dn_machine_authorized)
         || negb (bool_decide (as_u64 n.(dn_id) ∈ visible))
      then collect_next pl self_key visible version rest next
      else
        w ← peer_node pl n version;
        collect_next pl self_key visible version rest
          (<[as_u64 n.(dn_id) := (w, n.(dn_key_expiry))]> next)
  end.

Record delta_acc : Type := {
  acc_sent : SessionPeers; acc_changed_peers : list WireNode; acc_patches : list PeerChange }.

(** What one current peer adds to [changed] and to [patches]. *)
Definition peer_entry (sent : SessionPeers) (id : Z) (current : WireNode) (next_expiry : option text)
    : list WireNode * list PeerChange :=
  match sent.(sent_peers) !! id with
  | None => ([current], [])
  | Some prev =>
      match diff_peers prev current (mjoin (sent.(sent_expiry) !! id)) next_expiry with
      | Unchanged => ([], [])
      | Patch c => ([], [c])
      | Full => ([current], [])
      end
  end.

(** One round of the loop over the current peers. *)
Definition delta_step (next : next_map) (a : delta_acc) (id : Z) : delta_acc :=
  match next !! id with
  | None => a
  | Some (current, next_expiry) =>
      let out := peer_entry a.(acc_sent) id current next_expiry in
      {| acc_sent := {| sent_peers := <[id := current]> a.(acc_sent).(sent_peers);
                        sent_expiry := <[id := next_expiry]> a.(acc_sent).(sent_expiry) |};
         acc_changed_peers := a.(acc_changed_peers) ++ out.1;
         acc_patches := a.(acc_patches) ++ out.2 |}
  end.

Definition remove_sent (s : SessionPeers) (id : Z) : SessionPeers :=
  {| sent_peers := delete id s.(sent_peers); sent_expiry := delete id s.(sent_expiry) |}.

(** From the current peers on. *)
Definition peer_delta (next : next_map) (visible : gset Z) (last_sent : SessionPeers)
    : SessionPeers * PeerDeltas :=
  let removed := filter (λ id, next !! id = None) (sorted_keys last_sent.(sent_peers)) in
  let last_sent := fold_left remove_sent removed last_sent in
  let a := fold_left (delta_step next) (sorted_keys next)
             {| acc_sent := last_sent; acc_changed_peers := []; acc_patches := [] |} in
  (a.(acc_sent),
   {| d_removed := removed; d_changed := a.(acc_changed_peers); d_patches := a.(acc_patches);
      d_current := omap (λ id, fst <$> next !! id) (sorted_keys next); d_visible := visible |}).

Definition visible_peers (pl : Plane) (self_node : DomainNode) : gset Z :=
  default ∅ ((compile_policy pl.(pl_policy) (compile_nodes pl)).(peer_visibility)
               !! as_u64 self_node.(dn_id)).

Definition current_peers (pl : Plane) (self_node : DomainNode) (version : Z) : option next_map :=
  collect_next pl self_node.(dn_node_key) (visible_peers pl self_node) version pl.(pl_nodes) ∅.

Definition compute_peer_delta (pl : Plane) (self_node : DomainNode) (last_sent : SessionPeers)
    (version : Z) : option (SessionPeers * PeerDeltas) :=
  next ← current_peers pl self_node version;
  Some (peer_delta next (visible_peers pl self_node) last_sent).

(** ** The client *)

(** What a client does with a delta, in the order of the fields. *)
Definition apply_delta (d : PeerDeltas) (view : gmap Z WireNode) : gmap Z WireNode :=
  let view := fold_left (λ m id, delete id m) d.(d_removed) view in
  let view := fold_left (λ m n, <[n.(wn_id) := n]> m) d.(d_changed) view in
  fold_left (λ m c, alter (apply_patch c) c.(ch_node_id) m) d.(d_patches) view.

(** ** Comparing two snapshots *)

Lemma structural_equal_spec prev next :
  structural_equal prev next = true →
  prev.(wn_stable_id) = next.(wn_stable_id) ∧ prev.(wn_name) = next.(wn_name)
  ∧ prev.(wn_user) = next.(wn_user) ∧ prev.(wn_machine) = next.(wn_machine)
  ∧ prev.(wn_addresses) = next.(wn_addresses) ∧ prev.(wn_allowed_ips) = next.(wn_allowed_ips)
  ∧ prev.(wn_hostinfo) = next.(wn_hostinfo) ∧ prev.(wn_created) = next.(wn_created)
  ∧ prev.(wn_tags) = next.(wn_tags) ∧ prev.(wn_cap_map) = next.(wn_cap_map)
  ∧ prev.(wn_primary_routes) = next.(wn_primary_routes)
  ∧ prev.(wn_machine_authorized) = next.(wn_machine_authorized)
  ∧ prev.(wn_capabilities) = next.(wn_capabilities).
Proof. unfold structural_equal. rewrite !andb_true_iff, !bool_decide_eq_true. tauto. Qed.

Lemma default_diff {A} `{EqDecision A} (a b : A) :
  default a (if bool_decide (a = b) then None else Some b) = b.
Proof. by case_bool_decide. Qed.

Lemma option_diff {A} `{EqDecision A} (a b : option A) :
  (b = None → a = None) →
  match (if bool_decide (a = b) then None else b) with Some x => Some x | None => a end = b.
Proof. case_bool_decide; [done|]. destruct b; [done|]. intros H'. by rewrite H'. Qed.

(** A patch turns the old snapshot into the new one, and when nothing is sent
    they are equal. *)
Lemma diff_peers_sound prev next pe ne :
  prev.(wn_id) = next.(wn_id) →
  (next.(wn_last_seen) = None → prev.(wn_last_seen) = None) →
  (next.(wn_online) = None → prev.(wn_online) = None) →
  match diff_peers prev next pe ne with
  | Unchanged => prev = next ∧ pe = ne
  | Patch c => apply_patch c prev = next ∧ c.(ch_node_id) = next.(wn_id)
  | Full => True
  end.
Proof.
  intros Hid Hls Hon. unfold diff_peers. destruct (structural_equal prev next) eqn:Es; [|done].
  apply structural_equal_spec in Es as (E1 & E2 & E3 & E4 & E5 & E6 & E7 & E8 & E9 & E10 & E11 & E12 & E13).
  cbn [negb]. destruct (_ || _) eqn:Ep.
  - split; [|done]. unfold apply_patch.
    cbn [ch_node_id ch_derp_region ch_endpoints ch_key ch_disco_key ch_online ch_last_seen ch_cap].
    rewrite !default_diff, !option_diff by done. destruct next; cbn in *. by subst.
  - rewrite !orb_false_iff, !negb_false_iff, !bool_decide_eq_true in Ep.
    destruct Ep as (((((((F1 & F2) & F3) & F4) & F5) & F6) & F7) & F8). split; [|done].
    destruct prev, next; cbn in *. by subst.
Qed.

Lemma diff_peers_same w e : diff_peers w w e e = Unchanged.
Proof.
  unfold diff_peers, structural_equal. by rewrite !bool_decide_eq_true_2 by done.
Qed.

(** ** The loop *)

Section loop.
Context (next : next_map).

Definition changed_of (sent : SessionPeers) (id : Z) : list WireNode :=
  match next !! id with None => [] | Some (cur, e) => (peer_entry sent id cur e).1 end.

Definition patches_of (sent : SessionPeers) (id : Z) : list PeerChange :=
  match next !! id with None => [] | Some (cur, e) => (peer_entry sent id cur e).2 end.

Definition sent_agree (keys : list Z) (s t : SessionPeers) : Prop :=
  ∀ k, k ∈ keys → s.(sent_peers) !! k = t.(sent_peers) !! k ∧ s.(sent_expiry) !! k = t.(sent_expiry) !! k.

Lemma delta_fold keys a sent :
  NoDup keys → sent_agree keys a.(acc_sent) sent →
  let r := fold_left (delta_step next) keys a in
  r.(acc_changed_peers) = a.(acc_changed_peers) ++ flat_map (changed_of sent) keys
  ∧ r.(acc_patches) = a.(acc_patches) ++ flat_map (patches_of sent) keys
  ∧ ∀ id,
      r.(acc_sent).(sent_peers) !! id
        = (if decide (id ∈ keys ∧ is_Some (next !! id)) then fst <$> next !! id
           else a.(acc_sent).(sent_peers) !! id)
      ∧ r.(acc_sent).(sent_expiry) !! id
        = (if decide (id ∈ keys ∧ is_Some (next !! id)) then snd <$> next !! id
           else a.(acc_sent).(sent_expiry) !! id).
Proof.
  intros Hnd. revert a. induction Hnd as [|k keys Hk Hnd IH]; intros a Hag; cbn [fold_left flat_map].
  { rewrite !app_nil_r. split_and!; [done..|]. intros id.
    rewrite !decide_False by (intros [Hn _]; by apply elem_of_nil in Hn). done. }
  assert (Hl : ∀ id, id ≠ k →
    (delta_step next a k).(acc_sent).(sent_peers) !! id = a.(acc_sent).(sent_peers) !! id
    ∧ (delta_step next a k).(acc_sent).(sent_expiry) !! id = a.(acc_sent).(sent_expiry) !! id).
  { intros id Hne. unfold delta_step. destruct (next !! k) as [[cur e]|]; [|done].
    cbn [acc_sent sent_peers sent_expiry]. by rewrite !lookup_insert_ne. }
  destruct (IH (delta_step next a k)) as (Hc & Hp & Hs).
  { intros k' Hk'. destruct (Hl k') as [-> ->]; [by intros ->|]. apply Hag. by right. }
  destruct (Hag k ltac:(by left)) as [Hsp Hse].
  assert (Hck : (delta_step next a k).(acc_changed_peers) = a.(acc_changed_peers) ++ changed_of sent k
    ∧ (delta_step next a k).(acc_patches) = a.(acc_patches) ++ patches_of sent k).
  { unfold delta_step, changed_of, patches_of, peer_entry.
    destruct (next !! k) as [[cur e]|]; [|by rewrite !app_nil_r]. by rewrite Hsp, Hse. }
  destruct Hck as [Hck Hpk]. split_and!.
  - by rewrite Hc, Hck, <- app_assoc.
  - by rewrite Hp, Hpk, <- app_assoc.
  - intros id. destruct (Hs id) as [Hs1 Hs2]. rewrite Hs1, Hs2. clear Hs Hs1 Hs2 Hc Hp Hck Hpk IH.
    destruct (decide (id = k)) as [->|Hne].
    + rewrite !(decide_False (P := k ∈ keys ∧ _)) by tauto.
      unfold delta_step. destruct (next !! k) as [[cur e]|] eqn:E.
      * cbn [acc_sent sent_peers sent_expiry]. rewrite !lookup_insert_eq.
        rewrite !decide_True; [done|split; [by left|done]..].
      * rewrite !decide_False; [done|..]; by intros [_ [? ?]].
    + destruct (Hl id Hne) as [-> ->].
      destruct (decide (id ∈ keys ∧ _)) as [[Hi Hi']|Hi].
      * rewrite !decide_True; [done|split; [by right|done]..].
      * rewrite !decide_False; [done|..]; intros [[?|?]%elem_of_cons ?]; tauto.
Qed.
End loop.

Lemma remove_sent_lookup removed s id :
  (fold_left remove_sent removed s).(sent_peers) !! id
    = (if decide (id ∈ removed) then None else s.(sent_peers) !! id)
  ∧ (fold_left remove_sent removed s).(sent_expiry) !! id
    = (if decide (id ∈ removed) then None else s.(sent_expiry) !! id).
Proof.
  revert s. induction removed as [|k ks IH]; intros s; cbn [fold_left].
  { by rewrite !decide_False by apply not_elem_of_nil. }
  destruct (IH (remove_sent s k)) as [-> ->]. unfold remove_sent. cbn [sent_peers sent_expiry].
  destruct (decide (id = k)) as [->|Hne].
  - rewrite !lookup_delete_eq. rewrite !(decide_True (P := k ∈ k :: ks)) by by left. by case_decide.
  - rewrite !lookup_delete_ne by done.
    destruct (decide (id ∈ ks)); [rewrite !decide_True by by right|
      rewrite !decide_False by (intros [|]%elem_of_cons; done)]; done.
Qed.

(** Keyed updates of a finite map, one batch per key. *)
Lemma updates_lookup {A W} (key : A → Z) (act : A → option W → option W) (f : Z → list A)
    keys (m : gmap Z W) id :
  NoDup keys → (∀ k a, k ∈ keys → a ∈ f k → key a = k) →
  fold_left (λ m a, partial_alter (act a) (key a) m) (flat_map f keys) m !! id
  = if decide (id ∈ keys) then fold_left (λ o a, act a o) (f id) (m !! id) else m !! id.
Proof.
  assert (Hone : ∀ l (m : gmap Z W) k, (∀ a, a ∈ l → key a = k) →
    ∀ j, fold_left (λ m a, partial_alter (act a) (key a) m) l m !! j
         = if decide (j = k) then fold_left (λ o a, act a o) l (m !! j) else m !! j).
  { intros l. induction l as [|a l IH]; intros m' k Hk j; cbn [fold_left]; [by case_decide|].
    rewrite (IH _ k) by (intros ? ?; apply Hk; by right). rewrite (Hk a) by by left.
    case_decide as E; [subst; by rewrite lookup_partial_alter_eq|].
    by rewrite lookup_partial_alter_ne by congruence. }
  intros Hnd. revert m. induction Hnd as [|k keys Hk Hnd IH]; intros m Hf; cbn [flat_map].
  { cbn. by rewrite decide_False by apply not_elem_of_nil. }
  rewrite fold_left_app, IH by (intros ? ? ? ?; apply Hf; [by right|done]).
  rewrite !(Hone _ _ k) by (intros ? ?; apply Hf; [by left|done]).
  destruct (decide (id = k)) as [->|Hne].
  - by rewrite (decide_False (P := k ∈ keys)), (decide_True (P := k ∈ k :: keys)) by (done || by left).
  - destruct (decide (id ∈ keys)); [by rewrite decide_True by by right|].
    by rewrite decide_False by (intros [|]%elem_of_cons; done).
Qed.

Lemma inserts_lookup (f : Z → list WireNode) keys (m : gmap Z WireNode) id :
  NoDup keys → (∀ k n, n ∈ f k → n.(wn_id) = k) →
  fold_left (λ m n, <[n.(wn_id) := n]> m) (flat_map f keys) m !! id
  = if decide (id ∈ keys) then fold_left (λ _ n, Some n) (f id) (m !! id) else m !! id.
Proof. intros. apply (updates_lookup wn_id (λ n _, Some n)); auto. Qed.

Lemma patches_lookup (f : Z → list PeerChange) keys (m : gmap Z WireNode) id :
  NoDup keys → (∀ k c, c ∈ f k → c.(ch_node_id) = k) →
  fold_left (λ m c, alter (apply_patch c) c.(ch_node_id) m) (flat_map f keys) m !! id
  = if decide (id ∈ keys) then fold_left (λ o c, apply_patch c <$> o) (f id) (m !! id) else m !! id.
Proof. intros. apply (updates_lookup ch_node_id (λ c, fmap (apply_patch c))); auto. Qed.

Lemma deletes_lookup l (m : gmap Z WireNode) id :
  fold_left (λ m id, delete id m) l m !! id = if decide (id ∈ l) then None else m !! id.
Proof.
  revert m. induction l as [|k l IH]; intros m; cbn [fold_left].
  - by rewrite decide_False by apply not_elem_of_nil.
  - rewrite IH. destruct (decide (id = k)) as [->|Hne].
    + rewrite lookup_delete_eq, (decide_True (P := k ∈ k :: l)) by by left. by case_decide.
    + rewrite lookup_delete_ne by done. destruct (decide (id ∈ l));
        [by rewrite decide_True by by right|by rewrite decide_False by (intros [|]%elem_of_cons; done)].
Qed.

(** ** The delta and the client agree *)

(** Tracked nodes are filed under their own id. *)
Definition keyed (m : gmap Z WireNode) : Prop := ∀ id w, m !! id = Some w → w.(wn_id) = id.

(** The current peers are filed under their own id and have an online state;
    a last-seen time, once sent, is not withdrawn. *)
Record delta_ok (next : next_map) (sent : gmap Z WireNode) : Prop := {
  ok_keyed : ∀ id w e, next !! id = Some (w, e) → w.(wn_id) = id;
  ok_online : ∀ id w e, next !! id = Some (w, e) → w.(wn_online) ≠ None;
  ok_seen : ∀ id w e prev, next !! id = Some (w, e) → sent !! id = Some prev →
      w.(wn_last_seen) = None → prev.(wn_last_seen) = None }.

Lemma removed_spec (next : next_map) (sent : gmap Z WireNode) id :
  id ∈ filter (λ id, next !! id = None) (sorted_keys sent)
  ↔ next !! id = None ∧ is_Some (sent !! id).
Proof. by rewrite list_elem_of_filter, elem_of_sorted_keys. Qed.

Lemma peer_delta_parts next vis last :
  let sent := fold_left remove_sent
    (filter (λ id, next !! id = None) (sorted_keys last.(sent_peers))) last in
  let r := peer_delta next vis last in
  r.2.(d_changed) = flat_map (changed_of next sent) (sorted_keys next)
  ∧ r.2.(d_patches) = flat_map (patches_of next sent) (sorted_keys next)
  ∧ (∀ id, sent.(sent_peers) !! id = if decide (is_Some (next !! id)) then last.(sent_peers) !! id else None)
  ∧ (∀ id, is_Some (next !! id) → sent.(sent_expiry) !! id = last.(sent_expiry) !! id)
  ∧ r.1.(sent_peers) = fst <$> next
  ∧ ∀ id, is_Some (next !! id) → r.1.(sent_expiry) !! id = snd <$> next !! id.
Proof.
  intros sent r. unfold r, peer_delta. cbn [fst snd d_changed d_patches].
  destruct (delta_fold next (sorted_keys next)
    {| acc_sent := sent; acc_changed_peers := []; acc_patches := [] |} sent) as (Hc & Hp & Hs).
  { apply NoDup_sorted_keys. }
  { by intros k _. }
  cbn [acc_sent acc_changed_peers acc_patches app] in Hc, Hp, Hs.
  assert (Hsent : ∀ id, sent.(sent_peers) !! id
    = if decide (is_Some (next !! id)) then last.(sent_peers) !! id else None).
  { intros id. unfold sent. destruct (remove_sent_lookup
      (filter (λ id, next !! id = None) (sorted_keys last.(sent_peers))) last id) as [-> _].
    case_decide as E; rewrite removed_spec in E.
    - destruct E as [-> _]. by rewrite decide_False by apply is_Some_None.
    - destruct (next !! id) eqn:En; [by rewrite decide_True|].
      rewrite decide_False by apply is_Some_None.
      destruct (last.(sent_peers) !! id) eqn:El; [|done]. destruct E. by split. }
  split_and!; [done..| | |].
  - intros id Hid. unfold sent. destruct (remove_sent_lookup
      (filter (λ id, next !! id = None) (sorted_keys last.(sent_peers))) last id) as [_ ->].
    rewrite decide_False; [done|]. rewrite removed_spec. intros [E _]. rewrite E in Hid. by destruct Hid.
  - apply map_eq. intros id. etrans; [apply (proj1 (Hs id))|]. rewrite lookup_fmap, Hsent.
    destruct (next !! id) as [x|] eqn:En.
    + rewrite decide_True; [done|]. split; [by apply elem_of_sorted_keys; rewrite En|done].
    + by rewrite !decide_False by (apply is_Some_None || by intros [? ?%is_Some_None]).
  - intros id Hid. etrans; [apply (proj2 (Hs id))|].
    by rewrite decide_True by by split; [apply elem_of_sorted_keys|].
Qed.

Lemma entry_keys next sent :
  (∀ id w e, next !! id = Some (w, e) → w.(wn_id) = id) →
  (∀ k n, n ∈ changed_of next sent k → n.(wn_id) = k)
  ∧ (∀ k c, c ∈ patches_of next sent k → c.(ch_node_id) = k).
Proof.
  intros Hk. unfold changed_of, patches_of, peer_entry. split; intros k x Hx;
    (destruct (next !! k) as [[cur e]|] eqn:En; [|by apply elem_of_nil in Hx]);
    (destruct (sent_peers sent !! k) as [prev|]; cbn [fst snd] in Hx).
  - destruct (diff_peers _ _ _ _); cbn [fst] in Hx; try (by apply elem_of_nil in Hx).
    apply list_elem_of_singleton in Hx as ->. by eapply Hk.
  - apply list_elem_of_singleton in Hx as ->. by eapply Hk.
  - destruct (diff_peers _ _ _ _) as [|c|] eqn:Ed; cbn [snd] in Hx; try (by apply elem_of_nil in Hx).
    apply list_elem_of_singleton in Hx as ->. unfold diff_peers in Ed.
    destruct (negb _); [done|]. destruct (_ || _); [|done]. injection Ed as <-.
    cbn [ch_node_id]. by eapply Hk.
  - by apply elem_of_nil in Hx.
Qed.

(** The client that held what was sent and applies the delta holds exactly
    the current peers, which is what the session now records as sent. *)
Lemma peer_delta_converges next vis last :
  keyed last.(sent_peers) → delta_ok next last.(sent_peers) →
  let r := peer_delta next vis last in
  apply_delta r.2 last.(sent_peers) = r.1.(sent_peers) ∧ r.1.(sent_peers) = fst <$> next
  ∧ keyed r.1.(sent_peers).
Proof.
  intros Hlast [Hk Ho Hls] r. destruct (peer_delta_parts next vis last) as (Hc & Hp & Hs & He & Hr & _).
  set (sent := fold_left remove_sent _ last) in *. fold r in Hc, Hp, Hr.
  assert (Hkeyed : keyed r.1.(sent_peers)).
  { rewrite Hr. intros id w. rewrite lookup_fmap. intros ([w' e] & Hn & ->)%fmap_Some. by eapply Hk. }
  split_and!; [|done..]. rewrite Hr. destruct (entry_keys next sent Hk) as [Hkc Hkp].
  apply map_eq. intros id. unfold apply_delta. rewrite Hc, Hp.
  rewrite patches_lookup by (apply NoDup_sorted_keys || auto).
  rewrite inserts_lookup by (apply NoDup_sorted_keys || auto).
  rewrite deletes_lookup. replace (if decide (id ∈ _) then None else _) with (sent.(sent_peers) !! id).
  2: { rewrite Hs. unfold r, peer_delta. cbn [snd d_removed]. destruct (decide (id ∈ _)) as [E|E];
       rewrite removed_spec in E.
       - destruct E as [-> _]. by rewrite decide_False by apply is_Some_None.
       - destruct (next !! id) eqn:En; [by rewrite decide_True|].
         rewrite decide_False by apply is_Some_None.
         destruct (last.(sent_peers) !! id) eqn:El; [|done]. destruct E. by split. }
  rewrite lookup_fmap. unfold changed_of, patches_of, peer_entry. specialize (Hs id).
  pose proof (elem_of_sorted_keys next id) as Hin. destruct (next !! id) as [[cur e]|] eqn:En.
  2: { rewrite decide_False in Hs by apply is_Some_None.
       rewrite !decide_False by (intros [? ?]%Hin; done). by rewrite Hs. }
  rewrite decide_True in Hs by done. rewrite !(decide_True (P := id ∈ _)) by by apply Hin. rewrite Hs.
  destruct (last.(sent_peers) !! id) as [prev|] eqn:El; [|done].
  pose proof (diff_peers_sound prev cur (mjoin (sent.(sent_expiry) !! id)) e) as Hd.
  specialize (Hd ltac:(rewrite (Hlast _ _ El); symmetry; by eapply Hk) ltac:(by eapply Hls)
    ltac:(intros E; by destruct (Ho _ _ _ En))).
  destruct (diff_peers prev cur _ e) as [|c|]; cbn [fst snd fold_left fmap option_fmap option_map].
  - destruct Hd as [-> _]. done.
  - destruct Hd as [-> _]. done.
  - done.
Qed.

(** ** The current peers *)

(** A stored node that a session of [self_node] should see: another node,
    authorized, and visible under the compiled policy. *)
Definition eligible (pl : Plane) (self_node n : DomainNode) : Prop :=
  n.(dn_node_key) ≠ self_node.(dn_node_key) ∧ n.(dn_machine_authorized) = true
  ∧ as_u64 n.(dn_id) ∈ visible_peers pl self_node.

#[global] Instance eligible_dec pl s n : Decision (eligible pl s n).
Proof. unfold eligible. apply _. Defined.

Lemma eligible_skip pl s n :
  (bool_decide (n.(dn_node_key) = s.(dn_node_key)) || negb n.(dn_machine_authorized)
   || negb (bool_decide (as_u64 n.(dn_id) ∈ visible_peers pl s))) = false ↔ eligible pl s n.
Proof.
  unfold eligible. rewrite !orb_false_iff, !negb_false_iff, bool_decide_eq_false, bool_decide_eq_true.
  tauto.
Qed.

Lemma peer_node_fields pl n version w :
  peer_node pl n version = Some w →
  w.(wn_id) = as_u64 n.(dn_id) ∧ w.(wn_last_seen) = n.(dn_last_seen)
  ∧ w.(wn_online) = Some (session_is_online pl.(pl_sessions) n.(dn_id)).
Proof.
  unfold peer_node. destruct (effective_approved_routes pl n) as [routes|]; [|done].
  cbn [mbind option_bind]. intros [= <-]. by case_bool_decide.
Qed.

Lemma collect_next_spec pl self version nodes next0 next :
  collect_next pl self.(dn_node_key) (visible_peers pl self) version nodes next0 = Some next →
  NoDup ((λ n, as_u64 n.(dn_id)) <$> nodes) →
  (∀ n, n ∈ nodes → next0 !! as_u64 n.(dn_id) = None) →
  ∀ id w e, next !! id = Some (w, e) ↔
    next0 !! id = Some (w, e)
    ∨ ∃ n, n ∈ nodes ∧ eligible pl self n ∧ as_u64 n.(dn_id) = id
        ∧ peer_node pl n version = Some w ∧ e = n.(dn_key_expiry).
Proof.
  revert next0. induction nodes as [|n nodes IH]; intros next0; cbn [collect_next fmap list_fmap].
  { intros [= <-] _ _ id w e. split; [by left|].
    intros [|(? & Hn & _)]; [done|]. by apply elem_of_nil in Hn. }
  intros Hc Hnd Hfresh. apply list.NoDup_cons in Hnd as [Hn Hnd].
  assert (Hother : ∀ n', n' ∈ nodes → as_u64 n'.(dn_id) ≠ as_u64 n.(dn_id)).
  { intros n' Hn' E. apply Hn. rewrite <- E. apply list_elem_of_fmap. by exists n'. }
  pose proof (eligible_skip pl self n) as Hel.
  destruct (_ || negb (bool_decide (as_u64 n.(dn_id) ∈ _))) eqn:Es.
  { assert (¬ eligible pl self n) by (intros ?%Hel; done).
    intros id w e. rewrite (IH _ Hc Hnd) by (intros; apply Hfresh; by right).
    setoid_rewrite elem_of_cons. naive_solver. }
  assert (He : eligible pl self n) by by apply Hel.
  destruct (peer_node pl n version) as [w'|] eqn:Ep; [|done]. cbn [mbind option_bind] in Hc.
  intros id w e. rewrite (IH _ Hc Hnd).
  2: { intros n' Hn'. rewrite lookup_insert_ne by (symmetry; by apply Hother).
       apply Hfresh. by right. }
  rewrite lookup_insert. setoid_rewrite elem_of_cons.
  destruct (decide (as_u64 n.(dn_id) = id)) as [<-|E].
  - split.
    + intros [[= <- <-]|(n' & Hn' & _ & E & _)]; [|by destruct (Hother n' Hn')].
      right. exists n. auto.
    + rewrite Hfresh by by left. intros [|(n' & [->|Hn'] & H')]; [done|left; naive_solver|].
      right. by exists n'.
  - split; intros [|(n' & Hn' & H')]; [by left|right; exists n'; auto|by left|].
    destruct Hn' as [->|Hn']; [by destruct H' as (_ & ? & _)|]. right. by exists n'.
Qed.

Lemma collect_next_total pl self version nodes next0 :
  (∀ n, is_Some (peer_node pl n version)) →
  is_Some (collect_next pl self.(dn_node_key) (visible_peers pl self) version nodes next0).
Proof.
  intros Hp. revert next0. induction nodes as [|n nodes IH]; intros next0; cbn [collect_next].
  { by eexists. }
  destruct (_ || _); [apply IH|]. destruct (Hp n) as [w ->]. apply IH.
Qed.

(** Distinct wire ids, and groups the recursion returns on. *)
Record plane_ok (pl : Plane) : Prop := {
  ok_ids : NoDup ((λ n, as_u64 n.(dn_id)) <$> pl.(pl_nodes));
  ok_stack : ∃ rank, ranked pl.(pl_policy) rank ∧ ∀ t, (rank t < pl.(pl_stack))%nat }.

Lemma peer_node_total pl n version : plane_ok pl → is_Some (peer_node pl n version).
Proof.
  intros [_ (rank & Hr & Hf)]. unfold peer_node, effective_approved_routes.
  destruct (auto_approved_routes_total pl.(pl_stack) pl.(pl_policy) rank (compile_node pl n)
    n.(dn_advertised_routes) Hr Hf) as [auto ->]. by eexists.
Qed.

Lemma current_peers_spec pl self version :
  plane_ok pl →
  ∃ next, current_peers pl self version = Some next
    ∧ ∀ id w e, next !! id = Some (w, e) ↔
        ∃ n, n ∈ pl.(pl_nodes) ∧ eligible pl self n ∧ as_u64 n.(dn_id) = id
          ∧ peer_node pl n version = Some w ∧ e = n.(dn_key_expiry).
Proof.
  intros Hok. unfold current_peers.
  destruct (collect_next_total pl self version pl.(pl_nodes) ∅) as [next Hn].
  { intros n. by apply peer_node_total. }
  exists next. split; [done|]. intros id w e.
  rewrite (collect_next_spec _ _ _ _ _ _ Hn (ok_ids _ Hok)) by (intros; apply lookup_empty).
  rewrite lookup_empty. naive_solver.
Qed.

(** The peers of a session's map are exactly the other stored nodes that are
    authorized and visible under the policy, each in its current wire form;
    building them returns. *)
Theorem current_peers_exact pl self version :
  plane_ok pl →
  ∃ next, current_peers pl self version = Some next
    ∧ ∀ id w e, next !! id = Some (w, e) ↔
        ∃ n, n ∈ pl.(pl_nodes) ∧ eligible pl self n ∧ as_u64 n.(dn_id) = id
          ∧ peer_node pl n version = Some w ∧ e = n.(dn_key_expiry).
Proof. apply current_peers_spec. Qed.

(** The list of the current peers is the map they are filed in. *)
Lemma current_list (next : next_map) :
  (∀ id w e, next !! id = Some (w, e) → w.(wn_id) = id) →
  let l := omap (λ id, fst <$> next !! id) (sorted_keys next) in
  NoDup (wn_id <$> l) ∧ ∀ w, w ∈ l ↔ ∃ id, (fst <$> next) !! id = Some w.
Proof.
  intros Hk l. split.
  - assert (Hids : wn_id <$> l = sorted_keys next); [|rewrite Hids; apply NoDup_sorted_keys].
    unfold l. assert (Hall : ∀ id, id ∈ sorted_keys next → is_Some (next !! id))
      by (intros id; apply elem_of_sorted_keys).
    clear l. induction (sorted_keys next) as [|id ids IH]; [done|]. cbn [omap list_omap].
    destruct (Hall id ltac:(by left)) as [[w e] Hw]. rewrite Hw. cbn [fmap option_fmap option_map fst list_fmap].
    f_equal; [by eapply Hk|]. apply IH. intros x Hx. apply Hall. by right.
  - intros w. unfold l. rewrite list_elem_of_omap. setoid_rewrite lookup_fmap. split.
    + intros (id & _ & Hw). by exists id.
    + intros [id Hw]. exists id. split; [|done]. apply elem_of_sorted_keys.
      destruct (next !! id); [by eexists|done].
Qed.

Lemma compute_converges pl self version last :
  plane_ok pl → keyed last.(sent_peers) →
  (∀ n prev, n ∈ pl.(pl_nodes) → last.(sent_peers) !! as_u64 n.(dn_id) = Some prev →
     n.(dn_last_seen) = None → prev.(wn_last_seen) = None) →
  ∃ last' d, compute_peer_delta pl self last version = Some (last', d)
    ∧ apply_delta d last.(sent_peers) = last'.(sent_peers)
    ∧ keyed last'.(sent_peers)
    ∧ (NoDup (wn_id <$> d.(d_current)) ∧ ∀ w, w ∈ d.(d_current) ↔ ∃ id, last'.(sent_peers) !! id = Some w)
    ∧ ∀ id w, last'.(sent_peers) !! id = Some w ↔
        ∃ n, n ∈ pl.(pl_nodes) ∧ eligible pl self n ∧ as_u64 n.(dn_id) = id
          ∧ peer_node pl n version = Some w.
Proof.
  intros Hok Hlast Hseen. destruct (current_peers_spec pl self version Hok) as (next & Hn & Hspec).
  unfold compute_peer_delta. rewrite Hn. cbn [mbind option_bind].
  assert (Hkey : ∀ id w e, next !! id = Some (w, e) → w.(wn_id) = id).
  { intros id w e (n & _ & _ & <- & Hp & _)%Hspec. by apply peer_node_fields in Hp as (? & _). }
  destruct (peer_delta_converges next (visible_peers pl self) last) as (Hc & Hr & Hk); [done| |].
  { split; [done| |]; intros id w e.
    - intros (n & _ & _ & <- & Hp & _)%Hspec. apply peer_node_fields in Hp as (_ & _ & ->). done.
    - intros prev (n & Hin & _ & <- & Hp & _)%Hspec Hprev Hw.
      apply peer_node_fields in Hp as (_ & Hls & _). eapply Hseen; [done..|]. by rewrite <- Hls. }
  pose proof (current_list next Hkey) as Hcur. cbv zeta in Hcur. rewrite <- Hr in Hcur.
  change (omap (λ id, fst <$> next !! id) (sorted_keys next))
    with (d_current (peer_delta next (visible_peers pl self) last).2) in Hcur.
  destruct (peer_delta _ _ _) as [last' d]. cbn [fst snd] in *. exists last', d.
  split; [done|]. split; [done|]. split; [done|]. split; [exact Hcur|].
  intros id w. rewrite Hr, lookup_fmap. split.
  - intros ([w' e] & (n & H1 & H2 & H3 & H4 & _)%Hspec & ->)%fmap_Some. by exists n.
  - intros (n & H1 & H2 & H3 & H4). apply fmap_Some. exists (w, n.(dn_key_expiry)).
    split; [|done]. apply Hspec. by exists n.
Qed.

(** A client that holds what the session was sent and applies the delta holds
    exactly the current peers, and that is what the session records. *)
Theorem delta_converges pl self version last :
  plane_ok pl → keyed last.(sent_peers) →
  (∀ n prev, n ∈ pl.(pl_nodes) → last.(sent_peers) !! as_u64 n.(dn_id) = Some prev →
     n.(dn_last_seen) = None → prev.(wn_last_seen) = None) →
  ∃ last' d, compute_peer_delta pl self last version = Some (last', d)
    ∧ apply_delta d last.(sent_peers) = last'.(sent_peers)
    ∧ keyed last'.(sent_peers)
    ∧ ∀ id w, last'.(sent_peers) !! id = Some w ↔
        ∃ n, n ∈ pl.(pl_nodes) ∧ eligible pl self n ∧ as_u64 n.(dn_id) = id
          ∧ peer_node pl n version = Some w.
Proof.
  intros Hok Hlast Hseen.
  destruct (compute_converges pl self version last Hok Hlast Hseen) as (last' & d & H1 & H2 & H3 & _ & H5).
  by exists last', d.
Qed.

(** ** A second look *)

Lemma flat_map_nil {A B} (f : A → list B) l : (∀ x, x ∈ l → f x = []) → flat_map f l = [].
Proof.
  induction l as [|x l IH]; intros H; [done|]. cbn. rewrite (H x) by by left. apply IH.
  intros y Hy. apply H. by right.
Qed.

Lemma peer_delta_again next vis last :
  let d := (peer_delta next vis (peer_delta next vis last).1).2 in
  d.(d_removed) = [] ∧ d.(d_changed) = [] ∧ d.(d_patches) = [].
Proof.
  set (last' := (peer_delta next vis last).1). intros d.
  destruct (peer_delta_parts next vis last) as (_ & _ & _ & _ & Hr & Hre).
  fold last' in Hr, Hre.
  destruct (peer_delta_parts next vis last') as (Hc & Hp & Hs & He & _ & _).
  set (sent := fold_left remove_sent _ last') in *.
  assert (Hsame : ∀ id, id ∈ sorted_keys next → changed_of next sent id = [] ∧ patches_of next sent id = []).
  { intros id Hid%elem_of_sorted_keys. unfold changed_of, patches_of, peer_entry.
    rewrite Hs, He, Hre, Hr, lookup_fmap by done. rewrite decide_True by done.
    destruct (next !! id) as [[cur e]|]; [|done]. cbn. by rewrite diff_peers_same. }
  split_and!.
  - unfold d, peer_delta. cbn [snd d_removed]. destruct (filter _ _) as [|id l] eqn:E; [done|].
    assert (Hid : id ∈ filter (λ id, next !! id = None) (sorted_keys last'.(sent_peers)))
      by (rewrite E; by left).
    apply removed_spec in Hid as [Hn Hp']. rewrite Hr, lookup_fmap, Hn in Hp'. by destruct Hp'.
  - unfold d. rewrite Hc. apply flat_map_nil. intros id Hid. by apply Hsame.
  - unfold d. rewrite Hp. apply flat_map_nil. intros id Hid. by apply Hsame.
Qed.

(** Without a change in the control plane the next delta is empty: nothing is
    sent twice. *)
Theorem delta_quiescent pl self version last last' d :
  compute_peer_delta pl self last version = Some (last', d) →
  ∃ d', snd <$> compute_peer_delta pl self last' version = Some d'
    ∧ d'.(d_removed) = [] ∧ d'.(d_changed) = [] ∧ d'.(d_patches) = [].
Proof.
  unfold compute_peer_delta. destruct (current_peers pl self version) as [next|]; [|done].
  cbn [mbind option_bind fmap option_fmap option_map]. intros H.
  assert (peer_delta next (visible_peers pl self) last = (last', d)) as Hr by congruence.
  pose proof (peer_delta_again next (visible_peers pl self) last) as Ha. cbv zeta in Ha.
  rewrite Hr in Ha. cbn [fst] in Ha. eexists. split; [done|exact Ha].
Qed.

(** The key expiry of a peer that is new to the session is recorded as sent
    but never is: no patch of its first delta is about it, the whole node that
    is sent has no field for it, and the following delta is empty. *)
Theorem new_peer_expiry_never_sent next vis last id w expiry :
  (∀ id w e, next !! id = Some (w, e) → w.(wn_id) = id) →
  next !! id = Some (w, Some expiry) → last.(sent_peers) !! id = None →
  let r := peer_delta next vis last in
  r.1.(sent_expiry) !! id = Some (Some expiry)
  ∧ (∀ c, c ∈ r.2.(d_patches) → c.(ch_node_id) ≠ id)
  ∧ (peer_delta next vis r.1).2.(d_patches) = [].
Proof.
  intros Hk Hn Hl r. destruct (peer_delta_parts next vis last) as (_ & Hp & Hs & _ & _ & Hre).
  fold r in Hp, Hre. split_and!.
  - rewrite Hre by by rewrite Hn. by rewrite Hn.
  - intros c Hc Hid. rewrite Hp in Hc. apply list_elem_of_In, in_flat_map in Hc as (k & _ & Hc).
    apply list_elem_of_In in Hc. set (sent := fold_left remove_sent _ last) in *.
    destruct (entry_keys next sent Hk) as [_ Hkp].
    assert (k = id) as -> by (rewrite <- Hid; symmetry; by apply Hkp).
    unfold patches_of, peer_entry in Hc. rewrite Hn, Hs, Hl in Hc.
    case_decide; by apply elem_of_nil in Hc.
  - by destruct (peer_delta_again next vis last) as (_ & _ & ?).
Qed.

(** ** Two nodes that see each other *)

Definition demo_node (id : Z) (key : bytes) (expiry : option text) : DomainNode :=
  {| dn_id := id; dn_stable_id := str "n"; dn_name := str "host"; dn_user_id := None;
     dn_node_key := key; dn_machine_key := []; dn_disco_key := [];
     dn_addresses := [str "100.64.0.1/32"]; dn_allowed_ips := None; dn_endpoints := [];
     dn_endpoint_types := []; dn_home_derp := 0; dn_hostinfo := None; dn_created := [];
     dn_cap := 130; dn_tags := None; dn_advertised_routes := [str "10.0.0.0/8"];
     dn_approved_routes := [str "10.0.0.0/8"]; dn_machine_authorized := true;
     dn_ephemeral := false; dn_last_seen := None; dn_key_expiry := expiry |}.

Definition demo_plane : Plane :=
  {| pl_policy := {| groups := ∅; hosts := ∅;
                     acls := [{| acl_action := str "accept"; acl_src := [str "*"];
                                 acl_dst := [str "*:*"]; acl_proto := None |}];
                     grants := []; tag_owners := ∅;
                     auto_approvers := {| approver_routes := []; approver_exit_node := [] |};
                     policy_ssh := []; node_attrs := []; policy_tests := []; ssh_tests := [] |};
     pl_nodes := [demo_node 1 [1] None; demo_node 2 [2] None]; pl_users := ∅;
     pl_sessions := SessionRegistry_new 10; pl_stack := 1 |}.

Lemma demo_plane_ok : plane_ok demo_plane.
Proof.
  split.
  - by apply (bool_decide_unpack _); vm_compute.
  - exists (λ _, 0%nat). split; [|intros; cbn; lia].
    intros principal m (g & ms & _ & Hl & _). cbn in Hl. by rewrite lookup_empty in Hl.
Qed.

Example demo_peer :
  (λ r, map wn_allowed_ips r.2.(d_changed))
    <$> compute_peer_delta demo_plane (demo_node 1 [1] None) SessionPeers_new 130
  = Some [Some [str "10.0.0.0/8"; str "100.64.0.1/32"]].
Proof. by vm_compute. Qed.

Lemma current_peers_exact_witness :
  ∃ next, current_peers demo_plane (demo_node 1 [1] None) 130 = Some next
    ∧ ∀ id w e, next !! id = Some (w, e) ↔
        ∃ n, n ∈ demo_plane.(pl_nodes) ∧ eligible demo_plane (demo_node 1 [1] None) n
          ∧ as_u64 n.(dn_id) = id ∧ peer_node demo_plane n 130 = Some w ∧ e = n.(dn_key_expiry).
Proof. apply current_peers_exact, demo_plane_ok. Defined.

Lemma delta_converges_witness :
  ∃ last' d, compute_peer_delta demo_plane (demo_node 1 [1] None) SessionPeers_new 130 = Some (last', d)
    ∧ apply_delta d ∅ = last'.(sent_peers)
    ∧ keyed last'.(sent_peers)
    ∧ ∀ id w, last'.(sent_peers) !! id = Some w ↔
        ∃ n, n ∈ demo_plane.(pl_nodes) ∧ eligible demo_plane (demo_node 1 [1] None) n
          ∧ as_u64 n.(dn_id) = id ∧ peer_node demo_plane n 130 = Some w.
Proof.
  apply (delta_converges demo_plane (demo_node 1 [1] None) 130 SessionPeers_new).
  - apply demo_plane_ok.
  - intros id w. cbn. by rewrite lookup_empty.
  - intros n prev _. cbn. by rewrite lookup_empty.
Defined.

Definition demo_delta : SessionPeers * PeerDeltas :=
  default (SessionPeers_new, {| d_removed := []; d_changed := []; d_patches := []; d_current := [];
                                d_visible := ∅ |})
    (compute_peer_delta demo_plane (demo_node 1 [1] None) SessionPeers_new 130).

Lemma delta_quiescent_witness :
  ∃ d', snd <$> compute_peer_delta demo_plane (demo_node 1 [1] None) demo_delta.1 130 = Some d'
    ∧ d'.(d_removed) = [] ∧ d'.(d_changed) = [] ∧ d'.(d_patches) = [].
Proof. apply (delta_quiescent _ _ _ SessionPeers_new demo_delta.1 demo_delta.2). by vm_compute. Defined.

Lemma new_peer_expiry_never_sent_witness :
  let w := to_proto (demo_node 2 [2] None) in
  let r := peer_delta {[ 2 := (w, Some (str "2030")) ]} ∅ SessionPeers_new in
  r.1.(sent_expiry) !! 2 = Some (Some (str "2030"))
  ∧ (∀ c, c ∈ r.2.(d_patches) → c.(ch_node_id) ≠ 2)
  ∧ (peer_delta {[ 2 := (w, Some (str "2030")) ]} ∅ r.1).2.(d_patches) = [].
Proof.
  intros w. apply (new_peer_expiry_never_sent _ _ _ _ w).
  - intros id w' e [<- [= <- <-]]%lookup_singleton_Some. done.
  - apply lookup_singleton_eq.
  - apply lookup_empty.
Defined.
