(* ===== verification/Control.v ===== *)
(** * The control plane: state, errors and handlers
    ([crabscale-control/src/lib.rs])

    The state of a [ControlPlane] (store, pending cache, sessions, change bus,
    DNS and DERP map snapshots), its configuration, its errors with their
    texts, and the monad its methods run in.  A handler that fails keeps what
    it has written so far, as the code does: nothing is rolled back.  [None] is a call that does not return, which
    only the recursion over policy groups can cause ([PolicyTags]).  What a
    method reads from the outside, the clock and the random generator, is an
    argument, [Ambient].  Metrics, the width of the batch window and the channel
    that wakes SSH waiters have no effect on what is computed and are left
    out. *)

From S2P Require Import Prelude Text Net IpText PolicyModel PolicyTags ProtoFrame IpAlloc Pending Sessions Events NetMap PreAuth Store Dns.

Record ControlConfig : Type := {
  cfg_auth_key : text; cfg_protocol_version : Z; cfg_tailnet_domain : text; cfg_policy : Policy;
  cfg_user_id : Z; cfg_login_id : Z; cfg_user_login_name : text; cfg_user_display_name : text;
  cfg_allocator : IpAllocator; cfg_server_url : text; cfg_pending_ttl_seconds : Z;
  cfg_pending_cache_limit : Z; cfg_reconnect_grace_seconds : Z; cfg_change_batch_max : Z;
  cfg_derp_map : DerpMap; cfg_dns : DnsSettings }.

(** 100.64.0.0/10 and fd7a:115c:a1e0::/48 *)
Definition default_allocator : IpAllocator :=
  {| ipv4_prefix := from_be [100; 64; 0; 0]; ipv4_prefix_len := 10;
     ipv6_prefix := from_segments [0xfd7a; 0x115c; 0xa1e0; 0; 0; 0; 0; 0]; ipv6_prefix_len := 48 |}.

Definition DerpNode_default : DerpNode :=
  {| dpn_name := []; dpn_region_id := 0; dpn_host_name := []; dpn_cert_name := []; dpn_ipv4 := []; dpn_ipv6 := [];
     dpn_stun_port := 0; dpn_stun_only := false; dpn_derp_port := 0; dpn_insecure_for_tests := false;
     dpn_stun_test_ip := []; dpn_can_port_80 := false |}.

Definition test_derp_node : DerpNode :=
  {| dpn_name := str "test-1"; dpn_region_id := 1; dpn_host_name := str "derp.example.com";
     dpn_cert_name := DerpNode_default.(dpn_cert_name); dpn_ipv4 := DerpNode_default.(dpn_ipv4);
     dpn_ipv6 := DerpNode_default.(dpn_ipv6); dpn_stun_port := 3478; dpn_stun_only := DerpNode_default.(dpn_stun_only);
     dpn_derp_port := 443; dpn_insecure_for_tests := DerpNode_default.(dpn_insecure_for_tests);
     dpn_stun_test_ip := DerpNode_default.(dpn_stun_test_ip); dpn_can_port_80 := DerpNode_default.(dpn_can_port_80) |}.

(** No rules: everything is denied. *)
Definition ControlConfig_default : ControlConfig :=
  {| cfg_auth_key := str "hskey-auth-test-secret"; cfg_protocol_version := 130;
     cfg_tailnet_domain := str "tailnet.example"; cfg_policy := Policy_default; cfg_user_id := 1; cfg_login_id := 1;
     cfg_user_login_name := str "owner@example.com"; cfg_user_display_name := str "Owner";
     cfg_allocator := default_allocator; cfg_server_url := str "https://tailnet.example";
     cfg_pending_ttl_seconds := DEFAULT_PENDING_TTL_SECONDS; cfg_pending_cache_limit := DEFAULT_PENDING_CACHE_LIMIT;
     cfg_reconnect_grace_seconds := DEFAULT_RECONNECT_GRACE_SECONDS; cfg_change_batch_max := DEFAULT_CHANGE_BATCH_MAX;
     cfg_derp_map :=
       {| dpm_regions := {[str "1" := {| dpr_region_id := 1; dpr_region_code := str "test"; dpr_region_name := str "Test";
            dpr_avoid := false; dpr_nodes := [test_derp_node] |}]};
          dpm_omit_default_regions := false |};
     cfg_dns := DnsSettings_default |}.

Inductive ControlError : Type :=
| NotFound
| UnsupportedVersion (v : Z)
| StoreFailed (e : StoreError)
| IpAllocation
| JsonFailed
| FrameFailed
| ZstdFailed
| InvalidAuthKey (e : text)
| InvalidEndpointTypes
| PolicyFailed (e : text)
| UnauthorizedTags (tags : list text)
| InvalidRoute (route : text)
| ExtraRecords (e : text)
| Unauthorized
| SshBinding (auth_id : text)
| TimedOut.

#[global] Instance ControlError_eq_dec : EqDecision ControlError.
Proof. solve_decision. Defined.

(** [items.join(sep)] *)
Fixpoint join (sep : text) (items : list text) : text :=
  match items with
  | [] => []
  | [x] => x
  | x :: rest => x ++ sep ++ join sep rest
  end.

Section display.
  Context `{Sqlite}.

Definition StoreError_display (e : StoreError) : text :=
  match e with
  | StoreNotFound => str "entity not found"
  | AlreadyExists => str "entity already exists"
  | SqliteErr e => str "sqlite error: " ++ sqlite_text e
  | JsonErr => str "json error: "
  | IoErr => str "io error: "
  end.

Definition ControlError_display (e : ControlError) : text :=
  match e with
  | NotFound => str "node not found or machine key mismatch"
  | UnsupportedVersion v => str "unsupported capability version " ++ show_uint v
  | StoreFailed e => str "store error: " ++ StoreError_display e
  | IpAllocation => str "no free tailnet IP available"
  | JsonFailed => str "failed to serialize JSON"
  | FrameFailed => str "failed to frame MapResponse"
  | ZstdFailed => str "failed to compress MapResponse"
  | InvalidAuthKey e => str "invalid auth key: " ++ e
  | InvalidEndpointTypes => str "endpoint_types length does not match endpoints length"
  | PolicyFailed e => str "policy error: " ++ e
  | UnauthorizedTags tags => str "requested tags are not permitted: " ++ join (str ", ") tags
  | InvalidRoute route => str "invalid route `" ++ route ++ str "`: expected an IP or CIDR"
  | ExtraRecords e => str "DNS extra records: " ++ e
  | Unauthorized => str "unauthorized: machine key mismatch"
  | SshBinding auth_id => str "SSH auth binding mismatch for `" ++ auth_id ++ str "`"
  | TimedOut => str "timed out waiting for an SSH approval"
  end.

End display.

Record ControlPlane : Type := {
  cp_store : Store;
  cp_pending : PendingCache Hostinfo;
  cp_sessions : SessionRegistry;
  cp_events : ChangeBus;
  cp_reaper_started : bool;
  cp_dns : DnsState;
  cp_derp : DerpMapState;
}.

(** The fields a plane over a store starts with. *)
Definition ControlPlane_fields (c : ControlConfig) (s : Store) : ControlPlane :=
  {| cp_store := s; cp_pending := PendingCache_new c.(cfg_pending_cache_limit);
     cp_sessions := SessionRegistry_new c.(cfg_reconnect_grace_seconds);
     cp_events := ChangeBus_new c.(cfg_change_batch_max); cp_reaper_started := false;
     cp_dns := DnsState_new []; cp_derp := DerpMapState_new c.(cfg_derp_map) |}.

(** [clone]: the store, the bus and the snapshots are shared, the pending cache
    and the sessions start empty. *)
Definition ControlPlane_clone (c : ControlConfig) (p : ControlPlane) : ControlPlane :=
  {| cp_store := p.(cp_store); cp_pending := PendingCache_new c.(cfg_pending_cache_limit);
     cp_sessions := SessionRegistry_new c.(cfg_reconnect_grace_seconds);
     cp_events := p.(cp_events); cp_reaper_started := false;
     cp_dns := p.(cp_dns); cp_derp := p.(cp_derp) |}.

Definition set_store (s : Store) (p : ControlPlane) : ControlPlane :=
  {| cp_store := s; cp_pending := p.(cp_pending); cp_sessions := p.(cp_sessions);
     cp_events := p.(cp_events); cp_reaper_started := p.(cp_reaper_started);
     cp_dns := p.(cp_dns); cp_derp := p.(cp_derp) |}.
Definition set_pending_cache (c : PendingCache Hostinfo) (p : ControlPlane) : ControlPlane :=
  {| cp_store := p.(cp_store); cp_pending := c; cp_sessions := p.(cp_sessions);
     cp_events := p.(cp_events); cp_reaper_started := p.(cp_reaper_started);
     cp_dns := p.(cp_dns); cp_derp := p.(cp_derp) |}.
Definition set_sessions (r : SessionRegistry) (p : ControlPlane) : ControlPlane :=
  {| cp_store := p.(cp_store); cp_pending := p.(cp_pending); cp_sessions := r;
     cp_events := p.(cp_events); cp_reaper_started := p.(cp_reaper_started);
     cp_dns := p.(cp_dns); cp_derp := p.(cp_derp) |}.
Definition set_events (b : ChangeBus) (p : ControlPlane) : ControlPlane :=
  {| cp_store := p.(cp_store); cp_pending := p.(cp_pending); cp_sessions := p.(cp_sessions);
     cp_events := b; cp_reaper_started := p.(cp_reaper_started);
     cp_dns := p.(cp_dns); cp_derp := p.(cp_derp) |}.
Definition set_reaper_started (b : bool) (p : ControlPlane) : ControlPlane :=
  {| cp_store := p.(cp_store); cp_pending := p.(cp_pending); cp_sessions := p.(cp_sessions);
     cp_events := p.(cp_events); cp_reaper_started := b;
     cp_dns := p.(cp_dns); cp_derp := p.(cp_derp) |}.
Definition set_dns (d : DnsState) (p : ControlPlane) : ControlPlane :=
  {| cp_store := p.(cp_store); cp_pending := p.(cp_pending); cp_sessions := p.(cp_sessions);
     cp_events := p.(cp_events); cp_reaper_started := p.(cp_reaper_started);
     cp_dns := d; cp_derp := p.(cp_derp) |}.
Definition set_derp (d : DerpMapState) (p : ControlPlane) : ControlPlane :=
  {| cp_store := p.(cp_store); cp_pending := p.(cp_pending); cp_sessions := p.(cp_sessions);
     cp_events := p.(cp_events); cp_reaper_started := p.(cp_reaper_started);
     cp_dns := p.(cp_dns); cp_derp := d |}.

Record Ambient : Type := {
  (** [now_rfc3339] as the method starts, and when a record is created;
      [now_unix]. *)
  am_now : text;
  am_unix : Z;
  am_created : text;
  (** [now_plus_seconds] *)
  am_plus_seconds : Z → text;
  (** The bytes of [generate_secret], the salt of [hash_secret] and the draws
      of the address allocator. *)
  am_random : bytes;
  am_salt : bytes;
  am_draws4 : Z → nat → Z;
  am_draws6 : Z → nat → Z;
}.

(** ** The handler monad *)

Definition handler (A : Type) : Type := ControlPlane → option (ControlPlane * result A ControlError).

Definition hret {A} (a : A) : handler A := λ p, Some (p, Ok a).
Definition hfail {A} (e : ControlError) : handler A := λ p, Some (p, Err e).
Definition hbind {A B} (m : handler A) (k : A → handler B) : handler B := λ p,
  match m p with
  | Some (p', Ok a) => k a p'
  | Some (p', Err e) => Some (p', Err e)
  | None => None
  end.

Notation "'let!' x ':=' m 'in' k" := (hbind m (λ x, k))
  (at level 10, x pattern, m at level 100, k at level 200) : crab_scope.

(** A read of the store, a statement on it, a possibly endless computation. *)
Definition ask {A} (f : Store → A) : handler A := λ p, Some (p, Ok (f p.(cp_store))).
Definition exec {A} (f : sql A) : handler A := λ p,
  let '(s, r) := f p.(cp_store) in Some (set_store s p, map_err StoreFailed r).
Definition diverging {A} (o : option A) : handler A := λ p, a ← o; Some (p, Ok a).
Definition of_result {A} (r : result A ControlError) : handler A := λ p, Some (p, r).
Definition modify (f : ControlPlane → ControlPlane) : handler unit := λ p, Some (f p, Ok ()).

Definition publish_change (e : ChangeEvent) : handler unit :=
  modify (λ p, set_events (bus_publish e p.(cp_events)) p).

Definition pending_insert (e : PendingRow) : handler unit :=
  modify (λ p, set_pending_cache (pc_insert e p.(cp_pending)) p).

Definition pending_remove (auth_id : text) : handler unit :=
  modify (λ p, set_pending_cache (pc_remove auth_id p.(cp_pending)).1 p).

(** ** DNS and DERP map *)

(** [file] is what reading the configured path gives. *)
Definition reload_dns_extra_records `{RecordsJson} (c : ControlConfig) (file : result bytes text)
    : handler Z :=
  match c.(cfg_dns).(ds_extra_records_path) with
  | None => hfail (ExtraRecords (str "no DNS extra records path configured"))
  | Some _ =>
      let! records := of_result (map_err (λ e, ExtraRecords (DnsError_display e)) (load_extra_records file)) in
      let! _ := modify (λ p, set_dns (set_extra_records records p.(cp_dns)).1 p) in
      let! _ := publish_change DnsChanged in
      hret (zlen records)
  end.

(** [with_store]: a reload that fails only prints a warning. *)
Definition ControlPlane_with_store `{RecordsJson} (c : ControlConfig) (file : result bytes text)
    (s : Store) : ControlPlane :=
  let plane := ControlPlane_fields c s in
  match c.(cfg_dns).(ds_extra_records_path) with
  | None => plane
  | Some _ => match reload_dns_extra_records c file plane with Some (p, _) => p | None => plane end
  end.

Definition set_derp_map (m : DerpMap) : handler Z := λ p,
  let '(d, revision) := set_map m p.(cp_derp) in
  (let! _ := publish_change DerpMapChanged in hret revision) (set_derp d p).

(** ** Postconditions

    What a handler establishes from a state: of its answer and of the state it
    leaves, on success and on failure, should it return. *)

Definition post {A} (m : handler A) (p : ControlPlane)
    (Q : ControlPlane → result A ControlError → Prop) : Prop :=
  ∀ p' r, m p = Some (p', r) → Q p' r.

Lemma post_ret {A} (a : A) p Q : Q p (Ok a) → post (hret a) p Q.
Proof. by intros HQ p' r [= <- <-]. Qed.

Lemma post_fail {A} e p (Q : _ → result A _ → Prop) : Q p (Err e) → post (hfail e) p Q.
Proof. by intros HQ p' r [= <- <-]. Qed.

Lemma post_bind {A B} (m : handler A) (k : A → handler B) p Q :
  post m p (λ p' r, match r with Ok a => post (k a) p' Q | Err e => Q p' (Err e) end) →
  post (let! x := m in k x) p Q.
Proof.
  intros Hm p' r. unfold hbind. destruct (m p) as [[p1 [a|e]]|] eqn:E; [| |done].
  - apply (Hm p1 (Ok a) E).
  - intros [= <- <-]. apply (Hm p1 (Err e) E).
Qed.

Lemma post_ask {A} (f : Store → A) p Q : Q p (Ok (f p.(cp_store))) → post (ask f) p Q.
Proof. by intros HQ p' r [= <- <-]. Qed.

Lemma post_exec {A} (f : sql A) p Q :
  (∀ s r, f p.(cp_store) = (s, r) → Q (set_store s p) (map_err StoreFailed r)) → post (exec f) p Q.
Proof.
  intros HQ p' r. unfold exec. destruct (f (cp_store p)) as [s x] eqn:E. intros [= <- <-].
  by apply HQ.
Qed.

Lemma post_diverging {A} (o : option A) p Q :
  (∀ a, o = Some a → Q p (Ok a)) → post (diverging o) p Q.
Proof. intros HQ p' r. unfold diverging. destruct o; [|done]. intros [= <- <-]. by apply HQ. Qed.

Lemma post_of_result {A} (x : result A ControlError) p Q : Q p x → post (of_result x) p Q.
Proof. by intros HQ p' r [= <- <-]. Qed.

Lemma post_modify f p Q : Q (f p) (Ok ()) → post (modify f) p Q.
Proof. by intros HQ p' r [= <- <-]. Qed.

Lemma post_weaken {A} (m : handler A) p (Q R : ControlPlane → result A ControlError → Prop) :
  post m p Q → (∀ p' r, Q p' r → R p' r) → post m p R.
Proof. intros Hm HQ p' r E. by apply HQ, Hm. Qed.

Lemma with_store_store `{RecordsJson} c file s :
  (ControlPlane_with_store c file s).(cp_store) = s.
Proof.
  unfold ControlPlane_with_store, reload_dns_extra_records.
  destruct (ds_extra_records_path _) as [path|]; [|done]. by destruct (load_extra_records file).
Qed.

(** A relation between the states before and after that every step keeps. *)
Definition keeps {A} (R : ControlPlane → ControlPlane → Prop) (m : handler A) : Prop :=
  ∀ p, post m p (λ p' _, R p p').

Section keeps.
  Context (R : ControlPlane → ControlPlane → Prop) `{!PreOrder R}.

Lemma keeps_ret {A} (a : A) : keeps R (hret a).
Proof. intros p. by apply post_ret. Qed.

Lemma keeps_fail {A} e : keeps R (@hfail A e).
Proof. intros p. by apply post_fail. Qed.

Lemma keeps_bind {A B} (m : handler A) (k : A → handler B) :
  keeps R m → (∀ a, keeps R (k a)) → keeps R (let! x := m in k x).
Proof.
  intros Hm Hk p. apply post_bind. eapply post_weaken; [apply Hm|].
  intros p1 [a|e] H1; [|done]. eapply post_weaken; [apply Hk|]. intros p2 r H2. by trans p1.
Qed.

Lemma keeps_ask {A} (f : Store → A) : keeps R (ask f).
Proof. intros p. by apply post_ask. Qed.

Lemma keeps_diverging {A} (o : option A) : keeps R (diverging o).
Proof. intros p. by apply post_diverging. Qed.

Lemma keeps_of_result {A} (x : result A ControlError) : keeps R (of_result x).
Proof. intros p. by apply post_of_result. Qed.

End keeps.

(** The handlers that only read. *)
Create HintDb keeps discriminated.
#[export] Hint Resolve keeps_ret keeps_fail keeps_ask keeps_diverging keeps_of_result : keeps.

(** Splits a handler into its steps; the leaves are looked up in [keeps]. *)
Ltac keeps_steps :=
  lazymatch goal with
  | |- ∀ _, _ => let x := fresh "x" in intros x; keeps_steps
  | |- keeps _ (hbind _ _) => apply keeps_bind; [typeclasses eauto|keeps_steps|keeps_steps]
  | |- keeps _ (match ?x with _ => _ end) => destruct x; keeps_steps
  | |- _ => eauto with keeps typeclass_instances
  end.
