(* ===== verification/Registration.v ===== *)
(** * Registration ([crabscale-control/src/lib.rs])

    How a node joins, returns and leaves: [register] with its three paths
    (followup, known node, new node), interactive approval, pre-auth keys, tag
    requests, logout, route approval, and the sessions whose end removes
    ephemeral nodes.  Each method of [ControlPlane] is a handler of [Control];
    the early returns of the source are the branches. *)

From S2P Require Import Prelude Text Net IpText PolicyModel PolicyTags ProtoFrame IpAlloc Pending Sessions Events NetMap PreAuth Store Control.

(** ** Requests and answers ([crabscale-proto/src/register.rs]) *)

Record RegisterRequest : Type := {
  rq_version : Z; rq_node_key : bytes; rq_old_node_key : text; rq_nl_key : text;
  rq_auth : option text; rq_expiry : text; rq_followup : text; rq_hostinfo : option Hostinfo;
  rq_ephemeral : bool }.

Record RegisterResponse : Type := {
  rs_user : Z; rs_login : Z; rs_node_key_expired : bool; rs_machine_authorized : bool;
  rs_auth_url : text; rs_error : text }.

#[global] Instance RegisterResponse_eq_dec : EqDecision RegisterResponse.
Proof. solve_decision. Defined.

Definition RegisterResponse_default : RegisterResponse :=
  {| rs_user := 0; rs_login := 0; rs_node_key_expired := false; rs_machine_authorized := false;
     rs_auth_url := []; rs_error := [] |}.

Record OidcProfile : Type := {
  oidc_subject : text; oidc_email : text; oidc_display_name : text }.

Definition REGISTER_MARKER : text := str "/register/".

(** What follows the last occurrence of [p] in [s] ([rfind] and the slice). *)
Fixpoint after_last (p s : text) : option text :=
  match s with
  | [] => strip_prefix p s
  | _ :: t => match after_last p t with Some r => Some r | None => strip_prefix p s end
  end.

Definition auth_id_from_followup (followup : text) : option text :=
  id ← after_last REGISTER_MARKER followup;
  if bool_decide (id = []) then None else Some id.

(** [x as i64] for a [u64] *)
Definition as_i64 (x : Z) : Z := if x <? 2 ^ 63 then x else x - 2 ^ 64.

Definition requested_tags (h : option Hostinfo) : list text :=
  match h with Some h => default [] h.(hi_request_tags) | None => [] end.

Definition route_list (h : option Hostinfo) : list text :=
  match h with
  | None => []
  | Some h => sort_dedup (omap canonical_route (default [] h.(hi_routable_ips)))
  end.

(** [s.parse::<Ipv4Addr>()] *)
Definition parse_ipv4 (s : text) : option Z :=
  match read_ipv4_addr s with Some (a, []) => Some a | _ => None end.

(** One address of the scan for used addresses. *)
Definition add_used (used : gset Z * gset Z) (address : text) : gset Z * gset Z :=
  let host := default address (head (split 47 address)) in
  match parse_ipv4 host with
  | Some v4 => ({[v4]} ∪ used.1, used.2)
  | None => match parse_ipv6 host with
            | Some v6 => (used.1, {[v6]} ∪ used.2)
            | None => used
            end
  end.

Definition used_addresses (nodes : list DomainNode) : gset Z * gset Z :=
  fold_left add_used (flat_map dn_addresses nodes) (∅, ∅).

Section control.
  Context `{Q : Sqlite, C : KeyCrypto, T : Rfc3339}.
  Context (cfg : ControlConfig) (stack : nat).

Definition unauthorized_response (error : text) : RegisterResponse :=
  {| rs_user := 0; rs_login := 0; rs_node_key_expired := false; rs_machine_authorized := false;
     rs_auth_url := []; rs_error := error |}.

Definition expired_response (error : text) : RegisterResponse :=
  {| rs_user := 0; rs_login := 0; rs_node_key_expired := true; rs_machine_authorized := false;
     rs_auth_url := []; rs_error := error |}.

Definition authorized_response : RegisterResponse :=
  {| rs_user := cfg.(cfg_user_id); rs_login := cfg.(cfg_login_id); rs_node_key_expired := false;
     rs_machine_authorized := true; rs_auth_url := []; rs_error := [] |}.

Definition auth_url_response (auth_id : text) : RegisterResponse :=
  {| rs_user := 0; rs_login := 0; rs_node_key_expired := false; rs_machine_authorized := false;
     rs_auth_url := cfg.(cfg_server_url) ++ REGISTER_MARKER ++ auth_id; rs_error := [] |}.

(** ** Users and bootstrap *)

Definition CONTROL_TIME : text := str "2026-08-20T00:00:00Z".

Definition ensure_default_user : handler unit :=
  let user := as_i64 cfg.(cfg_user_id) in
  let login := as_i64 cfg.(cfg_login_id) in
  let! known := ask (get_user user) in
  let! _ := match known with
            | Some _ => hret ()
            | None =>
                let! _ := exec (create_user
                  {| user_id := user; user_login_name := cfg.(cfg_user_login_name);
                     user_display_name := cfg.(cfg_user_display_name);
                     user_created_at := CONTROL_TIME |}) in hret ()
            end in
  let! known := ask (get_login login) in
  match known with
  | Some _ => hret ()
  | None =>
      let! _ := exec (create_login
        {| login_id := login; login_user_id := user; login_provider := str "authkey";
           login_name := cfg.(cfg_user_login_name); login_created_at := CONTROL_TIME |}) in
      hret ()
  end.

Definition ensure_bootstrap_key (amb : Ambient) : handler unit :=
  if bool_decide (cfg.(cfg_auth_key) = []) then hret ()
  else
    match parse_auth_key cfg.(cfg_auth_key) with
    | None => hret ()
    | Some (prefix, secret) =>
        let! known := ask (get_pre_auth_key prefix) in
        match known with
        | Some _ => hret ()
        | None =>
            let! _ := exec (insert_pre_auth_key
              {| ak_id := 0; ak_prefix := prefix; ak_secret_hash := hash_secret amb.(am_salt) secret;
                 ak_reusable := true; ak_ephemeral := false; ak_expiration := None;
                 ak_revoked := false; ak_used := false; ak_tags := None;
                 ak_user_id := as_i64 cfg.(cfg_user_id); ak_created_at := amb.(am_created) |}) in
            hret ()
        end
    end.

Definition resolve_user_id (amb : Ambient) (user_name : text) : handler Z :=
  let! known := ask (get_user_by_login_name user_name) in
  match known with
  | Some u => hret u.(user_id)
  | None =>
      let! u := exec (create_user
        {| user_id := 0; user_login_name := user_name; user_display_name := user_name;
           user_created_at := amb.(am_created) |}) in
      hret u.(user_id)
  end.

Definition upsert_oidc_user (amb : Ambient) (profile : OidcProfile) : handler Z :=
  let! known := ask (get_user_by_login_name profile.(oidc_email)) in
  let! user :=
    match known with
    | Some u =>
        if bool_decide (u.(user_display_name) = profile.(oidc_display_name)) then hret u
        else
          let! _ := exec (update_user_display_name u.(user_id) profile.(oidc_display_name)) in
          hret u
    | None =>
        exec (create_user
          {| user_id := 0; user_login_name := profile.(oidc_email);
             user_display_name := profile.(oidc_display_name); user_created_at := amb.(am_now) |})
    end in
  let! known := ask (get_login_by_provider_subject (str "oidc") profile.(oidc_subject)) in
  let! _ :=
    match known with
    | Some _ => hret ()
    | None =>
        let! _ := exec (create_login
          {| login_id := 0; login_user_id := user.(user_id); login_provider := str "oidc";
             login_name := profile.(oidc_subject); login_created_at := amb.(am_now) |}) in
        hret ()
    end in
  hret user.(user_id).

(** ** Pre-auth keys *)

Definition validated_auth_key (auth_key now : text) : handler (option PreAuthKey) :=
  match parse_auth_key auth_key with
  | None => hret None
  | Some (prefix, secret) =>
      let! known := ask (get_pre_auth_key prefix) in
      match known with
      | None => hret None
      | Some key =>
          if negb (verify_secret secret key.(ak_secret_hash)) then hret None
          else if key.(ak_revoked) then hret None
          else if match key.(ak_expiration) with Some e => is_past e now | None => false end
          then hret None
          else if negb key.(ak_reusable) && key.(ak_used) then hret None
          else hret (Some key)
      end
  end.

Definition create_pre_auth_key (amb : Ambient) (prefix : text) (reusable ephemeral : bool)
    (expiration : option text) (tags : option (list text)) : handler text :=
  let! _ := ensure_default_user in
  if bool_decide (prefix = []) || negb (forallb is_ascii_alphanumeric prefix)
  then hfail (InvalidAuthKey (str "prefix must be non-empty alphanumeric"))
  else
    let! rejected :=
      match tags with
      | None => hret []
      | Some tags =>
          diverging (unauthorized_tags stack cfg.(cfg_policy) (Some cfg.(cfg_user_login_name)) tags)
      end in
    if negb (bool_decide (rejected = []))
    then hfail (PolicyFailed (str "creator may not approve tags: " ++ join (str ", ") rejected))
    else
      let secret := generate_secret amb.(am_random) in
      let! _ := exec (insert_pre_auth_key
        {| ak_id := 0; ak_prefix := prefix; ak_secret_hash := hash_secret amb.(am_salt) secret;
           ak_reusable := reusable; ak_ephemeral := ephemeral; ak_expiration := expiration;
           ak_revoked := false; ak_used := false; ak_tags := tags;
           ak_user_id := as_i64 cfg.(cfg_user_id); ak_created_at := amb.(am_created) |}) in
      hret (format_auth_key prefix secret).

Definition control_list_pre_auth_keys : handler (list PreAuthKey) := ask list_pre_auth_keys.
Definition node_by_key (k : bytes) : handler (option DomainNode) := ask (get_node_by_node_key k).
Definition control_revoke_pre_auth_key (prefix : text) : handler unit :=
  exec (revoke_pre_auth_key prefix).

(** ** Nodes *)

(** The node of a request, at its addresses. *)
Definition new_node (amb : Ambient) (machine_key : bytes) (request : RegisterRequest)
    (owner : Z) (tags : option (list text)) (ephemeral : bool) (ipv4 ipv6 : Z) : DomainNode :=
  let hostname :=
    match request.(rq_hostinfo) with
    | Some h => if bool_decide (h.(hi_hostname) = []) then str "node" else h.(hi_hostname)
    | None => str "node"
    end in
  let addresses := [show_v4 ipv4 ++ str "/32"; show_v6 ipv6 ++ str "/128"] in
  {| dn_id := 0; dn_stable_id := []; dn_name := hostname ++ [46] ++ cfg.(cfg_tailnet_domain) ++ [46];
     dn_user_id := (match tags with Some (_ :: _) => None | _ => Some owner end);
     dn_node_key := request.(rq_node_key); dn_machine_key := machine_key;
     dn_disco_key := zeros 32; dn_addresses := addresses; dn_allowed_ips := Some addresses;
     dn_endpoints := []; dn_endpoint_types := []; dn_home_derp := 1;
     dn_hostinfo := request.(rq_hostinfo); dn_created := amb.(am_now);
     dn_cap := request.(rq_version); dn_tags := tags;
     dn_advertised_routes := route_list request.(rq_hostinfo); dn_approved_routes := [];
     dn_machine_authorized := true; dn_ephemeral := ephemeral;
     dn_last_seen := Some amb.(am_now); dn_key_expiry := None |}.

Definition create_node_from_request (amb : Ambient) (machine_key : bytes) (request : RegisterRequest)
    (owner : Z) (tags : option (list text)) (ephemeral : bool) : handler DomainNode :=
  let! nodes := ask list_nodes in
  let '(used4, used6) := used_addresses nodes in
  let! (ipv4, ipv6) := of_result (map_err (λ _, IpAllocation)
      (allocate cfg.(cfg_allocator) used4 used6 amb.(am_draws4) amb.(am_draws6))) in
  hret (new_node amb machine_key request owner tags ephemeral ipv4 ipv6).

Definition node_owner_login (node : DomainNode) : handler (option text) :=
  match node.(dn_user_id) with
  | None => hret None
  | Some u => let! user := ask (get_user u) in hret (user_login_name <$> user)
  end.

(** [&mut node]: the node as it is left, and whether it changed. *)
Definition apply_request_tags (amb : Ambient) (node : DomainNode) (auth_user_login : option text)
    (requested : list text) : handler (DomainNode * bool) :=
  let current := sort_dedup (default [] node.(dn_tags)) in
  let requested := sort_dedup requested in
  if bool_decide (requested = current) then hret (node, false)
  else if bool_decide (requested = []) then
    let! owner :=
      match node.(dn_user_id) with
      | Some id => hret id
      | None =>
          match auth_user_login with
          | None => hfail (PolicyFailed
                      (str "cannot return a tagged node to user ownership without a user"))
          | Some login => resolve_user_id amb login
          end
      end in
    hret (set_dn_owner (Some owner) None node, true)
  else
    let! rejected := diverging (unauthorized_tags stack cfg.(cfg_policy) auth_user_login requested) in
    if negb (bool_decide (rejected = [])) then hfail (UnauthorizedTags rejected)
    else hret (set_dn_owner None (Some requested) node, true).

Definition logout_response (node_key_expired : bool) : RegisterResponse :=
  {| rs_user := 0; rs_login := 0; rs_node_key_expired := node_key_expired;
     rs_machine_authorized := false; rs_auth_url := []; rs_error := str "node logged out" |}.

Definition logout_node (node : DomainNode) (node_key_expired : bool) : handler RegisterResponse :=
  match node.(dn_tags) with
  | Some _ => hret authorized_response
  | None =>
      if node.(dn_ephemeral) then
        let! _ := exec (delete_node node.(dn_node_key)) in
        let! _ := publish_change (NodeRemoved node.(dn_id)) in
        hret (logout_response node_key_expired)
      else
        let! updated := exec (upsert_node (set_dn_authorized false node)) in
        let! _ := publish_change (NodeChanged updated.(dn_id)) in
        hret (logout_response node_key_expired)
  end.

Definition logout (machine_key node_key : bytes) : handler RegisterResponse :=
  let! known := ask (get_node_by_node_key node_key) in
  match known with
  | Some node =>
      if bool_decide (node.(dn_machine_key) = machine_key) then logout_node node false
      else hfail NotFound
  | None => hfail NotFound
  end.

Definition update_approved (node : DomainNode) (routes : list text) : handler unit :=
  let! updated := exec (upsert_node (set_dn_approved_routes routes node)) in
  publish_change (NodeChanged updated.(dn_id)).

Definition approve_route (node_key : bytes) (route : text) : handler unit :=
  match canonical_route route with
  | None => hfail (InvalidRoute route)
  | Some canonical =>
      let! known := ask (get_node_by_node_key node_key) in
      match known with
      | None => hfail NotFound
      | Some node =>
          if bool_decide (canonical ∈ node.(dn_approved_routes)) then hret ()
          else update_approved node (sort_dedup (node.(dn_approved_routes) ++ [canonical]))
      end
  end.

Definition disapprove_route (node_key : bytes) (route : text) : handler unit :=
  match canonical_route route with
  | None => hfail (InvalidRoute route)
  | Some canonical =>
      let! known := ask (get_node_by_node_key node_key) in
      match known with
      | None => hfail NotFound
      | Some node =>
          let routes := filter (λ r, r ≠ canonical) node.(dn_approved_routes) in
          if bool_decide (length routes = length node.(dn_approved_routes)) then hret ()
          else update_approved node routes
      end
  end.

(** ** Interactive registration *)

Definition get_pending_entry (auth_id : text) : handler (option PendingRow) :=
  let! entry := ask (get_pending auth_id) in
  match entry with
  | Some e => let! _ := pending_insert e in hret (Some e)
  | None => hret None
  end.

Definition remove_pending_entry (auth_id : text) : handler unit :=
  let! _ := pending_remove auth_id in
  exec (delete_pending auth_id).

Definition new_pending (amb : Ambient) (auth_id machine_key : bytes) (request : RegisterRequest)
    : PendingRow :=
  {| p_auth_id := auth_id; p_machine_key := machine_key; p_node_key := request.(rq_node_key);
     p_hostinfo := request.(rq_hostinfo); p_expiry := request.(rq_expiry);
     p_version := request.(rq_version); p_ephemeral := request.(rq_ephemeral);
     p_created_at := amb.(am_now);
     p_expires_at := amb.(am_plus_seconds) cfg.(cfg_pending_ttl_seconds);
     p_verdict := VPending |}.

Definition start_interactive (amb : Ambient) (machine_key : bytes) (request : RegisterRequest)
    : handler RegisterResponse :=
  let auth_id := generate_secret amb.(am_random) in
  let entry := new_pending amb auth_id machine_key request in
  let! _ := pending_insert entry in
  let! _ := exec (save_pending entry) in
  hret (auth_url_response auth_id).

Definition set_verdict (v : PendingVerdict) (e : PendingRow) : PendingRow :=
  {| p_auth_id := e.(p_auth_id); p_machine_key := e.(p_machine_key); p_node_key := e.(p_node_key);
     p_hostinfo := e.(p_hostinfo); p_expiry := e.(p_expiry); p_version := e.(p_version);
     p_ephemeral := e.(p_ephemeral); p_created_at := e.(p_created_at);
     p_expires_at := e.(p_expires_at); p_verdict := v |}.

(** [pending_request]: the request of an approved entry. *)
Definition approved_request (entry : PendingRow) : RegisterRequest :=
  {| rq_version := entry.(p_version); rq_node_key := entry.(p_node_key); rq_old_node_key := [];
     rq_nl_key := []; rq_auth := None; rq_expiry := entry.(p_expiry); rq_followup := [];
     rq_hostinfo := entry.(p_hostinfo); rq_ephemeral := entry.(p_ephemeral) |}.

(** The node of an approved registration. *)
Definition join_approved (amb : Ambient) (machine_key : bytes) (entry : PendingRow) (user : Z)
    (tags : option (list text)) : handler RegisterResponse :=
  let! known := ask (get_node_by_node_key entry.(p_node_key)) in
  if match known with
     | Some node => bool_decide (node.(dn_machine_key) = machine_key) && node.(dn_machine_authorized)
     | None => false
     end
  then hret authorized_response
  else
    let request := approved_request entry in
    let! node := create_node_from_request amb machine_key request user tags entry.(p_ephemeral) in
    let! node := exec (upsert_node node) in
    let! _ := publish_change (NodeChanged node.(dn_id)) in
    hret authorized_response.

Definition poll_followup (amb : Ambient) (machine_key : bytes) (request : RegisterRequest)
    : handler RegisterResponse :=
  match auth_id_from_followup request.(rq_followup) with
  | None => hret (unauthorized_response (str "invalid followup URL"))
  | Some auth_id =>
      let! entry := get_pending_entry auth_id in
      match entry with
      | None => hret (unauthorized_response (str "registration expired; start a new registration"))
      | Some entry =>
          if negb (bool_decide (entry.(p_machine_key) = machine_key))
          then hret (unauthorized_response (str "auth id does not match machine key"))
          else if is_past entry.(p_expires_at) amb.(am_now) then
            let! _ := remove_pending_entry auth_id in
            hret (unauthorized_response (str "registration expired; start a new registration"))
          else
            match entry.(p_verdict) with
            | VPending => hret (auth_url_response entry.(p_auth_id))
            | VRejected =>
                let! _ := remove_pending_entry auth_id in
                hret (unauthorized_response (str "registration rejected"))
            | VApproved user tags =>
                let! _ := remove_pending_entry auth_id in
                join_approved amb machine_key entry user tags
            end
      end
  end.

(** The lookup that opens [approve_pending] and [reject_pending]. *)
Definition live_pending_entry (amb : Ambient) (auth_id : text) : handler (option PendingRow) :=
  let! entry := get_pending_entry auth_id in
  match entry with
  | None => hret None
  | Some entry =>
      if is_past entry.(p_expires_at) amb.(am_now) then
        let! _ := remove_pending_entry auth_id in hret None
      else hret (Some entry)
  end.

Definition save_verdict (v : PendingVerdict) (entry : PendingRow) : handler unit :=
  let entry := set_verdict v entry in
  let! _ := pending_insert entry in
  exec (save_pending entry).

Definition approve_pending (amb : Ambient) (auth_id user_name : text) : handler unit :=
  let! entry := live_pending_entry amb auth_id in
  match entry with
  | None => hfail NotFound
  | Some entry =>
      let! user := resolve_user_id amb user_name in
      let requested := requested_tags entry.(p_hostinfo) in
      let! approved_tags :=
        if bool_decide (requested = []) then hret None
        else
          let! rejected :=
            diverging (unauthorized_tags stack cfg.(cfg_policy) (Some user_name) requested) in
          if negb (bool_decide (rejected = [])) then hfail (UnauthorizedTags rejected)
          else hret (Some requested) in
      save_verdict (VApproved user approved_tags) entry
  end.

Definition reject_pending (amb : Ambient) (auth_id : text) : handler unit :=
  let! entry := live_pending_entry amb auth_id in
  match entry with
  | None => hfail NotFound
  | Some entry => save_verdict VRejected entry
  end.

Definition pending_info (amb : Ambient) (auth_id : text) : handler (option PendingRow) :=
  live_pending_entry amb auth_id.

(** ** Register *)

(** A known and authorized node: only its tag request is looked at. *)
Definition relogin (amb : Ambient) (node : DomainNode) (request : RegisterRequest)
    : handler RegisterResponse :=
  let! owner := node_owner_login node in
  let! (updated, changed) :=
    apply_request_tags amb node owner (requested_tags request.(rq_hostinfo)) in
  let! _ :=
    if changed : bool then
      let! _ := exec (upsert_node updated) in
      publish_change (NodeChanged updated.(dn_id))
    else hret () in
  hret authorized_response.

(** A known node returns with a valid key. *)
Definition reauthorize (node : DomainNode) (key : PreAuthKey) : handler RegisterResponse :=
  let updated := set_dn_ephemeral key.(ak_ephemeral)
                   (set_dn_owner node.(dn_user_id) key.(ak_tags) (set_dn_authorized true node)) in
  let! _ := exec (upsert_node updated) in
  let! _ := publish_change (NodeChanged updated.(dn_id)) in
  let! _ := if negb key.(ak_reusable) then exec (mark_pre_auth_key_used key.(ak_id)) else hret () in
  hret authorized_response.

Definition register_known (amb : Ambient) (machine_key : bytes) (request : RegisterRequest)
    (node : DomainNode) : handler RegisterResponse :=
  if negb (bool_decide (node.(dn_machine_key) = machine_key))
  then hret (unauthorized_response (str "node key is already registered to another machine"))
  else if negb (bool_decide (request.(rq_expiry) = [])) && is_past request.(rq_expiry) amb.(am_now)
  then logout_node node true
  else if negb (bool_decide (request.(rq_expiry) = [])) && is_future request.(rq_expiry) amb.(am_now)
  then hret (unauthorized_response (str "clients may not extend their own key"))
  else if node.(dn_machine_authorized) then relogin amb node request
  else
    let! key :=
      match request.(rq_auth) with
      | Some auth => validated_auth_key auth amb.(am_now)
      | None => hret None
      end in
    match key with
    | Some key => reauthorize node key
    | None => start_interactive amb machine_key request
    end.

Definition join_with_key (amb : Ambient) (machine_key : bytes) (request : RegisterRequest)
    (key : PreAuthKey) : handler RegisterResponse :=
  if bool_decide (key.(ak_tags) = None)
     && negb (bool_decide (requested_tags request.(rq_hostinfo) = []))
  then hfail (PolicyFailed (str "pre-auth key registrations may not request tags"))
  else
    let! node := create_node_from_request amb machine_key request key.(ak_user_id) key.(ak_tags)
                   key.(ak_ephemeral) in
    let! node := exec (upsert_node node) in
    let! _ := publish_change (NodeChanged node.(dn_id)) in
    let! _ := if negb key.(ak_reusable) then exec (mark_pre_auth_key_used key.(ak_id)) else hret () in
    hret authorized_response.

Definition register_new (amb : Ambient) (machine_key : bytes) (request : RegisterRequest)
    : handler RegisterResponse :=
  let! key :=
    match request.(rq_auth) with
    | Some auth => validated_auth_key auth amb.(am_now)
    | None => hret None
    end in
  let is_tagged_key :=
    match key with
    | Some k => match k.(ak_tags) with Some (_ :: _) => true | _ => false end
    | None => false
    end in
  let gated := negb is_tagged_key && negb (bool_decide (request.(rq_expiry) = [])) in
  if gated && is_past request.(rq_expiry) amb.(am_now)
  then hret (expired_response (str "node key is expired"))
  else if gated && is_future request.(rq_expiry) amb.(am_now)
  then hret (unauthorized_response (str "clients may not extend their own key"))
  else
    match key with
    | Some key => join_with_key amb machine_key request key
    | None => start_interactive amb machine_key request
    end.

Definition register_body (amb : Ambient) (machine_key : bytes) (request : RegisterRequest)
    : handler RegisterResponse :=
  let! _ := ensure_default_user in
  let! _ := ensure_bootstrap_key amb in
  if negb (bool_decide (request.(rq_followup) = [])) then poll_followup amb machine_key request
  else
    let! known := ask (get_node_by_node_key request.(rq_node_key)) in
    match known with
    | Some node => register_known amb machine_key request node
    | None => register_new amb machine_key request
    end.

(** An error becomes an answer. *)
Definition register (amb : Ambient) (machine_key : bytes) (request : RegisterRequest)
    (p : ControlPlane) : option (ControlPlane * RegisterResponse) :=
  match register_body amb machine_key request p with
  | Some (p', Ok response) => Some (p', response)
  | Some (p', Err e) => Some (p', unauthorized_response (ControlError_display e))
  | None => None
  end.

(** ** Sessions of the plane *)

Definition publish_online (p : ControlPlane) (ev : SessionEvent) : ControlPlane :=
  match ev with
  | Online id => set_events (bus_publish (OnlineChanged id true) p.(cp_events)) p
  | _ => p
  end.

Definition open_session (node_id : Z) (eph : bool) (now : Z) (p : ControlPlane) : ControlPlane * Z :=
  let '(r, session_id, events) := session_open node_id eph now p.(cp_sessions) in
  (fold_left publish_online events (set_sessions r p), session_id).

Definition close_session (session_id now : Z) (p : ControlPlane) : ControlPlane :=
  set_sessions (session_close session_id now p.(cp_sessions)).1 p.

(** [claim_reaper]: the previous value of the flag, swapped for [true]. *)
Definition claim_reaper (p : ControlPlane) : ControlPlane * bool :=
  (set_reaper_started true p, negb p.(cp_reaper_started)).

Definition reap_event (p : ControlPlane) (ev : SessionEvent) : ControlPlane :=
  match ev with
  | Offline id => set_events (bus_publish (OnlineChanged id false) p.(cp_events)) p
  | EphemeralExpired id =>
      let p := match get_node_by_id id p.(cp_store) with
               | Some node => set_store (delete_node node.(dn_node_key) p.(cp_store)).1 p
               | None => p
               end in
      set_events (bus_publish (NodeRemoved id) p.(cp_events)) p
  | Online _ => p
  end.

Definition reap_sessions_at (order : list Z) (now : Z) (p : ControlPlane)
    : ControlPlane * list SessionEvent :=
  let '(r, events) := session_tick order now p.(cp_sessions) in
  (fold_left reap_event events (set_sessions r p), events).

End control.
