(* ===== verification/MapRequest.v ===== *)
(** * Map requests and the maps they are answered with

    [crabscale-control/src/lib.rs] ([handle_map], [build_initial_map], the
    frames pushed to live sessions) and [delta.rs] ([build_delta]), with the
    wire objects of [crabscale-proto/src/netmap.rs] and [ping.rs].  A handler
    of [Control] answers one request; what the comparison of peers reads of a
    plane is the [Plane] of [Delta].  The JSON text of a response and its
    compression are third-party code, the class [WireCodec]. *)

From S2P Require Import Prelude ProtoFrame Text Net IpText PolicyModel PolicyTags PolicyRoutes PolicyCompile Sessions Events IpAlloc Pending NetMap PreAuth Store Dns SshPolicy Delta Control Registration.

(** ** Wire objects *)

Record MapRequest : Type := {
  mr_version : Z; mr_compress : text; mr_keep_alive : bool; mr_node_key : bytes;
  mr_disco_key : bytes; mr_stream : bool; mr_hostinfo : option Hostinfo;
  mr_endpoints : list text; mr_endpoint_types : list Z; mr_omit_peers : bool;
  mr_read_only : bool; mr_tka_head : text; mr_map_session_handle : text;
  mr_map_session_seq : Z }.

Record PingRequest : Type := {
  ping_url : text; ping_url_is_noise : bool; ping_log : bool; ping_types : text;
  ping_ip : text; ping_payload : option text }.

#[global] Instance PingRequest_eq_dec : EqDecision PingRequest.
Proof. solve_decision. Defined.

Record UserProfile : Type := {
  up_id : Z; up_login_name : text; up_display_name : text; up_profile_pic_url : text;
  up_groups : list text }.

#[global] Instance UserProfile_eq_dec : EqDecision UserProfile.
Proof. solve_decision. Defined.

Record MapResponse : Type := {
  resp_map_session_handle : text; resp_seq : Z; resp_keep_alive : bool;
  resp_ping_request : option PingRequest; resp_pop_browser_url : text;
  resp_node : option WireNode; resp_derp_map : option DerpMap; resp_domain : text;
  resp_dns : option DnsConfig; resp_peers : option (list WireNode);
  resp_peers_changed : option (list WireNode); resp_peers_removed : option (list Z);
  resp_peers_changed_patch : option (list PeerChange);
  resp_peer_seen_change : option (gmap Z bool); resp_online_change : option (gmap Z bool);
  resp_collect_services : option bool; resp_packet_filter : option (list FilterRule);
  resp_packet_filters : option (gmap text (list FilterRule));
  resp_user_profiles : list UserProfile; resp_ssh_policy : option WireSshPolicy;
  resp_control_time : text }.

#[global] Instance MapResponse_eq_dec : EqDecision MapResponse.
Proof. solve_decision. Defined.

Definition MapResponse_default : MapResponse :=
  {| resp_map_session_handle := []; resp_seq := 0; resp_keep_alive := false;
     resp_ping_request := None; resp_pop_browser_url := []; resp_node := None;
     resp_derp_map := None; resp_domain := []; resp_dns := None; resp_peers := None;
     resp_peers_changed := None; resp_peers_removed := None; resp_peers_changed_patch := None;
     resp_peer_seen_change := None; resp_online_change := None; resp_collect_services := None;
     resp_packet_filter := None; resp_packet_filters := None; resp_user_profiles := [];
     resp_ssh_policy := None; resp_control_time := [] |}.

(** A response of tailnet-wide state only, and one that also tells of peers. *)
Definition tailnet_response (dns : option DnsConfig) (derp : option DerpMap) : MapResponse :=
  {| resp_map_session_handle := []; resp_seq := 0; resp_keep_alive := false;
     resp_ping_request := None; resp_pop_browser_url := []; resp_node := None;
     resp_derp_map := derp; resp_domain := []; resp_dns := dns; resp_peers := None;
     resp_peers_changed := None; resp_peers_removed := None; resp_peers_changed_patch := None;
     resp_peer_seen_change := None; resp_online_change := None; resp_collect_services := None;
     resp_packet_filter := None; resp_packet_filters := None; resp_user_profiles := [];
     resp_ssh_policy := None; resp_control_time := [] |}.

Definition peers_response (r : MapResponse) (removed : option (list Z)) (changed : option (list WireNode))
    (patches : option (list PeerChange)) (online seen : option (gmap Z bool)) : MapResponse :=
  {| resp_map_session_handle := []; resp_seq := 0; resp_keep_alive := false;
     resp_ping_request := None; resp_pop_browser_url := []; resp_node := None;
     resp_derp_map := r.(resp_derp_map); resp_domain := []; resp_dns := r.(resp_dns);
     resp_peers := None; resp_peers_changed := changed; resp_peers_removed := removed;
     resp_peers_changed_patch := patches; resp_peer_seen_change := seen;
     resp_online_change := online; resp_collect_services := None; resp_packet_filter := None;
     resp_packet_filters := None; resp_user_profiles := []; resp_ssh_policy := None;
     resp_control_time := [] |}.

Definition policy_response (r : MapResponse) (peers : list WireNode)
    (filters : gmap text (list FilterRule)) (ssh : option WireSshPolicy) (node : WireNode)
    : MapResponse :=
  {| resp_map_session_handle := []; resp_seq := 0; resp_keep_alive := false;
     resp_ping_request := None; resp_pop_browser_url := []; resp_node := Some node;
     resp_derp_map := r.(resp_derp_map); resp_domain := []; resp_dns := r.(resp_dns);
     resp_peers := Some peers; resp_peers_changed := None; resp_peers_removed := None;
     resp_peers_changed_patch := None; resp_peer_seen_change := None; resp_online_change := None;
     resp_collect_services := None; resp_packet_filter := None;
     resp_packet_filters := Some filters; resp_user_profiles := []; resp_ssh_policy := ssh;
     resp_control_time := [] |}.

Inductive MapOutcome : Type :=
| LiteUpdate
| FullFrame (frame : bytes)
| MapStream (first_frame : bytes) (keep_alive compress : bool) (session_id node_id : Z)
    (initial_peers : SessionPeers) (client_version : Z).

(** [serde_json::to_vec] and [zstd::stream::encode_all]; [None] is an error. *)
Class WireCodec : Type := {
  map_to_json : MapResponse → option bytes;
  zstd_encode : bytes → option bytes }.

(** ** The node as a request leaves it *)

Definition set_dn_seen (disco : bytes) (now : text) (n : DomainNode) : DomainNode :=
  {| dn_id := n.(dn_id); dn_stable_id := n.(dn_stable_id); dn_name := n.(dn_name);
     dn_user_id := n.(dn_user_id); dn_node_key := n.(dn_node_key);
     dn_machine_key := n.(dn_machine_key); dn_disco_key := disco;
     dn_addresses := n.(dn_addresses); dn_allowed_ips := n.(dn_allowed_ips);
     dn_endpoints := n.(dn_endpoints); dn_endpoint_types := n.(dn_endpoint_types);
     dn_home_derp := n.(dn_home_derp); dn_hostinfo := n.(dn_hostinfo);
     dn_created := n.(dn_created); dn_cap := n.(dn_cap); dn_tags := n.(dn_tags);
     dn_advertised_routes := n.(dn_advertised_routes);
     dn_approved_routes := n.(dn_approved_routes);
     dn_machine_authorized := n.(dn_machine_authorized); dn_ephemeral := n.(dn_ephemeral);
     dn_last_seen := Some now; dn_key_expiry := n.(dn_key_expiry) |}.

Definition set_dn_hostinfo (h : Hostinfo) (routes : list text) (home_derp : Z) (n : DomainNode)
    : DomainNode :=
  {| dn_id := n.(dn_id); dn_stable_id := n.(dn_stable_id); dn_name := n.(dn_name);
     dn_user_id := n.(dn_user_id); dn_node_key := n.(dn_node_key);
     dn_machine_key := n.(dn_machine_key); dn_disco_key := n.(dn_disco_key);
     dn_addresses := n.(dn_addresses); dn_allowed_ips := n.(dn_allowed_ips);
     dn_endpoints := n.(dn_endpoints); dn_endpoint_types := n.(dn_endpoint_types);
     dn_home_derp := home_derp; dn_hostinfo := Some h;
     dn_created := n.(dn_created); dn_cap := n.(dn_cap); dn_tags := n.(dn_tags);
     dn_advertised_routes := routes; dn_approved_routes := n.(dn_approved_routes);
     dn_machine_authorized := n.(dn_machine_authorized); dn_ephemeral := n.(dn_ephemeral);
     dn_last_seen := n.(dn_last_seen); dn_key_expiry := n.(dn_key_expiry) |}.

Definition set_dn_endpoints (endpoints : list text) (types : list Z) (n : DomainNode) : DomainNode :=
  {| dn_id := n.(dn_id); dn_stable_id := n.(dn_stable_id); dn_name := n.(dn_name);
     dn_user_id := n.(dn_user_id); dn_node_key := n.(dn_node_key);
     dn_machine_key := n.(dn_machine_key); dn_disco_key := n.(dn_disco_key);
     dn_addresses := n.(dn_addresses); dn_allowed_ips := n.(dn_allowed_ips);
     dn_endpoints := endpoints; dn_endpoint_types := types;
     dn_home_derp := n.(dn_home_derp); dn_hostinfo := n.(dn_hostinfo);
     dn_created := n.(dn_created); dn_cap := n.(dn_cap); dn_tags := n.(dn_tags);
     dn_advertised_routes := n.(dn_advertised_routes);
     dn_approved_routes := n.(dn_approved_routes);
     dn_machine_authorized := n.(dn_machine_authorized); dn_ephemeral := n.(dn_ephemeral);
     dn_last_seen := n.(dn_last_seen); dn_key_expiry := n.(dn_key_expiry) |}.

Definition set_wire_node (cap_map : gmap text (list Json)) (w : WireNode) : WireNode :=
  {| wn_id := w.(wn_id); wn_stable_id := w.(wn_stable_id); wn_name := w.(wn_name);
     wn_user := w.(wn_user); wn_key := w.(wn_key); wn_machine := w.(wn_machine);
     wn_disco_key := w.(wn_disco_key); wn_addresses := w.(wn_addresses);
     wn_allowed_ips := w.(wn_allowed_ips); wn_endpoints := w.(wn_endpoints);
     wn_home_derp := w.(wn_home_derp); wn_hostinfo := w.(wn_hostinfo);
     wn_created := w.(wn_created); wn_cap := w.(wn_cap); wn_tags := w.(wn_tags);
     wn_cap_map := cap_map; wn_primary_routes := w.(wn_primary_routes);
     wn_last_seen := w.(wn_last_seen); wn_online := w.(wn_online);
     wn_machine_authorized := w.(wn_machine_authorized); wn_capabilities := w.(wn_capabilities) |}.

(** The home region of a hostinfo, when it reports one. *)
Definition reported_derp (h : Hostinfo) (home_derp : Z) : Z :=
  match h.(hi_net_info) with
  | Some net_info => if net_info.(ni_preferred_derp) =? 0 then home_derp else net_info.(ni_preferred_derp)
  | None => home_derp
  end.

(** What a request reports of its node, tags aside. *)
Definition observed (now : text) (request : MapRequest) (read_only : bool) (node : DomainNode)
    : DomainNode :=
  let node := set_dn_seen request.(mr_disco_key) now node in
  if read_only then node
  else
    let node :=
      match request.(mr_hostinfo) with
      | Some h => set_dn_hostinfo h (route_list (Some h)) (reported_derp h node.(dn_home_derp)) node
      | None => node
      end in
    set_dn_endpoints request.(mr_endpoints) request.(mr_endpoint_types) node.

(** ** Frames *)

Section map.
  Context `{Q : Sqlite, C : KeyCrypto, T : Rfc3339, W : WireCodec}.
  Context (cfg : ControlConfig) (stack : nat).

(** What [Delta] reads of the plane. *)
Definition plane_view (p : ControlPlane) : Plane :=
  {| pl_policy := cfg.(cfg_policy); pl_nodes := list_nodes p.(cp_store);
     pl_users := p.(cp_store).(st_users); pl_sessions := p.(cp_sessions); pl_stack := stack |}.

Definition viewing {A} (f : Plane → option A) : handler A := λ p, diverging (f (plane_view p)) p.

Definition encode_frame (response : MapResponse) (compress : bool) : result bytes ControlError :=
  match map_to_json response with
  | None => Err JsonFailed
  | Some json =>
      let? payload :=
        if compress then match zstd_encode json with Some z => Ok z | None => Err ZstdFailed end
        else Ok json in
      map_err (λ _, FrameFailed) (MapFrame.encode_map_response_frame payload)
  end.

Definition keepalive_frame (compress : bool) : result bytes ControlError :=
  encode_frame
    {| resp_map_session_handle := []; resp_seq := 0; resp_keep_alive := true;
       resp_ping_request := None; resp_pop_browser_url := []; resp_node := None;
       resp_derp_map := None; resp_domain := []; resp_dns := None; resp_peers := None;
       resp_peers_changed := None; resp_peers_removed := None; resp_peers_changed_patch := None;
       resp_peer_seen_change := None; resp_online_change := None; resp_collect_services := None;
       resp_packet_filter := None; resp_packet_filters := None; resp_user_profiles := [];
       resp_ssh_policy := None; resp_control_time := [] |} compress.

Definition build_dns_config (p : ControlPlane) : option DnsConfig :=
  let dns := cfg.(cfg_dns) in
  let extra_records := p.(cp_dns).(dst_extra_records) in
  if negb dns.(ds_magic_dns) && bool_decide (dns.(ds_split_dns) = ∅)
     && bool_decide (dns.(ds_search_domains) = []) && bool_decide (extra_records = [])
  then None
  else
    let magic_dns_ipv4 :=
      default (derive_magic_dns_ipv4 cfg.(cfg_allocator).(ipv4_prefix) cfg.(cfg_allocator).(ipv4_prefix_len))
        dns.(ds_magic_dns_ipv4) in
    let magic_dns_ipv6 :=
      default (derive_magic_dns_ipv6 cfg.(cfg_allocator).(ipv6_prefix) cfg.(cfg_allocator).(ipv6_prefix_len))
        dns.(ds_magic_dns_ipv6) in
    Some (DnsSettings_build dns cfg.(cfg_tailnet_domain) magic_dns_ipv4 magic_dns_ipv6
            (to_proto <$> list_nodes p.(cp_store)) extra_records).

Definition build_dns_delta_frame (compress : bool) (p : ControlPlane) : result bytes ControlError :=
  match build_dns_config p with
  | None => Err (ExtraRecords (str "no DNS config to push"))
  | Some dns => encode_frame (tailnet_response (Some dns) None) compress
  end.

Definition build_derp_map_delta_frame (compress : bool) (p : ControlPlane) : result bytes ControlError :=
  encode_frame (tailnet_response None (Some p.(cp_derp).(dms_map))) compress.

Definition node_is_authorized (node_key : bytes) (p : ControlPlane) : bool :=
  match get_node_by_node_key node_key p.(cp_store) with
  | Some node => node.(dn_machine_authorized)
  | None => false
  end.

Definition publish_policy_changed : handler unit := publish_change PolicyChanged.

(** ** The parts of a map *)

Definition compiled_policy (pl : Plane) : CompiledPolicy :=
  compile_policy pl.(pl_policy) (compile_nodes pl).

Definition base_filter (pl : Plane) (node : DomainNode) : list FilterRule :=
  default [] ((compiled_policy pl).(node_filters) !! as_u64 node.(dn_id)).

Definition base_packet_filters (pl : Plane) (node : DomainNode) : gmap text (list FilterRule) :=
  {[ str "base" := base_filter pl node ]}.

Definition ssh_policy_for (pl : Plane) (node : DomainNode) : option WireSshPolicy :=
  build_wire_ssh_policy (compile_ssh_policy pl.(pl_policy) (compile_nodes pl))
    (as_u64 node.(dn_id)) cfg.(cfg_server_url) (compile_nodes pl).

(** The capability map of the self node, when the policy grants attributes. *)
Definition self_cap_map (pl : Plane) (node : DomainNode) : option (gmap text (list Json)) :=
  match List.find (λ n, n.(cn_id) =? as_u64 node.(dn_id)) (compile_nodes pl) with
  | Some self_compile =>
      if bool_decide (pl.(pl_policy).(node_attrs) = []) then Some ∅
      else node_attributes pl.(pl_stack) pl.(pl_policy) self_compile
  | None => Some ∅
  end.

Definition self_node_proto (pl : Plane) (node : DomainNode) (version : Z) : option WireNode :=
  routes ← effective_approved_routes pl node;
  cap_map ← self_cap_map pl node;
  let w := to_proto node in
  Some (set_wire_node cap_map
    (set_routes (allowed_ips_for version node.(dn_addresses) w.(wn_allowed_ips))
       (non_address_routes routes node.(dn_addresses)) w)).

(** The loop over the stored nodes, with the users it meets. *)
Fixpoint collect_peers (pl : Plane) (self_key : bytes) (visible : gset Z) (version : Z)
    (stored : list DomainNode) (peers : list WireNode) (users : gset Z)
    : option (list WireNode * gset Z) :=
  match stored with
  | [] => Some (peers, users)
  | n :: rest =>
      if bool_decide (n.(dn_node_key) = self_key) || negb n.(dn_machine_authorized)
         || negb (bool_decide (as_u64 n.(dn_id) ∈ visible))
      then collect_peers pl self_key visible version rest peers users
      else
        peer ← peer_node pl n version;
        collect_peers pl self_key visible version rest (peers ++ [peer])
          (match n.(dn_user_id) with Some u => {[u]} ∪ users | None => users end)
  end.

Definition peer_le (a b : WireNode) : Prop := a.(wn_id) ≤ b.(wn_id).

#[global] Instance peer_le_dec a b : Decision (peer_le a b).
Proof. unfold peer_le. apply _. Defined.

Definition user_profile (users : gmap Z User) (id : Z) : option UserProfile :=
  user ← users !! id;
  Some {| up_id := as_u64 user.(user_id); up_login_name := user.(user_login_name);
          up_display_name := user.(user_display_name); up_profile_pic_url := [];
          up_groups := [] |}.

(** ** The first map *)

Definition initial_map (pl : Plane) (derp : DerpMap) (dns : option DnsConfig) (node : DomainNode)
    (version : Z) : option MapResponse :=
  proto_node ← self_node_proto pl node version;
  let base := base_filter pl node in
  let incremental := CapVer.prefers_incremental_packet_filters version in
  '(peers, users) ← collect_peers pl node.(dn_node_key) (visible_peers pl node) version
                      pl.(pl_nodes) [] {[default 0 node.(dn_user_id)]};
  Some {| resp_map_session_handle := []; resp_seq := 0; resp_keep_alive := false;
          resp_ping_request := None; resp_pop_browser_url := []; resp_node := Some proto_node;
          resp_derp_map := Some derp; resp_domain := cfg.(cfg_tailnet_domain); resp_dns := dns;
          resp_peers := Some (merge_sort peer_le peers); resp_peers_changed := None;
          resp_peers_removed := None; resp_peers_changed_patch := None;
          resp_peer_seen_change := None; resp_online_change := None;
          resp_collect_services := None;
          resp_packet_filter := if incremental then None else Some base;
          resp_packet_filters := if incremental then Some {[ str "base" := base ]} else None;
          resp_user_profiles := omap (user_profile pl.(pl_users)) (sorted_ids users);
          resp_ssh_policy := ssh_policy_for pl node; resp_control_time := CONTROL_TIME |}.

Definition build_initial_map (node : DomainNode) (request : MapRequest) : handler MapResponse := λ p,
  viewing (λ pl, initial_map pl p.(cp_derp).(dms_map) (build_dns_config p) node request.(mr_version)) p.

(** ** Deltas *)

Definition nonempty {A} (l : list A) : option (list A) :=
  match l with [] => None | _ => Some l end.

Definition nonempty_map {A} (m : gmap Z A) : option (gmap Z A) :=
  if bool_decide (m = ∅) then None else Some m.

(** The signals of a batch about visible nodes. *)
Definition online_signals (visible : gset Z) (batch : ChangeBatch) : gmap Z bool :=
  fold_left (λ m c, <[as_u64 c.1 := c.2]> m)
    (filter (λ c, as_u64 c.1 ∈ visible) (online_changes batch)) ∅.

Definition seen_signals (visible : gset Z) (batch : ChangeBatch) : gmap Z bool :=
  fold_left (λ m id, <[as_u64 id := true]> m)
    (filter (λ id, as_u64 id ∈ visible) (seen_nodes batch)) ∅.

Definition unless_default (r : MapResponse) : option MapResponse :=
  if bool_decide (r = MapResponse_default) then None else Some r.

(** The peers part of a delta, and what the session was sent with it. *)
Definition peers_delta (pl : Plane) (r : MapResponse) (self_node : DomainNode) (batch : ChangeBatch)
    (last_sent : SessionPeers) (version : Z) : option (SessionPeers * option MapResponse) :=
  '(last_sent, deltas) ← compute_peer_delta pl self_node last_sent version;
  if has_policy batch then
    node ← self_node_proto pl self_node version;
    Some (last_sent, Some (policy_response r deltas.(d_current) (base_packet_filters pl self_node)
                             (ssh_policy_for pl self_node) node))
  else
    Some (last_sent, unless_default
      (peers_response r (nonempty deltas.(d_removed)) (nonempty deltas.(d_changed))
         (nonempty deltas.(d_patches)) (nonempty_map (online_signals deltas.(d_visible) batch))
         (nonempty_map (seen_signals deltas.(d_visible) batch)))).

Definition build_delta (session_node_id : Z) (batch : ChangeBatch) (last_sent : SessionPeers)
    (version : Z) : handler (SessionPeers * option MapResponse) := λ p,
  let dns := if has_dns batch then build_dns_config p else None in
  let derp := if has_derp batch then Some p.(cp_derp).(dms_map) else None in
  let response := tailnet_response dns derp in
  if negb (needs_peer_rescan batch) then hret (last_sent, unless_default response) p
  else
    match get_node_by_id session_node_id p.(cp_store) with
    | None => hfail NotFound p
    | Some self_node => viewing (λ pl, peers_delta pl response self_node batch last_sent version) p
    end.

(** ** The handler *)

Definition streaming_map (amb : Ambient) (node : DomainNode) (request : MapRequest)
    (response : MapResponse) (frame : bytes) : handler MapOutcome := λ p,
  let '(p, session_id) := open_session node.(dn_id) node.(dn_ephemeral) amb.(am_unix) p in
  Some (p, Ok (MapStream frame request.(mr_keep_alive) (bool_decide (request.(mr_compress) = str "zstd"))
    session_id node.(dn_id) (from_peers (default [] response.(resp_peers))) request.(mr_version))).

(** The node with the tags a writing request asks for. *)
Definition tagged_by_request (amb : Ambient) (request : MapRequest) (read_only : bool)
    (node : DomainNode) : handler DomainNode :=
  if negb read_only && bool_decide (is_Some request.(mr_hostinfo)) then
    let! owner := node_owner_login node in
    let! (node, _) := apply_request_tags cfg stack amb node owner (requested_tags request.(mr_hostinfo)) in
    hret node
  else hret node.

(** The two changes a request announces. *)
Definition publish_observed (before node : DomainNode) : handler unit :=
  let! _ := if bool_decide (node = before) then hret () else publish_change (NodeChanged node.(dn_id)) in
  publish_change (PeerSeen node.(dn_id)).

Definition handle_map (amb : Ambient) (machine_key : bytes) (request : MapRequest)
    : handler MapOutcome :=
  if request.(mr_version) <? CapVer.MIN_SUPPORTED_CAPVER
  then hfail (UnsupportedVersion request.(mr_version))
  else if negb (length request.(mr_endpoint_types) =? length request.(mr_endpoints))%nat
  then hfail InvalidEndpointTypes
  else
    let! known := ask (get_node_by_node_key request.(mr_node_key)) in
    match known with
    | None => hfail NotFound
    | Some before =>
        if negb (bool_decide (before.(dn_machine_key) = machine_key)) then hfail NotFound
        else
          let streaming := request.(mr_stream) in
          let lite_update := negb streaming && request.(mr_omit_peers) && negb request.(mr_read_only) in
          let read_only := streaming && CapVer.streaming_read_only request.(mr_version) in
          let! node := tagged_by_request amb request read_only
                         (observed amb.(am_now) request read_only before) in
          let! _ := exec (upsert_node node) in
          let! _ := publish_observed before node in
          if lite_update then hret LiteUpdate
          else
            let compress := bool_decide (request.(mr_compress) = str "zstd") in
            let! response := build_initial_map node request in
            let! frame := of_result (encode_frame response compress) in
            if streaming then streaming_map amb node request response frame
            else hret (FullFrame frame)
    end.

End map.
