(* ===== verification/Demo.v ===== *)
(** * A concrete environment

    Instances of the classes that stand for the libraries the code calls, a
    configuration, a clock and requests: what the examples of the development
    evaluate the handlers on. *)

From S2P Require Import Prelude Text ProtoKey PolicyModel IpAlloc NetMap PreAuth Store Dns Control Registration MapRequest.

#[global] Instance demo_crypto : KeyCrypto := {|
  hex_encode := encode_hex;
  hex_decode := decode_pairs;
  blake2b512 salt secret := map (λ c, c mod 256) (salt ++ secret) |}.

#[global] Instance demo_crypto_laws : KeyCryptoLaws demo_crypto.
Proof.
  split; cbn [hex_encode hex_decode blake2b512 demo_crypto].
  - apply decode_encode_pairs.
  - apply zlen_encode_hex.
  - intros b c Hb. induction Hb as [|x l Hx _ IH]; cbn [encode_hex]; [by rewrite elem_of_nil|].
    change (0 ≤ x < 256) in Hx.
    rewrite !elem_of_cons. intros [->|[->|Hc]]; [| |by apply IH].
    + apply (range_cases 16 (λ n, is_ascii_alphanumeric (hex_digit n))); [by vm_compute|].
      rewrite Z.shiftr_div_pow2 by lia. change (2 ^ 4) with 16.
      Z.to_euclidean_division_equations. lia.
    + apply (range_cases 16 (λ n, is_ascii_alphanumeric (hex_digit n))); [by vm_compute|].
      change 15 with (Z.ones 4). rewrite Z.land_ones by lia. change (2 ^ 4) with 16.
      Z.to_euclidean_division_equations. lia.
  - intros salt secret. unfold wf_bytes. apply list.Forall_forall.
    intros x (c & -> & _)%list_elem_of_fmap. by apply Z.mod_pos_bound.
Qed.

(** Seconds in decimal. *)
#[global] Instance demo_clock : Rfc3339 := {| parse_from_rfc3339 := parse_digits |}.

(** No records file parses; a response is written as nothing. *)
#[global] Instance demo_records : RecordsJson := {| records_from_json _ := Err [] |}.
#[global] Instance demo_codec : WireCodec := {| map_to_json _ := Some []; zstd_encode b := Some b |}.

Definition demo_config : ControlConfig :=
  {| cfg_auth_key := str "hskey-auth-boot-secret"; cfg_protocol_version := 130;
     cfg_tailnet_domain := str "tailnet.example"; cfg_policy := Policy_default; cfg_user_id := 1;
     cfg_login_id := 1; cfg_user_login_name := str "owner@example.com";
     cfg_user_display_name := str "Owner"; cfg_allocator := demo_allocator;
     cfg_server_url := str "https://tailnet.example"; cfg_pending_ttl_seconds := 900;
     cfg_pending_cache_limit := 1024; cfg_reconnect_grace_seconds := 10;
     cfg_change_batch_max := 64;
     cfg_derp_map := {| dpm_regions := ∅; dpm_omit_default_regions := false |};
     cfg_dns := DnsSettings_default |}.

(** A call at second [now], with [seed] for the random generator. *)
Definition demo_ambient (now seed : Z) : Ambient :=
  {| am_now := show_uint now; am_unix := now; am_created := show_uint now;
     am_plus_seconds := λ s, show_uint (now + s); am_random := replicate 32 seed;
     am_salt := [1; 2]; am_draws4 := λ count _, seed mod count; am_draws6 := λ count _, seed mod count |}.

Definition demo_request (node_key : bytes) (auth : option text) : RegisterRequest :=
  {| rq_version := 130; rq_node_key := node_key; rq_old_node_key := []; rq_nl_key := [];
     rq_auth := auth; rq_expiry := []; rq_followup := []; rq_hostinfo := None; rq_ephemeral := false |}.

Definition demo_start : ControlPlane := ControlPlane_with_store demo_config (Err []) Store_empty.

Definition once_key : text := format_auth_key (str "once") (generate_secret (replicate 32 1)).

(** A machine asks to be registered, without a key. *)
Definition demo_asked : option (ControlPlane * RegisterResponse) :=
  register demo_config 10 (demo_ambient 100 3) [9] (demo_request [5] None) demo_start.
Definition demo_asked_p : ControlPlane := from_option fst demo_start demo_asked.
Definition demo_asked_r : RegisterResponse := from_option snd RegisterResponse_default demo_asked.
Definition demo_asked_id : text := generate_secret (replicate 32 3).

(** A client, and the tags it asks for. *)
Definition demo_hostinfo (tags : option (list text)) : Hostinfo :=
  {| hi_ipn_version := []; hi_frontend_log_id := []; hi_backend_log_id := []; hi_os := str "linux";
     hi_os_version := []; hi_container := None; hi_env := []; hi_distro := []; hi_distro_version := [];
     hi_distro_code_name := []; hi_app := []; hi_desktop := None; hi_package := []; hi_device_model := [];
     hi_push_device_token := []; hi_hostname := str "web"; hi_shields_up := false; hi_sharee_node := false;
     hi_no_logs_no_support := false; hi_wire_ingress := false; hi_ingress_enabled := false;
     hi_allows_update := false; hi_machine := []; hi_go_arch := []; hi_go_arch_var := []; hi_go_version := [];
     hi_routable_ips := None; hi_request_tags := tags; hi_wol_macs := None; hi_net_info := None;
     hi_ssh_host_keys := None; hi_cloud := []; hi_userspace := None; hi_userspace_router := None;
     hi_app_connector := None; hi_services_hash := []; hi_exit_node_id := []; hi_state_encrypted := None |}.
