(* ===== verification/Url.v ===== *)
(** * URLs of the router and of the SSH check

    Query strings and paths as [crabscale-server/src/router.rs] reads them
    ([parse_query], [percent_decode], [parse_ssh_action_path]) and as
    [crabscale-control/src/ssh.rs] writes them ([url_query_escape]).  The
    escapes work on the UTF-8 bytes of a string; [utf8_encode] and
    [from_utf8_lossy] are those of [std]. *)

From S2P Require Import Prelude Text.

(** ** UTF-8 *)

Definition scalar (c : Z) : bool :=
  ((0 <=? c) && (c <? 0xD800)) || ((0xE000 <=? c) && (c <=? 0x10FFFF)).

(** [char::encode_utf8] *)
Definition encode_char (c : Z) : bytes :=
  if c <? 0x80 then [c]
  else if c <? 0x800 then [0xC0 + c / 64; 0x80 + c mod 64]
  else if c <? 0x10000 then [0xE0 + c / 4096; 0x80 + c / 64 mod 64; 0x80 + c mod 64]
  else [0xF0 + c / 262144; 0x80 + c / 4096 mod 64; 0x80 + c / 64 mod 64; 0x80 + c mod 64].

(** [str::as_bytes] *)
Definition utf8_encode (s : text) : bytes := flat_map encode_char s.

Definition REPLACEMENT : Z := 0xFFFD.

Definition utf8_cont (b : Z) : bool := (0x80 <=? b) && (b <=? 0xBF).

(** The second bytes a three- or four-byte sequence allows after its first. *)
Definition second_of_three (b0 b1 : Z) : bool :=
  ((if b0 =? 0xE0 then 0xA0 else 0x80) <=? b1) && (b1 <=? (if b0 =? 0xED then 0x9F else 0xBF)).

Definition second_of_four (b0 b1 : Z) : bool :=
  ((if b0 =? 0xF0 then 0x90 else 0x80) <=? b1) && (b1 <=? (if b0 =? 0xF4 then 0x8F else 0xBF)).

(** [String::from_utf8_lossy]: a sequence that breaks off becomes one
    replacement character. *)
Fixpoint from_utf8_lossy (l : bytes) : text :=
  match l with
  | [] => []
  | b0 :: t0 =>
      if b0 <? 0x80 then b0 :: from_utf8_lossy t0
      else if (0xC2 <=? b0) && (b0 <=? 0xDF) then
        match t0 with
        | b1 :: t1 =>
            if utf8_cont b1 then ((b0 - 0xC0) * 64 + (b1 - 0x80)) :: from_utf8_lossy t1
            else REPLACEMENT :: from_utf8_lossy t0
        | [] => [REPLACEMENT]
        end
      else if (0xE0 <=? b0) && (b0 <=? 0xEF) then
        match t0 with
        | b1 :: t1 =>
            if second_of_three b0 b1 then
              match t1 with
              | b2 :: t2 =>
                  if utf8_cont b2
                  then ((b0 - 0xE0) * 4096 + (b1 - 0x80) * 64 + (b2 - 0x80)) :: from_utf8_lossy t2
                  else REPLACEMENT :: from_utf8_lossy t1
              | [] => [REPLACEMENT]
              end
            else REPLACEMENT :: from_utf8_lossy t0
        | [] => [REPLACEMENT]
        end
      else if (0xF0 <=? b0) && (b0 <=? 0xF4) then
        match t0 with
        | b1 :: t1 =>
            if second_of_four b0 b1 then
              match t1 with
              | b2 :: t2 =>
                  if utf8_cont b2 then
                    match t2 with
                    | b3 :: t3 =>
                        if utf8_cont b3
                        then ((b0 - 0xF0) * 262144 + (b1 - 0x80) * 4096 + (b2 - 0x80) * 64
                              + (b3 - 0x80)) :: from_utf8_lossy t3
                        else REPLACEMENT :: from_utf8_lossy t2
                    | [] => [REPLACEMENT]
                    end
                  else REPLACEMENT :: from_utf8_lossy t1
              | [] => [REPLACEMENT]
              end
            else REPLACEMENT :: from_utf8_lossy t0
        | [] => [REPLACEMENT]
        end
      else REPLACEMENT :: from_utf8_lossy t0
  end.

(** ** Escapes *)

(** [{byte:02X}] *)
Definition hex_upper (d : Z) : Z := if d <? 10 then 48 + d else 55 + d.

Definition unreserved (b : Z) : bool :=
  is_ascii_alphanumeric b || (b =? 45) || (b =? 95) || (b =? 46) || (b =? 126).

Definition escape_byte (b : Z) : text :=
  if b =? 32 then [43]
  else if unreserved b then [b]
  else [37; hex_upper (b / 16); hex_upper (b mod 16)].

Definition url_query_escape (input : text) : text := flat_map escape_byte (utf8_encode input).

Definition hex_value (b : Z) : option Z :=
  if (48 <=? b) && (b <=? 57) then Some (b - 48)
  else if (97 <=? b) && (b <=? 102) then Some (b - 97 + 10)
  else if (65 <=? b) && (b <=? 70) then Some (b - 65 + 10)
  else None.

(** The loop over the bytes. *)
Fixpoint percent_loop (l : bytes) : bytes :=
  match l with
  | [] => []
  | b :: t =>
      match (if b =? 37 then
               match t with
               | h :: l :: _ => match hex_value h, hex_value l with
                                | Some hi, Some lo => Some (Z.lor (Z.shiftl hi 4) lo)
                                | _, _ => None
                                end
               | _ => None
               end
             else None) with
      | Some v => match t with _ :: _ :: rest => v :: percent_loop rest | _ => [v] end
      | None => (if b =? 43 then 32 else b) :: percent_loop t
      end
  end.

Definition percent_decode (input : text) : text :=
  from_utf8_lossy (percent_loop (utf8_encode input)).

(** ** Queries and paths *)

(** One pair of the loop. *)
Definition add_pair (m : gmap text text) (pair : text) : gmap text text :=
  if bool_decide (pair = []) then m
  else
    let '(key, value) := match split_once 61 pair with Some kv => kv | None => (pair, []) end in
    <[percent_decode key := percent_decode value]> m.

Definition parse_query (query : text) : gmap text text := fold_left add_pair (split 38 query) ∅.

Definition parse_u64 (s : text) : option Z := parse_uint (2 ^ 64 - 1) s.

Definition parse_ssh_action_path (path : text) : option (Z * Z) :=
  let path := default path (head (split 63 path)) in
  rest ← strip_prefix (str "/machine/ssh/action/") path;
  '(src, to) ← split_once_str (str "/to/") rest;
  src ← parse_u64 src;
  dst ← parse_u64 to;
  Some (src, dst).

(** ** UTF-8 round trip *)

Lemma lossy_char c rest :
  scalar c = true → from_utf8_lossy (encode_char c ++ rest) = c :: from_utf8_lossy rest.
Proof.
  unfold scalar. intros Hc. unfold encode_char.
  destruct (Z.ltb_spec c 0x80); [|destruct (Z.ltb_spec c 0x800); [|destruct (Z.ltb_spec c 0x10000)]].
  - cbn [app from_utf8_lossy]. by rewrite (proj2 (Z.ltb_lt c 0x80)).
  - assert (0 ≤ c / 64 < 32 ∧ 2 ≤ c / 64) by (split; Z.to_euclidean_division_equations; lia).
    pose proof (Z.mod_pos_bound c 64). cbn [app from_utf8_lossy]. unfold utf8_cont.
    rewrite (proj2 (Z.ltb_ge _ 0x80)) by lia.
    replace ((0xC2 <=? _) && _) with true by (symmetry; lia).
    replace ((0x80 <=? _) && _) with true by (symmetry; lia). f_equal.
    pose proof (Z.div_mod c 64). lia.
  - assert (0 ≤ c / 4096 < 16) by (Z.to_euclidean_division_equations; lia).
    assert (Hm1 : 0 ≤ c / 64 mod 64 < 64) by (apply Z.mod_pos_bound; lia).
    assert (Hm2 : 0 ≤ c mod 64 < 64) by (apply Z.mod_pos_bound; lia).
    assert (Hval : c = c / 4096 * 4096 + c / 64 mod 64 * 64 + c mod 64).
    { clear. Z.to_euclidean_division_equations; lia. }
    cbn [app from_utf8_lossy]. unfold utf8_cont, second_of_three.
    rewrite (proj2 (Z.ltb_ge _ 0x80)) by lia.
    replace ((0xC2 <=? _) && _) with false by (symmetry; lia).
    replace ((0xE0 <=? _) && _) with true by (symmetry; lia).
    destruct (Z.eqb_spec (0xE0 + c / 4096) 0xE0), (Z.eqb_spec (0xE0 + c / 4096) 0xED); try lia.
    all: repeat match goal with |- context [if ?b then _ else _] => replace b with true by (symmetry; lia) end.
    all: f_equal; lia.
  - assert (0 ≤ c / 262144 < 5) by (Z.to_euclidean_division_equations; lia).
    assert (Hm0 : 0 ≤ c / 4096 mod 64 < 64) by (apply Z.mod_pos_bound; lia).
    assert (Hm1 : 0 ≤ c / 64 mod 64 < 64) by (apply Z.mod_pos_bound; lia).
    assert (Hm2 : 0 ≤ c mod 64 < 64) by (apply Z.mod_pos_bound; lia).
    assert (Hval : c = c / 262144 * 262144 + c / 4096 mod 64 * 4096 + c / 64 mod 64 * 64 + c mod 64).
    { clear. Z.to_euclidean_division_equations; lia. }
    cbn [app from_utf8_lossy]. unfold utf8_cont, second_of_four.
    rewrite (proj2 (Z.ltb_ge _ 0x80)) by lia.
    replace ((0xC2 <=? _) && _) with false by (symmetry; lia).
    replace ((0xE0 <=? _) && _) with false by (symmetry; lia).
    replace ((0xF0 <=? _) && _) with true by (symmetry; lia).
    destruct (Z.eqb_spec (0xF0 + c / 262144) 0xF0), (Z.eqb_spec (0xF0 + c / 262144) 0xF4); try lia.
    all: repeat match goal with |- context [if ?b then _ else _] => replace b with true by (symmetry; lia) end.
    all: f_equal; lia.
Qed.

Lemma utf8_round_trip s : forallb scalar s = true → from_utf8_lossy (utf8_encode s) = s.
Proof.
  induction s as [|c s IH]; [done|]. cbn [forallb utf8_encode flat_map].
  intros [Hc Hs]%andb_true_iff. rewrite lossy_char by done. f_equal. by apply IH.
Qed.

Lemma encode_char_bytes c : scalar c = true → Forall (λ b, 0 ≤ b < 256) (encode_char c).
Proof.
  unfold scalar, encode_char. intros Hc.
  repeat (case_match; [repeat constructor; Z.to_euclidean_division_equations; lia|]).
  repeat constructor; Z.to_euclidean_division_equations; lia.
Qed.

Lemma utf8_encode_bytes s : forallb scalar s = true → Forall (λ b, 0 ≤ b < 256) (utf8_encode s).
Proof.
  induction s as [|c s IH]; cbn [forallb utf8_encode flat_map]; [constructor|].
  intros [Hc Hs]%andb_true_iff. apply Forall_app. split; [by apply encode_char_bytes|by apply IH].
Qed.

Lemma utf8_ascii s : Forall (λ c, 0 ≤ c < 128) s → utf8_encode s = s.
Proof.
  induction 1 as [|c s Hc _ IH]; [done|]. unfold utf8_encode in *. cbn [flat_map]. rewrite IH.
  unfold encode_char. by rewrite (proj2 (Z.ltb_lt c 0x80)) by lia.
Qed.

(** ** Escape round trip *)

Lemma hex_value_upper d : 0 ≤ d < 16 → hex_value (hex_upper d) = Some d.
Proof. intros Hd. by_range d Hd 16. Qed.

Lemma nibbles b : 0 ≤ b < 256 → Z.lor (Z.shiftl (b / 16) 4) (b mod 16) = b.
Proof. intros Hb. by_range b Hb 256. Qed.

Lemma unreserved_plain b : 0 ≤ b < 256 → unreserved b = true → b ≠ 37 ∧ b ≠ 38 ∧ b ≠ 43 ∧ b ≠ 61 ∧ b ≠ 63 ∧ b < 128.
Proof.
  unfold unreserved, is_ascii_alphanumeric, is_ascii_digit. intros Hb.
  rewrite !orb_true_iff, !andb_true_iff, !Z.leb_le, !Z.eqb_eq. lia.
Qed.

Lemma escape_loop b rest :
  0 ≤ b < 256 → percent_loop (escape_byte b ++ rest) = b :: percent_loop rest.
Proof.
  intros Hb. unfold escape_byte. destruct (Z.eqb_spec b 32) as [->|H32]; [done|].
  destruct (unreserved b) eqn:Eu.
  - apply unreserved_plain in Eu as (H1 & _ & H2 & _); [|done]. cbn [app percent_loop].
    rewrite (proj2 (Z.eqb_neq b 37)), (proj2 (Z.eqb_neq b 43)) by done. done.
  - assert (0 ≤ b / 16 < 16) by (Z.to_euclidean_division_equations; lia).
    assert (0 ≤ b mod 16 < 16) by (apply Z.mod_pos_bound; lia).
    cbn [app percent_loop]. rewrite Z.eqb_refl, !hex_value_upper, nibbles by done. done.
Qed.

Lemma escape_bytes_loop bs :
  Forall (λ b, 0 ≤ b < 256) bs → percent_loop (flat_map escape_byte bs) = bs.
Proof.
  induction 1 as [|b bs Hb _ IH]; [done|]. cbn [flat_map]. by rewrite escape_loop, IH.
Qed.

(** What the escape writes: ASCII without the separators of a query. *)
Definition query_char (c : Z) : Prop := 0 ≤ c < 128 ∧ c ≠ 38 ∧ c ≠ 61 ∧ c ≠ 63.

Lemma hex_upper_char d : 0 ≤ d < 16 → query_char (hex_upper d).
Proof. unfold query_char, hex_upper. intros Hd. destruct (Z.ltb_spec d 10); lia. Qed.

Lemma escape_byte_chars b : 0 ≤ b < 256 → Forall query_char (escape_byte b).
Proof.
  intros Hb. unfold escape_byte. destruct (Z.eqb_spec b 32) as [->|H32].
  { repeat constructor; unfold query_char; lia. }
  destruct (unreserved b) eqn:Eu.
  - apply unreserved_plain in Eu; [|done]. repeat constructor; unfold query_char; lia.
  - constructor; [unfold query_char; lia|].
    repeat constructor; apply hex_upper_char; Z.to_euclidean_division_equations; lia.
Qed.

Lemma escape_chars s : forallb scalar s = true → Forall query_char (url_query_escape s).
Proof.
  intros Hs. unfold url_query_escape. pose proof (utf8_encode_bytes s Hs) as Hb. clear Hs.
  induction Hb as [|b bs Hb _ IH]; cbn [flat_map]; [constructor|].
  apply Forall_app. split; [by apply escape_byte_chars|done].
Qed.

Lemma query_chars_ascii s : Forall query_char s → Forall (λ c, 0 ≤ c < 128) s.
Proof. intros Hs. eapply list.Forall_impl; [exact Hs|]. intros c Hc. apply Hc. Qed.

Lemma escape_round_trip s :
  forallb scalar s = true → percent_decode (url_query_escape s) = s.
Proof.
  intros Hs. unfold percent_decode. rewrite utf8_ascii by by apply query_chars_ascii, escape_chars.
  unfold url_query_escape. rewrite escape_bytes_loop by by apply utf8_encode_bytes.
  by apply utf8_round_trip.
Qed.

(** A text of plain characters stands for itself. *)
Lemma plain_loop s : Forall (λ c, c ≠ 37 ∧ c ≠ 43) s → percent_loop s = s.
Proof.
  induction 1 as [|c s [H1 H2] _ IH]; [done|]. cbn [percent_loop].
  rewrite (proj2 (Z.eqb_neq c 37)), (proj2 (Z.eqb_neq c 43)) by done. by rewrite IH.
Qed.

Lemma plain_decode s :
  Forall (λ c, 0 ≤ c < 128 ∧ c ≠ 37 ∧ c ≠ 43) s → percent_decode s = s.
Proof.
  intros Hs. unfold percent_decode.
  assert (Ha : Forall (λ c, 0 ≤ c < 128) s) by (eapply list.Forall_impl; [exact Hs|]; naive_solver).
  rewrite utf8_ascii, plain_loop by (done || (eapply list.Forall_impl; [exact Hs|]; naive_solver)).
  rewrite <- (utf8_ascii s) at 1 by done. apply utf8_round_trip. apply forallb_forall. intros c Hc.
  rewrite list.Forall_forall in Ha. apply list_elem_of_In, Ha in Hc. unfold scalar. lia.
Qed.

(** ** Pieces of a query *)

Lemma query_char_notin c s : Forall query_char s → ¬ query_char c → c ∉ s.
Proof. intros Hs Hc Hin. rewrite list.Forall_forall in Hs. by apply Hc, Hs. Qed.

Lemma add_pair_eq m k v :
  k ≠ [] → Forall query_char k → add_pair m (k ++ 61 :: v) = <[percent_decode k := percent_decode v]> m.
Proof.
  intros Hne Hk. unfold add_pair. rewrite bool_decide_eq_false_2 by by destruct k.
  assert (61 ∉ k) by (apply query_char_notin; [done|unfold query_char; lia]).
  by rewrite (proj2 (split_once_spec 61 _ k v)).
Qed.

(** ** Numbers *)

Lemma digit_char_spec d : 0 ≤ d < 10 → to_digit 10 (digit_char d) = Some d.
Proof. intros Hd. by_range d Hd 10. Qed.

Lemma show_loop_digits fuel n acc vs :
  0 ≤ n < 10 ^ Z.of_nat fuel → (0 < fuel)%nat → span_digits 10 acc = (vs, []) →
  ∃ ds, span_digits 10 (show_loop fuel 10 n acc) = (ds ++ vs, [])
    ∧ ds ≠ [] ∧ fold_left (λ a d, a * 10 + d) ds 0 = n.
Proof.
  revert n acc vs. induction fuel as [|f IH]; intros n acc vs Hn Hf Hacc; [lia|]. cbn [show_loop].
  assert (Hm : 0 ≤ n mod 10 < 10) by (apply Z.mod_pos_bound; lia).
  assert (Hacc' : span_digits 10 (digit_char (n mod 10) :: acc) = (n mod 10 :: vs, [])).
  { cbn [span_digits]. by rewrite digit_char_spec, Hacc. }
  destruct (Z.ltb_spec n 10) as [Hlt|Hge].
  - exists [n mod 10]. split; [exact Hacc'|]. split; [done|]. cbn. rewrite Z.mod_small; lia.
  - rewrite Nat2Z.inj_succ, Z.pow_succ_r in Hn by lia. destruct f as [|f].
    { cbn in Hn. lia. }
    destruct (IH (n / 10) (digit_char (n mod 10) :: acc) (n mod 10 :: vs)) as (ds & Hs & Hne & Hv);
      [Z.to_euclidean_division_equations; lia|lia|done|].
    exists (ds ++ [n mod 10]). split; [by rewrite <- app_assoc|]. split; [by destruct ds|].
    rewrite fold_left_app, Hv. cbn. pose proof (Z.div_mod n 10). lia.
Qed.

Lemma show_uint_digits n :
  0 ≤ n < 2 ^ 64 → ∃ ds, span_digits 10 (show_uint n) = (ds, []) ∧ ds ≠ [] ∧ digits_value 10 ds = n.
Proof.
  intros Hn. destruct (show_loop_digits 20 n [] []) as (ds & Hs & Hne & Hv); [|lia|done|].
  { split; [lia|]. eapply Z.lt_le_trans; [apply Hn|]. by vm_compute. }
  exists ds. by rewrite app_nil_r in Hs.
Qed.

Lemma span_digits_chars s ds : span_digits 10 s = (ds, []) → Forall (λ c, 48 ≤ c < 58) s.
Proof.
  revert ds. induction s as [|c s IH]; intros ds; [constructor|]. cbn [span_digits].
  destruct (to_digit 10 c) as [d|] eqn:Ed; [|done]. destruct (span_digits 10 s) as [ds' r] eqn:E.
  intros [= _ ->]. constructor; [|by eapply IH]. unfold to_digit, is_ascii_digit in Ed.
  destruct ((48 <=? c) && (c <=? 57)) eqn:Ec; [lia|]. exfalso.
  revert Ed. repeat (case_match; try done); lia.
Qed.

Lemma show_uint_chars n : 0 ≤ n < 2 ^ 64 → Forall (λ c, 48 ≤ c < 58) (show_uint n).
Proof. intros Hn. destruct (show_uint_digits n Hn) as (ds & Hs & _). by eapply span_digits_chars. Qed.

Lemma parse_show_u64 n : 0 ≤ n < 2 ^ 64 → parse_u64 (show_uint n) = Some n.
Proof.
  intros Hn. destruct (show_uint_digits n Hn) as (ds & Hs & Hne & Hv).
  pose proof (show_uint_chars n Hn) as Hc. unfold parse_u64, parse_uint, parse_digits.
  destruct (show_uint n) as [|c s]; [by injection Hs as <-|].
  apply list.Forall_cons in Hc as [Hc _].
  assert (Hp : match c with 43 => s | _ => c :: s end = c :: s) by (repeat case_match; (done || lia)).
  rewrite Hp, Hs. destruct ds as [|d ds]; [done|]. rewrite Hv. by rewrite (proj2 (Z.leb_le _ _)) by lia.
Qed.
