(* ===== verification/SshCheck.v ===== *)
(** * SSH check mode ([crabscale-control/src/ssh.rs])

    The decision behind [GET /machine/ssh/action/{src}/to/{dst}]: an initial
    request is decided by the compiled SSH policy, a recent approval of the
    same binding, or a new record to be approved; a followup names the record
    and waits for its verdict.  The wait is a list of rounds, each with the
    clock and with what other tasks did to the plane before it; the list ends
    at the deadline.  The broadcast that wakes a round early is left out: a
    round only reads the store again. *)

From S2P Require Import Prelude ProtoFrame Text Net IpText PolicyModel PolicyTags PolicyRoutes PolicyCompile Sessions Events IpAlloc Pending NetMap PreAuth Store Dns SshPolicy Delta Control Registration MapRequest Demo Url.

Definition DEFAULT_SSH_AUTH_TTL_SECONDS : Z := 15 * 60.
Definition DEFAULT_SSH_AUTH_LIMIT : nat := 1024.

Definition verdict_is_pending (v : SshVerdict) : bool :=
  match v with SshPending => true | _ => false end.
Definition verdict_is_accepted (v : SshVerdict) : bool :=
  match v with SshAccepted _ => true | _ => false end.

Definition set_sh_verdict (v : SshVerdict) (e : SshAuth) : SshAuth :=
  {| sh_auth_id := e.(sh_auth_id); sh_src_node_id := e.(sh_src_node_id);
     sh_dst_node_id := e.(sh_dst_node_id); sh_ssh_user := e.(sh_ssh_user);
     sh_local_user := e.(sh_local_user); sh_machine_key := e.(sh_machine_key);
     sh_created_at := e.(sh_created_at); sh_expires_at := e.(sh_expires_at);
     sh_verdict := v |}.

Definition accept_action : SshAction :=
  {| sa_message := str "SSH connection accepted"; sa_reject := false; sa_accept := true;
     sa_hold_and_delegate := []; sa_allow_agent_forwarding := true;
     sa_allow_local_port_forwarding := true; sa_allow_remote_port_forwarding := true |}.

Definition reject_action (message : text) : SshAction :=
  {| sa_message := message; sa_reject := true; sa_accept := false; sa_hold_and_delegate := [];
     sa_allow_agent_forwarding := false; sa_allow_local_port_forwarding := false;
     sa_allow_remote_port_forwarding := false |}.

Definition hold_action (url : text) : SshAction :=
  {| sa_message := str "approval required"; sa_reject := false; sa_accept := false;
     sa_hold_and_delegate := url; sa_allow_agent_forwarding := true;
     sa_allow_local_port_forwarding := true; sa_allow_remote_port_forwarding := true |}.

(** The connection a request asks about. *)
Record Binding : Type := {
  b_src : Z; b_dst : Z; b_ssh_user : text; b_local_user : text }.

#[global] Instance Binding_eq_dec : EqDecision Binding.
Proof. solve_decision. Defined.

Definition binding_of (e : SshAuth) : Binding :=
  {| b_src := e.(sh_src_node_id); b_dst := e.(sh_dst_node_id); b_ssh_user := e.(sh_ssh_user);
     b_local_user := e.(sh_local_user) |}.

(** [trim_end_matches('/')] *)
Fixpoint drop_slashes (s : text) : text :=
  match s with 47 :: t => drop_slashes t | _ => s end.
Definition trim_end_slashes (s : text) : text := rev (drop_slashes (rev s)).

Section ssh.
  Context `{Q : Sqlite, C : KeyCrypto, T : Rfc3339}.
  Context (cfg : ControlConfig) (stack : nat).

Definition build_ssh_action_url (b : Binding) (auth_id : text) : text :=
  trim_end_slashes cfg.(cfg_server_url) ++ str "/machine/ssh/action/" ++ show_uint b.(b_src)
  ++ str "/to/" ++ show_uint b.(b_dst) ++ str "?auth_id=" ++ auth_id
  ++ str "&ssh_user=" ++ url_query_escape b.(b_ssh_user)
  ++ str "&local_user=" ++ url_query_escape b.(b_local_user).

(** A record that is looked up and, when expired, removed. *)
Definition live_ssh_auth (amb : Ambient) (auth_id : text) : handler (option SshAuth) :=
  let! known := ask (get_ssh_auth auth_id) in
  match known with
  | None => hret None
  | Some entry =>
      if is_past entry.(sh_expires_at) amb.(am_now) then
        let! _ := exec (delete_ssh_auth entry.(sh_auth_id)) in hret None
      else hret (Some entry)
  end.

Definition ssh_auth_info (amb : Ambient) (auth_id : text) : handler (option SshAuth) :=
  live_ssh_auth amb auth_id.

Definition decide_ssh (amb : Ambient) (auth_id : text) (v : SshVerdict) : handler unit :=
  let! known := live_ssh_auth amb auth_id in
  match known with
  | None => hfail NotFound
  | Some entry => exec (save_ssh_auth (set_sh_verdict v entry))
  end.

Definition approve_ssh (amb : Ambient) (auth_id : text) : handler unit :=
  decide_ssh amb auth_id (SshAccepted amb.(am_now)).

Definition reject_ssh (amb : Ambient) (auth_id : text) : handler unit :=
  decide_ssh amb auth_id SshRejected.

Definition control_list_ssh_auths (amb : Ambient) : handler (list SshAuth) :=
  let! entries := ask list_ssh_auths in
  hret (filter (λ e, is_past e.(sh_expires_at) amb.(am_now) = false) entries).

(** ** Recent approvals *)

(** One round of the search for the latest approval of a binding. *)
Definition latest_approval (b : Binding) (best : option (SshAuth * Z)) (entry : SshAuth)
    : option (SshAuth * Z) :=
  if negb (bool_decide (binding_of entry = b)) then best
  else
    match entry.(sh_verdict) with
    | SshAccepted last_auth_at =>
        match parse_rfc3339 last_auth_at with
        | Some last =>
            match best with
            | Some (_, best_last) => if best_last <? last then Some (entry, last) else best
            | None => Some (entry, last)
            end
        | None => best
        end
    | _ => best
    end.

(** [check_period] is a [u64] of seconds, cast to [i64]; the difference wraps
    as it does in a release build. *)
Definition window_start (now check_period : Z) : Z :=
  as_i64 (as_u64 (now - as_i64 (as_u64 check_period))).

Definition recent_ssh_acceptance (amb : Ambient) (b : Binding) (check_period : Z) : handler bool :=
  let! entries := ask list_ssh_auths in
  match fold_left (latest_approval b) entries None with
  | None => hret false
  | Some (entry, best_last) =>
      if best_last <? window_start amb.(am_unix) check_period then hret false
      else
        let! _ := exec (save_ssh_auth (set_sh_verdict (SshAccepted amb.(am_created)) entry)) in
        hret true
  end.

(** ** The bound on the records *)

(** The loop that removes expired records. *)
Fixpoint prune_expired (now : text) (entries : list SshAuth) : handler (list SshAuth) :=
  match entries with
  | [] => hret []
  | e :: rest =>
      if is_past e.(sh_expires_at) now then
        let! _ := exec (delete_ssh_auth e.(sh_auth_id)) in prune_expired now rest
      else
        let! remaining := prune_expired now rest in hret (e :: remaining)
  end.

Fixpoint delete_ssh_auths (entries : list SshAuth) : handler unit :=
  match entries with
  | [] => hret ()
  | e :: rest => let! _ := exec (delete_ssh_auth e.(sh_auth_id)) in delete_ssh_auths rest
  end.

Definition prune_ssh_auths (amb : Ambient) (limit : nat) : handler unit :=
  let! entries := ask list_ssh_auths in
  let! remaining := prune_expired amb.(am_now) entries in
  if (limit <? length remaining)%nat
  then delete_ssh_auths (take (length remaining - limit) (merge_sort created_le remaining))
  else hret ().

(** ** Requests *)

Definition new_ssh_auth (amb : Ambient) (machine_key : bytes) (b : Binding) : SshAuth :=
  {| sh_auth_id := generate_secret amb.(am_random); sh_src_node_id := b.(b_src);
     sh_dst_node_id := b.(b_dst); sh_ssh_user := b.(b_ssh_user);
     sh_local_user := b.(b_local_user); sh_machine_key := machine_key;
     sh_created_at := amb.(am_created);
     sh_expires_at := amb.(am_plus_seconds) DEFAULT_SSH_AUTH_TTL_SECONDS;
     sh_verdict := SshPending |}.

Definition hold_ssh (amb : Ambient) (machine_key : bytes) (b : Binding) : handler SshAction :=
  let! _ := prune_ssh_auths amb DEFAULT_SSH_AUTH_LIMIT in
  let entry := new_ssh_auth amb machine_key b in
  let! _ := exec (save_ssh_auth entry) in
  hret (hold_action (build_ssh_action_url b entry.(sh_auth_id))).

Definition ssh_rule_for (pl : Plane) (b : Binding) : option CompiledSshRule :=
  first_matching_ssh_rule (compile_ssh_policy pl.(pl_policy) (compile_nodes pl))
    b.(b_src) b.(b_dst) b.(b_ssh_user).

Definition respond_ssh_initial (amb : Ambient) (machine_key : bytes) (b : Binding)
    : handler SshAction := λ p,
  match ssh_rule_for (plane_view cfg stack p) b with
  | None => hret (reject_action (str "no SSH rule permits this connection")) p
  | Some rule =>
      match rule.(cr_action) with
      | SshAccept => hret accept_action p
      | SshCheck check_period =>
          (let! recent := recent_ssh_acceptance amb b check_period in
           if recent then hret accept_action else hold_ssh amb machine_key b) p
      end
  end.

(** One round of the wait; [None] is a pending verdict. *)
Definition poll_ssh_verdict (now auth_id : text) : handler (option SshVerdict) :=
  let! known := ask (get_ssh_auth auth_id) in
  match known with
  | None => hfail NotFound
  | Some entry =>
      if is_past entry.(sh_expires_at) now then
        let! _ := exec (delete_ssh_auth auth_id) in hfail NotFound
      else hret (if verdict_is_pending entry.(sh_verdict) then None else Some entry.(sh_verdict))
  end.

Fixpoint wait_ssh_verdict (auth_id : text) (rounds : list (text * (ControlPlane → ControlPlane)))
    : handler SshVerdict :=
  match rounds with
  | [] => hfail TimedOut
  | (now, others) :: rest =>
      let! _ := modify others in
      let! verdict := poll_ssh_verdict now auth_id in
      match verdict with Some v => hret v | None => wait_ssh_verdict auth_id rest end
  end.

Definition verdict_action (v : SshVerdict) : result SshAction ControlError :=
  match v with
  | SshAccepted _ => Ok accept_action
  | SshRejected => Ok (reject_action (str "SSH request rejected"))
  | SshPending => Err TimedOut
  end.

Definition respond_ssh_followup (amb : Ambient) (machine_key : bytes) (b : Binding) (auth_id : text)
    (rounds : list (text * (ControlPlane → ControlPlane))) : handler SshAction :=
  let! known := live_ssh_auth amb auth_id in
  match known with
  | None => hfail NotFound
  | Some entry =>
      if negb (bool_decide (binding_of entry = b))
         || negb (bool_decide (entry.(sh_machine_key) = machine_key))
      then hfail (SshBinding auth_id)
      else
        match entry.(sh_verdict) with
        | SshPending => let! v := wait_ssh_verdict auth_id rounds in of_result (verdict_action v)
        | v => of_result (verdict_action v)
        end
  end.

Definition handle_ssh_action (amb : Ambient) (machine_key : bytes) (b : Binding)
    (auth_id : option text) (rounds : list (text * (ControlPlane → ControlPlane)))
    : handler SshAction :=
  let! dst := ask (get_node_by_id (as_i64 b.(b_dst))) in
  match dst with
  | None => hfail NotFound
  | Some dst =>
      if negb (bool_decide (dst.(dn_machine_key) = machine_key)) then hfail Unauthorized
      else
        let! src := ask (get_node_by_id (as_i64 b.(b_src))) in
        match src with
        | None => hfail NotFound
        | Some _ =>
            match auth_id with
            | Some auth_id => respond_ssh_followup amb machine_key b auth_id rounds
            | None => respond_ssh_initial amb machine_key b
            end
        end
  end.

End ssh.

(** ** The table of records *)

Definition recorded (s : Store) (e : SshAuth) : Prop := ∃ i, s.(st_ssh) !! i = Some e.

Definition ssh_unique (s : Store) : Prop := unique_on sh_auth_id s.(st_ssh).

Section table.
  Context `{Q : Sqlite, !SqliteLaws Q}.

Lemma elem_of_list_ssh s e : e ∈ list_ssh_auths s ↔ recorded s e.
Proof.
  unfold list_ssh_auths. rewrite (merge_sort_Permutation created_le). apply elem_of_rows.
Qed.

Lemma get_ssh_spec s a e :
  ssh_unique s → get_ssh_auth a s = Some e ↔ recorded s e ∧ e.(sh_auth_id) = a.
Proof.
  intros Hu. unfold get_ssh_auth, by_ssh_id. rewrite (unique_query_row sh_auth_id) by done.
  unfold recorded. naive_solver.
Qed.

Lemma ssh_unique_eq s e e' :
  ssh_unique s → recorded s e → recorded s e' → e.(sh_auth_id) = e'.(sh_auth_id) → e = e'.
Proof.
  intros Hu [i Hi] [j Hj] E. assert (i = j) as -> by by apply (Hu i j e e'). congruence.
Qed.

Lemma recorded_delete a s e :
  ssh_unique s → recorded (delete_ssh_auth a s).1 e ↔ recorded s e ∧ e.(sh_auth_id) ≠ a.
Proof.
  intros Hu. unfold delete_ssh_auth. destruct (row_id _ _) as [i|] eqn:Hi; unfold recorded; cbn [fst].
  - apply (unique_row_id sh_auth_id) in Hi as (r & Hr & Ha); [|done]. cbn [with_ssh st_ssh]. split.
    + intros [j [Hj He]%lookup_delete_Some]. split; [by exists j|]. intros E. apply Hj.
      apply (Hu i j r e); congruence.
    + intros [[j Hj] Hne]. exists j. apply lookup_delete_Some. split; [|done]. intros ->. congruence.
  - split; [|by intros [? _]]. intros [j Hj]. split; [by exists j|]. intros E.
    apply (proj1 (row_id_None _ _) Hi) in Hj. unfold by_ssh_id in Hj. by rewrite bool_decide_eq_true_2 in Hj.
Qed.

Lemma ssh_unique_delete a s : ssh_unique s → ssh_unique (delete_ssh_auth a s).1.
Proof.
  intros Hu. unfold delete_ssh_auth. destruct (row_id _ _); [|done]. by apply unique_on_delete.
Qed.

Lemma recorded_save r s s' x :
  ssh_unique s → save_ssh_auth r s = (s', x) →
  (x = Ok () ∧ ssh_unique s' ∧
   ∀ e, recorded s' e ↔ e = r ∨ recorded s e ∧ e.(sh_auth_id) ≠ r.(sh_auth_id))
  ∨ (∃ err, x = Err err ∧ s' = s).
Proof.
  intros Hu. unfold save_ssh_auth. destruct (row_id _ _) as [i|] eqn:Hi.
  - intros [= <- <-]. left. split; [done|]. unfold ssh_unique, recorded. cbn [with_ssh st_ssh].
    apply (unique_row_id sh_auth_id) in Hi as (r' & Hr & Ha); [|done].
    split; [apply unique_on_insert; [done|]; intros j b Hj Hb E; apply Hj, (Hu i j r' b); congruence|].
    intros e. split.
    + intros [j [[<- <-]|[Hj He]]%lookup_insert_Some]; [by left|]. right. split; [by exists j|].
      intros E. apply Hj, (Hu i j r' e); congruence.
    + intros [->|[[j He] Hne]]; [exists i; by rewrite lookup_insert_eq|]. exists j.
      rewrite lookup_insert_ne; [done|]. intros ->. congruence.
  - pose proof (proj1 (row_id_None _ _) Hi) as Hno. unfold by_ssh_id in Hno.
    destruct (insert_row _ _ _) as [[i t]|err] eqn:Hins; [|intros [= <- <-]; right; by eexists].
    apply insert_row_Ok in Hins as [Hfree ->]. intros [= <- <-]. left. split; [done|].
    unfold ssh_unique, recorded. cbn [with_rowid with_ssh st_ssh].
    assert (Hne : ∀ j b, s.(st_ssh) !! j = Some b → b.(sh_auth_id) ≠ r.(sh_auth_id)).
    { intros j b Hb. specialize (Hno j b Hb). by apply bool_decide_eq_false in Hno. }
    split; [apply unique_on_insert; [done|]; intros j b _ Hb; by apply (Hne j)|].
    intros e. split.
    + intros [j [[<- <-]|[_ He]]%lookup_insert_Some]; [by left|]. right. split; [by exists j|by apply (Hne j)].
    + intros [->|[[j He] _]]; [exists i; by rewrite lookup_insert_eq|]. exists j.
      rewrite lookup_insert_ne; [done|]. intros ->. congruence.
Qed.

Lemma NoDup_ssh_rows s : ssh_unique s → NoDup (rows s.(st_ssh)).
Proof.
  intros Hu. unfold rows. generalize (NoDup_sorted_keys s.(st_ssh)).
  induction (sorted_keys s.(st_ssh)) as [|i l IH]; intros Hnd; cbn [omap list_omap]; [constructor|].
  apply list.NoDup_cons in Hnd as [Hi Hnd]. destruct (st_ssh s !! i) as [e|] eqn:He; [|by apply IH].
  apply list.NoDup_cons. split; [|by apply IH]. intros (j & Hj & Hje)%list_elem_of_omap.
  apply Hi. by rewrite (Hu i j e e).
Qed.

(** Removing a list of records. *)
Definition drop_ssh (es : list SshAuth) (s : Store) : Store :=
  fold_left (λ s e, (delete_ssh_auth e.(sh_auth_id) s).1) es s.

Lemma ssh_unique_drop es s : ssh_unique s → ssh_unique (drop_ssh es s).
Proof.
  revert s. induction es as [|d es IH]; intros s Hu; [done|]. unfold drop_ssh in *. cbn [fold_left].
  by apply IH, ssh_unique_delete.
Qed.

Lemma recorded_drop es s e :
  ssh_unique s →
  recorded (drop_ssh es s) e ↔ recorded s e ∧ ∀ d, d ∈ es → d.(sh_auth_id) ≠ e.(sh_auth_id).
Proof.
  revert s. induction es as [|d es IH]; intros s Hu; unfold drop_ssh in *; cbn [fold_left].
  { split; [intros ?; split; [done|]; by intros d Hd%elem_of_nil|tauto]. }
  rewrite IH, recorded_delete by (done || by apply ssh_unique_delete). split.
  - intros [[Hr Hne] Hall]. split; [done|]. intros d' [->|Hd]%elem_of_cons; [congruence|by apply Hall].
  - intros [Hr Hall]. split; [split; [done|]; intros E; apply (Hall d); [by left|done]|].
    intros d' Hd. apply Hall. by right.
Qed.

Lemma exec_delete_ssh a p :
  exec (delete_ssh_auth a) p = Some (set_store (delete_ssh_auth a p.(cp_store)).1 p, Ok ()).
Proof. unfold exec, delete_ssh_auth. by destruct (row_id _ _). Qed.

Lemma set_store_id p : set_store p.(cp_store) p = p.
Proof. by destruct p. Qed.

Lemma delete_ssh_auths_run es p :
  delete_ssh_auths es p = Some (set_store (drop_ssh es p.(cp_store)) p, Ok ()).
Proof.
  revert p. induction es as [|e es IH]; intros p; cbn [delete_ssh_auths].
  { unfold hret, drop_ssh. cbn [fold_left]. by rewrite set_store_id. }
  unfold hbind. rewrite exec_delete_ssh, IH. done.
Qed.

Context `{T : Rfc3339}.

Definition live (now : text) (e : SshAuth) : Prop := is_past e.(sh_expires_at) now = false.

#[global] Instance live_dec now e : Decision (live now e).
Proof. unfold live. apply _. Defined.

Lemma prune_expired_run now es p :
  prune_expired now es p
  = Some (set_store (drop_ssh (filter (λ e, ¬ live now e) es) p.(cp_store)) p,
          Ok (filter (live now) es)).
Proof.
  revert p. induction es as [|e es IH]; intros p; cbn [prune_expired].
  { unfold hret, drop_ssh. cbn [filter list_filter fold_left]. by rewrite set_store_id. }
  rewrite !filter_cons. destruct (is_past (sh_expires_at e) now) eqn:Hp.
  - rewrite (decide_True (P := ¬ live now e)), (decide_False (P := live now e))
      by (unfold live; congruence).
    unfold hbind. rewrite exec_delete_ssh, IH. done.
  - rewrite (decide_False (P := ¬ live now e)), (decide_True (P := live now e))
      by (unfold live; congruence).
    unfold hbind. rewrite IH. done.
Qed.

(** The records that stay: the newest [limit] of those that are not expired. *)
Definition kept_ssh (now : text) (limit : nat) (s : Store) : list SshAuth :=
  let live := filter (live now) (list_ssh_auths s) in
  if (limit <? length live)%nat then drop (length live - limit) (merge_sort created_le live) else live.

Lemma prune_run amb limit p :
  ssh_unique p.(cp_store) →
  ∃ s', prune_ssh_auths amb limit p = Some (set_store s' p, Ok ())
    ∧ ssh_unique s' ∧ (∀ e, recorded s' e ↔ e ∈ kept_ssh amb.(am_now) limit p.(cp_store)).
Proof.
  intros Hu. unfold prune_ssh_auths, hbind, ask. rewrite prune_expired_run. unfold kept_ssh.
  set (s := cp_store p). set (now := am_now amb). set (alive := filter (live now) (list_ssh_auths s)).
  set (s1 := drop_ssh (filter (λ e, ¬ live now e) (list_ssh_auths s)) s).
  assert (Hs1 : ssh_unique s1 ∧ ∀ e, recorded s1 e ↔ e ∈ alive).
  { split; [by apply ssh_unique_drop|].
    intros e. unfold s1. rewrite recorded_drop by done. unfold alive.
    rewrite list_elem_of_filter, elem_of_list_ssh. split.
    - intros [Hr Hall]. split; [|done]. destruct (decide (live now e)) as [Hl|Hl]; [done|]. exfalso.
      apply (Hall e); [|done]. apply list_elem_of_filter. by rewrite elem_of_list_ssh.
    - intros [Hl Hr]. split; [done|]. intros d [Hd Hin]%list_elem_of_filter E.
      apply elem_of_list_ssh in Hin. by rewrite (ssh_unique_eq s d e Hu Hin Hr E) in Hd. }
  destruct Hs1 as [Hu1 Hr1]. destruct (Nat.ltb_spec limit (length alive)) as [Hlt|Hge].
  2: { exists s1. done. }
  rewrite delete_ssh_auths_run. cbn [set_store cp_store].
  set (n := (length alive - limit)%nat). set (sorted := merge_sort created_le alive).
  exists (drop_ssh (take n sorted) s1). split; [done|].
  split; [by apply ssh_unique_drop|].
  assert (Hnd : NoDup sorted).
  { unfold sorted, alive, list_ssh_auths. rewrite (merge_sort_Permutation created_le).
    apply list.NoDup_filter. rewrite (merge_sort_Permutation created_le). by apply NoDup_ssh_rows. }
  intros e. rewrite recorded_drop, Hr1 by done.
  assert (Hin : e ∈ alive ↔ e ∈ take n sorted ∨ e ∈ drop n sorted).
  { rewrite <- elem_of_app, take_drop. unfold sorted. by rewrite (merge_sort_Permutation created_le). }
  rewrite Hin. rewrite <- (take_drop n sorted) in Hnd. apply list.NoDup_app in Hnd as (_ & Hd & _).
  split.
  - intros [[Ht|Ht] Hall]; [|done]. by destruct (Hall e Ht).
  - intros Ht. split; [by right|]. intros d Hdt E.
    assert (Hda : d ∈ alive).
    { assert (d ∈ sorted) by (rewrite <- (take_drop n sorted); apply elem_of_app; by left).
      unfold sorted in *. by rewrite (merge_sort_Permutation created_le) in H. }
    assert (d = e) as ->; [|by apply (Hd e)].
    apply (ssh_unique_eq s1); [done|by apply Hr1| |done]. apply Hr1, Hin. by right.
Qed.

End table.

Lemma length_kept now limit `{T : Rfc3339} s : (length (kept_ssh now limit s) ≤ limit)%nat.
Proof.
  unfold kept_ssh. set (l := filter _ _). destruct (Nat.ltb_spec limit (length l)); [|lia].
  rewrite length_drop, (merge_sort_Permutation created_le). lia.
Qed.

Lemma elem_of_kept now limit `{T : Rfc3339} s e :
  e ∈ kept_ssh now limit s → recorded s e ∧ live now e.
Proof.
  intros He. assert (Hin : e ∈ filter (live now) (list_ssh_auths s)).
  { unfold kept_ssh in He. destruct (_ <? _)%nat; [|done].
    assert (Hs : e ∈ merge_sort created_le (filter (live now) (list_ssh_auths s)))
      by (rewrite <- (take_drop (length (filter (live now) (list_ssh_auths s)) - limit)); apply elem_of_app; by right).
    by rewrite (merge_sort_Permutation created_le) in Hs. }
  apply list_elem_of_filter in Hin as [Hl Hin]. by rewrite elem_of_list_ssh in Hin.
Qed.

(** ** The latest approval of a binding *)

Section approvals.
  Context `{Q : Sqlite, !SqliteLaws Q, T : Rfc3339}.

(** An approval of [b] at the time [last]. *)
Definition approval (b : Binding) (e : SshAuth) (last : Z) : Prop :=
  binding_of e = b ∧ ∃ t, e.(sh_verdict) = SshAccepted t ∧ parse_rfc3339 t = Some last.

Lemma latest_step b best e :
  (∃ last, approval b e last
     ∧ latest_approval b best e
       = match best with
         | Some (_, l0) => if l0 <? last then Some (e, last) else best
         | None => Some (e, last)
         end)
  ∨ (latest_approval b best e = best ∧ ∀ last, ¬ approval b e last).
Proof.
  unfold latest_approval, approval. case_bool_decide as Hb; cbn [negb].
  2: { right. split; [done|]. by intros ? [? _]. }
  destruct (sh_verdict e) as [|t|] eqn:Hv.
  1, 3: right; split; [done|]; by intros ? (_ & ? & ? & _).
  destruct (parse_rfc3339 t) as [last|] eqn:Hp.
  - left. exists last. split; [|by destruct best as [[? ?]|]]. split; [done|]. by exists t.
  - right. split; [done|]. intros last (_ & t' & [= <-] & Hl). congruence.
Qed.

Lemma latest_spec b es best :
  (∀ e last, best = Some (e, last) → approval b e last) →
  match fold_left (latest_approval b) es best with
  | Some (e, last) =>
      approval b e last ∧ (e ∈ es ∨ best = Some (e, last))
      ∧ (∀ e' last', e' ∈ es → approval b e' last' → last' ≤ last)
      ∧ ∀ e' last', best = Some (e', last') → last' ≤ last
  | None => best = None ∧ ∀ e' last', e' ∈ es → ¬ approval b e' last'
  end.
Proof.
  revert best. induction es as [|e es IH]; intros best Hbest; cbn [fold_left].
  { destruct best as [[e last]|].
    - split; [by apply Hbest|]. split; [by right|]. split; [by intros e' l' H%elem_of_nil|].
      intros e' l' [= -> ->]. lia.
    - split; [done|]. by intros e' l' H%elem_of_nil. }
  destruct (latest_step b best e) as [(last & Ha & Hstep)|[Hstep Hno]].
  - assert (Hb' : ∀ e0 l0, latest_approval b best e = Some (e0, l0) → approval b e0 l0).
    { intros e0 l0. rewrite Hstep. destruct best as [[e1 l1]|]; [|by intros [= <- <-]].
      destruct (l1 <? last); [by intros [= <- <-]|apply Hbest]. }
    specialize (IH _ Hb'). destruct (fold_left _ es _) as [[ef lf]|].
    + destruct IH as (H1 & H2 & H3 & H4). split; [done|].
      assert (Hlast : last ≤ lf ∧ ∀ e' l', best = Some (e', l') → l' ≤ lf).
      { destruct best as [[e1 l1]|].
        - destruct (Z.ltb_spec l1 last); [specialize (H4 e last Hstep)|specialize (H4 e1 l1 Hstep)];
            split; try lia; intros e' l' [= <- <-]; lia.
        - specialize (H4 e last Hstep). split; [done|]. done. }
      split; [|split; [|apply Hlast]].
      * destruct H2 as [H2|H2]; [left; by right|]. rewrite Hstep in H2.
        destruct best as [[e1 l1]|]; [|injection H2 as <- <-; left; by left].
        destruct (l1 <? last); [injection H2 as <- <-; left; by left|by right].
      * intros e' l' [->|He]%elem_of_cons Ha'; [|by apply (H3 e' l')].
        destruct Ha as (_ & t & Hv & Hp), Ha' as (_ & t' & Hv' & Hp').
        assert (l' = last) as -> by congruence. apply Hlast.
    + exfalso. destruct IH as [IH _]. rewrite Hstep in IH.
      destruct best as [[e1 l1]|]; [|done]. by destruct (l1 <? last).
  - rewrite Hstep. specialize (IH _ Hbest). destruct (fold_left _ es best) as [[ef lf]|].
    + destruct IH as (H1 & H2 & H3 & H4). split; [done|]. split; [destruct H2; [left; by right|by right]|].
      split; [|done]. intros e' l' [->|He]%elem_of_cons Ha'; [by destruct (Hno l')|by apply (H3 e' l')].
    + destruct IH as [H1 H2]. split; [done|].
      intros e' l' [->|He]%elem_of_cons; [apply Hno|by apply H2].
Qed.

Lemma recent_run amb b period p :
  ssh_unique p.(cp_store) →
  (∃ e last, recorded p.(cp_store) e ∧ approval b e last ∧ window_start amb.(am_unix) period ≤ last
     ∧ ∃ s', recent_ssh_acceptance amb b period p = Some (set_store s' p, Ok true))
  ∨ (∀ e last, recorded p.(cp_store) e → approval b e last → last < window_start amb.(am_unix) period)
     ∧ recent_ssh_acceptance amb b period p = Some (p, Ok false).
Proof.
  intros Hu. unfold recent_ssh_acceptance, hbind, ask.
  pose proof (latest_spec b (list_ssh_auths (cp_store p)) None) as Hs. specialize (Hs ltac:(done)).
  destruct (fold_left _ _ _) as [[e last]|].
  - destruct Hs as (Ha & [He|He] & Hmax & _); [|done]. rewrite elem_of_list_ssh in He.
    destruct (Z.ltb_spec last (window_start (am_unix amb) period)).
    + right. split; [|done]. intros e' l' He' Ha'. specialize (Hmax e' l'). rewrite elem_of_list_ssh in Hmax.
      specialize (Hmax He' Ha'). lia.
    + left. exists e, last. split; [done|]. split; [done|]. split; [done|]. unfold exec.
      destruct (save_ssh_auth _ (cp_store p)) as [s' x] eqn:Hsave.
      destruct (recorded_save _ _ _ _ Hu Hsave) as [(-> & _)|(err & -> & _)]; [by exists s'|].
      exfalso. destruct He as [i Hi]. unfold save_ssh_auth in Hsave.
      destruct (row_id _ (st_ssh (cp_store p))) eqn:Hrow; [done|].
      apply (proj1 (row_id_None _ _) Hrow) in Hi. unfold by_ssh_id in Hi.
      by rewrite bool_decide_eq_true_2 in Hi.
  - right. destruct Hs as [_ Hs]. split; [|done]. intros e last He Ha. exfalso.
    apply (Hs e last); [by apply elem_of_list_ssh|done].
Qed.

End approvals.

(** ** Who is accepted *)

Section decisions.
  Context `{Q : Sqlite, !SqliteLaws Q, C : KeyCrypto, T : Rfc3339}.
  Context (cfg : ControlConfig) (stack : nat).

Lemma live_ssh_run amb a p :
  (∃ e, get_ssh_auth a p.(cp_store) = Some e ∧ live amb.(am_now) e
     ∧ live_ssh_auth amb a p = Some (p, Ok (Some e)))
  ∨ (∀ e, get_ssh_auth a p.(cp_store) = Some e → ¬ live amb.(am_now) e)
     ∧ ∃ p', live_ssh_auth amb a p = Some (p', Ok None).
Proof.
  unfold live_ssh_auth, hbind, ask, live. destruct (get_ssh_auth a (cp_store p)) as [e|].
  - destruct (is_past (sh_expires_at e) (am_now amb)) eqn:Hp.
    + right. split; [intros e' [= <-]; congruence|]. rewrite exec_delete_ssh. by eexists.
    + left. by exists e.
  - right. split; [done|]. by exists p.
Qed.

Lemma poll_accepted now a p p' v :
  poll_ssh_verdict now a p = Some (p', Ok (Some v)) →
  p' = p ∧ ∃ e, get_ssh_auth a p.(cp_store) = Some e ∧ e.(sh_verdict) = v.
Proof.
  unfold poll_ssh_verdict, hbind, ask. destruct (get_ssh_auth a (cp_store p)) as [e|]; [|done].
  destruct (is_past _ _); [by rewrite exec_delete_ssh|].
  destruct (verdict_is_pending _); intros [= <- <-]. split; [done|by exists e].
Qed.

Lemma wait_accepted a rounds p p' v :
  wait_ssh_verdict a rounds p = Some (p', Ok v) →
  ∃ e, get_ssh_auth a p'.(cp_store) = Some e ∧ e.(sh_verdict) = v.
Proof.
  revert p. induction rounds as [|[now others] rounds IH]; intros p; cbn [wait_ssh_verdict]; [done|].
  unfold hbind at 1, modify. unfold hbind.
  destruct (poll_ssh_verdict now a (others p)) as [[p1 [[w|]|err]]|] eqn:Hp; [| |done..].
  - intros [= <- <-]. apply poll_accepted in Hp as [-> Hp]. done.
  - apply IH.
Qed.

Lemma hold_not_accepted amb m b p p' a :
  hold_ssh cfg amb m b p = Some (p', Ok a) → a.(sa_accept) = false.
Proof.
  unfold hold_ssh, hbind at 1. destruct (prune_ssh_auths _ _ p) as [[p1 [[]|err]]|]; [|done..].
  unfold hbind, exec. destruct (save_ssh_auth _ _) as [s [[]|err]]; [|done]. by intros [= _ <-].
Qed.

(** C8. An SSH connection is accepted only for the machine of its destination, and
    only on a rule that accepts it, a recent approval of the same connection,
    or an approved record made for the same connection and machine. *)
Theorem ssh_accept_sound amb m b auth rounds p p' a :
  ssh_unique p.(cp_store) →
  handle_ssh_action cfg stack amb m b auth rounds p = Some (p', Ok a) → a.(sa_accept) = true →
  (∃ dst, get_node_by_id (as_i64 b.(b_dst)) p.(cp_store) = Some dst ∧ dst.(dn_machine_key) = m)
  ∧ is_Some (get_node_by_id (as_i64 b.(b_src)) p.(cp_store))
  ∧ match auth with
    | None =>
        ∃ rule, ssh_rule_for (plane_view cfg stack p) b = Some rule
          ∧ (rule.(cr_action) = SshAccept
             ∨ ∃ period e last, rule.(cr_action) = SshCheck period ∧ recorded p.(cp_store) e
                 ∧ approval b e last ∧ window_start amb.(am_unix) period ≤ last)
    | Some id =>
        (∃ e, get_ssh_auth id p.(cp_store) = Some e ∧ binding_of e = b ∧ e.(sh_machine_key) = m
              ∧ live amb.(am_now) e)
        ∧ ∃ e t, get_ssh_auth id p'.(cp_store) = Some e ∧ e.(sh_verdict) = SshAccepted t
    end.
Proof.
  intros Hu. unfold handle_ssh_action, hbind at 1, ask.
  destruct (get_node_by_id _ (cp_store p)) as [dst|] eqn:Hd; [|done].
  case_bool_decide as Hm; cbn [negb]; [|done]. unfold hbind at 1.
  destruct (get_node_by_id (as_i64 (b_src b)) (cp_store p)) as [src|] eqn:Hsrc; [|done].
  intros Hrun Hacc. split; [by exists dst|]. split; [done|]. destruct auth as [id|].
  - unfold respond_ssh_followup, hbind at 1 in Hrun.
    destruct (live_ssh_run amb id p) as [(e & He & Hl & Hlive)|(_ & p1 & Hlive)]; rewrite Hlive in Hrun; [|done].
    destruct (negb (bool_decide (binding_of e = b)) || _) eqn:Hb; [done|].
    apply orb_false_iff in Hb as [Hb1%negb_false_iff%bool_decide_eq_true Hb2%negb_false_iff%bool_decide_eq_true].
    split; [by exists e|].
    assert (Hv : ∀ v, verdict_action v = Ok a → ∃ t, v = SshAccepted t).
    { intros [|t|]; [done|by exists t|]. intros [= <-]. done. }
    destruct (sh_verdict e) as [|t|] eqn:Hve.
    + unfold hbind in Hrun. destruct (wait_ssh_verdict id rounds p) as [[p1 [v|err]]|] eqn:Hw; [|done..].
      apply wait_accepted in Hw as (e' & He' & Hv'). unfold of_result in Hrun. injection Hrun as <- Hva.
      destruct (Hv v Hva) as [t ->]. by exists e', t.
    + injection Hrun as <- _. by exists e, t.
    + injection Hrun as _ <-. done.
  - unfold respond_ssh_initial in Hrun. destruct (ssh_rule_for _ b) as [rule|]; [|by injection Hrun as _ <-].
    exists rule. split; [done|]. destruct (cr_action rule) as [|period]; [by left|]. right.
    unfold hbind in Hrun.
    destruct (recent_run amb b period p Hu) as [(e & last & H1 & H2 & H3 & s' & Hr)|[_ Hr]]; rewrite Hr in Hrun.
    + by exists period, e, last.
    + apply hold_not_accepted in Hrun. congruence.
Qed.

(** ** What an approval does *)

Lemma approve_ssh_run amb id e p :
  ssh_unique p.(cp_store) → get_ssh_auth id p.(cp_store) = Some e → live amb.(am_now) e →
  ∃ s', approve_ssh amb id p = Some (set_store s' p, Ok ())
    ∧ ssh_unique s' ∧ s'.(st_nodes) = p.(cp_store).(st_nodes) ∧ s'.(st_users) = p.(cp_store).(st_users)
    ∧ get_ssh_auth id s' = Some (set_sh_verdict (SshAccepted amb.(am_now)) e).
Proof.
  intros Hu He Hl. unfold approve_ssh, decide_ssh, live_ssh_auth, hbind, ask. rewrite He, Hl. unfold hret, exec.
  apply get_ssh_spec in He as [He Hid]; [|done]. set (e' := set_sh_verdict _ e).
  destruct (save_ssh_auth e' (cp_store p)) as [s' x] eqn:Hsave.
  assert (Hsame : x = Ok () ∧ s'.(st_nodes) = p.(cp_store).(st_nodes) ∧ s'.(st_users) = p.(cp_store).(st_users)).
  { destruct He as [i Hi]. unfold save_ssh_auth in Hsave.
    destruct (row_id _ _) eqn:Hrow; [by injection Hsave as <- <-|].
    apply (proj1 (row_id_None _ _) Hrow) in Hi. unfold by_ssh_id in Hi.
    by rewrite bool_decide_eq_true_2 in Hi. }
  destruct Hsame as (-> & Hn & Hus).
  destruct (recorded_save _ _ _ _ Hu Hsave) as [(_ & Hu' & Hr)|(err & [=] & _)].
  exists s'. split; [done|]. split; [done|]. split; [done|]. split; [done|].
  apply get_ssh_spec; [done|]. split; [apply Hr; by left|done].
Qed.


(** ** Approvals are forgotten *)

Lemma hold_run amb m b p p' r :
  ssh_unique p.(cp_store) → hold_ssh cfg amb m b p = Some (p', r) →
  ∃ s, p' = set_store s p ∧ ssh_unique s
    ∧ ∀ e, recorded s e → e = new_ssh_auth amb m b ∨ e ∈ kept_ssh amb.(am_now) DEFAULT_SSH_AUTH_LIMIT p.(cp_store).
Proof.
  intros Hu. unfold hold_ssh, hbind at 1.
  destruct (prune_run amb DEFAULT_SSH_AUTH_LIMIT p Hu) as (s1 & -> & Hu1 & Hk). unfold hbind, exec.
  cbn [set_store cp_store]. destruct (save_ssh_auth _ s1) as [s x] eqn:Hsave.
  destruct (recorded_save _ _ _ _ Hu1 Hsave) as [(-> & Hus & Hr)|(err & -> & ->)]; intros [= <- <-].
  - exists s. split; [done|]. split; [done|]. intros e [->|[He _]]%Hr; [by left|]. right. by apply Hk.
  - exists s1. split; [done|]. split; [done|]. intros e He. right. by apply Hk.
Qed.

(** The records are bounded by the expiry of the request, not by the period of
    the approval: a held request for another connection removes every approval
    whose request has expired, and the next request must be approved again,
    however long its check period. *)
Theorem check_period_cut_short amb m b b0 p p' r :
  ssh_unique p.(cp_store) → b ≠ b0 →
  (∀ e, recorded p.(cp_store) e → binding_of e = b0 → ¬ live amb.(am_now) e) →
  hold_ssh cfg amb m b p = Some (p', r) →
  ∀ amb' period, recent_ssh_acceptance amb' b0 period p' = Some (p', Ok false).
Proof.
  intros Hu Hb Hold Hrun amb' period. destruct (hold_run _ _ _ _ _ _ Hu Hrun) as (s & -> & Hus & Hs).
  destruct (recent_run amb' b0 period (set_store s p) Hus) as [(e & last & He & [Hbe _] & _)|[_ Hr]]; [|exact Hr].
  exfalso. apply Hs in He as [->|He].
  - apply Hb. rewrite <- Hbe. by destruct b.
  - apply elem_of_kept in He as [Hin Hl]. by apply (Hold e Hin Hbe).
Qed.

(** A held request leaves at most one record more than the limit it prunes to,
    however many there were, and none that had expired. *)
Theorem held_records_bounded amb m b p p' r :
  ssh_unique p.(cp_store) → hold_ssh cfg amb m b p = Some (p', r) →
  (length (list_ssh_auths p'.(cp_store)) ≤ S DEFAULT_SSH_AUTH_LIMIT)%nat
  ∧ ∀ e, recorded p'.(cp_store) e →
      e = new_ssh_auth amb m b ∨ recorded p.(cp_store) e ∧ live amb.(am_now) e.
Proof.
  intros Hu Hrun. destruct (hold_run _ _ _ _ _ _ Hu Hrun) as (s & -> & Hus & Hs). cbn [set_store cp_store].
  split.
  - etrans; [|apply le_n_S, (length_kept amb.(am_now) DEFAULT_SSH_AUTH_LIMIT p.(cp_store))].
    assert (Hnd : NoDup (list_ssh_auths s)).
    { unfold list_ssh_auths. rewrite (merge_sort_Permutation created_le). by apply NoDup_ssh_rows. }
    apply (submseteq_length _ (new_ssh_auth amb m b :: _)), NoDup_submseteq; [done|].
    intros e He%elem_of_list_ssh%Hs. apply elem_of_cons. tauto.
  - intros e [->|He]%Hs; [by left|]. right. by apply (elem_of_kept _ _ _ _ He).
Qed.

End decisions.

(** ** The followup URL *)

Lemma split_once_str_spec c p s r :
  c ∉ s → split_once_str (c :: p) (s ++ (c :: p) ++ r) = Some (s, r).
Proof.
  induction s as [|x s IH]; intros Hc.
  - pose proof (strip_prefix_app (c :: p) r) as Hs. cbn [app] in *. unfold split_once_str. by rewrite Hs.
  - apply not_elem_of_cons in Hc as [Hx Hc]. cbn [app split_once_str].
    assert (Hs : strip_prefix (c :: p) (x :: s ++ c :: p ++ r) = None).
    { cbn. by rewrite (proj2 (Z.eqb_neq _ _)) by congruence. }
    rewrite Hs. specialize (IH Hc). cbn [app] in IH. by rewrite IH.
Qed.

Lemma digits_notin c n : 0 ≤ n < 2 ^ 64 → (c < 48 ∨ 57 < c) → c ∉ show_uint n.
Proof.
  intros Hn Hc Hin. pose proof (show_uint_chars n Hn) as Hs. rewrite list.Forall_forall in Hs.
  apply Hs in Hin. lia.
Qed.

Lemma ssh_path_parses src dst :
  0 ≤ src < 2 ^ 64 → 0 ≤ dst < 2 ^ 64 →
  parse_ssh_action_path (str "/machine/ssh/action/" ++ show_uint src ++ str "/to/" ++ show_uint dst)
  = Some (src, dst).
Proof.
  intros Hs Hd. unfold parse_ssh_action_path. rewrite split_none.
  2: { rewrite !not_elem_of_app. split_and!; try (by apply digits_notin; [done|lia]).
       all: apply (bool_decide_unpack _); by vm_compute. }
  cbn [head default from_option id]. rewrite strip_prefix_app. cbn [mbind option_bind].
  change (str "/to/") with (47 :: str "to/"). rewrite split_once_str_spec by (apply digits_notin; [done|lia]).
  cbn [mbind option_bind]. by rewrite !parse_show_u64 by done.
Qed.

Lemma alphanumeric_plain s :
  forallb is_ascii_alphanumeric s = true →
  Forall query_char s ∧ Forall (λ c, 0 ≤ c < 128 ∧ c ≠ 37 ∧ c ≠ 43) s.
Proof.
  intros Hs. rewrite forallb_forall in Hs.
  split; apply list.Forall_forall; intros c Hc%list_elem_of_In%Hs; unfold query_char, is_ascii_alphanumeric, is_ascii_digit in *;
    rewrite !orb_true_iff, !andb_true_iff, !Z.leb_le in Hc; lia.
Qed.

(** The URL a held connection is told to poll leads back to the same
    connection and record: the router reads from its path and its query
    exactly what went in. *)
Theorem ssh_action_url_parses cfg b auth_id :
  0 ≤ b.(b_src) < 2 ^ 64 → 0 ≤ b.(b_dst) < 2 ^ 64 →
  forallb scalar b.(b_ssh_user) = true → forallb scalar b.(b_local_user) = true →
  forallb is_ascii_alphanumeric auth_id = true →
  ∃ path query,
    build_ssh_action_url cfg b auth_id = trim_end_slashes cfg.(cfg_server_url) ++ path ++ 63 :: query
    ∧ parse_ssh_action_path path = Some (b.(b_src), b.(b_dst))
    ∧ parse_query query
      = <[str "local_user" := b.(b_local_user)]>
          (<[str "ssh_user" := b.(b_ssh_user)]> {[str "auth_id" := auth_id]}).
Proof.
  intros Hs Hd Hu Hl Ha. destruct (alphanumeric_plain _ Ha) as [Hq Hp].
  exists (str "/machine/ssh/action/" ++ show_uint b.(b_src) ++ str "/to/" ++ show_uint b.(b_dst)),
    ((str "auth_id" ++ 61 :: auth_id) ++ 38 :: (str "ssh_user" ++ 61 :: url_query_escape b.(b_ssh_user))
     ++ 38 :: (str "local_user" ++ 61 :: url_query_escape b.(b_local_user))).
  assert (Hkey : ∀ k, forallb is_ascii_alphanumeric (filter (λ c, c ≠ 95) k) = true → Forall query_char k).
  { intros k Hk. apply list.Forall_forall. intros c Hc. destruct (decide (c = 95)) as [->|Hne].
    - unfold query_char. lia.
    - destruct (alphanumeric_plain _ Hk) as [Hf _]. rewrite list.Forall_forall in Hf. apply Hf.
      by apply list_elem_of_filter. }
  assert (Hno : ∀ k v, Forall query_char k → Forall query_char v → 38 ∉ k ++ 61 :: v).
  { intros k v Hk Hv. rewrite not_elem_of_app, not_elem_of_cons.
    split_and!; [apply query_char_notin; [done|]|done|apply query_char_notin; [done|]]; unfold query_char; lia. }
  split; [|split].
  - unfold build_ssh_action_url. rewrite <- !app_assoc. cbn [app]. rewrite <- ?app_assoc. done.
  - by apply ssh_path_parses.
  - unfold parse_query.
    rewrite split_cons by (apply Hno; [by apply Hkey; vm_compute|done]).
    rewrite split_cons by (apply Hno; [by apply Hkey; vm_compute|by apply escape_chars]).
    rewrite split_none by (apply Hno; [by apply Hkey; vm_compute|by apply escape_chars]).
    cbn [fold_left]. rewrite !add_pair_eq by (done || by apply Hkey; vm_compute).
    rewrite !escape_round_trip, (plain_decode auth_id) by done. done.
Qed.

(** ** Examples *)

(** Two nodes of one user, a check rule of an hour and a half between them,
    and one record for a connection from the first to the second. *)
Definition demo_ssh_config : ControlConfig :=
  {| cfg_auth_key := []; cfg_protocol_version := 130; cfg_tailnet_domain := str "tailnet.example";
     cfg_policy := demo_ssh_policy [str "root"]; cfg_user_id := 1; cfg_login_id := 1;
     cfg_user_login_name := str "a@b"; cfg_user_display_name := str "A";
     cfg_allocator := demo_allocator; cfg_server_url := str "https://tailnet.example/";
     cfg_pending_ttl_seconds := 900; cfg_pending_cache_limit := 1024;
     cfg_reconnect_grace_seconds := 10; cfg_change_batch_max := 64;
     cfg_derp_map := {| dpm_regions := ∅; dpm_omit_default_regions := false |};
     cfg_dns := DnsSettings_default |}.

Definition demo_ssh_row (id : Z) (m : bytes) : DomainNode :=
  set_dn_stable_id (show_uint id) (set_dn_id id
    (new_node demo_ssh_config (demo_ambient 100 1) m (demo_request [id] None) 1 None false
       (0x64400000 + id) id)).

Definition demo_binding : Binding :=
  {| b_src := 1; b_dst := 2; b_ssh_user := str "root"; b_local_user := str "a b&c" |}.

Definition demo_record (v : SshVerdict) : SshAuth :=
  {| sh_auth_id := str "a1"; sh_src_node_id := 1; sh_dst_node_id := 2; sh_ssh_user := str "root";
     sh_local_user := str "a b&c"; sh_machine_key := [9]; sh_created_at := str "100";
     sh_expires_at := str "1000"; sh_verdict := v |}.

Definition demo_ssh_plane (v : SshVerdict) : ControlPlane :=
  ControlPlane_fields demo_ssh_config
    {| st_users := {[1 := {| user_id := 1; user_login_name := str "a@b"; user_display_name := str "A";
                             user_created_at := str "1" |}]};
       st_logins := ∅; st_nodes := {[1 := demo_ssh_row 1 [7]; 2 := demo_ssh_row 2 [9]]};
       st_keys := ∅; st_policies := ∅; st_sessions := ∅; st_pending := ∅;
       st_ssh := {[1 := demo_record v]}; st_last_rowid := 0 |}.

Lemma demo_ssh_unique v : ssh_unique (demo_ssh_plane v).(cp_store).
Proof. intros i j a b. cbn [demo_ssh_plane ControlPlane_fields cp_store st_ssh].
  by intros [<- _]%lookup_singleton_Some [<- _]%lookup_singleton_Some. Qed.

(** A followup that waits one round, in which it is approved. *)
Definition demo_wait : list (text * (ControlPlane → ControlPlane)) :=
  [(str "200", λ p, from_option fst p (approve_ssh (demo_ambient 190 1) (str "a1") p))].

Lemma ssh_accept_sound_witness :
  ∃ p', handle_ssh_action demo_ssh_config 10 (demo_ambient 180 1) [9] demo_binding (Some (str "a1"))
          demo_wait (demo_ssh_plane SshPending) = Some (p', Ok accept_action)
    ∧ ∃ e t, get_ssh_auth (str "a1") p'.(cp_store) = Some e ∧ e.(sh_verdict) = SshAccepted t.
Proof.
  set (m := handle_ssh_action _ _ _ _ _ _ _ _).
  assert (E : m = Some (from_option fst (demo_ssh_plane SshPending) m, Ok accept_action)).
  { assert (Hm : match m with Some (_, Ok a) => bool_decide (a = accept_action) | _ => false end = true)
      by by vm_compute.
    destruct m as [[q [a|]]|]; [|done..]. apply bool_decide_eq_true in Hm as ->. done. }
  exists (from_option fst (demo_ssh_plane SshPending) m). split; [exact E|].
  destruct (ssh_accept_sound demo_ssh_config 10 (demo_ambient 180 1) [9] demo_binding (Some (str "a1"))
    demo_wait (demo_ssh_plane SshPending) _ accept_action (demo_ssh_unique _) E eq_refl) as (_ & _ & _ & H).
  exact H.
Defined.


(** The approval of second 100 would still count at second 2000; after a
    request for another connection it does not. *)
Lemma check_period_cut_short_witness :
  let p := demo_ssh_plane (SshAccepted (str "100")) in
  let b := {| b_src := 2; b_dst := 1; b_ssh_user := str "root"; b_local_user := [] |} in
  (∃ q, recent_ssh_acceptance (demo_ambient 2000 1) demo_binding 5400 p = Some (q, Ok true))
  ∧ ∃ p' r, hold_ssh demo_ssh_config (demo_ambient 2000 1) [7] b p = Some (p', r)
      ∧ recent_ssh_acceptance (demo_ambient 2000 1) demo_binding 5400 p' = Some (p', Ok false).
Proof.
  intros p b. split.
  - destruct (recent_run (demo_ambient 2000 1) demo_binding 5400 p (demo_ssh_unique _))
      as [(e & last & _ & _ & _ & s' & H)|[_ H]]; [by eexists|].
    assert (Hm : match recent_ssh_acceptance (demo_ambient 2000 1) demo_binding 5400 p with
                 | Some (_, Ok b) => b | _ => false end = true) by by vm_compute.
    by rewrite H in Hm.
  - destruct (hold_ssh demo_ssh_config (demo_ambient 2000 1) [7] b p) as [[p' r]|] eqn:E.
    2: { assert (Hm : match hold_ssh demo_ssh_config (demo_ambient 2000 1) [7] b p with
                      | Some _ => true | None => false end = true) by by vm_compute.
         by rewrite E in Hm. }
    exists p', r. split; [reflexivity|].
    apply (check_period_cut_short demo_ssh_config (demo_ambient 2000 1) [7] b demo_binding p p' r
             (demo_ssh_unique _)); [done| |exact E].
    intros e [i Hi] _ Hl. unfold p in Hi. cbn [demo_ssh_plane ControlPlane_fields cp_store st_ssh] in Hi.
    apply lookup_singleton_Some in Hi as [_ <-]. revert Hl. by vm_compute.
Defined.

Lemma ssh_action_url_parses_witness :
  ∃ path query,
    build_ssh_action_url demo_ssh_config demo_binding (str "a1")
      = str "https://tailnet.example" ++ path ++ 63 :: query
    ∧ parse_ssh_action_path path = Some (1, 2)
    ∧ parse_query query !! str "local_user" = Some (str "a b&c").
Proof.
  destruct (ssh_action_url_parses demo_ssh_config demo_binding (str "a1"))
    as (path & query & H1 & H2 & H3); [done..|].
  exists path, query. split; [exact H1|]. split; [exact H2|]. rewrite H3. by vm_compute.
Defined.

Lemma held_records_bounded_witness :
  ∃ p' r, hold_ssh demo_ssh_config (demo_ambient 500 1) [9] demo_binding (demo_ssh_plane SshPending) = Some (p', r)
    ∧ (length (list_ssh_auths p'.(cp_store)) ≤ 1025)%nat.
Proof.
  destruct (hold_ssh demo_ssh_config (demo_ambient 500 1) [9] demo_binding (demo_ssh_plane SshPending)) as [[p' r]|] eqn:E.
  2: { assert (Hm : match hold_ssh demo_ssh_config (demo_ambient 500 1) [9] demo_binding (demo_ssh_plane SshPending) with
                    | Some _ => true | None => false end = true) by by vm_compute.
       by rewrite E in Hm. }
  exists p', r. split; [reflexivity|].
  exact (proj1 (held_records_bounded demo_ssh_config (demo_ambient 500 1) [9] demo_binding
                  (demo_ssh_plane SshPending) p' r (demo_ssh_unique _) E)).
Defined.
