(* ===== verification/Cli.v ===== *)
(** * The command-line client ([crabscale-cli/src/main.rs])

    The client is another process on the server's database.  It builds a control plane
    of its own over the store, under the default configuration, runs one command on it
    and exits: the store is all that is left of the run. *)

From S2P Require Import Prelude ProtoKey Text Net IpText Url PolicyModel PolicyTags IpAlloc Pending Sessions Events NetMap PreAuth Store Dns Control Registration SshCheck Backup Demo.

(** ** Commands *)

Inductive AuthCommand : Type := AuthApprove (auth_id user : text) | AuthReject (auth_id : text).

Inductive RouteCommand : Type :=
| RouteApprove (node route : text)
| RouteDisapprove (node route : text)
| RouteList (node : text).

Inductive SshCommand : Type := SshApprove (auth_id : text) | SshReject (auth_id : text) | SshList.

(** The commands that run on a control plane. *)
Inductive PlaneCommand : Type := Auth (c : AuthCommand) | Route (c : RouteCommand) | Ssh (c : SshCommand).

Inductive Command : Type :=
| OnPlane (c : PlaneCommand)
| BackupTo (output : text)
| RestoreFrom (input : text) (force : bool).

Record Cli : Type := { cl_store : option text; cl_command : Command }.

Definition none_or (routes : list text) : text :=
  if bool_decide (routes = []) then str "(none)" else join (str ", ") routes.

Definition verdict_text (v : SshVerdict) : text :=
  match v with SshPending => str "pending" | SshAccepted _ => str "accepted" | SshRejected => str "rejected" end.

(** ** Running a command on a plane *)

Section commands.
  Context `{Q : Sqlite, C : KeyCrypto, T : Rfc3339}.
  Context (cfg : ControlConfig) (stack : nat).

Definition run_auth_command (amb : Ambient) (command : AuthCommand) : handler text :=
  match command with
  | AuthApprove auth_id user =>
      let! _ := approve_pending cfg stack amb auth_id user in
      hret (str "approved pending registration " ++ auth_id ++ str " for user " ++ user)
  | AuthReject auth_id =>
      let! _ := reject_pending amb auth_id in
      hret (str "rejected pending registration " ++ auth_id)
  end.

Definition parse_node_key (node : text) : handler bytes :=
  of_result (map_err (λ e, PolicyFailed (str "invalid node key: " ++ KeyParseError_display e))
               (from_str NodeKey (utf8_encode node))).

Definition run_route_command (command : RouteCommand) : handler text :=
  match command with
  | RouteApprove node route =>
      let! node_key := parse_node_key node in
      let! _ := approve_route node_key route in
      hret (str "approved route " ++ route ++ str " for " ++ node)
  | RouteDisapprove node route =>
      let! node_key := parse_node_key node in
      let! _ := disapprove_route node_key route in
      hret (str "disapproved route " ++ route ++ str " for " ++ node)
  | RouteList node =>
      let! node_key := parse_node_key node in
      let! stored := node_by_key node_key in
      match stored with
      | None => hfail NotFound
      | Some stored =>
          hret (str "node " ++ stored.(dn_stable_id) ++ str " (" ++ stored.(dn_name) ++ str ")" ++ [10]
                ++ str "advertised: " ++ none_or stored.(dn_advertised_routes) ++ [10]
                ++ str "approved: " ++ none_or stored.(dn_approved_routes))
      end
  end.

Definition ssh_line (auth : SshAuth) : text :=
  auth.(sh_auth_id) ++ [32] ++ show_uint auth.(sh_src_node_id) ++ str "->" ++ show_uint auth.(sh_dst_node_id)
  ++ [32] ++ verdict_text auth.(sh_verdict).

Definition run_ssh_command (amb : Ambient) (command : SshCommand) : handler text :=
  match command with
  | SshApprove auth_id =>
      let! _ := approve_ssh amb auth_id in hret (str "approved SSH auth " ++ auth_id)
  | SshReject auth_id =>
      let! _ := reject_ssh amb auth_id in hret (str "rejected SSH auth " ++ auth_id)
  | SshList =>
      let! auths := control_list_ssh_auths amb in
      hret (if bool_decide (auths = []) then str "no SSH auth records" else join [10] (map ssh_line auths))
  end.

Definition run_plane_command (amb : Ambient) (command : PlaneCommand) : handler text :=
  match command with
  | Auth c => run_auth_command amb c
  | Route c => run_route_command c
  | Ssh c => run_ssh_command amb c
  end.

End commands.

Section cli.
  Context `{Q : Sqlite, C : KeyCrypto, T : Rfc3339, R : RecordsJson}.

(** A run on the plane of the client over a store: what it leaves of the store, and its
    message or error. *)
Definition cli_run (stack : nat) (amb : Ambient) (command : PlaneCommand) (s : Store)
    : option (Store * result text ControlError) :=
  '(p, message) ← run_plane_command ControlConfig_default stack amb command
                    (ControlPlane_with_store ControlConfig_default (Err []) s);
  Some (p.(cp_store), message).

End cli.

(** ** Backups *)

Inductive ExitCode : Type := SUCCESS | FAILURE.

Section files.
  Context `{Q : Sqlite, L : BackupLibrary}.
  (** [SqliteStore::open], and whether a file can be created. *)
  Context (open : text → option Db) (create : text → bool) (read_file : text → option bytes).

(** What is written to the file, if it is. *)
Definition run_backup (cli : Cli) (created_at output : text) : ExitCode * option bytes :=
  match cli.(cl_store) with
  | None => (FAILURE, None)
  | Some path =>
      match open path with
      | None => (FAILURE, None)
      | Some db =>
          if negb (create output) then (FAILURE, None)
          else match write_backup created_at db with
               | Ok compressed => (SUCCESS, Some compressed)
               | Err _ => (FAILURE, Some [])
               end
      end
  end.

(** What the database holds then, should it have been opened. *)
Definition run_restore (cli : Cli) (input : text) (force : bool) : ExitCode * option Db :=
  match cli.(cl_store) with
  | None => (FAILURE, None)
  | Some path =>
      if negb force then (FAILURE, None)
      else
        match open path with
        | None => (FAILURE, None)
        | Some db =>
            match read_file input with
            | None => (FAILURE, Some db)
            | Some compressed =>
                match restore_backup compressed db with
                | (db, Ok ()) => (SUCCESS, Some db)
                | (db, Err _) => (FAILURE, Some db)
                end
            end
        end
  end.

End files.

(** ** The client beside the server *)

(** Two handlers do the same to planes over the same store, and give the same. *)
Definition agrees {A} (m m' : handler A) : Prop :=
  ∀ p p', p.(cp_store) = p'.(cp_store) →
  match m p, m' p' with
  | Some (q, r), Some (q', r') => q.(cp_store) = q'.(cp_store) ∧ r = r'
  | None, None => True
  | _, _ => False
  end.

Create HintDb agrees discriminated.

Lemma agrees_ret {A} (a : A) : agrees (hret a) (hret a).
Proof. by intros p p' E. Qed.

Lemma agrees_fail {A} e : agrees (A := A) (hfail e) (hfail e).
Proof. by intros p p' E. Qed.

Lemma agrees_result {A} (r : result A ControlError) : agrees (of_result r) (of_result r).
Proof. by intros p p' E. Qed.

Lemma bind_run {A B} (m : handler A) (k : A → handler B) p :
  hbind m k p = match m p with Some (p', Ok a) => k a p' | Some (p', Err e) => Some (p', Err e) | None => None end.
Proof. done. Qed.

Lemma agrees_bind {A B} (m m' : handler A) (k k' : A → handler B) :
  agrees m m' → (∀ a, agrees (k a) (k' a)) → agrees (let! x := m in k x)%crab (let! x := m' in k' x)%crab.
Proof.
  intros Hm Hk p p' E. specialize (Hm p p' E). unfold hbind.
  destruct (m p) as [[q [a|e]]|], (m' p') as [[q' [a'|e']]|]; try done; destruct Hm as [Hq Hr]; try done.
  - injection Hr as <-. by apply Hk.
  - by injection Hr as <-.
Qed.

Lemma agrees_ask {A} (f : Store → A) : agrees (ask f) (ask f).
Proof. intros p p' E. unfold ask. by rewrite E. Qed.

Lemma agrees_exec {A} (f : sql A) : agrees (exec f) (exec f).
Proof. intros p p' E. unfold exec. rewrite E. by destruct (f (cp_store p')). Qed.

Lemma agrees_modify f g :
  (∀ p, (f p).(cp_store) = p.(cp_store)) → (∀ p, (g p).(cp_store) = p.(cp_store)) → agrees (modify f) (modify g).
Proof. intros Hf Hg p p' E. cbn. by rewrite Hf, Hg. Qed.

Lemma agrees_if {A} (b : bool) (m m' n n' : handler A) :
  agrees m m' → agrees n n' → agrees (if b then m else n) (if b then m' else n').
Proof. by destruct b. Qed.

#[export] Hint Resolve agrees_ret agrees_fail agrees_result agrees_ask agrees_exec agrees_if : agrees.
#[export] Hint Extern 1 (agrees (modify _) (modify _)) => by apply agrees_modify : agrees.
#[export] Hint Extern 1 (agrees (hbind _ _) (hbind _ _)) => apply agrees_bind; [|intros ?] : agrees.
#[export] Hint Extern 2 (agrees (match ?x with _ => _ end) (match ?x with _ => _ end)) => destruct x : agrees.

Section agreement.
  Context `{Q : Sqlite, C : KeyCrypto, T : Rfc3339, R : RecordsJson}.

Lemma agrees_live_pending amb a : agrees (live_pending_entry amb a) (live_pending_entry amb a).
Proof.
  unfold live_pending_entry, get_pending_entry, remove_pending_entry, pending_insert, pending_remove. eauto 12 with agrees.
Qed.

Lemma agrees_save_verdict v e : agrees (save_verdict v e) (save_verdict v e).
Proof. unfold save_verdict, pending_insert. eauto with agrees. Qed.

Lemma agrees_resolve_user amb u : agrees (resolve_user_id amb u) (resolve_user_id amb u).
Proof. unfold resolve_user_id. eauto with agrees. Qed.

Lemma agrees_update_approved n routes : agrees (update_approved n routes) (update_approved n routes).
Proof. unfold update_approved, publish_change. eauto with agrees. Qed.

Lemma agrees_decide_ssh amb a v : agrees (decide_ssh amb a v) (decide_ssh amb a v).
Proof. unfold decide_ssh, live_ssh_auth. eauto 12 with agrees. Qed.

#[local] Hint Resolve agrees_live_pending agrees_save_verdict agrees_resolve_user agrees_update_approved agrees_decide_ssh : agrees.

(** The entry that an approval finds is the stored one. *)
Lemma live_entry_stored amb a p q e :
  live_pending_entry amb a p = Some (q, Ok (Some e)) → get_pending a p.(cp_store) = Some e ∧ q.(cp_store) = p.(cp_store).
Proof.
  unfold live_pending_entry, get_pending_entry, hbind, ask. destruct (get_pending a (cp_store p)) as [e'|] eqn:He; cbn; [|done].
  destruct (is_past _ _); cbn.
  - unfold remove_pending_entry, pending_remove, hbind, exec. cbn. destruct (delete_pending _ _) as [s [r|err]]; done.
  - intros [= <- <-]. done.
Qed.

Lemma approve_agrees cfg cfg' stack amb a u p p' :
  p.(cp_store) = p'.(cp_store) →
  (∀ e, get_pending a p.(cp_store) = Some e → requested_tags e.(p_hostinfo) = []) →
  match approve_pending cfg stack amb a u p, approve_pending cfg' stack amb a u p' with
  | Some (q, r), Some (q', r') => q.(cp_store) = q'.(cp_store) ∧ r = r'
  | None, None => True
  | _, _ => False
  end.
Proof.
  intros E Ht. unfold approve_pending. rewrite (bind_run (live_pending_entry amb a) _ p), (bind_run (live_pending_entry amb a) _ p').
  pose proof (agrees_live_pending amb a p p' E) as Hl.
  destruct (live_pending_entry amb a p) as [[q x]|] eqn:Hp, (live_pending_entry amb a p') as [[q' x']|]; try done.
  destruct Hl as [Hq <-]. destruct x as [[e|]|err]; [|by split..].
  apply live_entry_stored in Hp as [Hp _]. rewrite (Ht e Hp), bool_decide_eq_true_2 by done.
  assert (Ha : agrees (let! user := resolve_user_id amb u in let! approved_tags := hret None in
      save_verdict (VApproved user approved_tags) e)%crab
    (let! user := resolve_user_id amb u in let! approved_tags := hret None in
      save_verdict (VApproved user approved_tags) e)%crab) by eauto with agrees.
  by apply Ha.
Qed.

End agreement.

Section remote.
  Context `{Q : Sqlite, C : KeyCrypto, T : Rfc3339, R : RecordsJson}.
  #[local] Hint Resolve agrees_live_pending agrees_save_verdict agrees_resolve_user agrees_update_approved agrees_decide_ssh : agrees.

Lemma with_default_store s : (ControlPlane_with_store ControlConfig_default (Err []) s).(cp_store) = s.
Proof. done. Qed.

Lemma run_bind_store {A B} (m m' : handler A) (f : A → B) p p' :
  match m p, m' p' with
  | Some (q, r), Some (q', r') => q.(cp_store) = q'.(cp_store) ∧ r = r'
  | None, None => True
  | _, _ => False
  end →
  match (let! a := m in hret (f a))%crab p, (let! a := m' in hret (f a))%crab p' with
  | Some (q, r), Some (q', r') => q.(cp_store) = q'.(cp_store) ∧ r = r'
  | None, None => True
  | _, _ => False
  end.
Proof.
  rewrite !bind_run. destruct (m p) as [[q r]|], (m' p') as [[q' r']|]; try done. intros [Hq <-]. by destruct r.
Qed.

Definition is_approval (command : PlaneCommand) : Prop := ∃ a u, command = Auth (AuthApprove a u).

#[local] Instance is_approval_dec command : Decision (is_approval command).
Proof.
  refine (match command with Auth (AuthApprove a u) => left _ | _ => right _ end); try by intros (? & ? & ?).
  by exists a, u.
Defined.

(** Every other command is the same under any configuration. *)
Lemma agrees_other_command cfg cfg' stack amb command :
  ¬ is_approval command → agrees (run_plane_command cfg stack amb command) (run_plane_command cfg' stack amb command).
Proof.
  intros Hno. destruct command as [[a u|a]|[node route|node route|node]|[a|a|]];
    [by destruct Hno; exists a, u|..]; cbn [run_plane_command run_auth_command run_route_command run_ssh_command];
    unfold reject_pending, parse_node_key, approve_route, disapprove_route, node_by_key, approve_ssh, reject_ssh,
      control_list_ssh_auths; cbv zeta; eauto 12 with agrees.
Qed.


Lemma no_tags_by_default stack u tags : unauthorized_tags stack Policy_default (Some u) tags = Some tags.
Proof.
  cbn [unauthorized_tags]. induction tags as [|t tags IH]; [done|]. cbn [filter_opt]. rewrite IH.
  unfold user_can_use_tag. by destruct (negb (is_valid_tag t)).
Qed.

(** The client judges a tag request under its own configuration, which has no policy:
    it never approves one, whatever the server's policy says. *)
Theorem cli_never_approves_tags stack amb a u e s s' message :
  get_pending a s = Some e → requested_tags e.(p_hostinfo) ≠ [] →
  cli_run stack amb (Auth (AuthApprove a u)) s ≠ Some (s', Ok message).
Proof.
  intros He Ht Hrun. unfold cli_run in Hrun. apply bind_Some in Hrun as ([q r] & Hrun & [= _ ->]).
  cbn [run_plane_command run_auth_command] in Hrun. rewrite bind_run in Hrun.
  destruct (approve_pending _ _ _ _ _ _) as [[q1 [[]|err]]|] eqn:Hap; [|done..].
  unfold approve_pending in Hap. rewrite bind_run in Hap.
  destruct (live_pending_entry _ _ _) as [[q2 [[e'|]|err]]|] eqn:Hl; [|done..].
  apply live_entry_stored in Hl as [Hl _]. rewrite with_default_store, He in Hl. injection Hl as <-.
  rewrite bind_run in Hap. destruct (resolve_user_id _ _ _) as [[q3 [user|err]]|]; [|done..].
  cbv zeta in Hap. rewrite bool_decide_eq_false_2, !bind_run in Hap by done. unfold diverging in Hap.
  cbn [cfg_policy ControlConfig_default] in Hap. rewrite no_tags_by_default in Hap. cbn in Hap.
  rewrite bool_decide_eq_false_2 in Hap by done. done.
Qed.

End remote.

(** ** Examples *)

(** A registration that asks for a tag, and one that does not, wait in the store. *)
Definition demo_tag_request : RegisterRequest :=
  {| rq_version := 130; rq_node_key := [6]; rq_old_node_key := []; rq_nl_key := []; rq_auth := None; rq_expiry := [];
     rq_followup := []; rq_hostinfo := Some (demo_hostinfo (Some [str "tag:web"])); rq_ephemeral := false |}.

Definition demo_waiting : ControlPlane :=
  from_option fst demo_asked_p (register demo_config 10 (demo_ambient 101 5) [9] demo_tag_request demo_asked_p).
Definition demo_tag_id : text := generate_secret (replicate 32 5).


Example approved_by_the_client :
  (match cli_run 10 (demo_ambient 110 4) (Auth (AuthApprove demo_asked_id (str "bob@example.com"))) demo_waiting.(cp_store) with
   | Some (_, r) => Some r
   | None => None
   end) = Some (Ok (str "approved pending registration " ++ demo_asked_id ++ str " for user bob@example.com")).
Proof. by vm_compute. Qed.

Lemma cli_never_approves_tags_witness :
  ∃ e, get_pending demo_tag_id demo_waiting.(cp_store) = Some e
  ∧ ∀ s' message, cli_run 10 (demo_ambient 110 4) (Auth (AuthApprove demo_tag_id (str "bob@example.com"))) demo_waiting.(cp_store)
      ≠ Some (s', Ok message).
Proof.
  assert (He : match get_pending demo_tag_id demo_waiting.(cp_store) with
               | Some e => bool_decide (requested_tags e.(p_hostinfo) ≠ []) | None => false end = true) by by vm_compute.
  destruct (get_pending demo_tag_id demo_waiting.(cp_store)) as [e|] eqn:Hg; [|done]. exists e. split; [done|].
  intros s' message. apply (cli_never_approves_tags 10 (demo_ambient 110 4) demo_tag_id (str "bob@example.com") e); [done|].
  by apply bool_decide_eq_true in He.
Defined.
