(* ===== verification/Http.v ===== *)
(** * Requests and answers of the outer server
    ([crabscale-server/src/http.rs], [bootstrap_dns.rs] and the helpers of [router.rs])

    A request is its method, path, query, header fields and body; an answer its
    status, its header fields and a body, which stays the value that [serde_json]
    writes where it writes one. *)

From S2P Require Import Prelude Text Net IpText Url PolicyModel SshPolicy Control Registration Proxy.

Record HttpRequest : Type := {
  hr_method : text; hr_path : text; hr_query : option text; hr_headers : HeaderMap; hr_body : list (option bytes) }.

Inductive Body : Type :=
| NoBody
| Plain (t : text)
| Html (t : text)
| JsonBody (j : Json)
| RawBytes (b : bytes)
| VerifyBody (allow : bool)
| RegisterBody (r : RegisterResponse)
| SshActionBody (a : SshAction)
| DnsBody (entries : gmap text (list IpAddr))
| MetricsBody.

Record HttpResponse : Type := { status : Z; headers : list (text * text); body : Body }.

Definition CONTENT_TYPE : text := str "content-type".

Definition plain_response (status : Z) (t : text) : HttpResponse :=
  {| status := status; headers := [(CONTENT_TYPE, str "text/plain")]; body := Plain t |}.

Definition json_response (status : Z) (b : Body) : HttpResponse :=
  {| status := status; headers := [(CONTENT_TYPE, str "application/json")]; body := b |}.

Definition bytes_response (status : Z) (b : bytes) : HttpResponse :=
  {| status := status; headers := [(CONTENT_TYPE, str "application/octet-stream")]; body := RawBytes b |}.

Definition empty_response (status : Z) : HttpResponse := {| status := status; headers := []; body := NoBody |}.

Definition html_response (html : text) : HttpResponse :=
  {| status := 200; headers := [(CONTENT_TYPE, str "text/html; charset=utf-8")]; body := Html html |}.

(** [rate_limited_response] and [send_rate_limited] *)
Definition rate_limited_response (retry_after : Z) : HttpResponse :=
  {| status := 429; headers := [(CONTENT_TYPE, str "text/plain"); (str "retry-after", show_uint retry_after)];
     body := Plain (str "rate limit exceeded") |}.

Definition key_bad_request : HttpResponse :=
  plain_response 400 (str "missing or unsupported capability version").

(** ** Text in a page *)

Definition escape_html_char (c : Z) : text :=
  if c =? 38 then str "&amp;"
  else if c =? 60 then str "&lt;"
  else if c =? 62 then str "&gt;"
  else if c =? 34 then str "&quot;"
  else if c =? 39 then str "&#39;"
  else [c].

Definition escape_html (t : text) : text := flat_map escape_html_char t.

(** ** Redirects *)

Section redirect.
  (** [HeaderValue::from_str] *)
  Context (header_value : text → bool).

(** [redirect_response] of the router *)
Definition found_response (location : text) : HttpResponse :=
  if header_value location
  then {| status := 302; headers := [(str "location", location)]; body := NoBody |}
  else plain_response 500 (str "invalid redirect target").

(** [redirect_response] of the listener that sends everything to HTTPS *)
Definition https_redirect (req : HttpRequest) (fallback_host : text) : HttpResponse :=
  let host := match get_header (str "host") req.(hr_headers) with Some (Some host) => host | _ => fallback_host end in
  let path := req.(hr_path) ++ match req.(hr_query) with Some q => 63 :: q | None => [] end in
  let location := str "https://" ++ host ++ path in
  {| status := 301;
     headers := [(str "location", if header_value location then location else str "https://");
                 (str "cache-control", str "max-age=3600"); (str "connection", str "close")];
     body := NoBody |}.

End redirect.

(** ** Queries and paths *)

(** The loop of [query_param]: a pair without [=] ends it, by the [?]. *)
Fixpoint find_param (name : text) (pairs : list text) : option text :=
  match pairs with
  | [] => None
  | kv :: pairs =>
      match split_once 61 kv with
      | None => None
      | Some (k, v) => if bool_decide (k = name) then Some v else find_param name pairs
      end
  end.

Definition query_param (query : option text) (name : text) : option text :=
  match query with Some query => find_param name (split 38 query) | None => None end.

Definition register_auth_id (path : text) : option text :=
  match strip_prefix (str "/register/") path with
  | Some rest => if bool_decide (rest = []) || contains_char 47 rest then None else Some rest
  | None => None
  end.

(** ** [/bootstrap-dns] *)

Abbreviation BootstrapDns := (gmap text (list IpAddr)).

(** [IpAddr]'s order: IPv4 before IPv6. *)
Definition ip_le (a b : IpAddr) : bool :=
  match a, b with
  | V4 x, V4 y => x <=? y
  | V4 _, V6 _ => true
  | V6 _, V4 _ => false
  | V6 x, V6 y => x <=? y
  end.

Fixpoint insert_ip (a : IpAddr) (l : list IpAddr) : list IpAddr :=
  match l with
  | [] => [a]
  | b :: t => if ip_le a b then a :: l else b :: insert_ip a t
  end.

(** [sort] *)
Definition sort_ips (l : list IpAddr) : list IpAddr := foldr insert_ip [] l.

(** [resolve]: [lookup] is what the resolver answers. *)
Definition BootstrapDns_resolve (lookup : text → option (list IpAddr)) (names : list text) : BootstrapDns :=
  fold_left (λ entries raw,
    let name := trim raw in
    if bool_decide (name = []) then entries
    else
      match lookup name with
      | None => entries
      | Some addrs =>
          let ips := sort_ips (dedup addrs) in
          match ips with [] => entries | _ => <[name := ips]> entries end
      end) names ∅.

Definition BootstrapDns_handle (entries : BootstrapDns) (q : option text) : HttpResponse :=
  let queried := match q with Some q => if bool_decide (trim q = []) then None else Some (trim q) | None => None end in
  let answer :=
    match queried with
    | Some name => match entries !! name with Some ips => {[name := ips]} | None => entries end
    | None => entries
    end in
  {| status := 200; headers := [(CONTENT_TYPE, str "application/json"); (str "connection", str "close")];
     body := DnsBody answer |}.

(** ** Lemmas *)

(** Escaped text opens no tag and closes no attribute. *)
Lemma escape_html_inert t c : c ∈ escape_html t → c ∉ [60; 62; 34; 39].
Proof.
  intros Hc Hbad. unfold escape_html in Hc. apply list_elem_of_In, in_flat_map in Hc as (x & _ & Hx).
  apply list_elem_of_In in Hx. unfold escape_html_char in Hx.
  assert (Ho : ∀ s, c ∈ s → forallb (λ y, negb (bool_decide (y ∈ [60; 62; 34; 39]))) s = true → False).
  { intros s Hs Hf. rewrite forallb_forall in Hf. specialize (Hf c (proj1 (list_elem_of_In _ _) Hs)).
    by rewrite bool_decide_eq_true_2 in Hf. }
  destruct (Z.eqb_spec x 38); [by apply (Ho _ Hx)|]. destruct (Z.eqb_spec x 60); [by apply (Ho _ Hx)|].
  destruct (Z.eqb_spec x 62); [by apply (Ho _ Hx)|]. destruct (Z.eqb_spec x 34); [by apply (Ho _ Hx)|].
  destruct (Z.eqb_spec x 39); [by apply (Ho _ Hx)|]. set_solver.
Qed.

(** A page reads back the text: the escapes are prefix-free. *)
Lemma escape_html_injective a b : escape_html a = escape_html b → a = b.
Proof.
  revert b. induction a as [|x a IH]; intros [|y b] H; [done|..].
  1,2: exfalso; revert H; unfold escape_html; cbn; unfold escape_html_char;
    repeat (destruct (_ =? _); [done|]); done.
  assert (Hxy : x = y ∧ escape_html a = escape_html b); [|destruct Hxy as [-> Hab]; f_equal; by apply IH].
  revert H. unfold escape_html. cbn [flat_map]. unfold escape_html_char.
  destruct (Z.eqb_spec x 38) as [->|]; [|destruct (Z.eqb_spec x 60) as [->|]; [|destruct (Z.eqb_spec x 62) as [->|];
    [|destruct (Z.eqb_spec x 34) as [->|]; [|destruct (Z.eqb_spec x 39) as [->|]]]]].
  all: destruct (Z.eqb_spec y 38) as [->|]; [|destruct (Z.eqb_spec y 60) as [->|]; [|destruct (Z.eqb_spec y 62) as [->|];
    [|destruct (Z.eqb_spec y 34) as [->|]; [|destruct (Z.eqb_spec y 39) as [->|]]]]].
  all: cbn; intros H; injection H; intros; subst; try done.
Qed.

(** A parameter behind a word without [=] is not found. *)
Lemma query_param_hidden name value : query_param (Some (str "debug&" ++ name ++ [61] ++ value)) name = None.
Proof.
  unfold query_param. assert (Hs : ∃ rest, split 38 (str "debug&" ++ name ++ [61] ++ value) = str "debug" :: rest).
  { by eexists. }
  by destruct Hs as [rest ->].
Qed.

(** Addresses the resolver repeats, with another between them, stay repeated. *)
Lemma bootstrap_keeps_duplicates a b :
  ip_le a b = true → a ≠ b → ip_le b a = false → ip_le a a = true →
  BootstrapDns_resolve (λ _, Some [a; b; a]) [str "relay"] !! str "relay" = Some [a; a; b].
Proof.
  intros Hab Hne Hba Haa. unfold BootstrapDns_resolve. cbn [fold_left]. change (trim (str "relay")) with (str "relay").
  rewrite bool_decide_eq_false_2 by done. cbn [dedup]. rewrite decide_False by by intros ->.
  rewrite decide_False by done. cbn [sort_ips foldr insert_ip]. rewrite Hba. cbn [insert_ip].
  rewrite Haa. by rewrite lookup_insert_eq.
Qed.
