(* ===== verification/Oidc.v ===== *)
(** * OpenID Connect ([crabscale-server/src/oidc.rs])

    The flows that wait for their callback, and the relying party: the checks of
    the discovery document, the code exchange, the cached keys and the checks of
    an ID token.  The HTTP client, the URL and JSON parsers and [jsonwebtoken] are
    libraries: a request's answer is an argument, what they decode is the class
    [OidcLibrary].  A [SystemTime] is its nanoseconds. *)

From S2P Require Import Prelude Text PreAuth Pending Store Control Registration SshCheck.

Definition DEFAULT_OIDC_FLOW_TTL_SECONDS : Z := 10 * 60.
Definition DEFAULT_OIDC_FLOW_LIMIT : nat := 512.
Definition JWKS_CACHE_TTL : Z := 3600 * 10 ^ 9.

Record OidcConfig : Type := {
  oc_issuer : text; oc_client_id : text; oc_client_secret : text; oc_redirect_uri : text; oc_scope : text }.

Inductive OidcError : Type :=
| OidcNetwork (e : text)
| OidcDiscovery (e : text)
| OidcToken (e : text)
| InvalidIdToken (e : text)
| InvalidState
| OidcControl (e : ControlError).

Definition OidcError_display `{Sqlite} (e : OidcError) : text :=
  match e with
  | OidcNetwork e => str "oidc network error: " ++ e
  | OidcDiscovery e => str "oidc discovery error: " ++ e
  | OidcToken e => str "oidc token exchange error: " ++ e
  | InvalidIdToken e => str "invalid OIDC ID token: " ++ e
  | InvalidState => str "invalid, expired, or reused OIDC state"
  | OidcControl e => str "oidc control error: " ++ ControlError_display e
  end.

Record ProviderMetadata : Type := {
  md_issuer : text; authorization_endpoint : text; token_endpoint : text; jwks_uri : text;
  signing_algs : option (list text) }.

Record IdTokenClaims : Type := {
  cl_sub : text; cl_nonce : option text; cl_email : option text; cl_name : option text }.

(** [jsonwebtoken::Algorithm] *)
Inductive Algorithm : Type :=
| HS256 | HS384 | HS512 | RS256 | RS384 | RS512 | ES256 | ES384 | PS256 | PS384 | PS512 | EdDSA.

#[global] Instance Algorithm_eq_dec : EqDecision Algorithm.
Proof. solve_decision. Defined.

Definition alg_name (alg : Algorithm) : text :=
  match alg with
  | HS256 => str "HS256" | HS384 => str "HS384" | HS512 => str "HS512"
  | RS256 => str "RS256" | RS384 => str "RS384" | RS512 => str "RS512"
  | ES256 => str "ES256" | ES384 => str "ES384"
  | PS256 => str "PS256" | PS384 => str "PS384" | PS512 => str "PS512"
  | EdDSA => str "EdDSA"
  end.

(** The [Validation] the relying party fills in; [exp], [iss] and [aud] are
    required. *)
Record Validation : Type := { va_alg : Algorithm; va_audience : text; va_issuer : text }.

Class OidcLibrary : Type := {
  JwkSet : Type;
  Jwk : Type;
  DecodingKey : Type;
  (** [serde_json] on the three documents; an error with its text *)
  metadata_from_json : text → result ProviderMetadata text;
  id_token_from_json : text → result text text;
  jwks_from_json : text → result JwkSet text;
  (** [set.keys] and [set.find(kid)] *)
  jwk_keys : JwkSet → list Jwk;
  jwk_find : JwkSet → text → option Jwk;
  key_from_jwk : Jwk → result DecodingKey text;
  key_from_secret : text → DecodingKey;
  (** [decode_header] and [decode] *)
  decode_header : text → result (Algorithm * option text) text;
  decode_token : text → DecodingKey → Validation → result IdTokenClaims text;
  (** [Url::parse], then [query_pairs_mut().append_pair] *)
  url_with_pairs : text → list (text * text) → result text text;
}.

(** The answer to a request: a body, read or not; a status that is an error; no
    answer at all. *)
Inductive http_answer : Type :=
| HttpBody (body : text)
| HttpUnread (e : text)
| HttpStatus (code : Z) (e : text)
| HttpFailed (e : text).

(** [HttpStatus] is an error like the others to all but the token request. *)
Definition body_of (failed : text) (answer : http_answer) : result text OidcError :=
  match answer with
  | HttpBody body => Ok body
  | HttpUnread e => Err (OidcNetwork e)
  | HttpStatus _ e | HttpFailed e => Err (OidcNetwork (failed ++ e))
  end.

(** ** The flows *)

Record OidcFlow : Type := { of_auth_id : text; of_nonce : text; of_expires_at : Z }.

#[global] Instance OidcFlow_eq_dec : EqDecision OidcFlow.
Proof. solve_decision. Defined.

Record OidcFlowStore : Type := {
  fs_entries : gmap text OidcFlow; fs_order : list text; fs_limit : nat; fs_ttl_seconds : Z }.

Definition OidcFlowStore_new (limit : nat) (ttl_seconds : Z) : OidcFlowStore :=
  {| fs_entries := ∅; fs_order := []; fs_limit := limit; fs_ttl_seconds := ttl_seconds |}.

Definition with_flows (entries : gmap text OidcFlow) (order : list text) (s : OidcFlowStore) : OidcFlowStore :=
  {| fs_entries := entries; fs_order := order; fs_limit := s.(fs_limit); fs_ttl_seconds := s.(fs_ttl_seconds) |}.

Definition flow_touch (state : text) (s : OidcFlowStore) : OidcFlowStore :=
  match remove_first state s.(fs_order) with
  | Some order => with_flows s.(fs_entries) (order ++ [state]) s
  | None => s
  end.

Definition flow_insert (state : text) (flow : OidcFlow) (s : OidcFlowStore) : OidcFlowStore :=
  match s.(fs_entries) !! state with
  | Some _ => flow_touch state (with_flows (<[state := flow]> s.(fs_entries)) s.(fs_order) s)
  | None =>
      let '(entries, order) :=
        if (s.(fs_limit) <=? size s.(fs_entries))%nat then
          match s.(fs_order) with
          | oldest :: order => (delete oldest s.(fs_entries), order)
          | [] => (s.(fs_entries), [])
          end
        else (s.(fs_entries), s.(fs_order)) in
      with_flows (<[state := flow]> entries) (order ++ [state]) s
  end.

Definition flow_take (state : text) (now : Z) (s : OidcFlowStore) : OidcFlowStore * option OidcFlow :=
  match s.(fs_entries) !! state with
  | None => (s, None)
  | Some flow =>
      let s := with_flows (delete state s.(fs_entries)) (filter (λ x, x ≠ state) s.(fs_order)) s in
      (s, if flow.(of_expires_at) <=? now then None else Some flow)
  end.

Definition flow_len (s : OidcFlowStore) : nat := size s.(fs_entries).
Definition flow_is_empty (s : OidcFlowStore) : bool := bool_decide (s.(fs_entries) = ∅).

Section begin.
  Context `{KeyCrypto}.

(** [begin]; the two secrets are of [generate_secret]. *)
Definition flow_begin (random_state random_nonce : bytes) (auth_id : text) (now : Z) (s : OidcFlowStore)
    : OidcFlowStore * (text * OidcFlow) :=
  let state := generate_secret random_state in
  let flow := {| of_auth_id := auth_id; of_nonce := generate_secret random_nonce;
                 of_expires_at := now + s.(fs_ttl_seconds) |} in
  (flow_insert state flow s, (state, flow)).

End begin.

(** ** The relying party *)

Section client.
  Context `{L : OidcLibrary}.

Record JwkCache : Type := { jc_fetched_at : Z; jc_set : JwkSet }.

Record OidcClient : Type := { oi_config : OidcConfig; oi_metadata : ProviderMetadata }.

Definition discovery_url (c : OidcConfig) : text :=
  trim_end_slashes c.(oc_issuer) ++ str "/.well-known/openid-configuration".

(** [discover]; the answer is that of [discovery_url]. *)
Definition discover (c : OidcConfig) (answer : http_answer) : result OidcClient OidcError :=
  fail_if bool_decide (trim c.(oc_issuer) = []) with OidcDiscovery (str "issuer must not be empty") ;;
  fail_if bool_decide (trim c.(oc_client_id) = []) with OidcDiscovery (str "client id must not be empty") ;;
  let? body := body_of (str "discovery request failed: ") answer in
  let? metadata := map_err (λ e, OidcDiscovery (str "invalid discovery document: " ++ e)) (metadata_from_json body) in
  fail_if negb (bool_decide (metadata.(md_issuer) = c.(oc_issuer)))
    with OidcDiscovery (str "issuer mismatch: configured `" ++ c.(oc_issuer)
           ++ str "` but provider advertises `" ++ metadata.(md_issuer) ++ str "`") ;;
  fail_if bool_decide (metadata.(authorization_endpoint) = []) || bool_decide (metadata.(token_endpoint) = [])
    with OidcDiscovery (str "discovery document is missing authorization or token endpoint") ;;
  Ok {| oi_config := c; oi_metadata := metadata |}.

Definition authorization_url (o : OidcClient) (state nonce : text) : result text OidcError :=
  map_err (λ e, OidcDiscovery (str "invalid authorization endpoint: " ++ e))
    (url_with_pairs o.(oi_metadata).(authorization_endpoint)
       [(str "response_type", str "code"); (str "client_id", o.(oi_config).(oc_client_id));
        (str "redirect_uri", o.(oi_config).(oc_redirect_uri)); (str "scope", o.(oi_config).(oc_scope));
        (str "state", state); (str "nonce", nonce)]).

(** The form that is posted to the token endpoint. *)
Definition token_form (o : OidcClient) (code : text) : list (text * text) :=
  [(str "grant_type", str "authorization_code"); (str "code", code);
   (str "redirect_uri", o.(oi_config).(oc_redirect_uri)); (str "client_id", o.(oi_config).(oc_client_id));
   (str "client_secret", o.(oi_config).(oc_client_secret))].

Definition exchange_code (answer : http_answer) : result text OidcError :=
  let? body :=
    match answer with
    | HttpStatus code _ =>
        Err (OidcToken (str "provider returned HTTP " ++ show_uint code ++ str " during code exchange"))
    | _ => body_of (str "token request failed: ") answer
    end in
  let? id_token := map_err (λ e, OidcToken (str "invalid token response: " ++ e)) (id_token_from_json body) in
  fail_if bool_decide (id_token = []) with OidcToken (str "token response contains no id_token") ;;
  Ok id_token.

(** [fetched_at.elapsed().ok() < Some(JWKS_CACHE_TTL)]: [None] is less than
    [Some]. *)
Definition jwks_fresh (now fetched_at : Z) : bool :=
  match (if fetched_at <=? now then Some (now - fetched_at) else None) with
  | Some elapsed => elapsed <? JWKS_CACHE_TTL
  | None => true
  end.

(** [jwks]: the cache it leaves; [answer] is that of the JWKS address, should it
    be asked. *)
Definition jwks (o : OidcClient) (now : Z) (answer : http_answer) (cache : option JwkCache)
    : option JwkCache * result JwkSet OidcError :=
  match (c ← cache; if jwks_fresh now c.(jc_fetched_at) then Some c else None) with
  | Some c => (cache, Ok c.(jc_set))
  | None =>
      let fetched :=
        fail_if bool_decide (o.(oi_metadata).(jwks_uri) = [])
          with InvalidIdToken (str "provider did not advertise a JWKS URI") ;;
        let? body := body_of (str "JWKS request failed: ") answer in
        let? set := map_err (λ e, InvalidIdToken (str "invalid JWKS: " ++ e)) (jwks_from_json body) in
        match jwk_keys set with
        | [] => Err (InvalidIdToken (str "JWKS contains no keys"))
        | _ => Ok set
        end in
      match fetched with
      | Ok set => (Some {| jc_fetched_at := now; jc_set := set |}, Ok set)
      | Err e => (cache, Err e)
      end
  end.

(** The key an RSA token names. *)
Definition rsa_key (kid : option text) (set : JwkSet) : result DecodingKey OidcError :=
  match kid with
  | None => Err (InvalidIdToken (str "RSA token missing kid"))
  | Some kid =>
      match jwk_find set kid with
      | None => Err (InvalidIdToken (str "no JWK for kid " ++ kid))
      | Some jwk => map_err (λ e, InvalidIdToken (str "bad JWK: " ++ e)) (key_from_jwk jwk)
      end
  end.

(** The [match] on the algorithm of the header. *)
Definition token_key (o : OidcClient) (now : Z) (answer : http_answer) (alg : Algorithm) (kid : option text)
    (cache : option JwkCache) : option JwkCache * result DecodingKey OidcError :=
  match alg with
  | RS256 | RS384 | RS512 =>
      let '(cache, set) := jwks o now answer cache in
      (cache, let? set := set in rsa_key kid set)
  | HS256 => (cache, Ok (key_from_secret o.(oi_config).(oc_client_secret)))
  | other => (cache, Err (InvalidIdToken (str "unsupported signing algorithm " ++ alg_name other)))
  end.

(** The cross-check against what the provider declares. *)
Definition alg_declared (o : OidcClient) (alg : Algorithm) : bool :=
  match o.(oi_metadata).(signing_algs) with
  | Some supported => bool_decide (alg_name alg ∈ supported)
  | None => true
  end.

Definition validation (o : OidcClient) (alg : Algorithm) : Validation :=
  {| va_alg := alg; va_audience := o.(oi_config).(oc_client_id); va_issuer := o.(oi_metadata).(md_issuer) |}.

Definition nonempty_or (default : text) (x : option text) : text :=
  match x with Some t => if bool_decide (t = []) then default else t | None => default end.

Definition profile_of (claims : IdTokenClaims) : OidcProfile :=
  let email := nonempty_or claims.(cl_sub) claims.(cl_email) in
  {| oidc_subject := claims.(cl_sub); oidc_email := email;
     oidc_display_name := nonempty_or email claims.(cl_name) |}.

Definition validate_id_token (o : OidcClient) (flow : OidcFlow) (now : Z) (answer : http_answer) (id_token : text)
    (cache : option JwkCache) : option JwkCache * result OidcProfile OidcError :=
  match decode_header id_token with
  | Err e => (cache, Err (InvalidIdToken (str "cannot parse header: " ++ e)))
  | Ok (alg, kid) =>
      let '(cache, key) := token_key o now answer alg kid cache in
      (cache,
       let? key := key in
       fail_if negb (alg_declared o alg)
         with InvalidIdToken (str "provider does not support algorithm " ++ alg_name alg) ;;
       let? claims := map_err (λ e, InvalidIdToken (str "token validation failed: " ++ e))
                        (decode_token id_token key (validation o alg)) in
       fail_if negb (bool_decide (claims.(cl_nonce) = Some flow.(of_nonce)))
         with InvalidIdToken (str "nonce mismatch") ;;
       Ok (profile_of claims))
  end.

(** [complete]; the answers are those of the token endpoint and of the JWKS
    address. *)
Definition complete (o : OidcClient) (flow : OidcFlow) (now : Z) (token_answer jwks_answer : http_answer)
    (cache : option JwkCache) : option JwkCache * result OidcProfile OidcError :=
  match exchange_code token_answer with
  | Err e => (cache, Err e)
  | Ok id_token => validate_id_token o flow now jwks_answer id_token cache
  end.

End client.

(** ** The flows, as a list of the oldest first *)

Abbreviation flow_list := (list (text * OidcFlow)).

Record stands_for (s : OidcFlowStore) (l : flow_list) : Prop := {
  sf_nodup : NoDup l.*1;
  sf_order : s.(fs_order) = l.*1;
  sf_entries : s.(fs_entries) = list_to_map l;
}.

Definition flows_without (state : text) (l : flow_list) : flow_list := filter (λ p, p.1 ≠ state) l.

Lemma flows_without_fst state l : (flows_without state l).*1 = filter (λ x, x ≠ state) l.*1.
Proof.
  unfold flows_without. induction l as [|[k f] l IH]; [done|]. rewrite fmap_cons. cbn [fst].
  rewrite (filter_cons _ (k, f) l), (filter_cons _ k). cbn [fst]. destruct (decide (k ≠ state)); [|exact IH].
  rewrite fmap_cons. cbn [fst]. f_equal. exact IH.
Qed.

Lemma flows_without_none state l : state ∉ l.*1 → flows_without state l = l.
Proof.
  intros Hs. apply filter_all. intros [k f] Hin. cbn. intros ->. apply Hs.
  apply list_elem_of_fmap. by exists (state, f).
Qed.

Lemma flow_lookup s l state flow : stands_for s l → s.(fs_entries) !! state = Some flow ↔ (state, flow) ∈ l.
Proof. intros Hs. rewrite (sf_entries s l Hs). symmetry. apply elem_of_list_to_map, (sf_nodup s l Hs). Qed.

Lemma flow_lookup_none s l state : stands_for s l → s.(fs_entries) !! state = None ↔ state ∉ l.*1.
Proof. intros Hs. rewrite (sf_entries s l Hs). symmetry. apply not_elem_of_list_to_map. Qed.

Lemma flow_size s l : stands_for s l → size s.(fs_entries) = length l.
Proof.
  intros Hs. rewrite (sf_entries s l Hs), <- size_dom, dom_list_to_map_L, size_list_to_set by apply (sf_nodup s l Hs).
  by rewrite length_fmap.
Qed.

Lemma flow_new limit ttl : stands_for (OidcFlowStore_new limit ttl) [].
Proof. split; try done. constructor. Qed.

Lemma delete_flows (l : flow_list) state :
  delete state (list_to_map l : gmap text OidcFlow) = list_to_map (flows_without state l).
Proof.
  unfold flows_without. induction l as [|[k f] l IH]; [apply delete_empty|].
  rewrite (filter_cons _ (k, f) l). cbn [fst]. change (list_to_map ((k, f) :: l) : gmap text OidcFlow)
    with (<[k := f]> (list_to_map l) : gmap text OidcFlow). destruct (decide (k ≠ state)) as [Hk|Hk].
  - rewrite delete_insert_ne by done. by rewrite IH.
  - assert (k = state) as -> by (by destruct (decide (k = state))). by rewrite delete_insert_eq.
Qed.

Lemma flow_delete s l state :
  stands_for s l →
  stands_for (with_flows (delete state s.(fs_entries)) (filter (λ x, x ≠ state) s.(fs_order)) s) (flows_without state l).
Proof.
  intros [Hn Ho He]. split; cbn.
  - rewrite flows_without_fst. by apply list.NoDup_filter.
  - by rewrite flows_without_fst, Ho.
  - by rewrite He, delete_flows.
Qed.

(** An entry behind the others. *)
Lemma stands_snoc s m l state flow :
  stands_for (with_flows m l.*1 s) l → state ∉ l.*1 →
  stands_for (with_flows (<[state := flow]> m) (l.*1 ++ [state]) s) (l ++ [(state, flow)]).
Proof.
  intros [Hn _ He] Hs. cbn in He. split; cbn.
  - rewrite fmap_app. apply list.NoDup_app. split_and!; [done| |apply NoDup_singleton].
    intros x Hx. cbn. intros [->|[]%not_elem_of_nil]%elem_of_cons. done.
  - by rewrite fmap_app.
  - rewrite list_to_map_snoc by done. by rewrite He.
Qed.

(** Inserting drops the oldest flow when the store is full. *)
Definition flows_insert (limit : nat) (state : text) (flow : OidcFlow) (l : flow_list) : flow_list :=
  (if bool_decide (state ∈ l.*1) then flows_without state l
   else if (limit <=? length l)%nat then tail l else l) ++ [(state, flow)].

Lemma flow_insert_spec s l state flow :
  stands_for s l → stands_for (flow_insert state flow s) (flows_insert s.(fs_limit) state flow l)
                   ∧ (flow_insert state flow s).(fs_limit) = s.(fs_limit)
                   ∧ (flow_insert state flow s).(fs_ttl_seconds) = s.(fs_ttl_seconds).
Proof.
  intros Hs. unfold flow_insert, flows_insert. destruct (fs_entries s !! state) as [old|] eqn:Hold.
  - assert (Hin : state ∈ l.*1).
    { apply (flow_lookup s l) in Hold; [|done]. apply list_elem_of_fmap. by exists (state, old). }
    rewrite bool_decide_eq_true_2 by done. unfold flow_touch. cbn [with_flows fs_order fs_entries fs_limit fs_ttl_seconds].
    rewrite (sf_order s l Hs), remove_first_NoDup by (done || apply Hs). split; [|done].
    pose proof (flow_delete s l state Hs) as Hd. rewrite (sf_order s l Hs), <- flows_without_fst in *.
    apply (stands_snoc _ _ _ state flow) in Hd.
    2: { rewrite flows_without_fst. by intros [? _]%list_elem_of_filter. }
    cbn [with_flows fs_entries] in *. by rewrite insert_delete_eq in Hd.
  - apply (flow_lookup_none s l) in Hold; [|done]. rewrite bool_decide_eq_false_2 by done.
    rewrite (flow_size s l Hs), (sf_order s l Hs). destruct (fs_limit s <=? length l)%nat.
    + destruct l as [|[k f] l]; cbn [tail fmap list_fmap fst].
      { split; [|done]. apply (stands_snoc s _ []); [|apply not_elem_of_nil].
        destruct Hs. by split. }
      split; [|done]. apply stands_snoc.
      2: { intros Hx. apply Hold. by right. }
      pose proof (sf_nodup s _ Hs) as Hn. cbn in Hn. apply list.NoDup_cons in Hn as [Hk Hn]. split; cbn; [done|done|].
      rewrite (sf_entries s _ Hs). cbn. rewrite delete_insert_id; [done|]. by apply not_elem_of_list_to_map.
    + split; [|done]. apply stands_snoc; [|done]. destruct Hs as [Hn Ho He]. by split.
Qed.

Lemma flow_take_spec s l state now :
  stands_for s l → stands_for (flow_take state now s).1 (flows_without state l)
                   ∧ (flow_take state now s).1.(fs_limit) = s.(fs_limit)
                   ∧ (flow_take state now s).1.(fs_ttl_seconds) = s.(fs_ttl_seconds)
                   ∧ ∀ flow, (flow_take state now s).2 = Some flow ↔ (state, flow) ∈ l ∧ now < flow.(of_expires_at).
Proof.
  intros Hs. unfold flow_take. destruct (fs_entries s !! state) as [flow|] eqn:Hf.
  - split; [by apply flow_delete|]. split; [done|]. split; [done|]. intros flow'. cbn [snd].
    destruct (Z.leb_spec flow.(of_expires_at) now).
    + split; [done|]. intros [Hin%(flow_lookup s l) Hn]; [|done]. rewrite Hf in Hin. injection Hin as ->. lia.
    + split; [intros [= ->]; split; [by apply (flow_lookup s l)|done]|].
      intros [Hin%(flow_lookup s l) _]; [|done]. by rewrite Hf in Hin.
  - apply (flow_lookup_none s l) in Hf as Hn; [|done]. rewrite flows_without_none by done. split; [done|].
    split; [done|]. split; [done|]. intros flow. split; [done|].
    intros [Hin%(flow_lookup s l) _]; [|done]. by rewrite Hf in Hin.
Qed.

(** ** Runs of the store *)

Section history.
  Context `{KeyCrypto}.

Inductive flow_op : Type :=
| FlowBegin (random_state random_nonce : bytes) (auth_id : text) (now : Z)
| FlowTake (state : text) (now : Z).

Definition flow_step (s : OidcFlowStore) (op : flow_op) : OidcFlowStore :=
  match op with
  | FlowBegin rs rn auth_id now => (flow_begin rs rn auth_id now s).1
  | FlowTake state now => (flow_take state now s).1
  end.

Definition flow_run (s : OidcFlowStore) (ops : list flow_op) : OidcFlowStore := fold_left flow_step ops s.

(** The state an operation is about, and whether it adds a flow. *)
Definition flow_about (op : flow_op) : text :=
  match op with FlowBegin rs _ _ _ => generate_secret rs | FlowTake state _ => state end.

Definition flow_adds (op : flow_op) : bool := match op with FlowBegin _ _ _ _ => true | _ => false end.

Definition begun_flow (ttl : Z) (rn : bytes) (auth_id : text) (now : Z) : OidcFlow :=
  {| of_auth_id := auth_id; of_nonce := generate_secret rn; of_expires_at := now + ttl |}.

Definition flows_step (limit : nat) (ttl : Z) (l : flow_list) (op : flow_op) : flow_list :=
  match op with
  | FlowBegin rs rn auth_id now => flows_insert limit (generate_secret rs) (begun_flow ttl rn auth_id now) l
  | FlowTake state _ => flows_without state l
  end.

Definition flows_run (limit : nat) (ttl : Z) (l : flow_list) (ops : list flow_op) : flow_list :=
  fold_left (flows_step limit ttl) ops l.

Lemma flow_run_stands s l ops :
  stands_for s l → stands_for (flow_run s ops) (flows_run s.(fs_limit) s.(fs_ttl_seconds) l ops).
Proof.
  revert s l. induction ops as [|op ops IH]; intros s l Hs; [done|]. cbn [flow_run flows_run fold_left].
  assert (Hstep : stands_for (flow_step s op) (flows_step s.(fs_limit) s.(fs_ttl_seconds) l op)
                  ∧ (flow_step s op).(fs_limit) = s.(fs_limit)
                  ∧ (flow_step s op).(fs_ttl_seconds) = s.(fs_ttl_seconds)).
  { destruct op as [rs rn a now|state now]; [by apply flow_insert_spec|].
    destruct (flow_take_spec s l state now Hs) as (H1 & H2 & H3 & _). done. }
  destruct Hstep as (H1 & H2 & H3). specialize (IH _ _ H1). by rewrite H2, H3 in IH.
Qed.

Lemma flows_insert_elem limit state flow l st f :
  (st, f) ∈ flows_insert limit state flow l → (st, f) = (state, flow) ∨ (st, f) ∈ l ∧ st ≠ state.
Proof.
  unfold flows_insert. case_bool_decide as Hin; intros Hx; apply elem_of_app in Hx as [Hx|Hx].
  1: { apply list_elem_of_filter in Hx as [? ?]. by right. }
  2: { right. assert (Hl : (st, f) ∈ l).
       { destruct (limit <=? length l)%nat; [|done]. destruct l; [done|by right]. }
       split; [done|]. intros ->. apply Hin, list_elem_of_fmap. by exists (state, f). }
  all: apply elem_of_cons in Hx as [Hx|Hx]; [by left|by apply elem_of_nil in Hx].
Qed.

(** What is in the store was begun, and not touched since. *)
Lemma flows_run_elem limit ttl ops st f :
  (st, f) ∈ flows_run limit ttl [] ops →
  ∃ before after rs rn auth_id now,
    ops = before ++ FlowBegin rs rn auth_id now :: after ∧ st = generate_secret rs
    ∧ f = begun_flow ttl rn auth_id now ∧ Forall (λ op, flow_about op ≠ st) after.
Proof.
  induction ops as [|op ops IH] using rev_ind; [by intros ?%elem_of_nil|].
  unfold flows_run. rewrite fold_left_app. cbn [fold_left]. fold (flows_run limit ttl [] ops). intros Hx.
  assert (Hold : (st, f) ∈ flows_run limit ttl [] ops → flow_about op ≠ st → ∃ before after rs rn auth_id now,
    ops ++ [op] = before ++ FlowBegin rs rn auth_id now :: after ∧ st = generate_secret rs
    ∧ f = begun_flow ttl rn auth_id now ∧ Forall (λ op, flow_about op ≠ st) after).
  { intros Hin Hne. destruct (IH Hin) as (b & a & rs & rn & i & t & -> & H1 & H2 & H3).
    exists b, (a ++ [op]), rs, rn, i, t. split; [by rewrite <- app_assoc|]. split_and!; try done.
    apply Forall_app. split; [done|]. by constructor. }
  destruct op as [rs rn a now|state now]; cbn [flows_step] in Hx.
  - apply flows_insert_elem in Hx as [[= -> ->]|[Hin Hne]].
    + by exists ops, [], rs, rn, a, now.
    + apply Hold; [done|]. cbn. congruence.
  - apply list_elem_of_filter in Hx as [Hne Hin]. apply Hold; [done|]. cbn in *. congruence.
Qed.

(** A flow stays while fewer others are begun than the store holds. *)
Definition behind (entry : text * OidcFlow) (n : nat) (l : flow_list) : Prop :=
  ∃ pre suf, l = pre ++ entry :: suf ∧ (length suf ≤ n)%nat.

Lemma behind_without entry state n l : entry.1 ≠ state → behind entry n l → behind entry n (flows_without state l).
Proof.
  intros Hne (pre & suf & -> & Hl). exists (flows_without state pre), (flows_without state suf). split.
  - unfold flows_without. rewrite list.filter_app, (filter_cons _ entry suf). by rewrite decide_True.
  - unfold flows_without. pose proof (length_filter (λ p : text * OidcFlow, p.1 ≠ state) suf). lia.
Qed.

Lemma behind_insert entry state flow limit n l :
  entry.1 ≠ state → (S n < limit)%nat → behind entry n l → behind entry (S n) (flows_insert limit state flow l).
Proof.
  intros Hne Hn Hb. assert (Hsnoc : ∀ l', behind entry n l' → behind entry (S n) (l' ++ [(state, flow)])).
  { intros l' (pre & suf & -> & Hl). exists pre, (suf ++ [(state, flow)]). split; [by rewrite <- app_assoc|].
    rewrite length_app. cbn [length]. lia. }
  unfold flows_insert. apply Hsnoc. case_bool_decide; [by apply behind_without|].
  destruct (Nat.leb_spec limit (length l)); [|done]. destruct Hb as ([|x pre] & suf & -> & Hl).
  - cbn [app length] in *. lia.
  - by exists pre, suf.
Qed.

Lemma behind_run entry limit ttl n l ops :
  Forall (λ op, flow_about op ≠ entry.1) ops → (n + length (filter flow_adds ops) < limit)%nat → behind entry n l →
  ∃ m, behind entry m (flows_run limit ttl l ops).
Proof.
  revert n l. induction ops as [|op ops IH]; intros n l Ha Hn Hb; [by exists n|].
  apply list.Forall_cons in Ha as [Hop Ha]. cbn [flows_run fold_left]. rewrite filter_cons in Hn.
  destruct op as [rs rn a now|state now]; cbn [flow_adds] in Hn.
  - rewrite decide_True in Hn by done. cbn [length] in Hn. apply (IH (S n)); [done|lia|].
    apply behind_insert; [by intros ?|lia|done].
  - rewrite decide_False in Hn by by intros []. apply (IH n); [done|lia|]. apply behind_without; [by intros ?|done].
Qed.

(** What a callback is given: the flow that was begun under its state, once, in
    time. *)
Lemma taken_flow_was_begun limit ttl ops state now flow :
  (flow_take state now (flow_run (OidcFlowStore_new limit ttl) ops)).2 = Some flow →
  ∃ before after rs rn auth_id began,
    ops = before ++ FlowBegin rs rn auth_id began :: after ∧ state = generate_secret rs
    ∧ flow = begun_flow ttl rn auth_id began ∧ now < began + ttl
    ∧ Forall (λ op, flow_about op ≠ state) after.
Proof.
  pose proof (flow_run_stands _ _ ops (flow_new limit ttl)) as Hs. cbn [OidcFlowStore_new fs_limit fs_ttl_seconds] in Hs.
  destruct (flow_take_spec _ _ state now Hs) as (_ & _ & _ & Ht). rewrite Ht. intros [Hin Hnow].
  destruct (flows_run_elem _ _ _ _ _ Hin) as (b & a & rs & rn & i & t & -> & H1 & -> & H3).
  exists b, a, rs, rn, i, t. by split_and!.
Qed.

Lemma begun_flow_is_taken limit ttl before after rs rn auth_id began now :
  Forall (λ op, flow_about op ≠ generate_secret rs) after → (length (filter flow_adds after) < limit)%nat →
  now < began + ttl →
  (flow_take (generate_secret rs) now
     (flow_run (OidcFlowStore_new limit ttl) (before ++ FlowBegin rs rn auth_id began :: after))).2
  = Some (begun_flow ttl rn auth_id began).
Proof.
  intros Ha Hn Hnow. pose proof (flow_run_stands _ _ (before ++ FlowBegin rs rn auth_id began :: after) (flow_new limit ttl)) as Hs.
  cbn [OidcFlowStore_new fs_limit fs_ttl_seconds] in Hs.
  destruct (flow_take_spec _ _ (generate_secret rs) now Hs) as (_ & _ & _ & Ht). apply Ht. split; [|done].
  unfold flows_run. rewrite fold_left_app. cbn [fold_left]. set (l := flows_step _ _ _ _).
  destruct (behind_run (generate_secret rs, begun_flow ttl rn auth_id began) limit ttl 0 l after) as (m & pre & suf & Hl & _).
  - done.
  - done.
  - unfold l. cbn [flows_step]. unfold flows_insert. eexists _, []. split; [done|]. cbn. lia.
  - unfold flows_run in Hl. rewrite Hl. set_solver.
Qed.

(** The store never holds more than its limit. *)
Lemma flows_bounded limit ttl ops : (length (flows_run limit ttl [] ops) ≤ Nat.max 1 limit)%nat.
Proof.
  induction ops as [|op ops IH] using rev_ind; [cbn; lia|].
  unfold flows_run. rewrite fold_left_app. cbn [fold_left]. fold (flows_run limit ttl [] ops).
  assert (Hw : ∀ state l, (length (flows_without state l) ≤ length l)%nat) by (intros; apply length_filter).
  destruct op as [rs rn a now|state now]; cbn [flows_step].
  - unfold flows_insert. rewrite length_app. cbn [length]. case_bool_decide as Hin.
    + set (l := flows_run _ _ _ _) in *. assert ((length (flows_without (generate_secret rs) l) < length l)%nat); [|lia].
      apply list_elem_of_fmap in Hin as ([k f] & Hk & Hin). cbn in Hk. subst k.
      apply list_elem_of_split in Hin as (l1 & l2 & ->). unfold flows_without.
      rewrite list.filter_app, (filter_cons _ (generate_secret rs, f) l2), !length_app. cbn [fst].
      rewrite decide_False by tauto. cbn [length].
      pose proof (length_filter (λ p : text * OidcFlow, p.1 ≠ generate_secret rs) l1).
      pose proof (length_filter (λ p : text * OidcFlow, p.1 ≠ generate_secret rs) l2). lia.
    + destruct (Nat.leb_spec limit (length (flows_run limit ttl [] ops))); [|lia].
      destruct (flows_run limit ttl [] ops) as [|x l]; cbn [tail length] in *; lia.
  - specialize (Hw state (flows_run limit ttl [] ops)). lia.
Qed.

End history.

(** ** ID tokens *)

Section tokens.
  Context `{L : OidcLibrary}.

(** The key set a client goes by: the one it has, while that is fresh, or the one
    the provider has just sent. *)
Definition current_set (o : OidcClient) (now : Z) (answer : http_answer) (cache : option JwkCache) (set : JwkSet) : Prop :=
  (∃ c, cache = Some c ∧ jwks_fresh now c.(jc_fetched_at) = true ∧ set = c.(jc_set))
  ∨ ((∀ c, cache = Some c → jwks_fresh now c.(jc_fetched_at) = false)
     ∧ o.(oi_metadata).(jwks_uri) ≠ [] ∧ jwk_keys set ≠ []
     ∧ ∃ body, answer = HttpBody body ∧ jwks_from_json body = Ok set).

Lemma jwks_ok o now answer cache set : (jwks o now answer cache).2 = Ok set ↔ current_set o now answer cache set.
Proof.
  unfold jwks, current_set. set (cached := mbind _ cache).
  assert (Hc : cached = (c ← cache; if jwks_fresh now c.(jc_fetched_at) then Some c else None)) by done.
  assert (Hf : cached = None → (match (fail_if bool_decide (jwks_uri (oi_metadata o) = [])
          with InvalidIdToken (str "provider did not advertise a JWKS URI") ;;
        let? body := body_of (str "JWKS request failed: ") answer in
        let? set := map_err (λ e, InvalidIdToken (str "invalid JWKS: " ++ e)) (jwks_from_json body) in
        match jwk_keys set with
        | [] => Err (InvalidIdToken (str "JWKS contains no keys"))
        | _ => Ok set
        end) with Ok set => (Some {| jc_fetched_at := now; jc_set := set |}, Ok set) | Err e => (cache, Err e) end).2 = Ok set
      ↔ o.(oi_metadata).(jwks_uri) ≠ [] ∧ jwk_keys set ≠ [] ∧ ∃ body, answer = HttpBody body ∧ jwks_from_json body = Ok set).
  { intros _. case_bool_decide as Hu; [naive_solver|]. destruct answer as [body|e|code e|e]; cbn [body_of rbind]; [|naive_solver..].
    destruct (jwks_from_json body) as [s|e] eqn:Hj; cbn [map_err rbind].
    2: { split; [done|]. intros (_ & _ & body' & [= <-] & Hs). congruence. }
    destruct (jwk_keys s) eqn:Hk; cbn [snd]; split.
    - done.
    - intros (_ & Hne & body' & [= <-] & Hs). rewrite Hj in Hs. injection Hs as ->. done.
    - intros [= <-]. split; [done|]. split; [by rewrite Hk|]. by exists body.
    - intros (_ & _ & body' & [= <-] & Hs). rewrite Hj in Hs. by injection Hs as ->. }
  destruct cached as [c|].
  - cbn [snd]. symmetry in Hc. apply bind_Some in Hc as (c' & -> & Hfr). destruct (jwks_fresh now (jc_fetched_at c')) eqn:Hq; [|done].
    injection Hfr as ->. split; [intros [= <-]; left; by exists c|].
    intros [(c' & [= <-] & _ & ->)|(Hn & _)]; [done|]. specialize (Hn c eq_refl). congruence.
  - rewrite (Hf eq_refl). assert (Hno : ∀ c, cache = Some c → jwks_fresh now (jc_fetched_at c) = false).
    { intros c ->. cbn in Hc. by destruct (jwks_fresh now (jc_fetched_at c)). }
    split; [intros ?; by right|]. intros [(c & Hx & Hy & _)|(_ & ?)]; [|done]. rewrite (Hno c Hx) in Hy. done.
Qed.

(** The key a token of this algorithm is checked with. *)
Definition trusted_key (o : OidcClient) (now : Z) (answer : http_answer) (cache : option JwkCache) (alg : Algorithm)
    (kid : option text) (key : DecodingKey) : Prop :=
  (alg ∈ [RS256; RS384; RS512] ∧ ∃ id set jwk, kid = Some id ∧ current_set o now answer cache set
     ∧ jwk_find set id = Some jwk ∧ key_from_jwk jwk = Ok key)
  ∨ (alg = HS256 ∧ key = key_from_secret o.(oi_config).(oc_client_secret)).

Lemma rsa_key_ok kid set key :
  rsa_key kid set = Ok key ↔ ∃ id jwk, kid = Some id ∧ jwk_find set id = Some jwk ∧ key_from_jwk jwk = Ok key.
Proof.
  unfold rsa_key. destruct kid as [id|]; [|naive_solver]. destruct (jwk_find set id) as [jwk|] eqn:Hf; [|naive_solver].
  destruct (key_from_jwk jwk) as [k|e] eqn:Hk; cbn [map_err].
  2: { split; [done|]. intros (? & ? & [= <-] & Hj & Hx). congruence. }
  split; [intros [= <-]; by exists id, jwk|]. intros (? & ? & [= <-] & Hj & Hx). congruence.
Qed.

Lemma token_key_ok o now answer alg kid cache key :
  (token_key o now answer alg kid cache).2 = Ok key ↔ trusted_key o now answer cache alg kid key.
Proof.
  assert (Hrs : ((let '(cache, set) := jwks o now answer cache in (cache, let? set := set in rsa_key kid set)).2 = Ok key)
    ↔ ∃ id set jwk, kid = Some id ∧ current_set o now answer cache set ∧ jwk_find set id = Some jwk ∧ key_from_jwk jwk = Ok key).
  { pose proof (jwks_ok o now answer cache) as Hj. destruct (jwks o now answer cache) as [c [set|e]]; cbn [snd rbind] in *.
    - rewrite rsa_key_ok. pose proof (proj1 (Hj set) eq_refl) as Hset. split.
      + intros (id & jwk & H1 & H2 & H3). by exists id, set, jwk.
      + intros (id & set' & jwk & H1 & H2%Hj & H3). injection H2 as <-. by exists id, jwk.
    - split; [done|]. intros (id & set' & jwk & _ & H2%Hj & _). done. }
  unfold token_key, trusted_key. destruct alg; try (rewrite Hrs; set_solver); cbn [snd]; set_solver.
Qed.

(** C17. A token gives a profile exactly when its header names an algorithm the provider
    declares, its signature and its claims hold under the key of that algorithm (the
    provider's own by its id, or the client secret) for this client and this issuer, and
    it carries the nonce of the flow; the profile is that of its claims. *)
Theorem id_token_accepted o flow now answer id_token cache profile :
  (validate_id_token o flow now answer id_token cache).2 = Ok profile ↔
  ∃ alg kid key claims,
    decode_header id_token = Ok (alg, kid) ∧ trusted_key o now answer cache alg kid key
    ∧ alg_declared o alg = true ∧ decode_token id_token key (validation o alg) = Ok claims
    ∧ claims.(cl_nonce) = Some flow.(of_nonce) ∧ profile = profile_of claims.
Proof.
  unfold validate_id_token. destruct (decode_header id_token) as [[alg kid]|e]; [|naive_solver].
  pose proof (token_key_ok o now answer alg kid cache) as Hk.
  destruct (token_key o now answer alg kid cache) as [cache' key]. cbn [snd] in *.
  transitivity (∃ k, key = Ok k ∧ alg_declared o alg = true
    ∧ ∃ claims, decode_token id_token k (validation o alg) = Ok claims ∧ claims.(cl_nonce) = Some flow.(of_nonce)
                ∧ profile = profile_of claims).
  - destruct key as [k|e]; cbn [rbind]; [|naive_solver]. destruct (alg_declared o alg); cbn [negb]; [|naive_solver].
    destruct (decode_token id_token k (validation o alg)) as [claims|e] eqn:Hd; cbn [map_err rbind].
    2: { split; [done|]. intros (? & [= <-] & _ & c & Hc & _). congruence. }
    case_bool_decide as Hn; cbn [negb].
    + split; [intros [= <-]; exists k; split_and!; try done; by exists claims|].
      intros (? & [= <-] & _ & c & Hc & _ & ->). congruence.
    + split; [done|]. intros (? & [= <-] & _ & c & Hc & Hx & _). congruence.
  - split.
    + intros (k & Hkey & H1 & claims & H2 & H3 & H4). apply Hk in Hkey. by exists alg, kid, k, claims.
    + intros (alg' & kid' & k & claims & [= <- <-] & H1%Hk & H2 & H3 & H4 & H5). exists k. split_and!; try done. by exists claims.
Qed.

(** A key the provider has put in place since is not known for an hour. *)
Lemma rotated_key_refused o flow now answer id_token c alg id :
  decode_header id_token = Ok (alg, Some id) → alg ∈ [RS256; RS384; RS512] →
  jwks_fresh now c.(jc_fetched_at) = true → jwk_find c.(jc_set) id = None →
  (validate_id_token o flow now answer id_token (Some c)).2 = Err (InvalidIdToken (str "no JWK for kid " ++ id)).
Proof.
  intros Hh Ha Hf Hn. unfold validate_id_token. rewrite Hh. unfold token_key, jwks. cbn [mbind option_bind]. rewrite Hf.
  assert (Hr : rsa_key (Some id) (jc_set c) = Err (InvalidIdToken (str "no JWK for kid " ++ id))) by (unfold rsa_key; by rewrite Hn).
  destruct alg; try set_solver; cbn [snd rbind]; by rewrite Hr.
Qed.

(** A clock that has gone back makes every key set fresh. *)
Lemma clock_back_keeps_keys now fetched_at : now < fetched_at → jwks_fresh now fetched_at = true.
Proof. intros Hn. unfold jwks_fresh. destruct (Z.leb_spec fetched_at now); [lia|done]. Qed.

End tokens.

(** ** A provider *)

(** One key; an ID token is the nonce it carries. *)
#[global] Instance demo_oidc_library : OidcLibrary := {|
  JwkSet := list (text * text);
  Jwk := text * text;
  DecodingKey := text;
  metadata_from_json _ := Err (str "no document");
  id_token_from_json body := Ok body;
  jwks_from_json body := Ok [(str "k1", body)];
  jwk_keys set := set;
  jwk_find set kid := List.find (λ k, bool_decide (k.1 = kid)) set;
  key_from_jwk jwk := Ok jwk.2;
  key_from_secret secret := secret;
  decode_header _ := Ok (RS256, Some (str "k1"));
  decode_token token key v :=
    if bool_decide (key = str "published")
    then Ok {| cl_sub := str "sub-1"; cl_nonce := Some token; cl_email := Some (str "ana@example.com"); cl_name := None |}
    else Err (str "bad signature");
  url_with_pairs u pairs := Ok (u ++ str "?" ++ flat_map (λ kv, kv.1 ++ [61] ++ kv.2 ++ [38]) pairs) |}.

Definition demo_oidc : OidcClient :=
  {| oi_config := {| oc_issuer := str "https://id.example"; oc_client_id := str "crab"; oc_client_secret := str "s";
                     oc_redirect_uri := str "https://hs.example/oidc/callback"; oc_scope := str "openid email" |};
     oi_metadata := {| md_issuer := str "https://id.example"; authorization_endpoint := str "https://id.example/auth";
                       token_endpoint := str "https://id.example/token"; jwks_uri := str "https://id.example/keys";
                       signing_algs := None |} |}.

Lemma id_token_accepted_witness :
  (validate_id_token demo_oidc {| of_auth_id := str "a"; of_nonce := str "n"; of_expires_at := 600 |} 0
     (HttpBody (str "published")) (str "n") None).2
  = Ok {| oidc_subject := str "sub-1"; oidc_email := str "ana@example.com"; oidc_display_name := str "ana@example.com" |}.
Proof.
  apply (id_token_accepted demo_oidc {| of_auth_id := str "a"; of_nonce := str "n"; of_expires_at := 600 |} 0
     (HttpBody (str "published")) (str "n") None).
  exists RS256, (Some (str "k1")), (str "published"),
    {| cl_sub := str "sub-1"; cl_nonce := Some (str "n"); cl_email := Some (str "ana@example.com"); cl_name := None |}.
  split; [done|]. split; [|by vm_compute]. left. split; [by left|].
  exists (str "k1"), [(str "k1", str "published")], (str "k1", str "published"). split; [done|]. split; [|by vm_compute].
  right. split; [done|]. split; [done|]. split; [done|]. by exists (str "published").
Defined.
