(* ===== verification/Router.v ===== *)
(** * The control router ([crabscale-server/src/router.rs])

    The handlers of the outer endpoints and of the requests inside the Noise
    connection, over the control plane, the OIDC flows and the two rate limiters.  A
    handler is a function of the router; [None] is a call of the control plane that
    does not return.  Where the source waits, what other requests do meanwhile is an
    argument.  What it reads from clocks and the random generator is a [Moment]; the
    JSON of requests is [serde_json]'s. *)

From S2P Require Import Prelude ProtoKey ProtoFrame Text Net IpText Pending Sessions Events PolicyModel NetMap PreAuth Store Dns SshPolicy Delta Control Registration MapRequest Url SshCheck TransportRecord Proxy RateLimit Upgrade Http Oidc.

Definition VERIFY_MAX_BODY_LEN : Z := 4096.

Record StreamSession : Type := {
  ss_first_frame : bytes; ss_keep_alive : bool; ss_compress : bool; ss_session_id : Z; ss_node_id : Z;
  ss_last_sent : SessionPeers; ss_client_version : Z }.

(** [serde_json::from_slice] at the four request types. *)
Class RequestJson : Type := {
  register_from_json : bytes → option RegisterRequest;
  map_from_json : bytes → option MapRequest;
  logout_from_json : bytes → option bytes;
  verify_from_json : bytes → option bytes }.

(** [HeaderValue::from_str] and the version the binary was built as. *)
Class HttpLibrary : Type := { header_value : text → bool; pkg_version : text }.

(** What a request reads: the control plane's clocks and random bytes, the
    monotonic clock and the walk of the limiter's table, the secrets of a new
    flow, the system clock in nanoseconds. *)
Record Moment : Type := {
  mo_ambient : Ambient; mo_instant : Z; mo_walk : list text; mo_state : bytes; mo_nonce : bytes; mo_system : Z }.

Section router.
  Context `{Q : Sqlite, C : KeyCrypto, T : Rfc3339, W : WireCodec, L : OidcLibrary, J : RequestJson, H : HttpLibrary}.
  Context (cfg : ControlConfig) (stack : nat).

Record ControlRouter : Type := {
  machine_key : bytes;
  control : ControlPlane;
  oidc : option OidcClient;
  jwks_cache : option JwkCache;
  oidc_flows : OidcFlowStore;
  bootstrap_dns : option BootstrapDns;
  ts2021_limiter : RateLimiter;
  register_limiter : RateLimiter }.

Definition ControlRouter_with_control (key : bytes) (p : ControlPlane) : ControlRouter :=
  {| machine_key := key; control := p; oidc := None; jwks_cache := None;
     oidc_flows := OidcFlowStore_new DEFAULT_OIDC_FLOW_LIMIT DEFAULT_OIDC_FLOW_TTL_SECONDS; bootstrap_dns := None;
     ts2021_limiter := RateLimiter_new RateLimitConfig_default.(ts2021_per_min) RateLimitConfig_default.(ts2021_burst)
                         RateLimitConfig_default.(cfg_max_entries);
     register_limiter := RateLimiter_new RateLimitConfig_default.(register_per_min) RateLimitConfig_default.(register_burst)
                           RateLimitConfig_default.(cfg_max_entries) |}.

Definition with_oidc (o : OidcClient) (r : ControlRouter) : ControlRouter :=
  {| machine_key := r.(machine_key); control := r.(control); oidc := Some o; jwks_cache := None;
     oidc_flows := r.(oidc_flows); bootstrap_dns := r.(bootstrap_dns); ts2021_limiter := r.(ts2021_limiter);
     register_limiter := r.(register_limiter) |}.

Definition set_flows (f : OidcFlowStore) (r : ControlRouter) : ControlRouter :=
  {| machine_key := r.(machine_key); control := r.(control); oidc := r.(oidc); jwks_cache := r.(jwks_cache);
     oidc_flows := f; bootstrap_dns := r.(bootstrap_dns); ts2021_limiter := r.(ts2021_limiter);
     register_limiter := r.(register_limiter) |}.

Definition with_oidc_flow_ttl (ttl_seconds : Z) (r : ControlRouter) : ControlRouter :=
  set_flows (OidcFlowStore_new DEFAULT_OIDC_FLOW_LIMIT ttl_seconds) r.

Definition with_bootstrap_dns (dns : BootstrapDns) (r : ControlRouter) : ControlRouter :=
  {| machine_key := r.(machine_key); control := r.(control); oidc := r.(oidc); jwks_cache := r.(jwks_cache);
     oidc_flows := r.(oidc_flows); bootstrap_dns := Some dns; ts2021_limiter := r.(ts2021_limiter);
     register_limiter := r.(register_limiter) |}.

Definition set_limiters (t g : RateLimiter) (r : ControlRouter) : ControlRouter :=
  {| machine_key := r.(machine_key); control := r.(control); oidc := r.(oidc); jwks_cache := r.(jwks_cache);
     oidc_flows := r.(oidc_flows); bootstrap_dns := r.(bootstrap_dns); ts2021_limiter := t; register_limiter := g |}.

Definition with_rate_limits (c : RateLimitConfig) (r : ControlRouter) : ControlRouter :=
  set_limiters (RateLimiter_new c.(ts2021_per_min) c.(ts2021_burst) c.(cfg_max_entries))
    (RateLimiter_new c.(register_per_min) c.(register_burst) c.(cfg_max_entries)) r.

Definition set_control (p : ControlPlane) (r : ControlRouter) : ControlRouter :=
  {| machine_key := r.(machine_key); control := p; oidc := r.(oidc); jwks_cache := r.(jwks_cache);
     oidc_flows := r.(oidc_flows); bootstrap_dns := r.(bootstrap_dns); ts2021_limiter := r.(ts2021_limiter);
     register_limiter := r.(register_limiter) |}.

Definition set_jwks (c : option JwkCache) (r : ControlRouter) : ControlRouter :=
  {| machine_key := r.(machine_key); control := r.(control); oidc := r.(oidc); jwks_cache := c;
     oidc_flows := r.(oidc_flows); bootstrap_dns := r.(bootstrap_dns); ts2021_limiter := r.(ts2021_limiter);
     register_limiter := r.(register_limiter) |}.

(** A method of the control plane. *)
Definition on_plane {A} (m : handler A) (r : ControlRouter) : option (ControlRouter * result A ControlError) :=
  match m r.(control) with
  | Some (p, x) => Some (set_control p r, x)
  | None => None
  end.

Definition key_text (key : bytes) : text := to_key_string MachineKey key.

Definition check_ts2021_rate (mo : Moment) (ip : IpAddr) (r : ControlRouter) : ControlRouter * option Z :=
  let '(t, x) := check mo.(mo_walk) (show_ip ip) mo.(mo_instant) r.(ts2021_limiter) in
  (set_limiters t r.(register_limiter) r, x).

Definition check_register_rate (mo : Moment) (key : bytes) (r : ControlRouter) : ControlRouter * option Z :=
  let '(g, x) := check mo.(mo_walk) (key_text key) mo.(mo_instant) r.(register_limiter) in
  (set_limiters r.(ts2021_limiter) g r, x).

(** ** Outer endpoints *)

Definition handle_key (capver : option text) (r : ControlRouter) : HttpResponse :=
  let supported :=
    match capver with
    | Some v => match parse_uint (2 ^ 32 - 1) v with Some v => CapVer.MIN_SUPPORTED_CAPVER <=? v | None => false end
    | None => false
    end in
  if negb supported then key_bad_request
  else json_response 200
         (JsonBody (JObject [(str "legacyPublicKey", JString []); (str "publicKey", JString (key_text r.(machine_key)))])).

Definition handle_verify (b : bytes) (r : ControlRouter) : HttpResponse :=
  if VERIFY_MAX_BODY_LEN <? zlen b then plain_response 413 (str "body too large")
  else
    match verify_from_json b with
    | None => plain_response 400 (str "invalid verify request")
    | Some node_public => json_response 200 (VerifyBody (node_is_authorized node_public r.(control)))
    end.

Definition handle_bootstrap_dns (q : option text) (r : ControlRouter) : HttpResponse :=
  match r.(bootstrap_dns) with
  | None => plain_response 404 (str "bootstrap DNS not configured")
  | Some dns => BootstrapDns_handle dns q
  end.

Definition handle_health : HttpResponse := json_response 200 (JsonBody (JObject [(str "status", JString (str "ok"))])).

Definition handle_version : HttpResponse :=
  json_response 200
    (JsonBody (JObject [(str "name", JString (str "crabscale-server")); (str "protocol_version", JNumber (PosInt cfg.(cfg_protocol_version)));
                        (str "version", JString pkg_version)])).

Definition handle_metrics : HttpResponse :=
  {| status := 200; headers := [(CONTENT_TYPE, str "text/plain; version=0.0.4; charset=utf-8")]; body := MetricsBody |}.

Definition quote : text := [34].

Definition register_page (auth_id hostname expires_at : text) : text :=
  str "<!doctype html><html><head><meta charset=" ++ quote ++ str "utf-8" ++ quote
  ++ str "><title>Pending registration</title></head>             <body><h1>Pending registration</h1>             <p>Auth id: <code>"
  ++ escape_html auth_id ++ str "</code></p>             <p>Hostname: <code>" ++ escape_html hostname
  ++ str "</code></p>             <p>Expires: <code>" ++ escape_html expires_at
  ++ str "</code></p>             <p>Approve or reject this registration with the <code>crabscale auth</code> CLI.</p>             </body></html>".

Definition approved_page (email : text) : text :=
  str "<!doctype html><html><head><meta charset=" ++ quote ++ str "utf-8" ++ quote
  ++ str "><title>Registration approved</title></head><body><h1>Registration approved</h1><p>The node is now authorized to join the tailnet.</p><p>Login: <code>"
  ++ escape_html email ++ str "</code></p></body></html>".

(** The redirect to the provider, for a flow that has just begun. *)
Definition begin_oidc (mo : Moment) (auth_id : text) (o : OidcClient) (r : ControlRouter) : ControlRouter * HttpResponse :=
  let '(flows, (state, flow)) :=
    flow_begin mo.(mo_state) mo.(mo_nonce) auth_id mo.(mo_ambient).(am_unix) r.(oidc_flows) in
  (set_flows flows r,
   match authorization_url o state flow.(of_nonce) with
   | Ok location => found_response header_value location
   | Err _ => plain_response 500 (str "failed to start OIDC authorization")
   end).

Definition handle_register_page (mo : Moment) (auth_id : text) (r : ControlRouter) : option (ControlRouter * HttpResponse) :=
  match on_plane (pending_info mo.(mo_ambient) auth_id) r with
  | None => None
  | Some (r, Err _) => Some (r, plain_response 500 (str "internal error"))
  | Some (r, Ok None) => Some (r, plain_response 404 (str "pending registration not found"))
  | Some (r, Ok (Some pending)) =>
      match r.(oidc) with
      | Some o => Some (begin_oidc mo auth_id o r)
      | None =>
          let hostname := match pending.(p_hostinfo) with Some h => h.(hi_hostname) | None => str "unknown" end in
          Some (r, html_response (register_page auth_id hostname pending.(p_expires_at)))
      end
  end.

(** The end of a callback: the profile is recorded and the registration approved. *)
Definition approve_profile (mo : Moment) (flow : OidcFlow) (profile : OidcProfile) (r : ControlRouter)
    : option (ControlRouter * HttpResponse) :=
  match on_plane (upsert_oidc_user mo.(mo_ambient) profile) r with
  | None => None
  | Some (r, Err _) => Some (r, plain_response 500 (str "failed to record OIDC identity"))
  | Some (r, Ok _) =>
      match on_plane (approve_pending cfg stack mo.(mo_ambient) flow.(of_auth_id) profile.(oidc_email)) r with
      | None => None
      | Some (r, Ok _) => Some (r, html_response (approved_page profile.(oidc_email)))
      | Some (r, Err _) => Some (r, plain_response 400 (str "registration is no longer pending"))
      end
  end.

(** The exchange, on a thread of its own ([None] is one that panics), while other
    requests run. *)
Definition exchange_and_approve (mo : Moment) (o : OidcClient) (flow : OidcFlow)
    (answers : option (http_answer * http_answer)) (meanwhile : ControlRouter → ControlRouter) (r : ControlRouter)
    : option (ControlRouter * HttpResponse) :=
  let r := meanwhile r in
  match answers with
  | None => Some (r, plain_response 500 (str "OIDC exchange task failed"))
  | Some (token_answer, jwks_answer) =>
      let '(cache, exchanged) := complete o flow mo.(mo_system) token_answer jwks_answer r.(jwks_cache) in
      let r := set_jwks cache r in
      match exchanged with
      | Err _ => Some (r, plain_response 400 (str "OIDC callback validation failed"))
      | Ok profile => approve_profile mo flow profile r
      end
  end.

Definition handle_oidc_callback (mo : Moment) (query : text) (answers : option (http_answer * http_answer))
    (meanwhile : ControlRouter → ControlRouter) (r : ControlRouter) : option (ControlRouter * HttpResponse) :=
  match r.(oidc) with
  | None => Some (r, plain_response 404 (str "oidc not configured"))
  | Some o =>
      let params := parse_query query in
      match params !! str "error" with
      | Some _ => Some (r, plain_response 400 (str "oidc provider reported an error"))
      | None =>
          match params !! str "state", params !! str "code" with
          | Some state, Some code =>
              let '(flows, flow) := flow_take state mo.(mo_ambient).(am_unix) r.(oidc_flows) in
              let r := set_flows flows r in
              match flow with
              | None => Some (r, plain_response 400 (str "invalid, expired, or reused OIDC state"))
              | Some flow =>
                  match on_plane (pending_info mo.(mo_ambient) flow.(of_auth_id)) r with
                  | None => None
                  | Some (r, Ok (Some _)) => exchange_and_approve mo o flow answers meanwhile r
                  | Some (r, _) => Some (r, plain_response 400 (str "registration is no longer pending"))
                  end
              end
          | _, _ => Some (r, plain_response 400 (str "missing state or code"))
          end
      end
  end.

(** ** Inner requests *)

(** What a request inside the connection comes to: an answer, or a stream of maps. *)
Inductive InnerAnswer : Type := Answered (resp : HttpResponse) | Streams (session : StreamSession).

Definition handle_register (mo : Moment) (key : bytes) (b : bytes) (r : ControlRouter)
    : option (ControlRouter * HttpResponse) :=
  let '(r, limited) := check_register_rate mo key r in
  match limited with
  | Some retry_after => Some (r, rate_limited_response retry_after)
  | None =>
      match register_from_json b with
      | None => Some (r, plain_response 400 (str "invalid register request"))
      | Some request =>
          match register cfg stack mo.(mo_ambient) key request r.(control) with
          | None => None
          | Some (p, response) => Some (set_control p r, json_response 200 (RegisterBody response))
          end
      end
  end.

Definition handle_logout (key : bytes) (b : bytes) (r : ControlRouter) : option (ControlRouter * HttpResponse) :=
  match logout_from_json b with
  | None => Some (r, plain_response 400 (str "invalid logout request"))
  | Some node_key =>
      match on_plane (logout cfg key node_key) r with
      | None => None
      | Some (r, Ok response) => Some (r, json_response 200 (RegisterBody response))
      | Some (r, Err NotFound) => Some (r, plain_response 404 (str "node not found"))
      | Some (r, Err _) => Some (r, plain_response 500 (str "internal error"))
      end
  end.

Definition map_error_status (e : ControlError) : Z :=
  match e with
  | NotFound => 404
  | UnsupportedVersion _ => 400
  | InvalidEndpointTypes => 400
  | _ => 500
  end.

Definition map_error_body (e : ControlError) : text :=
  match e with
  | NotFound => str "node not found"
  | UnsupportedVersion _ => str "unsupported capability version"
  | InvalidEndpointTypes => str "endpoint_types length does not match endpoints length"
  | _ => str "internal error"
  end.

Definition router_handle_map (mo : Moment) (key : bytes) (b : bytes) (r : ControlRouter)
    : option (ControlRouter * InnerAnswer) :=
  match map_from_json b with
  | None => Some (r, Answered (plain_response 400 (str "invalid map request")))
  | Some request =>
      match on_plane (handle_map cfg stack mo.(mo_ambient) key request) r with
      | None => None
      | Some (r, Ok LiteUpdate) => Some (r, Answered (empty_response 200))
      | Some (r, Ok (FullFrame frame)) => Some (r, Answered (bytes_response 200 frame))
      | Some (r, Ok (MapStream first_frame keep_alive compress session_id node_id initial_peers version)) =>
          Some (r, Streams {| ss_first_frame := first_frame; ss_keep_alive := keep_alive; ss_compress := compress;
                              ss_session_id := session_id; ss_node_id := node_id; ss_last_sent := initial_peers;
                              ss_client_version := version |})
      | Some (r, Err e) => Some (r, Answered (plain_response (map_error_status e) (map_error_body e)))
      end
  end.

(** [rounds]: what other requests do while the answer waits for a verdict. *)
Definition router_handle_ssh_action (mo : Moment) (key : bytes) (query : option text) (src dst : Z)
    (rounds : list (text * (ControlPlane → ControlPlane))) (r : ControlRouter) : option (ControlRouter * HttpResponse) :=
  let params := parse_query (default [] query) in
  let b := {| b_src := src; b_dst := dst; b_ssh_user := default [] (params !! str "ssh_user");
              b_local_user := default [] (params !! str "local_user") |} in
  match on_plane (handle_ssh_action cfg stack mo.(mo_ambient) key b (params !! str "auth_id") rounds) r with
  | None => None
  | Some (r, Ok action) => Some (r, json_response 200 (SshActionBody action))
  | Some (r, Err NotFound) => Some (r, plain_response 404 (str "node or auth not found"))
  | Some (r, Err Unauthorized) => Some (r, plain_response 401 (str "unauthorized"))
  | Some (r, Err (SshBinding _)) => Some (r, plain_response 400 (str "ssh binding mismatch"))
  | Some (r, Err TimedOut) => Some (r, plain_response 408 (str "ssh approval timed out"))
  | Some (r, Err _) => Some (r, plain_response 500 (str "internal error"))
  end.

Definition whoami (key : bytes) : HttpResponse :=
  json_response 200
    (JsonBody (JObject [(str "machineKey", JString (key_text key));
                        (str "protocolVersion", JNumber (PosInt cfg.(cfg_protocol_version)))])).

(** The endpoints that answer 501. *)
Definition NOT_IMPLEMENTED : list (text * text) :=
  [(str "POST", str "/machine/set-dns"); (str "PATCH", str "/machine/set-device-attr"); (str "POST", str "/machine/audit-log");
   (str "POST", str "/machine/id-token"); (str "POST", str "/machine/feature/query");
   (str "POST", str "/machine/update-health"); (str "POST", str "/machine/c2n")].

Definition is_route (req : HttpRequest) (method path : text) : bool :=
  bool_decide (req.(hr_method) = method) && bool_decide (req.(hr_path) = path).

Definition answered (o : option (ControlRouter * HttpResponse)) : option (ControlRouter * InnerAnswer) :=
  '(r, resp) ← o; Some (r, Answered resp).

Definition handle_inner (mo : Moment) (key : bytes) (req : HttpRequest)
    (rounds : list (text * (ControlPlane → ControlPlane))) (r : ControlRouter) : option (ControlRouter * InnerAnswer) :=
  match read_body_limited req.(hr_body) MAX_INNER_BODY_LEN with
  | Err BodyTooLarge => Some (r, Answered (plain_response 413 (str "body too large")))
  | Err _ => Some (r, Answered (plain_response 400 (str "invalid request body")))
  | Ok b =>
      if is_route req (str "GET") (str "/machine/whoami") then Some (r, Answered (whoami key))
      else if is_route req (str "POST") (str "/machine/register") then answered (handle_register mo key b r)
      else if is_route req (str "POST") (str "/machine/map") then router_handle_map mo key b r
      else if is_route req (str "POST") (str "/machine/logout") then answered (handle_logout key b r)
      else
        match (if bool_decide (req.(hr_method) = str "GET") then parse_ssh_action_path req.(hr_path) else None) with
        | Some (src, dst) => answered (router_handle_ssh_action mo key req.(hr_query) src dst rounds r)
        | None =>
            if bool_decide ((req.(hr_method), req.(hr_path)) ∈ NOT_IMPLEMENTED)
            then Some (r, Answered (plain_response 501 (str "not implemented")))
            else Some (r, Answered (plain_response 404 (str "not found")))
        end
  end.

(** ** The stream of a session *)

(** What wakes the writer: its timer, a batch, a lag of the channel, its end; the
    first two with whether the client takes the frame. *)
Inductive wake : Type :=
| WakeTimer (taken : bool)
| WakeBatch (batch : ChangeBatch) (taken : bool)
| WakeLagged
| WakeClosed.

(** How a turn of the loop ends. *)
Inductive turn : Type :=
| Continue (frames : list bytes) (last_sent : SessionPeers)
| Break.

Definition stream_turn (s : StreamSession) (last_sent : SessionPeers) (w : wake) (p : ControlPlane)
    : option (ControlPlane * turn) :=
  match w with
  | WakeTimer taken =>
      match keepalive_frame s.(ss_compress) with
      | Err _ => Some (p, Break)
      | Ok frame => Some (p, if taken then Continue [frame] last_sent else Break)
      end
  | WakeBatch batch taken =>
      if batch_is_empty batch then Some (p, Continue [] last_sent)
      else
        match build_delta cfg stack s.(ss_node_id) batch last_sent s.(ss_client_version) p with
        | None => None
        | Some (p, Err _) => Some (p, Continue [] last_sent)
        | Some (p, Ok (last_sent, None)) => Some (p, Continue [] last_sent)
        | Some (p, Ok (last_sent, Some response)) =>
            match encode_frame response s.(ss_compress) with
            | Err _ => Some (p, Continue [] last_sent)
            | Ok frame => Some (p, if taken then Continue [frame] last_sent else Break)
            end
        end
  | WakeLagged => Some (p, Continue [] last_sent)
  | WakeClosed => Some (p, Break)
  end.

(** The loop: before each wake other requests run, and the time of a [Break] is
    given; the frames that were sent, and whether the session has ended. *)
Fixpoint stream_loop (s : StreamSession) (wakes : list ((ControlPlane → ControlPlane) * wake * Z))
    (last_sent : SessionPeers) (p : ControlPlane) : option (ControlPlane * list bytes * bool) :=
  match wakes with
  | [] => Some (p, [], false)
  | (others, w, now) :: wakes =>
      match stream_turn s last_sent w (others p) with
      | None => None
      | Some (p, Break) => Some (close_session s.(ss_session_id) now p, [], true)
      | Some (p, Continue frames last_sent) =>
          '(p, more, ended) ← stream_loop s wakes last_sent p;
          Some (p, frames ++ more, ended)
      end
  end.

(** [headed] and [taken]: whether the head of the answer and the first frame go out. *)
Definition send_stream (s : StreamSession) (headed taken : bool) (now : Z)
    (wakes : list ((ControlPlane → ControlPlane) * wake * Z)) (p : ControlPlane)
    : option (ControlPlane * list bytes * bool) :=
  if negb headed || negb taken then Some (close_session s.(ss_session_id) now p, [], true)
  else if negb s.(ss_keep_alive) then Some (close_session s.(ss_session_id) now p, [s.(ss_first_frame)], true)
  else
    '(p, more, ended) ← stream_loop s wakes s.(ss_last_sent) p;
    Some (p, s.(ss_first_frame) :: more, ended).

End router.
