(* ===== verification/PlaneInv.v ===== *)
(** * What every operation of the control plane keeps

    For every handler, of registration, of map requests and of the SSH check,
    the relation between the stores before and after it that the properties of
    reachable planes follow from: which tables it touches, the history of the
    pre-auth keys, the integrity of the tables. *)

From S2P Require Import Prelude Text Net IpText PolicyModel PolicyTags ProtoFrame IpAlloc Pending Sessions Events NetMap PreAuth Store Dns SshPolicy Control Registration Delta MapRequest SshCheck.

(** A relation between stores, on planes. *)
Definition on_store (R : Store → Store → Prop) (p p' : ControlPlane) : Prop :=
  R p.(cp_store) p'.(cp_store).

#[global] Instance on_store_preorder R `{!PreOrder R} : PreOrder (on_store R).
Proof. split; unfold on_store; [by intros p|by intros p q r H1 H2; trans (cp_store q)]. Qed.

(** ** Handlers keep what the statements keep *)

(** The statements that change the table of nodes. *)
Definition touches_nodes (op : store_op) : bool :=
  match op with UpsertNode _ | DeleteNode _ => true | _ => false end.

Section keeps_exec.
  Context (R : Store → Store → Prop) `{!PreOrder R}.

Lemma keeps_exec {A} (f : sql A) : (∀ s, R s (f s).1) → keeps (on_store R) (exec f).
Proof.
  intros Hf p. apply post_exec. intros s r E. unfold on_store. cbn [set_store cp_store].
  specialize (Hf (cp_store p)). by rewrite E in Hf.
Qed.

Lemma keeps_modify f :
  (∀ p, (f p).(cp_store) = p.(cp_store)) → keeps (on_store R) (modify f).
Proof. intros Hf p. apply post_modify. unfold on_store. by rewrite Hf. Qed.

Lemma keeps_same {A} (m : handler A) :
  (∀ p p' r, m p = Some (p', r) → p'.(cp_store) = p.(cp_store)) → keeps (on_store R) m.
Proof. intros Hm p p' r E. unfold on_store. by rewrite (Hm p p' r E). Qed.

End keeps_exec.

Lemma open_session_store n e now p : (open_session n e now p).1.(cp_store) = p.(cp_store).
Proof.
  unfold open_session. destruct (session_open n e now (cp_sessions p)) as [[r i] evs]. cbn [fst].
  assert (Hf : ∀ q, (fold_left publish_online evs q).(cp_store) = q.(cp_store)); [|by rewrite Hf].
  induction evs as [|ev evs IH]; intros q; [done|]. cbn [fold_left]. rewrite IH. by destruct ev.
Qed.

(** The handlers that leave the nodes alone. *)
Section keeps_others.
  Context `{Q : Sqlite, C : KeyCrypto, T : Rfc3339} (cfg : ControlConfig) (stack : nat).
  Context (R : Store → Store → Prop) `{!PreOrder R}.
  Hypothesis R_step : ∀ op s, touches_nodes op = false → R s (store_step op s).

Lemma keeps_publish e : keeps (on_store R) (publish_change e).
Proof. by apply keeps_modify. Qed.
Lemma keeps_pending_insert e : keeps (on_store R) (pending_insert e).
Proof. by apply keeps_modify. Qed.
Lemma keeps_pending_remove a : keeps (on_store R) (pending_remove a).
Proof. by apply keeps_modify. Qed.
Lemma keeps_create_user u : keeps (on_store R) (exec (create_user u)).
Proof. apply keeps_exec. intros s. by apply (R_step (CreateUser u)). Qed.
Lemma keeps_create_login l : keeps (on_store R) (exec (create_login l)).
Proof. apply keeps_exec. intros s. by apply (R_step (CreateLogin l)). Qed.
Lemma keeps_display i n : keeps (on_store R) (exec (update_user_display_name i n)).
Proof. apply keeps_exec. intros s. by apply (R_step (UpdateDisplayName i n)). Qed.
Lemma keeps_insert_key k : keeps (on_store R) (exec (insert_pre_auth_key k)).
Proof. apply keeps_exec. intros s. by apply (R_step (CreateKey k)). Qed.
Lemma keeps_mark i : keeps (on_store R) (exec (mark_pre_auth_key_used i)).
Proof. apply keeps_exec. intros s. by apply (R_step (MarkUsed i)). Qed.
Lemma keeps_revoke x : keeps (on_store R) (exec (revoke_pre_auth_key x)).
Proof. apply keeps_exec. intros s. by apply (R_step (RevokeKey x)). Qed.
Lemma keeps_save_pending e : keeps (on_store R) (exec (save_pending e)).
Proof. apply keeps_exec. intros s. by apply (R_step (SavePending e)). Qed.
Lemma keeps_delete_pending a : keeps (on_store R) (exec (delete_pending a)).
Proof. apply keeps_exec. intros s. by apply (R_step (DeletePending a)). Qed.

Lemma keeps_save_ssh e : keeps (on_store R) (exec (save_ssh_auth e)).
Proof. apply keeps_exec. intros s. by apply (R_step (SaveSsh e)). Qed.
Lemma keeps_delete_ssh a : keeps (on_store R) (exec (delete_ssh_auth a)).
Proof. apply keeps_exec. intros s. by apply (R_step (DeleteSsh a)). Qed.

#[local] Hint Resolve keeps_publish keeps_pending_insert keeps_pending_remove keeps_create_user
  keeps_create_login keeps_display keeps_insert_key keeps_mark keeps_revoke keeps_save_pending
  keeps_delete_pending keeps_save_ssh keeps_delete_ssh : keeps.

Lemma keeps_ensure_default_user : keeps (on_store R) (ensure_default_user cfg).
Proof. unfold ensure_default_user. cbv zeta. keeps_steps. Qed.
#[local] Hint Resolve keeps_ensure_default_user : keeps.

Lemma keeps_ensure_bootstrap_key amb : keeps (on_store R) (ensure_bootstrap_key cfg amb).
Proof. unfold ensure_bootstrap_key. keeps_steps. Qed.
#[local] Hint Resolve keeps_ensure_bootstrap_key : keeps.

Lemma keeps_resolve amb u : keeps (on_store R) (resolve_user_id amb u).
Proof. unfold resolve_user_id. keeps_steps. Qed.
#[local] Hint Resolve keeps_resolve : keeps.

Lemma keeps_oidc amb x : keeps (on_store R) (upsert_oidc_user amb x).
Proof. unfold upsert_oidc_user. keeps_steps. Qed.
#[local] Hint Resolve keeps_oidc : keeps.

Lemma keeps_validated a now : keeps (on_store R) (validated_auth_key a now).
Proof. unfold validated_auth_key. keeps_steps. Qed.
#[local] Hint Resolve keeps_validated : keeps.

Lemma keeps_create_node amb m rq o t e :
  keeps (on_store R) (create_node_from_request cfg amb m rq o t e).
Proof. unfold create_node_from_request. keeps_steps. Qed.
#[local] Hint Resolve keeps_create_node : keeps.

Lemma keeps_node_owner n : keeps (on_store R) (node_owner_login n).
Proof. unfold node_owner_login. keeps_steps. Qed.
#[local] Hint Resolve keeps_node_owner : keeps.

Lemma keeps_apply_tags amb n l t : keeps (on_store R) (apply_request_tags cfg stack amb n l t).
Proof. unfold apply_request_tags. cbv zeta. keeps_steps. Qed.
#[local] Hint Resolve keeps_apply_tags : keeps.

Lemma keeps_remove_pending a : keeps (on_store R) (remove_pending_entry a).
Proof. unfold remove_pending_entry. keeps_steps. Qed.
#[local] Hint Resolve keeps_remove_pending : keeps.

Lemma keeps_get_pending a : keeps (on_store R) (get_pending_entry a).
Proof. unfold get_pending_entry. keeps_steps. Qed.
#[local] Hint Resolve keeps_get_pending : keeps.

Lemma keeps_interactive amb m rq : keeps (on_store R) (start_interactive cfg amb m rq).
Proof. unfold start_interactive. cbv zeta. keeps_steps. Qed.
#[local] Hint Resolve keeps_interactive : keeps.

Lemma keeps_live_pending amb a : keeps (on_store R) (live_pending_entry amb a).
Proof. unfold live_pending_entry. keeps_steps. Qed.
#[local] Hint Resolve keeps_live_pending : keeps.

Lemma keeps_save_verdict v e : keeps (on_store R) (save_verdict v e).
Proof. unfold save_verdict. cbv zeta. keeps_steps. Qed.
#[local] Hint Resolve keeps_save_verdict : keeps.

Lemma keeps_create_pre_auth_key amb x r e ex t :
  keeps (on_store R) (create_pre_auth_key cfg stack amb x r e ex t).
Proof. unfold create_pre_auth_key. cbv zeta. keeps_steps. Qed.
#[local] Hint Resolve keeps_create_pre_auth_key : keeps.

Lemma keeps_approve amb a u : keeps (on_store R) (approve_pending cfg stack amb a u).
Proof. unfold approve_pending. cbv zeta. keeps_steps. Qed.
#[local] Hint Resolve keeps_approve : keeps.

Lemma keeps_reject amb a : keeps (on_store R) (reject_pending amb a).
Proof. unfold reject_pending. keeps_steps. Qed.
#[local] Hint Resolve keeps_reject : keeps.

Lemma keeps_tagged amb rq ro n : keeps (on_store R) (tagged_by_request cfg stack amb rq ro n).
Proof. unfold tagged_by_request. keeps_steps. Qed.

Lemma keeps_build_map node rq : keeps (on_store R) (build_initial_map cfg stack node rq).
Proof.
  apply (keeps_same R). intros p p' r. unfold build_initial_map, viewing, diverging.
  destruct (initial_map _ _ _ _ _ _); [|done]. by intros [= <- _].
Qed.

Lemma keeps_streaming amb node rq resp frame : keeps (on_store R) (streaming_map amb node rq resp frame).
Proof.
  apply (keeps_same R). intros p p' r. unfold streaming_map.
  pose proof (open_session_store (dn_id node) (dn_ephemeral node) (am_unix amb) p) as Hs.
  destruct (open_session _ _ _ _) as [q i]. by intros [= <- _].
Qed.

(** What follows the write of a map request. *)
Lemma keeps_map_answer `{WireCodec} amb before node rq :
  keeps (on_store R)
    (let! _ := publish_observed before node in
     if negb rq.(mr_stream) && rq.(mr_omit_peers) && negb rq.(mr_read_only) then hret LiteUpdate
     else let! response := build_initial_map cfg stack node rq in
          let! frame := of_result (encode_frame response (bool_decide (rq.(mr_compress) = str "zstd"))) in
          if rq.(mr_stream) then streaming_map amb node rq response frame else hret (FullFrame frame)).
Proof.
  unfold publish_observed. pose proof keeps_build_map. pose proof keeps_streaming. keeps_steps.
Qed.

(** DNS and DERP map *)

Lemma keeps_reload `{RecordsJson} file : keeps (on_store R) (reload_dns_extra_records cfg file).
Proof.
  unfold reload_dns_extra_records. destruct (ds_extra_records_path _); [|apply keeps_fail, _].
  apply keeps_bind; [apply _|apply keeps_of_result, _|]. intros records.
  apply keeps_bind; [apply _|by apply keeps_modify|]. intros []. keeps_steps.
Qed.

Lemma keeps_set_derp m : keeps (on_store R) (set_derp_map m).
Proof. intros p p' r [= <- _]. unfold on_store. cbn [set_events set_derp cp_store]. done. Qed.

(** SSH check mode *)

Lemma keeps_live_ssh amb a : keeps (on_store R) (live_ssh_auth amb a).
Proof. unfold live_ssh_auth. keeps_steps. Qed.
#[local] Hint Resolve keeps_live_ssh : keeps.

Lemma keeps_decide_ssh amb a v : keeps (on_store R) (decide_ssh amb a v).
Proof. unfold decide_ssh. keeps_steps. Qed.
#[local] Hint Resolve keeps_decide_ssh : keeps.

Lemma keeps_approve_ssh amb a : keeps (on_store R) (approve_ssh amb a).
Proof. apply keeps_decide_ssh. Qed.

Lemma keeps_reject_ssh amb a : keeps (on_store R) (reject_ssh amb a).
Proof. apply keeps_decide_ssh. Qed.

Lemma keeps_recent_ssh amb b period : keeps (on_store R) (recent_ssh_acceptance amb b period).
Proof. unfold recent_ssh_acceptance. keeps_steps. Qed.
#[local] Hint Resolve keeps_recent_ssh : keeps.

Lemma keeps_prune_expired now es : keeps (on_store R) (prune_expired now es).
Proof. induction es as [|e es IH]; cbn [prune_expired]; keeps_steps. Qed.
#[local] Hint Resolve keeps_prune_expired : keeps.

Lemma keeps_delete_sshs es : keeps (on_store R) (delete_ssh_auths es).
Proof. induction es as [|e es IH]; cbn [delete_ssh_auths]; keeps_steps. Qed.
#[local] Hint Resolve keeps_delete_sshs : keeps.

Lemma keeps_prune_ssh amb limit : keeps (on_store R) (prune_ssh_auths amb limit).
Proof. unfold prune_ssh_auths. keeps_steps. Qed.
#[local] Hint Resolve keeps_prune_ssh : keeps.

Lemma keeps_hold_ssh amb m b : keeps (on_store R) (hold_ssh cfg amb m b).
Proof. unfold hold_ssh. cbv zeta. keeps_steps. Qed.
#[local] Hint Resolve keeps_hold_ssh : keeps.

Lemma keeps_ssh_initial amb m b : keeps (on_store R) (respond_ssh_initial cfg stack amb m b).
Proof.
  intros p p' r. unfold respond_ssh_initial.
  destruct (ssh_rule_for (plane_view cfg stack p) b) as [rule|]; [|by intros [= <- _]].
  destruct (cr_action rule) as [|period]; [by intros [= <- _]|].
  assert (Hk : keeps (on_store R) (let! recent := recent_ssh_acceptance amb b period in
    if recent then hret accept_action else hold_ssh cfg amb m b)) by keeps_steps.
  apply Hk.
Qed.
#[local] Hint Resolve keeps_ssh_initial : keeps.

Lemma keeps_poll_ssh now a : keeps (on_store R) (poll_ssh_verdict now a).
Proof. unfold poll_ssh_verdict. keeps_steps. Qed.

(** What the others do while a followup waits is not its doing. *)
Lemma keeps_ssh_action amb m b a : keeps (on_store R) (handle_ssh_action cfg stack amb m b a []).
Proof. unfold handle_ssh_action, respond_ssh_followup. cbn [wait_ssh_verdict]. keeps_steps. Qed.

End keeps_others.

(** ** The addresses of a new node are free *)

Lemma split_head c a b : c ∉ a → head (split c (a ++ c :: b)) = Some a.
Proof.
  induction a as [|x a IH]; intros Hc; cbn; [by rewrite Z.eqb_refl|].
  apply not_elem_of_cons in Hc as [Hx Hc]. destruct (Z.eqb_spec x c) as [->|_]; [done|].
  specialize (IH Hc). by destruct (split c (a ++ c :: b)) as [|y l]; simplify_eq/=.
Qed.

Lemma add_used_mono u a : u.1 ⊆ (add_used u a).1 ∧ u.2 ⊆ (add_used u a).2.
Proof.
  unfold add_used. destruct (parse_ipv4 _); [set_solver|]. destruct (parse_ipv6 _); set_solver.
Qed.

Lemma used_elem l u a :
  a ∈ l →
  (add_used (∅, ∅) a).1 ⊆ (fold_left add_used l u).1
  ∧ (add_used (∅, ∅) a).2 ⊆ (fold_left add_used l u).2.
Proof.
  assert (Hmono : ∀ l u, u.1 ⊆ (fold_left add_used l u).1 ∧ u.2 ⊆ (fold_left add_used l u).2).
  { clear. induction l as [|x l IH]; intros u; [done|]. cbn [fold_left].
    pose proof (IH (add_used u x)). pose proof (add_used_mono u x). set_solver. }
  revert u. induction l as [|x l IH]; intros u; [by rewrite elem_of_nil|].
  intros [->|Hin]%elem_of_cons; cbn [fold_left]; [|by apply IH].
  pose proof (Hmono l (add_used u x)).
  assert ((add_used (∅, ∅) x).1 ⊆ (add_used u x).1 ∧ (add_used (∅, ∅) x).2 ⊆ (add_used u x).2).
  { unfold add_used. destruct (parse_ipv4 _); [set_solver|]. destruct (parse_ipv6 _); set_solver. }
  set_solver.
Qed.

Lemma used_v4 x : 0 ≤ x < 2 ^ 32 → add_used (∅, ∅) (show_v4 x ++ str "/32") = ({[x]} ∪ ∅, ∅).
Proof.
  intros Hx. pose proof (parse_show_ip (V4 x) Hx) as Hp. cbn [show_ip] in Hp.
  assert (Hs : 47 ∉ show_v4 x) by by eapply parse_ip_spec.
  unfold add_used. change (str "/32") with (47 :: str "32"). rewrite split_head by done.
  cbn [default from_option id]. unfold parse_ipv4. unfold parse_ip in Hp.
  destruct (read_ipv4_addr (show_v4 x)) as [[a [|]]|]; simplify_eq; [done|].
  by destruct (read_ipv6_addr (show_v4 x)) as [[? [|]]|].
Qed.

Lemma used_v6 x : 0 ≤ x < 2 ^ 128 → add_used (∅, ∅) (show_v6 x ++ str "/128") = (∅, {[x]} ∪ ∅).
Proof.
  intros Hx. pose proof (parse_show_ip (V6 x) Hx) as Hp. cbn [show_ip] in Hp.
  assert (Hs : 47 ∉ show_v6 x) by by eapply parse_ip_spec.
  unfold add_used. change (str "/128") with (47 :: str "128"). rewrite split_head by done.
  cbn [default from_option id]. unfold parse_ipv4, parse_ipv6. unfold parse_ip in Hp.
  destruct (read_ipv4_addr (show_v6 x)) as [[a [|]]|]; simplify_eq.
  by destruct (read_ipv6_addr (show_v6 x)) as [[? [|]]|]; simplify_eq.
Qed.

(** No stored node holds an address of [n]. *)
Definition fresh_addresses (s : Store) (n : DomainNode) : Prop :=
  ∀ i r a, s.(st_nodes) !! i = Some r → a ∈ r.(dn_addresses) → a ∉ n.(dn_addresses).

Lemma fresh_allocated (s : Store) n x y :
  0 ≤ x < 2 ^ 32 → 0 ≤ y < 2 ^ 128 →
  x ∉ (used_addresses (list_nodes s)).1 → y ∉ (used_addresses (list_nodes s)).2 →
  n.(dn_addresses) = [show_v4 x ++ str "/32"; show_v6 y ++ str "/128"] → fresh_addresses s n.
Proof.
  intros Hx Hy Hu4 Hu6 Hadr i r a Hr Ha Hn. rewrite Hadr in Hn.
  assert (Hin : a ∈ flat_map dn_addresses (list_nodes s)).
  { apply list_elem_of_In, in_flat_map. exists r. split; apply list_elem_of_In; [|done].
    apply elem_of_rows. by exists i. }
  destruct (used_elem _ (∅, ∅) a Hin) as [H4 H6]. fold (used_addresses (list_nodes s)) in H4, H6.
  apply elem_of_cons in Hn as [->|Hn].
  - rewrite used_v4 in H4 by done. set_solver.
  - apply list_elem_of_singleton in Hn as ->. rewrite used_v6 in H6 by done. set_solver.
Qed.

Lemma allocate_unused a u4 u6 d4 d6 x y :
  allocate a u4 u6 d4 d6 = Ok (x, y) → x ∉ u4 ∧ y ∉ u6 ∧ 0 ≤ x < 2 ^ 32 ∧ 0 ≤ y < 2 ^ 128.
Proof.
  unfold allocate, rbind. destruct (allocate_ipv4 a u4 d4) as [v4|] eqn:E4; [|done].
  destruct (allocate_ipv6 a u6 d6) as [v6|] eqn:E6; [|done]. intros [= <- <-].
  unfold allocate_ipv4, rbind in E4. destruct (ipv4_host_range _ _) as [[f c]|]; [|done].
  unfold allocate_ipv6, rbind in E6. destruct (ipv6_host_range _ _) as [[f' c']|]; [|done].
  apply draw_loop_Ok in E4 as (Hu4 & j4 & _ & Hx). apply draw_loop_Ok in E6 as (Hu6 & j6 & _ & Hy).
  split_and!; try done; subst; unfold wrap; by apply Z.mod_pos_bound.
Qed.
