(* ===== verification/Admission.v ===== *)
(** * Who is admitted, and at which address

    What each handler may change of the nodes: its writes, followed to the
    table.  From it, for one call on the plane ([plane_step]) and the planes
    that calls reach ([reachable]): a node becomes authorized only on a valid
    pre-auth key or an approved registration of its own machine, a single-use
    key is spent by the node it admits, and no two nodes ever share an
    address. *)

From S2P Require Import Prelude Text Net IpText PolicyModel PolicyTags ProtoFrame IpAlloc Pending Sessions Events NetMap PreAuth Store Dns Control Registration MapRequest SshCheck Cli PlaneInv.

(** ** The table after an upsert *)

(** What the theorems below say of a node. *)
Definition node_facts (n : DomainNode) : bytes * bytes * list text * bool :=
  (n.(dn_node_key), n.(dn_machine_key), n.(dn_addresses), n.(dn_machine_authorized)).

Definition facts (s : Store) : gmap Z (bytes * bytes * list text * bool) :=
  node_facts <$> s.(st_nodes).

Lemma facts_insert i n s : facts (with_nodes (<[i := n]> s.(st_nodes)) s) = <[i := node_facts n]> (facts s).
Proof. unfold facts. apply fmap_insert. Qed.

Lemma facts_stable_id `{Sqlite} sid i s : facts (update_stable_id sid i s).1 = facts s.
Proof.
  unfold update_stable_id. destruct (st_nodes s !! i) as [r|] eqn:Hr; [|done].
  destruct (taken _ _ _); [done|]. cbn [fst]. rewrite facts_insert. apply insert_id.
  unfold facts. by rewrite lookup_fmap, Hr.
Qed.

Lemma facts_upsert `{Q : Sqlite, !SqliteLaws Q} n s :
  facts (upsert_node n s).1 = facts s
  ∨ ∃ i, (row_id (by_node_key n.(dn_node_key)) s.(st_nodes) = Some i
          ∨ row_id (by_node_key n.(dn_node_key)) s.(st_nodes) = None ∧ s.(st_nodes) !! i = None)
      ∧ facts (upsert_node n s).1 = <[i := node_facts n]> (facts s).
Proof.
  assert (Hst : facts (upsert_node n s).1 = facts (upsert_statement n s).1).
  { unfold upsert_node. destruct (upsert_statement n s) as [s1 [[]|e]]; [|done]. cbn [fst].
    case_bool_decide; [|done]. set (i := if dn_id n =? 0 then _ else _).
    pose proof (facts_stable_id (show_stable_id i) i s1) as Hf.
    by destruct (update_stable_id (show_stable_id i) i s1) as [s2 [[]|e]]. }
  rewrite Hst. unfold upsert_statement. destruct (row_id _ _) as [i|] eqn:Hrow.
  - destruct (taken _ _ _); [by left|]. destruct (owner_exists n s); [|by left].
    right. exists i. split; [by left|]. exact (facts_insert i (set_dn_id i n) s).
  - destruct (taken _ _ _); [by left|].
    destruct (insert_row _ _ _) as [[i t]|] eqn:Hi; [|by left].
    apply insert_row_Ok in Hi as [Hfree ->]. destruct (owner_exists n s); [|by left].
    right. exists i. split; [by right|]. exact (facts_insert i (set_dn_id i n) s).
Qed.

Lemma facts_delete k s : facts (delete_node k s).1 ⊆ facts s.
Proof.
  unfold delete_node. destruct (row_id _ _); [|done]. destruct (taken _ _ _); [done|].
  cbn [fst]. unfold facts. cbn [with_nodes st_nodes]. rewrite fmap_delete. apply delete_subseteq.
Qed.

Lemma other_nodes `{Sqlite} op s :
  touches_nodes op = false → (store_step op s).(st_nodes) = s.(st_nodes).
Proof.
  destruct op; cbn [touches_nodes store_step]; try done; intros _.
  - unfold create_user. destruct (taken _ _ _); [done|]. by destruct (insert_row _ _ _) as [[]|].
  - unfold create_login. destruct (taken _ _ _); [done|].
    destruct (insert_row _ _ _) as [[]|]; [|done]. by destruct (_ !! _).
  - unfold update_user_display_name. by destruct (_ !! _).
  - unfold insert_pre_auth_key. destruct (taken _ _ _); [done|].
    destruct (insert_row _ _ _) as [[]|]; [|done]. by destruct (_ !! _).
  - unfold mark_pre_auth_key_used. by destruct (_ !! _).
  - unfold revoke_pre_auth_key. by destruct (row_id _ _).
  - unfold save_policy. destruct (row_id _ _); [done|]. by destruct (insert_row _ _ _) as [[]|].
  - unfold create_session. destruct (insert_row _ _ _) as [[]|]; [|done]. by destruct (_ !! _).
  - unfold delete_session. by destruct (_ !! _).
  - unfold save_pending. destruct (row_id _ _); [done|]. by destruct (insert_row _ _ _) as [[]|].
  - unfold delete_pending. by destruct (row_id _ _).
  - unfold save_ssh_auth. destruct (row_id _ _); [done|]. by destruct (insert_row _ _ _) as [[]|].
  - unfold delete_ssh_auth. by destruct (row_id _ _).
Qed.

Lemma get_node_row k s node :
  get_node_by_node_key k s = Some node →
  node.(dn_node_key) = k ∧ ∃ i, s.(st_nodes) !! i = Some node.
Proof.
  unfold get_node_by_node_key. rewrite query_row_id. intros (i & Hi & Hr)%bind_Some.
  apply row_id_Some in Hi as (r & Hr' & Hk%bool_decide_eq_true). simplify_eq. split; [done|by exists i].
Qed.

(** ** Credentials *)

(** A pre-auth key of the store that admits its bearer now. *)
Definition valid_key `{KeyCrypto, Rfc3339} (now auth : text) (key : PreAuthKey) (s : Store) : Prop :=
  ∃ prefix secret, parse_auth_key auth = Some (prefix, secret)
    ∧ get_pre_auth_key prefix s = Some key ∧ verify_secret secret key.(ak_secret_hash) = true
    ∧ key.(ak_revoked) = false ∧ (∀ e, key.(ak_expiration) = Some e → is_past e now = false)
    ∧ (key.(ak_reusable) = true ∨ key.(ak_used) = false).

Lemma validated_run `{KeyCrypto, Rfc3339} auth now p :
  ∃ o, validated_auth_key auth now p = Some (p, Ok o)
    ∧ ∀ key, o = Some key ↔ valid_key now auth key p.(cp_store).
Proof.
  unfold validated_auth_key, valid_key.
  destruct (parse_auth_key auth) as [[prefix secret]|].
  2: { exists None. split; [done|]. intros key. split; [done|]. by intros (? & ? & [=] & _). }
  unfold hbind, ask, hret.
  destruct (get_pre_auth_key prefix (cp_store p)) as [k|] eqn:Hget.
  2: { exists None. split; [done|]. intros key. split; [done|]. intros (? & ? & [= <- <-] & Hg & _). congruence. }
  set (ok := verify_secret secret k.(ak_secret_hash) && negb k.(ak_revoked)
             && negb (match k.(ak_expiration) with Some e => is_past e now | None => false end)
             && (k.(ak_reusable) || negb k.(ak_used))).
  exists (if ok then Some k else None). split.
  { unfold ok. destruct (verify_secret _ _), (ak_revoked k), (ak_expiration k) as [e|], (ak_reusable k), (ak_used k);
      cbn [negb andb orb]; try done; by destruct (is_past e now). }
  assert (Hok : ok = true ↔ verify_secret secret k.(ak_secret_hash) = true ∧ k.(ak_revoked) = false
    ∧ (∀ e, k.(ak_expiration) = Some e → is_past e now = false)
    ∧ (k.(ak_reusable) = true ∨ k.(ak_used) = false)).
  { unfold ok. rewrite !andb_true_iff, orb_true_iff, !negb_true_iff.
    destruct (ak_expiration k) as [e|]; [|naive_solver].
    split; [intros [[[? ?] ?] ?]; split_and!; try done; by intros e' [= <-]|].
    intros (? & ? & He & ?). split_and!; try done. by apply He. }
  intros key. split.
  - destruct ok; [|done]. intros [= <-]. exists prefix, secret. split; [done|]. split; [done|]. by apply Hok.
  - intros (pr & se & [= <- <-] & Hg & H1). rewrite Hget in Hg. injection Hg as <-.
    by rewrite (proj2 Hok H1).
Qed.

(** What lets a request admit a node key. *)
Inductive credential `{KeyCrypto, Rfc3339} (amb : Ambient) (machine_key : bytes)
    (request : RegisterRequest) (s : Store) : bytes → Prop :=
| by_key auth key :
    request.(rq_followup) = [] → request.(rq_auth) = Some auth →
    valid_key amb.(am_now) auth key s → credential amb machine_key request s request.(rq_node_key)
| by_approval auth_id entry user tags :
    auth_id_from_followup request.(rq_followup) = Some auth_id →
    get_pending auth_id s = Some entry → entry.(p_machine_key) = machine_key →
    is_past entry.(p_expires_at) amb.(am_now) = false → entry.(p_verdict) = VApproved user tags →
    credential amb machine_key request s entry.(p_node_key).

(** The configured user, login and bootstrap key are in place. *)
Definition prepared `{Sqlite, KeyCrypto} (cfg : ControlConfig) (amb : Ambient) (p p1 : ControlPlane) : Prop :=
  ∃ p0, ensure_default_user cfg p = Some (p0, Ok ())
      ∧ ensure_bootstrap_key cfg amb p0 = Some (p1, Ok ()).

(** ** The writes of the handlers *)

Lemma post_and {A} (m : handler A) p (Q1 Q2 : ControlPlane → result A ControlError → Prop) :
  post m p Q1 → post m p Q2 → post m p (λ p' r, Q1 p' r ∧ Q2 p' r).
Proof. intros H1 H2 p' r E. split; [by apply H1|by apply H2]. Qed.

Section granting.
  Context `{Q : Sqlite, C : KeyCrypto, T : Rfc3339} (cfg : ControlConfig) (stack : nat).
  (** The node keys that may become authorized, each for its machine. *)
  Context (grant : bytes → bytes → Prop).

Inductive node_write (s : Store) : DomainNode → Prop :=
| write_update i r n :
    s.(st_nodes) !! i = Some r →
    n.(dn_id) = r.(dn_id) → n.(dn_node_key) = r.(dn_node_key) →
    n.(dn_machine_key) = r.(dn_machine_key) → n.(dn_addresses) = r.(dn_addresses) →
    (n.(dn_machine_authorized) = true →
     r.(dn_machine_authorized) = true ∨ grant n.(dn_node_key) n.(dn_machine_key)) →
    (is_Some r.(dn_last_seen) → is_Some n.(dn_last_seen)) →
    node_write s n
| write_join n :
    fresh_addresses s n → grant n.(dn_node_key) n.(dn_machine_key) → is_Some n.(dn_last_seen) →
    node_write s n.

  Context (R : Store → Store → Prop) `{!PreOrder R}.
  Hypothesis R_write : ∀ n s, node_write s n → R s (upsert_node n s).1.
  Hypothesis R_delete : ∀ k s, R s (delete_node k s).1.
  Hypothesis R_other : ∀ op s, touches_nodes op = false → R s (store_step op s).

(** Handlers that change something besides the nodes. *)
Definition aside (s s' : Store) : Prop := R s s' ∧ s'.(st_nodes) = s.(st_nodes).

#[local] Instance aside_preorder : PreOrder aside.
Proof.
  split; [by intros s|]. intros s t u [H1 E1] [H2 E2]. split; [by trans t|by rewrite E2].
Qed.

Lemma aside_other op s : touches_nodes op = false → aside s (store_step op s).
Proof. intros Ht. split; [by apply R_other|by apply other_nodes]. Qed.

#[local] Hint Extern 1 (∀ op s, _ → aside s (store_step op s)) => exact aside_other : keeps.

(** What a handler does to the store, from one state. *)
Definition moves {A} (m : handler A) (p : ControlPlane) : Prop := post m p (λ p' _, on_store R p p').

Lemma moves_keeps {A} (m : handler A) p : keeps (on_store aside) m → moves m p.
Proof. intros Hm. eapply post_weaken; [apply Hm|]. by intros p' r [H1 _]. Qed.

(** First a handler that leaves the nodes alone, then the rest. *)
Lemma moves_bind {A B} (m : handler A) (k : A → handler B) p (F : A → Prop) :
  keeps (on_store aside) m → post m p (λ p' r, ∀ a, r = Ok a → F a) →
  (∀ p' a, p'.(cp_store).(st_nodes) = p.(cp_store).(st_nodes) → F a → moves (k a) p') →
  moves (let! x := m in k x) p.
Proof.
  intros Hm Hf Hk. apply post_bind. eapply post_weaken; [apply post_and; [apply Hm|apply Hf]|].
  intros p1 r [[H1 E1] HF]. destruct r as [a|e]; [|done]. eapply post_weaken; [apply Hk; [done|by apply HF]|].
  intros p2 r' H2. unfold on_store in *. by trans (cp_store p1).
Qed.

(** The same where nothing is needed of the first handler's answer. *)
Lemma moves_bind_any {A B} (m : handler A) (k : A → handler B) p :
  keeps (on_store aside) m →
  (∀ p' a, p'.(cp_store).(st_nodes) = p.(cp_store).(st_nodes) → moves (k a) p') →
  moves (let! x := m in k x) p.
Proof.
  intros Hm Hk. apply (moves_bind m k p (λ _, True)); [done|by intros p' r _|].
  intros p' a E _. by apply Hk.
Qed.

(** A handler that changes the nodes, then only other things. *)
Lemma moves_seq {A B} (m : handler A) (k : A → handler B) p :
  moves m p → (∀ a, keeps (on_store aside) (k a)) → moves (let! x := m in k x) p.
Proof.
  intros Hm Hk. apply post_bind. eapply post_weaken; [exact Hm|]. intros p1 [a|e] H1; [|done].
  eapply post_weaken; [apply Hk|]. intros p2 r [H2 _]. unfold on_store in *. by trans (cp_store p1).
Qed.

Lemma moves_upsert n p : node_write p.(cp_store) n → moves (exec (upsert_node n)) p.
Proof.
  intros Hw. apply post_exec. intros s r E. specialize (R_write n (cp_store p) Hw).
  by rewrite E in R_write.
Qed.

Lemma moves_delete k p : moves (exec (delete_node k)) p.
Proof. apply post_exec. intros s r E. specialize (R_delete k (cp_store p)). by rewrite E in R_delete. Qed.

(** *** The handlers *)

Lemma apply_request_tags_shape amb node l t p :
  post (apply_request_tags cfg stack amb node l t) p
    (λ _ r, ∀ a, r = Ok a → ∃ u ts, a.1 = set_dn_owner u ts node).
Proof.
  assert (Hsame : node = set_dn_owner node.(dn_user_id) node.(dn_tags) node) by by destruct node.
  unfold apply_request_tags. cbv zeta. case_bool_decide.
  { apply post_ret. intros a [= <-]. by exists (dn_user_id node), (dn_tags node). }
  case_bool_decide.
  - apply post_bind. intros p1 [o|e] _; [|done]. apply post_ret. intros a [= <-]. by eexists _, _.
  - apply post_bind. intros p1 [o|e] _; [|done]. destruct (negb _).
    + by apply post_fail.
    + apply post_ret. intros a [= <-]. by eexists _, _.
Qed.

(** Writing back a node of the store, its authorization aside. *)
Lemma update_owner u ts node s :
  (∃ i, s.(st_nodes) !! i = Some node) → node_write s (set_dn_owner u ts node).
Proof. intros [i Hi]. eapply write_update; [exact Hi|done..| |done]. by left. Qed.

Lemma keeps_aside_publish e : keeps (on_store aside) (publish_change e).
Proof. apply (keeps_publish aside). Qed.

Lemma keeps_aside_mark i : keeps (on_store aside) (exec (mark_pre_auth_key_used i)).
Proof. apply (keeps_mark aside), aside_other. Qed.

#[local] Hint Resolve keeps_aside_publish keeps_aside_mark moves_upsert moves_delete : keeps.

Lemma moves_ret {A} (a : A) p : moves (hret a) p.
Proof. by apply post_ret. Qed.

Lemma moves_fail {A} e p : moves (@hfail A e) p.
Proof. by apply post_fail. Qed.

#[local] Hint Resolve moves_ret moves_fail : keeps.

Lemma moves_relogin amb node rq p :
  (∃ i, p.(cp_store).(st_nodes) !! i = Some node) → moves (relogin cfg stack amb node rq) p.
Proof.
  intros Hn. unfold relogin. apply moves_bind_any; [apply (keeps_node_owner aside)|].
  intros p1 o E1. eapply moves_bind; [|apply apply_request_tags_shape|].
  { apply (keeps_apply_tags cfg stack aside), aside_other. }
  intros p2 [n b] E2 (u & ts & Hshape). cbn [fst] in Hshape. subst n.
  apply moves_seq; [|intros a; apply keeps_ret, _]. destruct b; [|auto with keeps].
  apply moves_seq; [|auto with keeps]. apply moves_upsert, update_owner. by rewrite E2, E1.
Qed.

Lemma moves_logout_node node b p :
  (∃ i, p.(cp_store).(st_nodes) !! i = Some node) → moves (logout_node cfg node b) p.
Proof.
  intros [i Hi]. unfold logout_node. destruct (dn_tags node); [auto with keeps|].
  destruct (dn_ephemeral node); apply moves_seq; [auto with keeps|keeps_steps| |keeps_steps].
  apply moves_upsert. by apply (write_update _ i node).
Qed.

Lemma moves_update_approved node rs p :
  (∃ i, p.(cp_store).(st_nodes) !! i = Some node) → moves (update_approved node rs) p.
Proof.
  intros [i Hi]. unfold update_approved. apply moves_seq; [|auto with keeps].
  apply moves_upsert. eapply (write_update _ i node); [done..| |done]. by left.
Qed.

Lemma moves_reauthorize node key p :
  (∃ i, p.(cp_store).(st_nodes) !! i = Some node) → grant node.(dn_node_key) node.(dn_machine_key) →
  moves (reauthorize cfg node key) p.
Proof.
  intros [i Hi] Hg. unfold reauthorize. cbv zeta. apply moves_seq; [|keeps_steps].
  apply moves_upsert. eapply (write_update _ i node); [done..| |done]. by right.
Qed.

Lemma create_node_fresh amb m rq o ts e p :
  post (create_node_from_request cfg amb m rq o ts e) p
    (λ p' r, p' = p ∧ ∀ n, r = Ok n →
       fresh_addresses p.(cp_store) n ∧ n.(dn_node_key) = rq.(rq_node_key)
       ∧ n.(dn_machine_key) = m ∧ n.(dn_machine_authorized) = true ∧ n.(dn_id) = 0
       ∧ n.(dn_stable_id) = [] ∧ is_Some n.(dn_last_seen)).
Proof.
  unfold create_node_from_request. apply post_bind, post_ask.
  destruct (used_addresses (list_nodes (cp_store p))) as [u4 u6] eqn:Hu.
  apply post_bind, post_of_result.
  destruct (allocate _ _ _ _ _) as [[x y]|] eqn:Ha; cbn [map_err]; [|done].
  apply allocate_unused in Ha as (H4 & H6 & Hx & Hy).
  apply post_ret. split; [done|]. intros n [= <-]. split_and!; try done.
  by apply (fresh_allocated _ _ x y); rewrite ?Hu.
Qed.

Lemma moves_new_node {A} amb m rq o ts e (k : DomainNode → handler A) p :
  grant rq.(rq_node_key) m → (∀ n, keeps (on_store aside) (k n)) →
  moves (let! node := create_node_from_request cfg amb m rq o ts e in
         let! node := exec (upsert_node node) in k node) p.
Proof.
  intros Hg Hk. apply post_bind. eapply post_weaken; [apply create_node_fresh|].
  intros p' [n|err] [-> Hn]; [|done]. destruct (Hn n eq_refl) as (Hf & Hkey & Hm & _ & _ & _ & Hseen).
  apply moves_seq; [|done]. apply moves_upsert, write_join; [done| |done]. by rewrite Hkey, Hm.
Qed.

Lemma moves_join_with_key amb m rq key p :
  grant rq.(rq_node_key) m → moves (join_with_key cfg amb m rq key) p.
Proof.
  intros Hg. unfold join_with_key. destruct (_ && _); [auto with keeps|].
  apply moves_new_node; [done|]. keeps_steps.
Qed.

Lemma moves_join_approved amb m e u ts p :
  grant e.(p_node_key) m → moves (join_approved cfg amb m e u ts) p.
Proof.
  intros Hg. unfold join_approved. apply moves_bind_any; [apply keeps_ask, _|].
  intros p1 known _. destruct (match known with Some _ => _ | None => _ end); [auto with keeps|].
  cbv zeta. apply moves_new_node; [done|]. keeps_steps.
Qed.

(** The key that a request may carry. *)
Lemma moves_with_key {A} (auth : option text) now (k : option PreAuthKey → handler A) p :
  (∀ o, (∀ key, o = Some key → ∃ a, auth = Some a ∧ valid_key now a key p.(cp_store)) →
        moves (k o) p) →
  moves (let! key := match auth with Some a => validated_auth_key a now | None => hret None end in k key) p.
Proof.
  intros Hk p' r. unfold hbind. destruct auth as [a|].
  - destruct (validated_run a now p) as (o & -> & Ho). apply (Hk o). intros key Hkey.
    exists a. split; [done|by apply Ho].
  - apply (Hk None). by intros key.
Qed.

Lemma keeps_aside_interactive amb m rq : keeps (on_store aside) (start_interactive cfg amb m rq).
Proof. apply (keeps_interactive cfg aside), aside_other. Qed.

Lemma moves_register_known amb m rq node p :
  (∃ i, p.(cp_store).(st_nodes) !! i = Some node) →
  (∀ a key, rq.(rq_auth) = Some a → valid_key amb.(am_now) a key p.(cp_store) →
            grant node.(dn_node_key) m) →
  moves (register_known cfg stack amb m rq node) p.
Proof.
  intros Hn Hg. unfold register_known. case_bool_decide as Hm; cbn [negb]; [|auto with keeps].
  destruct (_ && _); [by apply moves_logout_node|]. destruct (_ && _); [auto with keeps|].
  destruct (dn_machine_authorized node); [by apply moves_relogin|].
  apply moves_with_key. intros [key|] Ho.
  - destruct (Ho key eq_refl) as (a & Ha & Hv). apply moves_reauthorize; [done|].
    rewrite Hm. by apply (Hg a key).
  - apply moves_keeps, keeps_aside_interactive.
Qed.

Lemma moves_register_new amb m rq p :
  (∀ a key, rq.(rq_auth) = Some a → valid_key amb.(am_now) a key p.(cp_store) →
            grant rq.(rq_node_key) m) →
  moves (register_new cfg amb m rq) p.
Proof.
  intros Hg. unfold register_new. apply moves_with_key. intros o Ho. cbv zeta.
  destruct (_ && _); [auto with keeps|]. destruct (_ && _); [auto with keeps|].
  destruct o as [key|]; [|apply moves_keeps, keeps_aside_interactive].
  destruct (Ho key eq_refl) as (a & Ha & Hv). by apply moves_join_with_key, (Hg a key).
Qed.

Lemma moves_poll amb m rq p :
  (∀ id e u ts, auth_id_from_followup rq.(rq_followup) = Some id →
     get_pending id p.(cp_store) = Some e → e.(p_machine_key) = m →
     is_past e.(p_expires_at) amb.(am_now) = false → e.(p_verdict) = VApproved u ts →
     grant e.(p_node_key) m) →
  moves (poll_followup cfg amb m rq) p.
Proof.
  intros Hg. unfold poll_followup. destruct (auth_id_from_followup _) as [id|]; [|auto with keeps].
  assert (Hrm : keeps (on_store aside) (remove_pending_entry id)) by apply (keeps_remove_pending aside), aside_other.
  apply (moves_bind _ _ _ (λ o, o = get_pending id p.(cp_store))).
  { apply (keeps_get_pending aside). }
  { unfold get_pending_entry. apply post_bind, post_ask.
    destruct (get_pending id (cp_store p)) as [e|]; [|apply post_ret; by intros a [= <-]].
    apply post_bind, post_modify, post_ret. by intros a [= <-]. }
  intros p1 o _ Ho. destruct o as [e|]; [|auto with keeps].
  case_bool_decide as Hm; cbn [negb]; [|auto with keeps].
  destruct (is_past _ _) eqn:Hp; [apply moves_bind_any; [done|auto with keeps]|].
  destruct (p_verdict e) as [|u ts|] eqn:Hv; [auto with keeps| |apply moves_bind_any; [done|auto with keeps]].
  apply moves_bind_any; [done|]. intros p2 a _. by apply moves_join_approved, (Hg id e u ts).
Qed.

Lemma moves_register_body amb m rq p :
  (∀ p1 k, prepared cfg amb p p1 → credential amb m rq p1.(cp_store) k → grant k m) →
  moves (register_body cfg stack amb m rq) p.
Proof.
  intros Hg. unfold register_body. intros p' r. unfold hbind at 1.
  destruct (ensure_default_user cfg p) as [[p0 r0]|] eqn:E0; [|done].
  assert (H0 : R (cp_store p) (cp_store p0)).
  { assert (Hk := keeps_ensure_default_user cfg R R_other). by apply (Hk p p0 r0). }
  destruct r0 as [[]|e]; [|by intros [= <- <-]].
  unfold hbind at 1. destruct (ensure_bootstrap_key cfg amb p0) as [[p1 r1]|] eqn:E1; [|done].
  assert (H1 : R (cp_store p0) (cp_store p1)).
  { assert (Hk := keeps_ensure_bootstrap_key cfg R R_other amb). by apply (Hk p0 p1 r1). }
  destruct r1 as [[]|e]; [|intros [= <- <-]; unfold on_store; by trans (cp_store p0)].
  assert (Hp1 : prepared cfg amb p p1) by by exists p0.
  assert (Hmv : moves (if negb (bool_decide (rq_followup rq = [])) then poll_followup cfg amb m rq
    else let! known := ask (get_node_by_node_key (rq_node_key rq)) in
         match known with
         | Some node => register_known cfg stack amb m rq node
         | None => register_new cfg amb m rq
         end) p1).
  { case_bool_decide as Hf; cbn [negb].
    - apply post_bind, post_ask. destruct (get_node_by_node_key _ _) as [node|] eqn:Hn.
      + apply get_node_row in Hn as [Hkey Hn]. apply moves_register_known; [done|].
        intros a key Ha Hv. rewrite Hkey. by apply (Hg p1), (by_key _ _ _ _ a key).
      + apply moves_register_new. intros a key Ha Hv. by apply (Hg p1), (by_key _ _ _ _ a key).
    - apply moves_poll. intros id e u ts H2 H3 H4 H5 H6. by apply (Hg p1), (by_approval _ _ _ _ id e u ts). }
  intros E. specialize (Hmv p' r E). unfold on_store in *. trans (cp_store p1); [|done].
  by trans (cp_store p0).
Qed.

Lemma moves_logout m k p : moves (logout cfg m k) p.
Proof.
  unfold logout. apply post_bind, post_ask. destruct (get_node_by_node_key _ _) as [node|] eqn:Hn.
  - apply get_node_row in Hn as [_ Hn]. case_bool_decide; [by apply moves_logout_node|by apply post_fail].
  - by apply post_fail.
Qed.

Lemma moves_approve_route k route p : moves (approve_route k route) p.
Proof.
  unfold approve_route. destruct (canonical_route route); [|auto with keeps].
  apply post_bind, post_ask. destruct (get_node_by_node_key _ _) as [node|] eqn:Hn; [|by apply post_fail].
  apply get_node_row in Hn as [_ Hn]. case_bool_decide; [by apply post_ret|by apply moves_update_approved].
Qed.

Lemma moves_disapprove_route k route p : moves (disapprove_route k route) p.
Proof.
  unfold disapprove_route. destruct (canonical_route route); [|auto with keeps].
  apply post_bind, post_ask. destruct (get_node_by_node_key _ _) as [node|] eqn:Hn; [|by apply post_fail].
  apply get_node_row in Hn as [_ Hn]. cbv zeta.
  case_bool_decide; [by apply post_ret|by apply moves_update_approved].
Qed.

(** A map request. *)

Lemma observed_shape now rq ro n :
  let n' := observed now rq ro n in
  n'.(dn_id) = n.(dn_id) ∧ n'.(dn_node_key) = n.(dn_node_key) ∧ n'.(dn_machine_key) = n.(dn_machine_key)
  ∧ n'.(dn_addresses) = n.(dn_addresses) ∧ n'.(dn_machine_authorized) = n.(dn_machine_authorized)
  ∧ n'.(dn_last_seen) = Some now.
Proof. unfold observed. destruct ro; [done|]. by destruct (mr_hostinfo rq). Qed.

Lemma tagged_shape amb rq ro n p :
  post (tagged_by_request cfg stack amb rq ro n) p
    (λ _ r, ∀ n', r = Ok n' → ∃ u ts, n' = set_dn_owner u ts n).
Proof.
  unfold tagged_by_request. destruct (_ && _).
  - apply post_bind. intros p1 [o|e] _; [|done]. apply post_bind.
    eapply post_weaken; [apply apply_request_tags_shape|]. intros p2 [[n' b]|e] Hs; [|done].
    apply post_ret. intros n'' [= <-]. by apply (Hs (n', b)).
  - apply post_ret. intros n' [= <-]. exists (dn_user_id n), (dn_tags n). by destruct n.
Qed.

Lemma moves_handle_map `{WireCodec} amb m rq p : moves (handle_map cfg stack amb m rq) p.
Proof.
  unfold handle_map. destruct (_ <? _); [auto with keeps|]. destruct (negb _); [auto with keeps|].
  apply post_bind, post_ask. destruct (get_node_by_node_key _ _) as [before|] eqn:Hn; [|by apply post_fail].
  apply get_node_row in Hn as [_ [i Hi]]. case_bool_decide; cbn [negb]; [|by apply post_fail]. cbv zeta.
  set (ro := _ && _). eapply moves_bind; [|apply tagged_shape|].
  { apply (keeps_tagged cfg stack aside), aside_other. }
  intros p1 n E1 (u & ts & ->). destruct (observed_shape amb.(am_now) rq ro before) as (H1 & H2 & H3 & H4 & H5 & H6).
  apply moves_seq.
  - apply moves_upsert. eapply (write_update _ i before); cbn [set_dn_owner dn_id dn_node_key dn_machine_key dn_addresses dn_machine_authorized]; try done.
    + by rewrite E1.
    + rewrite H5. by left.
  - intros _. apply (keeps_map_answer cfg stack aside).
Qed.

Lemma moves_plane_command amb c p : moves (run_plane_command cfg stack amb c) p.
Proof.
  assert (Hk : ∀ node, keeps (on_store aside) (parse_node_key node)) by (intros node; apply keeps_of_result, _).
  assert (Hret : ∀ x : text, keeps (on_store aside) (hret x)) by (intros x; by apply keeps_ret, _).
  destruct c as [[a u|a]|[node route|node route|node]|[a|a|]];
    cbn [run_plane_command run_auth_command run_route_command run_ssh_command].
  - apply moves_seq; [|done]. apply moves_keeps. apply keeps_approve; [apply _|apply aside_other].
  - apply moves_seq; [|done]. apply moves_keeps. apply keeps_reject; [apply _|apply aside_other].
  - apply moves_bind_any; [done|]. intros p1 k _. apply moves_seq; [apply moves_approve_route|done].
  - apply moves_bind_any; [done|]. intros p1 k _. apply moves_seq; [apply moves_disapprove_route|done].
  - apply moves_bind_any; [done|]. intros p1 k _. unfold node_by_key. apply post_bind, post_ask.
    destruct (get_node_by_node_key _ _); [by apply post_ret|by apply post_fail].
  - apply moves_seq; [|done]. apply moves_keeps. apply keeps_approve_ssh; [apply _|apply aside_other].
  - apply moves_seq; [|done]. apply moves_keeps. apply keeps_reject_ssh; [apply _|apply aside_other].
  - unfold control_list_ssh_auths. apply post_bind, post_bind, post_ask. by apply post_ret, post_ret.
Qed.

End granting.

(** ** Operations of a plane *)

Inductive plane_op : Type :=
| OpRegister (amb : Ambient) (machine_key : bytes) (request : RegisterRequest)
| OpLogout (machine_key node_key : bytes)
| OpCreateKey (amb : Ambient) (prefix : text) (reusable eph : bool) (expiration : option text)
    (tags : option (list text))
| OpRevokeKey (prefix : text)
| OpApproveRoute (node_key : bytes) (route : text)
| OpDisapproveRoute (node_key : bytes) (route : text)
| OpApprove (amb : Ambient) (auth_id user_name : text)
| OpReject (amb : Ambient) (auth_id : text)
| OpInfo (amb : Ambient) (auth_id : text)
| OpOidc (amb : Ambient) (profile : OidcProfile)
| OpOpen (node_id : Z) (eph : bool) (now : Z)
| OpClose (session_id now : Z)
| OpReap (order : list Z) (now : Z)
| OpFlush
| OpMap (amb : Ambient) (machine_key : bytes) (request : MapRequest)
| OpReloadDns (file : result bytes text)
| OpSetDerp (m : DerpMap)
| OpPolicyChanged
| OpSshAction (amb : Ambient) (machine_key : bytes) (b : Binding) (auth_id : option text)
| OpSshPoll (now auth_id : text)
| OpSshApprove (amb : Ambient) (auth_id : text)
| OpSshReject (amb : Ambient) (auth_id : text)
| OpSshInfo (amb : Ambient) (auth_id : text)
| OpCli (amb : Ambient) (command : PlaneCommand)
| OpRestart (file : result bytes text).

Definition left_by {A} (m : handler A) (p : ControlPlane) : option ControlPlane := fst <$> m p.

(** The plane an operation leaves, should it return.  A followup that waits is
    its first step, then polls; what happens in between are other steps.  The client
    changes the store under the plane; a restart keeps nothing but the store. *)
Definition plane_step `{Sqlite, KeyCrypto, Rfc3339, WireCodec, RecordsJson} (cfg : ControlConfig) (stack : nat)
    (op : plane_op) (p : ControlPlane) : option ControlPlane :=
  match op with
  | OpRegister amb m rq => fst <$> register cfg stack amb m rq p
  | OpLogout m k => left_by (logout cfg m k) p
  | OpCreateKey amb x r e ex t => left_by (create_pre_auth_key cfg stack amb x r e ex t) p
  | OpRevokeKey x => left_by (control_revoke_pre_auth_key x) p
  | OpApproveRoute k r => left_by (approve_route k r) p
  | OpDisapproveRoute k r => left_by (disapprove_route k r) p
  | OpApprove amb a u => left_by (approve_pending cfg stack amb a u) p
  | OpReject amb a => left_by (reject_pending amb a) p
  | OpInfo amb a => left_by (pending_info amb a) p
  | OpOidc amb x => left_by (upsert_oidc_user amb x) p
  | OpOpen n e now => Some (open_session n e now p).1
  | OpClose i now => Some (close_session i now p)
  | OpReap order now => Some (reap_sessions_at order now p).1
  | OpFlush => Some (set_events (bus_flush p.(cp_events)) p)
  | OpMap amb m rq => left_by (handle_map cfg stack amb m rq) p
  | OpReloadDns file => left_by (reload_dns_extra_records cfg file) p
  | OpSetDerp m => left_by (set_derp_map m) p
  | OpPolicyChanged => left_by publish_policy_changed p
  | OpSshAction amb m b a => left_by (handle_ssh_action cfg stack amb m b a []) p
  | OpSshPoll now a => left_by (poll_ssh_verdict now a) p
  | OpSshApprove amb a => left_by (approve_ssh amb a) p
  | OpSshReject amb a => left_by (reject_ssh amb a) p
  | OpSshInfo amb a => left_by (ssh_auth_info amb a) p
  | OpCli amb c => '(s, _) ← cli_run stack amb c p.(cp_store); Some (set_store s p)
  | OpRestart file => Some (ControlPlane_with_store cfg file p.(cp_store))
  end.

Inductive reachable `{Sqlite, KeyCrypto, Rfc3339, WireCodec, RecordsJson} (cfg : ControlConfig) (stack : nat)
    : ControlPlane → Prop :=
| reach_start file : reachable cfg stack (ControlPlane_with_store cfg file Store_empty)
| reach_step op p p' :
    reachable cfg stack p → plane_step cfg stack op p = Some p' → reachable cfg stack p'.

Section steps.
  Context `{Q : Sqlite, C : KeyCrypto, T : Rfc3339, W : WireCodec, J : RecordsJson} (cfg : ControlConfig) (stack : nat).

Lemma left_by_moves {A} (R : Store → Store → Prop) (m : handler A) p p' :
  moves R m p → left_by m p = Some p' → R p.(cp_store) p'.(cp_store).
Proof.
  intros Hm. unfold left_by. destruct (m p) as [[q r]|] eqn:E; [|done]. intros [= <-].
  exact (Hm q r E).
Qed.

Lemma register_left amb m rq p :
  fst <$> register cfg stack amb m rq p = left_by (register_body cfg stack amb m rq) p.
Proof.
  unfold register, left_by. by destruct (register_body cfg stack amb m rq p) as [[q [r|e]]|].
Qed.

Lemma reap_sessions_store (R : Store → Store → Prop) `{!PreOrder R} order now p :
  (∀ k s, R s (delete_node k s).1) →
  R p.(cp_store) (reap_sessions_at order now p).1.(cp_store).
Proof.
  intros Hdel. unfold reap_sessions_at. destruct (session_tick order now (cp_sessions p)) as [r evs].
  cbn [fst].
  assert (Hf : ∀ q, R q.(cp_store) (fold_left reap_event evs q).(cp_store)).
  { induction evs as [|ev evs IH]; intros q; [done|]. cbn [fold_left].
    trans (reap_event q ev).(cp_store); [|by apply IH]. destruct ev; cbn [reap_event]; try done.
    by destruct (get_node_by_id node_id (cp_store q)); cbn [set_store set_events cp_store]. }
  apply (Hf (set_sessions r p)).
Qed.

(** Every operation moves the store along [R], where each write does and a
    request only admits what [grant] lets it. *)
Lemma plane_step_moves (grant : bytes → bytes → Prop) (R : Store → Store → Prop) `{!PreOrder R} op p p' :
  (∀ n s, node_write grant s n → R s (upsert_node n s).1) →
  (∀ k s, R s (delete_node k s).1) →
  (∀ op s, touches_nodes op = false → R s (store_step op s)) →
  (∀ amb m rq p1 k, op = OpRegister amb m rq → prepared cfg amb p p1 →
     credential amb m rq p1.(cp_store) k → grant k m) →
  plane_step cfg stack op p = Some p' → R p.(cp_store) p'.(cp_store).
Proof.
  intros Hw Hd Ho Hg. assert (Haside : ∀ {A} (m : handler A),
    (∀ R', PreOrder R' → (∀ op s, touches_nodes op = false → R' s (store_step op s)) →
           keeps (on_store R') m) → moves R m p).
  { intros A m Hk. apply (Hk R); done. }
  destruct op; cbn [plane_step].
  - rewrite register_left. apply left_by_moves, (moves_register_body cfg stack grant R); [done..|].
    intros p1 k Hp1 Hc. by eapply Hg.
  - apply left_by_moves, (moves_logout cfg grant R); done.
  - apply left_by_moves, Haside. intros R' ? ?. by apply keeps_create_pre_auth_key.
  - apply left_by_moves, Haside. intros R' ? ?. by apply keeps_revoke.
  - apply left_by_moves, (moves_approve_route grant R); done.
  - apply left_by_moves, (moves_disapprove_route grant R); done.
  - apply left_by_moves, Haside. intros R' ? ?. by apply keeps_approve.
  - apply left_by_moves, Haside. intros R' ? ?. by apply keeps_reject.
  - apply left_by_moves, Haside. intros R' ? ?. by apply keeps_live_pending.
  - apply left_by_moves, Haside. intros R' ? ?. by apply keeps_oidc.
  - intros [= <-]. by rewrite open_session_store.
  - by intros [= <-].
  - intros [= <-]. by apply (reap_sessions_store R).
  - by intros [= <-].
  - apply left_by_moves, (moves_handle_map cfg stack grant R); done.
  - apply left_by_moves, Haside. intros R' ? ?. by apply keeps_reload.
  - apply left_by_moves, Haside. intros R' ? ?. by apply keeps_set_derp.
  - apply left_by_moves, Haside. intros R' ? ?. by apply (keeps_publish R').
  - apply left_by_moves, Haside. intros R' ? ?. by apply keeps_ssh_action.
  - apply left_by_moves, Haside. intros R' ? ?. by apply keeps_poll_ssh.
  - apply left_by_moves, Haside. intros R' ? ?. by apply keeps_approve_ssh.
  - apply left_by_moves, Haside. intros R' ? ?. by apply keeps_reject_ssh.
  - apply left_by_moves, Haside. intros R' ? ?. by apply keeps_live_ssh.
  - intros ([s x] & Hr & [= <-])%bind_Some. unfold cli_run in Hr. apply bind_Some in Hr as ([q y] & Hr & [= <- _]).
    pose proof (moves_plane_command ControlConfig_default stack grant R Hw Ho amb command
                  (ControlPlane_with_store ControlConfig_default (Err []) p.(cp_store)) q y Hr) as Hm. exact Hm.
  - intros [= <-]. by rewrite with_store_store.
Qed.

End steps.
