(* ===== verification/Security.v ===== *)
(** * Security of the control plane

    The statements about reachable planes: integrity of the store, one owner
    per address, no authorization without a credential, single use of
    single-use keys. *)

From S2P Require Import Prelude Text Net IpText PolicyModel PolicyTags ProtoFrame ProtoKey IpAlloc Pending Sessions Events NetMap PreAuth Store Dns Control Registration MapRequest Demo SshCheck PlaneInv Admission.

(** ** Relations every operation keeps *)

Definition authorized (s : Store) (node_key machine_key : bytes) : Prop :=
  ∃ i a, facts s !! i = Some (node_key, machine_key, a, true).

(** Nothing becomes authorized that [grant] does not name. *)
Definition grants (grant : bytes → bytes → Prop) (s s' : Store) : Prop :=
  ∀ k m, authorized s' k m → authorized s k m ∨ grant k m.

(** The store's integrity, and addresses of one node each. *)
Definition one_owner (s : Store) : Prop :=
  ∀ i j n n' a, s.(st_nodes) !! i = Some n → s.(st_nodes) !! j = Some n' →
    a ∈ n.(dn_addresses) → a ∈ n'.(dn_addresses) → i = j.

Definition sound_store (s : Store) : Prop := store_inv s ∧ one_owner s.

Definition keeps_sound (s s' : Store) : Prop := sound_store s → sound_store s'.

(** Keys are never removed, used or revoked ones never renewed. *)
Definition keys_advance (s s' : Store) : Prop :=
  ∀ i k, s.(st_keys) !! i = Some k → ∃ k', s'.(st_keys) !! i = Some k'
    ∧ k'.(ak_prefix) = k.(ak_prefix) ∧ k'.(ak_secret_hash) = k.(ak_secret_hash)
    ∧ k'.(ak_reusable) = k.(ak_reusable) ∧ k'.(ak_tags) = k.(ak_tags)
    ∧ (k.(ak_used) = true → k'.(ak_used) = true) ∧ (k.(ak_revoked) = true → k'.(ak_revoked) = true).

#[global] Instance grants_preorder g : PreOrder (grants g).
Proof.
  split; [by left|]. intros s t u H1 H2 k m [Hu|Hu]%H2; [by apply H1|by right].
Qed.

#[global] Instance keeps_sound_preorder : PreOrder keeps_sound.
Proof. split; [by intros s Hs|]. intros s t u H1 H2 Hs. by apply H2, H1. Qed.

#[global] Instance keys_advance_preorder : PreOrder keys_advance.
Proof.
  split.
  - intros s i k Hk. exists k. split_and!; auto.
  - intros s t u H1 H2 i k Hk. destruct (H1 i k Hk) as (k1 & Hk1 & ? & ? & ? & ? & ? & ?).
    destruct (H2 i k1 Hk1) as (k2 & Hk2 & ? & ? & ? & ? & ? & ?). exists k2.
    split; [done|]. split_and!; try congruence; auto.
Qed.

Lemma grants_facts g s s' : facts s' ⊆ facts s → grants g s s'.
Proof. intros Hf k m (i & a & Hi). left. exists i, a. by eapply lookup_weaken. Qed.

Lemma grants_write `{Q : Sqlite, !SqliteLaws Q} g n s : node_write g s n → grants g s (upsert_node n s).1.
Proof.
  intros Hw. destruct (facts_upsert n s) as [E|(i & _ & E)]; [by apply grants_facts; rewrite E|].
  intros k m (j & a & Hj). rewrite E in Hj. apply lookup_insert_Some in Hj as [[-> Hj]|[_ Hj]].
  - injection Hj as Hk Hm Ha Hauth. destruct Hw as [x r n Hr _ Hk' Hm' _ Hau _|n _ Hg _].
    + destruct (Hau Hauth) as [Hra|Hgr]; [|by right; rewrite <- Hk, <- Hm].
      left. exists x, (dn_addresses r). unfold facts. rewrite lookup_fmap, Hr. cbn [fmap option_fmap option_map].
      unfold node_facts. by rewrite Hra, <- Hk', <- Hm', Hk, Hm.
    + right. by rewrite <- Hk, <- Hm.
  - left. by exists j, a.
Qed.

(** One owner, said of the facts. *)
Lemma one_owner_facts s :
  one_owner s ↔ ∀ i j k m a b k' m' a' b' x, facts s !! i = Some (k, m, a, b) →
    facts s !! j = Some (k', m', a', b') → x ∈ a → x ∈ a' → i = j.
Proof.
  unfold facts. split.
  - intros Hs i j k m a b k' m' a' b' x Hi Hj Hx Hx'.
    rewrite lookup_fmap in Hi, Hj. apply fmap_Some in Hi as (n & Hn & [= -> -> -> ->]).
    apply fmap_Some in Hj as (n' & Hn' & [= -> -> -> ->]). by apply (Hs i j n n' x).
  - intros Hs i j n n' x Hn Hn'. eapply (Hs i j _ _ _ _ _ _ _ _ x); by rewrite lookup_fmap, ?Hn, ?Hn'.
Qed.

Lemma sound_subset `{Sqlite} s s' : store_inv s' → facts s' ⊆ facts s → one_owner s → sound_store s'.
Proof.
  intros Hi Hf. rewrite one_owner_facts. intros Ho. split; [done|]. apply one_owner_facts.
  intros i j k m a b k' m' a' b' x H1 H2. apply (Ho i j k m a b k' m' a' b' x); by eapply lookup_weaken.
Qed.

Lemma sound_write `{Q : Sqlite, !SqliteLaws Q} g n s : node_write g s n → keeps_sound s (upsert_node n s).1.
Proof.
  intros Hw [Hs Ho]. pose proof (inv_upsert_node n s Hs) as Hs'.
  destruct (facts_upsert n s) as [E|(i & Hi & E)]; [by apply (sound_subset s); rewrite ?E|].
  split; [done|]. apply one_owner_facts. rewrite E.
  (* another row that has an address of the written node *)
  assert (Hother : ∀ j k m a b x, i ≠ j → facts s !! j = Some (k, m, a, b) → x ∈ a →
                                  x ∈ dn_addresses n → False).
  { intros j k m a b x Hij Hj Hx Hn. unfold facts in Hj. rewrite lookup_fmap in Hj.
    apply fmap_Some in Hj as (r' & Hr' & [= -> -> -> ->]).
    destruct Hw as [y r n Hr _ Hk _ Ha _ _|n Hfresh _ _]; [|by apply (Hfresh j r' x)].
    assert (y = i) as ->; [|apply Hij, (Ho i j r r' x); by rewrite <- ?Ha].
    assert (Hy : row_id (by_node_key (dn_node_key n)) (st_nodes s) = Some y).
    { apply (unique_row_id dn_node_key); [apply Hs|]. by exists r. }
    destruct Hi as [Hi|[Hi _]]; congruence. }
  intros j1 j2 k m a b k' m' a' b' x. rewrite !lookup_insert_Some.
  intros [[<- [= <- <- <- <-]]|[H1 E1]] [[<- [= <- <- <- <-]]|[H2 E2]] Hx Hx'.
  - done.
  - by destruct (Hother j2 k' m' a' b' x).
  - by destruct (Hother j1 k m a b x).
  - by apply (proj1 (one_owner_facts s) Ho j1 j2 k m a b k' m' a' b' x).
Qed.

Lemma keys_advance_eq s s' : s'.(st_keys) = s.(st_keys) → keys_advance s s'.
Proof. intros E i k Hk. exists k. rewrite E. split_and!; auto. Qed.

Lemma keys_advance_flags i k r u s :
  s.(st_keys) !! i = Some k → (k.(ak_used) = true → u = true) → (k.(ak_revoked) = true → r = true) →
  keys_advance s (with_keys (<[i := set_ak_flags r u k]> s.(st_keys)) s).
Proof.
  intros Hk Hu Hr j k' Hk'. cbn [with_keys st_keys]. destruct (decide (i = j)) as [<-|Hij].
  - rewrite lookup_insert_eq. simplify_eq. eexists. split; [done|]. split_and!; done.
  - rewrite lookup_insert_ne by done. exists k'. split_and!; auto.
Qed.

Lemma upsert_node_others `{Sqlite} n s :
  (upsert_node n s).1.(st_keys) = s.(st_keys).
Proof.
  unfold upsert_node, upsert_statement. destruct (row_id _ _).
  - destruct (taken _ _ _); [done|]. destruct (owner_exists _ _); [|done]. cbn [negb].
    case_bool_decide; [|done]. unfold update_stable_id. destruct (_ !! _); [|done]. by destruct (taken _ _ _).
  - destruct (taken _ _ _); [done|]. destruct (insert_row _ _ _) as [[]|]; [|done].
    destruct (owner_exists _ _); [|done]. cbn [negb].
    case_bool_decide; [|done]. unfold update_stable_id. destruct (_ !! _); [|done]. by destruct (taken _ _ _).
Qed.

Lemma delete_node_others k s : (delete_node k s).1.(st_keys) = s.(st_keys).
Proof. unfold delete_node. destruct (row_id _ _); [|done]. by destruct (taken _ _ _). Qed.

Lemma keys_advance_step `{Q : Sqlite, !SqliteLaws Q} op s : keys_advance s (store_step op s).
Proof.
  destruct op; cbn [store_step].
  - apply keys_advance_eq. unfold create_user. destruct (taken _ _ _); [done|]. by destruct (insert_row _ _ _) as [[]|].
  - apply keys_advance_eq. unfold create_login. destruct (taken _ _ _); [done|].
    destruct (insert_row _ _ _) as [[]|]; [|done]. by destruct (_ !! _).
  - apply keys_advance_eq. unfold update_user_display_name. by destruct (_ !! _).
  - apply keys_advance_eq, upsert_node_others.
  - apply keys_advance_eq, delete_node_others.
  - unfold insert_pre_auth_key. destruct (taken _ _ _); [done|].
    destruct (insert_row _ _ _) as [[i t]|] eqn:E; [|done]. destruct (_ !! _); [|done].
    apply insert_row_Ok in E as [Hi ->]. intros j k' Hj. cbn [fst with_rowid with_keys st_keys].
    exists k'. rewrite lookup_insert_ne by congruence. split_and!; auto.
  - unfold mark_pre_auth_key_used. destruct (st_keys s !! id) as [k|] eqn:Hk; [|done].
    by apply keys_advance_flags.
  - unfold revoke_pre_auth_key. destruct (row_id _ _) as [i|] eqn:E; [|done].
    apply row_id_Some in E as (k & Hk & _). cbn [fst].
    rewrite (alter_row _ _ i k) by done.
    by apply keys_advance_flags.
  - apply keys_advance_eq. unfold save_policy. destruct (row_id _ _); [done|]. by destruct (insert_row _ _ _) as [[]|].
  - apply keys_advance_eq. unfold create_session. destruct (insert_row _ _ _) as [[]|]; [|done]. by destruct (_ !! _).
  - apply keys_advance_eq. unfold delete_session. by destruct (_ !! _).
  - apply keys_advance_eq. unfold save_pending. destruct (row_id _ _); [done|]. by destruct (insert_row _ _ _) as [[]|].
  - apply keys_advance_eq. unfold delete_pending. by destruct (row_id _ _).
  - apply keys_advance_eq. unfold save_ssh_auth. destruct (row_id _ _); [done|]. by destruct (insert_row _ _ _) as [[]|].
  - apply keys_advance_eq. unfold delete_ssh_auth. by destruct (row_id _ _).
Qed.

Lemma grants_other `{Sqlite} g op s : touches_nodes op = false → grants g s (store_step op s).
Proof. intros Ht. apply grants_facts. unfold facts. by rewrite other_nodes. Qed.

Lemma sound_other `{Q : Sqlite, !SqliteLaws Q} op s :
  touches_nodes op = false → keeps_sound s (store_step op s).
Proof.
  intros Ht [Hs Ho]. split; [by apply store_step_inv|]. intros i j n n' a.
  rewrite other_nodes by done. apply Ho.
Qed.

Lemma sound_delete k s : keeps_sound s (delete_node k s).1.
Proof.
  intros [Hs Ho]. apply (sound_subset s); [by apply inv_delete_node|apply facts_delete|done].
Qed.

Section reach.
  Context `{Q : Sqlite, !SqliteLaws Q, C : KeyCrypto, T : Rfc3339, W : WireCodec, J : RecordsJson} (cfg : ControlConfig) (stack : nat).

Lemma plane_step_sound op p p' :
  plane_step cfg stack op p = Some p' → sound_store p.(cp_store) → sound_store p'.(cp_store).
Proof.
  apply (plane_step_moves cfg stack (λ _ _, True) keeps_sound); try done.
  - apply sound_write.
  - apply sound_delete.
  - apply sound_other.
Qed.

Lemma plane_step_keys op p p' :
  plane_step cfg stack op p = Some p' → keys_advance p.(cp_store) p'.(cp_store).
Proof.
  apply (plane_step_moves cfg stack (λ _ _, True) keys_advance); try done.
  - intros n s _. exact (keys_advance_step (UpsertNode n) s).
  - intros k s. exact (keys_advance_step (DeleteNode k) s).
  - intros op' s _. apply keys_advance_step.
Qed.

Lemma reachable_sound p : reachable cfg stack p → sound_store p.(cp_store).
Proof.
  induction 1 as [file|op p p' _ IH Hstep]; [|by eapply plane_step_sound].
  rewrite with_store_store. split; [apply store_inv_empty|]. by intros i j n n' a.
Qed.

End reach.

(** ** Spent keys *)

(** The key that [auth] names is single-use and used. *)
Definition spent (auth : text) (s : Store) : Prop :=
  ∃ prefix secret i k, parse_auth_key auth = Some (prefix, secret) ∧ s.(st_keys) !! i = Some k
    ∧ k.(ak_prefix) = prefix ∧ k.(ak_reusable) = false ∧ k.(ak_used) = true.

Lemma spent_advance auth s s' : keys_advance s s' → spent auth s → spent auth s'.
Proof.
  intros Ha (prefix & secret & i & k & Hp & Hk & Hpre & Hr & Hu).
  destruct (Ha i k Hk) as (k' & Hk' & ? & ? & ? & ? & Hu' & _).
  exists prefix, secret, i, k'. split_and!; try congruence. by apply Hu'.
Qed.

Lemma get_key_row s prefix key :
  get_pre_auth_key prefix s = Some key → key.(ak_prefix) = prefix ∧ ∃ i, s.(st_keys) !! i = Some key.
Proof.
  unfold get_pre_auth_key. rewrite query_row_id. intros (i & Hi & Hk)%bind_Some.
  apply row_id_Some in Hi as (r & Hr & Hp%bool_decide_eq_true). simplify_eq. split; [done|by exists i].
Qed.

Lemma spent_invalid `{KeyCrypto, Rfc3339} auth now key s :
  store_inv s → spent auth s → ¬ valid_key now auth key s.
Proof.
  intros Hs (prefix & secret & i & k & Hp & Hk & Hpre & Hr & Hu) (pr & se & Hp' & Hg & _ & _ & _ & Hv).
  apply get_key_row in Hg as [Hpr [j Hj]].
  assert (i = j) as ->; [apply (si_prefixes s Hs i j k key); congruence|].
  destruct Hv; congruence.
Qed.

Section spending.
  Context `{Q : Sqlite, !SqliteLaws Q, C : KeyCrypto, T : Rfc3339} (cfg : ControlConfig) (stack : nat).

Lemma mark_spends auth now key p (k : handler RegisterResponse) :
  store_inv p.(cp_store) → valid_key now auth key p.(cp_store) → key.(ak_reusable) = false →
  (∀ q, post k q (λ q' _, q'.(cp_store) = q.(cp_store))) →
  post (let! _ := exec (mark_pre_auth_key_used key.(ak_id)) in k) p (λ p' _, spent auth p'.(cp_store)).
Proof.
  intros Hs (prefix & secret & Hp & Hg & _) Hr Hk. apply post_bind, post_exec. intros s r E.
  apply get_key_row in Hg as [Hpre [i Hi]]. unfold mark_pre_auth_key_used in E.
  rewrite (si_key_ids _ Hs i key Hi), Hi in E. injection E as <- <-. cbn [map_err].
  eapply post_weaken; [apply Hk|]. intros p' r ->. exists prefix, secret, i.
  eexists. split; [done|]. split; [apply lookup_insert_eq|]. done.
Qed.

(** The end of the two paths that admit on a key. *)
Lemma finish_spends auth now key n (event : DomainNode → ChangeEvent) p :
  store_inv p.(cp_store) → valid_key now auth key p.(cp_store) → key.(ak_reusable) = false →
  post (let! x := exec (upsert_node n) in
        let! _ := publish_change (event x) in
        let! _ := if negb key.(ak_reusable) then exec (mark_pre_auth_key_used key.(ak_id)) else hret () in
        hret (authorized_response cfg)) p
    (λ p' r, ∀ a, r = Ok a → spent auth p'.(cp_store)).
Proof.
  intros Hs Hv Hr. apply post_bind, post_exec. intros s r E. destruct r as [x|e]; [|done].
  cbn [map_err]. apply post_bind, post_modify. rewrite Hr. cbn [negb].
  eapply post_weaken; [eapply (mark_spends auth now key)|].
  - cbn [set_events set_store cp_store]. pose proof (inv_upsert_node n _ Hs) as Hi. by rewrite E in Hi.
  - cbn [set_events set_store cp_store]. pose proof (upsert_node_others n (cp_store p)) as Hk.
    rewrite E in Hk. cbn [fst] in Hk. destruct Hv as (pr & se & Hv). exists pr, se.
    unfold get_pre_auth_key. by rewrite Hk.
  - done.
  - intros q. by apply post_ret.
  - by intros p' r' Hsp a _.
Qed.

Lemma reauthorize_spends auth now node key p :
  store_inv p.(cp_store) → valid_key now auth key p.(cp_store) → key.(ak_reusable) = false →
  post (reauthorize cfg node key) p (λ p' r, ∀ a, r = Ok a → spent auth p'.(cp_store)).
Proof.
  intros Hs Hv Hr. unfold reauthorize. cbv zeta. set (n := set_dn_ephemeral _ _).
  by apply (finish_spends auth now key n (λ _, NodeChanged n.(dn_id))).
Qed.

Lemma join_with_key_spends amb m rq auth now key p :
  store_inv p.(cp_store) → valid_key now auth key p.(cp_store) → key.(ak_reusable) = false →
  post (join_with_key cfg amb m rq key) p (λ p' r, ∀ a, r = Ok a → spent auth p'.(cp_store)).
Proof.
  intros Hs Hv Hr. unfold join_with_key. destruct (_ && _); [by apply post_fail|].
  apply post_bind. eapply post_weaken; [apply create_node_fresh|].
  intros p' [n|e] [-> _]; [|done]. by apply (finish_spends auth now key n (λ x, NodeChanged x.(dn_id))).
Qed.

(** Nothing becomes authorized, or it was for the key that the request
    carries, which is spent if it may be used once. *)
Definition on_key (now : text) (auth : option text) (p p' : ControlPlane)
    (r : result RegisterResponse ControlError) : Prop :=
  ∀ a, r = Ok a →
    grants (λ _ _, False) p.(cp_store) p'.(cp_store)
    ∨ ∃ t key, auth = Some t ∧ valid_key now t key p.(cp_store)
        ∧ (key.(ak_reusable) = false → spent t p'.(cp_store)).

Lemma on_key_moves now auth (m : handler RegisterResponse) p :
  moves (grants (λ _ _, False)) m p → post m p (on_key now auth p).
Proof. intros Hm. eapply post_weaken; [exact Hm|]. intros p' r HR a _. by left. Qed.

Lemma on_key_ret now auth a p : post (hret a) p (on_key now auth p).
Proof. apply post_ret. by left. Qed.

Lemma on_key_with now auth (k : option PreAuthKey → handler RegisterResponse) p :
  post (k None) p (on_key now auth p) →
  (∀ t key, auth = Some t → valid_key now t key p.(cp_store) →
     post (k (Some key)) p (λ p' r, ∀ a, r = Ok a → grants (λ _ _, False) p.(cp_store) p'.(cp_store)
                              ∨ (key.(ak_reusable) = false → spent t p'.(cp_store)))) →
  post (let! key := match auth with Some a => validated_auth_key a now | None => hret None end in k key) p
    (on_key now auth p).
Proof.
  intros Hn Hs p' r. unfold hbind. destruct auth as [t|]; [|by apply Hn].
  destruct (validated_run t now p) as (o & -> & Ho). destruct o as [key|]; [|by apply Hn].
  assert (Hv : valid_key now t key (cp_store p)) by by apply Ho.
  intros E a Ha. destruct (Hs t key eq_refl Hv p' r E a Ha) as [Hg|Hsp]; [by left|].
  right. by exists t, key.
Qed.

Lemma grants_delete g k s : grants g s (delete_node k s).1.
Proof. apply grants_facts, facts_delete. Qed.

Lemma interactive_moves amb m rq p : moves (grants (λ _ _, False)) (start_interactive cfg amb m rq) p.
Proof.
  apply (keeps_interactive cfg (grants (λ _ _, False))). intros op s. by apply grants_other.
Qed.

Lemma register_known_on_key amb m rq node p :
  store_inv p.(cp_store) → (∃ i, p.(cp_store).(st_nodes) !! i = Some node) →
  post (register_known cfg stack amb m rq node) p (on_key amb.(am_now) rq.(rq_auth) p).
Proof.
  intros Hs Hn. unfold register_known. case_bool_decide; cbn [negb]; [|apply on_key_ret].
  destruct (_ && _).
  { apply on_key_moves, (moves_logout_node cfg (λ _ _, False) (grants (λ _ _, False)));
      auto using grants_write, grants_delete, grants_other. }
  destruct (_ && _); [apply on_key_ret|].
  destruct (dn_machine_authorized node).
  { apply on_key_moves, (moves_relogin cfg stack (λ _ _, False) (grants (λ _ _, False)));
      auto using grants_write, grants_other. }
  apply on_key_with; [apply on_key_moves, interactive_moves|].
  intros t key _ Hv. destruct (ak_reusable key) eqn:Hr.
  - intros p' r _ a _. by right.
  - eapply post_weaken; [by eapply reauthorize_spends|]. intros p' r Hsp a Ha. right. intros _. by apply (Hsp a).
Qed.

Lemma register_new_on_key amb m rq p :
  store_inv p.(cp_store) →
  post (register_new cfg amb m rq) p (on_key amb.(am_now) rq.(rq_auth) p).
Proof.
  intros Hs. unfold register_new. apply on_key_with; cbv zeta.
  - destruct (_ && _); [apply on_key_ret|].
    destruct (_ && _); [apply on_key_ret|]. apply on_key_moves, interactive_moves.
  - intros t key _ Hv. destruct (_ && _); [apply post_ret; by left|].
    destruct (_ && _); [apply post_ret; by left|]. destruct (ak_reusable key) eqn:Hr.
    + intros p' r _ a _. by right.
    + eapply post_weaken; [by eapply join_with_key_spends|]. intros p' r Hsp a Ha. right. intros _. by apply (Hsp a).
Qed.

Lemma register_on_key amb m rq auth p p' r :
  register cfg stack amb m rq p = Some (p', r) → store_inv p.(cp_store) →
  rq.(rq_followup) = [] → rq.(rq_auth) = Some auth → r.(rs_machine_authorized) = true →
  grants (λ _ _, False) p.(cp_store) p'.(cp_store)
  ∨ ∃ p1 key, prepared cfg amb p p1 ∧ valid_key amb.(am_now) auth key p1.(cp_store)
      ∧ (key.(ak_reusable) = false → spent auth p'.(cp_store)).
Proof.
  unfold register. intros E Hs Hf Ha Hr.
  destruct (register_body cfg stack amb m rq p) as [[q x]|] eqn:Eb; [|done].
  destruct x as [x|e]; injection E as <- <-; [|done].
  unfold register_body in Eb. rewrite Hf, bool_decide_eq_true_2 in Eb by done. cbn [negb] in Eb.
  unfold hbind at 1 in Eb. destruct (ensure_default_user cfg p) as [[p0 [[]|e]]|] eqn:E0; [|done|done].
  unfold hbind at 1 in Eb. destruct (ensure_bootstrap_key cfg amb p0) as [[p1 [[]|e]]|] eqn:E1; [|done|done].
  assert (Hp1 : prepared cfg amb p p1) by by exists p0.
  assert (Hinv : store_inv (cp_store p1) ∧ grants (λ _ _, False) (cp_store p) (cp_store p1)).
  { assert (Hk : on_store (λ s s', (store_inv s → store_inv s') ∧ grants (λ _ _, False) s s') p p1); [|by split; apply Hk].
    set (R := λ s s', (store_inv s → store_inv s') ∧ grants (λ _ _, False) s s').
    assert (PreOrder R).
    { split; [by intros s; split|]. intros s t u [H1 H2] [H3 H4]. split; [auto|by trans t]. }
    assert (HR : ∀ op s, touches_nodes op = false → R s (store_step op s)).
    { intros op s Ht. split; [apply store_step_inv|by apply grants_other]. }
    trans p0; [by apply (keeps_ensure_default_user cfg R HR p p0 (Ok ()))|].
    by apply (keeps_ensure_bootstrap_key cfg R HR amb p0 p1 (Ok ())). }
  destruct Hinv as [Hinv Hg].
  assert (Hon : on_key amb.(am_now) rq.(rq_auth) p1 q (Ok x)).
  { unfold hbind, ask in Eb. destruct (get_node_by_node_key _ _) as [node|] eqn:Hn.
    - apply get_node_row in Hn as [_ Hn]. by eapply register_known_on_key.
    - by eapply register_new_on_key. }
  destruct (Hon x eq_refl) as [Hg'|(t & key & Ht & Hv & Hsp)]; [left; by trans (cp_store p1)|].
  right. exists p1, key. rewrite Ha in Ht. by simplify_eq.
Qed.

End spending.

(** The planes a sequence of operations leaves. *)
Fixpoint plane_run `{Sqlite, KeyCrypto, Rfc3339, WireCodec, RecordsJson} (cfg : ControlConfig) (stack : nat)
    (ops : list plane_op) (p : ControlPlane) : option ControlPlane :=
  match ops with
  | [] => Some p
  | op :: ops => p ← plane_step cfg stack op p; plane_run cfg stack ops p
  end.

Lemma plane_run_sound `{Q : Sqlite, !SqliteLaws Q, KeyCrypto, Rfc3339, WireCodec, RecordsJson} cfg stack ops p p' :
  plane_run cfg stack ops p = Some p' →
  (sound_store p.(cp_store) → sound_store p'.(cp_store)) ∧ keys_advance p.(cp_store) p'.(cp_store).
Proof.
  revert p. induction ops as [|op ops IH]; intros p; cbn [plane_run]; [by intros [= <-]|].
  intros (q & Hq & Hr)%bind_Some. destruct (IH q Hr) as [Hsnd Hkeys]. split.
  - intros Hs. by apply Hsnd, (plane_step_sound cfg stack op p).
  - trans q.(cp_store); [by apply (plane_step_keys cfg stack op p)|done].
Qed.

(** ** The theorems *)

(** Whatever the operation, a node becomes authorized for a
    machine only in a registration by that machine, with a pre-auth key that
    is valid at that moment or as the registration approved under the auth id
    it presents, which the same machine started. *)
Theorem authorization_needs_credential `{Q : Sqlite, !SqliteLaws Q, KeyCrypto, Rfc3339, WireCodec, RecordsJson}
    cfg stack op p p' k m :
  plane_step cfg stack op p = Some p' → authorized p'.(cp_store) k m →
  authorized p.(cp_store) k m
  ∨ ∃ amb rq p1, op = OpRegister amb m rq ∧ prepared cfg amb p p1
      ∧ credential amb m rq p1.(cp_store) k.
Proof.
  intros Hstep Hk.
  set (G := λ k m, ∃ amb rq p1, op = OpRegister amb m rq ∧ prepared cfg amb p p1
                   ∧ credential amb m rq p1.(cp_store) k).
  assert (Hg : grants G p.(cp_store) p'.(cp_store)); [|exact (Hg k m Hk)].
  apply (plane_step_moves cfg stack G (grants G) op p p'); try done.
  - intros n s. apply grants_write.
  - intros x s. apply grants_delete.
  - intros op' s. apply grants_other.
  - intros amb m' rq p1 k' -> Hp1 Hc. by exists amb, rq, p1.
Qed.

(** C4. In every plane that is ever reached, no two nodes share an
    address, and the store keeps its keys and references. *)
Theorem reachable_addresses_unique `{Q : Sqlite, !SqliteLaws Q, KeyCrypto, Rfc3339, WireCodec, RecordsJson} cfg stack p :
  reachable cfg stack p →
  store_inv p.(cp_store)
  ∧ ∀ i j n n' a, p.(cp_store).(st_nodes) !! i = Some n → p.(cp_store).(st_nodes) !! j = Some n' →
      i ≠ j → a ∈ n.(dn_addresses) → a ∉ n'.(dn_addresses).
Proof.
  intros [Hs Ho]%reachable_sound. split; [done|]. intros i j n n' a Hn Hn' Hij Ha Ha'.
  by apply Hij, (Ho i j n n' a).
Qed.

(** C5. A registration that authorizes a node on the pre-auth key it
    carries had a valid key; if the key may be used once, it admits nobody in
    any plane that follows. *)
Theorem single_use_key_spent `{Q : Sqlite, !SqliteLaws Q, KeyCrypto, Rfc3339, WireCodec, RecordsJson}
    cfg stack amb m rq auth p p' r k :
  register cfg stack amb m rq p = Some (p', r) → sound_store p.(cp_store) →
  rq.(rq_followup) = [] → rq.(rq_auth) = Some auth → r.(rs_machine_authorized) = true →
  authorized p'.(cp_store) k m → ¬ authorized p.(cp_store) k m →
  ∃ p1 key, prepared cfg amb p p1 ∧ valid_key amb.(am_now) auth key p1.(cp_store)
    ∧ (key.(ak_reusable) = false →
       ∀ ops p'' now key', plane_run cfg stack ops p' = Some p'' →
         ¬ valid_key now auth key' p''.(cp_store)).
Proof.
  intros E Hs Hf Ha Hr Hk Hnk.
  assert (Hs' : sound_store p'.(cp_store)).
  { apply (plane_step_sound cfg stack (OpRegister amb m rq) p p'); [|done]. cbn [plane_step]. by rewrite E. }
  destruct (register_on_key cfg stack amb m rq auth p p' r E (proj1 Hs) Hf Ha Hr)
    as [Hg|(p1 & key & Hp1 & Hv & Hsp)]; [by destruct (Hg k m Hk)|].
  exists p1, key. split; [done|]. split; [done|]. intros Hone ops p'' now key' Hrun.
  apply plane_run_sound in Hrun as [Hs'' Hadv].
  apply spent_invalid; [by apply Hs''|]. by eapply spent_advance, Hsp.
Qed.

(** ** Examples *)

(** A single-use key is created, and a node registers with it. *)
Definition demo_keyed : option ControlPlane :=
  plane_run demo_config 10
    [OpCreateKey (demo_ambient 100 1) (str "once") false false None None] demo_start.

Definition demo_p : ControlPlane := default demo_start demo_keyed.

Definition demo_joined : option (ControlPlane * RegisterResponse) :=
  register demo_config 10 (demo_ambient 110 2) [7] (demo_request [1] (Some once_key)) demo_p.
Definition demo_p' : ControlPlane := from_option fst demo_start demo_joined.
Definition demo_r : RegisterResponse := from_option snd RegisterResponse_default demo_joined.

Lemma demo_joined_eq : demo_joined = Some (demo_p', demo_r).
Proof. unfold demo_p', demo_r. destruct demo_joined as [[]|] eqn:E; [done|]. by vm_compute in E. Qed.

Lemma demo_keyed_eq : demo_keyed = Some demo_p.
Proof. unfold demo_p. destruct demo_keyed eqn:E; [done|]. by vm_compute in E. Qed.

Lemma demo_reachable : reachable demo_config 10 demo_p.
Proof.
  eapply reach_step; [apply (reach_start _ _ (Err []))|].
  pose proof demo_keyed_eq as E. unfold demo_keyed in E. cbn [plane_run] in E.
  apply bind_Some in E as (q & Hq & [= <-]). exact Hq.
Qed.

(** What the store says, by evaluation. *)
Lemma authorized_facts s k m :
  existsb (λ i, match facts s !! i with
                | Some (k', m', _, true) => bool_decide (k' = k) && bool_decide (m' = m)
                | _ => false end) (sorted_keys (facts s)) = true ↔ authorized s k m.
Proof.
  rewrite existsb_exists. split.
  - intros (i & _ & Hi). destruct (facts s !! i) as [[[[k' m'] a] []]|] eqn:E; [|done|done].
    apply andb_true_iff in Hi as [->%bool_decide_eq_true ->%bool_decide_eq_true]. by exists i, a.
  - intros (i & a & Hi). exists i. split.
    + apply list_elem_of_In, elem_of_sorted_keys. by eexists.
    + by rewrite Hi, !bool_decide_eq_true_2.
Qed.

Lemma authorization_needs_credential_witness :
  authorized demo_p'.(cp_store) [1] [7]
  ∧ ∃ amb rq p1, OpRegister (demo_ambient 110 2) [7] (demo_request [1] (Some once_key)) = OpRegister amb [7] rq
      ∧ prepared demo_config amb demo_p p1 ∧ credential amb [7] rq p1.(cp_store) [1].
Proof.
  assert (Ha : authorized demo_p'.(cp_store) [1] [7]) by (apply authorized_facts; by vm_compute).
  split; [done|].
  destruct (authorization_needs_credential demo_config 10
    (OpRegister (demo_ambient 110 2) [7] (demo_request [1] (Some once_key))) demo_p demo_p' [1] [7])
    as [H|H]; [|done| |done].
  - change (fst <$> demo_joined = Some demo_p'). by rewrite demo_joined_eq.
  - apply authorized_facts in H. by vm_compute in H.
Defined.

Lemma reachable_addresses_unique_witness :
  store_inv demo_p.(cp_store)
  ∧ ∀ i j n n' a, demo_p.(cp_store).(st_nodes) !! i = Some n → demo_p.(cp_store).(st_nodes) !! j = Some n' →
      i ≠ j → a ∈ n.(dn_addresses) → a ∉ n'.(dn_addresses).
Proof. apply (reachable_addresses_unique demo_config 10), demo_reachable. Defined.

Lemma single_use_key_spent_witness :
  demo_r.(rs_machine_authorized) = true
  ∧ ∃ p1 key, prepared demo_config (demo_ambient 110 2) demo_p p1
    ∧ valid_key (str "110") once_key key p1.(cp_store)
    ∧ (key.(ak_reusable) = false →
       ∀ ops p'' now key', plane_run demo_config 10 ops demo_p' = Some p'' →
         ¬ valid_key now once_key key' p''.(cp_store)).
Proof.
  split; [by vm_compute|].
  apply (single_use_key_spent demo_config 10 (demo_ambient 110 2) [7] (demo_request [1] (Some once_key))
           once_key demo_p demo_p' demo_r [1]); [|apply (reachable_sound demo_config 10), demo_reachable|done|done|by vm_compute| |].
  - exact demo_joined_eq.
  - apply authorized_facts. by vm_compute.
  - intros H%authorized_facts. by vm_compute in H.
Defined.
