(* ===== verification/Server.v ===== *)
(** * The outer server ([crabscale-server/src/http.rs], [key.rs])

    The requests of the outer listener, up to the TS2021 upgrade that gives a
    connection its machine key, composed with the router behind it.  The theorems
    are about any history of requests: what they do to the control plane are
    operations of [Admission], and who can be the machine of an operation. *)

From S2P Require Import Prelude ProtoKey ProtoFrame Text Net IpText StreamDecoder TransportRecord TransportStream Noise Pending Sessions Events PolicyModel PolicyTags NetMap PreAuth Store Dns SshPolicy Delta Control Registration MapRequest Demo Url SshCheck Proxy RateLimit Upgrade Http Oidc Router PlaneInv Admission Security.

(** ** The server's key *)

Section key.
  Context `{NoisePrimitives}.

Record ServerKey : Type := { responder : NoiseResponder; public : bytes }.

(** [load_or_create_machine_key]: what the file holds, should it exist, the secret
    that is drawn otherwise and whether it could be written; the key and what is
    written.  A file that cannot be read ends as one of another length. *)
Definition load_or_create_machine_key (file : option bytes) (random : bytes) (written : bool)
    : option (ServerKey * option bytes) :=
  '(secret, persisted) ←
    match file with
    | Some bytes => if zlen bytes =? 32 then Some (bytes, None) else None
    | None => if written then Some (random, Some random) else None
    end;
  let responder := NoiseResponder_from_bytes secret in
  Some ({| responder := responder; public := responder.(static_public) |}, persisted).

(** The key a server draws is the one it has after a restart. *)
Lemma machine_key_survives random k b :
  zlen random = 32 → load_or_create_machine_key None random true = Some (k, b) →
  ∀ other written, load_or_create_machine_key b other written = Some (k, None).
Proof.
  unfold load_or_create_machine_key. cbn. intros Hl [= <- <-] other written. by rewrite Hl.
Qed.

End key.

(** ** The upgrade *)

Section upgrade.
  Context `{NoisePrimitives, Base64}.

(** [headers.get(name).and_then(|v| v.to_str().ok())] *)
Definition header_text (name : text) (req : HttpRequest) : option text := mjoin (get_header name req.(hr_headers)).

Definition ts2021_prologue (version : Z) : bytes := str "Tailscale Control Protocol v" ++ show_uint version.

Definition switching_protocols : HttpResponse :=
  {| status := 101; headers := [(str "upgrade", UPGRADE_HEADER_VALUE); (str "connection", str "upgrade")]; body := NoBody |}.

(** [handle_ts2021]: the answer, and what the responder gives the connection that
    is to be upgraded; [ephemeral] is the secret it draws. *)
Definition handle_ts2021 (key : ServerKey) (ephemeral : bytes) (req : HttpRequest)
    : HttpResponse * option ResponderOutput :=
  match validate_native_upgrade (str "POST") (header_text (str "upgrade") req) (header_text (str "connection") req)
          (header_text HANDSHAKE_HEADER req) with
  | Err _ => (plain_response 400 (str "invalid upgrade request"), None)
  | Ok init =>
      match parse_init_message init with
      | Err _ => (plain_response 400 (str "invalid handshake"), None)
      | Ok init =>
          match respond_with_ephemeral key.(responder) init (ts2021_prologue init.(init_version)) ephemeral with
          | Err _ => (plain_response 400 (str "handshake rejected"), None)
          | Ok output => (switching_protocols, Some output)
          end
      end
  end.

(** [ts2021_handshake] on a connection that is upgraded and takes the response: what
    is written first, the stream of the two keys over the polls of the transport,
    and the machine key of its requests. *)
Definition ts2021_handshake (output : ResponderOutput) (inp : list read_answer) (acc : list write_answer)
    : bytes * NoiseStream * bytes :=
  (output.(response),
   NoiseStream_new inp acc output.(out_session).(initiator_to_responder) output.(out_session).(responder_to_initiator),
   output.(peer_static_public)).

End upgrade.

(** ** The requests of the outer listener *)

Section server.
  Context `{Q : Sqlite, C : KeyCrypto, T : Rfc3339, W : WireCodec, L : OidcLibrary, J : RequestJson, H : HttpLibrary}.
  Context `{P : NoisePrimitives, B64 : Base64} {N : Type} `{!IpNetwork N}.
  Context (cfg : ControlConfig) (stack : nat) (key : ServerKey) (proxies : option (TrustedProxies (N := N))).

(** The address that is limited: the peer's, or the one its proxies report. *)
Definition client_ip (peer : IpAddr) (req : HttpRequest) : IpAddr :=
  match proxies with
  | Some p => resolve_client_ip p peer req.(hr_headers)
  | None => peer
  end.

Definition method_not_allowed : HttpResponse := plain_response 405 (str "method not allowed").

(** [POST /verify]; [Limited::collect] counts as [read_body_limited] does. *)
Definition serve_verify (req : HttpRequest) (r : ControlRouter) : HttpResponse :=
  if negb (bool_decide (req.(hr_method) = str "POST")) then method_not_allowed
  else
    match read_body_limited req.(hr_body) VERIFY_MAX_BODY_LEN with
    | Err BodyTooLarge => plain_response 413 (str "body too large")
    | Err _ => plain_response 400 (str "invalid request body")
    | Ok b => handle_verify b r
    end.

(** [/health], [/version] and [/metrics] *)
Definition operational (req : HttpRequest) : option HttpResponse :=
  let found :=
    if bool_decide (req.(hr_path) = str "/health") then Some handle_health
    else if bool_decide (req.(hr_path) = str "/version") then Some (handle_version cfg)
    else if bool_decide (req.(hr_path) = str "/metrics") then Some handle_metrics
    else None in
  match found with
  | Some response => Some (if bool_decide (req.(hr_method) = str "GET") then response else method_not_allowed)
  | None => None
  end.

(** What an outer request comes to: the router and the answer, and for an upgrade
    the output of the handshake. *)
Abbreviation served := (option (ControlRouter * HttpResponse * option ResponderOutput)).

Definition plain_served (r : ControlRouter) (response : HttpResponse) : served := Some (r, response, None).

Definition routed (o : option (ControlRouter * HttpResponse)) : served := '(r, response) ← o; plain_served r response.

Definition serve_ts2021 (mo : Moment) (peer : IpAddr) (ephemeral : bytes) (req : HttpRequest) (r : ControlRouter) : served :=
  let '(r, limited) := check_ts2021_rate mo (client_ip peer req) r in
  match limited with
  | Some retry_after => plain_served r (rate_limited_response retry_after)
  | None => let '(response, output) := handle_ts2021 key ephemeral req in Some (r, response, output)
  end.

(** The tail of [handle_request], behind the endpoints that only read. *)
Definition serve_browser (mo : Moment) (req : HttpRequest) (answers : option (http_answer * http_answer))
    (meanwhile : ControlRouter → ControlRouter) (r : ControlRouter) : served :=
  match (if bool_decide (req.(hr_method) = str "GET") then register_auth_id req.(hr_path) else None) with
  | Some auth_id => routed (handle_register_page mo auth_id r)
  | None =>
      if is_route req (str "GET") (str "/oidc/callback")
      then routed (handle_oidc_callback cfg stack mo (default [] req.(hr_query)) answers meanwhile r)
      else plain_served r (plain_response 404 (str "not found"))
  end.

Definition handle_request (mo : Moment) (peer : IpAddr) (ephemeral : bytes) (req : HttpRequest)
    (answers : option (http_answer * http_answer)) (meanwhile : ControlRouter → ControlRouter) (r : ControlRouter) : served :=
  if is_route req (str "GET") (str "/key") then plain_served r (handle_key (query_param req.(hr_query) (str "v")) r)
  else
    match operational req with
    | Some response => plain_served r response
    | None =>
        if is_route req (str "POST") (str "/ts2021") then serve_ts2021 mo peer ephemeral req r
        else if bool_decide (req.(hr_path) = str "/verify") then plain_served r (serve_verify req r)
        else if bool_decide (req.(hr_path) = str "/bootstrap-dns") then
          plain_served r
            (if bool_decide (req.(hr_method) = str "GET")
             then handle_bootstrap_dns (query_param req.(hr_query) (str "q")) r else method_not_allowed)
        else serve_browser mo req answers meanwhile r
    end.

End server.

(** ** What requests do to the control plane *)

(** The plane moves by operations that [P] allows. *)
Definition by_ops `{Sqlite, KeyCrypto, Rfc3339, WireCodec, RecordsJson} (cfg : ControlConfig) (stack : nat)
    (P : plane_op → Prop) (p p' : ControlPlane) : Prop :=
  ∃ ops, Forall P ops ∧ plane_run cfg stack ops p = Some p'.

(** What a browser's request may call. *)
Definition browser_op (op : plane_op) : Prop :=
  match op with OpInfo _ _ | OpOidc _ _ | OpApprove _ _ _ => True | _ => False end.

(** What a request of the machine [m] may call, its body one that was registered. *)
Definition machine_op `{RequestJson} (m : bytes) (op : plane_op) : Prop :=
  match op with
  | OpRegister _ m' rq => m' = m ∧ ∃ b, register_from_json b = Some rq
  | OpLogout m' _ | OpMap _ m' _ | OpSshAction _ m' _ _ => m' = m
  | OpSshPoll _ _ => True
  | _ => False
  end.

Section effects.
  Context `{Q : Sqlite, C : KeyCrypto, T : Rfc3339, W : WireCodec, R : RecordsJson} (cfg : ControlConfig) (stack : nat).
  Abbreviation moves_by := (by_ops cfg stack).

#[global] Instance by_ops_preorder P : PreOrder (moves_by P).
Proof.
  split; [by intros p; exists []|]. intros p q r (o1 & F1 & E1) (o2 & F2 & E2). exists (o1 ++ o2).
  split; [by apply Forall_app|]. revert p E1. induction o1 as [|op o1 IH]; intros p; cbn [plane_run app].
  - by intros [= ->].
  - apply list.Forall_cons in F1 as [_ F1]. intros (s & Hs & Hr)%bind_Some. rewrite Hs. by apply IH.
Qed.

Lemma by_ops_mono (P P' : plane_op → Prop) p q : (∀ op, P op → P' op) → moves_by P p q → moves_by P' p q.
Proof. intros HP (ops & F & E). exists ops. split; [|done]. by eapply list.Forall_impl. Qed.

Lemma by_op (P : plane_op → Prop) op p q : P op → plane_step cfg stack op p = Some q → moves_by P p q.
Proof. intros HP Hs. exists [op]. split; [by constructor|]. cbn [plane_run]. by rewrite Hs. Qed.

Lemma by_left {A} (P : plane_op → Prop) op (m : handler A) p q x :
  P op → plane_step cfg stack op p = left_by m p → m p = Some (q, x) → moves_by P p q.
Proof. intros HP E Hm. apply (by_op P op); [done|]. rewrite E. unfold left_by. by rewrite Hm. Qed.

(** The wait of an SSH answer is the first step, then polls. *)
Lemma wait_ssh_ops (P : plane_op → Prop) a rounds p q x :
  (∀ now, P (OpSshPoll now a)) → (∀ now f p, (now, f) ∈ rounds → moves_by P p (f p)) →
  wait_ssh_verdict a rounds p = Some (q, x) → moves_by P p q.
Proof.
  intros HP. revert p. induction rounds as [|[now f] rounds IH]; intros p Hf; cbn [wait_ssh_verdict].
  { intros [= <- _]. done. }
  assert (H1 : moves_by P p (f p)) by (apply (Hf now); left).
  unfold hbind at 1. cbn [modify]. unfold hbind at 1.
  destruct (poll_ssh_verdict now a (f p)) as [[p1 v]|] eqn:Hp; [|done].
  assert (H2 : moves_by P (f p) p1) by (by eapply (by_left P (OpSshPoll now a)), Hp).
  destruct v as [[v|]|e].
  - intros [= <- _]. by trans (f p).
  - intros E. trans (f p); [done|]. trans p1; [done|]. apply IH; [|done]. intros now' f' p' Hin. apply (Hf now').
    by right.
  - intros [= <- _]. by trans (f p).
Qed.

Lemma ssh_action_ops (P : plane_op → Prop) amb m b a rounds p q x :
  P (OpSshAction amb m b a) → (∀ now id, P (OpSshPoll now id)) →
  (∀ now f p, (now, f) ∈ rounds → moves_by P p (f p)) →
  handle_ssh_action cfg stack amb m b a rounds p = Some (q, x) → moves_by P p q.
Proof.
  intros Ha HP Hf E.
  assert (Hsplit : ∃ p1 y, handle_ssh_action cfg stack amb m b a [] p = Some (p1, y) ∧ moves_by P p1 q).
  { revert E. unfold handle_ssh_action. unfold hbind at 1 3. unfold ask at 1 3.
    destruct (get_node_by_id _ _) as [dst|]; [|intros E; by exists q, x].
    destruct (negb _); [intros E; by exists q, x|]. unfold hbind at 1 2. unfold ask at 1 2.
    destruct (get_node_by_id _ _) as [src|]; [|intros E; by exists q, x].
    destruct a as [id|]; [|intros E; by exists q, x]. unfold respond_ssh_followup. unfold hbind at 1 3.
    destruct (live_ssh_auth amb id p) as [[p1 [[e|]|err]]|]; [|intros E; by exists q, x|intros E; by exists q, x|done].
    destruct (_ || _); [intros E; by exists q, x|]. destruct (sh_verdict e); try (intros E; by exists q, x).
    intros E. exists p1, (Err TimedOut). split; [done|]. unfold hbind in E.
    destruct (wait_ssh_verdict id rounds p1) as [[p2 [v|err]]|] eqn:Hw; [| |done].
    - assert (p2 = q) as -> by (unfold of_result in E; congruence). by eapply wait_ssh_ops, Hw.
    - assert (p2 = q) as -> by congruence. by eapply wait_ssh_ops, Hw. }
  destruct Hsplit as (p1 & y & E1 & H1). trans p1; [|done]. by eapply (by_left P (OpSshAction amb m b a)), E1.
Qed.

(** A push to a session only reads. *)
Lemma build_delta_reads n batch sent version p q x : build_delta cfg stack n batch sent version p = Some (q, x) → q = p.
Proof.
  unfold build_delta. cbv zeta. destruct (negb _); [by intros [= <- _]|].
  destruct (get_node_by_id _ _) as [self|]; [|by intros [= <- _]].
  unfold viewing, diverging. destruct (peers_delta _ _ _ _ _ _); [by intros [= <- _]|done].
Qed.

End effects.

(** ** Requests are operations *)

Section requests.
  Context `{Q : Sqlite, C : KeyCrypto, T : Rfc3339, W : WireCodec, R : RecordsJson, L : OidcLibrary, J : RequestJson, H : HttpLibrary}.
  Context `{P : NoisePrimitives, B64 : Base64} {N : Type} `{!IpNetwork N}.
  Context (cfg : ControlConfig) (stack : nat) (key : ServerKey) (proxies : option (TrustedProxies (N := N))).
  Abbreviation moves_by := (by_ops cfg stack).

Lemma on_plane_control {A} (m : handler A) r r' x :
  on_plane m r = Some (r', x) → ∃ q, m r.(control) = Some (q, x) ∧ r' = set_control q r.
Proof. unfold on_plane. destruct (m (control r)) as [[q y]|]; [|done]. intros [= <- <-]. by exists q. Qed.

(** A call of the plane that is an operation. *)
Lemma on_plane_op {A} (P' : plane_op → Prop) op (m : handler A) r r' x :
  P' op → plane_step cfg stack op r.(control) = left_by m r.(control) → on_plane m r = Some (r', x) →
  moves_by P' r.(control) r'.(control).
Proof.
  intros HP E (q & Hm & ->)%on_plane_control. cbn [set_control control]. by eapply (by_left cfg stack P' op m).
Qed.

Lemma rate_checks_control mo ip m r :
  (check_ts2021_rate mo ip r).1.(control) = r.(control) ∧ (check_register_rate mo m r).1.(control) = r.(control).
Proof.
  unfold check_ts2021_rate, check_register_rate.
  destruct (check _ (show_ip ip) _ _), (check _ (key_text m) _ _). done.
Qed.

Lemma register_page_moves mo auth_id r r' resp :
  handle_register_page mo auth_id r = Some (r', resp) → moves_by browser_op r.(control) r'.(control).
Proof.
  unfold handle_register_page. destruct (on_plane (pending_info _ _) r) as [[r1 [[p|]|e]]|] eqn:E; [| | |done].
  - assert (H1 : moves_by browser_op r.(control) r1.(control)) by by eapply (on_plane_op _ (OpInfo (mo_ambient mo) auth_id)), E.
    destruct (oidc r1) as [o|]; [|by intros [= <- <-]]. unfold begin_oidc.
    destruct (flow_begin _ _ _ _ _) as [flows [st flow]]. by intros [= <- <-].
  - intros [= <- <-]. by eapply (on_plane_op _ (OpInfo (mo_ambient mo) auth_id)), E.
  - intros [= <- <-]. by eapply (on_plane_op _ (OpInfo (mo_ambient mo) auth_id)), E.
Qed.

Lemma approve_profile_moves mo flow profile r r' resp :
  approve_profile cfg stack mo flow profile r = Some (r', resp) → moves_by browser_op r.(control) r'.(control).
Proof.
  unfold approve_profile. destruct (on_plane (upsert_oidc_user _ _) r) as [[r1 x]|] eqn:E; [|done].
  assert (H1 : moves_by browser_op r.(control) r1.(control)) by by eapply (on_plane_op _ (OpOidc (mo_ambient mo) profile)), E.
  destruct x as [u|e]; [|by intros [= <- <-]].
  destruct (on_plane _ r1) as [[r2 y]|] eqn:E2; [|done].
  assert (H2 : moves_by browser_op r1.(control) r2.(control)).
  { by eapply (on_plane_op _ (OpApprove (mo_ambient mo) (of_auth_id flow) (oidc_email profile))), E2. }
  destruct y; intros [= <- <-]; by trans r1.(control).
Qed.

Lemma callback_moves (P' : plane_op → Prop) mo query answers meanwhile r r' resp :
  (∀ op, browser_op op → P' op) → (∀ q, moves_by P' q.(control) (meanwhile q).(control)) →
  handle_oidc_callback cfg stack mo query answers meanwhile r = Some (r', resp) → moves_by P' r.(control) r'.(control).
Proof.
  intros Hb Hm. unfold handle_oidc_callback. destruct (oidc r) as [o|]; [|by intros [= <- <-]]. cbv zeta.
  destruct (parse_query query !! str "error"); [by intros [= <- <-]|].
  destruct (parse_query query !! str "state") as [state|]; [|by intros [= <- <-]].
  destruct (parse_query query !! str "code"); [|by intros [= <- <-]].
  destruct (flow_take _ _ _) as [flows [flow|]]; [|by intros [= <- <-]]. set (r0 := set_flows flows r).
  destruct (on_plane _ r0) as [[r1 x]|] eqn:E; [|done].
  assert (H1 : moves_by P' r0.(control) r1.(control)).
  { eapply (on_plane_op _ (OpInfo (mo_ambient mo) (of_auth_id flow))), E; [by apply Hb|done]. }
  change (control r0) with (control r) in H1. destruct x as [[p|]|e]; [|by intros [= <- <-]..].
  unfold exchange_and_approve. cbv zeta. destruct answers as [[ta ja]|].
  2: { intros [= <- <-]. by trans r1.(control). }
  destruct (complete _ _ _ _ _ _) as [cache [profile|e]].
  - intros E2%approve_profile_moves. trans r1.(control); [done|]. trans (control (meanwhile r1)); [done|].
    by eapply by_ops_mono.
  - intros [= <- <-]. by trans r1.(control).
Qed.

(** Whatever an outer request is, the plane moves only as a browser's request may
    move it, and by what runs while a callback waits. *)
Lemma outer_moves (P' : plane_op → Prop) mo peer ephemeral req answers meanwhile r r' resp out :
  (∀ op, browser_op op → P' op) → (∀ q, moves_by P' q.(control) (meanwhile q).(control)) →
  handle_request cfg stack key proxies mo peer ephemeral req answers meanwhile r = Some (r', resp, out) →
  moves_by P' r.(control) r'.(control).
Proof.
  intros Hb Hm. unfold handle_request, plain_served. destruct (is_route _ _ _); [by intros [= <- _ _]|].
  destruct (operational cfg req); [by intros [= <- _ _]|]. destruct (is_route _ _ _).
  - unfold serve_ts2021. destruct (rate_checks_control mo (client_ip proxies peer req) [] r) as [Hc _].
    destruct (check_ts2021_rate _ _ _) as [r1 [retry|]]; cbn [fst] in Hc; [|destruct (handle_ts2021 _ _ _)];
      intros [= <- _ _]; by rewrite Hc.
  - case_bool_decide; [by intros [= <- _ _]|]. case_bool_decide; [by intros [= <- _ _]|]. unfold serve_browser.
    destruct (if bool_decide _ then _ else _) as [auth_id|].
    + unfold routed. intros ([r1 x] & E & [= <- _ _])%bind_Some. eapply by_ops_mono; [exact Hb|]. by eapply register_page_moves.
    + destruct (is_route _ _ _); [|by intros [= <- _ _]]. unfold routed.
      intros ([r1 x] & E & [= <- _ _])%bind_Some. by eapply callback_moves.
Qed.

(** A request of the machine [m] moves the plane only as that machine. *)
Lemma inner_moves (P' : plane_op → Prop) mo m req rounds r r' a :
  (∀ op, machine_op m op → P' op) → (∀ now f p, (now, f) ∈ rounds → moves_by P' p (f p)) →
  handle_inner cfg stack mo m req rounds r = Some (r', a) → moves_by P' r.(control) r'.(control).
Proof.
  intros Hb Hf. unfold handle_inner. destruct (read_body_limited _ _) as [b|[]]; try by intros [= <- _].
  destruct (is_route _ _ _); [by intros [= <- _]|]. destruct (is_route _ _ _).
  { unfold answered. intros ([r1 x] & E & [= <- _])%bind_Some. unfold handle_register in E.
    destruct (rate_checks_control mo (V4 0) m r) as [_ Hc].
    destruct (check_register_rate mo m r) as [r0 [retry|]]; cbn [fst] in Hc; [injection E as <- _; by rewrite Hc|].
    destruct (register_from_json b) as [rq|] eqn:Hrq; [|injection E as <- _; by rewrite Hc].
    destruct (register _ _ _ _ _ _) as [[q y]|] eqn:Hr; [|done]. injection E as <- _. cbn [set_control control].
    rewrite Hc in Hr. eapply (by_op cfg stack P' (OpRegister (mo_ambient mo) m rq)).
    - apply Hb. cbn. split; [done|by exists b].
    - cbn [plane_step]. by rewrite Hr. }
  destruct (is_route _ _ _).
  { unfold router_handle_map. destruct (map_from_json b) as [rq|]; [|by intros [= <- _]].
    destruct (on_plane _ r) as [[r1 x]|] eqn:E; [|done].
    assert (H1 : moves_by P' r.(control) r1.(control)).
    { eapply (on_plane_op _ (OpMap (mo_ambient mo) m rq)), E; [by apply Hb|done]. }
    destruct x as [[]|]; by intros [= <- _]. }
  destruct (is_route _ _ _).
  { unfold answered. intros ([r1 x] & E & [= <- _])%bind_Some. unfold handle_logout in E.
    destruct (logout_from_json b) as [k|]; [|by injection E as <- _].
    destruct (on_plane _ r) as [[r2 y]|] eqn:E2; [|done].
    assert (H1 : moves_by P' r.(control) r2.(control)).
    { eapply (on_plane_op _ (OpLogout m k)), E2; [by apply Hb|done]. }
    destruct y as [y|[]]; by injection E as <- _. }
  destruct (if bool_decide _ then _ else _) as [[src dst]|].
  2: { case_bool_decide; by intros [= <- _]. }
  unfold answered. intros ([r1 x] & E & [= <- _])%bind_Some. unfold router_handle_ssh_action in E. cbv zeta in E.
  destruct (on_plane _ r) as [[r2 y]|] eqn:E2; [|done].
  apply on_plane_control in E2 as (q & E2 & ->).
  assert (H1 : moves_by P' r.(control) (set_control q r).(control)).
  { cbn [set_control control]. eapply (ssh_action_ops cfg stack P'), E2; [by apply Hb| |done]. intros. by apply Hb. }
  destruct y as [y|[]]; by injection E as <- _.
Qed.

End requests.

(** ** Histories of the server *)

Section history.
  Context `{Q : Sqlite, !SqliteLaws Q, C : KeyCrypto, T : Rfc3339, W : WireCodec, R : RecordsJson, L : OidcLibrary, J : RequestJson, H : HttpLibrary}.
  Context `{P : NoisePrimitives, B64 : Base64} {N : Type} `{!IpNetwork N}.
  Context (cfg : ControlConfig) (stack : nat) (key : ServerKey) (proxies : option (TrustedProxies (N := N))).

(** A handshake request that the server answers with an upgrade, and the machine key
    it recovers. *)
Definition accepted (req : HttpRequest) (m : bytes) : Prop :=
  ∃ ephemeral out, handle_ts2021 key ephemeral req = (switching_protocols, Some out) ∧ out.(peer_static_public) = m.

(** The requests of a server and what it does beside them, in any order and nested
    where a request waits: outer requests; requests inside a connection, whose
    handshake was accepted; the pushes of a session and its end; calls of the operator,
    of the command-line client on the same store and of the background tasks, which
    never register; a restart; and changes that leave the plane alone, as a restart
    also empties the flows and the limiters. *)
Inductive serves : ControlRouter → ControlRouter → Prop :=
| serves_refl r : serves r r
| serves_trans r1 r2 r3 : serves r1 r2 → serves r2 r3 → serves r1 r3
| serves_outer mo peer ephemeral req answers meanwhile r r' resp out :
    (∀ q, serves q (meanwhile q)) →
    handle_request cfg stack key proxies mo peer ephemeral req answers meanwhile r = Some (r', resp, out) → serves r r'
| serves_inner handshake m mo req rounds r r' a :
    accepted handshake m → (∀ now f q, (now, f) ∈ rounds → serves q (set_control (f q.(control)) q)) →
    handle_inner cfg stack mo m req rounds r = Some (r', a) → serves r r'
| serves_stream s headed taken now wakes r p frames ended :
    (∀ f w t q, (f, w, t) ∈ wakes → serves q (set_control (f q.(control)) q)) →
    send_stream cfg stack s headed taken now wakes r.(control) = Some (p, frames, ended) → serves r (set_control p r)
| serves_task op p r :
    (∀ amb m rq, op ≠ OpRegister amb m rq) → plane_step cfg stack op r.(control) = Some p → serves r (set_control p r)
| serves_beside r r' : r'.(control) = r.(control) → serves r r'.

(** An operation of a history: a registration is one of a machine whose handshake was
    accepted. *)
Definition served_op (op : plane_op) : Prop :=
  ∀ amb m rq, op = OpRegister amb m rq → (∃ req, accepted req m) ∧ ∃ b, register_from_json b = Some rq.

Lemma stream_moves (P' : plane_op → Prop) s wakes last p q frames ended :
  (∀ i now, P' (OpClose i now)) → (∀ f w t p, (f, w, t) ∈ wakes → by_ops cfg stack P' p (f p)) →
  stream_loop cfg stack s wakes last p = Some (q, frames, ended) → by_ops cfg stack P' p q.
Proof.
  intros Hc. revert last p q frames ended. induction wakes as [|[[f w] t] wakes IH]; intros last p q frames ended Hf;
    cbn [stream_loop]; [by intros [= <- _ _]|].
  assert (H1 : by_ops cfg stack P' p (f p)) by (apply (Hf f w t); left).
  destruct (stream_turn cfg stack s last w (f p)) as [[p1 tn]|] eqn:Et; [|done].
  assert (p1 = f p) as ->.
  { destruct w as [[]|b []| |]; cbn in Et; repeat case_match; simplify_eq; try done; by eapply build_delta_reads. }
  destruct tn as [fr last'|].
  - intros ([[p2 more] e] & E & [= <- _ _])%bind_Some. trans (f p); [done|]. eapply IH, E. intros f' w' t' p' Hin.
    apply (Hf f' w' t'). by right.
  - intros [= <- _ _]. trans (f p); [done|]. by apply (by_op cfg stack P' (OpClose (ss_session_id s) t)).
Qed.

Lemma serves_moves r r' : serves r r' → by_ops cfg stack served_op r.(control) r'.(control).
Proof.
  induction 1 as [r|r1 r2 r3 _ IH1 _ IH2|mo peer eph req answers meanwhile r r' resp out _ IH E|hs m mo req rounds r r' a Ha _ IH E
    |s headed taken now wakes r p frames ended _ IH E|op p r Hop E|r r' E].
  - done.
  - by trans r2.(control).
  - eapply (outer_moves cfg stack key proxies), E; [|done]. intros op Hb ? ? ? ->. by cbn in Hb.
  - eapply inner_moves, E.
    + intros op Hb amb m' rq ->. destruct Hb as [-> Hb]. split; [by exists hs|done].
    + intros now f p Hin. specialize (IH now f (set_control p r) Hin). by cbn [set_control control] in IH.
  - cbn [set_control control]. revert E. unfold send_stream.
    assert (Hclose : ∀ i t p, by_ops cfg stack served_op p (close_session i t p)).
    { intros i t p'. by apply (by_op cfg stack served_op (OpClose i t)). }
    destruct (negb headed || negb taken); [intros [= <- _ _]; apply Hclose|].
    destruct (negb _); [intros [= <- _ _]; apply Hclose|].
    intros ([[p2 more] e] & E & [= <- _ _])%bind_Some. eapply stream_moves, E; [done|].
    intros f w t p' Hin. specialize (IH f w t (set_control p' r) Hin). by cbn [set_control control] in IH.
  - cbn [set_control control]. apply (by_op cfg stack served_op op); [|done]. intros amb m rq ->. by destruct (Hop amb m rq).
  - by rewrite E.
Qed.

Lemma by_ops_reachable P' p q : by_ops cfg stack P' p q → reachable cfg stack p → reachable cfg stack q.
Proof.
  intros (ops & _ & E). revert p E. induction ops as [|op ops IH]; intros p; cbn [plane_run]; [by intros [= ->]|].
  intros (p1 & H1 & H2)%bind_Some Hr. apply (IH p1 H2). by eapply reach_step, H1.
Qed.

(** Where an operation authorizes a node. *)
Lemma run_credential (P' : plane_op → Prop) ops p q k m :
  Forall P' ops → plane_run cfg stack ops p = Some q → authorized q.(cp_store) k m →
  authorized p.(cp_store) k m
  ∨ ∃ amb rq p0 p1, P' (OpRegister amb m rq) ∧ prepared cfg amb p0 p1 ∧ credential amb m rq p1.(cp_store) k.
Proof.
  revert p. induction ops as [|op ops IH]; intros p F; cbn [plane_run]; [intros [= ->]; by left|].
  apply list.Forall_cons in F as [Hop F]. intros (p1 & H1 & H2)%bind_Some Hq.
  set (G := λ k m, ∃ amb rq p1, op = OpRegister amb m rq ∧ prepared cfg amb p p1 ∧ credential amb m rq p1.(cp_store) k).
  assert (Hg : grants G p.(cp_store) p1.(cp_store)).
  { apply (plane_step_moves cfg stack G (grants G) op p p1); [apply grants_write|apply grants_delete|apply grants_other| |done].
    intros amb m' rq p2 k' -> Hp2 Hc. by exists amb, rq, p2. }
  destruct (IH p1 F H2 Hq) as [Ha|Ha]; [|by right].
  destruct (Hg k m Ha) as [?|(amb & rq & p2 & -> & Hp2 & Hc)]; [by left|]. right. by exists amb, rq, p, p2.
Qed.

End history.

(** ** The theorems *)

(** The handshake a request carries is, but for its version, the one that the holder
    of the machine's secret writes for this server. *)
Definition from_holder `{NoisePrimitives, Base64} (secret : bytes) (req : HttpRequest) (m : bytes) : Prop :=
  ∃ h raw init, header_text HANDSHAKE_HEADER req = Some h ∧ b64_decode (trim h) = Some raw
    ∧ parse_init_message raw = Ok init
    ∧ ∀ cs ce, m = public_key cs → init.(client_ephemeral) = public_key ce →
        parse_init_message
          (initialize_with_ephemeral cs ce (public_key secret) (ts2021_prologue init.(init_version)) init.(init_version)).2
        = Ok init.

Lemma parsed_init_lengths buf init :
  parse_init_message buf = Ok init → zlen init.(client_static_ciphertext) = 48 ∧ 0 ≤ init.(init_version) < 2 ^ 16.
Proof.
  unfold parse_init_message. destruct (Z.eqb_spec (zlen buf) INIT_MESSAGE_LEN) as [Hl|]; cbn [negb]; [|done].
  destruct (negb _); [done|]. cbv zeta. destruct (negb _); [done|]. intros [= <-]. cbn [client_static_ciphertext init_version].
  unfold INIT_MESSAGE_LEN in Hl. split; [rewrite zlen_slice by lia; lia|].
  assert (Hz : zlen (slice 0 2 buf) = 2) by (rewrite zlen_slice by lia; lia).
  pose proof (from_be_range (slice 0 2 buf)) as Hr. rewrite Hz in Hr. exact Hr.
Qed.

Lemma accepted_genuine `{NoisePrimitives, Base64} key secret req m :
  key.(responder) = NoiseResponder_from_bytes secret → accepted key req m → from_holder secret req m.
Proof.
  intros Hk (eph & out & Hh & Hm). unfold handle_ts2021 in Hh.
  destruct (validate_native_upgrade _ _ _ _) as [raw|] eqn:Hu; [|done].
  destruct (parse_init_message raw) as [init|] eqn:Hi; [|done].
  destruct (respond_with_ephemeral _ _ _ _) as [o|] eqn:Hr; [|done]. injection Hh as ->.
  apply native_upgrade_ok in Hu as (_ & _ & _ & (h & Hh & Hd & _)). exists h, raw, init. split_and!; [done..|].
  intros cs ce Hcs Hce. destruct (parsed_init_lengths raw init Hi). rewrite Hk in Hr.
  apply (accepted_init_is_genuine secret eph (ts2021_prologue init.(init_version)) init out); [done..|congruence].
Qed.

Section theorems.
  Context `{Q : Sqlite, !SqliteLaws Q, C : KeyCrypto, T : Rfc3339, W : WireCodec, R : RecordsJson, L : OidcLibrary, J : RequestJson, H : HttpLibrary}.
  Context `{P : NoisePrimitives, B64 : Base64} {N : Type} `{!IpNetwork N}.
  Context (cfg : ControlConfig) (stack : nat) (key : ServerKey) (proxies : option (TrustedProxies (N := N))).

(** Whatever is sent to the server, in whatever order, a node becomes authorized
    for a machine only if a handshake was accepted that nobody but the holder of that
    machine's secret can have written, and inside the connection a registration held a
    credential: a pre-auth key valid at that moment, or an approved registration that
    this machine had started. *)
Theorem admission_end_to_end secret r r' k m :
  key.(responder) = NoiseResponder_from_bytes secret →
  serves cfg stack key proxies r r' → authorized r'.(control).(cp_store) k m →
  authorized r.(control).(cp_store) k m
  ∨ ∃ handshake body amb rq p0 p1,
      accepted key handshake m ∧ from_holder secret handshake m
      ∧ register_from_json body = Some rq ∧ prepared cfg amb p0 p1 ∧ credential amb m rq p1.(cp_store) k.
Proof.
  intros Hk (ops & F & E)%serves_moves Ha.
  destruct (run_credential cfg stack _ ops _ _ k m F E Ha) as [?|(amb & rq & p0 & p1 & Hop & Hp & Hc)]; [by left|].
  right. destruct (Hop amb m rq eq_refl) as [[req Hacc] [b Hb]]. exists req, b, amb, rq, p0, p1.
  split_and!; [done| |done..]. by eapply accepted_genuine.
Qed.

(** C6. The server refines the control plane: what any history of requests does to the
    plane is a run of its operations, every registration among them made by a machine
    whose handshake was accepted, so that a server that starts on a reachable plane
    only ever has reachable planes, and their store is sound. *)
Theorem server_refines_plane r r' :
  serves cfg stack key proxies r r' →
  (∃ ops, Forall (served_op key) ops ∧ plane_run cfg stack ops r.(control) = Some r'.(control))
  ∧ (reachable cfg stack r.(control) → reachable cfg stack r'.(control) ∧ sound_store r'.(control).(cp_store)).
Proof.
  intros Hm%serves_moves. split; [exact Hm|]. intros Hr. eapply by_ops_reachable in Hr; [|done].
  split; [done|]. by eapply reachable_sound.
Qed.

End theorems.

(** The request a client makes of its first message. *)
Definition client_request `{Base64} (init : bytes) : HttpRequest :=
  {| hr_method := str "POST"; hr_path := str "/ts2021"; hr_query := None;
     hr_headers := [(str "upgrade", Some UPGRADE_HEADER_VALUE); (str "connection", Some (str "upgrade"));
                    (HANDSHAKE_HEADER, Some (b64_encode init))];
     hr_body := [] |}.

Section entering.
  Context `{Q : Sqlite, !SqliteLaws Q, C : KeyCrypto, T : Rfc3339, W : WireCodec, R : RecordsJson, L : OidcLibrary, J : RequestJson, H : HttpLibrary}.
  Context `{P : NoisePrimitives, B64 : Base64} {N : Type} `{!IpNetwork N}.
  Context (cfg : ControlConfig) (stack : nat) (key : ServerKey) (proxies : option (TrustedProxies (N := N))).

Lemma initialized_len cs ce public v i init :
  CapVer.MIN_SUPPORTED_CAPVER ≤ v < 2 ^ 16 →
  initialize_with_ephemeral cs ce public (ts2021_prologue v) v = (i, init) → zlen init = INIT_MESSAGE_LEN.
Proof.
  intros Hv Hi. assert (Hv' : 0 ≤ v < 2 ^ 16) by (unfold CapVer.MIN_SUPPORTED_CAPVER in Hv; lia).
  destruct (initialize_parses _ _ _ _ _ _ _ Hv' Hi) as [Hm _]. cbv zeta in Hm. revert Hm. unfold parse_init_message.
  by destruct (Z.eqb_spec (zlen init) INIT_MESSAGE_LEN).
Qed.

(** The checks of the upgrade let a client's request through. *)
Lemma client_upgrade_valid init :
  wf_bytes init → zlen init = INIT_MESSAGE_LEN →
  validate_native_upgrade (str "POST") (header_text (str "upgrade") (client_request init))
    (header_text (str "connection") (client_request init)) (header_text HANDSHAKE_HEADER (client_request init)) = Ok init.
Proof.
  intros Hw Hl. apply native_upgrade_ok. split; [done|]. split; [by exists UPGRADE_HEADER_VALUE|]. split.
  - exists (str "upgrade"), (str "upgrade"). split; [done|]. split; [|by vm_compute].
    apply list_elem_of_In. by left.
  - exists (b64_encode init). rewrite b64_trim by done. by rewrite b64_decode_encode.
Qed.

(** A request for the upgrade that carries a client's first message is answered with the
    upgrade unless its address is limited; the connection has the client's machine key,
    and the client, given the response, comes to the keys of the server's stream. *)
Lemma upgrade_accepted secret cs ce v i init req mo peer ephemeral answers meanwhile r r1 :
  key.(responder) = NoiseResponder_from_bytes secret →
  CapVer.MIN_SUPPORTED_CAPVER ≤ v < 2 ^ 16 →
  initialize_with_ephemeral cs ce (public_key secret) (ts2021_prologue v) v = (i, init) →
  handle_request cfg stack key proxies mo peer ephemeral req answers meanwhile r
    = serve_ts2021 key proxies mo peer ephemeral req r →
  validate_native_upgrade (str "POST") (header_text (str "upgrade") req) (header_text (str "connection") req)
    (header_text HANDSHAKE_HEADER req) = Ok init →
  check_ts2021_rate mo (client_ip proxies peer req) r = (r1, None) →
  ∃ out session,
    handle_request cfg stack key proxies mo peer ephemeral req answers meanwhile r = Some (r1, switching_protocols, Some out)
    ∧ finish i out.(response) = Ok session ∧ zlen out.(response) = RESPONSE_MESSAGE_LEN
    ∧ ∀ inp acc, ts2021_handshake out inp acc
        = (out.(response), NoiseStream_new inp acc session.(initiator_to_responder) session.(responder_to_initiator),
           public_key cs).
Proof.
  intros Hk Hv Hi Hserve Hval Hr.
  destruct (handshake_completes cs ce secret ephemeral (ts2021_prologue v) v i init Hv Hi)
    as (m & out & s & Hm & Ho & Hp & Hf & _ & _ & H1 & H2).
  assert (Hv' : 0 ≤ v < 2 ^ 16) by (unfold CapVer.MIN_SUPPORTED_CAPVER in Hv; lia).
  assert (Hver : m.(init_version) = v).
  { destruct (initialize_parses _ _ _ _ _ _ _ Hv' Hi) as [Hm' _]. cbv zeta in Hm'. rewrite Hm in Hm'. by injection Hm' as ->. }
  exists out, s. split; [|split; [done|split]].
  - assert (Hh : handle_ts2021 key ephemeral req = (switching_protocols, Some out)).
    { unfold handle_ts2021. by rewrite Hval, Hm, Hver, Hk, Ho by done. }
    rewrite Hserve. unfold serve_ts2021. by rewrite Hr, Hh.
  - unfold finish, parse_response_message in Hf. by destruct (Z.eqb_spec (zlen out.(response)) RESPONSE_MESSAGE_LEN).
  - intros inp acc. unfold ts2021_handshake. by rewrite H1, H2, Hp.
Qed.

(** A client that knows the server's key and has a supported version gets in unless its
    address is limited. *)
Theorem client_upgrade_accepted secret cs ce v i init mo peer ephemeral answers meanwhile r r1 :
  key.(responder) = NoiseResponder_from_bytes secret →
  CapVer.MIN_SUPPORTED_CAPVER ≤ v < 2 ^ 16 → wf_bytes init →
  initialize_with_ephemeral cs ce (public_key secret) (ts2021_prologue v) v = (i, init) →
  check_ts2021_rate mo (client_ip proxies peer (client_request init)) r = (r1, None) →
  ∃ out session,
    handle_request cfg stack key proxies mo peer ephemeral (client_request init) answers meanwhile r
      = Some (r1, switching_protocols, Some out)
    ∧ finish i out.(response) = Ok session
    ∧ ∀ inp acc, ts2021_handshake out inp acc
        = (out.(response), NoiseStream_new inp acc session.(initiator_to_responder) session.(responder_to_initiator),
           public_key cs).
Proof.
  intros Hk Hv Hw Hi Hr.
  destruct (upgrade_accepted secret cs ce v i init (client_request init) mo peer ephemeral answers meanwhile r r1)
    as (out & s & ? & ? & _ & ?); [done..| | |done|by exists out, s].
  - reflexivity.
  - apply client_upgrade_valid; [done|]. by eapply initialized_len.
Qed.

(** C10. A callback approves a registration only for a flow that this server began for
    it and that no request has taken since, in time, while the registration is still
    pending; the provider's token is accepted with the nonce of that flow, and the
    registration is approved as the user the token names.  The flow is gone before
    the wait for the provider begins. *)
Theorem oidc_callback_sound mo query answers meanwhile r r' resp :
  handle_oidc_callback cfg stack mo query answers meanwhile r = Some (r', resp) → resp.(status) = 200 →
  ∃ o state flow pending waiting token_answer jwks_answer token profile p p',
    r.(oidc) = Some o ∧ parse_query query !! str "state" = Some state
    ∧ (∀ limit ttl ops, r.(oidc_flows) = flow_run (OidcFlowStore_new limit ttl) ops →
         ∃ before after rs rn auth_id began, ops = before ++ FlowBegin rs rn auth_id began :: after
           ∧ state = generate_secret rs ∧ flow = begun_flow ttl rn auth_id began
           ∧ mo.(mo_ambient).(am_unix) < began + ttl ∧ Forall (λ op, flow_about op ≠ state) after)
    ∧ waiting.(oidc_flows).(fs_entries) !! state = None
    ∧ pending_info mo.(mo_ambient) flow.(of_auth_id) r.(control) = Some (waiting.(control), Ok (Some pending))
    ∧ answers = Some (token_answer, jwks_answer) ∧ exchange_code token_answer = Ok token
    ∧ (validate_id_token o flow mo.(mo_system) jwks_answer token (meanwhile waiting).(jwks_cache)).2 = Ok profile
    ∧ approve_pending cfg stack mo.(mo_ambient) flow.(of_auth_id) profile.(oidc_email) p = Some (p', Ok ())
    ∧ r'.(control) = p'.
Proof.
  unfold handle_oidc_callback. destruct (oidc r) as [o|]; [|by intros [= <- <-]]. cbv zeta.
  destruct (parse_query query !! str "error"); [by intros [= <- <-]|].
  destruct (parse_query query !! str "state") as [state|]; [|by intros [= <- <-]].
  destruct (parse_query query !! str "code"); [|by intros [= <- <-]].
  pose proof (taken_flow_was_begun) as Hbegun.
  destruct (flow_take state _ (oidc_flows r)) as [flows [flow|]] eqn:Ht; [|by intros [= <- <-]].
  assert (Hgone : flows.(fs_entries) !! state = None).
  { revert Ht. unfold flow_take. destruct (_ !! state); [|done]. intros [= <- _]. apply lookup_delete_eq. }
  destruct (on_plane _ _) as [[r1 [[pending|]|e]]|] eqn:E; [|by intros [= <- <-]..|done].
  apply on_plane_control in E as (q & E & ->). cbn [set_flows control] in E. set (waiting := set_control q _).
  unfold exchange_and_approve. cbv zeta. destruct answers as [[ta ja]|]; [|by intros [= <- <-]].
  destruct (complete _ _ _ _ _ _) as [cache [profile|err]] eqn:Ec; [|by intros [= <- <-]].
  unfold approve_profile. destruct (on_plane (upsert_oidc_user _ _) _) as [[r2 [u|e2]]|]; [|by intros [= <- <-]|done].
  destruct (on_plane _ r2) as [[r3 [[]|e3]]|] eqn:E3; [|by intros [= <- <-]|done].
  apply on_plane_control in E3 as (p' & E3 & ->). intros [= <- _] _.
  unfold complete in Ec. destruct (exchange_code ta) as [token|] eqn:Etok; [|done].
  exists o, state, flow, pending, waiting, ta, ja, token, profile, r2.(control), p'. split_and!; try done.
  - intros limit ttl ops Hops. apply (Hbegun limit ttl ops state _ flow). by rewrite <- Hops, Ht.
  - by rewrite Ec.
Qed.

End entering.

(** ** A server *)

(** Bytes far from any white space, as a stand-in for Base64. *)
#[program] Definition demo_base64 : Base64 := {|
  b64_decode t := Some (map (λ c, c - 100000) t);
  b64_encode b := map (λ c, c + 100000) b |}.
Next Obligation.
  intros b _. cbv beta. f_equal. rewrite map_map. rewrite <- (map_id b) at 2. apply map_ext. intros c. lia.
Qed.
Next Obligation.
  assert (Hs : ∀ b, wf_bytes b → trim_start (map (λ c, c + 100000) b) = map (λ c, c + 100000) b).
  { intros b Hb. destruct Hb as [|c b Hc _]; [done|]. cbn [map trim_start].
    replace (is_whitespace (c + 100000)) with false; [done|]. symmetry. unfold is_whitespace.
    repeat (apply orb_false_iff; split); try (apply andb_false_iff; right); lia. }
  intros b Hb. cbv beta. unfold trim. rewrite Hs by done. rewrite <- map_rev, Hs; [by rewrite map_rev, rev_involutive|].
  unfold wf_bytes in *. rewrite list.Forall_forall in *. intros x Hx. apply Hb.
  apply list_elem_of_In, in_rev, list_elem_of_In. exact Hx.
Qed.

#[local] Existing Instances demo_base64 demo_primitives single_network.

#[local] Instance demo_request_json : RequestJson := {|
  register_from_json _ := Some (demo_request [1] (Some once_key));
  map_from_json _ := None; logout_from_json _ := None; verify_from_json _ := None |}.

#[local] Instance demo_http : HttpLibrary := {| header_value _ := true; pkg_version := str "0" |}.

Definition demo_server_key : ServerKey :=
  {| responder := NoiseResponder_from_bytes [9]; public := demo_pad 32 [9] |}.

Definition demo_server_router : ControlRouter := with_oidc demo_oidc (ControlRouter_with_control (demo_pad 32 [9]) demo_p).

Definition demo_moment (now : Z) : Moment :=
  {| mo_ambient := demo_ambient now 2; mo_instant := now; mo_walk := []; mo_state := replicate 32 5;
     mo_nonce := replicate 32 6; mo_system := now |}.

(** The client of secret 5 that connects, and its registration. *)
Definition demo_client_init : NoiseInitiator * bytes :=
  initialize_with_ephemeral [5] [7] (public_key [9]) (ts2021_prologue 113) 113.

Definition demo_inner : HttpRequest :=
  {| hr_method := str "POST"; hr_path := str "/machine/register"; hr_query := None; hr_headers := []; hr_body := [] |}.

Definition demo_registered : option (ControlRouter * InnerAnswer) :=
  handle_inner demo_config 10 (demo_moment 110) (public_key [5]) demo_inner [] demo_server_router.

Definition demo_server_router' : ControlRouter := from_option fst demo_server_router demo_registered.

Lemma demo_accepted : accepted demo_server_key (client_request demo_client_init.2) (public_key [5]).
Proof.
  exists [3]. destruct (handle_ts2021 demo_server_key [3] (client_request demo_client_init.2)) as [resp o] eqn:E.
  assert (Hc : match o with Some out => bool_decide (peer_static_public out = public_key [5]) | None => false end = true).
  { assert (E' := f_equal snd E). cbn [snd] in E'. rewrite <- E'. by vm_compute. }
  assert (Hr : resp = switching_protocols).
  { assert (E' := f_equal fst E). cbn [fst] in E'. rewrite <- E'. by vm_compute. }
  destruct o as [out|]; [|done]. exists out. rewrite Hr. split; [done|]. by apply bool_decide_eq_true in Hc.
Qed.

Lemma demo_serves : serves demo_config 10 demo_server_key None demo_server_router demo_server_router'.
Proof.
  destruct demo_registered as [[r' a]|] eqn:E.
  - eapply (serves_inner _ _ _ _ (client_request demo_client_init.2) (public_key [5]) (demo_moment 110) demo_inner []).
    + exact demo_accepted.
    + intros now f q []%not_elem_of_nil.
    + unfold demo_server_router'. fold demo_registered. rewrite E. reflexivity.
  - unfold demo_server_router'. rewrite E. apply serves_refl.
Qed.

Lemma admission_end_to_end_witness :
  authorized demo_server_router'.(control).(cp_store) [1] (public_key [5])
  ∧ (authorized demo_server_router.(control).(cp_store) [1] (public_key [5])
     ∨ ∃ handshake body amb rq p0 p1,
         accepted demo_server_key handshake (public_key [5]) ∧ from_holder [9] handshake (public_key [5])
         ∧ register_from_json body = Some rq ∧ prepared demo_config amb p0 p1
         ∧ credential amb (public_key [5]) rq p1.(cp_store) [1]).
Proof.
  assert (Ha : authorized demo_server_router'.(control).(cp_store) [1] (public_key [5])) by (apply authorized_facts; by vm_compute).
  split; [done|].
  exact (admission_end_to_end demo_config 10 demo_server_key None [9] demo_server_router demo_server_router' [1] (public_key [5])
           eq_refl demo_serves Ha).
Defined.

Lemma server_refines_plane_witness :
  (∃ ops, Forall (served_op demo_server_key) ops
     ∧ plane_run demo_config 10 ops demo_server_router.(control) = Some demo_server_router'.(control))
  ∧ (reachable demo_config 10 demo_server_router.(control)
     → reachable demo_config 10 demo_server_router'.(control) ∧ sound_store demo_server_router'.(control).(cp_store)).
Proof. exact (server_refines_plane demo_config 10 demo_server_key None demo_server_router demo_server_router' demo_serves). Defined.

Lemma client_upgrade_accepted_witness :
  ∃ out session,
    handle_request demo_config 10 demo_server_key None (demo_moment 110) (V4 1) [3] (client_request demo_client_init.2)
      None (λ r, r) demo_server_router
      = Some ((check_ts2021_rate (demo_moment 110) (V4 1) demo_server_router).1, switching_protocols, Some out)
    ∧ finish demo_client_init.1 out.(response) = Ok session
    ∧ ∀ inp acc, ts2021_handshake out inp acc
        = (out.(response), NoiseStream_new inp acc session.(initiator_to_responder) session.(responder_to_initiator),
           public_key [5]).
Proof.
  apply (client_upgrade_accepted demo_config 10 demo_server_key None [9] [5] [7] 113 demo_client_init.1 demo_client_init.2
           (demo_moment 110) (V4 1) [3] None (λ r, r) demo_server_router
           (check_ts2021_rate (demo_moment 110) (V4 1) demo_server_router).1).
  - reflexivity.
  - by vm_compute.
  - apply (bool_decide_eq_true_1 (wf_bytes demo_client_init.2)). by vm_compute.
  - by vm_compute.
  - assert (Hn : (check_ts2021_rate (demo_moment 110) (V4 1) demo_server_router).2 = None) by by vm_compute.
    rewrite <- Hn. exact (surjective_pairing (check_ts2021_rate (demo_moment 110) (V4 1) demo_server_router)).
Defined.

(** A registration that waits, its page, and the provider's callback. *)
Definition demo_pending_plane : ControlPlane :=
  from_option fst demo_start (register demo_config 10 (demo_ambient 100 3) [9] (demo_request [5] None) demo_start).

Definition demo_pending_router : ControlRouter :=
  from_option fst demo_server_router
    (handle_register_page (demo_moment 110) (generate_secret (replicate 32 3))
       (with_oidc demo_oidc (ControlRouter_with_control (demo_pad 32 [9]) demo_pending_plane))).

Definition demo_callback : option (ControlRouter * HttpResponse) :=
  handle_oidc_callback demo_config 10 (demo_moment 120)
    (str "state=" ++ generate_secret (replicate 32 5) ++ str "&code=x")
    (Some (HttpBody (generate_secret (replicate 32 6)), HttpBody (str "published"))) (λ r, r) demo_pending_router.

Lemma oidc_callback_sound_witness :
  ∃ r' resp, demo_callback = Some (r', resp) ∧ resp.(status) = 200
  ∧ ∃ flow profile p p',
      approve_pending demo_config 10 (demo_ambient 120 2) flow.(of_auth_id) profile.(oidc_email) p = Some (p', Ok ())
      ∧ r'.(control) = p'.
Proof.
  destruct demo_callback as [[r' resp]|] eqn:E.
  2: { exfalso. assert (H : match demo_callback with Some _ => true | None => false end = true) by by vm_compute.
       by rewrite E in H. }
  assert (Hs : resp.(status) = 200).
  { assert (H : match demo_callback with Some (_, x) => status x =? 200 | None => false end = true) by by vm_compute.
    rewrite E in H. by apply Z.eqb_eq. }
  exists r', resp. split; [done|]. split; [done|].
  destruct (oidc_callback_sound demo_config 10 (demo_moment 120) (str "state=" ++ generate_secret (replicate 32 5) ++ str "&code=x")
    (Some (HttpBody (generate_secret (replicate 32 6)), HttpBody (str "published"))) (λ r, r) demo_pending_router r' resp E Hs)
    as (o & state & flow & pending & w & ta & ja & token & profile & p & p' & _ & _ & _ & _ & _ & _ & _ & _ & H1 & H2).
  exists flow, profile, p, p'. exact (conj H1 H2).
Defined.
