(* ===== verification/Peer.v ===== *)
(** * The peer of the harness ([crabscale-harness/src/client.rs])

    A client of the control server: it fetches the server's key, opens a TS2021
    connection over a socket, reads the early payload, registers, asks for one map and
    logs out.  A socket is the script of its polls; the h2 library is what it answers
    to a request, with a state of its own; notes and errors are told apart by their
    constructor, not by their text. *)

From S2P Require Import Prelude ProtoKey ProtoFrame Text Net IpText StreamDecoder TransportRecord TransportStream Upgrade TransportAwait Noise Pending Sessions Events PolicyModel PolicyTags Hujson Validate NetMap PreAuth Store Dns SshPolicy Delta Control Registration MapRequest Demo Url SshCheck Proxy RateLimit Http Oidc Router Server.

(** ** Reading *)

(** [AsyncRead], as a task that awaits it polls it: a poll with room for so many bytes,
    and what bounds the number of polls. *)
Class AsyncRead (St : Type) : Type := {
  poll_once : Z → St → St * poll (result bytes stream_error);
  turns : St → nat }.

(** A [TcpStream]. *)
#[global] Instance socket_read : AsyncRead (list read_answer) := {|
  poll_once n inp :=
    let '(inp', ans) := inner_poll_read n inp in
    (inp', match ans with
           | Pending => Pending
           | Ready None => Ready (Err InnerError)
           | Ready (Some b) => Ready (Ok b)
           end);
  turns := script_weight |}.

(** A [NoiseStream]: its polls, not the [read_exact] of its own. *)
#[global] Instance noise_read `{Aead} : AsyncRead NoiseStream := {| poll_once := poll_read; turns s := script_weight s.(inner_in) |}.

Inductive PeerError : Type :=
| ConnectFailed
| WriteFailed
| ReadHeadFailed
| ClosedReadingHead                    (** "connection closed while reading head" *)
| InvalidContentLength
| ReadBodyFailed
| KeyRefused (head : text)             (** "GET /key returned non-200" *)
| InvalidKeyJson
| MissingPublicKey
| InvalidMachineKey (e : KeyParseError)
| UpgradeRejected (head : text)
| ReadResponseFailed
| NoiseFailed (e : TransportError)
| ReadMagicFailed
| MagicMismatch
| ReadLengthFailed
| ReadPayloadFailed
| DecodeFailed (e : TransportError)
| Http2Failed
| RequestFailed                        (** building or sending it, or awaiting the response *)
| SerializeFailed
| Returned (path : text) (status : Z)
| InvalidJson
| NotAuthorized (error : text)
| MapFrameFailed (e : MapFrame.MapFrameError)
| TrailingBytes
| InvalidMapJson.

Section reading.
  Context {St : Type} `{AsyncRead St}.

(** [AsyncReadExt::read_exact], as tokio documents it: it reads until the buffer is
    full, and an end of the stream before that is an error. *)
Fixpoint fill_loop (fuel : nat) (want : Z) (s : St) : St * poll (result bytes stream_error) :=
  match fuel with
  | O => (s, Pending)
  | S fuel =>
      if want <=? 0 then (s, Ready (Ok []))
      else
        match poll_once want s with
        | (s', Pending) => fill_loop fuel want s'
        | (s', Ready (Err e)) => (s', Ready (Err e))
        | (s', Ready (Ok [])) => (s', Ready (Err UnexpectedEof))
        | (s', Ready (Ok b)) =>
            let '(s'', r) := fill_loop fuel (want - zlen b) s' in
            (s'', match r with Ready (Ok more) => Ready (Ok (b ++ more)) | other => other end)
        end
  end.

Definition read_full (want : Z) (e : PeerError) (s : St) : St * poll (result bytes PeerError) :=
  let '(s', r) := fill_loop (S (Z.to_nat want + turns s)) want s in
  (s', match r with Ready (Ok b) => Ready (Ok b) | Ready (Err _) => Ready (Err e) | Pending => Pending end).

Definition head_end : bytes := [13; 10; 13; 10].

(** [buf.ends_with(p)] *)
Definition ends_with (p buf : bytes) : bool := starts_with (rev p) (rev buf).

(** [read_http_head]: one byte at a time. *)
Fixpoint head_loop (fuel : nat) (buf : bytes) (s : St) : St * poll (result text PeerError) :=
  match fuel with
  | O => (s, Pending)
  | S fuel =>
      match poll_once 1 s with
      | (s', Pending) => head_loop fuel buf s'
      | (s', Ready (Err _)) => (s', Ready (Err ReadHeadFailed))
      | (s', Ready (Ok [])) => (s', Ready (Err ClosedReadingHead))
      | (s', Ready (Ok (b :: _))) =>
          let buf := buf ++ [b] in
          if ends_with head_end buf then (s', Ready (Ok (from_utf8_lossy buf))) else head_loop fuel buf s'
      end
  end.

Definition read_http_head (s : St) : St * poll (result text PeerError) := head_loop (S (turns s)) [] s.

End reading.

(** A step that may wait or fail, and what follows it. *)
Definition and_then {St A B} (m : St * poll (result A PeerError)) (k : A → St → St * poll (result B PeerError))
    : St * poll (result B PeerError) :=
  match m with
  | (s, Ready (Ok a)) => k a s
  | (s, Ready (Err e)) => (s, Ready (Err e))
  | (s, Pending) => (s, Pending)
  end.

(** ** HTTP/1.1 *)

Definition crlf : text := [13; 10].

Definition CONTENT_LENGTH : text := str "content-length:".

(** The length a head announces; [None] is a header that is no number. *)
Fixpoint content_length (ls : list text) : option Z :=
  match ls with
  | [] => Some 0
  | l :: ls =>
      match strip_prefix CONTENT_LENGTH (map to_ascii_lowercase l) with
      | Some v => parse_uint (2 ^ 64 - 1) (trim v)
      | None => content_length ls
      end
  end.

Definition read_http_response {St} `{AsyncRead St} (s : St) : St * poll (result (text * bytes) PeerError) :=
  and_then (read_http_head s) (λ head s,
    match content_length (lines head) with
    | None => (s, Ready (Err InvalidContentLength))
    | Some n =>
        and_then (if 0 <? n then read_full n ReadBodyFailed s else (s, Ready (Ok []))) (λ body s,
          (s, Ready (Ok (head, body))))
    end).

(** ** The socket *)

Record Socket : Type := { sk_in : list read_answer; sk_accepts : list write_answer; sk_out : bytes }.

Definition with_in (sk : Socket) (inp : list read_answer) : Socket :=
  {| sk_in := inp; sk_accepts := sk.(sk_accepts); sk_out := sk.(sk_out) |}.

(** [stream.write_all(request)] and the flush of a socket, which has nothing to do. *)
Definition socket_write (data : bytes) (sk : Socket) : Socket * poll (result unit PeerError) :=
  let '(acc, out, r) := await_write_all sk.(sk_accepts) sk.(sk_out) data in
  ({| sk_in := sk.(sk_in); sk_accepts := acc; sk_out := out |},
   match r with Ready (Ok _) => Ready (Ok tt) | Ready (Err _) => Ready (Err WriteFailed) | Pending => Pending end).

Definition socket_reads {A} (read : list read_answer → list read_answer * poll (result A PeerError)) (sk : Socket)
    : Socket * poll (result A PeerError) :=
  let '(inp, r) := read sk.(sk_in) in (with_in sk inp, r).

(** ** The key of the server *)

(** [serde_json::from_slice] at a [Value], [Value::get] and the accessors. *)
Class PeerJson : Type := {
  value_of : bytes → option Json;
  register_to_json : RegisterRequest → option bytes;
  map_request_to_json : MapRequest → option bytes;
  logout_to_json : bytes → option bytes;
  register_response_of : bytes → option RegisterResponse }.

Definition json_get (name : text) (v : Json) : option Json :=
  match v with JObject fields => snd <$> find (λ f, bool_decide (f.1 = name)) fields | _ => None end.
Definition json_str (v : Json) : option text := match v with JString t => Some t | _ => None end.
Definition json_bool (v : Json) : option bool := match v with JBool b => Some b | _ => None end.
Definition json_array (v : Json) : option (list Json) := match v with JArray l => Some l | _ => None end.
Definition json_object (v : Json) : option (list (text * Json)) := match v with JObject f => Some f | _ => None end.

Definition key_request (addr : text) (capability_version : Z) : text :=
  str "GET /key?v=" ++ show_uint capability_version ++ str " HTTP/1.1" ++ crlf
  ++ str "Host: " ++ addr ++ crlf ++ str "Connection: close" ++ crlf ++ crlf.

Definition fetch_server_key `{PeerJson} (addr : text) (capability_version : Z) (connection : option Socket)
    : poll (result bytes PeerError) :=
  match connection with
  | None => Ready (Err ConnectFailed)
  | Some sk =>
      (and_then (socket_write (utf8_encode (key_request addr capability_version)) sk) (λ _ sk,
       and_then (socket_reads read_http_response sk) (λ '(head, body) sk,
         (sk, Ready (
           if negb (starts_with (str "HTTP/1.1 200") head) then Err (KeyRefused head)
           else
             match value_of body with
             | None => Err InvalidKeyJson
             | Some json =>
                 match json_get (str "publicKey") json ≫= json_str with
                 | None => Err MissingPublicKey
                 | Some key_str => map_err InvalidMachineKey (from_str MachineKey (utf8_encode key_str))
                 end
             end))))).2
  end.

(** ** The connection *)

Section peer.
  Context `{P : NoisePrimitives, B : Base64, E : EarlyJson}.

Definition ts2021_request (addr : text) (init : bytes) : text :=
  str "POST /ts2021 HTTP/1.1" ++ crlf ++ str "Host: " ++ addr ++ crlf
  ++ str "Upgrade: tailscale-control-protocol" ++ crlf ++ str "Connection: upgrade" ++ crlf
  ++ str "X-Tailscale-Handshake: " ++ b64_encode init ++ crlf ++ str "Content-Length: 0" ++ crlf ++ crlf.

(** [open_ts2021]; [ephemeral] is the secret [NoiseInitiator::initialize] draws. *)
Definition open_ts2021 (addr : text) (client_static ephemeral server_public : bytes) (capability_version : Z)
    (connection : option Socket) : poll (result NoiseStream PeerError) :=
  match connection with
  | None => Ready (Err ConnectFailed)
  | Some sk =>
      let prologue := str "Tailscale Control Protocol v" ++ show_uint capability_version in
      let '(initiator, init) := initialize_with_ephemeral client_static ephemeral server_public prologue capability_version in
      (and_then (socket_write (utf8_encode (ts2021_request addr init)) sk) (λ _ sk,
       and_then (socket_reads read_http_head sk) (λ head sk,
         if negb (starts_with (str "HTTP/1.1 101") head) then (sk, Ready (Err (UpgradeRejected head)))
         else
           and_then (socket_reads (read_full RESPONSE_MESSAGE_LEN ReadResponseFailed) sk) (λ response sk,
             (sk, Ready (
               match finish initiator response with
               | Err e => Err (NoiseFailed e)
               | Ok session =>
                   Ok {| inner_in := sk.(sk_in); inner_accepts := sk.(sk_accepts); inner_out := sk.(sk_out);
                         TransportStream.reader := (RecordCipher_new session.(responder_to_initiator), []);
                         writer := RecordCipher_new session.(initiator_to_responder);
                         read_buf := []; read_pos := 0; write_buf := []; write_pos := 0; write_acked := 0 |}
               end)))))).2
  end.

(** [read_early_payload], generic in the stream it reads. *)
Definition read_early_payload {St} `{AsyncRead St} (s : St) : St * poll (result text PeerError) :=
  and_then (read_full 5 ReadMagicFailed s) (λ magic s,
  if negb (bool_decide (magic = EARLY_PAYLOAD_MAGIC)) then (s, Ready (Err MagicMismatch))
  else
    and_then (read_full 4 ReadLengthFailed s) (λ len_buf s,
    and_then (read_full (from_be len_buf) ReadPayloadFailed s) (λ body s,
      (s, Ready (
        match decode_early_payload (magic ++ len_buf ++ body) with
        | Err e => Err (DecodeFailed e)
        | Ok challenge => Ok (to_key_string ChallengeKey challenge)
        end))))).

(** ** The run *)

(** What the h2 library gives for a request: a failure, or a status and the pieces of
    the body, one of which may fail. *)
Inductive post_answer : Type := PostFails | PostAnswers (status : Z) (chunks : list (option bytes)).

Inductive Note : Type :=
| FetchedKey (key : bytes)
| CompletedHandshake
| ReceivedChallenge (challenge : text)
| RegistrationAuthorized
| ReceivedMap (ips : Z)
| ReceivedSuffix (suffix : text)
| LogoutReturned
| LogoutDidNot.

Record PeerReport : Type := {
  pr_registered : bool; assigned_ips : list text; saw_peers : bool; magic_dns_suffix : text;
  dns_proxied : bool; split_dns_suffixes : list text; search_domains : list text; logged_out : bool;
  notes : list Note }.

Record HarnessConfig : Type := {
  hc_addr : text; hc_auth_key : text; rust_peer_hostname : text; capability_version : Z }.

(** [Hostinfo::default()] with the host name of the peer. *)
Definition peer_hostinfo (hostname : text) : Hostinfo :=
  {| hi_ipn_version := []; hi_frontend_log_id := []; hi_backend_log_id := []; hi_os := [];
     hi_os_version := []; hi_container := None; hi_env := []; hi_distro := []; hi_distro_version := [];
     hi_distro_code_name := []; hi_app := []; hi_desktop := None; hi_package := []; hi_device_model := [];
     hi_push_device_token := []; hi_hostname := hostname; hi_shields_up := false; hi_sharee_node := false;
     hi_no_logs_no_support := false; hi_wire_ingress := false; hi_ingress_enabled := false;
     hi_allows_update := false; hi_machine := []; hi_go_arch := []; hi_go_arch_var := []; hi_go_version := [];
     hi_routable_ips := None; hi_request_tags := None; hi_wol_macs := None; hi_net_info := None;
     hi_ssh_host_keys := None; hi_cloud := []; hi_userspace := None; hi_userspace_router := None;
     hi_app_connector := None; hi_services_hash := []; hi_exit_node_id := []; hi_state_encrypted := None |}.

Definition peer_register (cfg : HarnessConfig) (node_key : bytes) : RegisterRequest :=
  {| rq_version := cfg.(capability_version); rq_node_key := node_key; rq_old_node_key := []; rq_nl_key := [];
     rq_auth := Some cfg.(hc_auth_key); rq_expiry := []; rq_followup := [];
     rq_hostinfo := Some (peer_hostinfo cfg.(rust_peer_hostname)); rq_ephemeral := false |}.

Definition peer_map (cfg : HarnessConfig) (node_key : bytes) : MapRequest :=
  {| mr_version := cfg.(capability_version); mr_compress := []; mr_keep_alive := false; mr_node_key := node_key;
     mr_disco_key := replicate 32 0x33; mr_stream := false; mr_hostinfo := None; mr_endpoints := [];
     mr_endpoint_types := []; mr_omit_peers := false; mr_read_only := false; mr_tka_head := [];
     mr_map_session_handle := []; mr_map_session_seq := 0 |}.

(** What the report takes from the JSON of a map. *)
Definition strings_of (l : list Json) : list text := omap json_str l.

Definition map_report (v : Json) (r : PeerReport) : PeerReport :=
  let ips := match (json_get (str "Node") v ≫= json_get (str "Addresses")) ≫= json_array with
             | Some addrs => strings_of addrs | None => [] end in
  let r := {| pr_registered := r.(pr_registered); assigned_ips := r.(assigned_ips) ++ ips;
              saw_peers := bool_decide (is_Some (json_get (str "Peers") v)); magic_dns_suffix := r.(magic_dns_suffix);
              dns_proxied := r.(dns_proxied); split_dns_suffixes := r.(split_dns_suffixes);
              search_domains := r.(search_domains); logged_out := r.(logged_out);
              notes := r.(notes) ++ [ReceivedMap (zlen (r.(assigned_ips) ++ ips))] |} in
  match json_get (str "DNS") v with
  | None => r
  | Some dns =>
      let suffix := default [] (json_get (str "MagicDNSSuffix") dns ≫= json_str) in
      {| pr_registered := r.(pr_registered); assigned_ips := r.(assigned_ips); saw_peers := r.(saw_peers);
         magic_dns_suffix := suffix;
         dns_proxied := default false (json_get (str "Proxied") dns ≫= json_bool);
         search_domains := r.(search_domains)
           ++ match json_get (str "SearchDomains") dns ≫= json_array with Some l => strings_of l | None => [] end;
         split_dns_suffixes := r.(split_dns_suffixes)
           ++ match json_get (str "Routes") dns ≫= json_object with Some f => map fst f | None => [] end;
         logged_out := r.(logged_out); notes := r.(notes) ++ [ReceivedSuffix suffix] |}
  end.

Section run.
  Context `{J : PeerJson} {W : Type} (h2 : text → bytes → W → W * post_answer).

(** [while let Some(chunk) = body.data().await] *)
Fixpoint collect_body (chunks : list (option bytes)) : result bytes PeerError :=
  match chunks with
  | [] => Ok []
  | None :: _ => Err ReadBodyFailed
  | Some c :: chunks => let? rest := collect_body chunks in Ok (c ++ rest)
  end.

Definition post_json_raw (path : text) (body : option bytes) (w : W) : W * result bytes PeerError :=
  match body with
  | None => (w, Err SerializeFailed)
  | Some b =>
      let '(w, a) := h2 path b w in
      (w, match a with
          | PostFails => Err RequestFailed
          | PostAnswers status chunks =>
              fail_if negb (status =? 200) with Returned path status ;; collect_body chunks
          end)
  end.

Definition post_json {R} (of_json : bytes → option R) (path : text) (body : option bytes) (w : W)
    : W * result R PeerError :=
  let '(w, r) := post_json_raw path body w in
  (w, let? raw := r in ok_or (of_json raw) InvalidJson).

Definition then_run {A B} (m : W * result A PeerError) (k : A → W → W * result B PeerError) : W * result B PeerError :=
  match m with (w, Ok a) => k a w | (w, Err e) => (w, Err e) end.

(** Steps 5 to 7 of [run_rust_peer], with the notes of the first four. *)
Definition peer_session (cfg : HarnessConfig) (node_key : bytes) (before : list Note) (w : W) : W * result PeerReport PeerError :=
  then_run (post_json register_response_of (str "/machine/register") (register_to_json (peer_register cfg node_key)) w)
    (λ reg w,
  if negb reg.(rs_machine_authorized) then (w, Err (NotAuthorized reg.(rs_error)))
  else
    then_run (post_json_raw (str "/machine/map") (map_request_to_json (peer_map cfg node_key)) w) (λ map_body w,
    match MapFrame.decode_map_response_frame map_body with
    | Err e => (w, Err (MapFrameFailed e))
    | Ok (payload, consumed) =>
        if negb (consumed =? zlen map_body) then (w, Err TrailingBytes)
        else
          match value_of payload with
          | None => (w, Err InvalidMapJson)
          | Some map_json =>
              let r := map_report map_json
                         {| pr_registered := true; assigned_ips := []; saw_peers := false; magic_dns_suffix := [];
                            dns_proxied := false; split_dns_suffixes := []; search_domains := []; logged_out := false;
                            notes := before ++ [RegistrationAuthorized] |} in
              then_run (post_json register_response_of (str "/machine/logout") (logout_to_json node_key) w) (λ resp w,
                let out := negb resp.(rs_machine_authorized) in
                (w, Ok {| pr_registered := r.(pr_registered); assigned_ips := r.(assigned_ips);
                          saw_peers := r.(saw_peers); magic_dns_suffix := r.(magic_dns_suffix);
                          dns_proxied := r.(dns_proxied); split_dns_suffixes := r.(split_dns_suffixes);
                          search_domains := r.(search_domains); logged_out := out;
                          notes := r.(notes) ++ [if out then LogoutReturned else LogoutDidNot] |}))
          end
    end)).

(** [run_rust_peer]: the two connections, the secrets drawn, whether the h2 handshake
    succeeds, and the requests over it. *)
Definition run_rust_peer (cfg : HarnessConfig) (first second : option Socket) (client_static ephemeral : bytes)
    (handshakes : bool) (w : W) : W * poll (result PeerReport PeerError) :=
  let waits {A} (m : poll (result A PeerError)) (k : A → W * poll (result PeerReport PeerError)) :=
    match m with
    | Ready (Ok a) => k a
    | Ready (Err e) => (w, Ready (Err e))
    | Pending => (w, Pending)
    end in
  waits (fetch_server_key cfg.(hc_addr) cfg.(capability_version) first) (λ server_public,
  waits (open_ts2021 cfg.(hc_addr) client_static ephemeral server_public cfg.(capability_version) second) (λ noise,
  waits (read_early_payload noise).2 (λ challenge,
  if negb handshakes then (w, Ready (Err Http2Failed))
  else
    let '(w, r) := peer_session cfg (public_key client_static)
                     [FetchedKey server_public; CompletedHandshake; ReceivedChallenge challenge] w in
    (w, Ready r)))).

End run.

End peer.

(** ** Lemmas: sockets *)

(** A read that fills its buffer from a socket takes the next bytes, however they come. *)
Lemma read_full_socket want e inp h rest :
  script_bytes inp = h ++ rest → zlen h = want →
  ∃ inp', read_full want e inp = (inp', Ready (Ok h)) ∧ script_bytes inp' = rest.
Proof.
  intros Hs Hw. unfold read_full. cbn [turns socket_read].
  assert (Hf : (Z.to_nat want + script_weight inp < S (Z.to_nat want + script_weight inp))%nat) by lia.
  assert (Hgen : ∃ inp', fill_loop (S (Z.to_nat want + script_weight inp)) want inp = (inp', Ready (Ok h)) ∧ script_bytes inp' = rest);
    [|destruct Hgen as (inp' & -> & ?); by exists inp'].
  revert Hf. generalize (S (Z.to_nat want + script_weight inp)) as fuel. intros fuel. revert want inp h Hs Hw.
  induction fuel as [|fuel IH]; intros want inp h Hs Hw Hf; [lia|]. cbn [fill_loop].
  destruct (Z.leb_spec want 0) as [Hz|Hz].
  { assert (h = []) as -> by (destruct h; [done|]; rewrite zlen_cons in Hw; pose proof (zlen_nonneg h); lia). by exists inp. }
  cbn [poll_once socket_read]. destruct (inner_poll_read want inp) as [inp' ans] eqn:E.
  apply inner_poll_read_spec in E; [|done].
  assert (Hne : script_bytes inp ≠ []).
  { rewrite Hs. destruct h; [unfold zlen in Hw; cbn in Hw; lia|done]. }
  destruct ans as [[[|x b]|]|]; [done| |done|].
  - destruct E as (Hs' & Hwt & Hle). rewrite Hs in Hs'. set (c := x :: b) in *.
    assert (0 < zlen c) by (unfold c; rewrite zlen_cons; pose proof (zlen_nonneg b); lia).
    assert (Hh : h = c ++ zdrop (zlen c) h).
    { rewrite <- (ztake_zdrop (zlen c) h) at 1. f_equal. apply (f_equal (ztake (zlen c))) in Hs'.
      rewrite (ztake_app (zlen c) c) in Hs' by done. etrans; [|exact Hs']. unfold ztake, zlen in *. by rewrite take_app_le by lia. }
    assert (Hrest : script_bytes inp' = zdrop (zlen c) h ++ rest).
    { rewrite Hh, <- app_assoc in Hs'. by apply app_inv_head in Hs'. }
    destruct (IH (want - zlen c) inp' (zdrop (zlen c) h) Hrest) as (inp'' & -> & ?); [rewrite zlen_drop; lia|lia|].
    exists inp''. by rewrite <- Hh.
  - destruct E as [Hs' [->|Hwt]]; [done|]. apply IH; [by rewrite Hs'|done|lia].
Qed.

(** A head is read to the blank line that ends it, and no further. *)
Lemma head_loop_socket fuel buf inp h rest :
  script_bytes inp = h ++ rest → h ≠ [] → ends_with head_end (buf ++ h) = true →
  (∀ p q, h = p ++ q → p ≠ [] → q ≠ [] → ends_with head_end (buf ++ p) = false) →
  (script_weight inp < fuel)%nat →
  ∃ inp', head_loop fuel buf inp = (inp', Ready (Ok (from_utf8_lossy (buf ++ h)))) ∧ script_bytes inp' = rest.
Proof.
  revert buf inp h. induction fuel as [|fuel IH]; intros buf inp h Hs Hne Hend Hno Hf; [lia|]. cbn [head_loop poll_once socket_read].
  destruct (inner_poll_read 1 inp) as [inp' ans] eqn:E. apply inner_poll_read_spec in E; [|done].
  assert (Hsn : script_bytes inp ≠ []) by (rewrite Hs; by destruct h).
  destruct ans as [[[|x b]|]|]; [done| |done|].
  - destruct E as (Hs' & Hwt & Hle). rewrite zlen_cons in Hle. pose proof (zlen_nonneg b).
    destruct b as [|]; [|rewrite zlen_cons in Hle; pose proof (zlen_nonneg b); lia].
    rewrite Hs in Hs'. destruct h as [|y h]; [done|]. injection Hs' as -> Hrest.
    destruct h as [|z h].
    + rewrite Hend. by exists inp'.
    + rewrite (Hno [x] (z :: h)) by done.
      destruct (IH (buf ++ [x]) inp' (z :: h)) as (inp'' & -> & Hr); [done|done|by rewrite <- app_assoc| |lia|].
      * intros p q Hpq Hp Hq. rewrite <- app_assoc. apply (Hno (x :: p) q); [by rewrite Hpq|done..].
      * exists inp''. by rewrite <- app_assoc.
  - destruct E as [Hs' [->|Hwt]]; [done|]. apply IH; [by rewrite Hs'|done..|lia].
Qed.

(** *** Heads *)

(** A head as HTTP/1.1 has it: a status line and the fields, each ended by a line end,
    and a blank line. *)
Definition http1_head (ls : list text) : bytes := concat (map (λ l, l ++ crlf) ls) ++ crlf.

Definition line_ok (l : text) : Prop := l ≠ [] ∧ 13 ∉ l ∧ 10 ∉ l.

Lemma ends_with_iff p buf : ends_with p buf = true ↔ ∃ q, buf = q ++ p.
Proof.
  unfold ends_with, starts_with. split.
  - destruct (strip_prefix _ _) as [r|] eqn:E; [|done]. intros _. apply strip_prefix_Some in E. exists (rev r).
    rewrite <- (rev_involutive buf), E, rev_app_distr, rev_involutive. done.
  - intros [q ->]. by rewrite rev_app_distr, strip_prefix_app.
Qed.

(** The blank line is the first. *)
Lemma http1_head_first ls q r :
  Forall line_ok ls → http1_head ls = q ++ head_end ++ r → r = [].
Proof.
  intros Hl. revert q. unfold http1_head. induction Hl as [|l ls (Hne & H13 & H10) Hls IH]; intros q H.
  { cbn in H. apply (f_equal length) in H. rewrite !length_app in H. cbn in H. lia. }
  cbn [map concat] in H. rewrite <- !app_assoc in H. set (tl := concat _ ++ crlf) in *.
  assert (Hcase : (length l + 2 ≤ length q)%nat ∨ (length q < length l + 2)%nat) by lia. destruct Hcase as [Hq|Hq].
  - rewrite <- (take_drop (length l + 2) q), <- app_assoc in H. rewrite (app_assoc l) in H.
    apply app_inj_1 in H as [_ H]; [by apply IH in H|]. rewrite length_app, length_take. cbn. lia.
  - assert (Hq13 : (l ++ crlf ++ tl) !! length q = Some 13).
    { rewrite H, lookup_app_r, Nat.sub_diag by lia. done. }
    assert (Hq13' : (l ++ crlf ++ tl) !! S (S (length q)) = Some 13).
    { rewrite H, lookup_app_r by lia. by replace (S (S (length q)) - length q)%nat with 2%nat by lia. }
    assert (length q = length l) as Hql.
    { destruct (decide (length q < length l)%nat) as [Hlt|Hge].
      - rewrite lookup_app_l in Hq13 by lia. exfalso. apply H13. by eapply list_elem_of_lookup_2.
      - destruct (decide (length q = length l)) as [|Hd]; [done|].
        assert (length q = S (length l)) as Hql by lia. rewrite Hql, lookup_app_r in Hq13 by lia.
        by replace (S (length l) - length l)%nat with 1%nat in Hq13 by lia. }
    assert (Ht : tl !! 0%nat = Some 13).
    { rewrite <- Hq13', Hql, lookup_app_r by lia. by replace (S (S (length l)) - length l)%nat with 2%nat by lia. }
    apply (f_equal (drop (length l + 2))) in H. rewrite (app_assoc l), drop_app_length' in H by (rewrite length_app; done).
    rewrite drop_app_ge in H by lia. replace (length l + 2 - length q)%nat with 2%nat in H by lia. cbn in H.
    unfold tl in *. destruct ls as [|l' ls].
    + cbn in H. by injection H.
    + exfalso. apply list.Forall_cons in Hls as [(Hne' & H13' & _) _]. destruct l' as [|x l']; [done|].
      cbn in Ht. injection Ht as ->. apply H13'. by left.
Qed.

Lemma http1_head_ends ls : Forall line_ok ls → ls ≠ [] → ends_with head_end (http1_head ls) = true.
Proof.
  intros _ Hne. apply ends_with_iff. destruct (exists_last Hne) as (before & l & ->).
  exists (concat (map (λ l, l ++ crlf) before) ++ l). unfold http1_head. rewrite map_app, concat_app. cbn [map concat].
  rewrite app_nil_r, <- !app_assoc. done.
Qed.

Lemma read_http_head_socket inp ls rest :
  Forall line_ok ls → ls ≠ [] → script_bytes inp = http1_head ls ++ rest →
  ∃ inp', read_http_head inp = (inp', Ready (Ok (from_utf8_lossy (http1_head ls)))) ∧ script_bytes inp' = rest.
Proof.
  intros Hl Hne Hs. unfold read_http_head. apply (head_loop_socket _ []); [done| |by apply http1_head_ends| |cbn; lia].
  - unfold http1_head. by destruct (concat _).
  - intros p q Hpq _ Hq. apply not_true_iff_false. intros [r Hr]%ends_with_iff. cbn in Hr. subst p.
    rewrite <- app_assoc in Hpq. by apply (http1_head_first ls r q Hl) in Hpq.
Qed.

(** *** Reading from the records *)

(** A poll that fills the buffer. *)
Lemma read_full_once {St} `{AsyncRead St} want e (s s' : St) b :
  0 < want → poll_once want s = (s', Ready (Ok b)) → zlen b = want → read_full want e s = (s', Ready (Ok b)).
Proof.
  intros Hw Hp Hb. unfold read_full. replace (Z.to_nat want) with (S (Z.to_nat want - 1)) by lia.
  cbn [Nat.add fill_loop]. destruct (Z.leb_spec want 0); [lia|]. rewrite Hp.
  destruct b as [|x b]; [unfold zlen in Hb; cbn in Hb; lia|]. rewrite Hb, Z.sub_diag. cbn [fill_loop Z.leb Z.compare].
  by rewrite app_nil_r.
Qed.

Section noise.
  Context `{Aead}.

Lemma poll_read_unread want s pt :
  read_inv s → unread s = pt → 0 < want ≤ zlen pt →
  ∃ s', poll_read want s = (s', Ready (Ok (ztake want pt))) ∧ unread s' = zdrop want pt ∧ read_inv s'.
Proof.
  intros Hr Hu Hw. unfold poll_read.
  assert (Hlen : zlen pt = zlen (read_buf s) - read_pos s).
  { unfold unread, read_inv in *. by rewrite <- Hu, zlen_drop by lia. }
  assert ((read_pos s <? zlen (read_buf s)) = true) as -> by (apply Z.ltb_lt; lia).
  destruct (take_unread s want) as [s1 out] eqn:Ht.
  assert (Hl : zlen out = want).
  { unfold take_unread in Ht. injection Ht as _ <-. unfold read_inv in *. rewrite zlen_slice by lia. lia. }
  apply take_unread_spec in Ht as (Hr1 & Hu1 & _ & _ & _ & _); [|done|lia].
  exists s1. rewrite <- Hu, <- Hu1, ztake_app, zdrop_app by done. done.
Qed.

Lemma read_full_unread want e s pt :
  read_inv s → unread s = pt → 0 ≤ want ≤ zlen pt →
  ∃ s', read_full want e s = (s', Ready (Ok (ztake want pt))) ∧ unread s' = zdrop want pt ∧ read_inv s'.
Proof.
  intros Hr Hu Hw. destruct (decide (want = 0)) as [->|Hz].
  { exists s. by rewrite zdrop_0. }
  destruct (poll_read_unread want s pt Hr Hu) as (s' & Hp & ?); [lia|]. exists s'. split; [|done].
  apply read_full_once; [lia|exact Hp|by apply zlen_take].
Qed.

(** The first poll of a stream whose transport has a whole write ready. *)
Lemma poll_read_first n s framed inp rd pt :
  read_inv s → unread s = [] → s.(inner_in) = RData framed :: inp → framed ≠ [] → zlen framed ≤ READ_CHUNK →
  RecordDecoder_feed s.(reader) framed = (rd, Ok pt) → pt ≠ [] →
  poll_read n s = poll_read n (with_read s inp rd pt 0).
Proof.
  intros Hr Hu Hin Hne Hle Hfd Hpt. unfold poll_read. assert ((read_pos s <? zlen (read_buf s)) = false) as ->.
  { apply Z.ltb_ge. unfold unread, read_inv in *. apply (f_equal zlen) in Hu.
    rewrite zlen_drop in Hu by lia. change (zlen []) with 0 in Hu. lia. }
  rewrite Hin. cbn [inner_poll_read with_read read_pos read_buf]. rewrite (proj2 (Z.leb_le _ _) Hle).
  assert (ztake READ_CHUNK framed = framed) as -> by (unfold ztake, zlen in *; apply firstn_all2; lia).
  assert ((zlen framed =? 0) = false) as -> by (destruct framed as [|x f]; [done|]; rewrite zlen_cons; pose proof (zlen_nonneg f); lia).
  rewrite Hfd. rewrite (proj2 (Z.ltb_lt 0 (zlen pt))); [done|]. destruct pt as [|x f]; [done|]. rewrite zlen_cons. pose proof (zlen_nonneg f). lia.
Qed.

(** The payload is read from a transport that has its record whole. *)
Lemma early_payload_read `{!EarlyJson} s challenge payload framed inp rd :
  read_inv s → unread s = [] → s.(inner_in) = RData framed :: inp → framed ≠ [] → zlen framed ≤ READ_CHUNK →
  encode_early_payload challenge = Ok payload → RecordDecoder_feed s.(reader) framed = (rd, Ok payload) →
  (read_early_payload s).2 = Ready (Ok (to_key_string ChallengeKey challenge)).
Proof.
  intros Hr Hu Hin Hne Hle He Hfd. pose proof (early_payload_roundtrip challenge payload [] He) as Hdec. rewrite app_nil_r in Hdec.
  unfold encode_early_payload in He. destruct (early_to_json challenge) as [json|]; [|done].
  destruct (Z.ltb_spec MAX_EARLY_PAYLOAD_LEN (zlen json)) as [|Hl]; [done|].
  assert (Hpay : payload = EARLY_PAYLOAD_MAGIC ++ to_be 4 (wrap 32 (zlen json)) ++ json) by congruence. clear He.
  pose proof (zlen_nonneg json) as Hn. unfold MAX_EARLY_PAYLOAD_LEN in Hl.
  assert (Hlb : zlen (to_be 4 (wrap 32 (zlen json))) = 4) by by rewrite zlen_to_be.
  assert (Hfb : from_be (to_be 4 (wrap 32 (zlen json))) = zlen json).
  { unfold wrap. rewrite Z.mod_small by (change (2 ^ 32) with 4294967296; lia). apply from_to_be_small. cbn. lia. }
  set (lb := to_be 4 _) in *.
  assert (Hplen : zlen payload = 9 + zlen json).
  { rewrite Hpay, !zlen_app, Hlb. change (zlen EARLY_PAYLOAD_MAGIC) with 5. lia. }
  assert (Hp0 : payload ≠ []) by (rewrite Hpay; done).
  unfold read_early_payload.
  assert (Hi : read_inv (with_read s inp rd payload 0)) by (split; [done|apply zlen_nonneg]).
  assert (Hun : unread (with_read s inp rd payload 0) = payload) by (unfold unread; cbn; apply zdrop_0).
  destruct (poll_read_unread 5 _ payload Hi Hun) as (s1 & E1 & Hu1 & Hr1); [lia|].
  rewrite <- (poll_read_first 5 s framed inp rd payload) in E1 by done.
  rewrite (read_full_once 5 ReadMagicFailed s s1 (ztake 5 payload)); [|lia|exact E1|apply zlen_take; lia]. cbn [and_then].
  assert (ztake 5 payload = EARLY_PAYLOAD_MAGIC) as -> by by rewrite Hpay, ztake_app.
  rewrite bool_decide_eq_true_2 by done. cbn [negb].
  assert (Hd1 : zdrop 5 payload = lb ++ json) by by rewrite Hpay, zdrop_app. rewrite Hd1 in Hu1.
  destruct (read_full_unread 4 ReadLengthFailed s1 _ Hr1 Hu1) as (s2 & -> & Hu2 & Hr2); [rewrite zlen_app; lia|]. cbn [and_then].
  rewrite ztake_app by done. rewrite zdrop_app in Hu2 by done. rewrite Hfb.
  destruct (read_full_unread (zlen json) ReadPayloadFailed s2 _ Hr2 Hu2) as (s3 & -> & _ & _); [lia|]. cbn [and_then snd].
  rewrite ztake_all by done. rewrite <- Hpay, Hdec. done.
Qed.

End noise.

(** *** The text of a head *)

Lemma key_string_ascii t k : wf_bytes k → Forall (λ c, 0 ≤ c < 128) (to_key_string t k).
Proof.
  intros Hk. unfold to_key_string. rewrite app_assoc. apply Forall_app. split.
  { apply (bool_decide_eq_true_1 (Forall (λ c, 0 ≤ c < 128) _)). by destruct t; vm_compute. }
  induction Hk as [|x l Hx _ IH]; cbn [encode_hex]; [constructor|].
  assert (Hd : ∀ n, 0 ≤ n < 16 → 0 ≤ hex_digit n < 128).
  { intros n Hn. assert (Hb : ((0 <=? hex_digit n) && (hex_digit n <? 128)) = true); [|lia].
    by apply (range_cases 16 (λ n, (0 <=? hex_digit n) && (hex_digit n <? 128))); [vm_compute|]. }
  constructor; [|constructor; [|exact IH]]; apply Hd.
  - rewrite Z.shiftr_div_pow2 by lia. change (2 ^ 4) with 16. Z.to_euclidean_division_equations. lia.
  - change 15 with (Z.ones 4). rewrite Z.land_ones by lia. change (2 ^ 4) with 16. Z.to_euclidean_division_equations. lia.
Qed.

Lemma from_utf8_lossy_ascii s : Forall (λ c, 0 ≤ c < 128) s → from_utf8_lossy s = s.
Proof.
  induction 1 as [|c s Hc _ IH]; [done|]. cbn [from_utf8_lossy]. by rewrite (proj2 (Z.ltb_lt c 0x80)), IH by lia.
Qed.

Lemma lossy_starts_with p s : Forall (λ c, 0 ≤ c < 128) p → starts_with p (from_utf8_lossy (p ++ s)) = true.
Proof.
  intros Hp. unfold starts_with. assert (from_utf8_lossy (p ++ s) = p ++ from_utf8_lossy s) as ->.
  { induction Hp as [|c p Hc _ IH]; [done|]. cbn [app from_utf8_lossy]. by rewrite (proj2 (Z.ltb_lt c 0x80)), IH by lia. }
  by rewrite strip_prefix_app.
Qed.

Lemma split_line l t : 10 ∉ l → split 10 (l ++ crlf ++ t) = (l ++ [13]) :: split 10 t.
Proof.
  induction l as [|x l IH]; intros Hn; [done|]. cbn [app split].
  apply not_elem_of_cons in Hn as [Hx Hn]. destruct (Z.eqb_spec x 10); [congruence|]. by rewrite IH.
Qed.

Lemma strip_cr_line l : strip_cr (l ++ [13]) = l.
Proof. unfold strip_cr. rewrite rev_app_distr. cbn. apply rev_involutive. Qed.

Lemma ended_line l t : ended_lines ((l ++ [13]) :: split 10 t) = l :: ended_lines (split 10 t).
Proof.
  assert (split 10 t ≠ []) by (destruct t as [|x t]; [done|]; cbn; destruct (x =? 10); [done|]; by destruct (split 10 t)).
  destruct (split 10 t) eqn:E; [done|]. cbn [ended_lines]. by rewrite strip_cr_line.
Qed.

Lemma lines_head ls : Forall line_ok ls → lines (http1_head ls) = ls ++ [[]].
Proof.
  intros Hl. unfold lines, http1_head. induction Hl as [|l ls (_ & _ & H10) _ IH]; [done|].
  cbn [map concat]. rewrite <- !app_assoc, split_line, ended_line, IH by done. done.
Qed.

Lemma content_length_blank ls : content_length (ls ++ [[]]) = content_length ls.
Proof. induction ls as [|l ls IH]; [done|]. cbn [app content_length]. by rewrite IH. Qed.

Lemma http1_head_ascii ls : Forall (Forall (λ c, 0 ≤ c < 128)) ls → Forall (λ c, 0 ≤ c < 128) (http1_head ls).
Proof.
  intros Hl. unfold http1_head. apply Forall_app. split; [|by repeat constructor].
  induction Hl as [|l ls Hx _ IH]; cbn [map concat]; [constructor|].
  apply Forall_app. split; [|done]. apply Forall_app. split; [done|by repeat constructor].
Qed.

(** ** The client and the server *)

(** The requests of the peer, as the HTTP library of the server reads their text: names
    of fields in lower case. *)
Definition key_http_request (addr : text) (v : Z) : HttpRequest :=
  {| hr_method := str "GET"; hr_path := str "/key"; hr_query := Some (str "v=" ++ show_uint v);
     hr_headers := [(str "host", Some addr); (str "connection", Some (str "close"))]; hr_body := [] |}.

Definition peer_request `{Base64} (addr : text) (init : bytes) : HttpRequest :=
  {| hr_method := str "POST"; hr_path := str "/ts2021"; hr_query := None;
     hr_headers := [(str "host", Some addr); (str "upgrade", Some (str "tailscale-control-protocol"));
                    (str "connection", Some (str "upgrade")); (HANDSHAKE_HEADER, Some (b64_encode init));
                    (str "content-length", Some (str "0"))];
     hr_body := [] |}.

(** The text of a request without a body. *)
Definition http1_request (q : HttpRequest) : text :=
  q.(hr_method) ++ str " " ++ q.(hr_path) ++ (match q.(hr_query) with Some s => str "?" ++ s | None => [] end)
  ++ str " HTTP/1.1" ++ crlf
  ++ concat (map (λ h, h.1 ++ str ": " ++ default [] h.2 ++ crlf) q.(hr_headers)) ++ crlf.

(** The text the peer sends is that of these requests, but for the case of the names
    of the fields. *)
Lemma peer_sends_requests `{Base64} addr v init :
  map to_ascii_lowercase (key_request addr v) = map to_ascii_lowercase (http1_request (key_http_request addr v))
  ∧ map to_ascii_lowercase (ts2021_request addr init) = map to_ascii_lowercase (http1_request (peer_request addr init)).
Proof.
  unfold key_request, ts2021_request, http1_request, key_http_request, peer_request.
  cbn [hr_method hr_path hr_query hr_headers map concat fst snd default from_option]. unfold id.
  split; rewrite !map_app; repeat rewrite <- app_assoc; reflexivity.
Qed.

Section entering.
  Context `{Q : Sqlite, !SqliteLaws Q, C : KeyCrypto, T : Rfc3339, W : WireCodec, R : RecordsJson, L : OidcLibrary, J : RequestJson, H : HttpLibrary}.
  Context `{P : NoisePrimitives, B64 : Base64, EJ : EarlyJson} {N : Type} `{!IpNetwork N}.
  Context (cfg : ControlConfig) (stack : nat) (key : ServerKey) (proxies : option (TrustedProxies (N := N))).

Lemma peer_request_valid addr init :
  wf_bytes init → zlen init = INIT_MESSAGE_LEN →
  validate_native_upgrade (str "POST") (header_text (str "upgrade") (peer_request addr init))
    (header_text (str "connection") (peer_request addr init)) (header_text HANDSHAKE_HEADER (peer_request addr init)) = Ok init.
Proof. intros Hw Hl. exact (client_upgrade_valid init Hw Hl). Qed.

Lemma key_query v : 0 ≤ v < 2 ^ 16 → query_param (Some (str "v=" ++ show_uint v)) (str "v") = Some (show_uint v).
Proof.
  intros Hv. assert (Hn : 38 ∉ str "v=" ++ show_uint v).
  { rewrite not_elem_of_app. split; [by apply (bool_decide_eq_true_1 (_ ∉ _))|]. pose proof (show_uint_chars v ltac:(lia)) as Hc.
    rewrite list.Forall_forall in Hc. intros Hin%Hc. lia. }
  unfold query_param. by rewrite split_none by done.
Qed.

Lemma show_u16_parses v : 0 ≤ v < 2 ^ 16 → parse_uint (2 ^ 32 - 1) (show_uint v) = Some v.
Proof.
  intros Hv. pose proof (parse_show_u64 v ltac:(lia)) as Hp. unfold parse_u64, parse_uint in *.
  destruct (parse_digits _) as [x|]; [|done]. destruct (x <=? 2 ^ 64 - 1); [|done]. injection Hp as ->.
  by rewrite (proj2 (Z.leb_le v (2 ^ 32 - 1))) by lia.
Qed.

(** The JSON of the server's answer. *)
Definition key_document (k : bytes) : Json :=
  JObject [(str "legacyPublicKey", JString []); (str "publicKey", JString (key_text k))].

(** The peer learns the server's key: the server answers its request with the key, and
    from that answer, sent in any pieces, it reads the key. *)
Lemma server_key_fetched `{PJ : PeerJson} addr v mo peer ephemeral answers meanwhile r :
  CapVer.MIN_SUPPORTED_CAPVER ≤ v < 2 ^ 16 → key_wf r.(machine_key) →
  handle_request cfg stack key proxies mo peer ephemeral (key_http_request addr v) answers meanwhile r
    = Some (r, json_response 200 (JsonBody (key_document r.(machine_key))), None)
  ∧ ∀ sk acc sent reason ls body rest,
      await_write_all sk.(sk_accepts) sk.(sk_out) (utf8_encode (key_request addr v)) = (acc, sent, Ready (Ok tt)) →
      Forall line_ok ((str "HTTP/1.1 200" ++ reason) :: ls) →
      Forall (Forall (λ c, 0 ≤ c < 128)) ((str "HTTP/1.1 200" ++ reason) :: ls) →
      content_length ls = Some (zlen body) → value_of body = Some (key_document r.(machine_key)) →
      script_bytes sk.(sk_in) = http1_head ((str "HTTP/1.1 200" ++ reason) :: ls) ++ body ++ rest →
      fetch_server_key addr v (Some sk) = Ready (Ok r.(machine_key)).
Proof.
  intros Hv Hk. assert (Hv' : 0 ≤ v < 2 ^ 16) by (unfold CapVer.MIN_SUPPORTED_CAPVER in Hv; lia). split.
  { change (plain_served r (handle_key (query_param (Some (str "v=" ++ show_uint v)) (str "v")) r)
            = Some (r, json_response 200 (JsonBody (key_document r.(machine_key))), None)).
    rewrite key_query by done. unfold handle_key. rewrite show_u16_parses by done.
    by rewrite (proj2 (Z.leb_le CapVer.MIN_SUPPORTED_CAPVER v)) by lia. }
  intros sk acc sent reason ls body rest Hw Hl Ha Hc Hj Hs. set (l := str "HTTP/1.1 200" ++ reason) in *.
  unfold fetch_server_key, socket_write. rewrite Hw. cbn [and_then].
  destruct (read_http_head_socket sk.(sk_in) (l :: ls) (body ++ rest)) as (inp & Hhead & Hs1); [done..|].
  unfold socket_reads, read_http_response. cbn [sk_in]. rewrite Hhead. cbn [and_then].
  rewrite from_utf8_lossy_ascii by by apply http1_head_ascii. rewrite lines_head by done.
  assert (content_length ((l :: ls) ++ [[]]) = Some (zlen body)) as ->.
  { rewrite content_length_blank. cbn [content_length]. assert (strip_prefix CONTENT_LENGTH (map to_ascii_lowercase l) = None) as ->; [|done].
    unfold l. rewrite map_app. done. }
  destruct (read_full_socket (zlen body) ReadBodyFailed inp body rest Hs1 eq_refl) as (inp2 & Hb & _).
  assert (∃ inp3, (if 0 <? zlen body then read_full (zlen body) ReadBodyFailed inp else (inp, Ready (Ok []))) = (inp3, Ready (Ok body))) as [inp3 ->].
  { destruct (Z.ltb_spec 0 (zlen body)); [by exists inp2|]. exists inp.
    destruct body as [|x b]; [done|]. rewrite zlen_cons in *. pose proof (zlen_nonneg b). lia. }
  cbn [and_then snd with_in]. assert (starts_with (str "HTTP/1.1 200") (http1_head (l :: ls)) = true) as ->.
  { unfold starts_with, http1_head, l. cbn [map concat]. rewrite <- !app_assoc. by rewrite strip_prefix_app. }
  cbn [negb]. rewrite Hj.
  assert (json_get (str "publicKey") (key_document r.(machine_key)) ≫= json_str = Some (key_text r.(machine_key))) as -> by reflexivity.
  unfold key_text. rewrite utf8_ascii by apply key_string_ascii, Hk.
  rewrite to_key_string_roundtrip by done. by rewrite decide_True.
Qed.


End entering.

(** The generic [read_early_payload] reads through the polls of the stream, which take
    a record that has come in part for the end: when the first read of the transport
    ends inside the first record, the peer gives up, though the rest is on its way. *)
Theorem split_record_ends_peer `{Aead, !EarlyJson} s part more c' chunk rest :
  read_inv s → unread s = [] → s.(TransportStream.reader).2 = [] → zlen chunk ≤ MAX_RECORD_PLAINTEXT →
  encode_record s.(TransportStream.reader).1 chunk = Some (c', part ++ more) → part ≠ [] → more ≠ [] →
  s.(inner_in) = RData part :: rest →
  (read_early_payload s).2 = Ready (Err ReadMagicFailed).
Proof.
  intros Hr Hu Hb Hc He Hp Hm Hin.
  destruct (partial_record_reads_as_eof 5 s part more c' chunk rest) as [Hpoll _]; [first [done|lia]..|].
  unfold read_early_payload, read_full. cbn [turns noise_read]. change (Z.to_nat 5) with 5%nat. cbn [Nat.add fill_loop].
  change (poll_once 5 s) with (poll_read 5 s).
  destruct (poll_read 5 s) as [s' r]. cbn [snd] in Hpoll. by subst r.
Qed.

(** ** A session with the server *)

(** What the peer and the server write for each other is what the other reads. *)
Class PeerJsonLaws `{J : RequestJson} (PJ : PeerJson) (body_bytes : Body → bytes) : Prop := {
  register_read q b : register_to_json q = Some b → register_from_json b = Some q;
  map_request_read q b : map_request_to_json q = Some b → map_from_json b = Some q;
  logout_read k b : logout_to_json k = Some b → logout_from_json b = Some k;
  response_read x : register_response_of (body_bytes (RegisterBody x)) = Some x;
  raw_body b : body_bytes (RawBytes b) = b }.

Section session.
  Context `{Q : Sqlite, C : KeyCrypto, T : Rfc3339, W : WireCodec, R : RecordsJson, L : OidcLibrary, J : RequestJson, H : HttpLibrary}.
  Context (cfg : ControlConfig) (stack : nat) (body_bytes : Body → bytes) `{PJ : PeerJson} `{!PeerJsonLaws PJ body_bytes}.

Definition inner_post (path : text) (b : bytes) : HttpRequest :=
  {| hr_method := str "POST"; hr_path := path; hr_query := None; hr_headers := []; hr_body := [Some b] |}.

(** The h2 library between the peer and the router of the server, on a connection of the
    machine [m]. *)
Definition server_h2 (mo : Moment) (m : bytes) (path : text) (b : bytes) (r : ControlRouter) : ControlRouter * post_answer :=
  match handle_inner cfg stack mo m (inner_post path b) [] r with
  | Some (r', Answered resp) => (r', PostAnswers resp.(status) [Some (body_bytes resp.(body))])
  | _ => (r, PostFails)
  end.

Lemma inner_body path b :
  zlen b ≤ MAX_INNER_BODY_LEN → read_body_limited (inner_post path b).(hr_body) MAX_INNER_BODY_LEN = Ok b.
Proof.
  intros Hb. unfold read_body_limited, inner_post. cbn [hr_body read_chunks app]. change (zlen (@nil Z)) with 0.
  by rewrite (proj2 (Z.ltb_ge _ _)) by lia.
Qed.

Lemma collected b : collect_body [Some b] = Ok b.
Proof. cbn. by rewrite app_nil_r. Qed.

(** The peer's session is three operations of the control plane: the registration, the
    map and the logout of its node.  When they succeed, the report says that it is
    registered, holds the addresses of the map, and says that it is logged out exactly
    when the logout took the authorization away. *)
Theorem peer_session_served mo m hc nk before r r1 b1 b2 b3 p1 resp p2 frame payload doc p3 resp3 :
  register_to_json (peer_register hc nk) = Some b1 → map_request_to_json (peer_map hc nk) = Some b2 →
  logout_to_json nk = Some b3 → Forall (λ b, zlen b ≤ MAX_INNER_BODY_LEN) [b1; b2; b3] →
  check_register_rate mo m r = (r1, None) →
  register cfg stack mo.(mo_ambient) m (peer_register hc nk) r1.(control) = Some (p1, resp) → resp.(rs_machine_authorized) = true →
  handle_map cfg stack mo.(mo_ambient) m (peer_map hc nk) p1 = Some (p2, Ok (FullFrame frame)) →
  MapFrame.encode_map_response_frame payload = Ok frame → value_of payload = Some doc →
  logout cfg m nk p2 = Some (p3, Ok resp3) →
  ∃ report, peer_session (server_h2 mo m) hc nk before r = (set_control p3 r1, Ok report)
    ∧ report.(pr_registered) = true ∧ report.(logged_out) = negb resp3.(rs_machine_authorized)
    ∧ report.(assigned_ips) = match (json_get (str "Node") doc ≫= json_get (str "Addresses")) ≫= json_array with
                              | Some addrs => strings_of addrs | None => [] end.
Proof.
  intros H1 H2 H3 (Hb1 & (Hb2 & (Hb3 & _)%list.Forall_cons)%list.Forall_cons)%list.Forall_cons Hrate Hreg Hauth Hmap Hframe Hdoc Hout.
  assert (E1 : server_h2 mo m (str "/machine/register") b1 r = (set_control p1 r1, PostAnswers 200 [Some (body_bytes (RegisterBody resp))])).
  { unfold server_h2, handle_inner. rewrite inner_body by done.
    change (is_route _ (str "GET") (str "/machine/whoami")) with false. change (is_route _ _ (str "/machine/register")) with true.
    cbn iota. unfold handle_register. by rewrite Hrate, (register_read _ _ H1), Hreg. }
  assert (E2 : server_h2 mo m (str "/machine/map") b2 (set_control p1 r1) = (set_control p2 r1, PostAnswers 200 [Some frame])).
  { unfold server_h2, handle_inner. rewrite inner_body by done.
    change (is_route _ (str "GET") (str "/machine/whoami")) with false. change (is_route _ _ (str "/machine/register")) with false.
    change (is_route _ _ (str "/machine/map")) with true. cbn iota. unfold router_handle_map, on_plane.
    rewrite (map_request_read _ _ H2). cbn [set_control control]. rewrite Hmap. cbn. by rewrite raw_body. }
  assert (E3 : server_h2 mo m (str "/machine/logout") b3 (set_control p2 r1) = (set_control p3 r1, PostAnswers 200 [Some (body_bytes (RegisterBody resp3))])).
  { unfold server_h2, handle_inner. rewrite inner_body by done.
    change (is_route _ (str "GET") (str "/machine/whoami")) with false. change (is_route _ _ (str "/machine/register")) with false.
    change (is_route _ _ (str "/machine/map")) with false. change (is_route _ _ (str "/machine/logout")) with true. cbn iota.
    unfold handle_logout, on_plane. rewrite (logout_read _ _ H3). cbn [set_control control]. by rewrite Hout. }
  assert (Hdec : MapFrame.decode_map_response_frame frame = Ok (payload, zlen frame)).
  { rewrite <- (app_nil_r frame) at 1. by apply MapFrame.map_frame_roundtrip. }
  unfold peer_session, post_json, post_json_raw. rewrite H1, E1. cbn [negb Z.eqb Pos.eqb]. rewrite collected. cbn [rbind].
  rewrite response_read. cbn [ok_or then_run]. rewrite Hauth. cbn [negb]. rewrite H2, E2. cbn [negb Z.eqb Pos.eqb].
  rewrite collected. cbn [then_run]. rewrite Hdec, Z.eqb_refl. cbn [negb]. rewrite Hdoc, H3, E3. cbn [negb Z.eqb Pos.eqb].
  rewrite collected. cbn [rbind]. rewrite response_read. cbn [ok_or then_run]. eexists. split; [reflexivity|].
  cbn [pr_registered logged_out assigned_ips]. unfold map_report. by destruct (json_get (str "DNS") doc).
Qed.

End session.

(** ** A peer *)

#[local] Existing Instances demo_base64 demo_primitives single_network demo_request_json demo_http.

(** The early payload of a challenge is the challenge. *)
#[local] Instance demo_early : EarlyJson.
Proof. refine {| early_to_json c := Some c; early_from_json b := Some b |}. by intros c json [= ->]. Defined.

Definition demo_peer_request : HttpRequest := peer_request (str "c:1") demo_client_init.2.

Definition demo_peer_answer : option (ControlRouter * HttpResponse * option ResponderOutput) :=
  handle_request demo_config 10 demo_server_key None (demo_moment 110) (V4 1) [3] demo_peer_request None (λ r, r) demo_server_router.

Definition demo_peer_out : ResponderOutput :=
  match demo_peer_answer with Some (_, _, Some out) => out | _ => demo_output end.

(** The server's end serves one request. *)
Definition demo_peer_served : NoiseStream * poll (list (() * bytes) * result unit TransportError) :=
  serve_http2 demo_peer_out.(peer_static_public) (replicate 32 4) (Some [Some tt])
    (ts2021_handshake demo_peer_out [] [WAccept 7; WPending; WAccept 1000]).1.2.

Definition demo_peer_lines : list text :=
  [str "HTTP/1.1 101 Switching Protocols"; str "upgrade: tailscale-control-protocol"].

Definition demo_peer_socket : Socket :=
  {| sk_in := [RData (ztake 10 (http1_head demo_peer_lines)); RPending;
               RData (zdrop 10 (http1_head demo_peer_lines) ++ demo_peer_out.(response));
               RData demo_peer_served.1.(inner_out)];
     sk_accepts := [WAccept 3; WPending; WAccept 1000]; sk_out := [] |}.

