(* ===== verification/MapSessions.v ===== *)
(** * Map sessions, from the request to the client

    What the maps of [MapRequest] come to over a session: the client that
    decodes the first frame and applies every later one holds what the session
    recorded as sent, and after a batch that looks at the peers it holds the
    current ones, in every plane that is reached.  Also what a map request
    writes, and three places where the maps say something else than the
    comments beside them. *)

From S2P Require Import Prelude ProtoFrame Text Net IpText PolicyModel PolicyTags PolicyRoutes PolicyCompile Sessions Events IpAlloc Pending NetMap PreAuth Store Dns SshPolicy Delta Control Registration MapRequest Demo SshCheck PlaneInv Admission Security.

(** ** The client *)

(** The inverse of the server's codecs: what a client does with a frame. *)
Class ClientCodec : Type := {
  map_from_json : bytes → option MapResponse;
  zstd_decode : bytes → option bytes }.

(** A response is read back as it was written, a payload as it was compressed. *)
Class CodecLaws (W : WireCodec) (D : ClientCodec) : Prop := {
  json_round_trip r j : map_to_json r = Some j → map_from_json j = Some r;
  zstd_round_trip b z : zstd_encode b = Some z → zstd_decode z = Some b }.

Definition decode_frame `{ClientCodec} (compress : bool) (frame : bytes) : option MapResponse :=
  match MapFrame.decode_map_response_frame frame with
  | Err _ => None
  | Ok (payload, _) =>
      json ← (if compress then zstd_decode payload else Some payload);
      map_from_json json
  end.

(** A complete list replaces the peers; then the changes are applied. *)
Definition apply_response (r : MapResponse) (view : gmap Z WireNode) : gmap Z WireNode :=
  let view :=
    match r.(resp_peers) with
    | Some peers => fold_left (λ m n, <[n.(wn_id) := n]> m) peers ∅
    | None => view
    end in
  apply_delta
    {| d_removed := default [] r.(resp_peers_removed); d_changed := default [] r.(resp_peers_changed);
       d_patches := default [] r.(resp_peers_changed_patch); d_current := []; d_visible := ∅ |} view.

Definition apply_frame `{ClientCodec} (compress : bool) (frame : bytes) (view : gmap Z WireNode)
    : option (gmap Z WireNode) :=
  r ← decode_frame compress frame; Some (apply_response r view).

Lemma decode_encode `{W : WireCodec, D : ClientCodec, !CodecLaws W D} r compress frame :
  encode_frame r compress = Ok frame → decode_frame compress frame = Some r.
Proof.
  unfold encode_frame, rbind. destruct (map_to_json r) as [json|] eqn:Hj; [|done].
  destruct (if compress then _ else _) as [payload|] eqn:Hz; [|done].
  destruct (MapFrame.encode_map_response_frame payload) as [f|] eqn:Hf; [|done]. cbn [map_err]. intros [= <-].
  destruct (MapFrame.map_frame_roundtrip payload f [] Hf) as [Hd _]. rewrite app_nil_r in Hd.
  unfold decode_frame. rewrite Hd. destruct compress.
  - destruct (zstd_encode json) as [z|] eqn:Hze; [|done]. injection Hz as <-.
    rewrite (zstd_round_trip json z Hze). cbn [mbind option_bind]. by apply json_round_trip.
  - injection Hz as <-. cbn [mbind option_bind]. by apply json_round_trip.
Qed.

(** ** Lists of peers *)

Lemma inserts_lookup_elem l (m : gmap Z WireNode) id w :
  NoDup (wn_id <$> l) →
  fold_left (λ m n, <[n.(wn_id) := n]> m) l m !! id = Some w
  ↔ (w ∈ l ∧ w.(wn_id) = id) ∨ (id ∉ wn_id <$> l ∧ m !! id = Some w).
Proof.
  revert m. induction l as [|n l IH]; intros m; cbn [fold_left fmap list_fmap].
  { intros _. split; [intros ?; right; split; [apply not_elem_of_nil|done]|].
    by intros [[Hn _]|[_ ?]]; [apply elem_of_nil in Hn|]. }
  intros [Hn Hnd]%list.NoDup_cons. rewrite IH by done. rewrite elem_of_cons, not_elem_of_cons.
  split.
  - intros [[Hw Hid]|[Hid Hw]]; [left; split; [by right|done]|].
    apply lookup_insert_Some in Hw as [[<- <-]|[Hne Hw]]; [left; split; [by left|done]|].
    right. by split.
  - intros [[[->|Hw] Hid]|[[Hne Hid] Hw]].
    + right. subst id. split; [done|]. apply lookup_insert_eq.
    + left. by split.
    + right. split; [done|]. by rewrite lookup_insert_ne.
Qed.

Lemma keyed_inserts l (m : gmap Z WireNode) : keyed m → keyed (fold_left (λ m n, <[n.(wn_id) := n]> m) l m).
Proof.
  revert m. induction l as [|n l IH]; intros m Hm; cbn [fold_left]; [done|]. apply IH.
  intros id w [[<- <-]|[_ Hw]]%lookup_insert_Some; [done|by apply Hm].
Qed.

Lemma replace_view l (m : gmap Z WireNode) :
  NoDup (wn_id <$> l) → keyed m → (∀ w, w ∈ l ↔ ∃ id, m !! id = Some w) →
  fold_left (λ m n, <[n.(wn_id) := n]> m) l ∅ = m.
Proof.
  intros Hnd Hk Hl. apply map_eq. intros id. apply option_eq. intros w.
  rewrite inserts_lookup_elem by done. rewrite lookup_empty, Hl. split.
  - intros [[[id' Hw] Hid]|[_ [=]]]. by rewrite <- Hid, (Hk id' w Hw).
  - intros Hw. left. split; [by exists id|by apply Hk].
Qed.

(** ** The first map *)

Lemma collect_peers_spec pl self version nodes peers users :
  (∀ n, is_Some (peer_node pl n version)) →
  ∃ ws us,
    collect_peers pl self.(dn_node_key) (visible_peers pl self) version nodes peers users
      = Some (peers ++ ws, us)
    ∧ Forall2 (λ n w, peer_node pl n version = Some w) (filter (eligible pl self) nodes) ws
    ∧ ∀ u, u ∈ us ↔ u ∈ users ∨ ∃ n, n ∈ nodes ∧ eligible pl self n ∧ n.(dn_user_id) = Some u.
Proof.
  intros Hp. revert peers users. induction nodes as [|n nodes IH]; intros peers users; cbn [collect_peers].
  { exists [], users. rewrite app_nil_r. split; [done|]. split; [constructor|].
    intros u. split; [by left|]. by intros [|(n & Hn%elem_of_nil & _)]. }
  destruct (_ || _) eqn:Hsk.
  - assert (Hno : ¬ eligible pl self n).
    { intros He%eligible_skip. congruence. }
    destruct (IH peers users) as (ws & us & -> & Hf & Hu). exists ws, us. split; [done|].
    rewrite filter_cons_False by done. split; [done|]. intros u. rewrite Hu.
    setoid_rewrite elem_of_cons. split; [naive_solver|]. intros [?|(n' & [->|?] & ? & ?)]; naive_solver.
  - apply eligible_skip in Hsk. destruct (Hp n) as [w Hw]. rewrite Hw. cbn [mbind option_bind].
    destruct (IH (peers ++ [w]) (match dn_user_id n with Some u => {[u]} ∪ users | None => users end))
      as (ws & us & -> & Hf & Hu).
    exists (w :: ws), us. split; [by rewrite <- app_assoc|]. rewrite filter_cons_True by done.
    split; [by constructor|]. intros u. rewrite Hu. setoid_rewrite elem_of_cons.
    destruct (dn_user_id n) as [x|] eqn:Hx; [rewrite elem_of_union, elem_of_singleton|];
      (split; [|intros [?|(n' & [->|?] & ? & ?)]]; naive_solver).
Qed.

Section maps.
  Context `{Q : Sqlite, !SqliteLaws Q, C : KeyCrypto, T : Rfc3339, W : WireCodec, J : RecordsJson}.
  Context (cfg : ControlConfig) (stack : nat).

(** The groups of the policy are ranked within the stack. *)
Definition stack_ok : Prop :=
  ∃ rank, ranked cfg.(cfg_policy) rank ∧ ∀ t, (rank t < stack)%nat.

(** Row ids are positive and fit an [i64], and every node was seen. *)
Definition nodes_live (s : Store) : Prop :=
  ∀ i n, s.(st_nodes) !! i = Some n → 0 < i < 2 ^ 63 ∧ is_Some n.(dn_last_seen).

Definition keeps_live (s s' : Store) : Prop := nodes_live s → nodes_live s'.

#[local] Instance keeps_live_preorder : PreOrder keeps_live.
Proof. split; [by intros s Hs|]. intros s t u H1 H2 Hs. by apply H2, H1. Qed.

Lemma live_insert i n s :
  nodes_live s → 0 < i < 2 ^ 63 → is_Some n.(dn_last_seen) →
  nodes_live (with_nodes (<[i := n]> s.(st_nodes)) s).
Proof.
  intros Hs Hi Hn j m. cbn [with_nodes st_nodes].
  intros [[<- <-]|[_ Hm]]%lookup_insert_Some; [done|by apply Hs].
Qed.

Lemma live_stable_id sid i s : nodes_live s → nodes_live (update_stable_id sid i s).1.
Proof.
  intros Hs. unfold update_stable_id. destruct (st_nodes s !! i) as [r|] eqn:Hr; [|done].
  destruct (taken _ _ _); [done|]. destruct (Hs i r Hr). by apply live_insert.
Qed.

Lemma live_write g n s : node_write g s n → keeps_live s (upsert_node n s).1.
Proof.
  intros Hw Hs.
  assert (Hst : nodes_live (upsert_statement n s).1).
  { assert (Hseen : is_Some n.(dn_last_seen)).
    { destruct Hw as [i r n Hr _ _ _ _ _ Hsn|n _ _ Hsn]; [|done]. apply Hsn, (Hs i r Hr). }
    unfold upsert_statement. destruct (row_id _ _) as [i|] eqn:Hi.
    - destruct (taken _ _ _); [done|]. destruct (owner_exists n s); [|done].
      apply row_id_Some in Hi as (r & Hr & _). destruct (Hs i r Hr). by apply live_insert.
    - destruct (taken _ _ _); [done|]. unfold insert_row.
      destruct (next_rowid _) as [i|] eqn:Hnext; [|done]. destruct (owner_exists n s); [|done].
      apply (live_insert i (set_dn_id i n) s Hs); [|exact Hseen]. split; [|apply (next_rowid_range _ _ Hnext)].
      apply (next_rowid_positive (dom s.(st_nodes))); [|exact Hnext].
      intros j Hj. apply elem_of_dom in Hj as [m Hm]. apply (Hs j m Hm). }
  unfold upsert_node. destruct (upsert_statement n s) as [s1 [[]|e]]; [|done]. cbn [fst] in Hst.
  case_bool_decide; [|done]. set (i := if dn_id n =? 0 then _ else _).
  pose proof (live_stable_id (show_stable_id i) i s1 Hst) as Hl.
  by destruct (update_stable_id (show_stable_id i) i s1) as [s2 [[]|e]].
Qed.

Lemma live_delete k s : keeps_live s (delete_node k s).1.
Proof.
  intros Hs. unfold delete_node. destruct (row_id _ _); [|done]. destruct (taken _ _ _); [done|].
  intros j m. cbn [fst with_nodes st_nodes]. intros [_ Hm]%lookup_delete_Some. by apply (Hs j).
Qed.

Lemma reachable_live p : reachable cfg stack p → nodes_live p.(cp_store).
Proof.
  induction 1 as [file|op p p' _ IH Hstep]; [rewrite with_store_store; by intros i n|].
  apply (plane_step_moves cfg stack (λ _ _, True) keeps_live op p p') in Hstep; try done.
  - by apply Hstep.
  - apply live_write.
  - apply live_delete.
  - intros op' s Ht Hs i n. rewrite other_nodes by done. apply Hs.
Qed.

Lemma as_u64_inj x y : 0 < x < 2 ^ 63 → 0 < y < 2 ^ 63 → as_u64 x = as_u64 y → x = y.
Proof. unfold as_u64, wrap. intros Hx Hy E. Z.to_euclidean_division_equations. lia. Qed.

(** What the maps need of a plane holds in every plane that is reached. *)
Lemma reachable_plane_ok p : stack_ok → reachable cfg stack p → plane_ok (plane_view cfg stack p).
Proof.
  intros Hst Hr. pose proof (reachable_live p Hr) as Hl. apply reachable_sound in Hr as [Hi _].
  split; [|done]. unfold plane_view, list_nodes, rows. cbn [pl_nodes].
  generalize (NoDup_sorted_keys (st_nodes (cp_store p))).
  assert (Hin : ∀ i, i ∈ sorted_keys (st_nodes (cp_store p)) → is_Some (st_nodes (cp_store p) !! i))
    by (intros i; apply elem_of_sorted_keys). revert Hin.
  induction (sorted_keys (st_nodes (cp_store p))) as [|i ids IH]; intros Hin Hnd; cbn [omap list_omap]; [constructor|].
  apply list.NoDup_cons in Hnd as [Hni Hnd]. destruct (Hin i ltac:(by left)) as [n Hn]. rewrite Hn.
  cbn [fmap list_fmap]. apply list.NoDup_cons. split; [|apply IH; [|done]; intros j Hj; apply Hin; by right].
  intros (n' & E & (j & Hj & Hn')%list_elem_of_omap)%list_elem_of_fmap.
  apply as_u64_inj in E.
  - apply Hni. rewrite (si_node_ids _ Hi i n Hn), (si_node_ids _ Hi j n' Hn') in E. by subst.
  - rewrite (si_node_ids _ Hi i n Hn). apply (Hl i n Hn).
  - rewrite (si_node_ids _ Hi j n' Hn'). apply (Hl j n' Hn').
Qed.

End maps.

(** ** Maps are built *)

Section building.
  Context `{Q : Sqlite, !SqliteLaws Q, C : KeyCrypto, T : Rfc3339, W : WireCodec, J : RecordsJson}.
  Context (cfg : ControlConfig) (stack : nat).

Lemma node_attributes_total fuel p rank node :
  ranked p rank → (∀ t, (rank t < fuel)%nat) → is_Some (node_attributes fuel p node).
Proof.
  intros Hr Hf. unfold node_attributes.
  destruct (concat_opt_total (λ g, b ← any_opt (λ t, node_attr_target_matches fuel p t node) g.(attr_target);
    Some (if b : bool then g.(attr_names) else [])) p.(node_attrs)) as [l ->]; [|by eexists].
  intros g _. destruct (any_opt_total (λ t, node_attr_target_matches fuel p t node) g.(attr_target)) as [b ->].
  - intros t _. unfold node_attr_target_matches. case_bool_decide; [by eexists|].
    destruct (strip_prefix _ _); [by eexists|]. destruct (strip_prefix _ _); [by eexists|].
    destruct (starts_with _ _); [|by eexists]. destruct (cn_user_login node); [|by eexists].
    by eapply principal_matches_user_total.
  - by eexists.
Qed.

Lemma self_node_total pl node version : plane_ok pl → is_Some (self_node_proto pl node version).
Proof.
  intros [_ (rank & Hr & Hf)]. unfold self_node_proto, effective_approved_routes.
  destruct (auto_approved_routes_total pl.(pl_stack) pl.(pl_policy) rank (compile_node pl node)
    node.(dn_advertised_routes) Hr Hf) as [auto ->]. cbn [mbind option_bind].
  assert (Hc : is_Some (self_cap_map pl node)).
  { unfold self_cap_map. destruct (List.find _ _); [|by eexists]. case_bool_decide; [by eexists|].
    by eapply node_attributes_total. }
  destruct Hc as [cap ->]. by eexists.
Qed.

Lemma initial_map_spec pl derp dns node version :
  plane_ok pl →
  ∃ r ws us, initial_map cfg pl derp dns node version = Some r
    ∧ r.(resp_peers) = Some (merge_sort peer_le ws)
    ∧ (r.(resp_peers_changed) = None ∧ r.(resp_peers_removed) = None ∧ r.(resp_peers_changed_patch) = None)
    ∧ r.(resp_user_profiles) = omap (user_profile pl.(pl_users)) (sorted_ids us)
    ∧ Forall2 (λ n w, peer_node pl n version = Some w) (filter (eligible pl node) pl.(pl_nodes)) ws
    ∧ ∀ u, u ∈ us ↔ u = default 0 node.(dn_user_id)
                    ∨ ∃ n, n ∈ pl.(pl_nodes) ∧ eligible pl node n ∧ n.(dn_user_id) = Some u.
Proof.
  intros Hok. unfold initial_map. destruct (self_node_total pl node version Hok) as [w Hw]. rewrite Hw.
  cbn [mbind option_bind].
  destruct (collect_peers_spec pl node version pl.(pl_nodes) [] {[default 0 node.(dn_user_id)]}) as (ws & us & -> & Hf & Hu).
  { intros n. by apply peer_node_total. }
  cbn [mbind option_bind app]. eexists _, ws, us. split; [done|]. split_and!; try done.
  intros u. by rewrite Hu, elem_of_singleton.
Qed.

#[local] Instance peer_le_total : Total peer_le.
Proof. intros a b. unfold peer_le. lia. Qed.

#[local] Instance peer_le_trans : Transitive peer_le.
Proof. intros a b c. unfold peer_le. lia. Qed.

(** The peers of the first map, filed by id. *)
Lemma first_peers pl node version ws :
  plane_ok pl →
  Forall2 (λ n w, peer_node pl n version = Some w) (filter (eligible pl node) pl.(pl_nodes)) ws →
  ∀ id w, (from_peers (merge_sort peer_le ws)).(sent_peers) !! id = Some w ↔
    ∃ n, n ∈ pl.(pl_nodes) ∧ eligible pl node n ∧ as_u64 n.(dn_id) = id ∧ peer_node pl n version = Some w.
Proof.
  intros Hok Hf id w.
  assert (Hids : wn_id <$> ws = (λ n, as_u64 n.(dn_id)) <$> filter (eligible pl node) pl.(pl_nodes)).
  { clear -Hf. induction Hf as [|n w' ns ws Hp _ IH]; [done|]. cbn [fmap list_fmap]. f_equal; [|done].
    by apply peer_node_fields in Hp as (? & _). }
  assert (Hnd : NoDup (wn_id <$> merge_sort peer_le ws)).
  { rewrite (merge_sort_Permutation peer_le ws), Hids.
    eapply sublist_NoDup; [apply Hok|apply fmap_sublist, sublist_filter]. }
  unfold from_peers. cbn [sent_peers].
  rewrite inserts_lookup_elem by done. rewrite (merge_sort_Permutation peer_le ws), lookup_empty. split.
  - intros [[Hw Hid]|[_ [=]]]. apply list_elem_of_lookup_1 in Hw as [i Hi].
    destruct (Forall2_lookup_r _ _ _ _ _ Hf Hi) as (n & Hn & Hp).
    apply list_elem_of_lookup_2, list_elem_of_filter in Hn as [He Hn].
    exists n. split; [done|]. split; [done|]. split; [|done].
    apply peer_node_fields in Hp as (<- & _). done.
  - intros (n & Hn & He & Hid & Hp). left.
    assert (Hin : n ∈ filter (eligible pl node) pl.(pl_nodes)) by by apply list_elem_of_filter.
    apply list_elem_of_lookup_1 in Hin as [i Hi].
    destruct (Forall2_lookup_l _ _ _ _ _ Hf Hi) as (w' & Hw' & Hp'). assert (w' = w) as -> by congruence.
    split; [by eapply list_elem_of_lookup_2|]. apply peer_node_fields in Hp as (-> & _). done.
Qed.

(** C12. The first map of a node is built, lists exactly the authorized nodes the
    policy lets it see, in the order of their ids, with the state peers see of
    them, and carries the profiles of the known users who own a listed node or
    the node itself. *)
Theorem first_map_exact pl derp dns node version :
  plane_ok pl →
  ∃ r peers, initial_map cfg pl derp dns node version = Some r ∧ r.(resp_peers) = Some peers
    ∧ StronglySorted peer_le peers
    ∧ (∀ w, w ∈ peers ↔ ∃ n, n ∈ pl.(pl_nodes) ∧ eligible pl node n ∧ peer_node pl n version = Some w)
    ∧ ∀ pr, pr ∈ r.(resp_user_profiles) ↔ ∃ u usr, pl.(pl_users) !! u = Some usr
        ∧ user_profile pl.(pl_users) u = Some pr
        ∧ (u = default 0 node.(dn_user_id)
           ∨ ∃ n, n ∈ pl.(pl_nodes) ∧ eligible pl node n ∧ n.(dn_user_id) = Some u).
Proof.
  intros Hok. destruct (initial_map_spec pl derp dns node version Hok) as (r & ws & us & H1 & H2 & _ & H4 & Hf & Hu).
  exists r, (merge_sort peer_le ws). split; [done|]. split; [done|]. split.
  { apply (StronglySorted_merge_sort peer_le). }
  split.
  - intros w. rewrite (merge_sort_Permutation peer_le ws). split.
    + intros [i Hi]%list_elem_of_lookup_1. destruct (Forall2_lookup_r _ _ _ _ _ Hf Hi) as (n & Hn & Hp).
      apply list_elem_of_lookup_2, list_elem_of_filter in Hn as [He Hn]. by exists n.
    + intros (n & Hn & He & Hp).
      assert (Hin : n ∈ filter (eligible pl node) pl.(pl_nodes)) by by apply list_elem_of_filter.
      apply list_elem_of_lookup_1 in Hin as [i Hi].
      destruct (Forall2_lookup_l _ _ _ _ _ Hf Hi) as (w' & Hw' & Hp'). assert (w' = w) as -> by congruence.
      by eapply list_elem_of_lookup_2.
  - intros pr. rewrite H4, list_elem_of_omap. unfold sorted_ids.
    setoid_rewrite (merge_sort_Permutation Z.le (elements us)). setoid_rewrite elem_of_elements. split.
    + intros (u & Hin%Hu & Hp). unfold user_profile in *. destruct (pl_users pl !! u) as [usr|] eqn:Hus; [|done].
      exists u, usr. rewrite Hus. done.
    + intros (u & usr & _ & Hp & Hin%Hu). by exists u.
Qed.

(** ** Deltas *)

Lemma apply_empty_delta view :
  apply_delta {| d_removed := []; d_changed := []; d_patches := []; d_current := []; d_visible := ∅ |} view = view.
Proof. done. Qed.

Lemma default_nonempty {A} (l : list A) : default [] (nonempty l) = l.
Proof. by destruct l. Qed.

Definition client_after (view : gmap Z WireNode) (o : option MapResponse) : gmap Z WireNode :=
  from_option (λ r, apply_response r view) view o.

(** A response of tailnet-wide state, or none, leaves the peers alone. *)
Lemma client_tailnet dns derp view : client_after view (unless_default (tailnet_response dns derp)) = view.
Proof. unfold unless_default. by case_bool_decide. Qed.

Lemma client_peers dns derp d on seen view :
  client_after view (unless_default (peers_response (tailnet_response dns derp)
    (nonempty d.(d_removed)) (nonempty d.(d_changed)) (nonempty d.(d_patches)) on seen))
  = apply_delta d view.
Proof.
  assert (Hr : ∀ r, r = peers_response (tailnet_response dns derp)
    (nonempty d.(d_removed)) (nonempty d.(d_changed)) (nonempty d.(d_patches)) on seen →
    apply_response r view = apply_delta d view).
  { intros r ->. unfold apply_response. cbn [peers_response resp_peers resp_peers_removed resp_peers_changed resp_peers_changed_patch].
    by rewrite !default_nonempty. }
  unfold unless_default. case_bool_decide as Hd; cbn [client_after from_option]; [|by apply Hr].
  rewrite <- (Hr _ eq_refl), Hd. done.
Qed.

(** What a delta does to the record of the session and to the client. *)
Lemma peers_delta_spec pl dns derp self batch sent version :
  plane_ok pl → (∀ n, n ∈ pl.(pl_nodes) → is_Some n.(dn_last_seen)) → keyed sent.(sent_peers) →
  ∃ sent' o, peers_delta cfg pl (tailnet_response dns derp) self batch sent version = Some (sent', o)
    ∧ client_after sent.(sent_peers) o = sent'.(sent_peers) ∧ keyed sent'.(sent_peers)
    ∧ ∀ id w, sent'.(sent_peers) !! id = Some w ↔
        ∃ n, n ∈ pl.(pl_nodes) ∧ eligible pl self n ∧ as_u64 n.(dn_id) = id ∧ peer_node pl n version = Some w.
Proof.
  intros Hok Hseen Hk.
  destruct (compute_converges pl self version sent Hok Hk) as (sent' & d & Hc & Ha & Hk' & [Hnd Hcur] & Hex).
  { intros n prev Hn _ Hls. destruct (Hseen n Hn). congruence. }
  unfold peers_delta. rewrite Hc. cbn [mbind option_bind]. destruct (has_policy batch).
  - destruct (self_node_total pl self version Hok) as [w Hw]. rewrite Hw. cbn [mbind option_bind].
    eexists sent', _. split; [done|]. split; [|done]. cbn [client_after from_option].
    unfold apply_response. cbn [policy_response resp_peers resp_peers_removed resp_peers_changed
      resp_peers_changed_patch default from_option]. rewrite apply_empty_delta. by apply replace_view.
  - eexists sent', _. split; [done|]. split; [|done]. rewrite client_peers. exact Ha.
Qed.

End building.

(** ** Sessions *)

Section sessions.
  Context `{Q : Sqlite, !SqliteLaws Q, C : KeyCrypto, T : Rfc3339, W : WireCodec, J : RecordsJson}.
  Context `{D : ClientCodec, !CodecLaws W D}.
  Context (cfg : ControlConfig) (stack : nat).

(** A session of a client: what the server recorded as sent, and the peers of
    the client that applied every frame.  In between, the plane is any plane
    that is reached. *)
Inductive map_session (node_id version : Z) (compress : bool) : SessionPeers → gmap Z WireNode → Prop :=
| session_first amb m rq p p' frame ka sid init view :
    reachable cfg stack p →
    handle_map cfg stack amb m rq p
      = Some (p', Ok (MapStream frame ka compress sid node_id init version)) →
    apply_frame compress frame ∅ = Some view →
    map_session node_id version compress init view
| session_quiet p p' batch sent sent' view :
    map_session node_id version compress sent view → reachable cfg stack p →
    build_delta cfg stack node_id batch sent version p = Some (p', Ok (sent', None)) →
    map_session node_id version compress sent' view
| session_delta p p' batch sent sent' r frame view view' :
    map_session node_id version compress sent view → reachable cfg stack p →
    build_delta cfg stack node_id batch sent version p = Some (p', Ok (sent', Some r)) →
    encode_frame r compress = Ok frame → apply_frame compress frame view = Some view' →
    map_session node_id version compress sent' view'.

Lemma stream_opens amb m rq p p' frame ka c sid nid init v :
  handle_map cfg stack amb m rq p = Some (p', Ok (MapStream frame ka c sid nid init v)) →
  ∃ q node r, initial_map cfg (plane_view cfg stack q) q.(cp_derp).(dms_map) (build_dns_config cfg q) node v
      = Some r
    ∧ encode_frame r c = Ok frame ∧ init = from_peers (default [] r.(resp_peers)).
Proof.
  set (G := λ x : result MapOutcome ControlError, ∀ frame ka c sid nid init v,
    x = Ok (MapStream frame ka c sid nid init v) →
    ∃ q node r, initial_map cfg (plane_view cfg stack q) q.(cp_derp).(dms_map) (build_dns_config cfg q) node v
        = Some r
      ∧ encode_frame r c = Ok frame ∧ init = from_peers (default [] r.(resp_peers))).
  assert (HE : ∀ e, G (Err e)) by (intros e; by unfold G).
  assert (HG : post (handle_map cfg stack amb m rq) p (λ _ x, G x)).
  2: { intros E. specialize (HG _ _ E). unfold G in HG. by eapply HG. }
  unfold handle_map. destruct (_ <? _); [by apply post_fail|]. destruct (negb _); [by apply post_fail|].
  apply post_bind, post_ask. destruct (get_node_by_node_key _ _) as [before|]; [|by apply post_fail].
  case_bool_decide; cbn [negb]; [|by apply post_fail]. cbv zeta.
  apply post_bind. intros p1 [node|e] _; [|apply HE].
  apply post_bind. intros p2 [x|e] _; [|apply HE].
  apply post_bind. intros p3 [[]|e] _; [|apply HE].
  destruct (_ && mr_omit_peers rq && _); [apply post_ret; by unfold G|].
  apply post_bind. intros p4 [r|e] Hb; [|apply HE]. unfold build_initial_map, viewing, diverging in Hb.
  destruct (initial_map _ _ _ _ _ _) as [r'|] eqn:Hr; [|done]. cbn [mbind option_bind] in Hb.
  injection Hb as <- ->. apply post_bind, post_of_result.
  destruct (encode_frame _ _) as [f|e] eqn:Hf; [|apply HE].
  destruct (mr_stream rq); [|apply post_ret; by unfold G].
  intros p5 out. unfold streaming_map. destruct (open_session _ _ _ _) as [p6 sid'].
  intros [= <- <-] f' ka' c' sid'' nid' init' v' [= <- <- <- <- <- <- <-]. by exists p3, node, r.
Qed.

Lemma reachable_seen p n :
  reachable cfg stack p → n ∈ (plane_view cfg stack p).(pl_nodes) → is_Some n.(dn_last_seen).
Proof. intros Hr (i & Hi)%elem_of_rows. by apply (reachable_live cfg stack p Hr i n). Qed.

Lemma build_delta_spec node_id batch sent version p self :
  stack_ok cfg stack → reachable cfg stack p → keyed sent.(sent_peers) →
  get_node_by_id node_id p.(cp_store) = Some self → needs_peer_rescan batch = true →
  ∃ sent' o, build_delta cfg stack node_id batch sent version p = Some (p, Ok (sent', o))
    ∧ client_after sent.(sent_peers) o = sent'.(sent_peers) ∧ keyed sent'.(sent_peers)
    ∧ ∀ id w, sent'.(sent_peers) !! id = Some w ↔
        ∃ n, n ∈ list_nodes p.(cp_store) ∧ eligible (plane_view cfg stack p) self n
          ∧ as_u64 n.(dn_id) = id ∧ peer_node (plane_view cfg stack p) n version = Some w.
Proof.
  intros Hst Hr Hk Hself Hscan. unfold build_delta. rewrite Hscan, Hself. cbn [negb]. cbv zeta.
  destruct (peers_delta_spec cfg (plane_view cfg stack p) (if has_dns batch then build_dns_config cfg p else None)
    (if has_derp batch then Some p.(cp_derp).(dms_map) else None) self batch sent version)
    as (sent' & o & Hd & Hc & Hk' & Hex); [by apply reachable_plane_ok|intros n; by apply reachable_seen|done|].
  exists sent', o. unfold viewing, diverging. rewrite Hd. done.
Qed.


End sessions.

(** ** What a map request writes *)

Section writes.
  Context `{Q : Sqlite, !SqliteLaws Q, C : KeyCrypto, T : Rfc3339, W : WireCodec, J : RecordsJson}.
  Context (cfg : ControlConfig) (stack : nat).

(** Two nodes that differ in their stable id at most. *)
Definition same_but_stable_id (a b : DomainNode) : Prop := a = set_dn_stable_id a.(dn_stable_id) b.

Lemma upsert_own n i r s s' x :
  s.(st_nodes) !! i = Some r → unique_on dn_node_key s.(st_nodes) → 0 < i →
  n.(dn_node_key) = r.(dn_node_key) → n.(dn_id) = i → upsert_node n s = (s', Ok x) →
  ∃ n', s'.(st_nodes) = <[i := n']> s.(st_nodes) ∧ same_but_stable_id n' n.
Proof.
  intros Hr Hu Hpos Hk Hid. unfold upsert_node, upsert_statement.
  assert (Hrow : row_id (by_node_key n.(dn_node_key)) s.(st_nodes) = Some i).
  { apply (unique_row_id dn_node_key); [done|]. by exists r. }
  rewrite Hrow. destruct (taken _ _ _); [done|]. destruct (owner_exists n s); [|done]. cbn [negb].
  rewrite Hid, (proj2 (Z.eqb_neq i 0)) by lia.
  assert (Hsame : set_dn_id i n = n) by (subst i; by destruct n). rewrite Hsame.
  case_bool_decide as Hst.
  - unfold update_stable_id. cbn [with_nodes st_nodes]. rewrite lookup_insert_eq.
    destruct (taken _ _ _); [done|]. intros [= <- _]. eexists. split.
    + cbn [with_nodes st_nodes]. apply insert_insert_eq.
    + done.
  - intros [= <- _]. exists n. split; [done|]. by destruct n.
Qed.

Lemma tagged_reads amb rq node p :
  rq.(mr_stream) = true → CapVer.MIN_SUPPORTED_CAPVER ≤ rq.(mr_version) →
  rq.(mr_stream) && CapVer.streaming_read_only rq.(mr_version) = true
  ∧ tagged_by_request cfg stack amb rq true node p = Some (p, Ok node).
Proof.
  intros Hs Hv. pose proof (CapVer.supported_gates _ Hv) as Hg. rewrite !andb_true_iff in Hg.
  rewrite Hs. split; [apply Hg|done].
Qed.

(** The errors with which a request is refused before anything is written. *)
Definition refused (e : ControlError) : Prop :=
  match e with
  | UnsupportedVersion _ | InvalidEndpointTypes | NotFound | UnauthorizedTags _ | PolicyFailed _ => True
  | _ => False
  end.

(** After the write only the codecs fail. *)
Lemma map_answer_errors amb before node rq p :
  post (let! _ := publish_observed before node in
     if negb rq.(mr_stream) && rq.(mr_omit_peers) && negb rq.(mr_read_only) then hret LiteUpdate
     else let! response := build_initial_map cfg stack node rq in
          let! frame := of_result (encode_frame response (bool_decide (rq.(mr_compress) = str "zstd"))) in
          if rq.(mr_stream) then streaming_map amb node rq response frame else hret (FullFrame frame)) p
    (λ _ x, match x with Err e => ¬ refused e | Ok _ => True end).
Proof.
  apply post_bind. intros p1 r E. assert (r = Ok ()) as ->.
  { unfold publish_observed in E. destruct (bool_decide _); by injection E as _ <-. }
  destruct (_ && mr_omit_peers rq && _); [by apply post_ret|].
  apply post_bind. intros p2 [resp|e] Eb.
  2: { unfold build_initial_map, viewing, diverging in Eb. by destruct (initial_map _ _ _ _ _ _). }
  apply post_bind, post_of_result. destruct (encode_frame _ _) as [f|e] eqn:Ef.
  - destruct (mr_stream rq); [|by apply post_ret]. intros p3 x. unfold streaming_map.
    destruct (open_session _ _ _ _) as [q sid]. by intros [= _ <-].
  - assert (He : e = JsonFailed ∨ e = ZstdFailed ∨ e = FrameFailed); [|by destruct He as [->|[->| ->]]; intros []].
    unfold encode_frame, rbind in Ef. destruct (map_to_json _) as [json|]; [|injection Ef as <-; tauto].
    destruct (if bool_decide _ then _ else _) as [payload|e'] eqn:Ez.
    + destruct (MapFrame.encode_map_response_frame payload); cbn [map_err] in Ef; [done|injection Ef as <-; tauto].
    + injection Ef as <-. destruct (bool_decide _); [|done]. destruct (zstd_encode json); [done|].
      injection Ez as <-. tauto.
Qed.

(** C11. A map request changes no node but the one whose key it names and whose
    machine makes it, and of that node neither the keys, nor the addresses,
    nor the authorization; a stream records only that the node was seen and
    its disco key.  A refused request changes no node. *)
Theorem map_request_writes_own amb m rq p p' x :
  reachable cfg stack p → handle_map cfg stack amb m rq p = Some (p', x) →
  match x with
  | Ok _ =>
      ∃ i before after, p.(cp_store).(st_nodes) !! i = Some before
        ∧ before.(dn_node_key) = rq.(mr_node_key) ∧ before.(dn_machine_key) = m
        ∧ p'.(cp_store).(st_nodes) = <[i := after]> p.(cp_store).(st_nodes)
        ∧ node_facts after = node_facts before
        ∧ after.(dn_last_seen) = Some amb.(am_now) ∧ after.(dn_disco_key) = rq.(mr_disco_key)
        ∧ (rq.(mr_stream) = true →
           same_but_stable_id after (set_dn_seen rq.(mr_disco_key) amb.(am_now) before))
  | Err e => refused e → p'.(cp_store).(st_nodes) = p.(cp_store).(st_nodes)
  end.
Proof.
  intros Hreach. pose proof (reachable_live cfg stack p Hreach) as Hlive.
  apply reachable_sound in Hreach as [Hi _]. unfold handle_map.
  destruct (Z.ltb_spec (mr_version rq) CapVer.MIN_SUPPORTED_CAPVER); [by intros [= <- <-]|].
  destruct (negb _); [by intros [= <- <-]|]. unfold hbind at 1, ask.
  destruct (get_node_by_node_key _ (cp_store p)) as [before|] eqn:Hn; [|by intros [= <- <-]].
  apply get_node_row in Hn as [Hkey [i Hrow]].
  case_bool_decide as Hm; cbn [negb]; [|by intros [= <- <-]]. cbv zeta.
  set (ro := _ && _). set (node0 := observed _ _ ro before).
  destruct (observed_shape amb.(am_now) rq ro before) as (H1 & H2 & H3 & H4 & H5 & H6). fold node0 in H1, H2, H3, H4, H5, H6.
  assert (Hdisco : node0.(dn_disco_key) = rq.(mr_disco_key)).
  { unfold node0, observed. destruct ro; [done|]. by destruct (mr_hostinfo rq). }
  assert (Htag : keeps (on_store (λ s s', s'.(st_nodes) = s.(st_nodes))) (tagged_by_request cfg stack amb rq ro node0)).
  { apply keeps_tagged; [split; [done|intros a b c -> ->; done]|]. intros op s. apply other_nodes. }
  unfold hbind at 1. destruct (tagged_by_request cfg stack amb rq ro node0 p) as [[p1 [node|e]]|] eqn:Et; [| |done].
  2: { intros [= <- <-] _. by apply (Htag p p1 _ Et). }
  pose proof (Htag p p1 _ Et) as Hn1. unfold on_store in Hn1.
  destruct (tagged_shape cfg stack amb rq ro node0 p p1 _ Et node eq_refl) as (u & ts & ->).
  set (node := set_dn_owner u ts node0) in *.
  unfold hbind at 1, exec. destruct (upsert_node node (cp_store p1)) as [s2 [y|e]] eqn:Eu; cbn [map_err].
  2: { by intros [= <- <-] []. }
  destruct (upsert_own node i before (cp_store p1) s2 y) as (after & Hs2 & Hsame); try done.
  { by rewrite Hn1. } { rewrite Hn1. apply Hi. } { apply (Hlive i before Hrow). }
  { unfold node. cbn [set_dn_owner dn_id]. rewrite H1. by apply (si_node_ids _ Hi). }
  intros Hrest.
  assert (Hnodes : p'.(cp_store).(st_nodes) = s2.(st_nodes)).
  { assert (Hp : PreOrder (λ s s' : Store, s'.(st_nodes) = s.(st_nodes))) by (split; [done|intros a b c -> ->; done]).
    exact (keeps_map_answer cfg stack (λ s s', s'.(st_nodes) = s.(st_nodes)) amb before node rq (set_store s2 p1) p' x Hrest). }
  assert (Hafter : node_facts after = node_facts before ∧ after.(dn_last_seen) = Some amb.(am_now)
    ∧ after.(dn_disco_key) = rq.(mr_disco_key)).
  { rewrite Hsame. unfold node_facts, node. cbn [set_dn_stable_id set_dn_owner dn_node_key dn_machine_key
      dn_addresses dn_machine_authorized dn_last_seen dn_disco_key]. by rewrite H2, H3, H4, H5. }
  destruct x as [out|e].
  - destruct Hafter as (Hf & Hl & Hd). exists i, before, after. rewrite Hnodes, Hs2, Hn1. split_and!; try done.
    intros Hs. destruct (tagged_reads amb rq node0 p Hs ltac:(lia)) as [Hro Htr].
    assert (Hn0 : node0 = set_dn_seen rq.(mr_disco_key) amb.(am_now) before).
    { unfold node0, observed, ro. by rewrite Hro. }
    assert (Hnode : node = node0).
    { pose proof Et as Et'. unfold ro in Et'. rewrite Hro, Htr in Et'. by injection Et'. }
    rewrite Hnode, Hn0 in Hsame. exact Hsame.
  - intros Hrf. exfalso. by apply (map_answer_errors amb before node rq (set_store s2 p1) p' (Err e) Hrest).
Qed.

End writes.

(** ** Tagged nodes, SSH policies and names *)

Definition UNOWNED : ControlError :=
  PolicyFailed (str "cannot return a tagged node to user ownership without a user").

Lemma apply_tags_unowned `{Sqlite} cfg stack amb node t ts p :
  node.(dn_user_id) = None → node.(dn_tags) = Some (t :: ts) →
  apply_request_tags cfg stack amb node None [] p = Some (p, Err UNOWNED).
Proof.
  intros Hu Ht. unfold apply_request_tags. rewrite Hu, Ht. cbv zeta. cbn [default from_option id].
  rewrite bool_decide_eq_false_2.
  - done.
  - intros E. assert (Hin : t ∈ sort_dedup (t :: ts)) by (apply elem_of_sort_dedup; by left).
    rewrite <- E in Hin. by apply elem_of_nil in Hin.
Qed.

(** A node that a tagged key let in has no user.  When its client does not
    repeat the tags, each update of the map that reports its host, and each
    registration of the node it already is, is refused: it asks to return the
    node to an owner it never had. *)
Theorem tagged_node_cannot_update `{Q : Sqlite, C : KeyCrypto, T : Rfc3339, W : WireCodec}
    cfg stack amb rq h p node t ts :
  get_node_by_node_key rq.(mr_node_key) p.(cp_store) = Some node →
  node.(dn_user_id) = None → node.(dn_tags) = Some (t :: ts) →
  CapVer.MIN_SUPPORTED_CAPVER ≤ rq.(mr_version) →
  length rq.(mr_endpoint_types) = length rq.(mr_endpoints) →
  rq.(mr_stream) = false → rq.(mr_hostinfo) = Some h → default [] h.(hi_request_tags) = [] →
  handle_map cfg stack amb node.(dn_machine_key) rq p = Some (p, Err UNOWNED)
  ∧ ∀ rq', requested_tags rq'.(rq_hostinfo) = [] → relogin cfg stack amb node rq' p = Some (p, Err UNOWNED).
Proof.
  intros Hn Hu Ht Hv Hl Hs Hh Hr. split.
  - unfold handle_map. rewrite (proj2 (Z.ltb_ge _ _)) by done. rewrite Hl, Nat.eqb_refl. cbn [negb].
    unfold hbind at 1, ask. rewrite Hn, bool_decide_eq_true_2 by done. cbn [negb]. rewrite Hs. cbn [andb negb].
    unfold hbind at 1, tagged_by_request. rewrite Hh, bool_decide_eq_true_2 by by eexists. cbn [negb andb].
    unfold requested_tags. rewrite Hr. unfold observed. rewrite Hh. unfold node_owner_login.
    cbn [set_dn_endpoints set_dn_hostinfo set_dn_seen dn_user_id]. rewrite Hu. unfold hbind at 1 2, hret at 1.
    cbn beta iota. erewrite apply_tags_unowned; [done|exact Hu|exact Ht].
  - intros rq' Hrq'. unfold relogin, node_owner_login. rewrite Hu, Hrq'. unfold hbind at 1, hret at 1. unfold hbind at 1.
    by erewrite apply_tags_unowned.
Qed.

(** What a client keeps as its SSH policy: "absent means the client keeps its
    current SSH policy". *)
Definition ssh_after (kept : option WireSshPolicy) (o : option MapResponse) : option WireSshPolicy :=
  match o with
  | Some r => match r.(resp_ssh_policy) with Some s => Some s | None => kept end
  | None => kept
  end.

(** Once no rule of the policy lets anyone connect to a node, no delta says so:
    whatever the batch, the client keeps the SSH policy it has. *)
Theorem ssh_policy_not_withdrawn cfg stack node_id batch sent version p p' sent' o self kept :
  get_node_by_id node_id p.(cp_store) = Some self →
  ssh_policy_for cfg (plane_view cfg stack p) self = None →
  build_delta cfg stack node_id batch sent version p = Some (p', Ok (sent', o)) →
  ssh_after kept o = kept.
Proof.
  intros Hself Hssh. unfold build_delta. cbv zeta. rewrite Hself.
  assert (Hun : ∀ r, r.(resp_ssh_policy) = None → ssh_after kept (unless_default r) = kept).
  { intros r Hr. unfold unless_default. case_bool_decide; [done|]. cbn [ssh_after]. by rewrite Hr. }
  destruct (needs_peer_rescan batch); cbn [negb].
  2: { intros [= _ _ <-]. by apply Hun. }
  unfold viewing, diverging, peers_delta. destruct (compute_peer_delta _ _ _ _) as [[s d]|]; [|done].
  cbn [mbind option_bind]. destruct (has_policy batch).
  - destruct (self_node_proto _ _ _) as [w|]; [|done]. cbn [mbind option_bind]. intros [= _ _ <-].
    cbn [ssh_after policy_response resp_ssh_policy]. by rewrite Hssh.
  - cbn [mbind option_bind]. intros [= _ _ <-]. by apply Hun.
Qed.

(** With MagicDNS on, the configuration sent to every node has a record for
    each address of every stored node, whether the policy lets the two see each
    other, and whether the node is authorized, or not. *)
Theorem dns_names_every_node cfg p d n address record :
  cfg.(cfg_dns).(ds_magic_dns) = true → build_dns_config cfg p = Some d →
  n ∈ list_nodes p.(cp_store) → address ∈ n.(dn_addresses) →
  node_record (to_proto n) address = Some record → record ∈ d.(dns_extra_records).
Proof.
  intros Hm Hd Hn Ha Hr. unfold build_dns_config in Hd. rewrite Hm in Hd. cbn [negb andb] in Hd.
  injection Hd as <-. apply (dns_names_nodes _ _ _ _ _ _ (to_proto n) address record); try done.
  by apply list_elem_of_fmap_2.
Qed.

(** ** Examples *)

(** A codec that knows the responses of a table by their places in it. *)
Definition table_codec (table : list MapResponse) : WireCodec := {|
  map_to_json r := (λ ir, [Z.of_nat ir.1]) <$> list_find (r =.) table;
  zstd_encode b := Some (1 :: b) |}.

Definition table_client (table : list MapResponse) : ClientCodec := {|
  map_from_json j := match j with [i] => table !! Z.to_nat i | _ => None end;
  zstd_decode z := match z with _ :: b => Some b | [] => None end |}.

Lemma table_laws table : CodecLaws (table_codec table) (table_client table).
Proof.
  split; cbn [table_codec table_client map_to_json map_from_json zstd_encode zstd_decode].
  - intros r j ([i r'] & (Hi & Hr & _)%list_find_Some & ->)%fmap_Some. cbn [fst]. rewrite Nat2Z.id. congruence.
  - by intros b z [= <-].
Qed.

Definition demo_map_request (stream : bool) (h : option Hostinfo) : MapRequest :=
  {| mr_version := 130; mr_compress := []; mr_keep_alive := true; mr_node_key := [1];
     mr_disco_key := [3]; mr_stream := stream; mr_hostinfo := h; mr_endpoints := [];
     mr_endpoint_types := []; mr_omit_peers := false; mr_read_only := false; mr_tka_head := [];
     mr_map_session_handle := []; mr_map_session_seq := 0 |}.

Lemma demo_reached (W : WireCodec) : reachable demo_config 10 demo_p'.
Proof.
  apply (reach_step demo_config 10 (OpRegister (demo_ambient 110 2) [7] (demo_request [1] (Some once_key))) demo_p).
  - apply (reach_step demo_config 10
      (OpCreateKey (demo_ambient 100 1) (str "once") false false None None) demo_start);
      [apply (reach_start _ _ (Err []))|].
    pose proof demo_keyed_eq as E. unfold demo_keyed in E. cbn [plane_run] in E.
    apply bind_Some in E as (q & Hq & [= <-]). exact Hq.
  - change (fst <$> demo_joined = Some demo_p'). by rewrite demo_joined_eq.
Qed.

Lemma demo_stack : stack_ok demo_config 10.
Proof.
  exists (λ _, O). split; [|lia]. intros principal m (g & ms & _ & Hl & _) _. exfalso.
  change ((∅ : gmap text (list text)) !! g = Some ms) in Hl. by rewrite lookup_empty in Hl.
Qed.

(** The first response of the session, and the codec that knows it. *)
Definition demo_opened : option (ControlPlane * result MapOutcome ControlError) :=
  handle_map (W := demo_codec) demo_config 10 (demo_ambient 120 1) [7] (demo_map_request true None) demo_p'.

Definition demo_first : MapResponse :=
  default MapResponse_default
    (p ← fst <$> demo_opened; node ← get_node_by_id 1 p.(cp_store);
     initial_map demo_config (plane_view demo_config 10 p) p.(cp_derp).(dms_map)
       (build_dns_config demo_config p) node 130).

#[local] Instance demo_table : WireCodec := table_codec [demo_first].
#[local] Instance demo_client : ClientCodec := table_client [demo_first].

#[local] Instance demo_laws : CodecLaws demo_table demo_client := table_laws [demo_first].

Definition demo_session : option (ControlPlane * result MapOutcome ControlError) :=
  handle_map demo_config 10 (demo_ambient 120 1) [7] (demo_map_request true None) demo_p'.

Lemma demo_session_opens :
  ∃ p frame sid init view,
    demo_session = Some (p, Ok (MapStream frame true false sid 1 init 130))
    ∧ apply_frame false frame ∅ = Some view.
Proof.
  assert (H : match demo_session with
    | Some (_, Ok (MapStream f ka c sid nid init v)) =>
        ka && negb c && (nid =? 1) && (v =? 130) && bool_decide (is_Some (apply_frame false f ∅))
    | _ => false end = true) by by vm_compute.
  destruct demo_session as [[p [[|f|f ka c sid nid init v]|]]|]; try done.
  rewrite !andb_true_iff, negb_true_iff, !Z.eqb_eq, bool_decide_eq_true in H.
  destruct H as ((((-> & ->) & ->) & ->) & [view Hv]). by exists p, f, sid, init, view.
Qed.


Lemma first_map_exact_witness :
  ∃ r peers, initial_map demo_config demo_plane {| dpm_regions := ∅; dpm_omit_default_regions := false |} None
      (demo_node 1 [1] None) 130 = Some r ∧ r.(resp_peers) = Some peers ∧ StronglySorted peer_le peers.
Proof.
  destruct (first_map_exact demo_config demo_plane {| dpm_regions := ∅; dpm_omit_default_regions := false |} None
    (demo_node 1 [1] None) 130 demo_plane_ok) as (r & peers & H1 & H2 & H3 & _).
  exists r, peers. split; [exact H1|]. split; [exact H2|exact H3].
Defined.

Lemma map_request_writes_own_witness :
  ∃ p x, demo_session = Some (p, Ok x)
    ∧ ∃ i before after, demo_p'.(cp_store).(st_nodes) !! i = Some before
        ∧ p.(cp_store).(st_nodes) = <[i := after]> demo_p'.(cp_store).(st_nodes)
        ∧ node_facts after = node_facts before.
Proof.
  destruct demo_session_opens as (p & f & sid & init & view & E & _). eexists p, _. split; [exact E|].
  destruct (map_request_writes_own demo_config 10 (demo_ambient 120 1) [7] (demo_map_request true None)
    demo_p' p _ (demo_reached _) E) as (i & before & after & H1 & _ & _ & H2 & H3 & _).
  exists i, before, after. split; [exact H1|]. split; [exact H2|exact H3].
Defined.

(** A plane of one node that a tagged key let in. *)
Definition demo_tagged_row : DomainNode :=
  set_dn_stable_id (str "n1") (set_dn_id 1
    (new_node demo_config (demo_ambient 100 1) [7] (demo_request [1] None) 1 (Some [str "tag:web"]) false
       0x64400001 1)).

Definition demo_one (n : DomainNode) : ControlPlane :=
  ControlPlane_fields demo_config (with_nodes {[1 := n]} Store_empty).

Lemma tagged_node_cannot_update_witness :
  let p := demo_one demo_tagged_row in
  handle_map demo_config 10 (demo_ambient 120 1) [7] (demo_map_request false (Some (demo_hostinfo None))) p
    = Some (p, Err UNOWNED)
  ∧ relogin demo_config 10 (demo_ambient 120 1) demo_tagged_row (demo_request [1] None) p = Some (p, Err UNOWNED).
Proof.
  intros p. destruct (tagged_node_cannot_update demo_config 10 (demo_ambient 120 1)
    (demo_map_request false (Some (demo_hostinfo None))) (demo_hostinfo None) p demo_tagged_row (str "tag:web") [])
    as [H1 H2]; [by vm_compute..|].
  split; [exact H1|]. by apply H2.
Defined.

Lemma ssh_policy_not_withdrawn_witness :
  let p := demo_one demo_tagged_row in
  let batch := {| batch_events := [PolicyChanged] |} in
  let kept := Some {| wire_rules := [] |} in
  ∃ p' sent' o, build_delta demo_config 10 1 batch SessionPeers_new 130 p = Some (p', Ok (sent', Some o))
    ∧ ssh_after kept (Some o) = kept.
Proof.
  intros p batch kept.
  assert (H : match build_delta demo_config 10 1 batch SessionPeers_new 130 p with
              | Some (_, Ok (_, Some _)) => true | _ => false end = true) by by vm_compute.
  destruct (build_delta demo_config 10 1 batch SessionPeers_new 130 p) as [[p' [[s [o|]]|]]|] eqn:E; try done.
  exists p', s, o. split; [reflexivity|].
  apply (ssh_policy_not_withdrawn demo_config 10 1 batch SessionPeers_new 130 p p' s (Some o) demo_tagged_row kept);
    [by vm_compute..|exact E].
Defined.

Lemma dns_names_every_node_witness :
  ∃ d, build_dns_config demo_config (demo_one demo_tagged_row) = Some d
    ∧ {| rec_name := str "node.tailnet.example."; rec_type := str "A"; rec_class := 1; rec_ttl := 300;
         rec_value := str "100.64.0.1" |} ∈ d.(dns_extra_records).
Proof.
  destruct (build_dns_config demo_config (demo_one demo_tagged_row)) as [d|] eqn:E; [|done].
  exists d. split; [reflexivity|].
  apply (dns_names_every_node demo_config (demo_one demo_tagged_row) d demo_tagged_row (str "100.64.0.1/32"));
    [done|exact E|by left|by left|by vm_compute].
Defined.
