(* ===== verification/Flows.v ===== *)
(** * Registration from end to end

    That the flows complete: a created pre-auth key admits the node that
    presents it, an interactive registration that is approved admits the node
    that follows it up. *)

From S2P Require Import Prelude Text Net IpText PolicyModel PolicyTags ProtoFrame ProtoKey IpAlloc Pending Sessions Events NetMap PreAuth Store Dns Control Registration MapRequest Demo SshCheck PlaneInv Admission Security.

(** There is room for a node with this key: no node has the key, the allocator
    draws free addresses, and a row is free. *)
Record room `{Sqlite} (cfg : ControlConfig) (amb : Ambient) (node_key : bytes) (s : Store)
    (i x y : Z) : Prop := {
  room_key j n : s.(st_nodes) !! j = Some n → n.(dn_node_key) ≠ node_key;
  room_addresses :
    allocate cfg.(cfg_allocator) (used_addresses (list_nodes s)).1 (used_addresses (list_nodes s)).2
      amb.(am_draws4) amb.(am_draws6) = Ok (x, y);
  room_row : row_free i s;
}.

Section flows.
  Context `{Q : Sqlite, !SqliteLaws Q, C : KeyCrypto, !KeyCryptoLaws C, T : Rfc3339}.
  Context (cfg : ControlConfig) (stack : nat).

(** The row that a joining node gets. *)
Definition joined_node (amb : Ambient) (m : bytes) (rq : RegisterRequest) (o : Z)
    (ts : option (list text)) (eph : bool) (i x y : Z) : DomainNode :=
  set_dn_stable_id (show_stable_id i) (set_dn_id i (new_node cfg amb m rq o ts eph x y)).

Definition joined_store (i : Z) (n : DomainNode) (s : Store) : Store :=
  with_rowid i (with_nodes (<[i := n]> s.(st_nodes)) s).

Lemma get_node_none k s :
  (∀ j n, s.(st_nodes) !! j = Some n → n.(dn_node_key) ≠ k) ↔ row_id (by_node_key k) s.(st_nodes) = None.
Proof.
  rewrite row_id_None. unfold by_node_key. split; intros Hn j n Hj.
  - by apply bool_decide_eq_false, (Hn j).
  - specialize (Hn j n Hj). by apply bool_decide_eq_false in Hn.
Qed.

Lemma join_run {A} amb m rq o ts eph p i x y (k : DomainNode → handler A) :
  room cfg amb rq.(rq_node_key) p.(cp_store) i x y →
  ((∃ t l, ts = Some (t :: l)) ∨ is_Some (p.(cp_store).(st_users) !! o)) →
  (let! node := create_node_from_request cfg amb m rq o ts eph in
   let! node := exec (upsert_node node) in k node) p
  = k (joined_node amb m rq o ts eph i x y)
      (set_store (joined_store i (joined_node amb m rq o ts eph i x y) p.(cp_store)) p).
Proof.
  intros [Hk Ha Hr] Ho. unfold create_node_from_request. unfold hbind at 1 2, ask.
  destruct (used_addresses (list_nodes (cp_store p))) as [u4 u6]. cbn [fst snd] in Ha.
  unfold hbind at 1, of_result. rewrite Ha. cbn [map_err]. unfold hret at 1.
  unfold hbind, exec. rewrite (upsert_new_ok _ _ i); [done| |done|done|done|].
  - apply get_node_none. apply Hk.
  - unfold owner_exists. cbn [new_node dn_user_id]. destruct ts as [[|t l]|]; [|done|];
      (destruct Ho as [(? & ? & [=])|[u ->]]; done).
Qed.

(** *** The bootstrap leaves what is there *)

Lemma created_key_row k s s' k' :
  insert_pre_auth_key k s = (s', Ok k') →
  ∃ i, s.(st_keys) !! i = None ∧ k' = set_ak_id i k
    ∧ s' = with_rowid i (with_keys (<[i := set_ak_id i k]> s.(st_keys)) s)
    ∧ is_Some (s.(st_users) !! k.(ak_user_id))
    ∧ ∀ j r, s.(st_keys) !! j = Some r → r.(ak_prefix) ≠ k.(ak_prefix).
Proof.
  unfold insert_pre_auth_key. destruct (taken _ _ _) eqn:Ht; [done|].
  destruct (insert_row _ _ _) as [[i t]|] eqn:Hi; [|done]. apply insert_row_Ok in Hi as [Hfree ->].
  destruct (st_users s !! ak_user_id k) as [u|] eqn:Hu; [|done]. intros [= <- <-].
  exists i. split_and!; try done. intros j r Hr.
  by apply (taken_ne ak_prefix _ None (st_keys s) Ht j r).
Qed.

Lemma get_key_insert prefix i k s :
  unique_on ak_prefix s.(st_keys) → s.(st_keys) !! i = None →
  (∀ j r, s.(st_keys) !! j = Some r → r.(ak_prefix) ≠ k.(ak_prefix)) →
  get_pre_auth_key prefix (with_rowid i (with_keys (<[i := k]> s.(st_keys)) s))
  = if bool_decide (k.(ak_prefix) = prefix) then Some k else get_pre_auth_key prefix s.
Proof.
  intros Hu Hi Hne. unfold get_pre_auth_key. cbn [with_rowid with_keys st_keys].
  assert (Hu' : unique_on ak_prefix (<[i := k]> (st_keys s))).
  { apply unique_on_insert; [done|]. intros j r _. apply Hne. }
  unfold by_prefix. case_bool_decide as Hp.
  - apply (unique_query_row ak_prefix); [done|]. exists i. by rewrite lookup_insert_eq.
  - destruct (query_row (λ r, bool_decide (ak_prefix r = prefix)) (st_keys s)) as [r|] eqn:E.
    + apply (unique_query_row ak_prefix) in E as (j & Hj & Hr); [|done].
      apply (unique_query_row ak_prefix); [done|]. exists j. split; [|done].
      rewrite lookup_insert_ne; [done|]. by intros ->; rewrite Hi in Hj.
    + destruct (query_row _ (<[i:=k]> (st_keys s))) as [r|] eqn:E'; [|done].
      apply (unique_query_row ak_prefix) in E' as (j & Hj & Hr); [|done].
      apply lookup_insert_Some in Hj as [[<- ->]|[_ Hj]]; [done|].
      assert (Hx : query_row (λ r, bool_decide (ak_prefix r = prefix)) (st_keys s) = Some r); [|congruence].
      apply (unique_query_row ak_prefix); [done|]. by exists j.
Qed.

(** A store that only gains users, logins and keys. *)
Record gains (s s' : Store) : Prop := {
  ga_inv : store_inv s';
  ga_nodes : s'.(st_nodes) = s.(st_nodes);
  ga_pending : s'.(st_pending) = s.(st_pending);
  ga_users : s.(st_users) ⊆ s'.(st_users);
  ga_logins : s.(st_logins) ⊆ s'.(st_logins);
  ga_keys prefix key : get_pre_auth_key prefix s = Some key → get_pre_auth_key prefix s' = Some key;
}.

Definition keeps_gains (s s' : Store) : Prop := store_inv s → gains s s'.

#[local] Instance keeps_gains_preorder : PreOrder keeps_gains.
Proof.
  split; [by intros s Hs; split|]. intros s t u H1 H2 Hs. specialize (H1 Hs).
  destruct (H2 (ga_inv _ _ H1)) as [? En Ep ? ? Hk], H1 as [? En1 Ep1 ? ? Hk1].
  split; try done; [by rewrite En|by rewrite Ep|by trans (st_users t)|by trans (st_logins t)|].
  intros prefix key Hg. by apply Hk, Hk1.
Qed.

Lemma gains_create_user u : keeps (on_store keeps_gains) (exec (create_user u)).
Proof.
  apply (keeps_exec keeps_gains). intros s Hs. pose proof (inv_create_user u s Hs) as Hi.
  unfold create_user in *. destruct (taken _ _ _); [by split|].
  destruct (insert_row _ _ _) as [[i t]|] eqn:E; [|by split]. apply insert_row_Ok in E as [Hf ->].
  split; try done. by apply insert_subseteq.
Qed.

Lemma gains_create_login l : keeps (on_store keeps_gains) (exec (create_login l)).
Proof.
  apply (keeps_exec keeps_gains). intros s Hs. pose proof (inv_create_login l s Hs) as Hi.
  unfold create_login in *. destruct (taken _ _ _); [by split|].
  destruct (insert_row _ _ _) as [[i t]|] eqn:E; [|by split]. apply insert_row_Ok in E as [Hf ->].
  destruct (st_users s !! login_user_id l); [|by split]. split; try done. by apply insert_subseteq.
Qed.

Lemma gains_insert_key k : keeps (on_store keeps_gains) (exec (insert_pre_auth_key k)).
Proof.
  apply (keeps_exec keeps_gains). intros s Hs. pose proof (inv_insert_key k s Hs) as Hi.
  destruct (insert_pre_auth_key k s) as [s' [k'|e]] eqn:E.
  - apply created_key_row in E as (i & Hf & -> & -> & _ & Hne). cbn [fst] in *. split; try done.
    intros prefix key Hg. rewrite get_key_insert by (done || apply Hs). case_bool_decide as Hp; [|done].
    apply get_key_row in Hg as [Hpk [j Hj]]. exfalso. apply (Hne j key Hj). by rewrite <- Hpk in Hp.
  - assert (s' = s) as ->; [|by split].
    revert E. unfold insert_pre_auth_key. destruct (taken _ _ _); [congruence|].
    destruct (insert_row _ _ _) as [[]|]; [|congruence]. destruct (_ !! _); congruence.
Qed.

#[local] Hint Resolve gains_create_user gains_create_login gains_insert_key : keeps.

(** The configured user, login and bootstrap key only add. *)
Lemma prepared_gains amb p p1 :
  prepared cfg amb p p1 → store_inv p.(cp_store) → gains p.(cp_store) p1.(cp_store).
Proof.
  intros (p0 & E0 & E1) Hs.
  assert (H0 : keeps (on_store keeps_gains) (ensure_default_user cfg)).
  { unfold ensure_default_user. cbv zeta. keeps_steps. }
  assert (H1 : keeps (on_store keeps_gains) (ensure_bootstrap_key cfg amb)).
  { unfold ensure_bootstrap_key. keeps_steps. }
  assert (H : on_store keeps_gains p p1); [|by apply H].
  trans p0; [by apply (H0 p p0 _ E0)|by apply (H1 p0 p1 _ E1)].
Qed.

Lemma default_user_gains p p0 r :
  ensure_default_user cfg p = Some (p0, r) → store_inv p.(cp_store) → gains p.(cp_store) p0.(cp_store).
Proof.
  intros E0 Hs. assert (H0 : keeps (on_store keeps_gains) (ensure_default_user cfg)).
  { unfold ensure_default_user. cbv zeta. keeps_steps. }
  by apply (H0 p p0 _ E0).
Qed.

(** The key that [create_pre_auth_key] answers is valid. *)
Lemma created_key_valid amb prefix reusable eph tags p p1 auth now :
  wf_bytes amb.(am_salt) → zlen amb.(am_random) = SECRET_BYTES → store_inv p.(cp_store) →
  create_pre_auth_key cfg stack amb prefix reusable eph None tags p = Some (p1, Ok auth) →
  store_inv p1.(cp_store) ∧ ∃ key, valid_key now auth key p1.(cp_store)
    ∧ key.(ak_reusable) = reusable ∧ key.(ak_ephemeral) = eph ∧ key.(ak_tags) = tags
    ∧ key.(ak_user_id) = as_i64 cfg.(cfg_user_id)
    ∧ is_Some (p1.(cp_store).(st_users) !! as_i64 cfg.(cfg_user_id)).
Proof.
  intros Hsalt Hrand Hs. unfold create_pre_auth_key. unfold hbind at 1.
  destruct (ensure_default_user cfg p) as [[p0 [[]|e]]|] eqn:E0; [|done|done].
  pose proof (ga_inv _ _ (default_user_gains p p0 _ E0 Hs)) as Hs0.
  destruct (bool_decide _ || negb _) eqn:Hpre; [done|]. unfold hbind at 1.
  set (rejected := match tags with None => _ | Some _ => _ end).
  destruct (rejected p0) as [[p0' [rej|e]]|] eqn:Er; [|done|done].
  assert (p0' = p0) as ->.
  { revert Er. unfold rejected. destruct tags; [|by intros [= <-]]. unfold diverging.
    destruct (unauthorized_tags _ _ _ _); [|done]. by intros [= <-]. }
  destruct (bool_decide (rej = [])); cbn [negb]; [|done]. cbv zeta. unfold hbind at 1, exec.
  set (k := Build_PreAuthKey _ _ _ _ _ _ _ _ _ _ _).
  pose proof (inv_insert_key k _ Hs0) as Hs1.
  destruct (insert_pre_auth_key k (cp_store p0)) as [s' [k'|e]] eqn:Ei; [|done]. intros [= <- <-].
  cbn [set_store cp_store fst] in *. split; [done|].
  apply created_key_row in Ei as (i & Hf & -> & -> & Hu & Hne).
  exists (set_ak_id i k). split; [|done].
  apply orb_false_iff in Hpre as [Hp1%bool_decide_eq_false Hp2%negb_false_iff].
  exists prefix, (generate_secret amb.(am_random)). split_and!.
  - apply parse_auth_key_spec. split_and!; try done; [|by apply generate_secret_nonempty].
    intros Hin. rewrite forallb_forall in Hp2. apply list_elem_of_In in Hin. by apply Hp2 in Hin.
  - rewrite get_key_insert by (done || apply Hs0). by rewrite bool_decide_eq_true_2.
  - by apply verify_hash.
  - done.
  - by intros e.
  - by right.
Qed.

Lemma register_prepared amb m rq p p1 :
  prepared cfg amb p p1 →
  register_body cfg stack amb m rq p =
    (if negb (bool_decide (rq.(rq_followup) = [])) then poll_followup cfg amb m rq
     else let! known := ask (get_node_by_node_key rq.(rq_node_key)) in
          match known with
          | Some node => register_known cfg stack amb m rq node
          | None => register_new cfg amb m rq
          end) p1.
Proof. intros (p0 & E0 & E1). unfold register_body. unfold hbind at 1. rewrite E0. unfold hbind at 1. by rewrite E1. Qed.

Lemma get_node_new k s :
  (∀ j n, s.(st_nodes) !! j = Some n → n.(dn_node_key) ≠ k) → get_node_by_node_key k s = None.
Proof.
  intros Hn. unfold get_node_by_node_key. rewrite query_row_id. by rewrite (proj1 (get_node_none _ _) Hn).
Qed.

(** A valid key is used up without an error. *)
Lemma mark_run key p :
  ids_ok ak_id p.(cp_store).(st_keys) → (∃ i, p.(cp_store).(st_keys) !! i = Some key) →
  ∃ p', (if negb key.(ak_reusable) then exec (mark_pre_auth_key_used key.(ak_id)) else hret ()) p = Some (p', Ok ())
    ∧ p'.(cp_store).(st_nodes) = p.(cp_store).(st_nodes).
Proof.
  intros Hi [i Hk]. destruct (ak_reusable key); cbn [negb]; [by exists p|].
  unfold exec, mark_pre_auth_key_used. rewrite (Hi i key Hk), Hk. cbn [map_err].
  eexists. split; [done|]. done.
Qed.

Lemma join_with_key_run amb m rq auth now key p i x y :
  store_inv p.(cp_store) → valid_key now auth key p.(cp_store) →
  requested_tags rq.(rq_hostinfo) = [] → room cfg amb rq.(rq_node_key) p.(cp_store) i x y →
  ∃ p', join_with_key cfg amb m rq key p = Some (p', Ok (authorized_response cfg))
    ∧ p'.(cp_store).(st_nodes) !! i
      = Some (joined_node amb m rq key.(ak_user_id) key.(ak_tags) key.(ak_ephemeral) i x y).
Proof.
  intros Hs (pr & se & _ & Hg & _) Ht Hroom. unfold join_with_key.
  rewrite Ht, andb_comm, (bool_decide_eq_true_2 ([] = [])) by done. cbn [negb andb].
  apply get_key_row in Hg as [_ Hrow].
  rewrite (join_run _ _ _ _ _ _ _ i x y); [|done|].
  2: { right. destruct Hrow as [j Hj]. exact (si_key_users _ Hs j key Hj). }
  set (n := joined_node _ _ _ _ _ _ _ _ _). unfold hbind at 1, publish_change, modify.
  set (q := set_events _ _).
  destruct (mark_run key q) as (p' & Hm & Hn); [exact (si_key_ids _ Hs)|exact Hrow|].
  unfold hbind at 1. rewrite Hm. exists p'. split; [done|]. rewrite Hn. apply lookup_insert_eq.
Qed.

Lemma register_new_run amb m rq auth key p i x y :
  store_inv p.(cp_store) → rq.(rq_auth) = Some auth → rq.(rq_expiry) = [] →
  valid_key amb.(am_now) auth key p.(cp_store) → requested_tags rq.(rq_hostinfo) = [] →
  room cfg amb rq.(rq_node_key) p.(cp_store) i x y →
  ∃ p', register_new cfg amb m rq p = Some (p', Ok (authorized_response cfg))
    ∧ p'.(cp_store).(st_nodes) !! i
      = Some (joined_node amb m rq key.(ak_user_id) key.(ak_tags) key.(ak_ephemeral) i x y).
Proof.
  intros Hs Ha He Hv Ht Hroom. unfold register_new. rewrite Ha, He. unfold hbind at 1.
  destruct (validated_run auth (am_now amb) p) as (o & -> & Ho). rewrite (proj2 (Ho key) Hv).
  cbv zeta. rewrite (bool_decide_eq_true_2 ([] = [])), andb_false_r by done. cbn [andb].
  by eapply join_with_key_run.
Qed.

(** *** The interactive flow *)

Lemma strip_prefix_slash q s : 47 ∈ q → 47 ∉ s → strip_prefix q s = None.
Proof.
  intros Hq Hs. destruct (strip_prefix q s) as [r|] eqn:E; [|done].
  apply strip_prefix_Some in E as ->. set_solver.
Qed.

Lemma after_last_none s : 47 ∉ s → after_last REGISTER_MARKER s = None.
Proof.
  induction s as [|c s IH]; intros Hs; cbn [after_last]; [done|].
  rewrite IH by set_solver. apply strip_prefix_slash; [by vm_compute; left|done].
Qed.

(** The URL of an interactive registration names its auth id. *)
Lemma followup_url url id :
  47 ∉ id → id ≠ [] → auth_id_from_followup (url ++ REGISTER_MARKER ++ id) = Some id.
Proof.
  intros Hs Hn. unfold auth_id_from_followup.
  assert (Hbase : after_last REGISTER_MARKER (REGISTER_MARKER ++ id) = Some id).
  { assert (Htail : after_last REGISTER_MARKER (str "register/" ++ id) = None).
    { change (str "register/") with [114; 101; 103; 105; 115; 116; 101; 114; 47]. cbn [app after_last].
      rewrite (after_last_none id Hs). unfold REGISTER_MARKER at 1.
      change (str "/register/") with (47 :: str "register/"). cbn [strip_prefix]. rewrite Z.eqb_refl.
      by rewrite (strip_prefix_slash (str "register/") id) by (done || by vm_compute; set_solver). }
    change (REGISTER_MARKER ++ id) with (47 :: (str "register/" ++ id)). cbn [after_last].
    rewrite Htail. change (47 :: str "register/" ++ id) with (REGISTER_MARKER ++ id).
    apply strip_prefix_app. }
  assert (Hall : after_last REGISTER_MARKER (url ++ REGISTER_MARKER ++ id) = Some id).
  { induction url as [|c url IH]; [done|]. cbn [app after_last]. by rewrite IH. }
  rewrite Hall. cbn [mbind option_bind]. by rewrite bool_decide_eq_false_2.
Qed.

Lemma get_saved e s s' :
  store_inv s → save_pending e s = (s', Ok ()) → get_pending e.(p_auth_id) s' = Some e.
Proof.
  intros Hs E. pose proof (inv_save_pending e s Hs) as Hs'. rewrite E in Hs'. cbn [fst] in Hs'.
  unfold get_pending, by_auth_id. apply (unique_query_row p_auth_id); [apply Hs'|].
  unfold save_pending in E. destruct (row_id _ _) as [i|].
  - injection E as <-. exists i. cbn [with_pending st_pending]. by rewrite lookup_insert_eq.
  - destruct (insert_row _ _ _) as [[i t]|] eqn:Hi; [|done]. injection E as <-.
    apply insert_row_Ok in Hi as [_ ->]. exists i. cbn [with_rowid with_pending st_pending].
    by rewrite lookup_insert_eq.
Qed.

(** The room for a node only depends on the nodes. *)
Lemma room_nodes amb k s s' i x y :
  s'.(st_nodes) = s.(st_nodes) → room cfg amb k s i x y → room cfg amb k s' i x y.
Proof.
  intros E [H1 H2 H3]. split; [by rewrite E| |].
  - unfold list_nodes in *. by rewrite E.
  - unfold row_free in *. by rewrite E.
Qed.

Lemma delete_pending_others a s :
  ∃ t, (delete_pending a s) = (with_pending t s, Ok ()).
Proof.
  unfold delete_pending. destruct (row_id _ _) as [i|]; [by eexists|].
  exists s.(st_pending). by destruct s.
Qed.

(** An approved entry admits its machine. *)
Lemma poll_run amb m rq p id e u ts i x y :
  auth_id_from_followup rq.(rq_followup) = Some id → get_pending id p.(cp_store) = Some e →
  e.(p_machine_key) = m → is_past e.(p_expires_at) amb.(am_now) = false →
  e.(p_verdict) = VApproved u ts → is_Some (p.(cp_store).(st_users) !! u) →
  room cfg amb e.(p_node_key) p.(cp_store) i x y →
  ∃ p', poll_followup cfg amb m rq p = Some (p', Ok (authorized_response cfg))
    ∧ p'.(cp_store).(st_nodes) !! i
      = Some (joined_node amb m (approved_request e) u ts e.(p_ephemeral) i x y)
    ∧ p'.(cp_store).(st_users) = p.(cp_store).(st_users).
Proof.
  intros Hid Hget Hm Hp Hv Hu Hroom. unfold poll_followup. rewrite Hid.
  unfold get_pending_entry. unfold hbind at 1, hbind at 1, ask at 1. rewrite Hget.
  unfold hbind at 1, pending_insert, modify, hret at 1. rewrite bool_decide_eq_true_2 by done.
  cbn [negb]. rewrite Hp, Hv. unfold hbind at 1, remove_pending_entry.
  unfold hbind at 1, pending_remove, modify, exec.
  set (q := set_pending_cache _ _). destruct (delete_pending_others id (cp_store q)) as [t ->].
  cbn [map_err]. set (q' := set_store _ q). unfold join_approved. unfold hbind at 1, ask.
  assert (Hroom' : room cfg amb (rq_node_key (approved_request e)) (cp_store q') i x y).
  { eapply room_nodes; [|exact Hroom]. done. }
  rewrite (get_node_new (p_node_key e) (cp_store q') (room_key _ _ _ _ _ _ _ Hroom')). cbv zeta.
  rewrite (join_run _ _ _ _ _ _ _ i x y); [|done|by right].
  eexists. split; [done|]. split; [apply lookup_insert_eq|done].
Qed.

Lemma save_pending_others e s s' :
  save_pending e s = (s', Ok ()) → s'.(st_nodes) = s.(st_nodes) ∧ s'.(st_users) = s.(st_users).
Proof.
  unfold save_pending. destruct (row_id _ _); [by intros [= <-]|].
  destruct (insert_row _ _ _) as [[]|]; [by intros [= <-]|done].
Qed.

(** A request that an interactive registration answers leaves its entry. *)
Lemma start_run amb m rq p p0 p1 r :
  prepared cfg amb p p0 → store_inv p.(cp_store) →
  (∀ j n, p0.(cp_store).(st_nodes) !! j = Some n → n.(dn_node_key) ≠ rq.(rq_node_key)) →
  rq.(rq_followup) = [] → rq.(rq_auth) = None → rq.(rq_expiry) = [] →
  register cfg stack amb m rq p = Some (p1, r) → r.(rs_auth_url) ≠ [] →
  let id := generate_secret amb.(am_random) in
  r = auth_url_response cfg id ∧ store_inv p1.(cp_store)
  ∧ get_pending id p1.(cp_store) = Some (new_pending cfg amb id m rq).
Proof.
  intros Hprep Hs Hnew Hf Ha He. cbv zeta.
  pose proof (ga_inv _ _ (prepared_gains amb p p0 Hprep Hs)) as Hs0.
  unfold register. rewrite (register_prepared amb m rq p p0 Hprep), Hf, bool_decide_eq_true_2 by done.
  cbn [negb]. unfold hbind at 1, ask. rewrite (get_node_new _ _ Hnew).
  unfold register_new. rewrite Ha, He. unfold hbind at 1, hret at 1. cbv zeta.
  rewrite (bool_decide_eq_true_2 ([] = [])), andb_false_r by done. cbn [andb].
  unfold start_interactive. cbv zeta. unfold hbind at 1, pending_insert, modify, hbind, exec.
  cbn [set_pending_cache cp_store]. set (e := new_pending cfg amb _ m rq).
  destruct (save_pending e (cp_store p0)) as [s' [[]|err]] eqn:Esave; cbn [map_err]; [|by intros [= <- <-]].
  intros [= <- <-] _. cbn [set_store cp_store]. split; [done|]. split.
  - pose proof (inv_save_pending e _ Hs0) as Hi. by rewrite Esave in Hi.
  - by apply (get_saved e (cp_store p0) s').
Qed.

Lemma resolve_run amb name p p' u :
  store_inv p.(cp_store) → resolve_user_id amb name p = Some (p', Ok u) →
  store_inv p'.(cp_store) ∧ p'.(cp_store).(st_nodes) = p.(cp_store).(st_nodes)
  ∧ p'.(cp_store).(st_pending) = p.(cp_store).(st_pending)
  ∧ ∃ usr, p'.(cp_store).(st_users) !! u = Some usr ∧ usr.(user_login_name) = name.
Proof.
  intros Hs. unfold resolve_user_id, hbind, ask.
  destruct (get_user_by_login_name name (cp_store p)) as [usr|] eqn:Hu.
  - intros [= <- <-]. apply (unique_query_row user_login_name) in Hu as (i & Hi & Hn); [|apply Hs].
    rewrite (si_user_ids _ Hs i usr Hi). split_and!; try done. by exists usr.
  - unfold exec. set (new := Build_User _ _ _ _). pose proof (inv_create_user new _ Hs) as Hi.
    unfold create_user in *. destruct (taken _ _ _); [done|].
    destruct (insert_row _ _ _) as [[i t]|] eqn:E; [|done]. apply insert_row_Ok in E as [_ ->].
    cbn [map_err]. intros [= <- <-]. cbn [fst set_store cp_store] in *. split; [done|].
    split; [done|]. split; [done|]. eexists. split; [apply lookup_insert_eq|done].
Qed.

(** An approval leaves the entry approved, for an existing user. *)
Lemma approve_run amb id name p p' e :
  store_inv p.(cp_store) → get_pending id p.(cp_store) = Some e →
  approve_pending cfg stack amb id name p = Some (p', Ok ()) →
  store_inv p'.(cp_store) ∧ p'.(cp_store).(st_nodes) = p.(cp_store).(st_nodes)
  ∧ ∃ u ts usr, get_pending id p'.(cp_store) = Some (set_verdict (VApproved u ts) e)
      ∧ p'.(cp_store).(st_users) !! u = Some usr ∧ usr.(user_login_name) = name
      ∧ (requested_tags e.(p_hostinfo) = [] → ts = None).
Proof.
  intros Hs Hget. assert (Hid : e.(p_auth_id) = id).
  { apply (unique_query_row p_auth_id) in Hget as (i & _ & Hi); [done|apply Hs]. }
  unfold approve_pending, live_pending_entry, get_pending_entry.
  unfold hbind at 1, hbind at 1, hbind at 1, ask at 1. rewrite Hget.
  unfold hbind at 1, pending_insert, modify, hret at 1.
  destruct (is_past _ _).
  { unfold hbind at 1, remove_pending_entry, hbind at 1, pending_remove, modify, exec.
    set (q := set_pending_cache (pc_remove id _).1 _).
    by destruct (delete_pending_others id (cp_store q)) as [t ->]. }
  unfold hret at 1. set (q := set_pending_cache _ _). unfold hbind at 1.
  destruct (resolve_user_id amb name q) as [[q1 [u|err]]|] eqn:Er; [|done|done].
  apply resolve_run in Er as (Hs1 & Hn1 & _ & usr & Hu & Hl); [|done].
  cbv zeta. unfold hbind at 1. set (tagged := if bool_decide (requested_tags _ = []) then _ else _).
  destruct (tagged q1) as [[q2 [ts|err]]|] eqn:Et; [|done|done].
  assert (q2 = q1 ∧ (requested_tags e.(p_hostinfo) = [] → ts = None)) as [-> Hts].
  { revert Et. unfold tagged. case_bool_decide; [by intros [= <- <-]|].
    unfold hbind, diverging. destruct (unauthorized_tags _ _ _ _); [|done]. cbn [mbind option_bind].
    destruct (negb _); [done|]. by intros [= <- <-]. }
  unfold save_verdict. cbv zeta. unfold hbind, pending_insert, modify, exec.
  cbn [set_pending_cache cp_store]. set (e' := set_verdict _ e).
  destruct (save_pending e' (cp_store q1)) as [s' [[]|err]] eqn:Esave; [|done]. intros [= <-].
  cbn [set_store cp_store]. destruct (save_pending_others _ _ _ Esave) as [En Eu].
  split; [pose proof (inv_save_pending e' _ Hs1) as Hi; by rewrite Esave in Hi|].
  split; [by rewrite En, Hn1|]. exists u, ts, usr. rewrite Eu. split; [|done].
  rewrite <- Hid. by apply (get_saved e' (cp_store q1) s').
Qed.

End flows.


(** C14. The interactive flow admits: a new node that asks without a key
    is sent to a URL; once the registration behind it is approved for a user,
    the same machine, following up that URL before the entry expires, is
    authorized, and its node is stored with that user as its owner. *)
Theorem interactive_flow_admits `{Q : Sqlite, !SqliteLaws Q, C : KeyCrypto, !KeyCryptoLaws C, T : Rfc3339}
    cfg stack amb1 amb2 amb3 m rq rq' name p p0 p1 p2 p3 r i x y :
  let id := generate_secret amb1.(am_random) in
  store_inv p.(cp_store) → wf_bytes amb1.(am_random) → zlen amb1.(am_random) = SECRET_BYTES →
  prepared cfg amb1 p p0 →
  (∀ j n, p0.(cp_store).(st_nodes) !! j = Some n → n.(dn_node_key) ≠ rq.(rq_node_key)) →
  rq.(rq_followup) = [] → rq.(rq_auth) = None → rq.(rq_expiry) = [] →
  requested_tags rq.(rq_hostinfo) = [] →
  register cfg stack amb1 m rq p = Some (p1, r) → r.(rs_auth_url) ≠ [] →
  approve_pending cfg stack amb2 id name p1 = Some (p2, Ok ()) →
  prepared cfg amb3 p2 p3 → rq'.(rq_followup) = r.(rs_auth_url) →
  is_past (amb1.(am_plus_seconds) cfg.(cfg_pending_ttl_seconds)) amb3.(am_now) = false →
  room cfg amb3 rq.(rq_node_key) p3.(cp_store) i x y →
  ∃ p4 n u usr, register cfg stack amb3 m rq' p2 = Some (p4, authorized_response cfg)
    ∧ p4.(cp_store).(st_nodes) !! i = Some n ∧ n.(dn_node_key) = rq.(rq_node_key)
    ∧ n.(dn_machine_key) = m ∧ n.(dn_machine_authorized) = true ∧ n.(dn_user_id) = Some u
    ∧ p4.(cp_store).(st_users) !! u = Some usr ∧ usr.(user_login_name) = name.
Proof.
  intros id Hs Hwf Hlen Hprep Hnew Hf Ha He Ht Hreg Hurl Happ Hprep' Hf' Hpast Hroom.
  destruct (start_run cfg stack amb1 m rq p p0 p1 r Hprep Hs Hnew Hf Ha He Hreg Hurl) as (-> & Hs1 & Hget).
  fold id in Hget, Hf'. cbn [auth_url_response rs_auth_url] in Hf'.
  destruct (approve_run cfg stack amb2 id name p1 p2 _ Hs1 Hget Happ) as (Hs2 & _ & u & ts & usr & Hget2 & Hu & Hn & Hts).
  pose proof (prepared_gains cfg amb3 p2 p3 Hprep' Hs2) as Hg.
  assert (Hid : auth_id_from_followup rq'.(rq_followup) = Some id).
  { rewrite Hf'. apply followup_url; [|by apply generate_secret_nonempty].
    intros Hc. by apply (hex_encode_plain _ 47 Hwf) in Hc. }
  assert (Hu3 : p3.(cp_store).(st_users) !! u = Some usr) by (by eapply lookup_weaken, (ga_users _ _ Hg)).
  destruct (poll_run cfg amb3 m rq' p3 id (set_verdict (VApproved u ts) (new_pending cfg amb1 id m rq)) u ts i x y)
    as (p4 & Hpoll & Hrow & Husers); try done.
  { unfold get_pending in *. by rewrite (ga_pending _ _ Hg). }
  exists p4. eexists. exists u, usr. split.
  { unfold register. rewrite (register_prepared cfg stack amb3 m rq' p2 p3 Hprep').
    rewrite bool_decide_eq_false_2; [cbn [negb]; by rewrite Hpoll|].
    intros E. by rewrite E in Hid. }
  split; [exact Hrow|]. rewrite (Hts Ht). rewrite Husers. by split_and!.
Qed.

(** ** Examples *)

(** The plane that [prepared] speaks of, when it exists. *)
Definition prepare `{Sqlite, KeyCrypto} (cfg : ControlConfig) (amb : Ambient) (p : ControlPlane) : ControlPlane :=
  match ensure_default_user cfg p with
  | Some (p0, Ok _) => match ensure_bootstrap_key cfg amb p0 with Some (p1, Ok _) => p1 | _ => p end
  | _ => p
  end.

Lemma prepare_prepared `{Sqlite, KeyCrypto} cfg amb p :
  match ensure_default_user cfg p with
  | Some (p0, Ok _) => match ensure_bootstrap_key cfg amb p0 with Some (_, Ok _) => true | _ => false end
  | _ => false
  end = true → prepared cfg amb p (prepare cfg amb p).
Proof.
  unfold prepare, prepared. destruct (ensure_default_user cfg p) as [[p0 [[]|]]|]; [|done|done].
  destruct (ensure_bootstrap_key cfg amb p0) as [[p1 [[]|]]|] eqn:E; [|done|done]. by exists p0.
Qed.

Lemma no_nodes (P : Z → DomainNode → Prop) s :
  s.(st_nodes) = ∅ → ∀ j n, s.(st_nodes) !! j = Some n → P j n.
Proof. intros -> j n. by rewrite lookup_empty. Qed.

Lemma demo_room amb k s :
  s.(st_nodes) = ∅ →
  allocate demo_allocator ∅ ∅ amb.(am_draws4) amb.(am_draws6)
    = Ok (0x64400003, 0xfd7a115ca1e0 * 2 ^ 80 + 3) →
  room demo_config amb k s 1 0x64400003 (0xfd7a115ca1e0 * 2 ^ 80 + 3).
Proof.
  intros Hn Ha. split; [by apply (no_nodes (λ _ n, dn_node_key n ≠ k))| |].
  - unfold list_nodes. rewrite Hn. exact Ha.
  - split; [by rewrite Hn|].
    by apply (no_nodes (λ _ r, dn_stable_id r ≠ [] ∧ dn_stable_id r ≠ show_stable_id 1)).
Qed.


Definition demo_approved_p : ControlPlane :=
  from_option fst demo_start
    (approve_pending demo_config 10 (demo_ambient 110 4) demo_asked_id (str "bob@example.com") demo_asked_p).

Definition demo_followup : RegisterRequest :=
  {| rq_version := 130; rq_node_key := [5]; rq_old_node_key := []; rq_nl_key := []; rq_auth := None;
     rq_expiry := []; rq_followup := demo_asked_r.(rs_auth_url); rq_hostinfo := None;
     rq_ephemeral := false |}.

Lemma demo_asked_eq : demo_asked = Some (demo_asked_p, demo_asked_r).
Proof.
  assert (H : match demo_asked with Some _ => true | None => false end = true) by by vm_compute.
  unfold demo_asked_p, demo_asked_r. by destruct demo_asked as [[]|].
Qed.

Lemma demo_approved_eq :
  approve_pending demo_config 10 (demo_ambient 110 4) demo_asked_id (str "bob@example.com") demo_asked_p
  = Some (demo_approved_p, Ok ()).
Proof.
  assert (H : match approve_pending demo_config 10 (demo_ambient 110 4) demo_asked_id
                      (str "bob@example.com") demo_asked_p with Some (_, Ok _) => true | _ => false end = true)
    by by vm_compute.
  unfold demo_approved_p. by destruct (approve_pending _ _ _ _ _ _) as [[? [[]|]]|].
Qed.

Lemma interactive_flow_admits_witness :
  ∃ p4 n u usr, register demo_config 10 (demo_ambient 120 2) [9] demo_followup demo_approved_p
      = Some (p4, authorized_response demo_config)
    ∧ p4.(cp_store).(st_nodes) !! 1 = Some n ∧ n.(dn_node_key) = [5]
    ∧ n.(dn_machine_key) = [9] ∧ n.(dn_machine_authorized) = true ∧ n.(dn_user_id) = Some u
    ∧ p4.(cp_store).(st_users) !! u = Some usr ∧ usr.(user_login_name) = str "bob@example.com".
Proof.
  apply (interactive_flow_admits demo_config 10 (demo_ambient 100 3) (demo_ambient 110 4)
    (demo_ambient 120 2) [9] (demo_request [5] None) demo_followup (str "bob@example.com") demo_start
    (prepare demo_config (demo_ambient 100 3) demo_start) demo_asked_p demo_approved_p
    (prepare demo_config (demo_ambient 120 2) demo_approved_p) demo_asked_r 1
    0x64400003 (0xfd7a115ca1e0 * 2 ^ 80 + 3)).
  - apply store_inv_empty.
  - unfold wf_bytes. cbn [demo_ambient am_random]. apply Forall_replicate. lia.
  - done.
  - apply prepare_prepared. by vm_compute.
  - apply (no_nodes (λ _ n, dn_node_key n ≠ [5])). by vm_compute.
  - done.
  - done.
  - done.
  - done.
  - exact demo_asked_eq.
  - by vm_compute.
  - exact demo_approved_eq.
  - apply prepare_prepared. by vm_compute.
  - done.
  - by vm_compute.
  - apply demo_room; by vm_compute.
Defined.
