(* ===== verification/Corners.v ===== *)
(** * Ownership, and the corners of registration

    The exact effect of a tag request, and the behaviours that registration
    has besides the intended one: two requests that present a single-use key at
    once, a row id that is used again, a tagged node that keeps its user, an
    approved registration for a node key that another machine has since
    registered, an identity whose email changes. *)

From S2P Require Import Prelude Text Net IpText PolicyModel PolicyTags ProtoFrame ProtoKey IpAlloc Pending Sessions Events NetMap PreAuth Store Dns Control Registration MapRequest Demo SshCheck PlaneInv Admission Security Flows.

(** ** Tag requests *)

Lemma filter_opt_Some {A} (f : A → option bool) l r :
  filter_opt f l = Some r → ∀ x, (x ∈ l → is_Some (f x)) ∧ (x ∈ r ↔ x ∈ l ∧ f x = Some true).
Proof.
  revert r. induction l as [|y l IH]; intros r; cbn [filter_opt].
  { intros [= <-] x. rewrite elem_of_nil. naive_solver. }
  intros (b & Hb & (r' & Hr & [= <-])%bind_Some)%bind_Some x. destruct (IH r' Hr x) as [H1 H2]. split.
  - intros [->|Hx]%elem_of_cons; [by eexists|by apply H1].
  - destruct b; rewrite !elem_of_cons, ?H2; [naive_solver|].
    split; [naive_solver|]. intros [[->|Hx] Hf]; [congruence|done].
Qed.

(** The tags that [login] may not use, of those requested. *)
Definition refused (stack : nat) (p : Policy) (login : option text) (t : text) : Prop :=
  match login with
  | None => True
  | Some l => user_can_use_tag stack p t l = Some false
  end.

Lemma unauthorized_tags_exact stack p login requested rejected :
  unauthorized_tags stack p login requested = Some rejected →
  (∀ t, t ∈ rejected ↔ t ∈ requested ∧ refused stack p login t)
  ∧ (∀ t, t ∈ requested → t ∉ rejected →
       ∃ l, login = Some l ∧ user_can_use_tag stack p t l = Some true).
Proof.
  unfold unauthorized_tags, refused. destruct login as [l|].
  2: { intros [= <-]. split; [naive_solver|]. intros t Ht Hn. done. }
  intros Hf. split.
  - intros t. destruct (filter_opt_Some _ _ _ Hf t) as [_ ->]. apply and_iff_compat_l.
    destruct (user_can_use_tag stack p t l) as [[]|]; cbn; naive_solver.
  - intros t Ht Hn. destruct (filter_opt_Some _ _ _ Hf t) as [Hs Hr]. exists l. split; [done|].
    specialize (Hs Ht). destruct (user_can_use_tag stack p t l) as [[]|]; [done| |by destruct Hs].
    exfalso. apply Hn, Hr. done.
Qed.



(** ** Corners *)

(** A node that returns with a tagged pre-auth key gets the key's
    tags and keeps its user: a node owned by tags and by a user. *)
Theorem tagged_reauth_keeps_owner `{Q : Sqlite, !SqliteLaws Q} cfg node key p p' r i t ts u :
  store_inv p.(cp_store) → p.(cp_store).(st_nodes) !! i = Some node → i ≠ 0 →
  node.(dn_stable_id) ≠ [] → key.(ak_tags) = Some (t :: ts) → node.(dn_user_id) = Some u →
  reauthorize cfg node key p = Some (p', r) →
  ∃ n, p'.(cp_store).(st_nodes) !! i = Some n ∧ n.(dn_tags) = Some (t :: ts) ∧ n.(dn_user_id) = Some u
    ∧ n.(dn_machine_authorized) = true.
Proof.
  intros Hs Hi H0 Hsid Ht Hu. unfold reauthorize. cbv zeta. set (n := set_dn_ephemeral _ _).
  unfold hbind at 1, exec at 1.
  rewrite (upsert_known n _ i node); try done; [|exact (si_node_ids _ Hs i node Hi)|].
  2: { unfold owner_exists, n. cbn [set_dn_ephemeral set_dn_owner dn_user_id]. rewrite Hu.
       by destruct (si_owners _ Hs i node u Hi Hu) as [? ->]. }
  cbn [map_err]. set (q := set_store _ p). intros E.
  assert (Hn : p'.(cp_store).(st_nodes) = q.(cp_store).(st_nodes)).
  { revert E. unfold hbind, publish_change, modify, hret. destruct (negb _); [|by intros [= <- <-]].
    unfold exec, mark_pre_auth_key_used. destruct (st_keys _ !! _); intros E'; simplify_eq/=; done. }
  exists n. rewrite Hn. unfold q. cbn [set_store cp_store with_nodes st_nodes]. split; [apply lookup_insert_eq|].
  unfold n. cbn [set_dn_ephemeral set_dn_owner set_dn_authorized dn_tags dn_user_id dn_machine_authorized].
  by rewrite Ht, Hu.
Qed.

(** The node of [demo_p'] logged out, and a tagged key. *)
Definition demo_tagged_key : PreAuthKey :=
  {| ak_id := 9; ak_prefix := str "t"; ak_secret_hash := []; ak_reusable := true; ak_ephemeral := false;
     ak_expiration := None; ak_revoked := false; ak_used := false; ak_tags := Some [str "tag:web"];
     ak_user_id := 1; ak_created_at := [] |}.

Lemma demo_p'_reachable : reachable demo_config 10 demo_p'.
Proof.
  apply (reach_step demo_config 10 (OpRegister (demo_ambient 110 2) [7] (demo_request [1] (Some once_key))) demo_p);
    [apply demo_reachable|].
  change (fst <$> demo_joined = Some demo_p'). by rewrite demo_joined_eq.
Qed.

(** The outcome of a handler that is known to answer [a]. *)
Lemma run_eq {A} `{EqDecision A} (m : option (ControlPlane * result A ControlError)) (p0 : ControlPlane) (a : A) :
  match m with Some (_, Ok a') => bool_decide (a' = a) | _ => false end = true →
  m = Some (from_option fst p0 m, Ok a).
Proof. by destruct m as [[p [a'|e]]|]; [intros ->%bool_decide_eq_true| |]. Qed.

Definition demo_row : DomainNode := default (demo_node []) (demo_p'.(cp_store).(st_nodes) !! 1).

Lemma tagged_reauth_keeps_owner_witness :
  ∃ p' n, reauthorize demo_config demo_row demo_tagged_key demo_p' = Some (p', Ok (authorized_response demo_config))
    ∧ p'.(cp_store).(st_nodes) !! 1 = Some n ∧ n.(dn_tags) = Some [str "tag:web"]
    ∧ n.(dn_user_id) = Some 1.
Proof.
  set (m := reauthorize demo_config demo_row demo_tagged_key demo_p').
  assert (E : m = Some (from_option fst demo_p' m, Ok (authorized_response demo_config)))
    by (apply run_eq; by vm_compute).
  destruct (tagged_reauth_keeps_owner demo_config demo_row demo_tagged_key demo_p' (from_option fst demo_p' m)
              (Ok (authorized_response demo_config)) 1 (str "tag:web") [] 1)
    as (n & H1 & H2 & H3 & _).
  - apply (reachable_sound demo_config 10), demo_p'_reachable.
  - by vm_compute.
  - done.
  - by vm_compute.
  - done.
  - by vm_compute.
  - exact E.
  - exists (from_option fst demo_p' m), n. split; [exact E|]. split; [exact H1|]. split; [exact H2|exact H3].
Defined.

(** Two requests that read a single-use key before either has
    marked it are both admitted: validation and marking are separate steps on
    the store, with nothing held between them. *)
Theorem single_use_key_race :
  let a := demo_ambient 110 2 in let b := demo_ambient 110 3 in
  let p := prepare demo_config a demo_p in
  ∃ key pa pb, key.(ak_reusable) = false
    ∧ validated_auth_key once_key a.(am_now) p = Some (p, Ok (Some key))
    ∧ validated_auth_key once_key b.(am_now) p = Some (p, Ok (Some key))
    ∧ join_with_key demo_config a [7] (demo_request [1] (Some once_key)) key p
      = Some (pa, Ok (authorized_response demo_config))
    ∧ join_with_key demo_config b [8] (demo_request [2] (Some once_key)) key pa
      = Some (pb, Ok (authorized_response demo_config))
    ∧ authorized pb.(cp_store) [1] [7] ∧ authorized pb.(cp_store) [2] [8].
Proof.
  cbv zeta. set (a := demo_ambient 110 2). set (b := demo_ambient 110 3).
  set (p := prepare demo_config a demo_p).
  set (key := default demo_tagged_key (get_pre_auth_key (str "once") p.(cp_store))).
  set (ma := join_with_key demo_config a [7] (demo_request [1] (Some once_key)) key p).
  set (pa := from_option fst p ma).
  set (mb := join_with_key demo_config b [8] (demo_request [2] (Some once_key)) key pa).
  assert (Hv : ∀ now, valid_key now once_key key p.(cp_store)).
  { intros now. exists (str "once"), (generate_secret (replicate 32 1)). split_and!; [by vm_compute..|].
    right. by vm_compute. }
  assert (Hval : ∀ now, validated_auth_key once_key now p = Some (p, Ok (Some key))).
  { intros now. destruct (validated_run once_key now p) as (o & -> & Ho).
    by rewrite (proj2 (Ho key) (Hv now)). }
  exists key, pa, (from_option fst p mb). split; [by vm_compute|]. split; [apply Hval|]. split; [apply Hval|].
  split; [apply run_eq; by vm_compute|]. split; [apply run_eq; by vm_compute|].
  split; apply authorized_facts; by vm_compute.
Qed.

(** ** Runs *)

(** The plane a run leaves, when it returns. *)
Definition ran (ops : list plane_op) : ControlPlane := default demo_start (plane_run demo_config 10 ops demo_start).

Definition boot_key : text := str "hskey-auth-boot-secret".

(** An ephemeral node connects and logs out; its row id goes to the next node. *)
Definition reuse_ops : list plane_op :=
  [OpCreateKey (demo_ambient 100 1) (str "eph") true true None None;
   OpRegister (demo_ambient 110 2) [7] (demo_request [1] (Some (format_auth_key (str "eph") (generate_secret (replicate 32 1)))));
   OpOpen 1 true 120;
   OpLogout [7] [1];
   OpRegister (demo_ambient 130 3) [8] (demo_request [2] (Some boot_key));
   OpClose 1 140].

(** The end of a session of a node that has logged out deletes the
    node that has since got its row id, which is neither ephemeral nor logged
    out. *)
Theorem reused_row_id_reaped :
  ∃ n, plane_run demo_config 10 reuse_ops demo_start = Some (ran reuse_ops)
    ∧ (ran reuse_ops).(cp_store).(st_nodes) !! 1 = Some n
    ∧ n.(dn_node_key) = [2] ∧ n.(dn_ephemeral) = false ∧ n.(dn_machine_authorized) = true
    ∧ (reap_sessions_at [1] 160 (ran reuse_ops)).1.(cp_store).(st_nodes) = ∅.
Proof.
  set (n := default (demo_node []) ((ran reuse_ops).(cp_store).(st_nodes) !! 1)). exists n. split.
  { assert (H : match plane_run demo_config 10 reuse_ops demo_start with Some _ => true | None => false end = true)
      by by vm_compute.
    unfold ran. by destruct (plane_run _ _ _ _). }
  split; [by vm_compute|]. split_and!; by vm_compute.
Qed.

(** Two machines claim a node key: one asks for an interactive registration,
    the other registers the key with a pre-auth key, and then the first
    registration is approved. *)
Definition takeover_ops : list plane_op :=
  [OpRegister (demo_ambient 100 3) [9] (demo_request [5] None);
   OpRegister (demo_ambient 110 2) [7] (demo_request [5] (Some boot_key));
   OpApprove (demo_ambient 115 4) demo_asked_id (str "bob@example.com")].

(** The followup of an approved registration takes a node key over
    from the machine that has registered it meanwhile, which no other path
    lets happen. *)
Theorem followup_takes_over_node_key :
  plane_run demo_config 10 takeover_ops demo_start = Some (ran takeover_ops)
  ∧ authorized (ran takeover_ops).(cp_store) [5] [7]
  ∧ ∃ q, plane_step demo_config 10 (OpRegister (demo_ambient 120 5) [9] demo_followup) (ran takeover_ops) = Some q
      ∧ authorized q.(cp_store) [5] [9] ∧ ¬ authorized q.(cp_store) [5] [7].
Proof.
  split.
  { assert (H : match plane_run demo_config 10 takeover_ops demo_start with Some _ => true | None => false end = true)
      by by vm_compute.
    unfold ran. by destruct (plane_run _ _ _ _). }
  split; [apply authorized_facts; by vm_compute|].
  set (q := plane_step demo_config 10 (OpRegister (demo_ambient 120 5) [9] demo_followup) (ran takeover_ops)).
  exists (default demo_start q). split.
  { assert (H : match q with Some _ => true | None => false end = true) by by vm_compute.
    by destruct q. }
  split; [apply authorized_facts; by vm_compute|].
  rewrite <- authorized_facts. apply not_true_iff_false. by vm_compute.
Qed.

(** ** Identities *)

(** A subject that comes back under an address no user has is given a new user,
    although its recorded login still names the old one. *)
Theorem oidc_subject_not_stable `{Q : Sqlite, !SqliteLaws Q} amb profile p p' uid login :
  store_inv p.(cp_store) →
  get_login_by_provider_subject (str "oidc") profile.(oidc_subject) p.(cp_store) = Some login →
  get_user_by_login_name profile.(oidc_email) p.(cp_store) = None →
  upsert_oidc_user amb profile p = Some (p', Ok uid) →
  uid ≠ login.(login_user_id)
  ∧ get_login_by_provider_subject (str "oidc") profile.(oidc_subject) p'.(cp_store) = Some login.
Proof.
  intros Hs Hlogin Huser. unfold upsert_oidc_user, hbind at 1, ask. rewrite Huser.
  unfold hbind at 1, exec, create_user. cbn [user_login_name user_id id_param].
  destruct (taken _ _ _); [done|]. destruct (insert_row _ _ _) as [[i t]|] eqn:Hi; [|done].
  apply insert_row_Ok in Hi as [Hfree ->]. cbn [map_err]. unfold hbind at 1, ask.
  match goal with |- context [get_login_by_provider_subject ?a ?b ?s] =>
    assert (Hl' : get_login_by_provider_subject a b s = Some login) by exact Hlogin end.
  cbv beta. rewrite Hl'. unfold hbind, hret. cbn [user_id]. intros [= <- <-]. split; [|exact Hl'].
  intros ->. unfold get_login_by_provider_subject in Hlogin. rewrite query_row_id in Hlogin.
  apply bind_Some in Hlogin as (j & _ & Hj). destruct (si_login_users _ Hs j login Hj) as [u Hu]. congruence.
Qed.

Definition demo_profile (email : text) : OidcProfile :=
  {| oidc_subject := str "sub-1"; oidc_email := email; oidc_display_name := str "Alice" |}.

(** The plane after a first sign-in. *)
Definition demo_signed_in : ControlPlane :=
  from_option fst demo_start (upsert_oidc_user (demo_ambient 100 1) (demo_profile (str "a@old")) demo_start).

Lemma oidc_subject_not_stable_witness :
  ∃ p' uid login, upsert_oidc_user (demo_ambient 200 1) (demo_profile (str "a@new")) demo_signed_in = Some (p', Ok uid)
    ∧ get_login_by_provider_subject (str "oidc") (str "sub-1") demo_signed_in.(cp_store) = Some login
    ∧ uid ≠ login.(login_user_id).
Proof.
  destruct (get_login_by_provider_subject (str "oidc") (str "sub-1") demo_signed_in.(cp_store)) as [login|] eqn:El.
  2: { assert (H : bool_decide (is_Some (get_login_by_provider_subject (str "oidc") (str "sub-1") demo_signed_in.(cp_store))) = true)
         by by vm_compute. by rewrite El in H. }
  destruct (upsert_oidc_user (demo_ambient 200 1) (demo_profile (str "a@new")) demo_signed_in) as [[p' [uid|e]]|] eqn:E.
  2, 3: assert (H : match upsert_oidc_user (demo_ambient 200 1) (demo_profile (str "a@new")) demo_signed_in with
                    | Some (_, Ok _) => true | _ => false end = true) by (by vm_compute); by rewrite E in H.
  exists p', uid, login. split; [reflexivity|]. split; [reflexivity|].
  refine (proj1 (oidc_subject_not_stable (demo_ambient 200 1) (demo_profile (str "a@new")) demo_signed_in p' uid login _ El _ E)).
  - assert (Hr : reachable demo_config 10 demo_signed_in).
    { apply (reach_step demo_config 10 (OpOidc (demo_ambient 100 1) (demo_profile (str "a@old"))) demo_start);
        [apply (reach_start _ _ (Err []))|].
      cbn [plane_step]. unfold left_by, demo_signed_in.
      destruct (upsert_oidc_user (demo_ambient 100 1) (demo_profile (str "a@old")) demo_start) eqn:Eo; [done|].
      assert (H : bool_decide (is_Some (fst <$> upsert_oidc_user (demo_ambient 100 1) (demo_profile (str "a@old")) demo_start)) = true)
        by by vm_compute. by rewrite Eo in H. }
    apply (reachable_sound demo_config 10 _ Hr).
  - by vm_compute.
Defined.
