(* ===== verification/Metrics.v ===== *)
(** * Counters ([crabscale-metrics/src/lib.rs])

    The registry of the process, its page, and the two kinds of cells.  A counter is
    one atomic addition.  [Gauge::add] is a loop of a load and a compare-and-swap that
    other tasks interleave with, so a gauge is a transition system: the values it took
    in their modification order, and what the tasks inside [add] last read.  A relaxed
    load may read any value of that order; only the exchange reads the last one. *)

From S2P Require Import Prelude Text Url.

Inductive MetricKind : Type := Counter | Gauge.

Record Family : Type := { fm_kind : MetricKind; fm_name : text; fm_help : text }.

(** [Counter::inc_by] and [Counter::inc] *)
Definition inc_by (n value : Z) : Z := wrap 64 (value + n).
Definition inc (value : Z) : Z := inc_by 1 value.

(** The value [Gauge::add] writes. *)
Definition gauge_next (current delta : Z) : Z := wrap 64 (Z.max (current + delta) 0).

(** ** The registry *)

Record Metrics : Type := {
  sessions_active : Z;
  sessions_opened_total : Z;
  sessions_closed_total : Z;
  registrations_total : Z;
  policy_compiles_total : Z;
  derp_packets_total : Z;
  derp_packets_dropped_total : Z }.

Definition counter (name help : string) : Family := {| fm_kind := Counter; fm_name := str name; fm_help := str help |}.
Definition gauge (name help : string) : Family := {| fm_kind := Gauge; fm_name := str name; fm_help := str help |}.

(** [registry]: the families with the cell of each, in the order of the page. *)
Definition registry : list (Family * (Metrics → Z)) :=
  [(counter "crabscale_sessions_opened_total" "Total control-plane map sessions opened.", sessions_opened_total);
   (counter "crabscale_sessions_closed_total" "Total control-plane map sessions closed.", sessions_closed_total);
   (gauge "crabscale_sessions_active" "Number of live control-plane map sessions.", sessions_active);
   (counter "crabscale_registrations_total" "Total registration requests processed by the control plane.",
      registrations_total);
   (counter "crabscale_policy_compiles_total" "Total policy compilations performed by the control plane.",
      policy_compiles_total);
   (counter "crabscale_derp_packets_total" "Total DERP packets relayed between clients.", derp_packets_total);
   (counter "crabscale_derp_packets_dropped_total" "Total DERP packets dropped by the relay (e.g. oversize payload).",
      derp_packets_dropped_total)].

Definition kind_text (k : MetricKind) : text := match k with Counter => str "counter" | Gauge => str "gauge" end.

(** [writeln!] *)
Definition line (t : text) : text := t ++ [10].

(** [Counter::render] and [Gauge::render] *)
Definition render (f : Family) (value : Z) : text :=
  line (str "# HELP " ++ f.(fm_name) ++ [32] ++ f.(fm_help))
  ++ line (str "# TYPE " ++ f.(fm_name) ++ [32] ++ kind_text f.(fm_kind))
  ++ line (f.(fm_name) ++ [32] ++ show_uint value).

Definition render_prometheus (m : Metrics) : text := flat_map (λ fc, render fc.1 (fc.2 m)) registry.

(** ** A gauge and its tasks *)

Inductive GaugeOp : Type :=
| GSet (value : Z)
| GAdd (task : nat) (delta : Z).

Definition apply_op (o : GaugeOp) (value : Z) : Z :=
  match o with GSet v => v | GAdd _ delta => gauge_next value delta end.

(** [history] holds the values, the last one first, behind the initial zero; [inside]
    the delta of a task that is inside [add] and what it takes for the current value;
    [finished] the operations that have been done, the last one first. *)
Record GaugeState : Type := {
  history : list Z; inside : gmap nat (Z * Z); finished : list GaugeOp }.

Definition GaugeState_new : GaugeState := {| history := []; inside := ∅; finished := [] |}.

Definition gauge_value (s : GaugeState) : Z := default 0 (head s.(history)).

(** A value that a load can return. *)
Definition readable (s : GaugeState) (v : Z) : bool := bool_decide (v ∈ s.(history) ++ [0]).

Inductive GaugeEvent : Type :=
| SetTo (value : Z)                    (** [set] *)
| LoadFor (task : nat) (delta read : Z)   (** [add] is called and loads *)
| Exchange (task : nat)                (** [compare_exchange_weak] succeeds *)
| ExchangeFails (task : nat) (read : Z).  (** it fails, even spuriously, and has read a value *)

Definition gauge_do (e : GaugeEvent) (s : GaugeState) : option GaugeState :=
  match e with
  | SetTo value => Some {| history := value :: s.(history); inside := s.(inside); finished := GSet value :: s.(finished) |}
  | LoadFor t delta read =>
      match s.(inside) !! t with
      | Some _ => None
      | None =>
          if readable s read
          then Some {| history := s.(history); inside := <[t := (delta, read)]> s.(inside); finished := s.(finished) |}
          else None
      end
  | Exchange t =>
      match s.(inside) !! t with
      | Some (delta, current) =>
          if current =? gauge_value s
          then Some {| history := gauge_next current delta :: s.(history); inside := delete t s.(inside);
                       finished := GAdd t delta :: s.(finished) |}
          else None
      | None => None
      end
  | ExchangeFails t read =>
      match s.(inside) !! t with
      | Some (delta, _) =>
          if readable s read
          then Some {| history := s.(history); inside := <[t := (delta, read)]> s.(inside); finished := s.(finished) |}
          else None
      | None => None
      end
  end.

Definition gauge_run (es : list GaugeEvent) : option GaugeState :=
  fold_left (λ s e, s ← s; gauge_do e s) es (Some GaugeState_new).

(** The calls of [add] a task has made, the last one first, and those it has finished. *)
Definition called (t : nat) (es : list GaugeEvent) : list Z :=
  rev (omap (λ e, match e with LoadFor t' delta _ => if decide (t' = t) then Some delta else None | _ => None end) es).

Definition added (t : nat) (ops : list GaugeOp) : list Z :=
  omap (λ o, match o with GAdd t' delta => if decide (t' = t) then Some delta else None | _ => None end) ops.

(** ** Lemmas *)

Lemma gauge_run_snoc es e : gauge_run (es ++ [e]) = s ← gauge_run es; gauge_do e s.
Proof. unfold gauge_run. by rewrite fold_left_app. Qed.

(** The values behind a sequence of operations that happen one after the other. *)
Fixpoint values (ops : list GaugeOp) : list Z :=
  match ops with [] => [] | o :: ops => foldr apply_op 0 (o :: ops) :: values ops end.

Lemma values_head ops : default 0 (head (values ops)) = foldr apply_op 0 ops.
Proof. by destruct ops. Qed.

Lemma called_snoc t es e :
  called t (es ++ [e]) =
  match e with LoadFor t' delta _ => if decide (t' = t) then delta :: called t es else called t es | _ => called t es end.
Proof.
  unfold called. rewrite omap_app, rev_app_distr. by destruct e; cbn; try case_decide.
Qed.

(** Every run is one of operations that happen one after the other, each at the
    moment it writes. *)
Lemma gauge_run_inv es s :
  gauge_run es = Some s →
  s.(history) = values s.(finished)
  ∧ ∀ t, called t es = option_list (fst <$> s.(inside) !! t) ++ added t s.(finished).
Proof.
  revert s. induction es as [|e es IH] using rev_ind; intros s.
  { intros [= <-]. split; [done|]. intros t. cbn [inside GaugeState_new]. by rewrite lookup_empty. }
  rewrite gauge_run_snoc. destruct (gauge_run es) as [s0|]; cbn; [|done].
  destruct (IH s0 eq_refl) as [Hh Hc]. clear IH.
  destruct e as [v|t d v|t|t v]; cbn [gauge_do].
  - intros [= <-]. cbn [history inside finished]. split; [by rewrite Hh|]. intros t. by rewrite called_snoc, Hc.
  - destruct (inside s0 !! t) eqn:Ht; [done|]. destruct (readable s0 v); [|done]. intros [= <-].
    cbn [history inside finished]. split; [done|]. intros t'. rewrite called_snoc, Hc. case_decide as Hd.
    + subst t'. by rewrite lookup_insert_eq, Ht.
    + by rewrite lookup_insert_ne.
  - destruct (inside s0 !! t) as [[d cur]|] eqn:Ht; [|done]. destruct (Z.eqb_spec cur (gauge_value s0)) as [->|]; [|done].
    intros [= <-]. cbn [history inside finished]. split.
    + cbn. f_equal; [|done]. unfold gauge_value. by rewrite Hh, values_head.
    + intros t'. rewrite called_snoc, Hc. cbn. destruct (decide (t = t')) as [<-|Hd].
      * by rewrite Ht, lookup_delete_eq.
      * by rewrite lookup_delete_ne.
  - destruct (inside s0 !! t) as [[d cur]|] eqn:Ht; [|done]. destruct (readable s0 v); [|done]. intros [= <-].
    cbn [history inside finished]. split; [done|]. intros t'. rewrite called_snoc, Hc.
    destruct (decide (t = t')) as [<-|Hd]; [by rewrite lookup_insert_eq, Ht|by rewrite lookup_insert_ne].
Qed.

(** [gauge_value] is what the finished operations come to. *)
Lemma gauge_value_fold es s : gauge_run es = Some s → gauge_value s = foldr apply_op 0 s.(finished).
Proof. intros Hs. destruct (gauge_run_inv es s Hs) as [Hh _]. unfold gauge_value. by rewrite Hh, values_head. Qed.

(** ** Live sessions *)

(** What the tasks of a gauge of sessions do: session [t] adds one when it opens, and,
    when that is done, takes one away when it closes. *)
Definition sessions_only (es : list GaugeEvent) : Prop :=
  Forall (λ e, match e with SetTo _ => False | _ => True end) es
  ∧ ∀ t, called t es = [] ∨ called t es = [1] ∨ called t es = [-1; 1].

Lemma added_cons t t' d ops :
  added t (GAdd t' d :: ops) = if decide (t' = t) then d :: added t ops else added t ops.
Proof. unfold added. cbn. by case_decide. Qed.

(** The sessions that have opened and not closed, after operations that are done. *)
Definition live_sessions (ops : list GaugeOp) : gset nat :=
  foldr (λ o live, match o with
    | GAdd t d => if decide (d = 1) then {[t]} ∪ live else live ∖ {[t]}
    | GSet _ => live
    end) ∅ ops.

Lemma live_sessions_size ops :
  Forall (λ o, match o with GSet _ => False | _ => True end) ops →
  (∀ t, added t ops = [] ∨ added t ops = [1] ∨ added t ops = [-1; 1]) → zlen ops < 2 ^ 64 →
  (∀ t, t ∈ live_sessions ops ↔ added t ops = [1])
  ∧ foldr apply_op 0 ops = Z.of_nat (size (live_sessions ops)) ∧ (size (live_sessions ops) ≤ length ops)%nat.
Proof.
  induction ops as [|[v|t d] ops IH]; [|by intros [[] _]%list.Forall_cons|].
  { intros _ _ _. change (live_sessions []) with (∅ : gset nat). split_and!; [|by rewrite size_empty|rewrite size_empty; cbn; lia]. intros t. split; [|done].
    by intros []%not_elem_of_empty. }
  intros [_ Hf]%list.Forall_cons Ha Hl. unfold zlen in Hl. cbn [length] in Hl.
  destruct IH as (Hin & Hv & Hs); [done| |unfold zlen; lia|].
  { intros t'. specialize (Ha t'). rewrite added_cons in Ha. destruct (decide (t = t')); [|done].
    destruct Ha as [[=]|[[= _ ->]|[= _ ->]]]; [by left|by right; left]. }
  assert (Hd : d = 1 ∧ added t ops = [] ∨ d = -1 ∧ added t ops = [1]).
  { specialize (Ha t). rewrite added_cons, decide_True in Ha by done.
    destruct Ha as [[=]|[[= -> ->]|[= -> ->]]]; [by left|by right]. }
  cbn [live_sessions foldr apply_op length]. fold (live_sessions ops). change (foldr _ 0 ops) with (foldr apply_op 0 ops).
  rewrite Hv. destruct Hd as [[-> Ht]|[-> Ht]].
  - rewrite decide_True by done. assert (Hn : t ∉ live_sessions ops) by (rewrite Hin, Ht; done).
    rewrite size_union, size_singleton by set_solver. unfold gauge_next, wrap. rewrite Z.mod_small by lia.
    split_and!; [|lia|lia]. intros t'. rewrite elem_of_union, elem_of_singleton, Hin, added_cons.
    destruct (decide (t = t')) as [<-|Hne]; [rewrite Ht|]; naive_solver.
  - rewrite decide_False by done. assert (Hn : {[t]} ⊆ live_sessions ops).
    { intros t'. rewrite elem_of_singleton, Hin. by intros ->. }
    pose proof (subseteq_size _ _ Hn) as Hz. rewrite size_singleton in Hz.
    rewrite size_difference, size_singleton by done. unfold gauge_next, wrap. rewrite Z.mod_small by lia.
    split_and!; [|lia|lia]. intros t'. rewrite elem_of_difference, elem_of_singleton, Hin, added_cons.
    destruct (decide (t = t')) as [<-|Hne]; [rewrite Ht|]; naive_solver.
Qed.

(** However the loads and exchanges of the tasks interleave, and whatever is lost to
    stale reads and spurious failures, the gauge of live sessions holds exactly the
    number of sessions that have opened and not closed, and never goes below zero. *)
Theorem sessions_gauge_exact es s :
  gauge_run es = Some s → sessions_only es → zlen s.(finished) < 2 ^ 64 →
  ∃ live : gset nat, (∀ t, t ∈ live ↔ added t s.(finished) = [1]) ∧ gauge_value s = Z.of_nat (size live).
Proof.
  intros Hs [Hno Hcalls] Hl. destruct (gauge_run_inv es s Hs) as [_ Hc].
  assert (Hf : Forall (λ o, match o with GSet _ => False | _ => True end) s.(finished)).
  { clear Hcalls Hl Hc. revert s Hs. induction es as [|e es IH] using rev_ind; intros s; [by intros [= <-]|].
    apply Forall_app in Hno as [Hno He]. rewrite list.Forall_singleton in He.
    rewrite gauge_run_snoc. destruct (gauge_run es) as [s0|]; cbn; [|done]. specialize (IH Hno s0 eq_refl).
    destruct e as [|t d v|t|t v]; [done|..]; cbn [gauge_do]; destruct (inside s0 !! t) as [[d' cur]|]; try done.
    - destruct (readable s0 v); [|done]. by intros [= <-].
    - destruct (cur =? _); [|done]. intros [= <-]. by apply list.Forall_cons.
    - destruct (readable s0 v); [|done]. by intros [= <-]. }
  destruct (live_sessions_size s.(finished) Hf) as (Hin & Hv & _); [|done|].
  - intros t. specialize (Hcalls t). rewrite Hc in Hcalls. destruct (inside s !! t) as [[d cur]|]; cbn in Hcalls; [|done].
    destruct Hcalls as [[=]|[[= _ ->]|[= _ ->]]]; [by left|by right; left].
  - exists (live_sessions s.(finished)). split; [done|]. by rewrite (gauge_value_fold es s Hs).
Qed.

(** Two sessions, one of which closes; the second reads a value that is no longer the
    last one, and its exchange fails once. *)
Definition demo_events : list GaugeEvent :=
  [LoadFor 0 1 0; LoadFor 1 1 0; Exchange 0; ExchangeFails 1 1; Exchange 1; LoadFor 0 (-1) 0; ExchangeFails 0 2; Exchange 0].

Lemma sessions_gauge_exact_witness :
  ∃ s, gauge_run demo_events = Some s
  ∧ ∃ live : gset nat, (∀ t, t ∈ live ↔ added t s.(finished) = [1]) ∧ gauge_value s = Z.of_nat (size live).
Proof.
  eexists. split; [by vm_compute|]. eapply (sessions_gauge_exact demo_events); [by vm_compute| |by vm_compute].
  split; [by repeat constructor|]. intros [|[|t]]; [right; right|right; left|left]; by vm_compute.
Defined.

(** ** The page *)

(** What a scraper reads for a name: the rest of the first line that begins with it. *)
Definition sample (name page : text) : option text :=
  drop (S (length name)) <$> List.find (starts_with (name ++ [32])) (split 10 page).

Lemma split_lines ls : Forall (λ l, 10 ∉ l) ls → split 10 (flat_map line ls) = ls ++ [[]].
Proof.
  induction ls as [|l ls IH]; [done|]. intros [Hl Hls]%list.Forall_cons. cbn [flat_map]. unfold line at 1.
  rewrite <- app_assoc. cbn [app]. by rewrite split_cons, IH.
Qed.

(** Every sample of the page is the value of its cell, and is there whatever the
    values are. *)
Theorem page_samples_read m f cell :
  (f, cell) ∈ registry → (∀ c, c ∈ map snd registry → 0 ≤ c m < 2 ^ 64) →
  (t ← sample f.(fm_name) (render_prometheus m); parse_u64 t) = Some (cell m).
Proof.
  intros Hin Hm. assert (Hd : ∀ c, c ∈ map snd registry → 10 ∉ show_uint (c m)).
  { intros c Hc Hx. pose proof (show_uint_chars _ (Hm c Hc)) as Hs. rewrite list.Forall_forall in Hs. specialize (Hs _ Hx). lia. }
  assert (Hc : cell ∈ map snd registry) by (apply list_elem_of_fmap; by exists (f, cell)).
  assert (Hsample : sample f.(fm_name) (render_prometheus m) = Some (show_uint (cell m))); [|by rewrite Hsample; apply parse_show_u64, Hm].
  clear Hm. unfold render_prometheus.
  assert (Hl : flat_map (λ fc, render fc.1 (fc.2 m)) registry
    = flat_map line (flat_map (λ fc, [str "# HELP " ++ fc.1.(fm_name) ++ [32] ++ fc.1.(fm_help);
        str "# TYPE " ++ fc.1.(fm_name) ++ [32] ++ kind_text fc.1.(fm_kind); fc.1.(fm_name) ++ [32] ++ show_uint (fc.2 m)]) registry)).
  { generalize registry. intros l. induction l as [|fc l IH]; [done|]. cbn [flat_map app]. rewrite IH. unfold render.
    by rewrite <- !app_assoc. }
  rewrite Hl. unfold sample. rewrite split_lines.
  - clear Hl. cbn [registry flat_map fst snd app].
    generalize dependent show_uint. intros show _.
    apply list_elem_of_In in Hin. repeat (destruct Hin as [[= <- <-]|Hin]; [done|]). destruct Hin.
  - apply list.Forall_forall. intros l Hl'. apply list_elem_of_In, in_flat_map in Hl' as (fc & Hf & Hx).
    assert (Hn : 10 ∉ show_uint (fc.2 m)) by (apply Hd, list_elem_of_fmap; exists fc; by rewrite list_elem_of_In).
    revert Hx. generalize dependent (show_uint (fc.2 m)). intros d Hn Hx.
    repeat (destruct Hf as [<-|Hf]; [revert Hx Hn; clear; cbn; intros [<-|[<-|[<-|[]]]] Hn; set_solver|]). destruct Hf.
Qed.

Definition demo_metrics : Metrics :=
  {| sessions_active := 3; sessions_opened_total := 5; sessions_closed_total := 2; registrations_total := 0;
     policy_compiles_total := 0; derp_packets_total := 2 ^ 64 - 1; derp_packets_dropped_total := 0 |}.

Lemma page_samples_read_witness :
  (t ← sample (str "crabscale_sessions_active") (render_prometheus demo_metrics); parse_u64 t) = Some 3.
Proof.
  assert (Hin : (gauge "crabscale_sessions_active" "Number of live control-plane map sessions.", sessions_active) ∈ registry).
  { apply list_elem_of_In. by right; right; left. }
  assert (Hm : ∀ c, c ∈ map snd registry → 0 ≤ c demo_metrics < 2 ^ 64).
  { intros c Hc. apply list_elem_of_In in Hc. repeat (destruct Hc as [<-|Hc]; [cbn; lia|]). destruct Hc. }
  exact (page_samples_read demo_metrics _ _ Hin Hm).
Defined.
