(* ===== verification/DerpUpgrade.v ===== *)
(** * Entering DERP ([crabscale-derp/src/upgrade.rs])

    The negotiation of the transport of a DERP connection, raw or inside WebSocket
    messages, and the head of the answer.  SHA-1 and Base64 are libraries. *)

From S2P Require Import Prelude Text Url Proxy Upgrade Http.

(** RFC 6455 *)
Definition WEBSOCKET_GUID : text := str "258EAFA5-E914-47DA-95CA-C5AB0DC85B11".

Inductive TransportKind : Type := RawTransport | WebSocketTransport.

#[global] Instance TransportKind_eq_dec : EqDecision TransportKind.
Proof. solve_decision. Defined.

Record DerpRequest : Type := { kind : TransportKind; fast_start : bool; ideal_node : option text }.

Inductive UpgradeError : Type :=
| MissingUpgrade
| MissingWebSocketKey
| UnsupportedWebSocketVersion (version : text)
| InvalidMethod.

Definition UpgradeError_display (e : UpgradeError) : text :=
  match e with
  | MissingUpgrade => str "missing DERP Upgrade header"
  | MissingWebSocketKey => str "WebSocket upgrade is missing Sec-WebSocket-Key"
  | UnsupportedWebSocketVersion v => str "unsupported WebSocket version (expected 13, got " ++ v ++ str ")"
  | InvalidMethod => str "DERP upgrade requires an HTTP GET request"
  end.

Definition DERP_FAST_START : text := str "derp-fast-start".
Definition IDEAL_NODE : text := str "ideal-node".
Definition SEC_WEBSOCKET_KEY : text := str "sec-websocket-key".
Definition SEC_WEBSOCKET_VERSION : text := str "sec-websocket-version".
Definition SEC_WEBSOCKET_ACCEPT : text := str "sec-websocket-accept".

Definition header_lower (headers : HeaderMap) (name : text) : option text :=
  map to_ascii_lowercase <$> mjoin (get_header name headers).

Definition header_bool (headers : HeaderMap) (name : text) : bool :=
  bool_decide (header_lower headers name = Some (str "1")).

Definition contains_key (name : text) (headers : HeaderMap) : bool := bool_decide (is_Some (get_header name headers)).

(** The items of a list in a header name version 13. *)
Definition offers_13 (version : text) : bool := existsb (λ v, bool_decide (trim v = str "13")) (split 44 version).

Definition negotiate (req : HttpRequest) : result DerpRequest UpgradeError :=
  let headers := req.(hr_headers) in
  let fast_start := header_bool headers DERP_FAST_START in
  let ideal_node := mjoin (get_header IDEAL_NODE headers) in
  let upgrade := header_lower headers (str "upgrade") in
  if bool_decide (upgrade = Some (str "derp"))
  then Ok {| kind := RawTransport; fast_start := fast_start; ideal_node := ideal_node |}
  else if bool_decide (upgrade = Some (str "websocket")) then
    if negb (contains_key SEC_WEBSOCKET_KEY headers) then Err MissingWebSocketKey
    else
      let version := default [] (header_lower headers SEC_WEBSOCKET_VERSION) in
      if negb (offers_13 version) then Err (UnsupportedWebSocketVersion version)
      else Ok {| kind := WebSocketTransport; fast_start := false; ideal_node := ideal_node |}
  else Err MissingUpgrade.

Definition switching_protocols (upgrade connection : text) : HttpResponse :=
  {| status := 101; headers := [(str "upgrade", upgrade); (str "connection", connection)]; body := NoBody |}.

Definition validate_method (req : HttpRequest) : result unit UpgradeError :=
  if negb (bool_decide (req.(hr_method) = str "GET")) then Err InvalidMethod else Ok ().

Section upgrade.
  Context (sha1 : bytes → bytes) `{Base64}.

Definition compute_websocket_accept (sec_websocket_key : text) : text :=
  b64_encode (sha1 (utf8_encode sec_websocket_key ++ utf8_encode WEBSOCKET_GUID)).

(** A request and the head to send, if any. *)
Record UpgradedRequest : Type := { upgraded : DerpRequest; head_of_answer : option HttpResponse }.

(** The accept value is of the Base64 alphabet, so it always is a header value. *)
Definition build_derp_response (req : HttpRequest) (sec_websocket_key : option text)
    : result UpgradedRequest UpgradeError :=
  let? request := negotiate req in
  match request.(kind) with
  | RawTransport =>
      Ok {| upgraded := request;
            head_of_answer := if request.(fast_start) then None else Some (switching_protocols (str "DERP") (str "Upgrade")) |}
  | WebSocketTransport =>
      match sec_websocket_key with
      | None => Err MissingWebSocketKey
      | Some key =>
          let response := switching_protocols (str "websocket") (str "Upgrade") in
          Ok {| upgraded := request;
                head_of_answer := Some {| status := response.(status);
                  headers := response.(Http.headers) ++ [(SEC_WEBSOCKET_ACCEPT, compute_websocket_accept key)];
                  body := response.(body) |} |}
      end
  end.

End upgrade.

(** ** Lemmas *)

Lemma negotiate_ok req r :
  negotiate req = Ok r ↔
  r.(ideal_node) = mjoin (get_header IDEAL_NODE req.(hr_headers))
  ∧ (header_lower req.(hr_headers) (str "upgrade") = Some (str "derp")
       ∧ r.(kind) = RawTransport ∧ r.(fast_start) = header_bool req.(hr_headers) DERP_FAST_START
     ∨ header_lower req.(hr_headers) (str "upgrade") = Some (str "websocket")
       ∧ is_Some (get_header SEC_WEBSOCKET_KEY req.(hr_headers))
       ∧ offers_13 (default [] (header_lower req.(hr_headers) SEC_WEBSOCKET_VERSION)) = true
       ∧ r.(kind) = WebSocketTransport ∧ r.(fast_start) = false).
Proof.
  unfold negotiate, contains_key. destruct r as [k f i]. cbn [kind fast_start ideal_node].
  destruct (decide (header_lower req.(hr_headers) (str "upgrade") = Some (str "derp"))) as [Hd|Hd].
  { rewrite bool_decide_eq_true_2, Hd by done. naive_solver. }
  rewrite bool_decide_eq_false_2 by done.
  destruct (decide (header_lower req.(hr_headers) (str "upgrade") = Some (str "websocket"))) as [Hw|Hw].
  2: { rewrite bool_decide_eq_false_2 by done. split; [done|]. by intros (_ & [[? _]|[? _]]). }
  rewrite bool_decide_eq_true_2 by done.
  destruct (decide (is_Some (get_header SEC_WEBSOCKET_KEY req.(hr_headers)))) as [Hk|Hk].
  2: { rewrite bool_decide_eq_false_2 by done. split; [done|]. by intros (_ & [[? _]|(_ & ? & _)]). }
  rewrite bool_decide_eq_true_2 by done. cbn [negb]. destruct (offers_13 _) eqn:Ho; cbn [negb].
  - naive_solver.
  - split; [done|]. by intros (_ & [[? _]|(_ & _ & ? & _)]).
Qed.

(** A client and the relay agree on the transport: a client that asks for DERP, in
    any case of the letters, is answered with an upgrade to it, or with nothing at all
    where it asked to start at once; a client that asks for a WebSocket with the
    version of RFC 6455 gets the accept value it computes from its own key, and never
    starts before it. *)
Theorem derp_transport_agreed (sha1 : bytes → bytes) `{Base64} req u key :
  build_derp_response sha1 req key = Ok u →
  (u.(upgraded).(kind) = RawTransport
     ∧ header_lower req.(hr_headers) (str "upgrade") = Some (str "derp")
     ∧ (u.(head_of_answer) = None ↔ header_bool req.(hr_headers) DERP_FAST_START = true)
     ∧ ∀ a, u.(head_of_answer) = Some a → a.(status) = 101 ∧ (str "upgrade", str "DERP") ∈ a.(Http.headers))
  ∨ (u.(upgraded).(kind) = WebSocketTransport
     ∧ header_lower req.(hr_headers) (str "upgrade") = Some (str "websocket")
     ∧ ∃ a k, u.(head_of_answer) = Some a ∧ key = Some k ∧ a.(status) = 101
       ∧ (str "upgrade", str "websocket") ∈ a.(Http.headers)
       ∧ (SEC_WEBSOCKET_ACCEPT, b64_encode (sha1 (utf8_encode (k ++ WEBSOCKET_GUID)))) ∈ a.(Http.headers)).
Proof.
  unfold build_derp_response. destruct (negotiate req) as [r|] eqn:Hn; cbn [rbind]; [|done].
  apply negotiate_ok in Hn as [_ [(Hu & Hk & Hf)|(Hu & _ & _ & Hk & _)]]; rewrite Hk.
  - intros [= <-]. left. cbn [upgraded head_of_answer]. split; [done|]. split; [done|]. rewrite <- Hf.
    split; [by destruct (fast_start r)|]. destruct (fast_start r); [done|]. intros a [= <-]. split; [done|].
    apply list_elem_of_here.
  - destruct key as [k|]; [|done]. intros [= <-]. right. cbn [upgraded head_of_answer]. split; [done|]. split; [done|].
    eexists _, k. split; [done|]. split; [done|]. split; [done|]. split; [apply list_elem_of_here|].
    unfold utf8_encode. rewrite flat_map_app. apply list_elem_of_further, list_elem_of_further, list_elem_of_here.
Qed.

Definition demo_derp_request (fields : list (string * string)) : HttpRequest :=
  {| hr_method := str "GET"; hr_path := str "/derp"; hr_query := None;
     hr_headers := map (λ f, (str f.1, Some (str f.2))) fields; hr_body := [] |}.

Example negotiates_fast_start :
  negotiate (demo_derp_request [("upgrade", "DERP"); ("derp-fast-start", "1"); ("ideal-node", "crab-1")])
  = Ok {| kind := RawTransport; fast_start := true; ideal_node := Some (str "crab-1") |}.
Proof. reflexivity. Qed.

Example websocket_lists_versions :
  negotiate (demo_derp_request [("upgrade", "WebSocket"); ("sec-websocket-key", "dGhlIHNhbXBsZSBub25jZQ==");
                                ("sec-websocket-version", "8, 13"); ("derp-fast-start", "1")])
  = Ok {| kind := WebSocketTransport; fast_start := false; ideal_node := None |}.
Proof. reflexivity. Qed.

Example websocket_needs_13 :
  negotiate (demo_derp_request [("upgrade", "websocket"); ("sec-websocket-key", "k"); ("sec-websocket-version", "8")])
  = Err (UnsupportedWebSocketVersion (str "8")).
Proof. reflexivity. Qed.
