(* ===== verification/Config.v ===== *)
(** * The layers of the configuration ([crabscale-server/src/config.rs], [tls.rs], [main.rs])

    A value comes from the command line, the environment, the file or the built-in
    defaults, in this order.  TOML and clap are libraries: a file is what it
    deserializes to, and the command line the arguments clap makes of it.  A path is
    its text; the text of an error is not modelled, only what it names. *)

From S2P Require Import Prelude Text Net IpText Url RateLimit.

(** ** Values *)

(** [SocketAddr]; the scope is that of an IPv6 address. *)
Record SocketAddr : Type := { sa_ip : IpAddr; sa_scope : Z; sa_port : Z }.

(** [Parser::read_number] without a limit of digits *)
Definition read_decimal (max : Z) (s : text) : option (Z * text) := read_number 10 (zlen s) true max s.

(** [Parser::read_port] *)
Definition read_port (s : text) : option (Z * text) := s ← read_given_char 58 s; read_decimal 65535 s.

Definition read_socket_addr_v4 (s : text) : option (SocketAddr * text) :=
  '(ip, s) ← read_ipv4_addr s;
  '(port, s) ← read_port s;
  Some ({| sa_ip := V4 ip; sa_scope := 0; sa_port := port |}, s).

Definition read_scope_id (s : text) : option (Z * text) :=
  s ← read_given_char 37 s; read_decimal (2 ^ 32 - 1) s.

Definition read_socket_addr_v6 (s : text) : option (SocketAddr * text) :=
  s ← read_given_char 91 s;
  '(ip, s) ← read_ipv6_addr s;
  let '(scope, s) := match read_scope_id s with Some scope => scope | None => (0, s) end in
  s ← read_given_char 93 s;
  '(port, s) ← read_port s;
  Some ({| sa_ip := V6 ip; sa_scope := scope; sa_port := port |}, s).

(** [s.parse::<SocketAddr>()] *)
Definition parse_socket_addr (s : text) : option SocketAddr :=
  match read_socket_addr_v4 s with
  | Some (a, []) => Some a
  | Some (_, _ :: _) => None
  | None => match read_socket_addr_v6 s with Some (a, []) => Some a | _ => None end
  end.

(** [s.parse::<bool>()] and [s.parse::<u32>()] *)
Definition parse_bool (s : text) : option bool :=
  if bool_decide (s = str "true") then Some true else if bool_decide (s = str "false") then Some false else None.

Definition parse_u32 (s : text) : option Z := parse_uint (2 ^ 32 - 1) s.

(** The items of a list that is separated by commas, without the empty ones. *)
Definition split_list (s : text) : list text := filter (λ item, item ≠ []) (map trim (split 44 s)).

(** ** Settings *)

Record TlsSettings : Type := {
  tls_mode : text; cert_file : option text; tls_key_file : option text; acme_domains : list text;
  acme_contact : list text; acme_cache_dir : option text; acme_directory_url : option text }.

Definition TlsSettings_default : TlsSettings :=
  {| tls_mode := []; cert_file := None; tls_key_file := None; acme_domains := []; acme_contact := [];
     acme_cache_dir := None; acme_directory_url := None |}.

Definition is_off (t : TlsSettings) : bool :=
  bool_decide (map to_ascii_lowercase (trim t.(tls_mode)) ∈ [[]; str "off"; str "none"]).

Definition is_acme (t : TlsSettings) : bool :=
  negb (is_off t) && bool_decide (map to_ascii_lowercase (trim t.(tls_mode)) = str "acme").

Definition is_files (t : TlsSettings) : bool := negb (is_off t) && negb (is_acme t).

(** The file, then the environment on top of it: [None] where neither gives a value. *)
Record RawConfig : Type := {
  raw_listen : option SocketAddr; raw_listen_http : option SocketAddr; raw_http_redirect : option bool;
  raw_key_file : option text; raw_store : option text; raw_auth_key : option text;
  raw_tailnet_domain : option text; raw_server_url : option text; raw_magic_dns : option bool;
  raw_dns_search_domains : option (list text); raw_dns_split : option (list text);
  raw_dns_extra_records : option text; raw_oidc_issuer : option text; raw_oidc_client_id : option text;
  raw_oidc_client_secret : option text; raw_oidc_redirect_uri : option text; raw_oidc_scope : option text;
  raw_derp_region_id : option Z; raw_derp_region_code : option text; raw_derp_region_name : option text;
  raw_derp_node_name : option text; raw_derp_hostname : option text; raw_derp_port : option Z;
  raw_stun_port : option Z; raw_stun_bind : option IpAddr; raw_ts2021_rate_per_min : option Z;
  raw_ts2021_burst : option Z; raw_register_rate_per_min : option Z; raw_register_burst : option Z;
  raw_bootstrap_dns_names : option text; raw_trusted_proxies : option (list text); raw_tls : TlsSettings;
  raw_config_path : option text }.

Definition RawConfig_default : RawConfig := {|
  raw_listen := None; raw_listen_http := None; raw_http_redirect := None; raw_key_file := None;
  raw_store := None; raw_auth_key := None; raw_tailnet_domain := None; raw_server_url := None;
  raw_magic_dns := None; raw_dns_search_domains := None; raw_dns_split := None;
  raw_dns_extra_records := None; raw_oidc_issuer := None; raw_oidc_client_id := None;
  raw_oidc_client_secret := None; raw_oidc_redirect_uri := None; raw_oidc_scope := None;
  raw_derp_region_id := None; raw_derp_region_code := None; raw_derp_region_name := None;
  raw_derp_node_name := None; raw_derp_hostname := None; raw_derp_port := None; raw_stun_port := None;
  raw_stun_bind := None; raw_ts2021_rate_per_min := None; raw_ts2021_burst := None;
  raw_register_rate_per_min := None; raw_register_burst := None; raw_bootstrap_dns_names := None;
  raw_trusted_proxies := None; raw_tls := TlsSettings_default; raw_config_path := None |}.

(** What the command line gives. *)
Record CliOverrides : Type := {
  cli_config : option text; cli_listen : option SocketAddr; cli_listen_http : option SocketAddr;
  cli_http_redirect : option bool; cli_key_file : option text; cli_store : option text;
  cli_auth_key : option text; cli_tailnet_domain : option text; cli_server_url : option text;
  cli_no_magic_dns : option bool; cli_dns_search_domains : option (list text);
  cli_dns_split : option (list text); cli_dns_extra_records : option text; cli_oidc_issuer : option text;
  cli_oidc_client_id : option text; cli_oidc_client_secret : option text;
  cli_oidc_redirect_uri : option text; cli_oidc_scope : option text; cli_derp_region_id : option Z;
  cli_derp_region_code : option text; cli_derp_region_name : option text; cli_derp_node_name : option text;
  cli_derp_hostname : option text; cli_derp_port : option Z; cli_stun_port : option Z;
  cli_stun_bind : option IpAddr; cli_ts2021_rate_per_min : option Z; cli_ts2021_burst : option Z;
  cli_register_rate_per_min : option Z; cli_register_burst : option Z; cli_bootstrap_dns_names : option text;
  cli_trusted_proxies : option (list text); cli_tls : TlsSettings }.

(** What the server runs with. *)
Record ServerConfig : Type := {
  sc_listen : SocketAddr; sc_listen_http : option SocketAddr; sc_http_redirect : bool; sc_key_file : text;
  sc_store : option text; sc_auth_key : option text; sc_tailnet_domain : option text;
  sc_server_url : option text; sc_magic_dns : bool; sc_dns_search_domains : list text;
  sc_dns_split : list text; sc_dns_extra_records : option text; sc_oidc_issuer : option text;
  sc_oidc_client_id : option text; sc_oidc_client_secret : option text; sc_oidc_redirect_uri : option text;
  sc_oidc_scope : text; sc_derp_region_id : Z; sc_derp_region_code : text; sc_derp_region_name : text;
  sc_derp_node_name : text; sc_derp_hostname : text; sc_derp_port : Z; sc_stun_port : Z;
  sc_stun_bind : IpAddr; sc_ts2021_rate_per_min : Z; sc_ts2021_burst : Z; sc_register_rate_per_min : Z;
  sc_register_burst : Z; sc_bootstrap_dns_names : text; sc_trusted_proxies : list text; sc_tls : TlsSettings;
  sc_config_path : option text }.

Definition DEFAULT_LISTEN_ADDR : text := str "127.0.0.1:8080".
Definition default_listen : SocketAddr := {| sa_ip := V4 (127 * 2 ^ 24 + 1); sa_scope := 0; sa_port := 8080 |}.
Definition DEFAULT_KEY_FILE : text := str "crabscale.key".

Definition ServerConfig_default : ServerConfig := {|
  sc_listen := default_listen; sc_listen_http := None; sc_http_redirect := true;
  sc_key_file := DEFAULT_KEY_FILE; sc_store := None; sc_auth_key := None; sc_tailnet_domain := None;
  sc_server_url := None; sc_magic_dns := true; sc_dns_search_domains := []; sc_dns_split := [];
  sc_dns_extra_records := None; sc_oidc_issuer := None; sc_oidc_client_id := None;
  sc_oidc_client_secret := None; sc_oidc_redirect_uri := None; sc_oidc_scope := str "openid profile email";
  sc_derp_region_id := 1; sc_derp_region_code := str "crab"; sc_derp_region_name := str "Crabscale";
  sc_derp_node_name := str "crab-1"; sc_derp_hostname := str "derp.example.com"; sc_derp_port := 443;
  sc_stun_port := 3478; sc_stun_bind := V4 0; sc_ts2021_rate_per_min := DEFAULT_TS2021_RATE_PER_MIN;
  sc_ts2021_burst := DEFAULT_TS2021_BURST; sc_register_rate_per_min := DEFAULT_REGISTER_RATE_PER_MIN;
  sc_register_burst := DEFAULT_REGISTER_BURST; sc_bootstrap_dns_names := []; sc_trusted_proxies := [];
  sc_tls := TlsSettings_default; sc_config_path := None |}.

(** ** The environment *)

Definition ENV_PREFIX : text := str "CRABSCALE_".

Definition to_ascii_uppercase (c : Z) : Z := if (97 <=? c) && (c <=? 122) then c - 32 else c.

(** What the environment gives a variable; a value that is not text is as none. *)
Abbreviation Environment := (text → option text).

Definition env_name (field : text) : text := ENV_PREFIX ++ map to_ascii_uppercase field.
Definition env_value (env : Environment) (field : text) : option text := env (env_name field).

Inductive ConfigError : Type :=
| ReadFailed (path : text)
| ParseFailed (path : text)
| InvalidVariable (name value : text).

(** The macro [env_typed]: the value of the field behind it. *)
Definition env_typed {A} (env : Environment) (field : string) (parse : text → option A) (old : option A)
    : result (option A) ConfigError :=
  match env_value env (str field) with
  | None => Ok old
  | Some v =>
      match parse v with
      | Some parsed => Ok (Some parsed)
      | None => Err (InvalidVariable (env_name (str field)) v)
      end
  end.

(** A field that takes any text. *)
Definition env_text (env : Environment) (field : string) (old : option text) : option text :=
  match env_value env (str field) with Some v => Some v | None => old end.

Definition env_list (env : Environment) (field : string) (old : option (list text)) : option (list text) :=
  match env_value env (str field) with Some v => Some (split_list v) | None => old end.

(** The variables of the TLS section are named on their own. *)
Definition tls_env (env : Environment) (t : TlsSettings) : TlsSettings :=
  {| tls_mode := default t.(tls_mode) (env (str "CRABSCALE_TLS_MODE"));
     cert_file := match env (str "CRABSCALE_TLS_CERT_FILE") with Some v => Some v | None => t.(cert_file) end;
     tls_key_file := match env (str "CRABSCALE_TLS_KEY_FILE") with Some v => Some v | None => t.(tls_key_file) end;
     acme_domains := match env (str "CRABSCALE_ACME_DOMAINS") with Some v => split_list v | None => t.(acme_domains) end;
     acme_contact := match env (str "CRABSCALE_ACME_CONTACT") with Some v => split_list v | None => t.(acme_contact) end;
     acme_cache_dir := match env (str "CRABSCALE_ACME_CACHE_DIR") with Some v => Some v | None => t.(acme_cache_dir) end;
     acme_directory_url :=
       match env (str "CRABSCALE_ACME_DIRECTORY_URL") with Some v => Some v | None => t.(acme_directory_url) end |}.

Definition apply_env (env : Environment) (raw : RawConfig) : result RawConfig ConfigError :=
  let? listen := env_typed env "listen" parse_socket_addr raw.(raw_listen) in
  let? listen_http := env_typed env "listen_http" parse_socket_addr raw.(raw_listen_http) in
  let? http_redirect := env_typed env "http_redirect" parse_bool raw.(raw_http_redirect) in
  let? magic_dns := env_typed env "magic_dns" parse_bool raw.(raw_magic_dns) in
  let? derp_region_id := env_typed env "derp_region_id" parse_u64 raw.(raw_derp_region_id) in
  let? derp_port := env_typed env "derp_port" parse_i32 raw.(raw_derp_port) in
  let? stun_port := env_typed env "stun_port" parse_i32 raw.(raw_stun_port) in
  let? stun_bind := env_typed env "stun_bind" parse_ip raw.(raw_stun_bind) in
  let? ts2021_rate_per_min := env_typed env "ts2021_rate_per_min" parse_u64 raw.(raw_ts2021_rate_per_min) in
  let? ts2021_burst := env_typed env "ts2021_burst" parse_u32 raw.(raw_ts2021_burst) in
  let? register_rate_per_min := env_typed env "register_rate_per_min" parse_u64 raw.(raw_register_rate_per_min) in
  let? register_burst := env_typed env "register_burst" parse_u32 raw.(raw_register_burst) in
  Ok {|
     raw_listen := listen; raw_listen_http := listen_http; raw_http_redirect := http_redirect;
     raw_key_file := env_text env "key_file" raw.(raw_key_file);
     raw_store := env_text env "store" raw.(raw_store);
     raw_auth_key := env_text env "auth_key" raw.(raw_auth_key);
     raw_tailnet_domain := env_text env "tailnet_domain" raw.(raw_tailnet_domain);
     raw_server_url := env_text env "server_url" raw.(raw_server_url); raw_magic_dns := magic_dns;
     raw_dns_search_domains := env_list env "dns_search_domains" raw.(raw_dns_search_domains);
     raw_dns_split := env_list env "dns_split" raw.(raw_dns_split);
     raw_dns_extra_records := env_text env "dns_extra_records" raw.(raw_dns_extra_records);
     raw_oidc_issuer := env_text env "oidc_issuer" raw.(raw_oidc_issuer);
     raw_oidc_client_id := env_text env "oidc_client_id" raw.(raw_oidc_client_id);
     raw_oidc_client_secret := env_text env "oidc_client_secret" raw.(raw_oidc_client_secret);
     raw_oidc_redirect_uri := env_text env "oidc_redirect_uri" raw.(raw_oidc_redirect_uri);
     raw_oidc_scope := env_text env "oidc_scope" raw.(raw_oidc_scope); raw_derp_region_id := derp_region_id;
     raw_derp_region_code := env_text env "derp_region_code" raw.(raw_derp_region_code);
     raw_derp_region_name := env_text env "derp_region_name" raw.(raw_derp_region_name);
     raw_derp_node_name := env_text env "derp_node_name" raw.(raw_derp_node_name);
     raw_derp_hostname := env_text env "derp_hostname" raw.(raw_derp_hostname); raw_derp_port := derp_port;
     raw_stun_port := stun_port; raw_stun_bind := stun_bind; raw_ts2021_rate_per_min := ts2021_rate_per_min;
     raw_ts2021_burst := ts2021_burst; raw_register_rate_per_min := register_rate_per_min;
     raw_register_burst := register_burst;
     raw_bootstrap_dns_names := env_text env "bootstrap_dns_names" raw.(raw_bootstrap_dns_names);
     raw_trusted_proxies := env_list env "trusted_proxies" raw.(raw_trusted_proxies);
     raw_tls := tls_env env raw.(raw_tls); raw_config_path := raw.(raw_config_path) |}.

(** ** The layers *)

Definition merge_tls (lower higher : TlsSettings) : TlsSettings :=
  {| tls_mode := if bool_decide (trim higher.(tls_mode) = []) then lower.(tls_mode) else higher.(tls_mode);
     cert_file := match higher.(cert_file) with Some f => Some f | None => lower.(cert_file) end;
     tls_key_file := match higher.(tls_key_file) with Some f => Some f | None => lower.(tls_key_file) end;
     acme_domains := match higher.(acme_domains) with [] => lower.(acme_domains) | l => l end;
     acme_contact := match higher.(acme_contact) with [] => lower.(acme_contact) | l => l end;
     acme_cache_dir := match higher.(acme_cache_dir) with Some d => Some d | None => lower.(acme_cache_dir) end;
     acme_directory_url :=
       match higher.(acme_directory_url) with Some u => Some u | None => lower.(acme_directory_url) end |}.

(** The macros [pick] and [pick_opt] *)
Definition pick_opt {A} (cli raw : option A) : option A := match cli with Some a => Some a | None => raw end.
Definition pick {A} (cli raw : option A) (d : A) : A := default d (pick_opt cli raw).

Definition resolve (raw : RawConfig) (cli : CliOverrides) : ServerConfig :=
  let defaults := ServerConfig_default in {|
    sc_listen := pick cli.(cli_listen) raw.(raw_listen) defaults.(sc_listen);
    sc_listen_http := pick_opt cli.(cli_listen_http) raw.(raw_listen_http);
    sc_http_redirect := pick cli.(cli_http_redirect) raw.(raw_http_redirect) defaults.(sc_http_redirect);
    sc_key_file := pick cli.(cli_key_file) raw.(raw_key_file) defaults.(sc_key_file);
    sc_store := pick_opt cli.(cli_store) raw.(raw_store);
    sc_auth_key := pick_opt cli.(cli_auth_key) raw.(raw_auth_key);
    sc_tailnet_domain := pick_opt cli.(cli_tailnet_domain) raw.(raw_tailnet_domain);
    sc_server_url := pick_opt cli.(cli_server_url) raw.(raw_server_url);
    sc_magic_dns := pick (negb <$> cli.(cli_no_magic_dns)) raw.(raw_magic_dns) defaults.(sc_magic_dns);
    sc_dns_search_domains := pick cli.(cli_dns_search_domains) raw.(raw_dns_search_domains) defaults.(sc_dns_search_domains);
    sc_dns_split := pick cli.(cli_dns_split) raw.(raw_dns_split) defaults.(sc_dns_split);
    sc_dns_extra_records := pick_opt cli.(cli_dns_extra_records) raw.(raw_dns_extra_records);
    sc_oidc_issuer := pick_opt cli.(cli_oidc_issuer) raw.(raw_oidc_issuer);
    sc_oidc_client_id := pick_opt cli.(cli_oidc_client_id) raw.(raw_oidc_client_id);
    sc_oidc_client_secret := pick_opt cli.(cli_oidc_client_secret) raw.(raw_oidc_client_secret);
    sc_oidc_redirect_uri := pick_opt cli.(cli_oidc_redirect_uri) raw.(raw_oidc_redirect_uri);
    sc_oidc_scope := pick cli.(cli_oidc_scope) raw.(raw_oidc_scope) defaults.(sc_oidc_scope);
    sc_derp_region_id := pick cli.(cli_derp_region_id) raw.(raw_derp_region_id) defaults.(sc_derp_region_id);
    sc_derp_region_code := pick cli.(cli_derp_region_code) raw.(raw_derp_region_code) defaults.(sc_derp_region_code);
    sc_derp_region_name := pick cli.(cli_derp_region_name) raw.(raw_derp_region_name) defaults.(sc_derp_region_name);
    sc_derp_node_name := pick cli.(cli_derp_node_name) raw.(raw_derp_node_name) defaults.(sc_derp_node_name);
    sc_derp_hostname := pick cli.(cli_derp_hostname) raw.(raw_derp_hostname) defaults.(sc_derp_hostname);
    sc_derp_port := pick cli.(cli_derp_port) raw.(raw_derp_port) defaults.(sc_derp_port);
    sc_stun_port := pick cli.(cli_stun_port) raw.(raw_stun_port) defaults.(sc_stun_port);
    sc_stun_bind := pick cli.(cli_stun_bind) raw.(raw_stun_bind) defaults.(sc_stun_bind);
    sc_ts2021_rate_per_min := pick cli.(cli_ts2021_rate_per_min) raw.(raw_ts2021_rate_per_min) defaults.(sc_ts2021_rate_per_min);
    sc_ts2021_burst := pick cli.(cli_ts2021_burst) raw.(raw_ts2021_burst) defaults.(sc_ts2021_burst);
    sc_register_rate_per_min := pick cli.(cli_register_rate_per_min) raw.(raw_register_rate_per_min) defaults.(sc_register_rate_per_min);
    sc_register_burst := pick cli.(cli_register_burst) raw.(raw_register_burst) defaults.(sc_register_burst);
    sc_bootstrap_dns_names := pick cli.(cli_bootstrap_dns_names) raw.(raw_bootstrap_dns_names) defaults.(sc_bootstrap_dns_names);
    sc_trusted_proxies := pick cli.(cli_trusted_proxies) raw.(raw_trusted_proxies) defaults.(sc_trusted_proxies);
    sc_tls := merge_tls raw.(raw_tls) cli.(cli_tls); sc_config_path := raw.(raw_config_path) |}.

(** ** The command line *)

(** The arguments as clap gives them. *)
Record Args : Type := {
  a_config : option text; a_listen : option SocketAddr; a_listen_http : option SocketAddr;
  a_http_redirect : option bool; a_no_http_redirect : option bool; a_key_file : option text;
  a_store : option text; a_auth_key : option text; a_tailnet_domain : option text;
  a_server_url : option text; a_no_magic_dns : option bool; a_dns_search_domain : list text;
  a_dns_split : list text; a_dns_extra_records : option text; a_oidc_issuer : option text;
  a_oidc_client_id : option text; a_oidc_client_secret : option text; a_oidc_redirect_uri : option text;
  a_oidc_scope : option text; a_derp_region_id : option Z; a_derp_region_code : option text;
  a_derp_region_name : option text; a_derp_node_name : option text; a_derp_hostname : option text;
  a_derp_port : option Z; a_stun_port : option Z; a_stun_bind : option IpAddr;
  a_ts2021_rate_per_min : option Z; a_ts2021_burst : option Z; a_register_rate_per_min : option Z;
  a_register_burst : option Z; a_bootstrap_dns_names : option text; a_trusted_proxy : list text;
  a_tls_mode : option text; a_tls_cert_file : option text; a_tls_key_file : option text;
  a_acme_domain : list text; a_acme_email : list text; a_acme_cache_dir : option text;
  a_acme_directory_url : option text }.

Definition list_option (l : list text) : option (list text) := match l with [] => None | _ => Some l end.

(** [From<Args>] *)
Definition overrides (a : Args) : CliOverrides := {|
  cli_config := a.(a_config); cli_listen := a.(a_listen); cli_listen_http := a.(a_listen_http);
  cli_http_redirect := pick_opt a.(a_http_redirect) (negb <$> a.(a_no_http_redirect));
  cli_key_file := a.(a_key_file); cli_store := a.(a_store); cli_auth_key := a.(a_auth_key);
  cli_tailnet_domain := a.(a_tailnet_domain); cli_server_url := a.(a_server_url);
  cli_no_magic_dns := a.(a_no_magic_dns); cli_dns_search_domains := list_option a.(a_dns_search_domain);
  cli_dns_split := list_option a.(a_dns_split); cli_dns_extra_records := a.(a_dns_extra_records);
  cli_oidc_issuer := a.(a_oidc_issuer); cli_oidc_client_id := a.(a_oidc_client_id);
  cli_oidc_client_secret := a.(a_oidc_client_secret); cli_oidc_redirect_uri := a.(a_oidc_redirect_uri);
  cli_oidc_scope := a.(a_oidc_scope); cli_derp_region_id := a.(a_derp_region_id);
  cli_derp_region_code := a.(a_derp_region_code); cli_derp_region_name := a.(a_derp_region_name);
  cli_derp_node_name := a.(a_derp_node_name); cli_derp_hostname := a.(a_derp_hostname);
  cli_derp_port := a.(a_derp_port); cli_stun_port := a.(a_stun_port); cli_stun_bind := a.(a_stun_bind);
  cli_ts2021_rate_per_min := a.(a_ts2021_rate_per_min); cli_ts2021_burst := a.(a_ts2021_burst);
  cli_register_rate_per_min := a.(a_register_rate_per_min); cli_register_burst := a.(a_register_burst);
  cli_bootstrap_dns_names := a.(a_bootstrap_dns_names);
  cli_trusted_proxies := list_option a.(a_trusted_proxy);
  cli_tls := {| tls_mode := default [] a.(a_tls_mode); cert_file := a.(a_tls_cert_file); tls_key_file := a.(a_tls_key_file);
    acme_domains := a.(a_acme_domain); acme_contact := a.(a_acme_email); acme_cache_dir := a.(a_acme_cache_dir);
    acme_directory_url := a.(a_acme_directory_url) |} |}.

(** ** Loading *)

Section load.
  (** [read_to_string] and [toml::from_str] *)
  Context (read_file : text → option text) (toml_from_str : text → option RawConfig).

Definition set_config_path (path : option text) (raw : RawConfig) : RawConfig := {|
  raw_listen := raw.(raw_listen); raw_listen_http := raw.(raw_listen_http);
  raw_http_redirect := raw.(raw_http_redirect); raw_key_file := raw.(raw_key_file);
  raw_store := raw.(raw_store); raw_auth_key := raw.(raw_auth_key);
  raw_tailnet_domain := raw.(raw_tailnet_domain); raw_server_url := raw.(raw_server_url);
  raw_magic_dns := raw.(raw_magic_dns); raw_dns_search_domains := raw.(raw_dns_search_domains);
  raw_dns_split := raw.(raw_dns_split); raw_dns_extra_records := raw.(raw_dns_extra_records);
  raw_oidc_issuer := raw.(raw_oidc_issuer); raw_oidc_client_id := raw.(raw_oidc_client_id);
  raw_oidc_client_secret := raw.(raw_oidc_client_secret);
  raw_oidc_redirect_uri := raw.(raw_oidc_redirect_uri); raw_oidc_scope := raw.(raw_oidc_scope);
  raw_derp_region_id := raw.(raw_derp_region_id); raw_derp_region_code := raw.(raw_derp_region_code);
  raw_derp_region_name := raw.(raw_derp_region_name); raw_derp_node_name := raw.(raw_derp_node_name);
  raw_derp_hostname := raw.(raw_derp_hostname); raw_derp_port := raw.(raw_derp_port);
  raw_stun_port := raw.(raw_stun_port); raw_stun_bind := raw.(raw_stun_bind);
  raw_ts2021_rate_per_min := raw.(raw_ts2021_rate_per_min); raw_ts2021_burst := raw.(raw_ts2021_burst);
  raw_register_rate_per_min := raw.(raw_register_rate_per_min);
  raw_register_burst := raw.(raw_register_burst); raw_bootstrap_dns_names := raw.(raw_bootstrap_dns_names);
  raw_trusted_proxies := raw.(raw_trusted_proxies); raw_tls := raw.(raw_tls); raw_config_path := path |}.

(** What the file gives, before the environment. *)
Definition load_file (path : option text) : result RawConfig ConfigError :=
  match path with
  | None => Ok RawConfig_default
  | Some path =>
      match read_file path with
      | None => Err (ReadFailed path)
      | Some t => match toml_from_str t with None => Err (ParseFailed path) | Some raw => Ok raw end
      end
  end.

Definition load (env : Environment) (path : option text) : result RawConfig ConfigError :=
  let? raw := load_file path in
  apply_env env (set_config_path path raw).

(** [resolve_config] *)
Definition resolve_config (env : Environment) (args : Args) : result ServerConfig ConfigError :=
  let? raw := load env args.(a_config) in
  Ok (resolve raw (overrides args)).

End load.

(** ** The precedence of the layers *)

(** A field with its four layers: what a run of the server takes for it. *)
Record Field : Type := {
  f_type : Type; f_name : text;
  from_cli : Args → option f_type;
  from_env : text → option f_type;   (** [None]: the text is refused *)
  from_file : RawConfig → option f_type;
  resolved : ServerConfig → option f_type;
  built_in : option f_type }.

(** Every field but those of the TLS section. *)
Definition FIELDS : list Field := [
  {| f_type := SocketAddr; f_name := str "listen";
     from_cli := a_listen; from_env := parse_socket_addr;
     from_file := raw_listen; resolved := λ c, Some c.(sc_listen);
     built_in := Some ServerConfig_default.(sc_listen) |};
  {| f_type := SocketAddr; f_name := str "listen_http";
     from_cli := a_listen_http; from_env := parse_socket_addr;
     from_file := raw_listen_http; resolved := sc_listen_http;
     built_in := None |};
  {| f_type := bool; f_name := str "http_redirect";
     from_cli := λ a, pick_opt a.(a_http_redirect) (negb <$> a.(a_no_http_redirect)); from_env := parse_bool;
     from_file := raw_http_redirect; resolved := λ c, Some c.(sc_http_redirect);
     built_in := Some ServerConfig_default.(sc_http_redirect) |};
  {| f_type := text; f_name := str "key_file";
     from_cli := a_key_file; from_env := Some;
     from_file := raw_key_file; resolved := λ c, Some c.(sc_key_file);
     built_in := Some ServerConfig_default.(sc_key_file) |};
  {| f_type := text; f_name := str "store";
     from_cli := a_store; from_env := Some;
     from_file := raw_store; resolved := sc_store;
     built_in := None |};
  {| f_type := text; f_name := str "auth_key";
     from_cli := a_auth_key; from_env := Some;
     from_file := raw_auth_key; resolved := sc_auth_key;
     built_in := None |};
  {| f_type := text; f_name := str "tailnet_domain";
     from_cli := a_tailnet_domain; from_env := Some;
     from_file := raw_tailnet_domain; resolved := sc_tailnet_domain;
     built_in := None |};
  {| f_type := text; f_name := str "server_url";
     from_cli := a_server_url; from_env := Some;
     from_file := raw_server_url; resolved := sc_server_url;
     built_in := None |};
  {| f_type := bool; f_name := str "magic_dns";
     from_cli := λ a, negb <$> a.(a_no_magic_dns); from_env := parse_bool;
     from_file := raw_magic_dns; resolved := λ c, Some c.(sc_magic_dns);
     built_in := Some ServerConfig_default.(sc_magic_dns) |};
  {| f_type := (list text); f_name := str "dns_search_domains";
     from_cli := λ a, list_option a.(a_dns_search_domain); from_env := λ v, Some (split_list v);
     from_file := raw_dns_search_domains; resolved := λ c, Some c.(sc_dns_search_domains);
     built_in := Some ServerConfig_default.(sc_dns_search_domains) |};
  {| f_type := (list text); f_name := str "dns_split";
     from_cli := λ a, list_option a.(a_dns_split); from_env := λ v, Some (split_list v);
     from_file := raw_dns_split; resolved := λ c, Some c.(sc_dns_split);
     built_in := Some ServerConfig_default.(sc_dns_split) |};
  {| f_type := text; f_name := str "dns_extra_records";
     from_cli := a_dns_extra_records; from_env := Some;
     from_file := raw_dns_extra_records; resolved := sc_dns_extra_records;
     built_in := None |};
  {| f_type := text; f_name := str "oidc_issuer";
     from_cli := a_oidc_issuer; from_env := Some;
     from_file := raw_oidc_issuer; resolved := sc_oidc_issuer;
     built_in := None |};
  {| f_type := text; f_name := str "oidc_client_id";
     from_cli := a_oidc_client_id; from_env := Some;
     from_file := raw_oidc_client_id; resolved := sc_oidc_client_id;
     built_in := None |};
  {| f_type := text; f_name := str "oidc_client_secret";
     from_cli := a_oidc_client_secret; from_env := Some;
     from_file := raw_oidc_client_secret; resolved := sc_oidc_client_secret;
     built_in := None |};
  {| f_type := text; f_name := str "oidc_redirect_uri";
     from_cli := a_oidc_redirect_uri; from_env := Some;
     from_file := raw_oidc_redirect_uri; resolved := sc_oidc_redirect_uri;
     built_in := None |};
  {| f_type := text; f_name := str "oidc_scope";
     from_cli := a_oidc_scope; from_env := Some;
     from_file := raw_oidc_scope; resolved := λ c, Some c.(sc_oidc_scope);
     built_in := Some ServerConfig_default.(sc_oidc_scope) |};
  {| f_type := Z; f_name := str "derp_region_id";
     from_cli := a_derp_region_id; from_env := parse_u64;
     from_file := raw_derp_region_id; resolved := λ c, Some c.(sc_derp_region_id);
     built_in := Some ServerConfig_default.(sc_derp_region_id) |};
  {| f_type := text; f_name := str "derp_region_code";
     from_cli := a_derp_region_code; from_env := Some;
     from_file := raw_derp_region_code; resolved := λ c, Some c.(sc_derp_region_code);
     built_in := Some ServerConfig_default.(sc_derp_region_code) |};
  {| f_type := text; f_name := str "derp_region_name";
     from_cli := a_derp_region_name; from_env := Some;
     from_file := raw_derp_region_name; resolved := λ c, Some c.(sc_derp_region_name);
     built_in := Some ServerConfig_default.(sc_derp_region_name) |};
  {| f_type := text; f_name := str "derp_node_name";
     from_cli := a_derp_node_name; from_env := Some;
     from_file := raw_derp_node_name; resolved := λ c, Some c.(sc_derp_node_name);
     built_in := Some ServerConfig_default.(sc_derp_node_name) |};
  {| f_type := text; f_name := str "derp_hostname";
     from_cli := a_derp_hostname; from_env := Some;
     from_file := raw_derp_hostname; resolved := λ c, Some c.(sc_derp_hostname);
     built_in := Some ServerConfig_default.(sc_derp_hostname) |};
  {| f_type := Z; f_name := str "derp_port";
     from_cli := a_derp_port; from_env := parse_i32;
     from_file := raw_derp_port; resolved := λ c, Some c.(sc_derp_port);
     built_in := Some ServerConfig_default.(sc_derp_port) |};
  {| f_type := Z; f_name := str "stun_port";
     from_cli := a_stun_port; from_env := parse_i32;
     from_file := raw_stun_port; resolved := λ c, Some c.(sc_stun_port);
     built_in := Some ServerConfig_default.(sc_stun_port) |};
  {| f_type := IpAddr; f_name := str "stun_bind";
     from_cli := a_stun_bind; from_env := parse_ip;
     from_file := raw_stun_bind; resolved := λ c, Some c.(sc_stun_bind);
     built_in := Some ServerConfig_default.(sc_stun_bind) |};
  {| f_type := Z; f_name := str "ts2021_rate_per_min";
     from_cli := a_ts2021_rate_per_min; from_env := parse_u64;
     from_file := raw_ts2021_rate_per_min; resolved := λ c, Some c.(sc_ts2021_rate_per_min);
     built_in := Some ServerConfig_default.(sc_ts2021_rate_per_min) |};
  {| f_type := Z; f_name := str "ts2021_burst";
     from_cli := a_ts2021_burst; from_env := parse_u32;
     from_file := raw_ts2021_burst; resolved := λ c, Some c.(sc_ts2021_burst);
     built_in := Some ServerConfig_default.(sc_ts2021_burst) |};
  {| f_type := Z; f_name := str "register_rate_per_min";
     from_cli := a_register_rate_per_min; from_env := parse_u64;
     from_file := raw_register_rate_per_min; resolved := λ c, Some c.(sc_register_rate_per_min);
     built_in := Some ServerConfig_default.(sc_register_rate_per_min) |};
  {| f_type := Z; f_name := str "register_burst";
     from_cli := a_register_burst; from_env := parse_u32;
     from_file := raw_register_burst; resolved := λ c, Some c.(sc_register_burst);
     built_in := Some ServerConfig_default.(sc_register_burst) |};
  {| f_type := text; f_name := str "bootstrap_dns_names";
     from_cli := a_bootstrap_dns_names; from_env := Some;
     from_file := raw_bootstrap_dns_names; resolved := λ c, Some c.(sc_bootstrap_dns_names);
     built_in := Some ServerConfig_default.(sc_bootstrap_dns_names) |};
  {| f_type := (list text); f_name := str "trusted_proxies";
     from_cli := λ a, list_option a.(a_trusted_proxy); from_env := λ v, Some (split_list v);
     from_file := raw_trusted_proxies; resolved := λ c, Some c.(sc_trusted_proxies);
     built_in := Some ServerConfig_default.(sc_trusted_proxies) |}].
(** ** Lemmas *)

(** What a variable leaves of a field. *)
Definition behind_env (env : Environment) (f : Field) (raw : RawConfig) : option f.(f_type) :=
  match env_value env f.(f_name) with Some v => f.(from_env) v | None => f.(from_file) raw end.

Definition refuses (env : Environment) (f : Field) : Prop :=
  ∃ v, env_value env f.(f_name) = Some v ∧ f.(from_env) v = None.

Lemma env_typed_spec {A} env field (parse : text → option A) old :
  match env_typed env field parse old with
  | Ok x => x = match env_value env (str field) with Some v => parse v | None => old end
            ∧ (∀ v, env_value env (str field) = Some v → parse v ≠ None)
  | Err e => ∃ v, env_value env (str field) = Some v ∧ parse v = None ∧ e = InvalidVariable (env_name (str field)) v
  end.
Proof.
  unfold env_typed. destruct (env_value env (str field)) as [v|]; [|done]. destruct (parse v) eqn:Hp; [|naive_solver].
  split; [done|]. intros v' [= <-]. by rewrite Hp.
Qed.

(** The environment overrides the file field by field, or names a variable it refuses. *)
Lemma apply_env_spec env raw :
  match apply_env env raw with
  | Ok raw' => raw'.(raw_tls) = tls_env env raw.(raw_tls)
      ∧ ∀ f, f ∈ FIELDS → f.(from_file) raw' = behind_env env f raw ∧ ¬ refuses env f
  | Err e => ∃ f v, f ∈ FIELDS ∧ env_value env f.(f_name) = Some v ∧ f.(from_env) v = None
      ∧ e = InvalidVariable (env_name f.(f_name)) v
  end.
Proof.
  unfold apply_env.
  assert (Hex : ∀ e, Exists (λ f, ∃ v, env_value env f.(f_name) = Some v ∧ f.(from_env) v = None
      ∧ e = InvalidVariable (env_name f.(f_name)) v) FIELDS →
    ∃ f v, f ∈ FIELDS ∧ env_value env f.(f_name) = Some v ∧ f.(from_env) v = None
      ∧ e = InvalidVariable (env_name f.(f_name)) v).
  { intros e (f & Hf & v & Hv)%list.Exists_exists. by exists f, v. }
  repeat match goal with
  | |- context [rbind (env_typed ?env ?field ?parse ?old) _] =>
      pose proof (env_typed_spec env field parse old); destruct (env_typed env field parse old); cbn [rbind]
  end.
  all: try (apply Hex; clear Hex; destruct_and?; repeat match goal with H : ∃ v, _ |- _ => destruct H as (v & Hv & Hp & ->) end;
    repeat first [apply Exists_cons_hd; exists v; split; [exact Hv|split; [exact Hp|reflexivity]] | apply Exists_cons_tl]).
  split; [done|]. intros f Hf. apply list_elem_of_In in Hf. clear Hex.
  repeat (destruct Hf as [<-|Hf];
    [unfold behind_env, refuses; cbn [f_name from_env from_file f_type];
     first [match goal with H : ?x = _ ∧ (∀ v, _) |- ?x = _ ∧ _ => destruct H as [Hval Hpar]; split; [exact Hval|];
              by intros (v & Hv & Hn); apply (Hpar v)
            end
           |split; [cbn; unfold env_text, env_list; by destruct (env_value env _)|by intros (v & _ & ?)]]|]).
  destruct Hf.
Qed.

Lemma load_file_path (set : RawConfig) path f : f ∈ FIELDS → f.(from_file) (set_config_path path set) = f.(from_file) set.
Proof. intros Hf. apply list_elem_of_In in Hf. repeat (destruct Hf as [<-|Hf]; [done|]). destruct Hf. Qed.

(** Of four layers the first that gives a value. *)
Definition first_layer {A} (layers : list (option A)) : option A :=
  foldr (λ o rest, match o with Some a => Some a | None => rest end) None layers.

Lemma resolve_layers raw args f :
  f ∈ FIELDS →
  f.(resolved) (resolve raw (overrides args)) = first_layer [f.(from_cli) args; f.(from_file) raw; f.(built_in)].
Proof.
  intros Hf. apply list_elem_of_In in Hf.
  repeat (destruct Hf as [<-|Hf];
    [cbn; unfold pick, pick_opt; repeat match goal with |- context [match ?x with Some _ => _ | None => _ end] => destruct x end; done|]).
  destruct Hf.
Qed.


(** ** Flags *)

(** clap's [ArgAction::SetTrue] on a flag that is given or not: it documents that the
    value is false by default, so the option is never empty. *)
Record SetTrue : Type := { set_true : bool → option bool; set_true_law given : set_true given = Some given }.

Definition with_flags (s : SetTrue) (redirect no_redirect no_dns : bool) (a : Args) : Prop :=
  a.(a_http_redirect) = s.(set_true) redirect ∧ a.(a_no_http_redirect) = s.(set_true) no_redirect
  ∧ a.(a_no_magic_dns) = s.(set_true) no_dns.

(** The three flags therefore decide alone: what the environment and the file say of
    MagicDNS and of the redirect is never used, nor is the default of the redirect, and
    [--no-http-redirect] says nothing. *)
Theorem flags_hide_layers s redirect no_redirect no_dns raw args :
  with_flags s redirect no_redirect no_dns args →
  (resolve raw (overrides args)).(sc_magic_dns) = negb no_dns
  ∧ (resolve raw (overrides args)).(sc_http_redirect) = redirect.
Proof. intros (Hr & Hn & Hd). cbn. by rewrite Hr, Hd, !set_true_law. Qed.

(** ** Examples *)

(** A command line with a file and the three flags. *)
Definition demo_args (config : option text) (redirect no_redirect no_dns : bool) : Args := {|
  a_config := config; a_listen := None; a_listen_http := None; a_http_redirect := Some redirect;
  a_no_http_redirect := Some no_redirect; a_key_file := None; a_store := None; a_auth_key := None;
  a_tailnet_domain := None; a_server_url := None; a_no_magic_dns := Some no_dns; a_dns_search_domain := [];
  a_dns_split := []; a_dns_extra_records := None; a_oidc_issuer := None; a_oidc_client_id := None;
  a_oidc_client_secret := None; a_oidc_redirect_uri := None; a_oidc_scope := None; a_derp_region_id := None;
  a_derp_region_code := None; a_derp_region_name := None; a_derp_node_name := None; a_derp_hostname := None;
  a_derp_port := None; a_stun_port := None; a_stun_bind := None; a_ts2021_rate_per_min := None;
  a_ts2021_burst := None; a_register_rate_per_min := None; a_register_burst := None;
  a_bootstrap_dns_names := None; a_trusted_proxy := []; a_tls_mode := None; a_tls_cert_file := None;
  a_tls_key_file := None; a_acme_domain := []; a_acme_email := []; a_acme_cache_dir := None;
  a_acme_directory_url := None |}.

Example default_listen_parses : parse_socket_addr DEFAULT_LISTEN_ADDR = Some default_listen.
Proof. by vm_compute. Qed.

Example default_stun_bind_parses : parse_ip (str "0.0.0.0") = Some ServerConfig_default.(sc_stun_bind).
Proof. by vm_compute. Qed.

Definition demo_env : Environment := λ name,
  if bool_decide (name = str "CRABSCALE_STUN_PORT") then Some (str "0")
  else if bool_decide (name = str "CRABSCALE_TRUSTED_PROXIES") then Some (str "127.0.0.1/32, 10.0.0.0/8,")
  else None.

(** A file that asks for port 9000 and another STUN port. *)
Definition demo_raw : RawConfig :=
  match apply_env (λ name, if bool_decide (name = str "CRABSCALE_LISTEN") then Some (str "[::1]:9000")
                           else if bool_decide (name = str "CRABSCALE_STUN_PORT") then Some (str "3479") else None) RawConfig_default with
  | Ok raw => raw
  | Err _ => RawConfig_default
  end.

Example demo_layers :
  match resolve_config (λ _, None) (λ _, None) demo_env (demo_args None false false false) with
  | Ok c => c.(sc_stun_port) = 0 ∧ c.(sc_trusted_proxies) = [str "127.0.0.1/32"; str "10.0.0.0/8"] ∧ c.(sc_listen) = default_listen
  | Err _ => False
  end.
Proof. by vm_compute. Qed.


Lemma flags_hide_layers_witness :
  (resolve demo_raw (overrides (demo_args None false true false))).(sc_magic_dns) = true
  ∧ (resolve demo_raw (overrides (demo_args None false true false))).(sc_http_redirect) = false.
Proof.
  refine (flags_hide_layers {| set_true := Some; set_true_law _ := eq_refl |} false true false demo_raw
            (demo_args None false true false) _).
  by split_and!.
Defined.
