(* ===== verification/Listen.v ===== *)
(** * The listeners of the server ([crabscale-server/src/http.rs], [tls.rs], [stun.rs])

    Around the router: what a TLS acceptor is made of, the loops that accept
    connections, and the UDP loop that answers STUN.  A loop runs over what its
    [select!] finds, one event a turn: a connection or a datagram, a failure of the
    socket, or the request to stop (a dropped handle is one, too).  What the files of
    certificates hold and which pairs rustls takes is the record [TlsFiles]. *)

From S2P Require Import Prelude Text Net Stun IpText Http Config.

(** ** TLS *)

(** The PEM files: a chain that is opened and then parsed, a key, what the crypto
    provider supports, and [with_single_cert]. *)
Record TlsFiles : Type := {
  pem_chain : text → option (option (list bytes));
  pem_key : text → option bytes;
  default_versions : bool;
  valid_pair : list bytes → bytes → bool }.

Inductive TlsError : Type :=
| TlsDisabled                         (** "TLS is disabled; refusing to build an acceptor" *)
| RequiresCertFile
| RequiresKeyFile
| RequiresDomains
| RequiresCacheDir
| CertOpen (file : text)
| CertParse (file : text)
| NoCertificates (file : text)
| KeyLoad (file : text)
| UnsupportedVersions
| InvalidPair.

Inductive AcmeDirectory : Type := LetsEncrypt (production : bool) | DirectoryUrl (url : text).

(** The configuration of the [rustls_acme] library. *)
Record AcmeSetup : Type := {
  ac_domains : list text; ac_cache : text; ac_contact : list text; ac_directory : AcmeDirectory }.

Inductive TlsAcceptor : Type :=
| TlsFilesAcceptor (chain : list bytes) (key : bytes)
| TlsAcmeAcceptor (acme : AcmeSetup).

Definition load_file_config (f : TlsFiles) (cert_file key_file : text) : result (list bytes * bytes) TlsError :=
  let? parsed := ok_or (f.(pem_chain) cert_file) (CertOpen cert_file) in
  let? certs := ok_or parsed (CertParse cert_file) in
  fail_if bool_decide (certs = []) with NoCertificates cert_file ;;
  let? key := ok_or (f.(pem_key) key_file) (KeyLoad key_file) in
  fail_if negb f.(default_versions) with UnsupportedVersions ;;
  fail_if negb (f.(valid_pair) certs key) with InvalidPair ;;
  Ok (certs, key).

Definition load_tls_acceptor (f : TlsFiles) (settings : TlsSettings) : result TlsAcceptor TlsError :=
  fail_if is_off settings with TlsDisabled ;;
  if is_files settings then
    let? cert := ok_or settings.(cert_file) RequiresCertFile in
    let? key := ok_or settings.(tls_key_file) RequiresKeyFile in
    let? config := load_file_config f cert key in
    Ok (TlsFilesAcceptor config.1 config.2)
  else
    fail_if bool_decide (settings.(acme_domains) = []) with RequiresDomains ;;
    let? cache := ok_or settings.(acme_cache_dir) RequiresCacheDir in
    Ok (TlsAcmeAcceptor
          {| ac_domains := settings.(acme_domains); ac_cache := cache;
             ac_contact := map (app (str "mailto:")) settings.(acme_contact);
             ac_directory := match settings.(acme_directory_url) with
                             | Some url => DirectoryUrl url
                             | None => LetsEncrypt true
                             end |}).

(** With which certificate a handshake is answered: [challenge] tells whether the hello
    is one of TLS-ALPN-01. *)
Inductive Certificate : Type := StaticCertificate (chain : list bytes) (key : bytes) | ChallengeCertificate | ManagedCertificate.

Definition tls_accept (acceptor : TlsAcceptor) (challenge : bool) : Certificate :=
  match acceptor with
  | TlsFilesAcceptor chain key => StaticCertificate chain key
  | TlsAcmeAcceptor _ => if challenge then ChallengeCertificate else ManagedCertificate
  end.

(** ** The accept loops *)

Inductive listen_event (A : Type) : Type :=
| StopRequested
| Arrived (a : A)
| SocketFails.
Arguments StopRequested {A}. Arguments Arrived {A} a. Arguments SocketFails {A}.

(** [serve_with_options]: the connections handed to a task of their
    own, and how the loop ends, if it does; a failing [accept] is returned. *)
Fixpoint serve_with_options {A} (events : list (listen_event A)) : list A * option (result unit unit) :=
  match events with
  | [] => ([], None)
  | StopRequested :: _ => ([], Some (Ok tt))
  | SocketFails :: _ => ([], Some (Err tt))
  | Arrived a :: events => let '(l, r) := serve_with_options events in (a :: l, r)
  end.

(** [serve_redirect]: the same loop; the requests of a connection are all answered with
    the way to the HTTPS listener. *)
Definition serve_redirect (header_value : text → bool) (fallback_host : text) (events : list (listen_event (list HttpRequest)))
    : list (list HttpResponse) * option (result unit unit) :=
  let '(connections, r) := serve_with_options events in
  (map (map (λ req, https_redirect header_value req fallback_host)) connections, r).

(** [handle_connection]: the stream hyper reads requests from; a TLS handshake that
    fails ends the connection before the first. *)
Definition handle_connection {R} (tls : option TlsAcceptor) (handshake : bool) (requests : list R) : list R :=
  match tls with
  | Some _ => if handshake then requests else []
  | None => requests
  end.

(** ** STUN *)

Definition STUN_BUFFER : Z := 1500.

(** The loop of [serve_stun]: a datagram is cut to the buffer, and what is no request is
    passed over, as is a failing receive.  What is sent, and where to. *)
Fixpoint serve_stun (events : list (listen_event (bytes * IpAddr * Z))) : list (bytes * (IpAddr * Z)) :=
  match events with
  | [] => []
  | StopRequested :: _ => []
  | SocketFails :: events => serve_stun events
  | Arrived (datagram, ip, port) :: events =>
      match parse_binding_request (ztake STUN_BUFFER datagram) with
      | Err _ => serve_stun events
      | Ok tx => (build_binding_response tx ip port, (ip, port)) :: serve_stun events
      end
  end.

(** ** What is loaded *)

Ltac destruct_all H :=
  match type of H with
  | _ ∧ _ => let H' := fresh in destruct H as [H' H]; destruct_all H'; destruct_all H
  | ∃ _, _ => destruct H as [? H]; destruct_all H
  | _ => idtac
  end.

(** No acceptor has the settings of this case. *)
Ltac refused :=
  split; [done|]; let H := fresh in intros [_ H];
  match goal with a : TlsAcceptor |- _ => destruct a end; destruct_all H; congruence.

(** An acceptor is built exactly from settings that turn TLS on and are complete: in the
    mode [files], or any other that is neither off nor [acme], from a chain with a
    certificate and a key that fits it; in the mode [acme], with a domain and a cache. *)
Theorem load_tls_exact f settings acceptor :
  load_tls_acceptor f settings = Ok acceptor ↔
  is_off settings = false
  ∧ match acceptor with
    | TlsFilesAcceptor chain key =>
        is_acme settings = false ∧ chain ≠ [] ∧ f.(default_versions) = true ∧ f.(valid_pair) chain key = true
        ∧ ∃ cf kf, settings.(cert_file) = Some cf ∧ settings.(tls_key_file) = Some kf
            ∧ f.(pem_chain) cf = Some (Some chain) ∧ f.(pem_key) kf = Some key
    | TlsAcmeAcceptor a =>
        is_acme settings = true ∧ settings.(acme_domains) ≠ [] ∧ settings.(acme_cache_dir) = Some a.(ac_cache)
        ∧ a.(ac_domains) = settings.(acme_domains) ∧ a.(ac_contact) = map (app (str "mailto:")) settings.(acme_contact)
        ∧ a.(ac_directory) = match settings.(acme_directory_url) with Some url => DirectoryUrl url | None => LetsEncrypt true end
    end.
Proof.
  unfold load_tls_acceptor, is_files, load_file_config. destruct (is_off settings); [split; [done|by intros [? _]]|].
  destruct (is_acme settings); cbn [negb andb].
  - case_bool_decide as Hd; [refused|]. destruct (acme_cache_dir settings) as [cache|]; cbn [ok_or rbind]; [|refused].
    split; [intros [= <-]; by split_and!|]. intros (_ & Ha). destruct acceptor as [|[d c k u]]; [by destruct Ha|].
    cbn [ac_domains ac_cache ac_contact ac_directory] in Ha. destruct Ha as (_ & _ & [= ->] & -> & -> & ->). done.
  - destruct (cert_file settings) as [cf|]; cbn [ok_or rbind]; [|refused].
    destruct (tls_key_file settings) as [kf|]; cbn [ok_or rbind]; [|refused].
    destruct (pem_chain f cf) as [[chain|]|] eqn:Hc; cbn [ok_or rbind]; [|refused..].
    case_bool_decide as Hn; cbn [rbind]; [refused|].
    destruct (pem_key f kf) as [key|] eqn:Hk; cbn [ok_or rbind]; [|refused].
    destruct (default_versions f); cbn [negb rbind]; [|refused].
    destruct (valid_pair f chain key) eqn:Hv; cbn [negb rbind fst snd]; [|refused].
    split; [|by intros [_ Hx]; destruct acceptor; destruct_all Hx; congruence].
    intros [= <-]. split_and!; try done. by exists cf, kf.
Qed.

(** ** What is served *)

Definition arrivals {A} (events : list (listen_event A)) : list A :=
  omap (λ e, match e with Arrived a => Some a | _ => None end) events.

Definition arrived {A} (e : listen_event A) : bool := match e with Arrived _ => true | _ => false end.

(** Every connection is served, in order, up to the first event that is none; the event
    says how the loop ends. *)
Lemma listener_serves {A} (before : list (listen_event A)) e after :
  Forall (λ e, arrived e = true) before → arrived e = false →
  serve_with_options (before ++ e :: after)
  = (arrivals before, Some (match e with SocketFails => Err tt | _ => Ok tt end)).
Proof.
  intros Hb He. induction Hb as [|[|a|] before Hx _ IH]; [by destruct e|done| |done].
  cbn [app serve_with_options]. by rewrite IH.
Qed.

(** The loop goes on until a stop is requested or an [accept] fails; after a failure
    nobody is served, though nobody asked to stop. *)
Theorem accept_failure_ends_listener {A} (before after : list (listen_event A)) :
  Forall (λ e, arrived e = true) before →
  serve_with_options (before ++ SocketFails :: after) = (arrivals before, Some (Err tt)).
Proof. intros Hb. by apply listener_serves. Qed.

Lemma accept_failure_ends_listener_witness :
  serve_with_options ([Arrived 1; Arrived 2] ++ SocketFails :: [Arrived 3; StopRequested]) = ([1; 2], Some (Err tt)).
Proof. apply (accept_failure_ends_listener [Arrived 1; Arrived 2]). by repeat constructor. Defined.

Lemma serve_stun_app before after :
  StopRequested ∉ before → serve_stun (before ++ after) = serve_stun before ++ serve_stun after.
Proof.
  induction before as [|[|[[d ip] port]|] before IH]; intros Hn; [done|by destruct Hn; left|..];
    apply not_elem_of_cons in Hn as [_ Hn]; cbn [app serve_stun]; [|by apply IH].
  destruct (parse_binding_request _); by rewrite IH.
Qed.

Lemma request_tx_len packet tx : parse_binding_request packet = Ok tx → zlen tx = TXID_LEN.
Proof.
  unfold parse_binding_request, parse_header, HEADER_LEN. destruct (Z.ltb_spec (zlen packet) 20) as [|Hl]; [done|].
  destruct (negb (_ =? MAGIC_COOKIE)); [done|]. cbn [rbind]. destruct (negb _); [done|]. destruct (_ <? _); [done|].
  intros [= <-]. rewrite zlen_slice by lia. done.
Qed.

(** A client that asks before the stop gets one answer, after those of the clients before
    it, sent to where it asked from, and reads its own address from it. *)
Theorem stun_client_answered before after datagram ip port tx :
  StopRequested ∉ before → zlen datagram ≤ STUN_BUFFER → parse_binding_request datagram = Ok tx →
  addr_wf ip → 0 ≤ port < 2 ^ 16 →
  ∃ answer, serve_stun (before ++ Arrived (datagram, ip, port) :: after)
              = serve_stun before ++ (answer, (ip, port)) :: serve_stun after
    ∧ parse_binding_response answer = Ok (tx, ip, port).
Proof.
  intros Hb Hl Hp Hi Hport. exists (build_binding_response tx ip port). split.
  - rewrite serve_stun_app by done. cbn [serve_stun].
    assert (ztake STUN_BUFFER datagram = datagram) as -> by (unfold ztake, zlen in *; apply firstn_all2; lia). by rewrite Hp.
  - apply stun_response_roundtrip; [by eapply request_tx_len|done..].
Qed.

Lemma stun_client_answered_witness :
  let request := stun_message TYPE_BINDING_REQUEST (zeros 12) [] in
  ∃ answer, serve_stun ([Arrived ([1; 2], V4 1, 5); SocketFails] ++ Arrived (request, V4 0xCB007105, 41641) :: [StopRequested])
              = serve_stun [Arrived ([1; 2], V4 1, 5); SocketFails] ++ (answer, (V4 0xCB007105, 41641)) :: []
    ∧ parse_binding_response answer = Ok (zeros 12, V4 0xCB007105, 41641).
Proof.
  intros request. apply (stun_client_answered [Arrived ([1; 2], V4 1, 5); SocketFails] [StopRequested] request); try by vm_compute.
  rewrite !not_elem_of_cons. split_and!; [done..|apply not_elem_of_nil].
Defined.

(** Nothing else is sent: an answer goes to the source of a request. *)
Lemma stun_sends_answers events answer ip port :
  (answer, (ip, port)) ∈ serve_stun events →
  ∃ datagram tx, Arrived (datagram, ip, port) ∈ events ∧ parse_binding_request (ztake STUN_BUFFER datagram) = Ok tx
    ∧ answer = build_binding_response tx ip port.
Proof.
  induction events as [|[|[[d i] p]|] events IH]; cbn [serve_stun]; [by intros []%not_elem_of_nil..| |].
  - destruct (parse_binding_request (ztake STUN_BUFFER d)) as [tx|] eqn:E.
    + intros [[= -> -> ->]|Hin]%elem_of_cons; [exists d, tx; split; [by left|done]|].
      destruct (IH Hin) as (d' & tx' & ? & ?). exists d', tx'. split; [by right|done].
    + intros Hin. destruct (IH Hin) as (d' & tx' & ? & ?). exists d', tx'. split; [by right|done].
  - intros Hin. destruct (IH Hin) as (d' & tx' & ? & ?). exists d', tx'. split; [by right|done].
Qed.
