(* ===== verification/Startup.v ===== *)
(** * Starting the server ([crabscale-server/src/main.rs])

    From the resolved configuration to the server that runs: the control plane's
    configuration, the DERP map, the identity provider, and the steps of [run] in their
    order, each with its error.  Files, sockets, TLS and the network are what the
    environment of the start answers. *)

From S2P Require Import Prelude ProtoKey ProtoFrame Text Net IpText Url TransportRecord Noise PolicyModel PolicyTags PolicyCompile NetMap PreAuth Store Dns SshPolicy Delta Control Registration MapRequest Demo Proxy RateLimit Upgrade Http Oidc Router Admission Security Server Config Listen.

(** ** Configurations *)

(** The DNS rules [suffix=address]; the addresses of a suffix in their order. *)
Definition split_rules (rules : list text) : gmap text (list text) :=
  fold_left (λ m rule,
    match split_once 61 rule with
    | Some (suffix, addr) => <[suffix := default [] (m !! suffix) ++ [addr]]> m
    | None => m
    end) rules ∅.

Definition build_derp_map (c : ServerConfig) : DerpMap :=
  let node :=
    {| dpn_name := c.(sc_derp_node_name); dpn_region_id := c.(sc_derp_region_id); dpn_host_name := c.(sc_derp_hostname);
       dpn_cert_name := DerpNode_default.(dpn_cert_name); dpn_ipv4 := DerpNode_default.(dpn_ipv4);
       dpn_ipv6 := DerpNode_default.(dpn_ipv6);
       dpn_stun_port := if c.(sc_stun_port) =? 0 then -1 else c.(sc_stun_port);
       dpn_stun_only := DerpNode_default.(dpn_stun_only); dpn_derp_port := c.(sc_derp_port);
       dpn_insecure_for_tests := DerpNode_default.(dpn_insecure_for_tests);
       dpn_stun_test_ip := DerpNode_default.(dpn_stun_test_ip); dpn_can_port_80 := DerpNode_default.(dpn_can_port_80) |} in
  let region :=
    {| dpr_region_id := c.(sc_derp_region_id); dpr_region_code := c.(sc_derp_region_code);
       dpr_region_name := c.(sc_derp_region_name); dpr_avoid := false; dpr_nodes := [node] |} in
  {| dpm_regions := {[show_uint c.(sc_derp_region_id) := region]}; dpm_omit_default_regions := true |}.

Definition control_config (c : ServerConfig) : ControlConfig :=
  let defaults := ControlConfig_default in
  {| cfg_auth_key := default defaults.(cfg_auth_key) c.(sc_auth_key);
     cfg_protocol_version := defaults.(cfg_protocol_version);
     cfg_tailnet_domain := default defaults.(cfg_tailnet_domain) c.(sc_tailnet_domain);
     cfg_policy := defaults.(cfg_policy); cfg_user_id := defaults.(cfg_user_id); cfg_login_id := defaults.(cfg_login_id);
     cfg_user_login_name := defaults.(cfg_user_login_name); cfg_user_display_name := defaults.(cfg_user_display_name);
     cfg_allocator := defaults.(cfg_allocator);
     cfg_server_url := default defaults.(cfg_server_url) c.(sc_server_url);
     cfg_pending_ttl_seconds := defaults.(cfg_pending_ttl_seconds);
     cfg_pending_cache_limit := defaults.(cfg_pending_cache_limit);
     cfg_reconnect_grace_seconds := defaults.(cfg_reconnect_grace_seconds);
     cfg_change_batch_max := defaults.(cfg_change_batch_max); cfg_derp_map := build_derp_map c;
     cfg_dns :=
       {| ds_magic_dns := c.(sc_magic_dns); ds_magic_dns_ipv4 := DnsSettings_default.(ds_magic_dns_ipv4);
          ds_magic_dns_ipv6 := DnsSettings_default.(ds_magic_dns_ipv6); ds_search_domains := c.(sc_dns_search_domains);
          ds_split_dns := split_rules c.(sc_dns_split); ds_extra_records_path := c.(sc_dns_extra_records) |} |}.

(** The name of a machine in a URL, as [Url::parse] finds it: its host and port. *)
Definition redirect_fallback_host (parse_url : text → option (option text * option Z)) (c : ServerConfig) : text :=
  default (str "localhost")
    (u ← c.(sc_server_url);
     '(host, port) ← parse_url u;
     host ← host;
     Some (match port with Some port => host ++ [58] ++ show_uint port | None => host end)).

(** ** Starting *)

Inductive StartError : Type :=
| StartConfig (e : ConfigError)
| StartKey
| StartStore (e : StoreError)
| StartOidc (e : text)
| StartDiscovery (e : OidcError)
| StartStun
| StartTls (e : TlsError)
| StartProxies (cidr e : text)
| StartListen
| StartRedirect.

Section start.
  Context `{R : RecordsJson, L : OidcLibrary, P : NoisePrimitives} {N : Type} `{!IpNetwork N}.

(** What the process finds: its environment, the files with their contents, random
    bytes, the answer of the provider, the resolver and the sockets. *)
Record World : Type := {
  w_env : Environment;
  w_read : text → option text;
  w_toml : text → option RawConfig;
  w_key_file : text → option bytes;
  w_random : bytes;
  w_key_written : bool;
  w_open : text → result Store StoreError;   (** [SqliteStore::open] *)
  w_records : result bytes text;
  w_discovery : http_answer;
  w_lookup : text → option (list IpAddr);
  w_tls : TlsFiles;
  w_bind_udp : SocketAddr → bool;
  w_bind_tcp : SocketAddr → bool;
  w_parse_url : text → option (option text * option Z) }.

(** A server that runs: its router, key and options, and where it listens. *)
Record Started : Type := {
  st_config : ServerConfig;
  st_router : ControlRouter;
  st_key : ServerKey;
  st_proxies : option (TrustedProxies (N := N));
  st_tls : option TlsAcceptor;
  st_stun : option SocketAddr;
  st_redirect : option (SocketAddr * text) }.

Definition build_oidc (w : World) (c : ServerConfig) : result (option OidcClient) StartError :=
  match c.(sc_oidc_issuer) with
  | None =>
      if bool_decide (is_Some c.(sc_oidc_client_id)) || bool_decide (is_Some c.(sc_oidc_client_secret))
      then Err (StartOidc (str "oidc client id/secret require oidc_issuer"))
      else Ok None
  | Some issuer =>
      let? client_id := ok_or c.(sc_oidc_client_id) (StartOidc (str "oidc_client_id is required with oidc_issuer")) in
      let? client_secret :=
        ok_or c.(sc_oidc_client_secret) (StartOidc (str "oidc_client_secret is required with oidc_issuer")) in
      let server_url := (control_config c).(cfg_server_url) in
      let redirect_uri := default (server_url ++ str "/oidc/callback") c.(sc_oidc_redirect_uri) in
      let config :=
        {| oc_issuer := issuer; oc_client_id := client_id; oc_client_secret := client_secret;
           oc_redirect_uri := redirect_uri; oc_scope := c.(sc_oidc_scope) |} in
      let? client := map_err StartDiscovery (discover config w.(w_discovery)) in
      Ok (Some client)
  end.

(** [as u16] keeps the low bits of the port. *)
Definition stun_addr (c : ServerConfig) : SocketAddr :=
  {| sa_ip := c.(sc_stun_bind); sa_scope := 0; sa_port := wrap 16 c.(sc_stun_port) |}.

Definition bind_stun (w : World) (c : ServerConfig) : result (option SocketAddr) StartError :=
  if c.(sc_stun_port) =? 0 then Ok None
  else if w.(w_bind_udp) (stun_addr c) then Ok (Some (stun_addr c)) else Err StartStun.

Definition publish_bootstrap (w : World) (c : ServerConfig) (r : ControlRouter) : ControlRouter :=
  if bool_decide (c.(sc_bootstrap_dns_names) = []) then r
  else with_bootstrap_dns (BootstrapDns_resolve w.(w_lookup) (split_list c.(sc_bootstrap_dns_names))) r.

Definition rate_limits (c : ServerConfig) : RateLimitConfig :=
  {| ts2021_per_min := c.(sc_ts2021_rate_per_min); ts2021_burst := c.(sc_ts2021_burst);
     register_per_min := c.(sc_register_rate_per_min); register_burst := c.(sc_register_burst);
     cfg_max_entries := DEFAULT_MAX_RATE_KEYS |}.

Definition open_control (w : World) (c : ServerConfig) : result ControlPlane StartError :=
  let? store :=
    match c.(sc_store) with
    | Some path => map_err StartStore (w.(w_open) path)
    | None => Ok Store_empty
    end in
  Ok (ControlPlane_with_store (control_config c) w.(w_records) store).

Definition load_proxies (c : ServerConfig) : result (option (TrustedProxies (N := N))) StartError :=
  if bool_decide (c.(sc_trusted_proxies) = []) then Ok None
  else rmap Some (map_err (λ e, StartProxies e.1 e.2) (from_cidrs c.(sc_trusted_proxies))).

(** The listener that redirects runs beside TLS, where it is wanted. *)
Definition bind_redirect (w : World) (c : ServerConfig) (tls : option TlsAcceptor) : result (option (SocketAddr * text)) StartError :=
  match c.(sc_listen_http) with
  | Some addr =>
      if bool_decide (is_Some tls) && c.(sc_http_redirect) then
        if w.(w_bind_tcp) addr then Ok (Some (addr, redirect_fallback_host w.(w_parse_url) c)) else Err StartRedirect
      else Ok None
  | None => Ok None
  end.

(** [run], up to the moment it waits for the signal. *)
Definition run (w : World) (args : Args) : result Started StartError :=
  let? config := map_err StartConfig (resolve_config w.(w_read) w.(w_toml) w.(w_env) args) in
  let? key := ok_or (fst <$> load_or_create_machine_key (w.(w_key_file) config.(sc_key_file)) w.(w_random) w.(w_key_written))
                StartKey in
  let? control := open_control w config in
  let router := ControlRouter_with_control key.(public) control in
  let? oidc := build_oidc w config in
  let router := match oidc with Some oidc => with_oidc oidc router | None => router end in
  let? stun := bind_stun w config in
  let router := publish_bootstrap w config router in
  let router := with_rate_limits (rate_limits config) router in
  let? tls :=
    if is_off config.(sc_tls) then Ok None
    else rmap Some (map_err StartTls (load_tls_acceptor w.(w_tls) config.(sc_tls))) in
  let? proxies := load_proxies config in
  fail_if negb (w.(w_bind_tcp) config.(sc_listen)) with StartListen ;;
  let? redirect := bind_redirect w config tls in
  Ok {| st_config := config; st_router := router; st_key := key; st_proxies := proxies; st_tls := tls;
        st_stun := stun; st_redirect := redirect |}.

End start.

(** ** What runs after the start *)

Section started.
  Context `{R : RecordsJson, L : OidcLibrary, P : NoisePrimitives} {N : Type} `{!IpNetwork N}.

(** The store that a start finds. *)
Definition found_store (w : World) (c : ServerConfig) : option Store :=
  match c.(sc_store) with Some path => rok (w.(w_open) path) | None => Some Store_empty end.

Lemma run_started w args (st : Started) :
  run (N := N) w args = Ok st →
  ∃ s0 b, found_store w st.(st_config) = Some s0
    ∧ resolve_config w.(w_read) w.(w_toml) w.(w_env) args = Ok st.(st_config)
    ∧ load_or_create_machine_key (w.(w_key_file) st.(st_config).(sc_key_file)) w.(w_random) w.(w_key_written) = Some (st.(st_key), b)
    ∧ st.(st_router).(control) = ControlPlane_with_store (control_config st.(st_config)) w.(w_records) s0
    ∧ st.(st_router).(machine_key) = st.(st_key).(public)
    ∧ bind_stun w st.(st_config) = Ok st.(st_stun)
    ∧ bind_redirect w st.(st_config) st.(st_tls) = Ok st.(st_redirect)
    ∧ (if is_off st.(st_config).(sc_tls) then st.(st_tls) = None
       else ∃ a, st.(st_tls) = Some a ∧ load_tls_acceptor w.(w_tls) st.(st_config).(sc_tls) = Ok a).
Proof.
  unfold run. destruct (resolve_config _ _ _ _) as [c|] eqn:Hc; cbn [rbind map_err]; [|done].
  destruct (load_or_create_machine_key _ _ _) as [[key b]|] eqn:Hk; cbn [rbind ok_or fmap option_fmap option_map fst]; [|done].
  destruct (open_control w c) as [p|] eqn:Ho; cbn [rbind]; [|done].
  destruct (build_oidc w c) as [oidc|]; cbn [rbind]; [|done].
  destruct (bind_stun w c) as [stun|] eqn:Hs; cbn [rbind]; [|done].
  destruct (if is_off (sc_tls c) then Ok None else _) as [tls|] eqn:Ht; cbn [rbind]; [|done].
  destruct (load_proxies c) as [proxies|]; cbn [rbind]; [|done]. destruct (negb _); [done|].
  destruct (bind_redirect _ _ _) as [redirect|] eqn:Hr; cbn [rbind]; [|done].
  intros [= <-]. cbn [st_config st_router st_key st_stun st_redirect st_tls].
  unfold open_control in Ho. unfold found_store.
  destruct (match sc_store c with Some path => map_err StartStore (w_open w path) | None => Ok Store_empty end) as [s0|] eqn:Hs0;
    cbn [rbind] in Ho; [|done]. injection Ho as <-.
  exists s0, b. split_and!; try done.
  - destruct (sc_store c) as [path|]; [|by injection Hs0 as ->]. by destruct (w_open w path); [injection Hs0 as ->|].
  - unfold publish_bootstrap. case_bool_decide; by destruct oidc.
  - unfold publish_bootstrap. case_bool_decide; by destruct oidc.
  - destruct (is_off (sc_tls c)); [by injection Ht as ->|].
    destruct (load_tls_acceptor _ _) as [acc|]; cbn in Ht; [|done]. injection Ht as <-. by exists acc.
Qed.

End started.

(** The secret of the key is what the file holds, or what was drawn. *)
Lemma started_key `{NoisePrimitives} file random written k b :
  load_or_create_machine_key file random written = Some (k, b) →
  k.(responder) = NoiseResponder_from_bytes (default random file).
Proof.
  unfold load_or_create_machine_key. destruct file as [f|]; cbn.
  - destruct (_ =? _); [|done]. by intros [= <- <-].
  - destruct written; [|done]. by intros [= <- <-].
Qed.

Section theorems.
  Context `{Q : Sqlite, !SqliteLaws Q, C : KeyCrypto, T : Rfc3339, W : WireCodec, R : RecordsJson, L : OidcLibrary, J : RequestJson, H : HttpLibrary}.
  Context `{P : NoisePrimitives, B64 : Base64} {N : Type} `{!IpNetwork N}.


End theorems.

(** ** Without a policy *)

Section isolation.
  Context (nodes : list CompileNode).

Lemma filled_empty {A} (f : Z → A) (d : A) (step : Z → gmap Z A → gmap Z A) i :
  (∀ id m, (∀ i v, m !! i = Some v → v = d) → ∀ i v, step id m !! i = Some v → v = d) →
  default d (fold_left (λ m n, step n.(cn_id) m) nodes ∅ !! i) = d.
Proof.
  intros Hs. assert (Hg : ∀ m, (∀ i v, m !! i = Some v → v = d) →
    ∀ i v, fold_left (λ m n, step n.(cn_id) m) nodes m !! i = Some v → v = d).
  { induction nodes as [|n ns IH]; intros m Hm; [done|]. cbn [fold_left]. apply IH. by apply Hs. }
  destruct (fold_left _ nodes ∅ !! i) as [v|] eqn:Hv; [|done]. cbn. eapply Hg, Hv. intros j v'. by rewrite lookup_empty.
Qed.

Lemma or_default_fills {A} id (m : gmap Z (list A)) :
  (∀ i v, m !! i = Some v → v = []) → ∀ i v, or_default [] id m !! i = Some v → v = [].
Proof.
  intros Hm i v. unfold or_default. rewrite lookup_insert_Some. intros [[_ <-]|[_ Hv]]; [|by eapply Hm].
  destruct (m !! id) eqn:Hi; [by eapply Hm|done].
Qed.

Lemma nothing_compiled i :
  default ∅ ((compile_policy Policy_default nodes).(peer_visibility) !! i) = ∅
  ∧ default [] ((compile_policy Policy_default nodes).(node_filters) !! i) = []
  ∧ default [] ((compile_ssh_policy Policy_default nodes).(node_rules) !! i) = [].
Proof.
  unfold compile_policy, compile_ssh_policy. cbn [acls grants policy_ssh Policy_default fold_left peer_visibility node_filters node_rules
    can_reach c_filters Compiling_new]. split_and!.
  - apply (filled_empty (λ _, ∅) ∅ (λ id m, <[id := visible_to ∅ id]> m)). intros id m Hm j v.
    rewrite lookup_insert_Some. intros [[_ <-]|[_ Hv]]; [|by eapply Hm].
    unfold visible_to. rewrite lookup_empty, map_filter_empty, dom_empty_L. set_solver.
  - apply (filled_empty (λ _, []) [] (λ id m, or_default [] id m)). intros id m. apply or_default_fills.
  - apply (filled_empty (λ _, []) [] (λ id m, or_default [] id m)). intros id m. apply or_default_fills.
Qed.

Lemma no_wire_rules i url others : build_wire_ssh_policy (compile_ssh_policy Policy_default nodes) i url others = None.
Proof.
  destruct (nothing_compiled i) as (_ & _ & Hs). unfold build_wire_ssh_policy.
  by destruct (node_rules (compile_ssh_policy Policy_default nodes) !! i) as [[]|].
Qed.

End isolation.

Lemma collect_none pl key version stored peers users :
  collect_peers pl key ∅ version stored peers users = Some (peers, users).
Proof.
  induction stored as [|n rest IH]; [done|]. cbn [collect_peers].
  rewrite (bool_decide_eq_false_2 (as_u64 _ ∈ ∅)) by set_solver. cbn [negb]. by rewrite orb_true_r.
Qed.

(** The binary has no policy to serve: under the configuration of a server, whatever
    command line, environment and file it comes from, every first map is without peers
    and SSH rules and denies every packet. *)
Theorem started_server_isolates c stack p derp dns node version r :
  initial_map (control_config c) (plane_view (control_config c) stack p) derp dns node version = Some r →
  r.(resp_peers) = Some [] ∧ default [] r.(resp_packet_filter) = []
  ∧ default ∅ r.(resp_packet_filters) !! str "base" = (if CapVer.prefers_incremental_packet_filters version then Some [] else None)
  ∧ r.(resp_ssh_policy) = None.
Proof.
  unfold initial_map. destruct (self_node_proto _ _ _) as [self|]; [|done]. cbn [mbind option_bind].
  set (pl := plane_view _ _ _). change (pl_policy pl) with Policy_default in *.
  assert (Hn := nothing_compiled (compile_nodes pl) (as_u64 node.(dn_id))). destruct Hn as (Hv & Hf & _).
  unfold visible_peers, base_filter, compiled_policy, ssh_policy_for.
  change (pl_policy pl) with Policy_default. rewrite Hv, Hf, collect_none, no_wire_rules. cbn [mbind option_bind].
  intros [= <-]. cbn [resp_peers resp_packet_filter resp_packet_filters resp_ssh_policy].
  split; [done|]. destruct (CapVer.prefers_incremental_packet_filters version).
  - split; [done|]. split; [cbn [default from_option id]; by rewrite lookup_singleton_eq|done].
  - done.
Qed.

(** ** Settings *)

(** The addresses of a suffix are those of its rules, in their order; a rule without
    an equals sign is passed over. *)
Lemma split_rules_exact rules suffix :
  default [] (split_rules rules !! suffix)
  = omap (λ rule, '(s, addr) ← split_once 61 rule; if bool_decide (s = suffix) then Some addr else None) rules.
Proof.
  assert (Hg : ∀ m : gmap text (list text), default [] (fold_left (λ m rule,
      match split_once 61 rule with Some (s, addr) => <[s := default [] (m !! s) ++ [addr]]> m | None => m end) rules m !! suffix)
    = default [] (m !! suffix)
      ++ omap (λ rule, '(s, addr) ← split_once 61 rule; if bool_decide (s = suffix) then Some addr else None) rules).
  { induction rules as [|rule rules IH]; intros m; cbn [fold_left omap list_omap]; [by rewrite app_nil_r|].
    rewrite IH. destruct (split_once 61 rule) as [[s addr]|]; [|done]. cbn [mbind option_bind].
    case_bool_decide as Hs; [|by rewrite lookup_insert_ne].
    subst s. rewrite lookup_insert_eq. cbn [default from_option id]. by rewrite <- app_assoc. }
  unfold split_rules. rewrite Hg. by rewrite lookup_empty.
Qed.

(** The DERP map names one region, under the number in its text, and its node; the STUN
    port is there to be asked only where the server listens. *)
Lemma derp_map_exact c k region :
  0 ≤ c.(sc_derp_region_id) < 2 ^ 64 →
  (build_derp_map c).(dpm_regions) !! k = Some region →
  parse_u64 k = Some region.(dpr_region_id)
  ∧ ∃ node, region.(dpr_nodes) = [node] ∧ node.(dpn_region_id) = region.(dpr_region_id)
    ∧ (c.(sc_stun_port) = 0 → node.(dpn_stun_port) = -1).
Proof.
  intros Hr. cbn [build_derp_map dpm_regions]. intros [<- <-]%lookup_singleton_Some.
  split; [by apply parse_show_u64|]. eexists. split; [done|]. split; [done|]. cbn. by intros ->.
Qed.

(** The port is cut to sixteen bits for the socket, but not in the map: clients are sent
    to a port that is none, or are told there is no STUN while the server listens. *)
Lemma stun_port_cut c :
  (stun_addr c).(sa_port) = c.(sc_stun_port) mod 2 ^ 16
  ∧ ∀ k region node, (build_derp_map c).(dpm_regions) !! k = Some region → node ∈ region.(dpr_nodes) →
      c.(sc_stun_port) ≠ 0 → node.(dpn_stun_port) = c.(sc_stun_port).
Proof.
  split; [done|]. intros k region node. cbn [build_derp_map dpm_regions]. intros [_ <-]%lookup_singleton_Some Hn%list_elem_of_singleton Hp.
  subst node. cbn. by destruct (Z.eqb_spec c.(sc_stun_port) 0).
Qed.

(** Without its flag the listener that redirects never runs, whatever the environment
    and the file say. *)
Lemma redirect_needs_flag `{RecordsJson, OidcLibrary, NoisePrimitives} {N : Type} `{!IpNetwork N} s no_redirect no_dns w args (st : Started (N := N)) :
  run w args = Ok st → with_flags s false no_redirect no_dns args → st.(st_redirect) = None.
Proof.
  intros Hrun Hf. destruct (run_started w args st Hrun) as (s0 & b & _ & Hc & _ & _ & _ & _ & Hr & _).
  assert (Hoff : st.(st_config).(sc_http_redirect) = false).
  { unfold resolve_config in Hc. destruct (load _ _ _ _) as [raw|]; cbn [rbind] in Hc; [|done]. injection Hc as <-.
    destruct Hf as (Hf & _). cbn [resolve sc_http_redirect]. unfold pick, pick_opt. cbn [overrides cli_http_redirect].
    by rewrite Hf, set_true_law. }
  unfold bind_redirect in Hr. rewrite Hoff, andb_false_r in Hr. destruct (sc_listen_http _); by injection Hr as <-.
Qed.

(** A server that is configured to serve certificates from files runs only with a chain
    and a key that fit each other, and never answers a connection without TLS. *)
Lemma started_tls_usable `{RecordsJson, OidcLibrary, NoisePrimitives} {N : Type} `{!IpNetwork N} w args (st : Started (N := N)) :
  run w args = Ok st → is_files st.(st_config).(sc_tls) = true →
  ∃ chain key, st.(st_tls) = Some (TlsFilesAcceptor chain key) ∧ chain ≠ [] ∧ w.(w_tls).(valid_pair) chain key = true
    ∧ ∀ (Q : Type) (requests : list Q), handle_connection st.(st_tls) false requests = [].
Proof.
  intros Hrun Hf. destruct (run_started w args st Hrun) as (s0 & b & _ & _ & _ & _ & _ & _ & _ & Ht).
  unfold is_files in Hf. apply andb_true_iff in Hf as [Hoff Hacme]. apply negb_true_iff in Hoff, Hacme. rewrite Hoff in Ht.
  destruct Ht as (a & Ha & Hl). pose proof Hl as [_ Hx]%load_tls_exact. destruct a as [chain key|]; [|destruct Hx; congruence].
  destruct Hx as (_ & Hne & _ & Hv & _). exists chain, key. by rewrite Ha.
Qed.

(** ** A start *)

#[local] Existing Instances demo_base64 demo_primitives single_network.
#[local] Instance boot_json : RequestJson := {|
  register_from_json _ := Some (demo_request [1] (Some (str "hskey-auth-test-secret")));
  map_from_json _ := None; logout_from_json _ := None; verify_from_json _ := None |}.
#[local] Instance boot_http : HttpLibrary := {| header_value _ := true; pkg_version := str "0" |}.

(** No certificates. *)
Definition demo_tls : TlsFiles :=
  {| pem_chain _ := None; pem_key _ := None; default_versions := true; valid_pair _ _ := true |}.

(** Nothing is configured, and no key file is there. *)
Definition demo_world : World :=
  {| w_env _ := None; w_read _ := None; w_toml _ := None; w_key_file _ := None; w_random := [9]; w_key_written := true;
     w_open _ := Err IoErr; w_records := Err []; w_discovery := HttpBody []; w_lookup _ := None; w_tls := demo_tls;
     w_bind_udp _ := true; w_bind_tcp _ := true; w_parse_url _ := None |}.

Definition demo_run : result (Started (N := IpAddr)) StartError := run demo_world (demo_args None false false false).

Definition demo_started : Started (N := IpAddr) :=
  match demo_run with
  | Ok st => st
  | Err _ => {| st_config := ServerConfig_default; st_router := demo_server_router; st_key := demo_server_key;
                st_proxies := None; st_tls := None; st_stun := None; st_redirect := None |}
  end.

Lemma demo_run_ok : demo_run = Ok demo_started.
Proof.
  assert (H : match demo_run with Ok _ => true | Err _ => false end = true) by by vm_compute.
  unfold demo_started. by destruct demo_run.
Qed.

(** The bootstrap key lets a machine in. *)
Definition demo_admitted : option (ControlRouter * InnerAnswer) :=
  handle_inner (control_config demo_started.(st_config)) 10 (demo_moment 110) (public_key [5]) demo_inner [] demo_started.(st_router).

Definition demo_admitted_router : ControlRouter := from_option fst demo_started.(st_router) demo_admitted.

(** The checker is to compare these by their definitions, not by their values. *)
Strategy expand [demo_admitted demo_admitted_router].

Lemma demo_admitted_serves :
  serves (control_config demo_started.(st_config)) 10 demo_started.(st_key) demo_started.(st_proxies)
    demo_started.(st_router) demo_admitted_router.
Proof.
  destruct demo_admitted as [[r' a]|] eqn:E.
  - assert (Hr : demo_admitted_router = r') by (unfold demo_admitted_router; by rewrite E). rewrite Hr.
    refine (serves_inner _ _ _ _ (client_request demo_client_init.2) (public_key [5]) (demo_moment 110) demo_inner [] _ _ a _ _ E).
    + assert (Hk : demo_started.(st_key) = demo_server_key) by by vm_compute. rewrite Hk. exact demo_accepted.
    + intros now f q []%not_elem_of_nil.
  - unfold demo_admitted_router. rewrite E. apply serves_refl.
Qed.


(** The first map of the machine it has admitted. *)
Definition demo_first_map : option MapResponse :=
  n ← get_node_by_node_key [1] demo_admitted_router.(control).(cp_store);
  initial_map (control_config demo_started.(st_config))
    (plane_view (control_config demo_started.(st_config)) 10 demo_admitted_router.(control))
    (build_derp_map demo_started.(st_config)) None n 113.

Strategy expand [demo_first_map].

Lemma demo_first_map_made : is_Some demo_first_map.
Proof. apply (bool_decide_eq_true_1 (is_Some demo_first_map)). by vm_compute. Qed.

Lemma started_server_isolates_witness : ∃ r, demo_first_map = Some r ∧ r.(resp_peers) = Some [].
Proof.
  destruct demo_first_map_made as [r E]. exists r. split; [exact E|]. apply bind_Some in E as (n & _ & E).
  exact (proj1 (started_server_isolates _ _ _ _ _ _ _ _ E)).
Defined.
